(* ===== verification/_CoqProject ===== *)
-Q . S2P
Prelude.v
Types.v
TreeRipple.v
SimpleCache.v
Backend.v
NFTHelpers.v
Migration.v
Verifier.v
Cql.v
Cassandra.v
Tables.v
CassandraSpec.v
CassandraCommit.v
CassandraPaging.v
AsyncWrites.v
CassandraOpen.v
MigrationCassandra.v
Monitor.v
ETLHelpers.v
LedgerRows.v
ReportingETL.v
ETLSource.v
LedgerWrites.v
BuildLedger.v
Pipeline.v
CacheLoad.v
CacheLoadCassandra.v
Publish.v
Download.v
InitialLoad.v
DosGuard.v
Json.v
Errors.v
Requests.v
Subscriptions.v
Publications.v
Directory.v
Rpc.v
WsSession.v
OrderBook.v
Subscribe.v
TxRequests.v
Validators.v
NgHandlers.v
NgAccounts.v
LedgerEntry.v
Config.v
Settings.v
Probing.v
SourceLink.v
BookChanges.v
LedgerData.v
PeerCache.v
OwnedHandlers.v
AccountReports.v
NftOffers.v
Lookups.v
TxWalk.v
