(* ===== verification/Prelude.v ===== *)
(** * clio_migrator: a verification library

    clio_migrator rewrites the NFT tables of a clio database after a change of
    schema and checks the result. It is built from clio's own sources: two
    programs ([src/src/main/main.cpp], the migrator, and [verify.cpp], the
    verifier) over clio's database layer ([src/src/backend]) and its NFT
    extraction ([src/src/etl/NFTHelpers.cpp]).

    ** How the parts interact

    The migrator reads the ledger range, then (step one) pages through the
    [nf_token_transactions] table, fetches the transactions and extracts the
    token of every mint, then (step two) pages through the first ledger and
    extracts the tokens of its NFT pages; records are written in batches, each
    followed by a barrier; (step three) the old table is dropped. The verifier
    pages through the last ledger and compares every token with its stored
    record. Ledger pages come from [BackendInterface], which answers from
    [SimpleCache] where it can and otherwise asks its implementation,
    [CassandraBackend]. That one binds statements, sends them to the driver,
    retries failed writes with backoff, throttles the writes in flight, and
    commits a ledger by a conditional update of the range.

    The repository also holds the rest of clio. Its extraction service downloads
    a first ledger from a rippled node in parallel stretches of the key space,
    then turns the difference of each further ledger into the writes of that
    ledger; both end in the same commit, and both keep the cache.

    Its server answers requests over HTTP and websockets. A session
    ([webserver/]) asks the rate limiter, parses a request and posts a job to
    the work queue; the job makes the context, forwards the request to a node or
    calls its handler ([rpc/RPC.cpp]), which reads the backend through the
    helpers of [rpc/RPCHelpers.cpp], and sends the answer to the session. A
    session subscribes to topics ([rpc/handlers/Subscribe.cpp]); the subscription
    manager sends it what the extraction publishes until it is cleaned up.

    ** The files

    - [Prelude]: results ([Res]: value, exception, exhausted fuel), the state
      and exception monad [M], triples with a normal and an exceptional
      postcondition, machine-width integers, big-endian bytes, sorting.
    - [Types]: the records of [Types.h] and [DBHelpers.h], the object-kind tests
      on blobs, [deserializeHeader] and its inverse [ledgerInfoToBlob]; the
      interface to rippled's serialized objects ([Ripple], [RippleTotal],
      [SerialCodec], [SerialLaws]). [TreeRipple] is an instance of it.
    - [SimpleCache]: the ledger cache. State: the record [SimpleCache]; one
      definition per method; [reach] is the set of states its writers can make.
    - [Backend]: the non-virtual half of [BackendInterface] over the class
      [BackendImpl] of its virtual functions; [ReadLaws] is what an
      implementation of the reads promises.
    - [NFTHelpers]: the extraction from transactions and ledger objects.
    - [Migration], [Verifier]: the two programs, over the class [MigratorDb] of
      the database operations they call; [MigratorLaws] and [VerifierLaws] are
      what they rely on.
    - [Cql]: the driver wrappers of [CassandraBackend.h] (statements, results,
      error codes), the texts of all statements and of the schema; the driver is
      the class [CassApi], its laws [CassApiLaws].
    - [Cassandra]: the class [CassandraBackend] over a session ([CassSession]).
    - [Tables]: a reference semantics of the statements on tables and the
      documented behaviour of a session ([SessionLaws]); [MemCass] satisfies it.
    - [CassandraSpec], [CassandraCommit], [CassandraPaging]: the theorems on the
      backend.
    - [AsyncWrites]: the throttle, the barrier and the write callbacks again, as a
      transition system over their atomic actions under an arbitrary schedule.
    - [CassandraOpen]: the loops of [CassandraBackend::open].
    - [MigrationCassandra]: the two programs over the backend; their contracts
      discharged, and the theorem that composes them.
    - [Monitor]: objects guarded by a mutex and a condition variable, their calls
      in threads under an arbitrary schedule. [ETLHelpers]: the queue and the
      tracker of validated ledgers as such objects; the markers.
    - [ReportingETL], [ETLSource]: the extraction: an extracted ledger turned into
      writes ([buildNextLedger]); the download of the first ledger, the balancer
      over the sources, [loadInitialLedger]. The nodes are the class
      [RippledNodes].
    - [LedgerRows]: tables that represent the ledgers up to a sequence.
      [LedgerWrites]: the writes of one ledger in phases, and the commit.
      [BuildLedger], [Download], [InitialLoad]: the theorems on the two programs.
    - [Pipeline]: the threads of [runETLPipeline] as a transition system. State:
      the record [Pipe]; one step function per thread ([extractor_thread],
      [transformer_step], [main_step]).
    - [CacheLoad]: [loadCacheFromDb], its spawning thread and its coroutines as a
      transition system over a world of [BackendInterface]. What it needs of a
      backend is the class [CacheServing]; [CacheLoadCassandra] discharges it for
      the Cassandra backend.
    - [Publish]: the two [publishLedger] and the rounds of [monitor] and
      [monitorReadOnly]. The announcements, the clock and the flags are the class
      [Publisher], what a follower relies on the class [Follows].
    - [DosGuard]: the rate limiter and the sessions that count connections.
    - [Json], [Errors]: the values of Boost.JSON as the code reads them; statuses,
      errors and warnings. What rippled says of its errors is the class
      [RippledErrors].
    - [Requests]: reading the members of a request, accounts and books
      ([RPCHelpers.cpp]). Base58, hexadecimal text and currencies are the class
      [RippleStrings], [boost::lexical_cast] the class [LexicalCast].
    - [Subscriptions]: the subscription manager. State: the record [Manager], a
      strand, a set and a counter per topic; [SubSystem] adds the threads that
      call it, and [sub_step] is one action of one thread or one handler of one
      strand. [listen] is the specification: what a session hears of a list of
      posts. [Publications]: the topics of each publication.
    - [Directory]: [traverseOwnedNodes] and the text of its cursors.
    - [Rpc]: contexts, the handler table, limits, [buildResponse], and the handling
      of a request over a websocket and over HTTP. The handlers, the forwarding
      and the clock are the class [RpcServer].
    - [WsSession]: the work queue with threads that post and work, and the
      websocket session as a sequence of events on its strand.
    - [OrderBook]: balances, freezes, transfer rates and [postProcessOrderBook].
      Amounts are the class [Amounts].
    - [Subscribe]: the handlers of [subscribe] and [unsubscribe]. What they do to
      the manager is the list of its calls ([SubscribeWorld]).
    - [TxRequests]: [traverseTransactions] with [account_tx] and [nft_history];
      the ledger a request names. Rendering is the class [TxRendering].
      [TxWalk]: the two handlers over the Cassandra backend, and a client that
      follows their markers.
    - [Validators]: the requirements that the newer handlers state of a request
      ([rpc/common]), as functions, and what each guarantees.
    - [NgHandlers]: the handlers of [rpc/ngHandlers] with their processor
      ([NgHandler], [DefaultProcessor]); the conversion of requests into inputs.
      [NgAccounts]: what two of them make of the objects of an account; a server
      that has a ledger is the class [ServesLedger]. [LedgerEntry]: the handler of
      [ledger_entry]; [names] is the specification of what a request names.
    - [Config]: the configuration reader ([config/Config.cpp]): keys, the lookup,
      every way of asking. [Settings]: what the parts of the program read with it.
    - [Probing]: the two sources of a node ([etl/ProbingETLSource.cpp]) with their
      connections as a transition system; one step per completion.
      [SourceLink]: the messages of a node's ledger stream, and the forwarding of
      transactions and requests to nodes.
    - [BookChanges], [LedgerData]: the handlers of [book_changes] and
      [ledger_data], and a client that follows the markers of the latter.
    - [OwnedHandlers]: the older handlers [account_objects], [account_lines],
      [account_offers] and [account_channels], which list what an account owns page
      by page. [AccountReports]: those that look at all of it, [noripple_check],
      [account_currencies] and [gateway_balances]. [NftOffers]: the offers for a
      token. [Lookups]: [tx], [transaction_entry], [ledger_range], [nft_info],
      [account_info] and [book_offers].
    - [PeerCache]: [loadCache] and [loadCacheFromClioPeer] as a state machine. It
      is composed with the other node's [handle_request] ([Rpc]) and [ledger_data]
      ([LedgerData]); what that node has to be is the class [NodeOk], the way of a
      message from one to the other the class [JsonWire].

    ** What is proved

    - The whole: a migration over the Cassandra backend leaves a database that
      the verifier accepts ([migration_verifies]).
    - The programs: what a migration writes, in which order, with barriers, and
      that nothing is dropped unless all of it was done ([doMigration_spec]);
      that a verification accepts only a complete and matching database
      ([doVerification_spec]); how often a timed-out read is retried
      ([doTry_retries]).
    - NFT extraction: the token and owner of mints, burns and pages as a
      function of the page changes the metadata records ([mint_spec],
      [burn_spec], [accept_spec], [getNFTDataFromObj_spec], [getNFTDataFromTx_shape],
      [cancel_spec]).
    - The cache: in every reachable state a hit is right, and a full cache is
      exact, also for neighbouring keys ([cache_get_sound],
      [cache_full_get_exact], [cache_neighbours]).
    - The interface: batch reads and ledger pages for every implementation with
      [ReadLaws] ([fetchLedgerObjects_spec], [fetchLedgerPage_spec]), and that
      the Cassandra backend is one ([Cassandra_ReadLaws]).
    - The Cassandra backend: every statement binds, to which values
      ([statements_bind], [prepared_params]); every write issued before a barrier is acknowledged
      exactly once when it returns ([writes_acknowledged]); NFT records are read
      back ([nft_roundtrip]); the commit protocol, with what its answer means where
      an update is retried ([doFinishWritesSync_spec]);
      transaction pages and their cursors ([transaction_pages]).
    - Scheduling: under every interleaving of the issuing thread, the driver's
      threads and the timers the counter is right and within its limit, the
      barrier waits for everything, no wake-up is lost and every run ends
      ([async_safety], [async_liveness]).
    - Opening: the set-up and preparation loops end with everything done
      ([open_spec]).
    - Formats: [header_roundtrip].
    - Places where the code does not do what it means to:
      [getSuccessor_race], [cancel_duplicates], [doOnlineDelete_wraps],
      [unique_nfts_first], [write_first_dir_silent].
    - The extraction: an empty database represents the first ledger after
      [loadInitialLedger] ([loadInitialLedger_represents]), and one that represents
      a ledger represents the next after [buildNextLedger]
      ([buildNextLedger_extends]).
    - The shared objects of the extraction under every schedule ([queue_threads],
      [nvl_threads]); the markers of the download ([getMarkers_partition]).
    - The pipeline under every schedule of its threads: order of the ledgers
      ([pipeline_order]), absence of deadlock without a write conflict
      ([pipeline_progress]), and the deadlock with one ([pipeline_hangs]).
    - The loading of the cache: it ends with a full and exact cache, whatever is
      applied to it meanwhile ([loadCacheFromDb_full], [loadCacheFromDb_ends]); from
      other nodes, through the server that they run ([peer_cache_load]).
    - Publishing: a reader follows the database ledger by ledger
      ([monitorReadOnly_follows]); a late announcement of a writer does harm
      ([late_publish_erases]).
    - The rate limiter agrees with a reference on histories
      ([dos_guard_reference]).
    - Subscriptions under every schedule: what a session is sent
      ([subscriptions_deliver]), the counts ([subscription_counts]), cleaning up
      ([cleanup_removes], and the race in [cleanup_race]); where a transaction is
      published ([pubTransaction_topics]). Through the handlers
      ([subscribe_all_or_nothing], [subscribe_effect]).
    - Requests: every one is answered, and with what ([ws_answer]), once
      ([ws_one_answer]), in order and to the end ([ws_fifo]); the bound of the
      work queue ([work_queue_bound]); the counters ([counters_balance]) and the
      limits ([getLimit_bounds]).
    - Paging: a directory ([traverse_pages], [cursor_roundtrip]), what an account
      owns through four handlers ([owned_walks]), the offers for a token
      ([nft_offers_walk]) and the
      transactions of an account or a token, from the request to the database
      ([tx_window_spec], [tx_walk]).
    - The newer handlers: validation makes the conversion safe
      ([validated_inputs]); the channels of an account ([channels_walk]), the
      balances of a gateway ([gateway_partition]; its sums are folds of the
      library's subtraction, which rounds, and exact where that is,
      [owed_exact]), which the older handler reports the same ([gateway_same]), a
      ledger entry
      ([ledger_entry_found]).
    - Order books: owners do not pay more than they have ([xrp_book_funds]); the
      changes of a ledger ([book_changes_reference]).
    - The check of the no-ripple flags ([noripple_report]). Looking a transaction
      up: the two handlers of [tx] agree ([tx_same]), in one ledger
      ([transaction_entry_found]).
    - Reading a whole ledger through [ledger_data] ([ledger_data_walk]).
    - The configuration: every question, on every branch ([config_lookup]); the
      bounds of what is read ([settings_bounds]).
    - The nodes: under every order of completions who is selected and who
      subscribes ([probing_safety]), what a loss leads to and when it is for ever
      ([probing_loss]); the ledgers a node announces ([announced_ranges]); whose
      transactions are passed on ([transactions_forwarded]); who answers a
      forwarded request ([forward_request]).

    ** Integers, fuel and scheduling

    256-bit keys, account ids and 32- or 64-bit integers are [Z]; arithmetic that
    can leave the width is wrapped by [u32] or [u64] where the code wraps. Loops
    the source does not bound take fuel, and [triple] excludes running out of
    it: each theorem says how much is enough (pages of the table, keys of the
    ledger divided by the page size, failures the session still has in store).
    Sessions fail finitely often; how often is the [patience] of a world, an
    arbitrary number.

    A driver callback runs when its request is answered. The model answers a
    request when it is sent; a failed write is queued and sent again when the
    writer waits (for a free slot or at the barrier), which is when the backoff
    timers of the source run. Acknowledgement order is therefore not the issue
    order, and the theorems speak of permutations. [AsyncWrites] drops this
    restriction for the protocol itself.

    ** What is not modelled

    The records and sinks of the log (Boost.Log's); the two [main] functions, which
    read the configuration's file and start the coroutine; settings of type
    double; the configuration of the driver's cluster object in
    [CassandraBackend::open]; [BackendIndexer.cpp], which no target builds.

    Of the extraction the gRPC stubs, the options and the transport of the
    websockets to the nodes. [peer_cache_load] is about a node whose newest ledger
    stays the same while it is asked: a key that a later ledger deletes would be
    looked up behind, of which the contract of the backend says nothing. Of the
    server sockets, TLS and the HTTP session's
    reads and writes; the rendering of ledger objects and transactions as JSON,
    which is rippled's for the most part; of the older request handlers [ledger],
    [server_info], [random], [account_nfts], [ledger_entry] and the two that sign and
    verify for channels; [keypairFromRequst]. *)

From stdpp Require Import base list gmap strings sorting.
From Stdlib Require Import ZArith Lia.

Open Scope Z_scope.

(** ** Outcomes: exceptions, results, stateful computations *)

(** The C++ exceptions the modelled code throws or catches. *)
Inductive Exn :=
| DatabaseTimeout
| RuntimeError (what : string)
| BadOptionalAccess
| OutOfRange
| DivisionByZero
| InvalidParamsError (msg : string)
| AccountNotFoundError (account : string)
| LibraryError (what : string).

#[export] Instance Exn_eq_dec : EqDecision Exn.
Proof. solve_decision. Defined.

(** Result of a computation: a value, an exception, or exhausted fuel (the
    bound given to a loop that the source does not bound). *)
Inductive Res (A : Type) : Type :=
| Ok (a : A)
| Throw (e : Exn)
| NoFuel.
Arguments Ok {A} a.
Arguments Throw {A} e.
Arguments NoFuel {A}.

#[export] Instance Res_ret : MRet Res := fun A a => Ok a.
#[export] Instance Res_bind : MBind Res := fun A B f m =>
  match m with Ok a => f a | Throw e => Throw e | NoFuel => NoFuel end.

(** [mapM]-like traversal of a list in the error monad, left to right. *)
Fixpoint res_map {A B : Type} (f : A -> Res B) (l : list A) : Res (list B) :=
  match l with
  | [] => Ok []
  | x :: l' => y ← f x; ys ← res_map f l'; Ok (y :: ys)
  end.

(** A loop over a list that threads a state and may throw. *)
Fixpoint res_fold {A B : Type} (f : A -> B -> Res A) (acc : A) (l : list B) : Res A :=
  match l with
  | [] => Ok acc
  | x :: l' => acc' ← f acc x; res_fold f acc' l'
  end.

(** [std::find_if] with a predicate that may throw. *)
Fixpoint res_find_if {A : Type} (p : A -> Res bool) (l : list A) : Res (option A) :=
  match l with
  | [] => Ok None
  | x :: l' => b ← p x; if (b : bool) then Ok (Some x) else res_find_if p l'
  end.

(** State and exceptions over a world [W]. *)
Definition M (W A : Type) : Type := W -> Res A * W.

#[export] Instance M_ret {W} : MRet (M W) := fun A a w => (Ok a, w).
#[export] Instance M_bind {W} : MBind (M W) := fun A B f m w =>
  match m w with
  | (Ok a, w') => f a w'
  | (Throw e, w') => (Throw e, w')
  | (NoFuel, w') => (NoFuel, w')
  end.

(** Read a field; change the state. *)
Definition gets {W A} (f : W -> A) : M W A := fun w => (Ok (f w), w).
Definition modify {W} (f : W -> W) : M W unit := fun w => (Ok tt, f w).

Definition throw {W A} (e : Exn) : M W A := fun w => (Throw e, w).
Definition no_fuel {W A} : M W A := fun w => (NoFuel, w).
Definition lift_res {W A} (r : Res A) : M W A := fun w => (r, w).

(** [try { m } catch (DatabaseTimeout) { h }]. *)
Definition catch_timeout {W A} (m h : M W A) : M W A := fun w =>
  match m w with
  | (Throw DatabaseTimeout, w') => h w'
  | r => r
  end.

(** [try { m } catch (std::exception const&) { h }]. *)
Definition catch_all {W A} (m h : M W A) : M W A := fun w =>
  match m w with
  | (Throw _, w') => h w'
  | r => r
  end.

(** A loop over a list that threads a value and may change the state. *)
Fixpoint m_fold {W A B} (f : A -> B -> M W A) (acc : A) (l : list B) : M W A :=
  match l with
  | [] => mret acc
  | x :: l' => acc' ← f acc x; m_fold f acc' l'
  end.

(** Two computations are equivalent when they agree on every world. *)
Definition meq {W A} (m1 m2 : M W A) : Prop := forall w, m1 w = m2 w.

(** ** Machine integers *)

Definition u8 (z : Z) : Z := z mod 2 ^ 8.
Definition u16 (z : Z) : Z := z mod 2 ^ 16.
Definition u32 (z : Z) : Z := z mod 2 ^ 32.
Definition u64 (z : Z) : Z := z mod 2 ^ 64.

(** The low 32 bits as a signed number. *)
Definition i32 (z : Z) : Z := let w := u32 z in if w <? 2 ^ 31 then w else w - 2 ^ 32.

(** Big-endian bytes of the low [8 * n] bits, and the value of a byte string. *)
Definition be_encode (n : nat) (z : Z) : list Z :=
  (fun i => u8 (Z.shiftr z (8 * (Z.of_nat n - 1 - Z.of_nat i)))) <$> seq 0 n.

Definition be_decode (bs : list Z) : Z := foldl (fun acc b => acc * 256 + b) 0 bs.

(** ** The parts of the C++ standard library the code relies on *)

Fixpoint sort_insert {A} (lt : A -> A -> bool) (x : A) (l : list A) : list A :=
  match l with
  | [] => [x]
  | y :: l' => if lt x y then x :: y :: l' else y :: sort_insert lt x l'
  end.

(** [std::sort] with comparator [lt], by insertion. The library does not say in
    which order it leaves elements that [lt] does not tell apart: here it is that
    of the list, one of the outcomes the library allows. *)
Definition std_sort {A} (lt : A -> A -> bool) (l : list A) : list A :=
  foldl (fun acc x => sort_insert lt x acc) [] l.

(** [std::unique] followed by [erase]: of each run of adjacent equal elements
    the first is kept. *)
Fixpoint unique_from {A} (eqb : A -> A -> bool) (x : A) (l : list A) : list A :=
  match l with
  | [] => [x]
  | y :: l' => if eqb x y then unique_from eqb x l' else x :: unique_from eqb y l'
  end.

Definition std_unique {A} (eqb : A -> A -> bool) (l : list A) : list A :=
  match l with [] => [] | x :: l' => unique_from eqb x l' end.

(** [std::set_difference] on two sorted ranges. *)
Fixpoint set_difference (l1 : list Z) : list Z -> list Z :=
  fix go (l2 : list Z) : list Z :=
    match l1 with
    | [] => []
    | x :: xs =>
        match l2 with
        | [] => l1
        | y :: ys =>
            if x <? y then x :: set_difference xs l2
            else if y <? x then go ys
            else set_difference xs ys
        end
    end.

(** [std::map::upper_bound] and the element before [std::map::lower_bound]:
    the entry with the least key above [k], with the greatest key below [k]. *)
Definition better {V} (cmp : Z -> Z -> bool) (kv : Z * V) (best : option (Z * V)) : option (Z * V) :=
  match best with
  | None => Some kv
  | Some b => if cmp kv.1 b.1 then Some kv else best
  end.

Definition upper_bound {V} (k : Z) (m : gmap Z V) : option (Z * V) :=
  foldr (fun kv best => if k <? kv.1 then better Z.ltb kv best else best) None
        (map_to_list m).

Definition before_lower_bound {V} (k : Z) (m : gmap Z V) : option (Z * V) :=
  foldr (fun kv best => if kv.1 <? k then better Z.gtb kv best else best) None
        (map_to_list m).

(** Hoare triples: [Q] holds of a normal outcome, [E] of an exceptional one,
    and fuel is never exhausted. *)
Definition triple {W A} (P : W -> Prop) (m : M W A)
    (Q : A -> W -> Prop) (E : Exn -> W -> Prop) : Prop :=
  forall w, P w ->
  match m w with
  | (Ok a, w') => Q a w'
  | (Throw e, w') => E e w'
  | (NoFuel, _) => False
  end.

(** No exception. *)
Definition noexn {W} (_ : Exn) (_ : W) : Prop := False.

Create HintDb clio.
Create Rewrite HintDb clio_rw.
Create Rewrite HintDb wrap_rw.
Create HintDb total.

(** Split the matches and ifs of the goal, one at a time. *)
Ltac break_match :=
  match goal with
  | |- context [match ?x with _ => _ end] => destruct x eqn:?
  end.
Ltac break_match_hyp :=
  match goal with
  | H : context [match ?x with _ => _ end] |- _ => destruct x eqn:?
  end.

(** Undo the unfolding of [<$>] that [simpl] leaves behind. *)
Ltac fold_fmap :=
  repeat match goal with
  | |- context [list_fmap ?A ?B ?f ?l] => change (list_fmap A B f l) with (f <$> l)
  end.

(** Take apart a successful [mbind] in the error monad. *)
Ltac bind_inv H :=
  repeat match type of H with
  | mbind _ ?m = Ok _ =>
      let E := fresh "E" in
      destruct m eqn:E; cbn [mbind Res_bind] in H; [|discriminate H..]
  | (let '(_, _) := ?p in _) = Ok _ => destruct p
  | (if ?b then _ else _) = Ok _ => let E := fresh "E" in destruct b eqn:E; try discriminate H
  end.

(** Turn boolean comparisons of integers into propositions. *)
Ltac zbool :=
  repeat match goal with
  | H : (_ <? _) = true |- _ => apply Z.ltb_lt in H
  | H : (_ <? _) = false |- _ => apply Z.ltb_ge in H
  | H : (_ >? _) = true |- _ => rewrite Z.gtb_ltb in H; apply Z.ltb_lt in H
  | H : (_ >? _) = false |- _ => rewrite Z.gtb_ltb in H; apply Z.ltb_ge in H
  | H : (_ <=? _) = true |- _ => apply Z.leb_le in H
  | H : (_ <=? _) = false |- _ => apply Z.leb_gt in H
  | H : (_ >=? _) = true |- _ => rewrite Z.geb_leb in H; apply Z.leb_le in H
  | H : (_ >=? _) = false |- _ => rewrite Z.geb_leb in H; apply Z.leb_gt in H
  | H : (_ =? _) = true |- _ => apply Z.eqb_eq in H
  | H : (_ =? _) = false |- _ => apply Z.eqb_neq in H
  | H : (_ && _) = true |- _ => apply andb_true_iff in H; destruct H
  | H : (_ || _) = false |- _ => apply orb_false_iff in H; destruct H
  | H : negb _ = true |- _ => apply negb_true_iff in H
  | H : negb _ = false |- _ => apply negb_false_iff in H
  end.

(** ** Computations: equivalence and monad laws *)

Section monad_laws.
Context {W : Type}.

#[export] Instance meq_equivalence A : Equivalence (@meq W A).
Proof.
  split.
  - intros m w. reflexivity.
  - intros m1 m2 H w. symmetry. apply H.
  - intros m1 m2 m3 H1 H2 w. etrans; [apply H1 | apply H2].
Qed.

#[export] Instance mbind_proper A B :
  Proper (pointwise_relation A (@meq W B) ==> @meq W A ==> @meq W B) mbind.
Proof.
  intros f g Hfg m1 m2 Hm w. unfold mbind, M_bind. rewrite Hm.
  destruct (m2 w) as [[a|e|] w']; [apply Hfg | done | done].
Qed.

#[export] Instance catch_timeout_proper A :
  Proper (@meq W A ==> @meq W A ==> @meq W A) catch_timeout.
Proof.
  intros m1 m2 Hm h1 h2 Hh w. unfold catch_timeout. rewrite Hm.
  destruct (m2 w) as [[a|[]|] w']; [done | apply Hh | done ..].
Qed.

Lemma bind_ret_l {A B} (a : A) (f : A -> M W B) : meq (mret a ≫= f) (f a).
Proof. intros w. reflexivity. Qed.

Lemma bind_ret_r {A} (m : M W A) : meq (m ≫= mret) m.
Proof. intros w. unfold mbind, M_bind, mret, M_ret. by destruct (m w) as [[a|e|] w']. Qed.

Lemma bind_assoc {A B C} (m : M W A) (f : A -> M W B) (g : B -> M W C) :
  meq ((m ≫= f) ≫= g) (m ≫= (fun a => f a ≫= g)).
Proof. intros w. unfold mbind, M_bind. by destruct (m w) as [[a|e|] w']. Qed.

End monad_laws.

(** ** Triples *)

Section triples.
Context {W : Type}.
Implicit Types P : W -> Prop.

Lemma triple_ret {A} P (a : A) Q E :
  (forall w, P w -> Q a w) -> triple P (mret a) Q E.
Proof. intros H w Hw. by apply H. Qed.

Lemma triple_throw {A} P e (Q : A -> W -> Prop) E :
  (forall w, P w -> E e w) -> triple P (throw e) Q E.
Proof. intros H w Hw. by apply H. Qed.

Lemma triple_bind {A B} P (m : M W A) (f : A -> M W B) R Q E :
  triple P m R E -> (forall a, triple (R a) (f a) Q E) -> triple P (m ≫= f) Q E.
Proof.
  intros Hm Hf w Hw. specialize (Hm w Hw). unfold mbind, M_bind.
  destruct (m w) as [[a|e|] w']; [by apply Hf | done | done].
Qed.

Lemma triple_conseq {A} P P' (m : M W A) Q Q' E E' :
  triple P' m Q' E' -> (forall w, P w -> P' w) ->
  (forall a w, Q' a w -> Q a w) -> (forall e w, E' e w -> E e w) ->
  triple P m Q E.
Proof.
  intros Hm HP HQ HE w Hw. specialize (Hm w (HP w Hw)).
  destruct (m w) as [[a|e|] w']; eauto.
Qed.

Lemma triple_pre_pure {A} (X : Prop) P (m : M W A) Q E :
  (X -> triple P m Q E) -> triple (fun w => X /\ P w) m Q E.
Proof. intros H w [HX Hw]. by apply H. Qed.

Lemma triple_pre_exists {A X} (P : X -> W -> Prop) (m : M W A) Q E :
  (forall x, triple (P x) m Q E) -> triple (fun w => exists x, P x w) m Q E.
Proof. intros H w [x Hw]. by apply (H x). Qed.

Lemma triple_lift {A} P (r : Res A) Q E :
  (forall w, P w -> match r with Ok a => Q a w | Throw e => E e w | NoFuel => False end) ->
  triple P (lift_res r) Q E.
Proof. intros H w Hw. specialize (H w Hw). unfold lift_res. by destruct r. Qed.

(** A pure step that may throw, followed by the rest. *)
Lemma triple_lift_bind {A B} P (r : Res A) (f : A -> M W B) Q E :
  r <> NoFuel -> (forall e w, r = Throw e -> P w -> E e w) ->
  (forall a, r = Ok a -> triple P (f a) Q E) -> triple P (lift_res r ≫= f) Q E.
Proof.
  intros Hn He Hf w Hw. unfold lift_res, mbind, M_bind.
  destruct r as [a|e|]; [by apply Hf | by apply He | done].
Qed.

Lemma triple_ok_bind {A B} P (a : A) (f : A -> M W B) Q E :
  triple P (f a) Q E -> triple P (lift_res (Ok a) ≫= f) Q E.
Proof. done. Qed.

(** Without exceptions the computation returns. *)
Lemma triple_run {A} P (m : M W A) Q w :
  triple P m Q noexn -> P w -> exists a w', m w = (Ok a, w') /\ Q a w'.
Proof.
  intros H Hw. specialize (H w Hw). destruct (m w) as [[a|e|] w']; [eauto | done | done].
Qed.

(** A timeout handler is entered exactly with the worlds in which the body
    timed out; every other exception passes through. *)
Lemma triple_catch {A} P (m h : M W A) Q E T :
  triple P m Q (fun e w => if decide (e = DatabaseTimeout) then T w else E e w) ->
  triple T h Q E -> triple P (catch_timeout m h) Q E.
Proof.
  intros Hm Hh w Hw. specialize (Hm w Hw). unfold catch_timeout.
  destruct (m w) as [[a|e|] w']; [done | | done].
  destruct e; simpl in *; try done. by apply Hh.
Qed.

(** A loop: [I] holds of what was processed, the value and the state. *)
Lemma triple_catch_all {A} P (m h : M W A) Q E T :
  triple P m Q (fun _ w => T w) -> triple T h Q E -> triple P (catch_all m h) Q E.
Proof.
  intros Hm Hh w Hw. specialize (Hm w Hw). unfold catch_all.
  destruct (m w) as [[a|e|] w']; [done | by apply Hh | done].
Qed.

Lemma triple_gets {A B} P (f : W -> A) (k : A -> M W B) Q E :
  (forall a, triple (fun w => P w /\ f w = a) (k a) Q E) -> triple P (gets f ≫= k) Q E.
Proof. intros Hk w Hw. by apply (Hk (f w) w). Qed.

Lemma triple_m_fold {A B} (f : A -> B -> M W A) (I : list B -> A -> W -> Prop) E l pre acc :
  (forall pre x acc, x ∈ l -> triple (I pre acc) (f acc x) (fun acc' => I (pre ++ [x]) acc') E) ->
  triple (I pre acc) (m_fold f acc l) (fun acc' => I (pre ++ l) acc') E.
Proof.
  revert pre acc. induction l as [|x l IH]; intros pre acc Hf; cbn [m_fold].
  - apply triple_ret. intros w. by rewrite app_nil_r.
  - eapply triple_bind; [apply Hf; by left|]. intros acc'.
    eapply triple_conseq; [apply (IH (pre ++ [x]) acc'); intros; apply Hf; by right | done | | done].
    intros a w. by rewrite <- app_assoc.
Qed.

End triples.

(** ** Results *)

Lemma res_map_ok {A B} (f : A -> Res B) (l : list A) (ys : list B) :
  res_map f l = Ok ys <-> Forall2 (fun x y => f x = Ok y) l ys.
Proof.
  revert ys. induction l as [|x l IH]; intros ys; simpl.
  - split; [by intros [= <-] | by inversion 1].
  - destruct (f x) as [y|e|] eqn:Hx; simpl;
      [| split; [done | inversion 1; congruence] ..].
    destruct (res_map f l) as [ys'|e|] eqn:Hl; simpl;
      [| split; [done | inversion 1; subst; by apply IH in H4] ..].
    split.
    + intros [= <-]. constructor; [done | by apply IH].
    + inversion 1 as [|? y0 ? ys0 H1 H2]; subst. apply IH in H2. congruence.
Qed.

(** With a predicate that does not throw, [res_find_if] is the first match. *)
Lemma res_find_if_pure {A} (p : A -> bool) (l : list A) :
  res_find_if (fun x => Ok (p x)) l = Ok (snd <$> list_find p l).
Proof.
  induction l as [|x l IH]; simpl; [done|].
  unfold decide, decide_rel. destruct (p x) eqn:Hp; simpl.
  - by destruct (Is_true_dec true).
  - destruct (Is_true_dec false) as [Hf|]; [by destruct Hf|].
    change (res_find_if (fun x0 => Ok (p x0)) l = Ok (snd <$> (prod_map S id <$> list_find p l))).
    rewrite IH. by destruct (list_find p l) as [[]|].
Qed.

(** Computations that return or throw: no loop in them runs out of fuel. *)
Definition total {A} (r : Res A) : Prop := r <> NoFuel.

Lemma total_ok {A} (a : A) : total (Ok a).
Proof. done. Qed.

Lemma total_throw {A} e : total (Throw e : Res A).
Proof. done. Qed.

Lemma total_bind {A B} (m : Res A) (f : A -> Res B) :
  total m -> (forall a, m = Ok a -> total (f a)) -> total (m ≫= f).
Proof. intros Hm Hf. destruct m as [a| |]; [by apply Hf | done | by destruct Hm]. Qed.

Lemma total_map {A B} (f : A -> Res B) l : (forall x, total (f x)) -> total (res_map f l).
Proof.
  intros Hf. induction l as [|x l IH]; simpl; [done|].
  apply total_bind; [done|]. intros y _. by apply total_bind.
Qed.

Lemma total_fold {A B} (f : A -> B -> Res A) a l :
  (forall a x, total (f a x)) -> total (res_fold f a l).
Proof.
  intros Hf. revert a. induction l as [|x l IH]; intros a; simpl; [done|].
  apply total_bind; [done|]. intros a' _. apply IH.
Qed.

Lemma total_find_if {A} (p : A -> Res bool) l : (forall x, total (p x)) -> total (res_find_if p l).
Proof.
  intros Hp. induction l as [|x l IH]; simpl; [done|].
  apply total_bind; [done|]. intros [] _; [done | exact IH].
Qed.

#[export] Hint Resolve total_ok total_throw total_map total_fold total_find_if : total.

(** Walks through a computation in the error monad. *)
Ltac total_step :=
  lazymatch goal with
  | |- total (_ ≫= _) => apply total_bind
  | |- forall _, _ => intro
  | |- total (match ?x with _ => _ end) => destruct x
  | |- _ => solve [auto 3 with total nocore]
  end.
Ltac solve_total := repeat total_step.

(** ** Sorting, deduplication and differences of ranges *)

Lemma sort_insert_perm {A} (lt : A -> A -> bool) x l :
  sort_insert lt x l ≡ₚ x :: l.
Proof.
  induction l as [|y l IH]; simpl; [done|]. destruct (lt x y); [done|].
  rewrite IH. apply Permutation_swap.
Qed.

Lemma std_sort_acc_perm {A} (lt : A -> A -> bool) l acc :
  foldl (fun acc x => sort_insert lt x acc) acc l ≡ₚ acc ++ l.
Proof.
  revert acc. induction l as [|x l IH]; intros acc; simpl.
  - by rewrite app_nil_r.
  - rewrite IH, sort_insert_perm. apply Permutation_middle.
Qed.

Lemma std_sort_perm {A} (lt : A -> A -> bool) l : std_sort lt l ≡ₚ l.
Proof. apply std_sort_acc_perm. Qed.

(** With a strict order (whose negation is transitive) the result is sorted. *)
Lemma sort_insert_ordered {A} (lt : A -> A -> bool) x l :
  (forall a b, lt a b = true -> lt b a = false) ->
  (forall a b c, lt b a = false -> lt c b = false -> lt c a = false) ->
  StronglySorted (fun a b => lt b a = false) l ->
  StronglySorted (fun a b => lt b a = false) (sort_insert lt x l).
Proof.
  intros Ha Ht. induction l as [|y l IH]; intros Hs; simpl; [by repeat constructor|].
  apply StronglySorted_inv in Hs as [Hs Hy]. destruct (lt x y) eqn:Hxy.
  - constructor; [by constructor|]. constructor; [by apply Ha|].
    eapply Forall_impl; [exact Hy|]. intros z Hz. eapply Ht; [by apply Ha | done].
  - constructor; [by apply IH|]. apply Forall_forall. intros z. rewrite sort_insert_perm.
    intros [->|Hz]%elem_of_cons; [done|]. rewrite Forall_forall in Hy. by apply Hy.
Qed.

Lemma std_sort_ordered {A} (lt : A -> A -> bool) l :
  (forall a b, lt a b = true -> lt b a = false) ->
  (forall a b c, lt b a = false -> lt c b = false -> lt c a = false) ->
  StronglySorted (fun a b => lt b a = false) (std_sort lt l).
Proof.
  intros Ha Ht. unfold std_sort.
  assert (forall acc, StronglySorted (fun a b => lt b a = false) acc ->
    StronglySorted (fun a b => lt b a = false) (foldl (fun acc x => sort_insert lt x acc) acc l)) as Hgen.
  { induction l as [|x l IH]; intros acc Hacc; simpl; [done|]. apply IH. by apply sort_insert_ordered. }
  apply Hgen. constructor.
Qed.

(** With a comparator that never holds the order is left as it was. *)
Lemma std_sort_const_false {A} (lt : A -> A -> bool) (l : list A) :
  (forall x y, x ∈ l -> y ∈ l -> lt x y = false) -> std_sort lt l = l.
Proof.
  intros H. unfold std_sort.
  assert (forall suf pre, pre ++ suf = l ->
    foldl (fun acc x => sort_insert lt x acc) pre suf = l) as Hgen; [|by apply Hgen].
  induction suf as [|x suf IH]; intros pre Hl; simpl.
  - by rewrite app_nil_r in Hl.
  - assert (sort_insert lt x pre = pre ++ [x]) as ->.
    { assert (forall y, y ∈ pre -> lt x y = false) as Hp.
      { intros y Hy. apply H; rewrite <- Hl; set_solver. }
      clear IH Hl. induction pre as [|y pre IHp]; simpl; [done|].
      rewrite Hp by set_solver. f_equal. apply IHp. set_solver. }
    apply IH. by rewrite <- app_assoc.
Qed.

Lemma sort_insert_sorted x l :
  StronglySorted Z.le l -> StronglySorted Z.le (sort_insert Z.ltb x l).
Proof.
  induction 1 as [|y l Hs IH Hy]; simpl; [by repeat constructor|].
  destruct (x <? y) eqn:Hxy; zbool; constructor; try (constructor; [lia|]).
  - by constructor.
  - eapply Forall_impl; [exact Hy|]. simpl. lia.
  - exact IH.
  - rewrite sort_insert_perm. constructor; [lia | done].
Qed.

Lemma std_sort_sorted l : StronglySorted Z.le (std_sort Z.ltb l).
Proof.
  unfold std_sort. assert (StronglySorted Z.le ([] : list Z)) as H by constructor.
  revert H. generalize ([] : list Z). induction l as [|x l IH]; intros acc H; simpl; [done|].
  by apply IH, sort_insert_sorted.
Qed.

Abbreviation countZ := (count_occ Z.eq_dec).

Lemma countZ_perm l1 l2 x : l1 ≡ₚ l2 -> countZ l1 x = countZ l2 x.
Proof. intros H. by apply Permutation_count_occ. Qed.

Lemma countZ_below x y l :
  StronglySorted Z.le (y :: l) -> x < y -> countZ (y :: l) x = 0%nat.
Proof.
  intros Hs Hx. apply count_occ_not_In. rewrite <- list_elem_of_In. intros Hin.
  apply StronglySorted_inv in Hs as [_ Hall].
  apply elem_of_cons in Hin as [->|Hin]; [lia|].
  rewrite Forall_forall in Hall. specialize (Hall x Hin). lia.
Qed.

(** On sorted ranges the result holds each value as often as the first range
    has it more than the second. *)
Lemma set_difference_count l1 l2 x :
  StronglySorted Z.le l1 -> StronglySorted Z.le l2 ->
  countZ (set_difference l1 l2) x = (countZ l1 x - countZ l2 x)%nat.
Proof.
  intros H1. revert l2.
  induction H1 as [|a l1 Hs1 IH1 Ha]; intros l2 H2; [by destruct l2|].
  induction H2 as [|b l2 Hs2 IH2 Hb].
  { change (set_difference (a :: l1) []) with (a :: l1). simpl (countZ [] x). lia. }
  assert (StronglySorted Z.le (a :: l1)) as S1 by by constructor.
  assert (StronglySorted Z.le (b :: l2)) as S2 by by constructor.
  change (set_difference (a :: l1) (b :: l2)) with
    (if a <? b then a :: set_difference l1 (b :: l2)
     else if b <? a then set_difference (a :: l1) l2
     else set_difference l1 l2).
  destruct (a <? b) eqn:Hab; [|destruct (b <? a) eqn:Hba]; zbool.
  - cbn [count_occ]. destruct (Z.eq_dec a x) as [->|Hax].
    + rewrite IH1 by done. pose proof (countZ_below x b l2 S2 Hab). cbn [count_occ] in *. lia.
    + rewrite IH1 by done. cbn [count_occ]. done.
  - rewrite IH2. cbn [count_occ] in *. destruct (Z.eq_dec b x) as [->|Hbx]; [|done].
    pose proof (countZ_below x a l1 S1 Hba) as Hz. cbn [count_occ] in Hz. rewrite Hz. lia.
  - assert (a = b) as -> by lia. rewrite IH1 by done. cbn [count_occ].
    destruct (Z.eq_dec b x); lia.
Qed.

Lemma unique_from_elem {A} (eqb : A -> A -> bool) x l y :
  y ∈ unique_from eqb x l -> y ∈ x :: l.
Proof.
  revert x. induction l as [|z l IH]; intros x; simpl; [done|].
  destruct (eqb x z); rewrite ?elem_of_cons.
  - intros H%IH. set_solver.
  - intros [->|H%IH]; set_solver.
Qed.

Lemma std_unique_elem {A} (eqb : A -> A -> bool) l y : y ∈ std_unique eqb l -> y ∈ l.
Proof. destruct l; simpl; [done | apply unique_from_elem]. Qed.

(** Every element keeps a representative: an element of the output with the
    same key, when the predicate compares a key on the elements of the list. *)
Lemma unique_from_repr {A B} `{EqDecision B} (eqb : A -> A -> bool) (f : A -> B) x l y :
  y ∈ x :: l ->
  (forall a b, a ∈ x :: l -> b ∈ x :: l -> eqb a b = bool_decide (f a = f b)) ->
  exists z, z ∈ unique_from eqb x l /\ f z = f y.
Proof.
  revert x y. induction l as [|z l IH]; intros x y Hy Heq; simpl; [by exists y|].
  assert (forall w, w ∈ z :: l -> exists v, v ∈ unique_from eqb z l /\ f v = f w) as IHz.
  { intros w Hw. apply IH; [done|]. intros a b Ha Hb. apply Heq; by right. }
  rewrite Heq by (repeat constructor). case_bool_decide as Hxz.
  - assert (forall w, w ∈ x :: l -> exists v, v ∈ unique_from eqb x l /\ f v = f w) as IHx.
    { intros w Hw. apply IH; [done|]. intros a b Ha Hb.
      apply Heq; rewrite !elem_of_cons in *; naive_solver. }
    rewrite !elem_of_cons in Hy. destruct Hy as [->|[->|Hy]].
    + apply IHx. by left.
    + destruct (IHx x) as (v & Hv & He); [by left|]. exists v. split; [done | congruence].
    + apply IHx. by right.
  - apply elem_of_cons in Hy as [->|Hy]; [exists x; split; [by left | done]|].
    destruct (IHz y Hy) as (v & Hv & He). exists v. split; [by right | done].
Qed.

(** ** Ordered lookup in maps *)

Section map_bounds.
Context {V : Type}.
Implicit Types (m : gmap Z V) (l : list (Z * V)).

Lemma upper_bound_list k l :
  match foldr (fun kv best => if k <? kv.1 then better Z.ltb kv best else best) None l with
  | Some b => b ∈ l /\ k < b.1 /\ forall kv, kv ∈ l -> k < kv.1 -> b.1 <= kv.1
  | None => forall kv, kv ∈ l -> kv.1 <= k
  end.
Proof.
  induction l as [|kv l IH]; simpl; [by intros ? ?%not_elem_of_nil|].
  destruct (k <? kv.1) eqn:Hk; zbool;
    destruct (foldr _ None l) as [b|]; simpl.
  - destruct IH as (Hb & Hkb & Hmin). destruct (kv.1 <? b.1) eqn:Hlt; zbool.
    + split_and!; [set_solver | done |]. intros kv' Hin Hk'.
      apply elem_of_cons in Hin as [->|Hin]; [lia|]. specialize (Hmin kv' Hin Hk'). lia.
    + split_and!; [set_solver | done |]. intros kv' Hin Hk'.
      apply elem_of_cons in Hin as [->|Hin]; [lia|]. by apply Hmin.
  - split_and!; [set_solver | done |]. intros kv' Hin Hk'.
    apply elem_of_cons in Hin as [->|Hin]; [lia|]. specialize (IH kv' Hin). lia.
  - destruct IH as (Hb & Hkb & Hmin). split_and!; [set_solver | done |].
    intros kv' Hin Hk'. apply elem_of_cons in Hin as [->|Hin]; [lia|]. by apply Hmin.
  - intros kv' Hin. apply elem_of_cons in Hin as [->|Hin]; [lia|]. by apply IH.
Qed.

Lemma before_lower_bound_list k l :
  match foldr (fun kv best => if kv.1 <? k then better Z.gtb kv best else best) None l with
  | Some b => b ∈ l /\ b.1 < k /\ forall kv, kv ∈ l -> kv.1 < k -> kv.1 <= b.1
  | None => forall kv, kv ∈ l -> k <= kv.1
  end.
Proof.
  induction l as [|kv l IH]; simpl; [by intros ? ?%not_elem_of_nil|].
  destruct (kv.1 <? k) eqn:Hk; zbool;
    destruct (foldr _ None l) as [b|]; simpl.
  - destruct IH as (Hb & Hkb & Hmin). destruct (kv.1 >? b.1) eqn:Hlt; zbool.
    + split_and!; [set_solver | done |]. intros kv' Hin Hk'.
      apply elem_of_cons in Hin as [->|Hin]; [lia|]. specialize (Hmin kv' Hin Hk'). lia.
    + split_and!; [set_solver | done |]. intros kv' Hin Hk'.
      apply elem_of_cons in Hin as [->|Hin]; [lia|]. by apply Hmin.
  - split_and!; [set_solver | done |]. intros kv' Hin Hk'.
    apply elem_of_cons in Hin as [->|Hin]; [lia|]. specialize (IH kv' Hin). lia.
  - destruct IH as (Hb & Hkb & Hmin). split_and!; [set_solver | done |].
    intros kv' Hin Hk'. apply elem_of_cons in Hin as [->|Hin]; [lia|]. by apply Hmin.
  - intros kv' Hin. apply elem_of_cons in Hin as [->|Hin]; [lia|]. by apply IH.
Qed.

Lemma upper_bound_Some k m k' v :
  upper_bound k m = Some (k', v) <->
  m !! k' = Some v /\ k < k' /\ forall j, k < j < k' -> m !! j = None.
Proof.
  pose proof (upper_bound_list k (map_to_list m)) as H. unfold upper_bound.
  destruct (foldr _ None (map_to_list m)) as [[k0 v0]|] eqn:E; simpl in H.
  - destruct H as (Hin & Hk & Hmin). apply elem_of_map_to_list in Hin.
    assert (forall j, k < j < k0 -> m !! j = None) as Hnone.
    { intros j Hj. apply eq_None_not_Some. intros [w Hw].
      apply elem_of_map_to_list in Hw. specialize (Hmin (j, w) Hw). simpl in Hmin. lia. }
    split; [by intros [= <- <-]|]. intros (Hv & Hk' & Hn).
    assert (k0 = k') as <-; [|by simplify_eq].
    destruct (Z.lt_trichotomy k0 k') as [Hlt|[->|Hlt]]; [|done|].
    + specialize (Hn k0 ltac:(lia)). congruence.
    + specialize (Hnone k' ltac:(lia)). congruence.
  - split; [done|]. intros (Hv & Hk & _). apply elem_of_map_to_list in Hv.
    specialize (H _ Hv). simpl in H. lia.
Qed.

Lemma upper_bound_None k m :
  upper_bound k m = None <-> forall j, k < j -> m !! j = None.
Proof.
  pose proof (upper_bound_list k (map_to_list m)) as H. unfold upper_bound.
  destruct (foldr _ None (map_to_list m)) as [[k0 v0]|] eqn:E; simpl in H.
  - destruct H as (Hin & Hk & _). apply elem_of_map_to_list in Hin.
    split; [done|]. intros Hn. specialize (Hn k0 Hk). congruence.
  - split; [|done]. intros _ j Hj. apply eq_None_not_Some. intros [w Hw].
    apply elem_of_map_to_list in Hw. specialize (H _ Hw). simpl in H. lia.
Qed.

Lemma before_lower_bound_Some k m k' v :
  before_lower_bound k m = Some (k', v) <->
  m !! k' = Some v /\ k' < k /\ forall j, k' < j < k -> m !! j = None.
Proof.
  pose proof (before_lower_bound_list k (map_to_list m)) as H. unfold before_lower_bound.
  destruct (foldr _ None (map_to_list m)) as [[k0 v0]|] eqn:E; simpl in H.
  - destruct H as (Hin & Hk & Hmin). apply elem_of_map_to_list in Hin.
    assert (forall j, k0 < j < k -> m !! j = None) as Hnone.
    { intros j Hj. apply eq_None_not_Some. intros [w Hw].
      apply elem_of_map_to_list in Hw. specialize (Hmin (j, w) Hw). simpl in Hmin. lia. }
    split; [by intros [= <- <-]|]. intros (Hv & Hk' & Hn).
    assert (k0 = k') as <-; [|by simplify_eq].
    destruct (Z.lt_trichotomy k0 k') as [Hlt|[->|Hlt]]; [|done|].
    + specialize (Hnone k' ltac:(lia)). congruence.
    + specialize (Hn k0 ltac:(lia)). congruence.
  - split; [done|]. intros (Hv & Hk & _). apply elem_of_map_to_list in Hv.
    specialize (H _ Hv). simpl in H. lia.
Qed.

Lemma before_lower_bound_None k m :
  before_lower_bound k m = None <-> forall j, j < k -> m !! j = None.
Proof.
  pose proof (before_lower_bound_list k (map_to_list m)) as H. unfold before_lower_bound.
  destruct (foldr _ None (map_to_list m)) as [[k0 v0]|] eqn:E; simpl in H.
  - destruct H as (Hin & Hk & _). apply elem_of_map_to_list in Hin.
    split; [done|]. intros Hn. specialize (Hn k0 Hk). congruence.
  - split; [|done]. intros _ j Hj. apply eq_None_not_Some. intros [w Hw].
    apply elem_of_map_to_list in Hw. specialize (H _ Hw). simpl in H. lia.
Qed.

End map_bounds.

(** ** Integers *)

Lemma u32_bound z : 0 <= u32 z < 2 ^ 32.
Proof. apply Z.mod_pos_bound. lia. Qed.

Lemma u32_small z : 0 <= z < 2 ^ 32 -> u32 z = z.
Proof. intros. by apply Z.mod_small. Qed.

Lemma u64_small z : 0 <= z < 2 ^ 64 -> u64 z = z.
Proof. intros. by apply Z.mod_small. Qed.

Lemma u32_add_l a b : u32 (u32 a + b) = u32 (a + b).
Proof. apply Zplus_mod_idemp_l. Qed.

Lemma u32_add_r a b : u32 (a + u32 b) = u32 (a + b).
Proof. apply Zplus_mod_idemp_r. Qed.

Lemma u32_sub_l a b : u32 (u32 a - b) = u32 (a - b).
Proof. apply Zminus_mod_idemp_l. Qed.

Lemma u64_add_l a b : u64 (u64 a + b) = u64 (a + b).
Proof. apply Zplus_mod_idemp_l. Qed.

Lemma u64_add_r a b : u64 (a + u64 b) = u64 (a + b).
Proof. apply Zplus_mod_idemp_r. Qed.

Lemma u64_sub_l a b : u64 (u64 a - b) = u64 (a - b).
Proof. apply Zminus_mod_idemp_l. Qed.

Lemma i32_small z : - 2 ^ 31 <= z < 2 ^ 31 -> i32 z = z.
Proof.
  intros Hz. unfold i32, u32. destruct (decide (0 <= z)) as [Hp|Hn].
  - rewrite Z.mod_small by lia. destruct (Z.ltb_spec z (2 ^ 31)); lia.
  - replace (z mod 2 ^ 32) with (z + 2 ^ 32) by (apply (Z.mod_unique_pos _ _ (-1)); lia).
    destruct (Z.ltb_spec (z + 2 ^ 32) (2 ^ 31)); lia.
Qed.

Lemma i32_bound z : - 2 ^ 31 <= i32 z < 2 ^ 31.
Proof. unfold i32, u32. pose proof (Z.mod_pos_bound z (2 ^ 32)). destruct (Z.ltb_spec (z mod 2 ^ 32) (2 ^ 31)); lia. Qed.

#[export] Hint Rewrite u32_add_l u32_add_r u32_sub_l u64_add_l u64_add_r u64_sub_l : wrap_rw.
#[export] Hint Resolve u32_bound : clio.
#[export] Hint Rewrite u32_small u64_small using lia : clio_rw.

(** ** Big-endian byte strings *)

Lemma length_be_encode n z : length (be_encode n z) = n.
Proof. unfold be_encode. by rewrite length_fmap, length_seq. Qed.

Lemma be_decode_acc bs acc :
  foldl (fun acc b => acc * 256 + b) acc bs = acc * 256 ^ Z.of_nat (length bs) + be_decode bs.
Proof.
  unfold be_decode. revert acc. induction bs as [|b bs IH] using rev_ind; intros acc.
  - simpl. lia.
  - rewrite !foldl_app, length_app. simpl. rewrite IH.
    replace (Z.of_nat (length bs + 1)) with (Z.of_nat (length bs) + 1) by lia.
    rewrite Z.pow_add_r by lia. lia.
Qed.

Lemma be_decode_app l1 l2 :
  be_decode (l1 ++ l2) = be_decode l1 * 256 ^ Z.of_nat (length l2) + be_decode l2.
Proof. unfold be_decode at 1. rewrite foldl_app. apply be_decode_acc. Qed.

Lemma be_encode_S n z : be_encode (S n) z = be_encode n (Z.shiftr z 8) ++ [u8 z].
Proof.
  unfold be_encode. rewrite seq_S, fmap_app. f_equal.
  - apply list_fmap_ext. intros j i [-> Hi]%lookup_seq.
    rewrite Z.shiftr_shiftr by lia. do 2 f_equal. lia.
  - cbn [fmap list_fmap]. do 2 f_equal.
    replace (8 * _) with 0 by lia. apply Z.shiftr_0_r.
Qed.

Lemma be_decode_encode n z : be_decode (be_encode n z) = z mod 256 ^ Z.of_nat n.
Proof.
  revert z. induction n as [|n IH]; intros z.
  - simpl. by rewrite Z.mod_1_r.
  - rewrite be_encode_S, be_decode_app, IH. cbn [length]. change (256 ^ Z.of_nat 1) with 256.
    unfold be_decode. cbn [foldl]. unfold u8. rewrite Z.shiftr_div_pow2 by lia.
    change (2 ^ 8) with 256. rewrite Nat2Z.inj_succ, Z.pow_succ_r by lia.
    rewrite Z.rem_mul_r by lia. ring.
Qed.

Lemma be_decode_zeros n : be_decode (replicate n 0) = 0.
Proof.
  induction n as [|n IH]; [done|].
  replace (S n) with (n + 1)%nat by lia. rewrite replicate_add, be_decode_app, IH. by rewrite Z.mul_0_l.
Qed.

(** ** Counting *)

Lemma length_filter_le {A} (P Q : A -> Prop) `{!forall x, Decision (P x)} `{!forall x, Decision (Q x)} l :
  (forall x, Q x -> P x) -> (length (filter Q l) <= length (filter P l))%nat.
Proof.
  intros HQP. induction l as [|x l IH]; [done|]. rewrite !filter_cons.
  destruct (decide (Q x)), (decide (P x)); cbn [length]; try lia. naive_solver.
Qed.

Lemma length_filter_less {A} (P Q : A -> Prop) `{!forall x, Decision (P x)} `{!forall x, Decision (Q x)} l x :
  x ∈ l -> P x -> ~ Q x -> (forall y, Q y -> P y) -> (length (filter Q l) < length (filter P l))%nat.
Proof.
  intros Hin HP HQ HQP. pose proof (length_filter_le P Q) as Hle.
  induction l as [|y l IH]; [by apply not_elem_of_nil in Hin|]. rewrite !filter_cons.
  apply elem_of_cons in Hin as [->|Hin].
  - rewrite decide_False, decide_True by done. specialize (Hle l HQP). cbn [length]. lia.
  - specialize (IH Hin). destruct (decide (Q y)), (decide (P y)); cbn [length]; try lia. naive_solver.
Qed.

Lemma sum_less {A} (f g : A -> nat) l x :
  x ∈ l -> (g x < f x)%nat -> (forall y, y ∈ l -> (g y <= f y)%nat) ->
  (sum_list (g <$> l) < sum_list (f <$> l))%nat.
Proof.
  intros Hin Hlt Hle. assert (forall l', (forall y, y ∈ l' -> (g y <= f y)%nat) ->
    (sum_list (g <$> l') <= sum_list (f <$> l'))%nat) as Hsum.
  { induction l' as [|y l' IH]; intros Hy; cbn; [done|].
    pose proof (Hy y ltac:(by left)). specialize (IH ltac:(intros; apply Hy; by right)). lia. }
  induction l as [|y l IH]; [by apply not_elem_of_nil in Hin|]. cbn.
  apply elem_of_cons in Hin as [->|Hin].
  - specialize (Hsum l ltac:(intros; apply Hle; by right)). lia.
  - specialize (IH Hin ltac:(intros; apply Hle; by right)). pose proof (Hle y ltac:(by left)). lia.
Qed.

Lemma sum_delete {A} (f : A -> nat) l p x :
  l !! p = Some x -> (sum_list (f <$> delete p l) + f x = sum_list (f <$> l))%nat.
Proof.
  revert p. induction l as [|y l IH]; intros [|p] Hp; [done..| |].
  - injection Hp as ->. change (delete 0%nat (x :: l)) with l. rewrite fmap_cons. cbn. lia.
  - change (delete (S p) (y :: l)) with (y :: delete p l). rewrite !fmap_cons. cbn [sum_list].
    specialize (IH p Hp). unfold sum_list in *. cbn [sum_list_with]. lia.
Qed.
