(* ===== verification/Types.v ===== *)
(** * Data types and helpers of the database layer

    [src/src/backend/Types.h] and [src/src/backend/DBHelpers.h]: the records
    exchanged with the database, their constructors, the byte tests on
    serialized ledger objects, and the ledger-header codec (its writer,
    [ledgerInfoToBlob], is in [src/src/rpc/RPCHelpers.cpp]).

    The parts of rippled the code calls are the class [Ripple] (serialized
    objects and their field accessors) and the class [SerialCodec] (the
    [Serializer]/[SerialIter] pair): parameters, with the documented laws the
    proofs rely on stated separately ([SerialLaws]). *)

From stdpp Require Import base list gmap strings.
From Stdlib Require Import ZArith Lia.
From S2P Require Import Prelude.

Open Scope Z_scope.

(** ** Base types *)

(** [ripple::uint256], [ripple::AccountID] (160 bits): unsigned integers, the
    big-endian value of their bytes; comparison is that of the values. *)
Abbreviation uint256 := Z (only parsing).
Abbreviation AccountID := Z (only parsing).

(** [std::vector<unsigned char>]: each element is in [0, 255]. *)
Abbreviation Blob := (list Z) (only parsing).

(** [uint256::data()[i]]. *)
Definition uint256_byte (k : uint256) (i : nat) : Z :=
  u8 (Z.shiftr k (8 * (31 - Z.of_nat i))).

Definition uint256_bytes (k : uint256) : list Z := uint256_byte k <$> seq 0 32.

(** [uint256::fromVoid]: the value of the first 32 bytes. *)
Definition uint256_fromVoid (bs : list Z) : uint256 :=
  be_decode (take 32 bs).

(** [uint256::fromVoidChecked]: only a string of 32 bytes is a key. *)
Definition uint256_fromVoidChecked (bs : list Z) : option uint256 :=
  if (length bs =? 32)%nat then Some (uint256_fromVoid bs) else None.

(** [AccountID::fromVoid(key.data())]: the first 20 of the 32 bytes. *)
Definition AccountID_fromVoid (k : uint256) : AccountID := Z.shiftr k 96.

(** ** backend/Types.h *)

Record LedgerObject := mkLedgerObject { lo_key : uint256; lo_blob : Blob }.

Record LedgerPage := mkLedgerPage
  { page_objects : list LedgerObject; page_cursor : option uint256 }.

Record BookOffersPage := mkBookOffersPage
  { bop_offers : list LedgerObject; bop_cursor : option uint256 }.

Record TransactionAndMetadata := mkTransactionAndMetadata
  { tm_transaction : Blob; tm_metadata : Blob;
    tm_ledgerSequence : Z; tm_date : Z }.

(** A value-initialised element of [std::vector<TransactionAndMetadata>]. *)
Definition TransactionAndMetadata_default : TransactionAndMetadata :=
  mkTransactionAndMetadata [] [] 0 0.

Record TransactionsCursor := mkTransactionsCursor
  { tc_ledgerSequence : Z; tc_transactionIndex : Z }.

(** Both numbers are of 32 bits. *)
Definition cursor_fits (c : TransactionsCursor) : Prop :=
  0 <= tc_ledgerSequence c < 2 ^ 32 /\ 0 <= tc_transactionIndex c < 2 ^ 32.

Record TransactionsAndCursor := mkTransactionsAndCursor
  { tac_txns : list TransactionAndMetadata; tac_cursor : option TransactionsCursor }.

Record NFT := mkNFT
  { nft_tokenID : uint256; nft_ledgerSequence : Z; nft_owner : AccountID;
    nft_uri : Blob; nft_isBurned : bool }.

(** [NFT::operator==] compares the token and the sequence only. *)
Definition NFT_eqb (a b : NFT) : bool :=
  (nft_tokenID a =? nft_tokenID b) && (nft_ledgerSequence a =? nft_ledgerSequence b).

Record LedgerRange := mkLedgerRange { minSequence : Z; maxSequence : Z }.

Definition firstKey : uint256 := 0.
Definition lastKey : uint256 := 2 ^ 256 - 1.

(** The values of the 256-bit type. *)
Definition valid_key (k : Z) : Prop := 0 <= k < 2 ^ 256.
Definition hi192 : uint256 := 0x1111111111111111.

#[export] Instance LedgerObject_eq_dec : EqDecision LedgerObject.
Proof. solve_decision. Defined.
#[export] Instance TransactionAndMetadata_eq_dec : EqDecision TransactionAndMetadata.
Proof. solve_decision. Defined.
#[export] Instance TransactionsCursor_eq_dec : EqDecision TransactionsCursor.
Proof. solve_decision. Defined.
#[export] Instance LedgerRange_eq_dec : EqDecision LedgerRange.
Proof. solve_decision. Defined.

(** ** rippled: serialized objects *)

(** The field names ([ripple::SField] constants) the modelled code uses. *)
Inductive SField :=
| sfLedgerEntryType | sfLedgerIndex | sfCreatedNode | sfModifiedNode | sfDeletedNode
| sfNewFields | sfPreviousFields | sfFinalFields | sfNFTokens | sfNFTokenID | sfURI
| sfNFTokenBuyOffer | sfNFTokenSellOffer | sfOwner | sfBookDirectory
| sfIndexes | sfIndexNext | sfBaseFee | sfReferenceFeeUnits | sfReserveBase
| sfReserveIncrement | sfTakerPays | sfTakerGets | sfAccount
| sfOwnerCount | sfBalance | sfTransferRate | sfAmount
| sfDestination | sfPublicKey | sfSettleDelay | sfExpiration | sfCancelAfter | sfSourceTag | sfDestinationTag
| sfLowLimit | sfHighLimit | sfLowQualityIn | sfLowQualityOut | sfHighQualityIn | sfHighQualityOut | sfNFTokenOfferNode
| sfFlags | sfSequence | sfOfferSequence | sfTransactionType | sfAffectedNodes.

#[export] Instance SField_eq_dec : EqDecision SField.
Proof. solve_decision. Defined.

(** [ripple::TxType] values the code distinguishes. *)
Inductive TxType :=
| ttNFTOKEN_MINT | ttNFTOKEN_BURN | ttNFTOKEN_ACCEPT_OFFER
| ttNFTOKEN_CANCEL_OFFER | ttNFTOKEN_CREATE_OFFER | ttOFFER_CREATE
| ttOTHER (code : Z).

#[export] Instance TxType_eq_dec : EqDecision TxType.
Proof. solve_decision. Defined.

(** [ripple::LedgerEntryType] codes (rippled, [LedgerFormats.h]). *)
Definition ltNFTOKEN_PAGE : Z := 0x50.
Definition ltNFTOKEN_OFFER : Z := 0x37.
Definition ltOFFER : Z := 0x6f.
Definition ltANY : Z := 0.
Definition ltDIR_NODE : Z := 0x64.
Definition ltCHECK : Z := 0x43.
Definition ltESCROW : Z := 0x75.
Definition ltPAYCHAN : Z := 0x78.
Definition ltDEPOSIT_PREAUTH : Z := 0x70.
Definition ltTICKET : Z := 0x54.
Definition ltRIPPLE_STATE : Z := 0x72.
Definition tesSUCCESS : Z := 0.

(** Objects, transactions and transaction metadata with their accessors. An
    accessor that can throw in rippled returns a [Res]. *)
Class Ripple := {
  STObject : Type;
  STTx : Type;
  TxMeta : Type;
  getFName : STObject -> SField;
  isFieldPresent : STObject -> SField -> bool;
  (** the position of a field, -1 when the object has none *)
  getFieldIndex : STObject -> SField -> Z;
  getFieldU16 : STObject -> SField -> Res Z;
  getFieldU32 : STObject -> SField -> Res Z;
  getFieldU64 : STObject -> SField -> Res Z;
  getFieldH256 : STObject -> SField -> Res uint256;
  getFieldV256 : STObject -> SField -> Res (list uint256);
  getFieldVL : STObject -> SField -> Res Blob;
  getAccountID : STObject -> SField -> Res AccountID;
  getFieldArray : STObject -> SField -> Res (list STObject);
  (** [peekAtField(f).downcast<STObject>()] *)
  peekAtObject : STObject -> SField -> Res STObject;
  (** [STTx] derives from [STObject] *)
  tx_object : STTx -> STObject;
  getTxnType : STTx -> TxType;
  getTransactionID : STTx -> uint256;
  getNodes : TxMeta -> list STObject;
  getLgrSeq : TxMeta -> Z;
  getIndex : TxMeta -> Z;
  (** a [flat_set]: in order, without duplicates *)
  getAffectedAccounts : TxMeta -> list AccountID;
  getResultTER : TxMeta -> Z;
  (** [STTx{SerialIter{data, size}}], [TxMeta{id, seq, blob}] and
      [STLedgerEntry{SerialIter{data, size}, key}] *)
  parseSTTx : Blob -> Res STTx;
  parseTxMeta : uint256 -> Z -> Blob -> Res TxMeta;
  parseSLE : Blob -> uint256 -> Res STObject;
  (** [getQualityNext], [keylet::page(root, index).key], [keylet::fees().key] *)
  getQualityNext : uint256 -> uint256;
  keylet_page : uint256 -> Z -> uint256;
  keylet_fees : uint256
}.

(** The accessors and parsers of the library return or throw. *)
Class RippleTotal `{Ripple} := {
  rt_U16 : forall o f, total (getFieldU16 o f);
  rt_H256 : forall o f, total (getFieldH256 o f);
  rt_VL : forall o f, total (getFieldVL o f);
  rt_AccountID : forall o f, total (getAccountID o f);
  rt_Array : forall o f, total (getFieldArray o f);
  rt_peek : forall o f, total (peekAtObject o f);
  rt_STTx : forall b, total (parseSTTx b);
  rt_TxMeta : forall id s b, total (parseTxMeta id s b);
  rt_SLE : forall b k, total (parseSLE b k)
}.
#[export] Hint Resolve rt_U16 rt_H256 rt_VL rt_AccountID rt_Array rt_peek rt_STTx rt_TxMeta rt_SLE
  : total.

(** ** backend/DBHelpers.h: records to be written *)

Record NFTTransactionsData := mkNFTTransactionsData
  { ntd_tokenID : uint256; ntd_ledgerSequence : Z;
    ntd_transactionIndex : Z; ntd_txHash : uint256 }.

Record NFTsData := mkNFTsData
  { nd_tokenID : uint256; nd_ledgerSequence : Z;
    nd_transactionIndex : option Z; nd_owner : AccountID;
    nd_uri : option Blob; nd_isBurned : bool }.

Record AccountTransactionsData := mkAccountTransactionsData
  { atd_accounts : list AccountID; atd_ledgerSequence : Z;
    atd_transactionIndex : Z; atd_txHash : uint256 }.

#[export] Instance NFTTransactionsData_eq_dec : EqDecision NFTTransactionsData.
Proof. solve_decision. Defined.
#[export] Instance NFTsData_eq_dec : EqDecision NFTsData.
Proof. solve_decision. Defined.

Section constructors.
Context `{Ripple}.

Definition NFTTransactionsData_make (tokenID : uint256) (meta : TxMeta) (txHash : uint256)
  : NFTTransactionsData :=
  mkNFTTransactionsData tokenID (getLgrSeq meta) (getIndex meta) txHash.

Definition AccountTransactionsData_make (meta : TxMeta) (txHash : uint256)
  : AccountTransactionsData :=
  mkAccountTransactionsData (getAffectedAccounts meta) (getLgrSeq meta) (getIndex meta) txHash.

(** The NFTokenMint constructor: the URI is always recorded. *)
Definition NFTsData_mint (tokenID : uint256) (owner : AccountID) (uri : Blob) (meta : TxMeta)
  : NFTsData :=
  mkNFTsData tokenID (getLgrSeq meta) (Some (getIndex meta)) owner (Some uri) false.

(** The NFTokenBurn / NFTokenAcceptOffer constructor: no URI. *)
Definition NFTsData_change (tokenID : uint256) (owner : AccountID) (meta : TxMeta)
    (isBurned : bool) : NFTsData :=
  mkNFTsData tokenID (getLgrSeq meta) (Some (getIndex meta)) owner None isBurned.

End constructors.

(** The NFTokenPage constructor: no transaction index. *)
Definition NFTsData_page (tokenID : uint256) (ledgerSequence : Z) (owner : AccountID)
    (uri : Blob) : NFTsData :=
  mkNFTsData tokenID ledgerSequence None owner (Some uri) false.

(** ** Byte tests on serialized objects *)

(** [short x = (a << 8) | b] for bytes [a], [b]. *)
Definition short_of_bytes (a b : Z) : Z :=
  let w := u16 (Z.lor (Z.shiftl a 8) b) in
  if w <? 2 ^ 15 then w else w - 2 ^ 16.

(** The source reads bytes 1 and 2 without a length check: out of range is
    undefined behaviour, [None] here. *)
Definition object_type_bytes (object : Blob) : option Z :=
  match object !! 1%nat, object !! 2%nat with
  | Some a, Some b => Some (short_of_bytes a b)
  | _, _ => None
  end.

Definition isOffer (object : Blob) : option bool :=
  t ← object_type_bytes object; Some (t =? 0x006f).

Definition isDirNode (object : Blob) : option bool :=
  t ← object_type_bytes object; Some (t =? 0x0064).

(** [isBookDir]: a directory node without an owner. *)
Definition isBookDir `{Ripple} (key : uint256) (object : Blob) : option (Res bool) :=
  d ← isDirNode object;
  Some (if negb d then Ok false
        else sle ← parseSLE object key; Ok (negb (isFieldPresent sle sfOwner))).

(** [getBook]: the book directory an offer is in. *)
Definition getBook `{Ripple} (offer : Blob) : Res uint256 :=
  sle ← parseSLE offer 0; getFieldH256 sle sfBookDirectory.

(** [getBookBase]: the first 24 bytes of the key, the rest zero. *)
Fixpoint getBookBase_loop (key : uint256) (n i : nat) (ret : list Z) : list Z :=
  match n with
  | O => ret
  | S n' => getBookBase_loop key n' (S i) (<[i := uint256_byte key i]> ret)
  end.

Definition getBookBase (key : uint256) : uint256 :=
  uint256_fromVoid (getBookBase_loop key 24 0 (replicate 32 0)).

Definition uint256ToString (k : uint256) : list Z := uint256_bytes k.

(** ** The ledger header codec *)

Record LedgerInfo := mkLedgerInfo
  { li_seq : Z; li_drops : Z; li_parentHash : uint256; li_txHash : uint256;
    li_accountHash : uint256; li_parentCloseTime : Z; li_closeTime : Z;
    li_closeTimeResolution : Z; li_closeFlags : Z; li_hash : uint256 }.

(** rippled's [Serializer] (append) and [SerialIter] (consume). *)
Class SerialCodec := {
  SerialIter : Type;
  mkSerialIter : Blob -> SerialIter;
  get8 : SerialIter -> Res (Z * SerialIter);
  get32 : SerialIter -> Res (Z * SerialIter);
  get64 : SerialIter -> Res (Z * SerialIter);
  get256 : SerialIter -> Res (Z * SerialIter);
  add8 : Z -> Blob -> Blob;
  add32 : Z -> Blob -> Blob;
  add64 : Z -> Blob -> Blob;
  addBitString : Z -> Blob -> Blob
}.

Definition deserializeHeader `{SerialCodec} (data : Blob) : Res LedgerInfo :=
  let sit := mkSerialIter data in
  '(seq, sit) ← get32 sit;
  '(drops, sit) ← get64 sit;
  '(parentHash, sit) ← get256 sit;
  '(txHash, sit) ← get256 sit;
  '(accountHash, sit) ← get256 sit;
  '(parentCloseTime, sit) ← get32 sit;
  '(closeTime, sit) ← get32 sit;
  '(closeTimeResolution, sit) ← get8 sit;
  '(closeFlags, sit) ← get8 sit;
  '(hash, sit) ← get256 sit;
  Ok (mkLedgerInfo seq drops parentHash txHash accountHash parentCloseTime
        closeTime closeTimeResolution closeFlags hash).

(** [ledgerInfoToBlob] (RPCHelpers.cpp). *)
Definition ledgerInfoToBlob `{SerialCodec} (info : LedgerInfo) (includeHash : bool) : Blob :=
  let s := [] in
  let s := add32 (li_seq info) s in
  let s := add64 (li_drops info) s in
  let s := addBitString (li_parentHash info) s in
  let s := addBitString (li_txHash info) s in
  let s := addBitString (li_accountHash info) s in
  let s := add32 (li_parentCloseTime info) s in
  let s := add32 (li_closeTime info) s in
  let s := add8 (li_closeTimeResolution info) s in
  let s := add8 (li_closeFlags info) s in
  if includeHash then addBitString (li_hash info) s else s.

(** ** Laws of the rippled serializer

    [enc n v] are the [n] bytes an [add] of width [n] appends; [reads it bs]
    says that [bs] are the bytes an iterator has still to consume. *)
Class SerialLaws `{SerialCodec} := {
  enc : nat -> Z -> Blob;
  reads : SerialIter -> Blob -> Prop;
  enc_length : forall n v, length (enc n v) = n;
  add8_enc : forall v s, add8 v s = s ++ enc 1 v;
  add32_enc : forall v s, add32 v s = s ++ enc 4 v;
  add64_enc : forall v s, add64 v s = s ++ enc 8 v;
  addBitString_enc : forall v s, addBitString v s = s ++ enc 32 v;
  mkSerialIter_reads : forall b, reads (mkSerialIter b) b;
  get8_enc : forall it v rest, 0 <= v < 2 ^ 8 -> reads it (enc 1 v ++ rest) ->
    exists it', get8 it = Ok (v, it') /\ reads it' rest;
  get32_enc : forall it v rest, 0 <= v < 2 ^ 32 -> reads it (enc 4 v ++ rest) ->
    exists it', get32 it = Ok (v, it') /\ reads it' rest;
  get64_enc : forall it v rest, 0 <= v < 2 ^ 64 -> reads it (enc 8 v ++ rest) ->
    exists it', get64 it = Ok (v, it') /\ reads it' rest;
  get256_enc : forall it v rest, 0 <= v < 2 ^ 256 -> reads it (enc 32 v ++ rest) ->
    exists it', get256 it = Ok (v, it') /\ reads it' rest;
  get256_short : forall it bs, reads it bs -> (length bs < 32)%nat ->
    get256 it = Throw (LibraryError "invalid SerialIter get256")
}.

(** The header's fields are within their widths. *)
Definition LedgerInfo_wf (i : LedgerInfo) : Prop :=
  0 <= li_seq i < 2 ^ 32 /\ 0 <= li_drops i < 2 ^ 64 /\
  0 <= li_parentHash i < 2 ^ 256 /\ 0 <= li_txHash i < 2 ^ 256 /\
  0 <= li_accountHash i < 2 ^ 256 /\ 0 <= li_parentCloseTime i < 2 ^ 32 /\
  0 <= li_closeTime i < 2 ^ 32 /\ 0 <= li_closeTimeResolution i < 2 ^ 8 /\
  0 <= li_closeFlags i < 2 ^ 8 /\ 0 <= li_hash i < 2 ^ 256.

(** Big-endian serializer: an implementation satisfying the laws. *)
Definition be_get (n : nat) (bs : Blob) : Res (Z * Blob) :=
  if (n <=? length bs)%nat then Ok (be_decode (take n bs), drop n bs)
  else Throw (LibraryError "invalid SerialIter get256").

#[export] Instance BECodec : SerialCodec := {|
  SerialIter := Blob; mkSerialIter := fun b => b;
  get8 := be_get 1; get32 := be_get 4; get64 := be_get 8; get256 := be_get 32;
  add8 := fun v s => s ++ be_encode 1 v; add32 := fun v s => s ++ be_encode 4 v;
  add64 := fun v s => s ++ be_encode 8 v; addBitString := fun v s => s ++ be_encode 32 v |}.

Lemma be_get_enc n v rest :
  0 <= v < 256 ^ Z.of_nat n -> be_get n (be_encode n v ++ rest) = Ok (v, rest).
Proof.
  intros Hv. unfold be_get. rewrite length_app, length_be_encode.
  rewrite (proj2 (Nat.leb_le _ _)) by lia.
  rewrite take_app_length', drop_app_length' by (by rewrite length_be_encode).
  by rewrite be_decode_encode, Z.mod_small.
Qed.

#[export] Instance BELaws : SerialLaws.
Proof.
  refine {| enc := be_encode; reads := fun it bs => it = bs |}; try done.
  - apply length_be_encode.
  - intros it v rest Hv ->. exists rest. split; [by apply (be_get_enc 1) | done].
  - intros it v rest Hv ->. exists rest. split; [by apply (be_get_enc 4) | done].
  - intros it v rest Hv ->. exists rest. split; [by apply (be_get_enc 8) | done].
  - intros it v rest Hv ->. exists rest. split; [by apply (be_get_enc 32) | done].
  - intros it bs -> Hl. simpl. unfold be_get.
    by rewrite (proj2 (Nat.leb_gt _ _)).
Defined.

(** Start reading a serialized blob: name the iterator, flatten its bytes. *)
Ltac start_read :=
  match goal with
  | |- context [mkSerialIter ?b] =>
      let Hr := fresh "Hr" in
      pose proof (mkSerialIter_reads b) as Hr; revert Hr;
      generalize (mkSerialIter b); intros ?it Hr; rewrite <- ?app_assoc in Hr;
      cbn [app] in Hr
  end.

(** Run one [get] of a header read. *)
Ltac get_field lemma :=
  match goal with
  | Hr : reads ?it _ |- _ =>
      let it' := fresh "it" in
      apply lemma in Hr; [|done]; destruct Hr as (it' & -> & Hr); cbn [mbind Res_bind]
  end.

(** Serializing a ledger header and reading it back gives the header, for
    every header whose fields fit their widths; a header serialized without its
    hash is rejected, since [deserializeHeader] always reads the hash. *)
Theorem header_roundtrip `{SerialLaws} (i : LedgerInfo) :
  LedgerInfo_wf i ->
  deserializeHeader (ledgerInfoToBlob i true) = Ok i /\
  deserializeHeader (ledgerInfoToBlob i false) =
    Throw (LibraryError "invalid SerialIter get256").
Proof.
  intros (? & ? & ? & ? & ? & ? & ? & ? & ? & ?).
  unfold deserializeHeader, ledgerInfoToBlob.
  rewrite !add32_enc, !add64_enc, !addBitString_enc, !add8_enc.
  split; start_read; get_field get32_enc; get_field get64_enc;
    do 3 get_field get256_enc; do 2 get_field get32_enc; do 1 get_field get8_enc.
  - get_field get8_enc. rewrite <- (app_nil_r (enc 32 _)) in Hr. get_field get256_enc.
    by destruct i.
  - rewrite <- (app_nil_r (enc 1 _)) in Hr. get_field get8_enc.
    erewrite get256_short; [done | exact Hr | simpl; lia].
Qed.

Definition sample_header : LedgerInfo :=
  mkLedgerInfo 75443457 99987654321 11 22 33 720000000 720000010 10 0 44.

Lemma header_roundtrip_witness :
  LedgerInfo_wf sample_header /\
  deserializeHeader (ledgerInfoToBlob sample_header true) = Ok sample_header.
Proof.
  assert (LedgerInfo_wf sample_header) as Hwf by (vm_compute; repeat split; discriminate).
  exact (conj Hwf (proj1 (header_roundtrip sample_header Hwf))).
Defined.

Lemma uint256_fromVoid_bytes (k : uint256) :
  0 <= k < 2 ^ 256 -> uint256_fromVoid (uint256ToString k) = k.
Proof.
  intros Hk. unfold uint256_fromVoid, uint256ToString.
  change (uint256_bytes k) with (be_encode 32 k).
  rewrite take_ge by (rewrite length_be_encode; lia).
  rewrite be_decode_encode. by apply Z.mod_small.
Qed.

(** [getBookBase] keeps the high 192 bits of a key. *)
Lemma getBookBase_loop_take (key : Z) n ret :
  (n <= 32)%nat -> length ret = 32%nat ->
  forall i, (i + n <= 32)%nat ->
  getBookBase_loop key n i ret = take i ret ++ (uint256_byte key <$> seq i n) ++ drop (i + n) ret.
Proof.
  revert ret. induction n as [|n IH]; intros ret Hn Hl i Hi; simpl.
  - by rewrite Nat.add_0_r, take_drop.
  - rewrite IH; [| lia | by rewrite length_insert | lia].
    rewrite (take_S_r _ _ (uint256_byte key i)) by (apply list_lookup_insert_eq; lia).
    rewrite take_insert_ge, drop_insert_lt by lia.
    rewrite <- app_assoc. do 3 f_equal. simpl. do 2 f_equal; lia.
Qed.

Lemma getBookBase_spec (key : Z) :
  0 <= key < 2 ^ 256 -> getBookBase key = Z.shiftl (Z.shiftr key 64) 64.
Proof.
  intros Hk. unfold getBookBase, uint256_fromVoid.
  rewrite getBookBase_loop_take by (simpl; lia). rewrite take_ge by (simpl; lia).
  change (take 0 (replicate 32 0)) with (@nil Z).
  change (drop (0 + 24) (replicate 32 0)) with (replicate 8 0). rewrite app_nil_l.
  rewrite be_decode_app, be_decode_zeros.
  assert ((uint256_byte key <$> seq 0 24) = be_encode 24 (Z.shiftr key 64)) as ->.
  { unfold be_encode. apply list_fmap_ext. intros j i [-> Hj]%lookup_seq.
    unfold uint256_byte. rewrite Z.shiftr_shiftr by lia. do 2 f_equal. lia. }
  rewrite be_decode_encode, Z.shiftl_mul_pow2 by lia.
  rewrite Z.add_0_r. rewrite Z.mod_small; [reflexivity|]. rewrite Z.shiftr_div_pow2 by lia.
  change (256 ^ Z.of_nat 24) with (2 ^ 192). split; [apply Z.div_pos; lia|].
  apply Z.div_lt_upper_bound; lia.
Qed.
