(* ===== verification/TreeRipple.v ===== *)
(** * A concrete instance of the rippled interface

    Objects as trees of named fields, with the accessor behaviour rippled
    documents: an absent scalar, hash, blob or array field reads as its default
    value, [peekAtField] of an absent field throws. The parsers are left as
    arguments. Witnesses of theorems about the class [Ripple] use it. *)

From stdpp Require Import base list gmap strings.
From Stdlib Require Import ZArith Lia.
From S2P Require Import Prelude Types.

Open Scope Z_scope.

Inductive TreeObj :=
| mkObj (name : SField) (fields : list (SField * TreeVal))
with TreeVal :=
| VNum (z : Z)
| VBlob (b : Blob)
| VHashes (l : list Z)
| VObj (o : TreeObj)
| VArr (l : list TreeObj).

Definition obj_name (o : TreeObj) : SField := match o with mkObj n _ => n end.
Definition obj_fields (o : TreeObj) : list (SField * TreeVal) := match o with mkObj _ fs => fs end.

Fixpoint assoc (f : SField) (fs : list (SField * TreeVal)) : option TreeVal :=
  match fs with
  | [] => None
  | (g, v) :: fs' => if decide (f = g) then Some v else assoc f fs'
  end.

Definition obj_get (o : TreeObj) (f : SField) : option TreeVal := assoc f (obj_fields o).

Definition get_num (o : TreeObj) (f : SField) : Res Z :=
  match obj_get o f with
  | Some (VNum z) => Ok z
  | None => Ok 0
  | Some _ => Throw (LibraryError "Wrong field type")
  end.

Definition get_blob (o : TreeObj) (f : SField) : Res Blob :=
  match obj_get o f with
  | Some (VBlob b) => Ok b
  | None => Ok []
  | Some _ => Throw (LibraryError "Wrong field type")
  end.

Definition get_hashes (o : TreeObj) (f : SField) : Res (list Z) :=
  match obj_get o f with
  | Some (VHashes l) => Ok l
  | None => Ok []
  | Some _ => Throw (LibraryError "Wrong field type")
  end.

Definition get_array (o : TreeObj) (f : SField) : Res (list TreeObj) :=
  match obj_get o f with
  | Some (VArr l) => Ok l
  | None => Ok []
  | Some _ => Throw (LibraryError "Wrong field type")
  end.

Definition peek_object (o : TreeObj) (f : SField) : Res TreeObj :=
  match obj_get o f with
  | Some (VObj x) => Ok x
  | None => Throw (LibraryError "Field not found")
  | Some _ => Throw (LibraryError "Wrong field type")
  end.

Fixpoint index_of (f : SField) (fs : list (SField * TreeVal)) (i : Z) : Z :=
  match fs with
  | [] => -1
  | (g, _) :: fs' => if decide (f = g) then i else index_of f fs' (i + 1)
  end.

Record TreeTx := mkTreeTx { tt_type : TxType; tt_id : Z; tt_obj : TreeObj }.

Record TreeMeta := mkTreeMeta
  { tmeta_nodes : list TreeObj; tmeta_seq : Z; tmeta_index : Z; tmeta_result : Z }.

Definition TreeRipple (ptx : Blob -> Res TreeTx) (pmeta : Z -> Z -> Blob -> Res TreeMeta)
    (psle : Blob -> Z -> Res TreeObj) : Ripple := {|
  STObject := TreeObj; STTx := TreeTx; TxMeta := TreeMeta;
  getFName := obj_name;
  isFieldPresent := fun o f => bool_decide (is_Some (obj_get o f));
  getFieldIndex := fun o f => index_of f (obj_fields o) 0;
  getFieldU16 := get_num; getFieldU32 := get_num; getFieldU64 := get_num;
  getFieldH256 := get_num; getFieldV256 := get_hashes; getFieldVL := get_blob;
  getAccountID := get_num; getFieldArray := get_array; peekAtObject := peek_object;
  tx_object := tt_obj; getTxnType := tt_type; getTransactionID := tt_id;
  getNodes := tmeta_nodes; getLgrSeq := tmeta_seq; getIndex := tmeta_index;
  getAffectedAccounts := fun m => omap (fun o => match obj_get o sfAccount with
    Some (VNum a) => Some a | _ => None end) (tmeta_nodes m);
  getResultTER := tmeta_result;
  parseSTTx := ptx; parseTxMeta := pmeta; parseSLE := psle;
  getQualityNext := fun k => k + 2 ^ 64; keylet_page := fun k n => k + n; keylet_fees := 42
|}.

Lemma TreeTotal ptx pmeta psle :
  (forall b, total (ptx b)) -> (forall i s b, total (pmeta i s b)) -> (forall b k, total (psle b k)) ->
  @RippleTotal (TreeRipple ptx pmeta psle).
Proof.
  intros H1 H2 H3. split; try done; intros o f; cbn;
    unfold get_num, get_blob, get_array, peek_object; solve_total.
Qed.

(** An NFToken page node of transaction metadata, and the tokens in it. *)
Definition token_obj (id : Z) (uri : Blob) : TreeObj :=
  mkObj sfNFTokens [(sfNFTokenID, VNum id); (sfURI, VBlob uri)].
Definition tokens_field (ids : list Z) : SField * TreeVal :=
  (sfNFTokens, VArr ((fun i => token_obj i []) <$> ids)).
Definition page_node (kind : SField) (key : Z) (fields : list (SField * TreeVal)) : TreeObj :=
  mkObj kind ((sfLedgerEntryType, VNum ltNFTOKEN_PAGE) :: (sfLedgerIndex, VNum key) :: fields).
