(* ===== verification/SimpleCache.v ===== *)
(** * The ledger-state cache

    [src/src/backend/SimpleCache.h] and [SimpleCache.cpp]. The state is the
    record [SimpleCache] (the ordered map, the latest sequence, the two flags,
    the set of keys deleted while the cache is being filled, the four hit
    counters); every method is one definition on it. The two floating-point
    hit-rate accessors are not modelled.

    The correctness theorems are stated against a ledger history: the state of
    every key at every sequence. [reach] is the set of cache states the writers
    can produce: the ETL thread applies the diff of each new ledger, a
    background thread loads the objects of the ledger [s0] in any order and any
    interleaving with the diffs, and the cache is declared full when all of
    them were loaded. *)

From stdpp Require Import base list gmap strings.
From Stdlib Require Import ZArith Lia.
From S2P Require Import Prelude Types.

Open Scope Z_scope.

Record CacheEntry := mkCacheEntry { ce_seq : Z; ce_blob : Blob }.

Record SimpleCache := mkSimpleCache {
  map_ : gmap Z CacheEntry;
  latestSeq_ : Z;
  full_ : bool;
  disabled_ : bool;
  deletes_ : gset Z;
  objectReqCounter_ : Z;
  objectHitCounter_ : Z;
  successorReqCounter_ : Z;
  successorHitCounter_ : Z
}.

Definition SimpleCache_init : SimpleCache := mkSimpleCache ∅ 0 false false ∅ 0 0 0 0.

Definition with_map (c : SimpleCache) (m : gmap Z CacheEntry) : SimpleCache :=
  mkSimpleCache m (latestSeq_ c) (full_ c) (disabled_ c) (deletes_ c)
    (objectReqCounter_ c) (objectHitCounter_ c) (successorReqCounter_ c) (successorHitCounter_ c).
Definition with_latestSeq (c : SimpleCache) (s : Z) : SimpleCache :=
  mkSimpleCache (map_ c) s (full_ c) (disabled_ c) (deletes_ c)
    (objectReqCounter_ c) (objectHitCounter_ c) (successorReqCounter_ c) (successorHitCounter_ c).
Definition with_deletes (c : SimpleCache) (d : gset Z) : SimpleCache :=
  mkSimpleCache (map_ c) (latestSeq_ c) (full_ c) (disabled_ c) d
    (objectReqCounter_ c) (objectHitCounter_ c) (successorReqCounter_ c) (successorHitCounter_ c).
Definition with_flags (c : SimpleCache) (full disabled : bool) : SimpleCache :=
  mkSimpleCache (map_ c) (latestSeq_ c) full disabled (deletes_ c)
    (objectReqCounter_ c) (objectHitCounter_ c) (successorReqCounter_ c) (successorHitCounter_ c).
Definition with_counters (c : SimpleCache) (oreq ohit sreq shit : Z) : SimpleCache :=
  mkSimpleCache (map_ c) (latestSeq_ c) (full_ c) (disabled_ c) (deletes_ c)
    (u32 oreq) (u32 ohit) (u32 sreq) (u32 shit).

Definition latestLedgerSequence (c : SimpleCache) : Z := latestSeq_ c.

(** One iteration of the loop of [update]. [map_[obj.key]] inserts a default
    entry (sequence 0, empty blob) when the key is absent. *)
Definition update_obj (seq : Z) (isBackground : bool) (c : SimpleCache) (obj : LedgerObject)
  : SimpleCache :=
  if negb (length (lo_blob obj) =? 0)%nat then
    if isBackground && bool_decide (lo_key obj ∈ deletes_ c) then c
    else
      let e := default (mkCacheEntry 0 []) (map_ c !! lo_key obj) in
      let e := if seq >? ce_seq e then mkCacheEntry seq (lo_blob obj) else e in
      with_map c (<[lo_key obj := e]> (map_ c))
  else
    let c := with_map c (delete (lo_key obj) (map_ c)) in
    if negb (full_ c) && negb isBackground
    then with_deletes c ({[lo_key obj]} ∪ deletes_ c)
    else c.

Definition update (objs : list LedgerObject) (seq : Z) (isBackground : bool) (c : SimpleCache)
  : SimpleCache :=
  if disabled_ c then c
  else
    let c := if seq >? latestSeq_ c then with_latestSeq c seq else c in
    foldl (update_obj seq isBackground) c objs.

(** The [assert] of [update]. *)
Definition update_assert (seq : Z) (c : SimpleCache) : bool :=
  disabled_ c || negb (seq >? latestSeq_ c)
  || (seq =? u32 (latestSeq_ c + 1)) || (latestSeq_ c =? 0).

(** The two halves of [getSuccessor]: the checks, and the lookup. The statement
    [std::shared_lock{mtx_};] between them locks a temporary, so the lock is
    released before the lookup: [getSuccessor] is the two halves run with
    nothing in between, the interleaved case is [getSuccessor_race]. *)
Definition getSuccessor_enter (seq : Z) (c : SimpleCache) : bool * SimpleCache :=
  if negb (full_ c) then (false, c)
  else
    let c := with_counters c (objectReqCounter_ c) (objectHitCounter_ c)
               (successorReqCounter_ c + 1) (successorHitCounter_ c) in
    (seq =? latestSeq_ c, c).

Definition getSuccessor_lookup (key : Z) (c : SimpleCache) : option LedgerObject * SimpleCache :=
  match upper_bound key (map_ c) with
  | None => (None, c)
  | Some (k, e) =>
      (Some (mkLedgerObject k (ce_blob e)),
       with_counters c (objectReqCounter_ c) (objectHitCounter_ c)
         (successorReqCounter_ c) (successorHitCounter_ c + 1))
  end.

Definition getSuccessor (key seq : Z) (c : SimpleCache) : option LedgerObject * SimpleCache :=
  let '(go, c) := getSuccessor_enter seq c in
  if (go : bool) then getSuccessor_lookup key c else (None, c).

Definition getPredecessor (key seq : Z) (c : SimpleCache) : option LedgerObject :=
  if negb (full_ c) then None
  else if negb (seq =? latestSeq_ c) then None
  else match before_lower_bound key (map_ c) with
       | None => None
       | Some (k, e) => Some (mkLedgerObject k (ce_blob e))
       end.

Definition get (key seq : Z) (c : SimpleCache) : option Blob * SimpleCache :=
  if seq >? latestSeq_ c then (None, c)
  else
    let c := with_counters c (objectReqCounter_ c + 1) (objectHitCounter_ c)
               (successorReqCounter_ c) (successorHitCounter_ c) in
    match map_ c !! key with
    | None => (None, c)
    | Some e =>
        if seq <? ce_seq e then (None, c)
        else (Some (ce_blob e),
              with_counters c (objectReqCounter_ c) (objectHitCounter_ c + 1)
                (successorReqCounter_ c) (successorHitCounter_ c))
    end.

Definition setDisabled (c : SimpleCache) : SimpleCache := with_flags c (full_ c) true.

Definition setFull (c : SimpleCache) : SimpleCache :=
  if disabled_ c then c else with_deletes (with_flags c true (disabled_ c)) ∅.

Definition isFull (c : SimpleCache) : bool := full_ c.
Definition cache_size (c : SimpleCache) : nat := size (map_ c).

(** ** Ledger histories and reachable cache states *)

(** [L s] is the ledger state at sequence [s]; objects are never empty. *)
Record history := mkHistory {
  L : Z -> gmap Z Blob;
  s0 : Z;
  s0_pos : 0 < s0;
  L_nonempty : forall s k b, L s !! k = Some b -> b <> [];
  L_valid : forall s k b, L s !! k = Some b -> valid_key k
}.

(** [objs] is the diff of ledger [s]: the changed keys, each once, with the new
    blob, empty for a deleted object. *)
Definition is_diff (h : history) (s : Z) (objs : list LedgerObject) : Prop :=
  NoDup (lo_key <$> objs) /\
  (forall o, o ∈ objs -> L h s !! lo_key o =
     if decide (lo_blob o = []) then None else Some (lo_blob o)) /\
  (forall k, k ∉ (lo_key <$> objs) -> L h s !! k = L h (s - 1) !! k).

(** [objs] are objects of the ledger being loaded in the background. *)
Definition is_page (h : history) (objs : list LedgerObject) : Prop :=
  forall o, o ∈ objs -> L h (s0 h) !! lo_key o = Some (lo_blob o).

(** The sequence the cache's contents are about. *)
Definition current (h : history) (c : SimpleCache) : Z :=
  if latestSeq_ c =? 0 then s0 h else latestSeq_ c.

(** What the two writers and the readers do, with the keys loaded so far. *)
Inductive cache_step (h : history) : SimpleCache * gset Z -> SimpleCache * gset Z -> Prop :=
| step_diff c ld objs s :
    s = current h c + 1 \/ disabled_ c = true -> is_diff h s objs ->
    cache_step h (c, ld) (update objs s false c, ld)
| step_page c ld objs :
    full_ c = false -> is_page h objs ->
    cache_step h (c, ld) (update objs (s0 h) true c, ld ∪ list_to_set (lo_key <$> objs))
| step_full c ld :
    (forall k, is_Some (L h (s0 h) !! k) -> k ∈ ld) ->
    cache_step h (c, ld) (setFull c, ld)
| step_disable c ld : cache_step h (c, ld) (setDisabled c, ld)
| step_get c ld k s : cache_step h (c, ld) ((get k s c).2, ld)
| step_succ c ld k s : cache_step h (c, ld) ((getSuccessor k s c).2, ld).

Definition reach (h : history) (c : SimpleCache) (ld : gset Z) : Prop :=
  rtc (cache_step h) (SimpleCache_init, ∅) (c, ld).

(** ** What an update does at one key *)

(** The part of the state an update of key [k] reads and writes. *)
Definition view (c : SimpleCache) (k : Z) : option CacheEntry * bool :=
  (map_ c !! k, bool_decide (k ∈ deletes_ c)).

Lemma update_obj_frame seq bg c o :
  latestSeq_ (update_obj seq bg c o) = latestSeq_ c /\
  full_ (update_obj seq bg c o) = full_ c /\
  disabled_ (update_obj seq bg c o) = disabled_ c.
Proof. unfold update_obj. repeat case_match; done. Qed.

Lemma update_obj_view_ne seq bg c o k :
  k <> lo_key o -> view (update_obj seq bg c o) k = view c k.
Proof.
  intros Hk. unfold update_obj, view.
  repeat case_match; simpl; rewrite ?lookup_insert_ne, ?lookup_delete_ne by done; try done.
  f_equal. apply bool_decide_ext. set_solver.
Qed.

Lemma foldl_frame seq bg objs c :
  latestSeq_ (foldl (update_obj seq bg) c objs) = latestSeq_ c /\
  full_ (foldl (update_obj seq bg) c objs) = full_ c /\
  disabled_ (foldl (update_obj seq bg) c objs) = disabled_ c.
Proof.
  revert c. induction objs as [|o objs IH]; intros c; simpl; [done|].
  destruct (update_obj_frame seq bg c o) as (? & ? & ?).
  destruct (IH (update_obj seq bg c o)) as (? & ? & ?). split_and!; congruence.
Qed.

Lemma foldl_view_ne seq bg objs c k :
  k ∉ (lo_key <$> objs) -> view (foldl (update_obj seq bg) c objs) k = view c k.
Proof.
  revert c. induction objs as [|o objs IH]; intros c Hk; simpl; [done|].
  rewrite fmap_cons, not_elem_of_cons in Hk. destruct Hk as [Hk1 Hk2].
  rewrite IH by done. by apply update_obj_view_ne.
Qed.

(** In a list of distinct keys, the object's own step decides its key. *)
Lemma foldl_view_at seq bg objs c o :
  NoDup (lo_key <$> objs) -> o ∈ objs ->
  exists c', view c' (lo_key o) = view c (lo_key o) /\ full_ c' = full_ c /\
    view (foldl (update_obj seq bg) c objs) (lo_key o) =
    view (update_obj seq bg c' o) (lo_key o).
Proof.
  revert c. induction objs as [|o' objs IH]; intros c Hnd Hin; [by apply not_elem_of_nil in Hin|].
  rewrite fmap_cons in Hnd. apply NoDup_cons in Hnd as [Hni Hnd]. simpl.
  apply elem_of_cons in Hin as [->|Hin].
  - exists c. split_and!; [done | done |]. by apply foldl_view_ne.
  - destruct (IH (update_obj seq bg c o') Hnd Hin) as (c' & Hv & Hf & Hr).
    exists c'. split_and!; [| | done].
    + rewrite Hv. apply update_obj_view_ne. intros Heq. apply Hni. rewrite <- Heq.
      by apply list_elem_of_fmap_2.
    + rewrite Hf. apply update_obj_frame.
Qed.

(** ** The coherence invariant *)

Section coherence.
Variable h : history.

(** An entry holds the key's value since its sequence; an absent key is absent
    from the ledger (full cache), or has not changed since [s0] and is not
    loaded yet, or was deleted since. *)
Definition key_ok (c : SimpleCache) (ld : gset Z) (cur k : Z) : Prop :=
  (forall e, map_ c !! k = Some e ->
     s0 h <= ce_seq e <= cur /\
     forall s, ce_seq e <= s <= cur -> L h s !! k = Some (ce_blob e)) /\
  (map_ c !! k = None ->
     (full_ c = true -> L h cur !! k = None) /\
     (full_ c = false -> disabled_ c = false ->
        (k ∈ deletes_ c -> L h cur !! k = None) /\
        (k ∉ deletes_ c ->
           (forall s, s0 h <= s <= cur -> L h s !! k = L h (s0 h) !! k) /\
           (k ∈ ld -> L h (s0 h) !! k = None)))).

Definition inv (c : SimpleCache) (ld : gset Z) : Prop :=
  ((latestSeq_ c = 0 /\ map_ c = ∅) \/ s0 h <= latestSeq_ c) /\
  forall k, key_ok c ld (current h c) k.

Lemma inv_current c ld : inv c ld -> s0 h <= current h c.
Proof.
  intros [[[Hl _]|Hl] _]; unfold current; pose proof (s0_pos h); case_match; zbool; lia.
Qed.

Lemma inv_init : inv SimpleCache_init ∅.
Proof.
  split; [by left|]. intros k. split; simpl; [by rewrite lookup_empty|].
  intros _. split; [done|]. intros _ _. split; [set_solver|]. intros _.
  split; [|set_solver]. change (current h SimpleCache_init) with (s0 h).
  intros s Hs. by replace s with (s0 h) by lia.
Qed.

(** A state that agrees on everything but the counters keeps the invariant. *)
Lemma inv_counters c ld a b d e : inv c ld -> inv (with_counters c a b d e) ld.
Proof. done. Qed.

Lemma key_ok_view c c' ld cur k :
  view c' k = view c k -> full_ c' = full_ c -> disabled_ c' = disabled_ c ->
  key_ok c ld cur k -> key_ok c' ld cur k.
Proof.
  intros [= Hm Hd] Hf Hdis Hok. 
  assert (k ∈ deletes_ c' <-> k ∈ deletes_ c) as Hd'.
  { rewrite <- (bool_decide_eq_true (k ∈ deletes_ c')), <- (bool_decide_eq_true (k ∈ deletes_ c)).
    by rewrite Hd. }
  unfold key_ok in *. rewrite Hm, Hf, Hdis. by rewrite Hd'.
Qed.

(** *** The diff of the next ledger *)

(** The view of a key of a foreground update of a newer sequence. *)
Lemma update_obj_fg_view seq c o :
  (forall e, map_ c !! lo_key o = Some e -> ce_seq e < seq) -> 0 < seq ->
  view (update_obj seq false c o) (lo_key o) =
  if decide (lo_blob o = []) then
    (None, bool_decide (lo_key o ∈ deletes_ c) || negb (full_ c))
  else (Some (mkCacheEntry seq (lo_blob o)), bool_decide (lo_key o ∈ deletes_ c)).
Proof.
  intros Hlt Hpos. unfold update_obj, view. rewrite andb_true_r.
  destruct (decide (lo_blob o = [])) as [Hb|Hb].
  - rewrite Hb. simpl. destruct (full_ c) eqn:Hf; simpl; rewrite lookup_delete_eq.
    + by rewrite orb_false_r.
    + rewrite orb_true_r. f_equal. apply (proj2 (bool_decide_eq_true _)). set_solver.
  - rewrite (proj2 (Nat.eqb_neq _ 0)) by (by intros ?%nil_length_inv).
    simpl. rewrite lookup_insert_eq.
    assert (ce_seq (default (mkCacheEntry 0 []) (map_ c !! lo_key o)) < seq) as Hs.
    { destruct (map_ c !! lo_key o) as [e|] eqn:He; simpl; [by apply Hlt | done]. }
    rewrite Z.gtb_ltb, (proj2 (Z.ltb_lt _ _)) by done. done.
Qed.

Lemma diff_preserves_key c ld objs k :
  inv c ld -> disabled_ c = false -> is_diff h (current h c + 1) objs ->
  key_ok (foldl (update_obj (current h c + 1) false) (with_latestSeq c (current h c + 1)) objs)
    ld (current h c + 1) k.
Proof.
  intros Hinv Hdis (Hnd & Hin & Hout). pose proof (inv_current _ _ Hinv) as Hcur.
  pose proof (s0_pos h) as Hpos. destruct Hinv as [_ Hk]. specialize (Hk k) as [Hent Habs].
  set (s := current h c + 1) in *.
  destruct (foldl_frame s false objs (with_latestSeq c s)) as (_ & Hf & Hd'). simpl in Hf, Hd'.
  assert (current h c = s - 1) as Hc1 by lia.
  destruct (decide (k ∈ (lo_key <$> objs))) as [Hkin|Hkout].
  - apply list_elem_of_fmap in Hkin as (o & -> & Ho). specialize (Hin o Ho).
    destruct (foldl_view_at s false objs (with_latestSeq c s) o Hnd Ho) as (c' & Hv & Hf' & Hr).
    apply pair_equal_spec in Hv as [Hm Hdel]. simpl in Hf', Hm.
    rewrite update_obj_fg_view in Hr; [| | lia].
    2:{ intros e He. rewrite Hm in He. apply Hent in He as [He _]. lia. }
    case_decide as Hb; apply pair_equal_spec in Hr as [Hr1 Hr2]; split; rewrite Hr1; try done.
    + rewrite Hin. intros _. split; [done|]. intros Hnf _. split; [done|]. intros Hni.
      exfalso. apply Hni. apply (proj1 (bool_decide_eq_true _)). rewrite Hr2, Hf', <- Hf, Hnf.
      by rewrite orb_true_r.
    + intros e [= <-]. simpl. split; [lia|]. intros s' Hs'. by replace s' with s by lia.
  - specialize (Hout k Hkout). rewrite <- Hc1 in Hout.
    eapply (key_ok_view c); [by rewrite foldl_view_ne | done | done |].
    split.
    + intros e He. destruct (Hent e He) as [He1 He2]. split; [lia|].
      intros s' Hs'. destruct (decide (s' = s)) as [->|]; [|apply He2; lia].
      rewrite Hout. apply He2. lia.
    + intros Hn. destruct (Habs Hn) as [Hfull Hfill]. rewrite Hout. split; [done|].
      intros H1 H2. destruct (Hfill H1 H2) as [Hd1 Hd2]. split; [done|].
      intros Hni. destruct (Hd2 Hni) as [Hc Hl]. split; [|done].
      intros s' Hs'. destruct (decide (s' = s)) as [->|]; [|apply Hc; lia].
      rewrite Hout. apply Hc. lia.
Qed.

(** *** A page of the background load *)

Lemma page_obj_preserves c ld cur o :
  s0 h <= cur -> full_ c = false -> disabled_ c = false ->
  L h (s0 h) !! lo_key o = Some (lo_blob o) ->
  (forall k, key_ok c ld cur k) ->
  forall k, key_ok (update_obj (s0 h) true c o) (ld ∪ {[lo_key o]}) cur k.
Proof.
  intros Hcur Hnf Hnd Ho Hall k. pose proof (s0_pos h) as Hpos. specialize (Hall k).
  assert ((length (lo_blob o) =? 0) = false)%nat as Hlen.
  { apply Nat.eqb_neq. intros Hz%nil_length_inv. by eapply (L_nonempty h). }
  destruct (decide (k = lo_key o)) as [->|Hne].
  2:{ eapply (key_ok_view c); [by apply update_obj_view_ne | apply update_obj_frame ..|].
      destruct Hall as [He Ha]. split; [done|]. intros Hn. destruct (Ha Hn) as [Hf Hfill].
      split; [done|]. intros H1 H2. destruct (Hfill H1 H2) as [Hd1 Hd2]. split; [done|].
      intros Hni. destruct (Hd2 Hni) as [Hc Hl]. split; [done|].
      rewrite elem_of_union, elem_of_singleton. naive_solver. }
  unfold update_obj. rewrite Hlen. cbn [negb andb].
  destruct Hall as [He Ha]. case_bool_decide as Hdel.
  { split; [done|]. intros Hn. destruct (Ha Hn) as [Hf Hfill]. split; [done|].
    intros H1 H2. destruct (Hfill H1 H2) as [Hd1 _]. split; [done | congruence]. }
  split; simpl; rewrite lookup_insert_eq; [|done]. intros e [= <-].
  destruct (map_ c !! lo_key o) as [e|] eqn:Hm; cbn [default id].
  - destruct (He e eq_refl) as [He1 He2].
    assert ((s0 h >? ce_seq e) = false) as ->; [|done].
    rewrite Z.gtb_ltb. apply Z.ltb_ge. lia.
  - cbn [ce_seq]. rewrite Z.gtb_ltb, (proj2 (Z.ltb_lt 0 (s0 h))) by done. cbn [ce_seq ce_blob].
    split; [lia|]. intros s' Hs'. destruct (Ha eq_refl) as [_ Hfill].
    destruct (Hfill Hnf Hnd) as [_ Hc]. destruct (Hc Hdel) as [Hconst _].
    by rewrite Hconst.
Qed.

Lemma page_preserves c ld cur objs :
  s0 h <= cur -> full_ c = false -> disabled_ c = false -> is_page h objs ->
  (forall k, key_ok c ld cur k) ->
  forall k, key_ok (foldl (update_obj (s0 h) true) c objs)
              (ld ∪ list_to_set (lo_key <$> objs)) cur k.
Proof.
  intros Hcur. revert c ld. induction objs as [|o objs IH]; intros c ld Hnf Hnd Hp Hall k.
  - simpl. by rewrite union_empty_r_L.
  - cbn [foldl fmap list_fmap list_to_set]. rewrite union_assoc_L.
    destruct (update_obj_frame (s0 h) true c o) as (_ & Hf & Hd).
    apply IH; [by rewrite Hf | by rewrite Hd | intros o' Ho'; apply Hp; set_solver |].
    apply page_obj_preserves; [done .. | apply Hp; set_solver | done].
Qed.

Lemma step_preserves_inv c ld c' ld' :
  cache_step h (c, ld) (c', ld') -> inv c ld -> inv c' ld'.
Proof.
  intros Hstep Hinv. pose proof (inv_current _ _ Hinv) as Hcur. pose proof (s0_pos h) as Hpos.
  inversion Hstep as [? ? objs s Hs Hd | ? ? objs Hnf Hp | ? ? Hall | | ? ? k s | ? ? k s];
    subst; clear Hstep.
  - unfold update. destruct (disabled_ c) eqn:Hdis; [done|]. destruct Hs as [->|]; [|done].
    assert ((current h c + 1 >? latestSeq_ c) = true) as ->.
    { rewrite Z.gtb_ltb. apply Z.ltb_lt. unfold current in *. case_match; zbool; lia. }
    destruct (foldl_frame (current h c + 1) false objs
      (with_latestSeq c (current h c + 1))) as (Hl & _ & _). simpl in Hl.
    split; [right; rewrite Hl; lia|]. intros k.
    assert (current h (foldl (update_obj (current h c + 1) false)
      (with_latestSeq c (current h c + 1)) objs) = current h c + 1) as ->.
    { unfold current at 1. rewrite Hl. rewrite (proj2 (Z.eqb_neq _ _)) by lia. done. }
    by apply diff_preserves_key.
  - unfold update. destruct (disabled_ c) eqn:Hdis.
    { destruct Hinv as [Hl Hk]. split; [done|]. intros k. destruct (Hk k) as [He Ha].
      split; [done|]. intros Hn. destruct (Ha Hn) as [Hf _]. split; [done | congruence]. }
    set (c1 := if s0 h >? latestSeq_ c then _ else _).
    assert (current h c1 = current h c) as Hc1.
    { subst c1. unfold current. destruct Hinv as [[[H0 _]|H0] _].
      - rewrite H0, Z.gtb_ltb, (proj2 (Z.ltb_lt 0 (s0 h))) by done. simpl.
        by rewrite (proj2 (Z.eqb_neq _ _)) by lia.
      - rewrite Z.gtb_ltb, (proj2 (Z.ltb_ge _ _)) by done. done. }
    assert (s0 h <= latestSeq_ c1) as Hl1 by (subst c1; case_match; zbool; simpl; lia).
    destruct (foldl_frame (s0 h) true objs c1) as (Hl & _ & _).
    split; [right; by rewrite Hl|]. unfold current at 1. rewrite Hl. fold (current h c1).
    assert (full_ c1 = false) as Hf1 by (subst c1; by case_match).
    assert (disabled_ c1 = false) as Hd1 by (subst c1; by case_match).
    apply page_preserves; [by rewrite Hc1 | done.. |].
    rewrite Hc1. intros k. destruct Hinv as [_ Hk]. specialize (Hk k).
    subst c1. case_match; done.
  - unfold setFull. destruct (disabled_ c) eqn:Hdis; [done|].
    destruct Hinv as [Hl Hk]. split; [done|]. intros k.
    change (current h _) with (current h c). destruct (Hk k) as [He Ha]. split; [done|].
    simpl. intros Hn. split; [|done]. intros _. destruct (Ha Hn) as [Hfull Hfill].
    destruct (full_ c) eqn:Hf; [by apply Hfull|].
    destruct (Hfill eq_refl Hdis) as [Hd1 Hd2].
    destruct (decide (k ∈ deletes_ c)) as [Hin|Hni]; [by apply Hd1|].
    destruct (Hd2 Hni) as [Hc Hld]. rewrite Hc by lia.
    destruct (L h (s0 h) !! k) eqn:Hk0; [|done]. apply Hld, Hall. by rewrite Hk0.
  - destruct Hinv as [Hl Hk]. split; [done|]. intros k.
    destruct (Hk k) as [He Ha]. split; [done|]. intros Hn.
    destruct (Ha Hn) as [Hf _]. split; done.
  - unfold get. repeat case_match; done.
  - unfold getSuccessor, getSuccessor_enter, getSuccessor_lookup.
    destruct (full_ c); simpl; [|done]. destruct (s =? latestSeq_ c); simpl; [|done].
    by destruct (upper_bound k (map_ c)) as [[]|].
Qed.

Lemma reach_inv c ld : reach h c ld -> inv c ld.
Proof.
  unfold reach. intros Hr.
  assert (forall p, rtc (cache_step h) (SimpleCache_init, ∅) p -> inv p.1 p.2) as H.
  { apply (rtc_ind_r (fun p => inv p.1 p.2)); [apply inv_init|].
    intros [c1 l1] [c2 l2] _ Hstep Hi. simpl in *. by eapply step_preserves_inv. }
  by apply (H (c, ld)).
Qed.

End coherence.

(** ** What readers see *)

Lemma get_hit k s c b :
  (get k s c).1 = Some b <->
  s <= latestSeq_ c /\ exists e, map_ c !! k = Some e /\ ce_seq e <= s /\ ce_blob e = b.
Proof.
  unfold get. destruct (s >? latestSeq_ c) eqn:Hs; zbool; simpl.
  - split; [done | intros [? _]; lia].
  - destruct (map_ c !! k) as [e|]; simpl; [|naive_solver].
    destruct (s <? ce_seq e) eqn:He; zbool; simpl.
    + split; [done|]. intros (_ & ? & [= <-] & ? & _). lia.
    + split; [intros [= <-]; eauto 10 | naive_solver].
Qed.

(** The map of a full cache is the ledger at the cache's sequence. *)
Lemma full_map h c ld k :
  reach h c ld -> full_ c = true -> L h (current h c) !! k = ce_blob <$> map_ c !! k.
Proof.
  intros Hr%reach_inv Hf. destruct Hr as [_ Hk]. destruct (Hk k) as [He Ha].
  destruct (map_ c !! k) as [e|] eqn:Hm; simpl.
  - destruct (He e eq_refl) as [Hb Hv]. apply Hv. lia.
  - destruct (Ha eq_refl) as [Hn _]. by apply Hn.
Qed.

Lemma full_map_present h c ld k e :
  reach h c ld -> full_ c = true -> map_ c !! k = Some e -> L h (current h c) !! k = Some (ce_blob e).
Proof. intros Hr Hf Hm. by rewrite (full_map _ _ _ _ Hr Hf), Hm. Qed.

Lemma full_map_absent h c ld k :
  reach h c ld -> full_ c = true -> map_ c !! k = None <-> L h (current h c) !! k = None.
Proof. intros Hr Hf. rewrite (full_map _ _ _ _ Hr Hf). symmetry. apply fmap_None. Qed.

Lemma current_latest h c s : 0 < s -> s = latestSeq_ c -> current h c = s.
Proof. intros Hs ->. unfold current. by rewrite (proj2 (Z.eqb_neq _ _)) by lia. Qed.

(** A hit of [getSuccessor] is right without further conditions. *)
Lemma getSuccessor_hit k s c o :
  (getSuccessor k s c).1 = Some o ->
  full_ c = true /\ s = latestSeq_ c /\
  exists e, upper_bound k (map_ c) = Some (lo_key o, e) /\ ce_blob e = lo_blob o.
Proof.
  unfold getSuccessor, getSuccessor_enter, getSuccessor_lookup.
  destruct (full_ c); simpl; [|done]. destruct (s =? latestSeq_ c) eqn:Hs; simpl; [|done].
  destruct (upper_bound k (map_ c)) as [[k1 e]|]; simpl; [|done].
  intros [= <-]. zbool. eauto.
Qed.

Lemma getSuccessor_sound h c ld k s o :
  reach h c ld -> (getSuccessor k s c).1 = Some o ->
  L h s !! lo_key o = Some (lo_blob o) /\ k < lo_key o /\
  forall j, k < j < lo_key o -> L h s !! j = None.
Proof.
  intros Hr (Hf & Hs & e & Hub & Hb)%getSuccessor_hit.
  pose proof Hub as (H1 & H2 & H3)%upper_bound_Some.
  assert (current h c = s) as Hc.
  { pose proof (s0_pos h). apply current_latest; [|done].
    destruct (reach_inv _ _ _ Hr) as [[[_ Hm]|Hl] _]; [|lia].
    rewrite Hm, lookup_empty in H1. done. }
  pose proof (full_map_absent h c ld) as Habs.
  pose proof (full_map h c ld (lo_key o) Hr Hf) as Hm. rewrite Hc in Hm, Habs.
  split_and!; [by rewrite Hm, H1, <- Hb | done |].
  intros j Hj. apply (Habs _ Hr Hf). by apply H3.
Qed.

Lemma cache_hit_sound h c ld k s b :
  reach h c ld -> (get k s c).1 = Some b -> L h s !! k = Some b.
Proof.
  intros Hr%reach_inv (Hs & e & Hm & He & <-)%get_hit.
  destruct Hr as [_ Hk]. destruct (Hk k) as [Hent _]. destruct (Hent e Hm) as [Hb Hv].
  apply Hv. split; [done|]. pose proof (s0_pos h). unfold current. case_match; zbool; lia.
Qed.

(** A cache hit is right at the requested sequence, whatever the order in
    which ledger diffs and background pages arrived, whether the cache is full,
    filling or disabled. *)
Theorem cache_get_sound (h : history) (c : SimpleCache) (ld : gset Z) (k s : Z) (b : Blob) :
  reach h c ld -> (get k s c).1 = Some b -> L h s !! k = Some b.
Proof. apply cache_hit_sound. Qed.

Lemma full_get (h : history) (c : SimpleCache) (ld : gset Z) (k s : Z) :
  reach h c ld -> isFull c = true -> s = latestLedgerSequence c -> 0 < s ->
  (get k s c).1 = L h s !! k.
Proof.
  unfold isFull, latestLedgerSequence. intros Hr Hf Hs Hpos.
  destruct ((get k s c).1) as [b|] eqn:Hg.
  - symmetry. by eapply cache_hit_sound.
  - pose proof (full_map h c ld k Hr Hf) as Hm. rewrite (current_latest h c s Hpos Hs) in Hm.
    destruct (map_ c !! k) as [e|] eqn:He; simpl in Hm; [|done].
    pose proof (reach_inv _ _ _ Hr) as [_ Hk]. destruct (Hk k) as [Hent _].
    destruct (Hent e He) as [Hb _]. rewrite (current_latest h c s Hpos Hs) in Hb.
    assert ((get k s c).1 = Some (ce_blob e)) as Hh.
    { apply get_hit. split; [lia|]. exists e. split_and!; [done | lia | done]. }
    congruence.
Qed.

Lemma full_neighbours (h : history) (c : SimpleCache) (ld : gset Z) (k s : Z) :
  reach h c ld -> isFull c = true -> s = latestLedgerSequence c -> 0 < s ->
  (forall o, (getSuccessor k s c).1 = Some o <->
     L h s !! lo_key o = Some (lo_blob o) /\ k < lo_key o /\
     forall j, k < j < lo_key o -> L h s !! j = None) /\
  (forall o, getPredecessor k s c = Some o <->
     L h s !! lo_key o = Some (lo_blob o) /\ lo_key o < k /\
     forall j, lo_key o < j < k -> L h s !! j = None).
Proof.
  unfold isFull, latestLedgerSequence. intros Hr Hf Hs Hpos.
  pose proof (full_map h c ld) as Hm. pose proof (full_map_absent h c ld) as Habs.
  rewrite (current_latest h c s Hpos Hs) in Hm, Habs.
  split; intros [k' b].
  - unfold getSuccessor, getSuccessor_enter, getSuccessor_lookup. rewrite Hf. simpl.
    rewrite (proj2 (Z.eqb_eq _ _) Hs).
    destruct (upper_bound k (map_ c)) as [[k1 e]|] eqn:Hub; simpl.
    + pose proof Hub as (H1 & H2 & H3)%upper_bound_Some. split.
      * intros [= <- <-]. split_and!; [by rewrite (Hm _ Hr Hf), H1 | done |].
        intros j Hj. apply (Habs _ Hr Hf). by apply H3.
      * intros (Hl & Hk & Hn). rewrite (Hm _ Hr Hf) in Hl. apply fmap_Some in Hl as (e' & He' & ->).
        assert (upper_bound k (map_ c) = Some (k', e')) as Hu.
        { apply upper_bound_Some. split_and!; [done | done |]. intros j Hj.
          apply (Habs _ Hr Hf). by apply Hn. }
        rewrite Hub in Hu. by injection Hu as -> ->.
    + split; [done|]. intros (Hl & Hk & _). rewrite (Hm _ Hr Hf) in Hl.
      apply fmap_Some in Hl as (e' & He' & _).
      rewrite (proj1 (upper_bound_None _ _) Hub k' Hk) in He'. done.
  - unfold getPredecessor. rewrite Hf. simpl. rewrite (proj2 (Z.eqb_eq _ _) Hs). simpl.
    split.
    + destruct (before_lower_bound k (map_ c)) as [[k1 e]|] eqn:Hub; [|done].
      intros [= <- <-]. apply before_lower_bound_Some in Hub as (H1 & H2 & H3).
      split_and!; [by rewrite (Hm _ Hr Hf), H1 | done |].
      intros j Hj. apply (Habs _ Hr Hf). by apply H3.
    + intros (Hl & Hk & Hn). rewrite (Hm _ Hr Hf) in Hl. apply fmap_Some in Hl as (e' & He' & Hb).
      simpl in Hb, He'. subst b.
      rewrite (proj2 (before_lower_bound_Some k (map_ c) k' e')); [done|].
      split_and!; [done | done |]. intros j Hj. apply (Habs _ Hr Hf). by apply Hn.
Qed.

(** C38: a full cache answers every lookup at its latest sequence exactly: the
    object if the ledger has it, nothing otherwise. *)
Theorem cache_full_get_exact (h : history) (c : SimpleCache) (ld : gset Z) (k s : Z) :
  reach h c ld -> isFull c = true -> s = latestLedgerSequence c -> 0 < s ->
  (get k s c).1 = L h s !! k.
Proof. apply full_get. Qed.

(** On a full cache at its latest sequence [getSuccessor] is the least key
    above the given one in that ledger, with its blob, and [getPredecessor] the
    greatest below; both are empty exactly when there is none. *)
Theorem cache_neighbours (h : history) (c : SimpleCache) (ld : gset Z) (k s : Z) :
  reach h c ld -> isFull c = true -> s = latestLedgerSequence c -> 0 < s ->
  (forall o, (getSuccessor k s c).1 = Some o <->
     L h s !! lo_key o = Some (lo_blob o) /\ k < lo_key o /\
     forall j, k < j < lo_key o -> L h s !! j = None) /\
  (forall o, getPredecessor k s c = Some o <->
     L h s !! lo_key o = Some (lo_blob o) /\ lo_key o < k /\
     forall j, lo_key o < j < k -> L h s !! j = None).
Proof. apply full_neighbours. Qed.

(** ** A sample history *)

Definition sample_L (s : Z) : gmap Z Blob :=
  if s <=? 5 then {[10 := [1]; 30 := [3]]} else {[20 := [2]; 30 := [3]]}.

Lemma sample_L_nonempty s k b : sample_L s !! k = Some b -> b <> [].
Proof.
  unfold sample_L. intros H ->.
  case_match; apply lookup_insert_Some in H as [[_ ?]|[_ H]]; try discriminate;
    apply lookup_singleton_Some in H as [_ ?]; discriminate.
Qed.

Lemma sample_L_valid s k b : sample_L s !! k = Some b -> valid_key k.
Proof.
  unfold sample_L. intros H.
  case_match; apply lookup_insert_Some in H as [[<- ?]|[_ H]]; try (unfold valid_key; lia);
    apply lookup_singleton_Some in H as [<- ?]; unfold valid_key; lia.
Qed.

Definition sample_history : history :=
  mkHistory sample_L 5 ltac:(done) sample_L_nonempty sample_L_valid.

Definition sample_page : list LedgerObject := [mkLedgerObject 10 [1]; mkLedgerObject 30 [3]].
Definition sample_diff : list LedgerObject := [mkLedgerObject 10 []; mkLedgerObject 20 [2]].

Definition sample_full : SimpleCache := setFull (update sample_page 5 true SimpleCache_init).
Definition sample_next : SimpleCache := update sample_diff 6 false sample_full.
Definition sample_loaded : gset Z := ∅ ∪ list_to_set (lo_key <$> sample_page).

Lemma sample_full_reach : reach sample_history sample_full sample_loaded.
Proof.
  eapply rtc_l; [apply (step_page sample_history SimpleCache_init ∅ sample_page)|].
  - done.
  - intros o Ho. unfold sample_page in Ho. rewrite !elem_of_cons in Ho.
    by destruct Ho as [->|[->|Ho%not_elem_of_nil]].
  - apply rtc_once. apply step_full. intros k. simpl. unfold sample_L. simpl.
    intros [b Hb]. apply lookup_insert_Some in Hb as [[<- _]|[_ Hb]]; [set_solver|].
    apply lookup_singleton_Some in Hb as [<- _]. set_solver.
Qed.

Lemma sample_diff_ok : is_diff sample_history 6 sample_diff.
Proof.
  unfold is_diff. split_and!.
  - apply (bool_decide_unpack _). by vm_compute.
  - intros o Ho. unfold sample_diff in Ho. rewrite !elem_of_cons in Ho.
    by destruct Ho as [->|[->|Ho%not_elem_of_nil]].
  - intros k Hk. unfold sample_diff in Hk. simpl in Hk. rewrite !not_elem_of_cons in Hk.
    destruct Hk as (H1 & H2 & _). change (sample_L 6 !! k = sample_L 5 !! k).
    unfold sample_L. simpl. by rewrite !lookup_insert_ne by done.
Qed.

Lemma sample_next_reach : reach sample_history sample_next sample_loaded.
Proof.
  eapply rtc_r; [apply sample_full_reach|]. apply step_diff; [by left | apply sample_diff_ok].
Qed.

Lemma cache_get_sound_witness :
  reach sample_history sample_next sample_loaded /\
  (get 30 5 sample_next).1 = Some [3] /\ L sample_history 5 !! 30 = Some [3].
Proof.
  split; [exact sample_next_reach | split; [by vm_compute|]].
  apply (cache_get_sound sample_history sample_next sample_loaded 30 5 [3]);
    [exact sample_next_reach | by vm_compute].
Defined.

Lemma cache_full_get_exact_witness :
  isFull sample_next = true /\ (get 10 6 sample_next).1 = L sample_history 6 !! 10.
Proof.
  split; [by vm_compute|].
  apply (cache_full_get_exact sample_history sample_next sample_loaded 10 6);
    [exact sample_next_reach | by vm_compute | by vm_compute | done].
Defined.

Lemma cache_neighbours_witness :
  (getSuccessor 5 6 sample_next).1 = Some (mkLedgerObject 20 [2]) /\
  forall j, 5 < j < 20 -> L sample_history 6 !! j = None.
Proof.
  assert ((getSuccessor 5 6 sample_next).1 = Some (mkLedgerObject 20 [2])) as Hs by (by vm_compute).
  destruct (cache_neighbours sample_history sample_next sample_loaded 5 6 sample_next_reach)
    as [Hsucc _]; [by vm_compute | by vm_compute | done |].
  split; [exact Hs|]. apply (Hsucc (mkLedgerObject 20 [2])). exact Hs.
Defined.

(** The lock of [getSuccessor] is dropped before the lookup: when the ETL
    thread applies the next ledger between the two halves, a reader that asked
    for sequence 5 of a full cache is given an object that ledger 5 does not
    have. *)
Theorem getSuccessor_race :
  exists (h : history) (c : SimpleCache) (ld : gset Z) (objs : list LedgerObject) (k s : Z)
    (o : LedgerObject),
    reach h c ld /\ is_diff h (s + 1) objs /\
    let '(go, c1) := getSuccessor_enter s c in
    go = true /\
    (getSuccessor_lookup k (update objs (s + 1) false c1)).1 = Some o /\
    L h s !! lo_key o = None.
Proof.
  exists sample_history, sample_full, sample_loaded, sample_diff, 5, 5, (mkLedgerObject 20 [2]).
  split; [exact sample_full_reach | split; [exact sample_diff_ok|]]. by vm_compute.
Qed.
