(* ===== verification/Backend.v ===== *)
(** * The database interface

    [src/src/backend/BackendInterface.h] and [BackendInterface.cpp]: the part of
    [BackendInterface] that is not virtual - the cached reads, the page and
    book-offer iterations, the in-memory range, the retry loops. The virtual
    functions are the class [BackendImpl], implemented by [Cassandra]. A world
    [W] holds the object's state ([cache_], [range]) and whatever the virtual
    functions read and write. *)

From stdpp Require Import base list gmap strings sorting.
From Stdlib Require Import ZArith Lia.
From S2P Require Import Prelude Types SimpleCache.

Open Scope Z_scope.

(** The state of a [BackendInterface] and its virtual functions. *)
Class BackendImpl (W : Type) := {
  cache_ : W -> SimpleCache;
  set_cache : SimpleCache -> W -> W;
  range : W -> option LedgerRange;
  set_range : option LedgerRange -> W -> W;
  doFetchLedgerObject : uint256 -> Z -> M W (option Blob);
  doFetchLedgerObjects : list uint256 -> Z -> M W (list Blob);
  doFetchSuccessorKey : uint256 -> Z -> M W (option uint256);
  hardFetchLedgerRange : M W (option LedgerRange);
  doFinishWrites : M W bool;
  doWriteLedgerObject : list Z -> Z -> Blob -> M W unit
}.

Section interface.
Context `{BackendImpl W}.

(** [range] read and written under its lock. *)
Definition fetchLedgerRange : M W (option LedgerRange) := fun w => (Ok (range w), w).

Definition updateRange_assert (newMax : Z) (r : option LedgerRange) : bool :=
  match r with None => true | Some r => newMax >=? maxSequence r end.

Definition updateRange (newMax : Z) : M W unit := fun w =>
  (Ok tt, match range w with
          | None => set_range (Some (mkLedgerRange newMax newMax)) w
          | Some r => set_range (Some (mkLedgerRange (minSequence r) newMax)) w
          end).

Definition finishWrites (ledgerSequence : Z) : M W bool :=
  commitRes ← doFinishWrites;
  if (commitRes : bool) then updateRange ledgerSequence ≫= fun _ => mret commitRes
  else mret commitRes.

Definition writeLedgerObject_assert (key : list Z) : bool := (length key =? 32)%nat.

Definition writeLedgerObject (key : list Z) (seq : Z) (blob : Blob) : M W unit :=
  doWriteLedgerObject key seq blob.

(** [while (true) try { return func(); } catch (DatabaseTimeout&) {}]; the
    number of attempts is the only thing that bounds it. *)
Fixpoint retryOnTimeout {A} (fuel : nat) (func : M W A) : M W A :=
  match fuel with
  | O => no_fuel
  | S fuel' => catch_timeout func (retryOnTimeout fuel' func)
  end.

Definition hardFetchLedgerRangeNoThrow (fuel : nat) : M W (option LedgerRange) :=
  retryOnTimeout fuel hardFetchLedgerRange.

(** Cache reads go through the shared cache and bump its counters. *)
Definition cache_get (key : uint256) (seq : Z) : M W (option Blob) := fun w =>
  let '(r, c) := get key seq (cache_ w) in (Ok r, set_cache c w).

Definition cache_getSuccessor (key : uint256) (seq : Z) : M W (option LedgerObject) := fun w =>
  let '(r, c) := getSuccessor key seq (cache_ w) in (Ok r, set_cache c w).

Definition fetchLedgerObject (key : uint256) (sequence : Z) : M W (option Blob) :=
  obj ← cache_get key sequence;
  match obj with
  | Some b => mret (Some b)
  | None => doFetchLedgerObject key sequence
  end.

(** First loop of [fetchLedgerObjects]: look every key up in the cache. *)
Fixpoint fetch_hits (keys : list uint256) (sequence : Z) : M W (list Blob * list uint256) :=
  match keys with
  | [] => mret ([], [])
  | key :: keys' =>
      obj ← cache_get key sequence;
      '(results, misses) ← fetch_hits keys' sequence;
      match obj with
      | Some b => mret (b :: results, misses)
      | None => mret ([] :: results, key :: misses)
      end
  end.

(** Second loop: the empty results are filled from the database, in order.
    [objs[j]] beyond the end is undefined behaviour. *)
Fixpoint fill_misses (results : list Blob) (objs : list Blob) : Res (list Blob) :=
  match results with
  | [] => Ok []
  | r :: results' =>
      if (length r =? 0)%nat then
        match objs with
        | [] => Throw OutOfRange
        | o :: objs' => rs ← fill_misses results' objs'; Ok (o :: rs)
        end
      else rs ← fill_misses results' objs; Ok (r :: rs)
  end.

Definition fetchLedgerObjects (keys : list uint256) (sequence : Z) : M W (list Blob) :=
  '(results, misses) ← fetch_hits keys sequence;
  if negb (length misses =? 0)%nat then
    objs ← doFetchLedgerObjects misses sequence;
    lift_res (fill_misses results objs)
  else mret results.

Definition fetchSuccessorKey (key : uint256) (ledgerSequence : Z) : M W (option uint256) :=
  succ ← cache_getSuccessor key ledgerSequence;
  match succ with
  | Some o => mret (Some (lo_key o))
  | None => doFetchSuccessorKey key ledgerSequence
  end.

Definition fetchSuccessorObject (key : uint256) (ledgerSequence : Z) : M W (option LedgerObject) :=
  succ ← fetchSuccessorKey key ledgerSequence;
  match succ with
  | Some k =>
      obj ← fetchLedgerObject k ledgerSequence;
      mret (Some (mkLedgerObject k (default [] obj)))
  | None => mret None
  end.

(** The key loop of [fetchLedgerPage]. [keys] is kept in order; every round adds
    a key or reaches the end. *)
Fixpoint page_keys (fuel : nat) (limit : Z) (start : uint256) (seq : Z) (keys : list uint256)
  : M W (list uint256 * bool) :=
  if Z.of_nat (length keys) <? limit then
    match fuel with
    | O => no_fuel
    | S fuel' =>
        succ ← fetchSuccessorKey (default start (last keys)) seq;
        match succ with
        | None => mret (keys, true)
        | Some k => page_keys fuel' limit start seq (keys ++ [k])
        end
    end
  else mret (keys, false).

(** The object loop: objects without data are left out. *)
Fixpoint page_objects_of (keys : list uint256) (objects : list Blob) : list LedgerObject :=
  match keys, objects with
  | k :: keys', o :: objects' =>
      if negb (length o =? 0)%nat then mkLedgerObject k o :: page_objects_of keys' objects'
      else page_objects_of keys' objects'
  | _, _ => []
  end.

Definition fetchLedgerPage (cursor : option uint256) (ledgerSequence limit : Z)
    (outOfOrder : bool) : M W LedgerPage :=
  rng ← fetchLedgerRange;
  seq ← (if outOfOrder then
           match rng with
           | Some r => mret (maxSequence r)
           | None => throw BadOptionalAccess
           end
         else mret ledgerSequence);
  '(keys, reachedEnd) ← page_keys (Z.to_nat limit) limit (default firstKey cursor) seq [];
  objects ← fetchLedgerObjects keys ledgerSequence;
  mret (mkLedgerPage (page_objects_of keys objects)
          (if negb (length keys =? 0)%nat && negb reachedEnd then last keys else None)).

End interface.

(** A computation from worlds with [P] that uses patience up when it times out:
    with enough of it [retryOnTimeout] ends, and never with a timeout. *)
Definition patient {W A} (patience : W -> nat) (P : W -> Prop) (m : M W A) (Q : A -> W -> Prop) : Prop :=
  forall w0, triple (fun w => w = w0 /\ P w) m
    (fun r w => Q r w /\ (patience w <= patience w0)%nat)
    (fun e w => P w /\ (patience w <= patience w0)%nat /\ (e = DatabaseTimeout -> (patience w < patience w0)%nat)).

Lemma patient_retry `{BackendImpl W} {A} (patience : W -> nat) (P : W -> Prop) (m : M W A) Q fuel :
  patient patience P m Q ->
  triple (fun w => P w /\ (patience w < fuel)%nat) (retryOnTimeout fuel m)
    (fun r w => Q r w /\ (patience w < fuel)%nat) (fun e w => P w /\ e <> DatabaseTimeout).
Proof.
  intros Hm. assert (forall n w, P w -> (patience w < n)%nat ->
    match retryOnTimeout n m w with
    | (Ok r, w') => Q r w' /\ (patience w' <= patience w)%nat
    | (Throw e, w') => P w' /\ e <> DatabaseTimeout
    | (NoFuel, _) => False
    end) as Hn.
  { induction n as [|n IH]; intros w Hw Hp; [lia|]. cbn [retryOnTimeout]. unfold catch_timeout.
    specialize (Hm w w (conj eq_refl Hw)). destruct (m w) as [[r|e|] w']; [done| |done].
    destruct Hm as (Hw' & Hle & Ht). destruct e; try (by split). specialize (Ht eq_refl).
    specialize (IH w' Hw' ltac:(lia)). destruct (retryOnTimeout n m w') as [[r|e|] w'']; [|done..].
    destruct IH as [? ?]. split; [done|lia]. }
  intros w [Hw Hp]. specialize (Hn fuel w Hw Hp). destruct (retryOnTimeout fuel m w) as [[r|e|] w']; [|done..].
  destruct Hn as [? ?]. split; [done|lia].
Qed.

(** ** Reads that parse ledger objects *)

Record Fees := mkFees { fee_base : Z; fee_units : Z; fee_reserve : Z; fee_increment : Z }.

Section parsing_reads.
Context `{BackendImpl W} `{Ripple}.

(** Inner loop of [fetchBookOffers]: the pages of one directory. The directory
    chain is not bounded by the code. *)
Fixpoint book_dir_pages (fuel : nat) (limit ledgerSequence : Z) (uTipIndex : uint256)
    (dir : LedgerObject) (keys : list uint256) : M W (list uint256) :=
  if Z.of_nat (length keys) <? limit then
    match fuel with
    | O => no_fuel
    | S fuel' =>
        sle ← lift_res (parseSLE (lo_blob dir) (lo_key dir));
        indexes ← lift_res (getFieldV256 sle sfIndexes);
        next ← lift_res (getFieldU64 sle sfIndexNext);
        if next =? 0 then mret (keys ++ indexes)
        else
          let nextKey := keylet_page uTipIndex next in
          nextDir ← fetchLedgerObject nextKey ledgerSequence;
          match nextDir with
          | None => throw BadOptionalAccess
          | Some b => book_dir_pages fuel' limit ledgerSequence uTipIndex
                        (mkLedgerObject nextKey b) (keys ++ indexes)
          end
    end
  else mret keys.

(** Outer loop: the directories of the book in quality order. *)
Fixpoint book_dirs (fuel : nat) (limit ledgerSequence : Z) (bookEnd uTipIndex : uint256)
    (keys : list uint256) : M W (list uint256) :=
  if Z.of_nat (length keys) <? limit then
    match fuel with
    | O => no_fuel
    | S fuel' =>
        offerDir ← fetchSuccessorObject uTipIndex ledgerSequence;
        match offerDir with
        | None => mret keys
        | Some dir =>
            if lo_key dir >=? bookEnd then mret keys
            else
              keys ← book_dir_pages fuel limit ledgerSequence (lo_key dir) dir keys;
              book_dirs fuel' limit ledgerSequence bookEnd (lo_key dir) keys
        end
    end
  else mret keys.

Definition fetchBookOffers (fuel : nat) (book : uint256) (ledgerSequence limit : Z)
    (cursor : option uint256) : M W BookOffersPage :=
  keys ← book_dirs fuel limit ledgerSequence (getQualityNext book) book [];
  objs ← fetchLedgerObjects keys ledgerSequence;
  mret (mkBookOffersPage
          (take (Z.to_nat limit) (zip_with mkLedgerObject keys objs)) None).

(** A fee field is read when the object has it, and is zero otherwise. *)
Definition fee_field (sle : STObject) (f : SField) (read : STObject -> SField -> Res Z) : Res Z :=
  if negb (getFieldIndex sle f =? -1) then read sle f else Ok 0.

Definition fetchFees (seq : Z) : M W (option Fees) :=
  bytes ← fetchLedgerObject keylet_fees seq;
  match bytes with
  | None => mret None
  | Some b =>
      sle ← lift_res (parseSLE b keylet_fees);
      base ← lift_res (fee_field sle sfBaseFee getFieldU64);
      units ← lift_res (fee_field sle sfReferenceFeeUnits getFieldU32);
      reserve ← lift_res (fee_field sle sfReserveBase getFieldU32);
      increment ← lift_res (fee_field sle sfReserveIncrement getFieldU32);
      mret (Some (mkFees base units reserve increment))
  end.

End parsing_reads.

(** ** What the reads are about *)

(** The least key of a ledger above [k]. *)
Definition next_key (m : gmap Z Blob) (k : Z) : option Z := fst <$> upper_bound k m.

(** The first [n] keys above [k], in order. *)
Fixpoint keys_after (m : gmap Z Blob) (k : Z) (n : nat) : list Z :=
  match n with
  | O => []
  | S n' => match next_key m k with
            | None => []
            | Some k' => k' :: keys_after m k' n'
            end
  end.

Definition object_at (m : gmap Z Blob) (k : Z) : LedgerObject :=
  mkLedgerObject k (default [] (m !! k)).

(** The contract the cached reads are proved against: the cache answers from
    the ledger history [Ldg] (theorems of [SimpleCache]), the virtual reads
    return what the database holds for a sequence or throw (theorems of
    [Cassandra]), the successor of a key being looked up only from the first
    key or from a key of the ledger. [I] is the invariant of the worlds, [E]
    what may be thrown. *)
Class ReadLaws `{BackendImpl W} (Ldg : Z -> gmap Z Blob) (I : W -> Prop)
    (E : Exn -> W -> Prop) := {
  rl_nonempty : forall s k b, Ldg s !! k = Some b -> b <> [];
  rl_valid : forall s k b, Ldg s !! k = Some b -> valid_key k;
  rl_get : forall w k s b, I w -> (get k s (cache_ w)).1 = Some b -> Ldg s !! k = Some b;
  rl_succ : forall w k s o, I w -> (getSuccessor k s (cache_ w)).1 = Some o ->
    next_key (Ldg s) k = Some (lo_key o);
  rl_set_get : forall w k s, I w -> I (set_cache (get k s (cache_ w)).2 w);
  rl_set_succ : forall w k s, I w -> I (set_cache (getSuccessor k s (cache_ w)).2 w);
  rl_object : forall k s, valid_key k ->
    triple I (doFetchLedgerObject k s) (fun r w => r = Ldg s !! k /\ I w) E;
  rl_objects : forall ks s, Forall valid_key ks ->
    triple I (doFetchLedgerObjects ks s)
      (fun r w => r = (fun k => default [] (Ldg s !! k)) <$> ks /\ I w) E;
  rl_successor : forall k s, k = firstKey \/ is_Some (Ldg s !! k) ->
    triple I (doFetchSuccessorKey k s) (fun r w => r = next_key (Ldg s) k /\ I w) E
}.

(** The keys from a cursor on, in order; no cursor means from the first key. *)
Definition keys_from (m : gmap Z Blob) (cursor : option Z) : list Z :=
  keys_after m (default firstKey cursor) (size m).

(** ** Keys in order *)

Lemma next_key_Some m k k' :
  next_key m k = Some k' <->
  is_Some (m !! k') /\ k < k' /\ forall j, k < j < k' -> m !! j = None.
Proof.
  unfold next_key. rewrite fmap_Some. split.
  - intros ([k1 v] & Hub & ->). apply upper_bound_Some in Hub as (? & ? & ?). simpl. eauto.
  - intros ([v Hv] & Hlt & Hn). exists (k', v). split; [|done]. by apply upper_bound_Some.
Qed.

Lemma next_key_None m k : next_key m k = None <-> forall j, k < j -> m !! j = None.
Proof. unfold next_key. rewrite fmap_None. apply upper_bound_None. Qed.

Lemma keys_after_sorted m k n : StronglySorted Z.lt (k :: keys_after m k n).
Proof.
  revert k. induction n as [|n IH]; intros k; simpl; [by repeat constructor|].
  destruct (next_key m k) as [k'|] eqn:Hk; [|by repeat constructor].
  apply next_key_Some in Hk as (_ & Hlt & _). specialize (IH k').
  constructor; [done|]. constructor; [done|].
  apply StronglySorted_inv in IH as [_ Hall]. eapply Forall_impl; [exact Hall|].
  intros j Hj. simpl in Hj. lia.
Qed.

Lemma keys_after_elem m k n j : j ∈ keys_after m k n -> is_Some (m !! j) /\ k < j.
Proof.
  revert k. induction n as [|n IH]; intros k; simpl; [by intros ?%not_elem_of_nil|].
  destruct (next_key m k) as [k'|] eqn:Hk; [|by intros ?%not_elem_of_nil].
  apply next_key_Some in Hk as (Hs & Hlt & _).
  intros [->|Hj]%elem_of_cons; [done|]. apply IH in Hj as [? ?]. split; [done | lia].
Qed.

Lemma keys_after_length m k n : (length (keys_after m k n) <= n)%nat.
Proof.
  revert k. induction n as [|n IH]; intros k; simpl; [lia|].
  destruct (next_key m k) as [k'|]; simpl; [specialize (IH k'); lia | lia].
Qed.

(** A list shorter than asked for has every key. *)
Lemma keys_after_complete m k n :
  (length (keys_after m k n) < n)%nat ->
  forall j, k < j -> is_Some (m !! j) -> j ∈ keys_after m k n.
Proof.
  revert k. induction n as [|n IH]; intros k; simpl; [lia|].
  destruct (next_key m k) as [k'|] eqn:Hk; simpl.
  - intros Hl j Hj Hs. apply next_key_Some in Hk as (_ & _ & Hn).
    destruct (decide (j = k')) as [->|Hne]; [set_solver|].
    apply elem_of_cons. right. apply IH; [lia | | done].
    destruct (Z.lt_trichotomy j k') as [Hlt|[?|?]]; [|done|lia].
    rewrite Hn in Hs by lia. by destruct Hs.
  - intros _ j Hj Hs. rewrite (proj1 (next_key_None _ _) Hk) in Hs by done. by destruct Hs.
Qed.

Lemma keys_after_NoDup m k n : NoDup (keys_after m k n).
Proof.
  pose proof (keys_after_sorted m k n) as Hs. apply StronglySorted_inv in Hs as [Hs _].
  induction Hs as [|a l Hs IH Ha]; [constructor|]. constructor; [|done].
  intros Hin. rewrite Forall_forall in Ha. specialize (Ha a Hin). simpl in Ha. lia.
Qed.

Lemma keys_after_size m k n : (length (keys_after m k n) <= size m)%nat.
Proof.
  rewrite <- (size_dom (D := gset Z)), <- (size_list_to_set (C := gset Z) (keys_after m k n))
    by apply keys_after_NoDup.
  apply subseteq_size. intros j Hj. apply elem_of_list_to_set in Hj.
  apply elem_of_dom. by apply keys_after_elem in Hj as [? _].
Qed.

Lemma keys_after_take m k n N : (n <= N)%nat -> keys_after m k n = take n (keys_after m k N).
Proof.
  revert k N. induction n as [|n IH]; intros k N Hle; [done|].
  destruct N as [|N]; [lia|]. simpl. destruct (next_key m k); [|done].
  simpl. f_equal. apply IH. lia.
Qed.

(** More than [size m] steps find nothing else. *)
Lemma keys_after_enough m k n1 n2 :
  (size m <= n1)%nat -> (size m <= n2)%nat -> keys_after m k n1 = keys_after m k n2.
Proof.
  intros H1 H2. rewrite (keys_after_take m k n1 (n1 + n2)), (keys_after_take m k n2 (n1 + n2)) by lia.
  pose proof (keys_after_size m k (n1 + n2)). by rewrite !take_ge by lia.
Qed.

(** The keys from the last one found on follow the ones found. *)
Lemma keys_after_app m k a b :
  keys_after m k (a + b) =
  keys_after m k a ++ keys_after m (default k (last (keys_after m k a))) b.
Proof.
  revert k. induction a as [|a IH]; intros k; [done|]. simpl.
  destruct (next_key m k) as [k'|] eqn:Hk.
  - rewrite IH, last_cons. simpl. do 2 f_equal. by destruct (last (keys_after m k' a)).
  - simpl. destruct b; simpl; [done|]. by rewrite Hk.
Qed.

Lemma keys_after_S m k n :
  keys_after m k (S n) =
  keys_after m k n ++
  match next_key m (default k (last (keys_after m k n))) with Some j => [j] | None => [] end.
Proof.
  rewrite <- Nat.add_1_r, keys_after_app. by f_equal.
Qed.

Lemma keys_after_last m k n :
  default k (last (keys_after m k n)) = k \/
  is_Some (m !! default k (last (keys_after m k n))).
Proof.
  destruct (last (keys_after m k n)) as [j|] eqn:Hl; [right | by left].
  apply last_Some in Hl as [l' Hl]. apply (keys_after_elem m k n). rewrite Hl. set_solver.
Qed.

(** The [N] next keys after a cursor, as a chunk of all of them: a chunk that is
    not full is the end, after a full one the rest follows its last key. *)
Lemma keys_after_chunk m cursor N :
  (0 < N)%nat ->
  let K := keys_after m (default firstKey cursor) N in
  K = take N (keys_from m cursor) /\
  match (if decide (length K = N) then last K else None) with
  | None => (length (keys_from m cursor) < N)%nat
  | Some c => is_Some (m !! c) /\ keys_from m (Some c) = drop N (keys_from m cursor) /\
      (N <= length (keys_from m cursor))%nat
  end.
Proof.
  intros Hpos K. unfold keys_from. simpl (default firstKey (Some _)).
  subst K. set (k := default firstKey cursor). set (K := keys_after m k N).
  rewrite (keys_after_enough m k (size m) (N + size m)) by lia.
  rewrite keys_after_app. fold K.
  pose proof (keys_after_length m k N) as Hl. fold K in Hl.
  destruct (decide (length K = N)) as [HN|HN].
  - rewrite take_app_length', drop_app_length' by done. split; [done|].
    destruct (last K) as [c|] eqn:Hlast; simpl.
    + split; [|split; [done | rewrite length_app; lia]].
      apply last_Some in Hlast as [l' Hl']. apply (keys_after_elem m k N). fold K. rewrite Hl'. set_solver.
    + apply last_None in Hlast. rewrite Hlast in HN. simpl in HN. lia.
  - assert (keys_after m (default k (last K)) (size m) = []) as ->.
    { destruct (keys_after m (default k (last K)) (size m)) as [|j l] eqn:Hrest; [done|].
      pose proof (keys_after_app m k N (size m)) as Happ. fold K in Happ. rewrite Hrest in Happ.
      pose proof (keys_after_elem m k (N + size m) j) as Hj.
      destruct Hj as [Hs Hlt]; [rewrite Happ; set_solver|].
      assert (j ∈ K) as HjK by (apply keys_after_complete; [fold K; lia | done | done]).
      pose proof (keys_after_NoDup m k (N + size m)) as Hnd. rewrite Happ in Hnd.
      apply NoDup_app in Hnd as (_ & Hd & _). destruct (Hd j HjK). set_solver. }
    rewrite app_nil_r, take_ge by lia. split; [done | lia].
Qed.

(** Paging from the start visits every key but [firstKey] itself. *)
Lemma keys_from_elem m k :
  (forall j, is_Some (m !! j) -> valid_key j) -> m !! firstKey = None ->
  k ∈ keys_from m None <-> is_Some (m !! k).
Proof.
  intros Hv H0. unfold keys_from. simpl. split; [by intros []%keys_after_elem|]. intros Hk.
  rewrite (keys_after_enough _ _ _ (S (size m))) by lia.
  apply keys_after_complete; [|  | done].
  - pose proof (keys_after_size m firstKey (S (size m))). lia.
  - pose proof (Hv k Hk) as Hvk. unfold valid_key, firstKey in *.
    destruct (decide (k = 0)) as [->|]; [by rewrite H0 in Hk; destruct Hk | lia].
Qed.

(** ** The cached reads return what the ledger holds *)

Section read_specs.
Context `{BackendImpl W} {Ldg : Z -> gmap Z Blob} {I : W -> Prop} {E : Exn -> W -> Prop}.
Context `{!ReadLaws Ldg I E}.

Lemma cache_get_spec key seq :
  triple I (cache_get key seq)
    (fun r w => (forall b, r = Some b -> Ldg seq !! key = Some b) /\ I w) E.
Proof.
  intros w Hw. unfold cache_get.
  pose proof (rl_set_get w key seq Hw) as Hset. pose proof (rl_get w key seq) as Hget.
  destruct (get key seq (cache_ w)) as [r c]. simpl in *.
  split; [|done]. intros b ->. by apply Hget.
Qed.

Lemma cache_getSuccessor_spec key seq :
  triple I (cache_getSuccessor key seq)
    (fun r w => (forall o, r = Some o -> next_key (Ldg seq) key = Some (lo_key o)) /\ I w) E.
Proof.
  intros w Hw. unfold cache_getSuccessor.
  pose proof (rl_set_succ w key seq Hw) as Hset. pose proof (rl_succ w key seq) as Hget.
  destruct (getSuccessor key seq (cache_ w)) as [r c]. simpl in *.
  split; [|done]. intros o ->. by apply Hget.
Qed.

Lemma fetchLedgerObject_spec key seq :
  valid_key key ->
  triple I (fetchLedgerObject key seq) (fun r w => r = Ldg seq !! key /\ I w) E.
Proof.
  intros Hk. eapply triple_bind; [apply cache_get_spec|]. intros [b|]; apply triple_pre_pure; intros Hr.
  - apply triple_ret. intros w Hw. split; [|done]. symmetry. by apply Hr.
  - by apply rl_object.
Qed.

Lemma fetchSuccessorKey_spec key seq :
  key = firstKey \/ is_Some (Ldg seq !! key) ->
  triple I (fetchSuccessorKey key seq) (fun r w => r = next_key (Ldg seq) key /\ I w) E.
Proof.
  intros Hk. eapply triple_bind; [apply cache_getSuccessor_spec|].
  intros [o|]; apply triple_pre_pure; intros Hr.
  - apply triple_ret. intros w Hw. split; [|done]. symmetry. by apply Hr.
  - by apply rl_successor.
Qed.

(** Result and miss list of the cache pass, for some choice of hits. *)
Lemma fetch_hits_spec keys seq :
  triple I (fetch_hits keys seq)
    (fun r w => r.2 ⊆ keys /\
       (length r.2 = 0%nat -> r.1 = (fun k => default [] (Ldg seq !! k)) <$> keys) /\
       fill_misses r.1 ((fun k => default [] (Ldg seq !! k)) <$> r.2) =
         Ok ((fun k => default [] (Ldg seq !! k)) <$> keys) /\ I w) E.
Proof.
  induction keys as [|key keys IH]; [by apply triple_ret|].
  eapply triple_bind; [apply cache_get_spec|]. intros r; apply triple_pre_pure; intros Hr.
  eapply triple_bind; [apply IH|]. intros [results misses].
  destruct r as [b|]; apply triple_ret; intros w (Hsub & Hnil & Hfill & Hw); simpl in *;
    (split; [set_solver|]).
  - specialize (Hr b eq_refl). pose proof (rl_nonempty seq key b Hr) as Hne.
    rewrite Hr. simpl. split; [intros Hm; f_equal; by apply Hnil|]. split; [|done].
    rewrite (proj2 (Nat.eqb_neq _ 0)) by (by intros ?%nil_length_inv).
    fold_fmap. by rewrite Hfill.
  - split; [done|]. split; [|done]. fold_fmap. by rewrite Hfill.
Qed.

Lemma fetchLedgerObjects_reads (keys : list Z) (seq : Z) :
  Forall valid_key keys ->
  triple I (fetchLedgerObjects keys seq)
    (fun r w => r = (fun k => default [] (Ldg seq !! k)) <$> keys /\ I w) E.
Proof.
  intros Hkeys. eapply triple_bind; [apply fetch_hits_spec|]. intros [results misses]. simpl.
  destruct (length misses =? 0)%nat eqn:Hlen; simpl.
  - apply Nat.eqb_eq in Hlen. apply triple_ret. intros w (_ & Hnil & _ & Hw). split; [by apply Hnil | done].
  - intros w (Hsub & _ & Hfill & Hw).
    revert w Hw. change (triple I (objs ← doFetchLedgerObjects misses seq;
      lift_res (fill_misses results objs))
      (fun r w => r = (fun k => default [] (Ldg seq !! k)) <$> keys /\ I w) E).
    eapply triple_bind.
    { apply rl_objects. rewrite Forall_forall in Hkeys |- *. auto. }
    intros objs. apply triple_pre_pure. intros ->.
    apply triple_lift. intros w Hw. by rewrite Hfill.
Qed.

(** [fetchLedgerObjects] returns, in the order of the keys, the object of
    each key at the sequence (an empty blob when there is none): the cache hits
    and the database results are put back together position by position. *)
Theorem fetchLedgerObjects_spec (keys : list Z) (seq : Z) :
  Forall valid_key keys ->
  triple I (fetchLedgerObjects keys seq)
    (fun r w => r = (fun k => default [] (Ldg seq !! k)) <$> keys /\ I w) E.
Proof. apply fetchLedgerObjects_reads. Qed.

Lemma page_keys_spec fuel limit start seq n :
  start = firstKey \/ is_Some (Ldg seq !! start) ->
  length (keys_after (Ldg seq) start n) = n ->
  (Z.to_nat limit <= n + fuel)%nat -> (n <= Z.to_nat limit)%nat ->
  triple I (page_keys fuel limit start seq (keys_after (Ldg seq) start n))
    (fun r w => r.1 = keys_after (Ldg seq) start (Z.to_nat limit) /\
       r.2 = (length r.1 <? Z.to_nat limit)%nat /\ I w) E.
Proof.
  intros Hs. revert n. induction fuel as [|fuel IH]; intros n Hn Hf Hle; cbn [page_keys];
    rewrite Hn; destruct (Z.of_nat n <? limit) eqn:Hlim; zbool; try lia.
  - apply triple_ret. intros w Hw. assert (n = Z.to_nat limit) as -> by lia. simpl.
    rewrite Hn, Nat.ltb_irrefl. done.
  - eapply triple_bind; [apply fetchSuccessorKey_spec|].
    { destruct (keys_after_last (Ldg seq) start n) as [->|]; eauto. }
    pose proof (keys_after_S (Ldg seq) start n) as HS.
    intros [k|]; apply triple_pre_pure; intros Hk; rewrite <- Hk in HS.
    + rewrite <- HS. apply IH; [| lia | lia]. rewrite HS, length_app, Hn. simpl. lia.
    + apply triple_ret. intros w Hw. rewrite app_nil_r in HS. simpl.
      assert (keys_after (Ldg seq) start n = keys_after (Ldg seq) start (Z.to_nat limit)) as <-.
      { destruct (Nat.le_exists_sub n (Z.to_nat limit)) as (p & -> & _); [lia|].
        rewrite (Nat.add_comm p), keys_after_app. destruct p; simpl; [by rewrite app_nil_r|].
        rewrite <- Hk. by rewrite app_nil_r. }
      rewrite Hn. split_and!; [done | symmetry; apply Nat.ltb_lt; lia | done].
  - apply triple_ret. intros w Hw. assert (n = Z.to_nat limit) as -> by lia. simpl.
    rewrite Hn, Nat.ltb_irrefl. done.
Qed.

Lemma page_objects_all (m : gmap Z Blob) keys :
  (forall k b, m !! k = Some b -> b <> []) -> (forall k, k ∈ keys -> is_Some (m !! k)) ->
  page_objects_of keys ((fun k => default [] (m !! k)) <$> keys) = object_at m <$> keys.
Proof.
  intros Hne. induction keys as [|k keys IH]; intros Hall; [done|]. simpl.
  destruct (Hall k) as [b Hb]; [set_solver|]. unfold object_at at 1. rewrite Hb. simpl.
  rewrite (proj2 (Nat.eqb_neq _ 0)) by (intros ?%nil_length_inv; by eapply Hne). simpl.
  f_equal. apply IH. set_solver.
Qed.

Lemma fetchLedgerPage_reads (cursor : option Z) (seq limit : Z) :
  (forall k, cursor = Some k -> is_Some (Ldg seq !! k)) ->
  triple I (fetchLedgerPage cursor seq limit false)
    (fun p w =>
       let keys := keys_after (Ldg seq) (default firstKey cursor) (Z.to_nat limit) in
       page_objects p = object_at (Ldg seq) <$> keys /\
       page_cursor p = (if decide (length keys = Z.to_nat limit) then last keys else None) /\
       I w) E.
Proof.
  intros Hc. unfold fetchLedgerPage.
  eapply (triple_bind _ _ _ (fun _ => I)); [by intros w Hw|]. intros rng.
  eapply (triple_bind _ _ _ (fun s w => s = seq /\ I w)); [by apply triple_ret|].
  intros s. apply triple_pre_pure. intros ->.
  eapply triple_bind.
  { apply (page_keys_spec _ _ _ _ 0); simpl; [| done | lia | lia].
    destruct cursor as [k|]; simpl; [right; by apply Hc | by left]. }
  intros [keys fin]. simpl. apply triple_pre_pure. intros ->.
  apply triple_pre_pure. intros ->.
  set (keys := keys_after _ _ _). eapply triple_bind.
  { apply fetchLedgerObjects_reads. apply Forall_forall. intros k Hk.
    apply keys_after_elem in Hk as [[b Hb] _]. by eapply rl_valid. }
  intros objs. apply triple_pre_pure. intros ->. apply triple_ret. intros w Hw.
  cbn [page_objects page_cursor]. split_and!; [| | done].
  - apply page_objects_all; [by apply rl_nonempty|]. intros k Hk.
    by apply keys_after_elem in Hk as [? _].
  - pose proof (keys_after_length (Ldg seq) (default firstKey cursor) (Z.to_nat limit)) as Hl.
    fold keys in Hl. destruct (length keys <? Z.to_nat limit)%nat eqn:Hlt.
    + apply Nat.ltb_lt in Hlt. rewrite decide_False by lia. by rewrite andb_false_r.
    + apply Nat.ltb_ge in Hlt. rewrite decide_True by lia. rewrite andb_true_r.
      by destruct keys.
Qed.

(** The page as a chunk of the keys from the cursor on. *)
Lemma fetchLedgerPage_chunk (cursor : option Z) (seq limit : Z) :
  0 < limit -> (forall k, cursor = Some k -> is_Some (Ldg seq !! k)) ->
  triple I (fetchLedgerPage cursor seq limit false)
    (fun p w =>
       let K := keys_from (Ldg seq) cursor in
       page_objects p = object_at (Ldg seq) <$> take (Z.to_nat limit) K /\
       match page_cursor p with
       | None => (length K < Z.to_nat limit)%nat
       | Some c => is_Some (Ldg seq !! c) /\
           keys_from (Ldg seq) (Some c) = drop (Z.to_nat limit) K /\ (Z.to_nat limit <= length K)%nat
       end /\ I w) E.
Proof.
  intros Hpos Hc. eapply triple_conseq; [by apply fetchLedgerPage_reads | done | | done].
  intros p w (Ho & Hcur & Hw). simpl.
  destruct (keys_after_chunk (Ldg seq) cursor (Z.to_nat limit)) as [Hk Hm]; [lia|].
  by rewrite Ho, Hcur, <- Hk.
Qed.

(** [fetchLedgerPage] returns the objects of the [limit] least keys above
    the cursor in key order, and a cursor (the last of them) exactly when the
    page is full; it needs at most [limit] successor lookups. *)
Theorem fetchLedgerPage_spec (cursor : option Z) (seq limit : Z) :
  (forall k, cursor = Some k -> is_Some (Ldg seq !! k)) ->
  triple I (fetchLedgerPage cursor seq limit false)
    (fun p w =>
       let keys := keys_after (Ldg seq) (default firstKey cursor) (Z.to_nat limit) in
       page_objects p = object_at (Ldg seq) <$> keys /\
       page_cursor p = (if decide (length keys = Z.to_nat limit) then last keys else None) /\
       I w) E.
Proof. apply fetchLedgerPage_reads. Qed.

End read_specs.

(** ** A database in memory

    An implementation of the virtual functions that serves a ledger history
    without failures; with it and a cache state the writers can produce, the
    contract holds. *)

Record MemWorld := mkMemWorld { mw_cache : SimpleCache; mw_range : option LedgerRange }.

#[export] Instance MemBackend (h : history) : BackendImpl MemWorld := {|
  cache_ := mw_cache;
  set_cache := fun c w => mkMemWorld c (mw_range w);
  range := mw_range;
  set_range := fun r w => mkMemWorld (mw_cache w) r;
  doFetchLedgerObject := fun k s => mret (L h s !! k);
  doFetchLedgerObjects := fun ks s => mret ((fun k => default [] (L h s !! k)) <$> ks);
  doFetchSuccessorKey := fun k s => mret (next_key (L h s) k);
  hardFetchLedgerRange := fun w => (Ok (mw_range w), w);
  doFinishWrites := mret true;
  doWriteLedgerObject := fun _ _ _ => mret tt
|}.

Definition cache_reachable (h : history) (w : MemWorld) : Prop :=
  exists ld, reach h (mw_cache w) ld.

#[export] Instance MemLaws (h : history) :
  ReadLaws (H := MemBackend h) (L h) (cache_reachable h) noexn.
Proof.
  split.
  - apply L_nonempty.
  - apply L_valid.
  - intros w k s b [ld Hr] Hg. by eapply cache_hit_sound.
  - intros w k s o [ld Hr] Hg. simpl in Hg.
    destruct (getSuccessor_sound _ _ _ _ _ _ Hr Hg) as (H1 & H2 & H3).
    apply next_key_Some. eauto.
  - intros w k s [ld Hr]. exists ld. eapply rtc_r; [exact Hr | apply step_get].
  - intros w k s [ld Hr]. exists ld. eapply rtc_r; [exact Hr | apply step_succ].
  - intros k s _ w Hw. split; [done | exact Hw].
  - intros ks s _ w Hw. split; [done | exact Hw].
  - intros k s _ w Hw. split; [done | exact Hw].
Qed.

Definition sample_world : MemWorld := mkMemWorld sample_next None.

Lemma sample_world_ok : cache_reachable sample_history sample_world.
Proof. exists sample_loaded. apply sample_next_reach. Qed.

Lemma fetchLedgerObjects_spec_witness :
  exists w, fetchLedgerObjects (H := MemBackend sample_history) [20; 10; 30] 6 sample_world
            = (Ok [[2]; []; [3]], w).
Proof.
  destruct (triple_run _ _ _ _
    (fetchLedgerObjects_spec (ReadLaws0 := MemLaws sample_history) [20; 10; 30] 6
       ltac:(repeat constructor; vm_compute; done))
    sample_world_ok) as (r & w & Hrun & -> & _).
  exists w. exact Hrun.
Defined.

Lemma fetchLedgerPage_spec_witness :
  exists p w, fetchLedgerPage (H := MemBackend sample_history) (Some 10) 5 1 false sample_world
              = (Ok p, w) /\ page_objects p = [mkLedgerObject 30 [3]] /\ page_cursor p = Some 30.
Proof.
  destruct (triple_run _ _ _ _
    (fetchLedgerPage_spec (ReadLaws0 := MemLaws sample_history) (Some 10) 5 1
       ltac:(intros k [= <-]; vm_compute; by eexists))
    sample_world_ok) as (p & w & Hrun & Ho & Hc & _).
  exists p, w. split; [exact Hrun|]. split; [rewrite Ho | rewrite Hc]; by vm_compute.
Defined.
