(* ===== verification/NFTHelpers.v ===== *)
(** * Extracting NFT data from transactions and ledger objects

    [src/src/etl/NFTHelpers.cpp]: one definition per function, in the error
    monad, over the rippled accessors of the class [Ripple]. *)

From stdpp Require Import base list gmap strings sorting.
From Stdlib Require Import ZArith Lia.
From S2P Require Import Prelude Types TreeRipple.

Open Scope Z_scope.

Section helpers.
Context `{Ripple}.

(** What every extractor returns: the transaction-to-token links, and the new
    state of a token when the transaction changes one. *)
Definition NFTResult : Type := list NFTTransactionsData * option NFTsData.

Definition token_ids (nfts : list STObject) : Res (list uint256) :=
  res_map (fun nft => getFieldH256 nft sfNFTokenID) nfts.

(** One round of the node loop of [getNFTokenMintData]: the token ids before,
    the token ids after, and the owner. *)
Definition mint_node (st : list uint256 * list uint256 * option AccountID) (node : STObject)
  : Res (list uint256 * list uint256 * option AccountID) :=
  let '(prevIDs, finalIDs, owner) := st in
  t ← getFieldU16 node sfLedgerEntryType;
  if negb (t =? ltNFTOKEN_PAGE) then Ok st
  else
    owner ← match owner with
            | Some o => Ok (Some o)
            | None => k ← getFieldH256 node sfLedgerIndex; Ok (Some (AccountID_fromVoid k))
            end;
    if bool_decide (getFName node = sfCreatedNode) then
      newFields ← peekAtObject node sfNewFields;
      toAddNFTs ← getFieldArray newFields sfNFTokens;
      ids ← token_ids toAddNFTs;
      Ok (prevIDs, finalIDs ++ ids, owner)
    else
      previousFields ← peekAtObject node sfPreviousFields;
      if negb (isFieldPresent previousFields sfNFTokens) then Ok (prevIDs, finalIDs, owner)
      else
        toAddNFTs ← getFieldArray previousFields sfNFTokens;
        ids ← token_ids toAddNFTs;
        finalFields ← peekAtObject node sfFinalFields;
        toAddFinalNFTs ← getFieldArray finalFields sfNFTokens;
        finals ← token_ids toAddFinalNFTs;
        Ok (prevIDs ++ ids, finalIDs ++ finals, owner).

Definition mint_collect (txMeta : TxMeta)
  : Res (list uint256 * list uint256 * option AccountID) :=
  res_fold mint_node ([], [], None) (getNodes txMeta).

Definition getNFTokenMintData (txMeta : TxMeta) (sttx : STTx) : Res NFTResult :=
  '(prevIDs, finalIDs, owner) ← mint_collect txMeta;
  let finalIDs := std_sort Z.ltb finalIDs in
  let prevIDs := std_sort Z.ltb prevIDs in
  let tokenIDResult := set_difference finalIDs prevIDs in
  match tokenIDResult, owner with
  | [tokenID], Some owner =>
      uri ← getFieldVL (tx_object sttx) sfURI;
      Ok ([NFTTransactionsData_make tokenID txMeta (getTransactionID sttx)],
          Some (NFTsData_mint tokenID owner uri txMeta))
  | _, _ => Throw (RuntimeError " - unexpected NFTokenMint data in tx ")
  end.

(** The token list a burn looks into, for one node. *)
Definition burn_prevNFTs (node : STObject) : Res (option (list STObject)) :=
  if isFieldPresent node sfPreviousFields then
    previousFields ← peekAtObject node sfPreviousFields;
    if isFieldPresent previousFields sfNFTokens then
      nfts ← getFieldArray previousFields sfNFTokens; Ok (Some nfts)
    else Ok None
  else if bool_decide (getFName node = sfDeletedNode) then
    finalFields ← peekAtObject node sfFinalFields;
    nfts ← getFieldArray finalFields sfNFTokens; Ok (Some nfts)
  else Ok None.

Definition has_token (tokenID : uint256) (candidate : STObject) : Res bool :=
  id ← getFieldH256 candidate sfNFTokenID; Ok (id =? tokenID).

(** The node loop of [getNFTokenBurnData]. *)
Fixpoint burn_nodes (tokenID : uint256) (nodes : list STObject) : Res (option AccountID) :=
  match nodes with
  | [] => Ok None
  | node :: nodes' =>
      t ← getFieldU16 node sfLedgerEntryType;
      if negb (t =? ltNFTOKEN_PAGE) || bool_decide (getFName node = sfCreatedNode)
      then burn_nodes tokenID nodes'
      else
        prevNFTs ← burn_prevNFTs node;
        match prevNFTs with
        | None => burn_nodes tokenID nodes'
        | Some prev =>
            nft ← res_find_if (has_token tokenID) prev;
            match nft with
            | Some _ => k ← getFieldH256 node sfLedgerIndex; Ok (Some (AccountID_fromVoid k))
            | None => burn_nodes tokenID nodes'
            end
        end
  end.

Definition getNFTokenBurnData (txMeta : TxMeta) (sttx : STTx) : Res NFTResult :=
  tokenID ← getFieldH256 (tx_object sttx) sfNFTokenID;
  let txs := [NFTTransactionsData_make tokenID txMeta (getTransactionID sttx)] in
  owner ← burn_nodes tokenID (getNodes txMeta);
  match owner with
  | Some owner => Ok (txs, Some (NFTsData_change tokenID owner txMeta true))
  | None => Throw (RuntimeError " - could not determine owner at burntime for tx ")
  end.

(** The affected node with the ledger index a transaction field names. *)
Definition affected_node (txMeta : TxMeta) (sttx : STTx) (f : SField) : Res (option STObject) :=
  res_find_if (fun node =>
    idx ← getFieldH256 node sfLedgerIndex;
    target ← getFieldH256 (tx_object sttx) f;
    Ok (idx =? target)) (getNodes txMeta).

(** The node loop of [getNFTokenAcceptOfferData]: the page, not the seller's,
    that has the token after the transaction. *)
Fixpoint accept_nodes (tokenID : uint256) (seller : AccountID) (nodes : list STObject)
  : Res (option AccountID) :=
  match nodes with
  | [] => Ok None
  | node :: nodes' =>
      t ← getFieldU16 node sfLedgerEntryType;
      if negb (t =? ltNFTOKEN_PAGE) || bool_decide (getFName node = sfDeletedNode)
      then accept_nodes tokenID seller nodes'
      else
        k ← getFieldH256 node sfLedgerIndex;
        let nodeOwner := AccountID_fromVoid k in
        if nodeOwner =? seller then accept_nodes tokenID seller nodes'
        else
          fields ← peekAtObject node
                     (if bool_decide (getFName node = sfCreatedNode) then sfNewFields
                      else sfFinalFields);
          nfts ← getFieldArray fields sfNFTokens;
          nft ← res_find_if (has_token tokenID) nfts;
          match nft with
          | Some _ => Ok (Some nodeOwner)
          | None => accept_nodes tokenID seller nodes'
          end
  end.

Definition accept_error : Exn := RuntimeError " - unexpected NFTokenAcceptOffer data in tx ".

Definition getNFTokenAcceptOfferData (txMeta : TxMeta) (sttx : STTx) : Res NFTResult :=
  if isFieldPresent (tx_object sttx) sfNFTokenBuyOffer then
    affectedBuyOffer ← affected_node txMeta sttx sfNFTokenBuyOffer;
    match affectedBuyOffer with
    | None => Throw accept_error
    | Some offer =>
        finalFields ← peekAtObject offer sfFinalFields;
        tokenID ← getFieldH256 finalFields sfNFTokenID;
        owner ← getAccountID finalFields sfOwner;
        Ok ([NFTTransactionsData_make tokenID txMeta (getTransactionID sttx)],
            Some (NFTsData_change tokenID owner txMeta false))
    end
  else
    affectedSellOffer ← affected_node txMeta sttx sfNFTokenSellOffer;
    match affectedSellOffer with
    | None => Throw accept_error
    | Some offer =>
        finalFields ← peekAtObject offer sfFinalFields;
        tokenID ← getFieldH256 finalFields sfNFTokenID;
        seller ← getAccountID finalFields sfOwner;
        owner ← accept_nodes tokenID seller (getNodes txMeta);
        match owner with
        | Some nodeOwner =>
            Ok ([NFTTransactionsData_make tokenID txMeta (getTransactionID sttx)],
                Some (NFTsData_change tokenID nodeOwner txMeta false))
        | None => Throw accept_error
        end
    end.

(** The comparator [std::sort] is given, and the predicate of [std::unique]. *)
Definition cancel_lt (a b : NFTTransactionsData) : bool :=
  (ntd_tokenID a <? ntd_tokenID b) && (ntd_transactionIndex a <? ntd_transactionIndex b).
Definition cancel_eq (a b : NFTTransactionsData) : bool :=
  (ntd_tokenID a =? ntd_tokenID b) && (ntd_transactionIndex a =? ntd_transactionIndex b).

Definition cancel_node (txMeta : TxMeta) (sttx : STTx) (txs : list NFTTransactionsData)
    (node : STObject) : Res (list NFTTransactionsData) :=
  t ← getFieldU16 node sfLedgerEntryType;
  if negb (t =? ltNFTOKEN_OFFER) then Ok txs
  else
    finalFields ← peekAtObject node sfFinalFields;
    tokenID ← getFieldH256 finalFields sfNFTokenID;
    Ok (txs ++ [NFTTransactionsData_make tokenID txMeta (getTransactionID sttx)]).

Definition cancel_collect (txMeta : TxMeta) (sttx : STTx) : Res (list NFTTransactionsData) :=
  res_fold (cancel_node txMeta sttx) [] (getNodes txMeta).

Definition getNFTokenCancelOfferData (txMeta : TxMeta) (sttx : STTx) : Res NFTResult :=
  txs ← cancel_collect txMeta sttx;
  Ok (std_unique cancel_eq (std_sort cancel_lt txs), None).

Definition getNFTokenCreateOfferData (txMeta : TxMeta) (sttx : STTx) : Res NFTResult :=
  tokenID ← getFieldH256 (tx_object sttx) sfNFTokenID;
  Ok ([NFTTransactionsData_make tokenID txMeta (getTransactionID sttx)], None).

Definition getNFTDataFromTx (txMeta : TxMeta) (sttx : STTx) : Res NFTResult :=
  if negb (getResultTER txMeta =? tesSUCCESS) then Ok ([], None)
  else
    match getTxnType sttx with
    | ttNFTOKEN_MINT => getNFTokenMintData txMeta sttx
    | ttNFTOKEN_BURN => getNFTokenBurnData txMeta sttx
    | ttNFTOKEN_ACCEPT_OFFER => getNFTokenAcceptOfferData txMeta sttx
    | ttNFTOKEN_CANCEL_OFFER => getNFTokenCancelOfferData txMeta sttx
    | ttNFTOKEN_CREATE_OFFER => getNFTokenCreateOfferData txMeta sttx
    | _ => Ok ([], None)
    end.

(** [key] is the 32-byte ledger key of the object. *)
Definition getNFTDataFromObj (seq : Z) (key : uint256) (blob : Blob) : Res (list NFTsData) :=
  sle ← parseSLE blob key;
  t ← getFieldU16 sle sfLedgerEntryType;
  if negb (t =? ltNFTOKEN_PAGE) then Ok []
  else
    let owner := AccountID_fromVoid key in
    nodes ← getFieldArray sle sfNFTokens;
    res_map (fun node =>
      id ← getFieldH256 node sfNFTokenID;
      uri ← getFieldVL node sfURI;
      Ok (NFTsData_page id seq owner uri)) nodes.

End helpers.

(** ** Every extraction returns or throws *)

Section totality.
Context `{R : Ripple} `{RT : !RippleTotal}.

Lemma token_ids_total l : total (token_ids l).
Proof. unfold token_ids. solve_total. Qed.
#[local] Hint Resolve token_ids_total : total.

Lemma mint_node_total st node : total (mint_node st node).
Proof. unfold mint_node. solve_total. Qed.

Lemma has_token_total t o : total (has_token t o).
Proof. unfold has_token. solve_total. Qed.
#[local] Hint Resolve mint_node_total has_token_total : total.

Lemma burn_prevNFTs_total node : total (burn_prevNFTs node).
Proof. unfold burn_prevNFTs. solve_total. Qed.
#[local] Hint Resolve burn_prevNFTs_total : total.

Lemma burn_nodes_total t l : total (burn_nodes t l).
Proof. induction l; simpl; solve_total. Qed.

Lemma accept_nodes_total t s l : total (accept_nodes t s l).
Proof. induction l; cbn [accept_nodes]; solve_total. Qed.

Lemma affected_node_total m x f : total (affected_node m x f).
Proof. unfold affected_node. apply total_find_if. intros o. solve_total. Qed.

Lemma cancel_node_total m x l o : total (cancel_node m x l o).
Proof. unfold cancel_node. solve_total. Qed.
#[local] Hint Resolve burn_nodes_total accept_nodes_total affected_node_total cancel_node_total : total.

Lemma getNFTDataFromTx_total m x : total (getNFTDataFromTx m x).
Proof.
  unfold getNFTDataFromTx, getNFTokenMintData, getNFTokenBurnData, getNFTokenAcceptOfferData,
    getNFTokenCancelOfferData, getNFTokenCreateOfferData, mint_collect, cancel_collect.
  solve_total.
Qed.

Lemma getNFTDataFromObj_total s k b : total (getNFTDataFromObj s k b).
Proof.
  unfold getNFTDataFromObj. solve_total. apply total_map. intros o. solve_total.
Qed.

End totality.
#[export] Hint Resolve getNFTDataFromTx_total getNFTDataFromObj_total : total.

(** ** What a mint's metadata says *)

(** How a node of the metadata changes the NFToken pages. *)
Inductive PageChange :=
| OtherNode
| Created (key : Z) (after : list Z)
| Modified (key : Z) (before after : list Z)
| Relinked (key : Z).

Definition change_before (c : PageChange) : list Z :=
  match c with Modified _ b _ => b | _ => [] end.
Definition change_after (c : PageChange) : list Z :=
  match c with Created _ a => a | Modified _ _ a => a | _ => [] end.
Definition change_key (c : PageChange) : option Z :=
  match c with OtherNode => None | Created k _ | Modified k _ _ | Relinked k => Some k end.

Definition first_owner (cs : list PageChange) : option Z :=
  AccountID_fromVoid <$> head (omap change_key cs).

Section changes.
Context `{Ripple}.

Definition tokens_in (o : STObject) (f : SField) (ids : list Z) : Prop :=
  exists fields nfts, peekAtObject o f = Ok fields /\ isFieldPresent fields sfNFTokens = true /\
    getFieldArray fields sfNFTokens = Ok nfts /\ token_ids nfts = Ok ids.

(** A metadata node that records the change [c]. *)
Definition node_change (node : STObject) (c : PageChange) : Prop :=
  match c with
  | OtherNode => exists t, getFieldU16 node sfLedgerEntryType = Ok t /\ t <> ltNFTOKEN_PAGE
  | Created key after =>
      getFieldU16 node sfLedgerEntryType = Ok ltNFTOKEN_PAGE /\
      getFieldH256 node sfLedgerIndex = Ok key /\
      getFName node = sfCreatedNode /\ tokens_in node sfNewFields after
  | Modified key before after =>
      getFieldU16 node sfLedgerEntryType = Ok ltNFTOKEN_PAGE /\
      getFieldH256 node sfLedgerIndex = Ok key /\
      getFName node = sfModifiedNode /\ tokens_in node sfPreviousFields before /\
      tokens_in node sfFinalFields after
  | Relinked key =>
      getFieldU16 node sfLedgerEntryType = Ok ltNFTOKEN_PAGE /\
      getFieldH256 node sfLedgerIndex = Ok key /\
      getFName node = sfModifiedNode /\
      exists fields, peekAtObject node sfPreviousFields = Ok fields /\
        isFieldPresent fields sfNFTokens = false
  end.

(** Token [t] is the one the pages gained: it occurs once more after than
    before, and no other token does. *)
Definition gained (cs : list PageChange) (t : Z) : Prop :=
  forall x, (countZ (cs ≫= change_after) x - countZ (cs ≫= change_before) x)%nat =
            if decide (x = t) then 1%nat else 0%nat.

Lemma mint_node_change st node c :
  node_change node c ->
  mint_node st node =
    Ok (st.1.1 ++ change_before c, st.1.2 ++ change_after c,
        match st.2 with Some o => Some o | None => AccountID_fromVoid <$> change_key c end).
Proof.
  destruct st as [[prev fin] owner]. unfold mint_node, tokens_in.
  destruct c as [|key aft|key bef aft|key]; cbn [node_change].
  - intros (t & -> & Hne). cbn [mbind Res_bind fst snd change_before change_after change_key].
    rewrite (proj2 (Z.eqb_neq _ _)) by done. rewrite !app_nil_r. by destruct owner.
  - intros (-> & Hk & Hn & fs & nfts & Hp & _ & Ha & Hids). cbn [mbind Res_bind fst snd].
    rewrite Z.eqb_refl. cbn [negb]. rewrite Hn, bool_decide_eq_true_2 by done.
    destruct owner; rewrite ?Hk; cbn [mbind Res_bind]; rewrite Hp; cbn [mbind Res_bind];
      rewrite Ha; cbn [mbind Res_bind]; rewrite Hids; cbn [mbind Res_bind change_before];
      by rewrite app_nil_r.
  - intros (-> & Hk & Hn & (fs & nfts & Hp & Hpr & Ha & Hids) & fs' & nfts' & Hp' & _ & Ha' & Hids').
    cbn [mbind Res_bind fst snd]. rewrite Z.eqb_refl. cbn [negb].
    rewrite Hn, bool_decide_eq_false_2 by done.
    destruct owner; rewrite ?Hk; cbn [mbind Res_bind]; rewrite Hp; cbn [mbind Res_bind];
      rewrite Hpr; cbn [negb]; rewrite Ha; cbn [mbind Res_bind]; rewrite Hids;
      cbn [mbind Res_bind]; rewrite Hp'; cbn [mbind Res_bind]; rewrite Ha';
      cbn [mbind Res_bind]; by rewrite Hids'.
  - intros (-> & Hk & Hn & fs & Hp & Hpr). cbn [mbind Res_bind fst snd].
    rewrite Z.eqb_refl. cbn [negb]. rewrite Hn, bool_decide_eq_false_2 by done.
    destruct owner; rewrite ?Hk; cbn [mbind Res_bind]; rewrite Hp; cbn [mbind Res_bind];
      rewrite Hpr; cbn [negb change_before change_after]; by rewrite !app_nil_r.
Qed.

Lemma mint_fold_changes nodes cs st :
  Forall2 node_change nodes cs ->
  res_fold mint_node st nodes =
    Ok (st.1.1 ++ (cs ≫= change_before), st.1.2 ++ (cs ≫= change_after),
        match st.2 with Some o => Some o | None => first_owner cs end).
Proof.
  intros Hf. revert st. induction Hf as [|node c nodes cs Hn Hf IH]; intros [[prev fin] owner].
  - simpl. rewrite !app_nil_r. by destruct owner.
  - cbn [res_fold]. rewrite (mint_node_change _ _ _ Hn). cbn [mbind Res_bind].
    rewrite IH. cbn [fst snd]. rewrite !bind_cons, <- !app_assoc. do 2 f_equal.
    destruct owner; [done|]. unfold first_owner. simpl. by destruct (change_key c).
Qed.

Lemma singleton_count (l : list Z) t :
  l = [t] <-> forall x, countZ l x = if decide (x = t) then 1%nat else 0%nat.
Proof.
  split.
  - intros -> x. simpl. destruct (Z.eq_dec t x); case_decide; congruence.
  - intros Hc. apply Permutation_length_1_inv. symmetry.
    apply (Permutation_count_occ Z.eq_dec). intros x. rewrite Hc. simpl.
    destruct (Z.eq_dec t x); case_decide; congruence.
Qed.

Lemma mint_difference prev fin t :
  set_difference (std_sort Z.ltb fin) (std_sort Z.ltb prev) = [t] <->
  forall x, (countZ fin x - countZ prev x)%nat = if decide (x = t) then 1%nat else 0%nat.
Proof.
  rewrite singleton_count. apply forall_proper. intros x.
  rewrite set_difference_count by apply std_sort_sorted.
  by rewrite !(countZ_perm _ _ x (std_sort_perm _ _)).
Qed.

(** C37: a mint returns token [t] exactly when the NFToken pages of the metadata
    gained [t] and nothing else; the owner is the account of the first page
    node, the URI is the transaction's. Otherwise it throws: there is no third
    outcome. *)
Theorem mint_spec (txMeta : TxMeta) (sttx : STTx) (cs : list PageChange) (uri : Blob) :
  Forall2 node_change (getNodes txMeta) cs ->
  getFieldVL (tx_object sttx) sfURI = Ok uri ->
  (forall t owner, gained cs t -> first_owner cs = Some owner ->
     getNFTokenMintData txMeta sttx =
       Ok ([NFTTransactionsData_make t txMeta (getTransactionID sttx)],
           Some (NFTsData_mint t owner uri txMeta))) /\
  ((forall t, ~ gained cs t) \/ first_owner cs = None ->
     getNFTokenMintData txMeta sttx =
       Throw (RuntimeError " - unexpected NFTokenMint data in tx ")).
Proof.
  intros Hcs Huri. unfold getNFTokenMintData, mint_collect, gained.
  rewrite (mint_fold_changes _ _ ([], [], None) Hcs). cbn [mbind Res_bind fst snd]. simpl app.
  split.
  - intros t owner Hg Ho. apply mint_difference in Hg. rewrite Hg, Ho. by rewrite Huri.
  - intros [Hn | ->]; [|by repeat case_match].
    destruct (set_difference _ _) as [|t [|]] eqn:Hd; [done | | done].
    exfalso. apply (Hn t). exact (proj1 (mint_difference _ _ t) Hd).
Qed.

(** ** Shape of every result *)

(** Every link carries the transaction's coordinates. *)
Definition links_ok (txMeta : TxMeta) (sttx : STTx) (txs : list NFTTransactionsData) : Prop :=
  Forall (fun d => d = NFTTransactionsData_make (ntd_tokenID d) txMeta (getTransactionID sttx)) txs.

Lemma links_ok_make txMeta sttx t :
  links_ok txMeta sttx [NFTTransactionsData_make t txMeta (getTransactionID sttx)].
Proof. by repeat constructor. Qed.

Lemma mint_shape txMeta sttx txs nft :
  getNFTokenMintData txMeta sttx = Ok (txs, nft) ->
  exists t owner uri, getFieldVL (tx_object sttx) sfURI = Ok uri /\
    txs = [NFTTransactionsData_make t txMeta (getTransactionID sttx)] /\
    nft = Some (NFTsData_mint t owner uri txMeta).
Proof.
  unfold getNFTokenMintData. intros Hr. bind_inv Hr.
  repeat (case_match; try discriminate). bind_inv Hr. injection Hr as <- <-. eauto 10.
Qed.

Lemma burn_shape txMeta sttx txs nft :
  getNFTokenBurnData txMeta sttx = Ok (txs, nft) ->
  exists t owner, getFieldH256 (tx_object sttx) sfNFTokenID = Ok t /\
    txs = [NFTTransactionsData_make t txMeta (getTransactionID sttx)] /\
    nft = Some (NFTsData_change t owner txMeta true).
Proof.
  unfold getNFTokenBurnData. intros Hr. bind_inv Hr. case_match; [|done].
  injection Hr as <- <-. eauto 10.
Qed.

Lemma accept_shape txMeta sttx txs nft :
  getNFTokenAcceptOfferData txMeta sttx = Ok (txs, nft) ->
  exists t owner, txs = [NFTTransactionsData_make t txMeta (getTransactionID sttx)] /\
    nft = Some (NFTsData_change t owner txMeta false).
Proof.
  unfold getNFTokenAcceptOfferData. intros Hr. bind_inv Hr; (case_match; [|done]); bind_inv Hr.
  - injection Hr as <- <-. eauto 10.
  - case_match; [|done]. injection Hr as <- <-. eauto 10.
Qed.

Lemma cancel_collect_links txMeta sttx nodes acc txs :
  links_ok txMeta sttx acc ->
  res_fold (cancel_node txMeta sttx) acc nodes = Ok txs -> links_ok txMeta sttx txs.
Proof.
  revert acc. induction nodes as [|node nodes IH]; intros acc Hacc Hr; cbn [res_fold] in Hr.
  - by injection Hr as <-.
  - destruct (cancel_node txMeta sttx acc node) as [acc'| |] eqn:Hn; [|done..].
    apply (IH acc'); [|done]. unfold cancel_node in Hn. bind_inv Hn; injection Hn as <-; [done|].
    apply Forall_app. split; [done | apply links_ok_make].
Qed.

Lemma cancel_shape txMeta sttx txs nft :
  getNFTokenCancelOfferData txMeta sttx = Ok (txs, nft) ->
  links_ok txMeta sttx txs /\ nft = None.
Proof.
  unfold getNFTokenCancelOfferData, cancel_collect. intros Hr. bind_inv Hr. injection Hr as <- <-.
  split; [|done]. apply Forall_forall. intros d Hd%std_unique_elem.
  rewrite std_sort_perm in Hd. apply cancel_collect_links in E; [|constructor].
  unfold links_ok in E. rewrite Forall_forall in E. by apply E.
Qed.

Ltac shape_done :=
  split_and!; simpl; try done; try tauto; split; try done; first [by intros [] | by eexists].

(** Whatever the transaction, the links returned carry its ledger sequence,
    index and hash; a token state is returned exactly for successful mints,
    burns and accepted offers, for the one linked token, with a URI exactly for
    mints and the burned flag exactly for burns. *)
Theorem getNFTDataFromTx_shape (txMeta : TxMeta) (sttx : STTx)
    (txs : list NFTTransactionsData) (nft : option NFTsData) :
  getNFTDataFromTx txMeta sttx = Ok (txs, nft) ->
  links_ok txMeta sttx txs /\
  match nft with
  | None => getResultTER txMeta <> tesSUCCESS \/
      (getTxnType sttx <> ttNFTOKEN_MINT /\ getTxnType sttx <> ttNFTOKEN_BURN /\
       getTxnType sttx <> ttNFTOKEN_ACCEPT_OFFER)
  | Some d =>
      getResultTER txMeta = tesSUCCESS /\
      txs = [NFTTransactionsData_make (nd_tokenID d) txMeta (getTransactionID sttx)] /\
      nd_ledgerSequence d = getLgrSeq txMeta /\ nd_transactionIndex d = Some (getIndex txMeta) /\
      (is_Some (nd_uri d) <-> getTxnType sttx = ttNFTOKEN_MINT) /\
      (nd_isBurned d = true <-> getTxnType sttx = ttNFTOKEN_BURN) /\
      (getTxnType sttx = ttNFTOKEN_MINT \/ getTxnType sttx = ttNFTOKEN_BURN \/
       getTxnType sttx = ttNFTOKEN_ACCEPT_OFFER)
  end.
Proof.
  unfold getNFTDataFromTx. destruct (getResultTER txMeta =? tesSUCCESS) eqn:Hres; simpl; zbool.
  2:{ intros [= <- <-]. split; [constructor | by left]. }
  destruct (getTxnType sttx) eqn:Ht.
  - intros (t & o & u & Hu & -> & ->)%mint_shape. split; [apply links_ok_make|].
    shape_done.
  - intros (t & o & Hu & -> & ->)%burn_shape. split; [apply links_ok_make|].
    shape_done.
  - intros (t & o & -> & ->)%accept_shape. split; [apply links_ok_make|].
    shape_done.
  - intros [Hl ->]%cancel_shape. split; [done|]. right. done.
  - unfold getNFTokenCreateOfferData. intros Hr. bind_inv Hr. injection Hr as <- <-.
    split; [apply links_ok_make|]. right. done.
  - intros [= <- <-]. split; [constructor|]. right. done.
  - intros [= <- <-]. split; [constructor|]. right. done.
Qed.

(** ** Cancelled offers *)

Lemma cancel_sort_id txMeta sttx (offers : list NFTTransactionsData) :
  links_ok txMeta sttx offers -> std_sort cancel_lt offers = offers.
Proof.
  intros Hl. apply std_sort_const_false. intros x y Hx Hy.
  unfold links_ok in Hl. rewrite Forall_forall in Hl. unfold cancel_lt.
  rewrite (Hl x Hx), (Hl y Hy). simpl. rewrite Z.ltb_irrefl. apply andb_false_r.
Qed.

Lemma cancel_eq_same txMeta sttx a b :
  a = NFTTransactionsData_make (ntd_tokenID a) txMeta (getTransactionID sttx) ->
  b = NFTTransactionsData_make (ntd_tokenID b) txMeta (getTransactionID sttx) ->
  cancel_eq a b = bool_decide (ntd_tokenID a = ntd_tokenID b).
Proof.
  intros Ha Hb. unfold cancel_eq. rewrite Ha, Hb. simpl. rewrite Z.eqb_refl, andb_true_r.
  apply eq_true_iff_eq. by rewrite Z.eqb_eq, bool_decide_eq_true.
Qed.

(** The comparator of a cancel never orders two of its links (they share
    the transaction index), so [std::sort] has nothing to do and only adjacent
    duplicates are removed; every token with a cancelled offer is still linked. *)
Theorem cancel_spec (txMeta : TxMeta) (sttx : STTx) (offers : list NFTTransactionsData) :
  cancel_collect txMeta sttx = Ok offers ->
  (forall a b, a ∈ offers -> b ∈ offers -> cancel_lt a b = false) /\
  getNFTokenCancelOfferData txMeta sttx = Ok (std_unique cancel_eq offers, None) /\
  forall d, d ∈ std_unique cancel_eq offers <-> d ∈ offers.
Proof.
  intros Hc. pose proof Hc as Hl. apply cancel_collect_links in Hl; [|constructor].
  pose proof Hl as Hl'. unfold links_ok in Hl'. rewrite Forall_forall in Hl'. split_and!.
  - intros a b Ha Hb. unfold cancel_lt. rewrite (Hl' a Ha), (Hl' b Hb). simpl.
    rewrite Z.ltb_irrefl. apply andb_false_r.
  - unfold getNFTokenCancelOfferData. rewrite Hc. cbn [mbind Res_bind].
    by rewrite (cancel_sort_id txMeta sttx).
  - intros d. split; [apply std_unique_elem|]. intros Hd.
    assert (exists y, y ∈ std_unique cancel_eq offers /\ ntd_tokenID y = ntd_tokenID d)
      as (y & Hy & Ht).
    { destruct offers as [|x l]; [by apply not_elem_of_nil in Hd|]. simpl.
      pose proof (unique_from_repr cancel_eq ntd_tokenID x l d Hd) as Hrep. apply Hrep.
      intros a b Ha Hb. apply (cancel_eq_same txMeta sttx); by apply Hl'. }
    pose proof (std_unique_elem _ _ _ Hy) as Hy'.
    by rewrite (Hl' d Hd), <- Ht, <- (Hl' y Hy').
Qed.

(** ** Burns *)

Lemma find_token tok nfts ids :
  token_ids nfts = Ok ids ->
  exists r, res_find_if (has_token tok) nfts = Ok r /\ (is_Some r <-> tok ∈ ids).
Proof.
  intros Hids. apply res_map_ok in Hids.
  induction Hids as [|nft id nfts ids Hid Hids (r & IH1 & IH2)].
  - exists None. split; [done|]. split; [by intros [? ?] | by intros ?%not_elem_of_nil].
  - cbn [res_find_if].
    assert (has_token tok nft = Ok (id =? tok)) as -> by (unfold has_token; by rewrite Hid).
    cbn [mbind Res_bind].
    destruct (id =? tok) eqn:He; zbool.
    + exists (Some nft). split; [done|]. split; [intros _; subst; by left | by eexists].
    + exists r. split; [done|]. rewrite IH2, elem_of_cons. naive_solver.
Qed.

(** What a node says a burn can look into: the key and tokens of a page as it
    was before the transaction. A node with previous fields but no tokens among
    them says nothing, even when it is a deleted page. *)
Definition node_before (node : STObject) (p : option (Z * list Z)) : Prop :=
  match p with
  | Some (key, ids) =>
      getFieldU16 node sfLedgerEntryType = Ok ltNFTOKEN_PAGE /\
      getFName node <> sfCreatedNode /\ getFieldH256 node sfLedgerIndex = Ok key /\
      ((isFieldPresent node sfPreviousFields = true /\ tokens_in node sfPreviousFields ids) \/
       (isFieldPresent node sfPreviousFields = false /\ getFName node = sfDeletedNode /\
        tokens_in node sfFinalFields ids))
  | None =>
      (exists t, getFieldU16 node sfLedgerEntryType = Ok t /\ t <> ltNFTOKEN_PAGE) \/
      (getFieldU16 node sfLedgerEntryType = Ok ltNFTOKEN_PAGE /\
       (getFName node = sfCreatedNode \/
        (isFieldPresent node sfPreviousFields = false /\ getFName node <> sfDeletedNode) \/
        (isFieldPresent node sfPreviousFields = true /\
         exists fields, peekAtObject node sfPreviousFields = Ok fields /\
           isFieldPresent fields sfNFTokens = false)))
  end.

Lemma burn_prevNFTs_before node key ids :
  node_before node (Some (key, ids)) ->
  exists nfts, burn_prevNFTs node = Ok (Some nfts) /\ token_ids nfts = Ok ids.
Proof.
  intros (_ & _ & _ & [(Hp & fs & nfts & Hpk & Hpr & Ha & Hids)|
                       (Hp & Hd & fs & nfts & Hpk & Hpr & Ha & Hids)]);
    exists nfts; (split; [|done]); unfold burn_prevNFTs; rewrite Hp, ?Hd.
  - rewrite Hpk. cbn [mbind Res_bind]. by rewrite Hpr, Ha.
  - rewrite bool_decide_eq_true_2 by done. rewrite Hpk. cbn [mbind Res_bind]. by rewrite Ha.
Qed.

Lemma burn_nodes_before tok nodes ps :
  Forall2 node_before nodes ps ->
  burn_nodes tok nodes =
    Ok ((fun kp => AccountID_fromVoid kp.2.1) <$>
        list_find (fun p => tok ∈ p.2) (omap id ps)).
Proof.
  induction 1 as [|node p nodes ps Hn Hf IH]; [done|]. cbn [burn_nodes].
  destruct p as [[key ids]|].
  - destruct (burn_prevNFTs_before _ _ _ Hn) as (nfts & Hb & Hids).
    destruct Hn as (-> & Hname & Hk & _). cbn [mbind Res_bind].
    rewrite Z.eqb_refl. cbn [negb orb]. rewrite bool_decide_eq_false_2 by done.
    rewrite Hb. cbn [mbind Res_bind].
    destruct (find_token tok nfts ids Hids) as (r & -> & Hr). cbn [mbind Res_bind].
    simpl. destruct (decide (tok ∈ ids)) as [Hin|Hni].
    + apply Hr in Hin as [nft ->]. by rewrite Hk.
    + destruct r as [nft|]; [exfalso; apply Hni, Hr; by eexists|]. rewrite IH.
      f_equal. change (omap id ps) with (omap (fun x : option (Z * list Z) => x) ps).
      by destruct (list_find _ _) as [[]|].
  - simpl. destruct Hn as [(t & -> & Hne)|(-> & Hn)]; cbn [mbind Res_bind].
    + rewrite (proj2 (Z.eqb_neq _ _)) by done. exact IH.
    + rewrite Z.eqb_refl. cbn [negb orb]. case_bool_decide as Hc; [exact IH|].
      destruct Hn as [?|[(Hp & Hd)|(Hp & fs & Hpk & Hpr)]]; [done| |].
      * unfold burn_prevNFTs. rewrite Hp, bool_decide_eq_false_2 by done. exact IH.
      * unfold burn_prevNFTs. rewrite Hp, Hpk. cbn [mbind Res_bind]. rewrite Hpr. exact IH.
Qed.

(** A burn names as owner the account of the first page that held the
    token before the transaction, and throws when no node shows such a page. *)
Theorem burn_spec (txMeta : TxMeta) (sttx : STTx) (ps : list (option (Z * list Z))) (tok : Z) :
  Forall2 node_before (getNodes txMeta) ps ->
  getFieldH256 (tx_object sttx) sfNFTokenID = Ok tok ->
  getNFTokenBurnData txMeta sttx =
    match list_find (fun p => tok ∈ p.2) (omap id ps) with
    | Some (_, (key, _)) =>
        Ok ([NFTTransactionsData_make tok txMeta (getTransactionID sttx)],
            Some (NFTsData_change tok (AccountID_fromVoid key) txMeta true))
    | None => Throw (RuntimeError " - could not determine owner at burntime for tx ")
    end.
Proof.
  intros Hps Htok. unfold getNFTokenBurnData. rewrite Htok. cbn [mbind Res_bind].
  rewrite (burn_nodes_before tok _ _ Hps). cbn [mbind Res_bind].
  by destruct (list_find _ _) as [[? [? ?]]|].
Qed.

(** ** What an accepted offer's metadata says *)

(** The tokens of the page a node leaves, with the page's key; [None] when the
    node is no page or deletes one. *)
Definition node_after (node : STObject) (p : option (Z * list Z)) : Prop :=
  match p with
  | Some (key, ids) =>
      getFieldU16 node sfLedgerEntryType = Ok ltNFTOKEN_PAGE /\ getFName node <> sfDeletedNode /\
      getFieldH256 node sfLedgerIndex = Ok key /\
      tokens_in node (if decide (getFName node = sfCreatedNode) then sfNewFields else sfFinalFields) ids
  | None =>
      (exists t, getFieldU16 node sfLedgerEntryType = Ok t /\ t <> ltNFTOKEN_PAGE) \/
      (getFieldU16 node sfLedgerEntryType = Ok ltNFTOKEN_PAGE /\ getFName node = sfDeletedNode)
  end.

(** A page of another account than the seller's that holds the token. *)
Definition buyer_page (tok : Z) (seller : AccountID) (p : Z * list Z) : Prop :=
  AccountID_fromVoid p.1 <> seller /\ tok ∈ p.2.
#[export] Instance buyer_page_dec tok seller p : Decision (buyer_page tok seller p).
Proof. unfold buyer_page. apply _. Defined.

Lemma accept_nodes_after tok seller nodes ps :
  Forall2 node_after nodes ps ->
  accept_nodes tok seller nodes =
    Ok ((fun kp => AccountID_fromVoid kp.2.1) <$> list_find (buyer_page tok seller) (omap id ps)).
Proof.
  induction 1 as [|node p nodes ps Hn Hf IH]; [done|]. cbn [accept_nodes].
  destruct p as [[key ids]|].
  - destruct Hn as (-> & Hname & Hk & fs & nfts & Hpk & _ & Ha & Hids). cbn [mbind Res_bind].
    rewrite Z.eqb_refl, bool_decide_eq_false_2 by done. cbn [negb orb]. rewrite Hk. cbn [mbind Res_bind].
    change (omap id (Some (key, ids) :: ps)) with ((key, ids) :: omap id ps). cbn [list_find].
    assert (Hrest : forall P : Prop, ~ P -> forall dec : {P} + {~ P},
      (fun kp => AccountID_fromVoid kp.2.1) <$>
        (if dec then Some (0%nat, (key, ids)) else prod_map S id <$> list_find (buyer_page tok seller) (omap id ps))
      = (fun kp => AccountID_fromVoid kp.2.1) <$> list_find (buyer_page tok seller) (omap id ps)).
    { intros P HP dec. destruct dec; [done|]. by destruct (list_find _ _) as [[]|]. }
    destruct (AccountID_fromVoid key =? seller) eqn:Hs; zbool.
    + rewrite IH. f_equal. symmetry. apply Hrest. by intros [Hne _].
    + assert ((if bool_decide (getFName node = sfCreatedNode) then sfNewFields else sfFinalFields) =
        (if decide (getFName node = sfCreatedNode) then sfNewFields else sfFinalFields)) as ->
        by (case_bool_decide; by case_decide).
      rewrite Hpk. cbn [mbind Res_bind]. rewrite Ha. cbn [mbind Res_bind].
      destruct (find_token tok nfts ids Hids) as (r & -> & Hr). cbn [mbind Res_bind].
      destruct r as [nft|].
      * rewrite decide_True; [done|]. split; [done | apply Hr; by eexists].
      * rewrite IH. f_equal. symmetry. apply Hrest. intros [_ Hin]. by apply Hr in Hin as [? ?].
  - change (omap id (None :: ps)) with (omap id ps).
    destruct Hn as [(t & -> & Hne)|(-> & Hn)]; cbn [mbind Res_bind].
    + by rewrite (proj2 (Z.eqb_neq _ _)).
    + by rewrite Z.eqb_refl, bool_decide_eq_true_2.
Qed.

(** The node of the offer is the first with its index. *)
Lemma affected_node_index txMeta sttx f offer_id keys :
  getFieldH256 (tx_object sttx) f = Ok offer_id ->
  Forall2 (fun n k => getFieldH256 n sfLedgerIndex = Ok k) (getNodes txMeta) keys ->
  affected_node txMeta sttx f =
    Ok ('(i, _) ← list_find (fun k => k = offer_id) keys; getNodes txMeta !! i).
Proof.
  intros Hf Hk. unfold affected_node. rewrite Hf.
  induction Hk as [|n k nodes keys Hn Hk IH]; [done|].
  cbn [res_find_if list_find]. rewrite Hn. cbn [mbind Res_bind] in IH |- *.
  destruct (decide (k = offer_id)) as [->|Hne].
  - by rewrite Z.eqb_refl.
  - rewrite (proj2 (Z.eqb_neq _ _)) by done. rewrite IH. f_equal.
    by destruct (list_find _ keys) as [[]|].
Qed.

(** Accepting an offer throws unless the metadata shows the offer. The
    token and the offer's owner are those of its final fields. For a buy offer
    that owner is the new owner of the token; for a sell offer the new owner is
    the account of the first page, of another account than the seller's, that
    holds the token after the transaction, and when there is no such page the
    extraction throws. *)
Theorem accept_spec (txMeta : TxMeta) (sttx : STTx) (offer_id : Z) (keys : list Z)
    (ps : list (option (Z * list Z))) :
  let f := if isFieldPresent (tx_object sttx) sfNFTokenBuyOffer then sfNFTokenBuyOffer
           else sfNFTokenSellOffer in
  getFieldH256 (tx_object sttx) f = Ok offer_id ->
  Forall2 (fun n k => getFieldH256 n sfLedgerIndex = Ok k) (getNodes txMeta) keys ->
  Forall2 node_after (getNodes txMeta) ps ->
  (offer_id ∉ keys -> getNFTokenAcceptOfferData txMeta sttx = Throw accept_error) /\
  (forall i offer final tok owner,
     list_find (fun k => k = offer_id) keys = Some (i, offer_id) -> getNodes txMeta !! i = Some offer ->
     peekAtObject offer sfFinalFields = Ok final ->
     getFieldH256 final sfNFTokenID = Ok tok -> getAccountID final sfOwner = Ok owner ->
     getNFTokenAcceptOfferData txMeta sttx =
       match (if isFieldPresent (tx_object sttx) sfNFTokenBuyOffer then Some owner
              else (fun kp => AccountID_fromVoid kp.2.1) <$> list_find (buyer_page tok owner) (omap id ps)) with
       | Some newOwner =>
           Ok ([NFTTransactionsData_make tok txMeta (getTransactionID sttx)],
               Some (NFTsData_change tok newOwner txMeta false))
       | None => Throw accept_error
       end).
Proof.
  intros f Hf Hk Hps. subst f. unfold getNFTokenAcceptOfferData.
  pose proof (affected_node_index txMeta sttx _ offer_id keys Hf Hk) as Haff. split.
  - intros Hni. assert (list_find (fun k => k = offer_id) keys = None) as Hnone.
    { apply list_find_None, Forall_forall. intros k Hin ->. done. }
    rewrite Hnone in Haff. destruct (isFieldPresent _ _); rewrite Haff; done.
  - intros i offer final tok owner Hfind Hoffer Hfin Htok Hown.
    rewrite Hfind in Haff. cbn [mbind option_bind] in Haff. rewrite Hoffer in Haff.
    destruct (isFieldPresent _ _); rewrite Haff; cbn [mbind Res_bind]; rewrite Hfin;
      cbn [mbind Res_bind]; rewrite Htok; cbn [mbind Res_bind]; rewrite Hown; cbn [mbind Res_bind];
      [done|].
    rewrite (accept_nodes_after tok owner _ _ Hps). cbn [mbind Res_bind].
    by destruct (list_find (buyer_page tok owner) (omap id ps)) as [[? [? ?]]|].
Qed.

(** ** NFToken pages of the ledger *)

(** An NFToken page yields one record per token, in page order, owned by
    the account in the high 160 bits of the key, with the token's URI, the given
    sequence and no transaction index; any other object yields nothing. *)
Theorem getNFTDataFromObj_spec (seq key : Z) (blob : Blob) (sle : STObject) (t : Z) :
  parseSLE blob key = Ok sle -> getFieldU16 sle sfLedgerEntryType = Ok t ->
  (t <> ltNFTOKEN_PAGE -> getNFTDataFromObj seq key blob = Ok []) /\
  (t = ltNFTOKEN_PAGE -> forall nodes ids uris,
     getFieldArray sle sfNFTokens = Ok nodes ->
     Forall2 (fun n id => getFieldH256 n sfNFTokenID = Ok id) nodes ids ->
     Forall2 (fun n uri => getFieldVL n sfURI = Ok uri) nodes uris ->
     getNFTDataFromObj seq key blob =
       Ok (zip_with (fun id uri => mkNFTsData id seq None (Z.shiftr key 96) (Some uri) false)
             ids uris)).
Proof.
  intros Hp Ht. unfold getNFTDataFromObj. rewrite Hp. cbn [mbind Res_bind]. rewrite Ht.
  cbn [mbind Res_bind]. split.
  - intros Hne. by rewrite (proj2 (Z.eqb_neq _ _)).
  - intros -> nodes ids uris Ha Hids Huris. rewrite Z.eqb_refl, Ha. cbn [negb mbind Res_bind].
    apply res_map_ok. clear Ha. revert uris Huris.
    induction Hids as [|n id nodes ids Hid Hids IH]; intros uris Huris;
      inversion Huris as [|? uri ? uris' Hu Hus]; subst; [constructor|].
    simpl. constructor; [|by apply IH]. rewrite Hid. cbn [mbind Res_bind]. by rewrite Hu.
Qed.

End changes.

(** ** Sample transactions *)

Section samples.

#[local] Instance SampleRipple : Ripple :=
  TreeRipple (fun _ => Throw (LibraryError "no parser"))
             (fun _ _ _ => Throw (LibraryError "no parser"))
             (fun b k => Ok (mkObj sfNewFields
                ((sfLedgerEntryType, VNum (hd 0 b)) ::
                 [(sfNFTokens, VArr ((fun i => token_obj i [i; i]) <$> tl b))]))).

(** The owner 3's page is split: tokens 1 and 2 stay, 9 moves to a new page
    together with the minted 7; a third page is only relinked. *)
Definition mint_meta : TreeMeta := mkTreeMeta
  [ page_node sfModifiedNode (3 * 2 ^ 96 + 1)
      [(sfPreviousFields, VObj (mkObj sfPreviousFields [tokens_field [1; 2; 9]]));
       (sfFinalFields, VObj (mkObj sfFinalFields [tokens_field [1; 2]]))];
    mkObj sfModifiedNode [(sfLedgerEntryType, VNum 0x61)];
    page_node sfCreatedNode (3 * 2 ^ 96 + 2)
      [(sfNewFields, VObj (mkObj sfNewFields [tokens_field [7; 9]]))];
    page_node sfModifiedNode (3 * 2 ^ 96 + 3)
      [(sfPreviousFields, VObj (mkObj sfPreviousFields []));
       (sfFinalFields, VObj (mkObj sfFinalFields [tokens_field [20]]))] ]
  100 4 0.

Definition mint_changes : list PageChange :=
  [ Modified (3 * 2 ^ 96 + 1) [1; 2; 9] [1; 2]; OtherNode;
    Created (3 * 2 ^ 96 + 2) [7; 9]; Relinked (3 * 2 ^ 96 + 3) ].

Definition mint_tx : TreeTx :=
  mkTreeTx ttNFTOKEN_MINT 555 (mkObj sfNewFields [(sfURI, VBlob [104; 105])]).

Lemma mint_changes_ok : Forall2 node_change (getNodes mint_meta) mint_changes.
Proof.
  repeat constructor; simpl; try done;
    try (eexists _, _; split_and!; [by vm_compute | by vm_compute | by vm_compute | by vm_compute]).
  - exists 0x61. done.
  - eexists. split; by vm_compute.
Qed.

Lemma mint_gained : gained mint_changes 7.
Proof.
  intros x. cbn -[Z.eq_dec decide].
  repeat match goal with |- context [Z.eq_dec ?a x] => destruct (Z.eq_dec a x) end;
    case_decide; lia.
Qed.

Lemma mint_spec_witness :
  getNFTokenMintData mint_meta mint_tx =
  Ok ([mkNFTTransactionsData 7 100 4 555],
      Some (mkNFTsData 7 100 (Some 4) 3 (Some [104; 105]) false)).
Proof.
  exact (proj1 (mint_spec (H := SampleRipple) mint_meta mint_tx mint_changes [104; 105] mint_changes_ok eq_refl)
           7 3 mint_gained eq_refl).
Defined.

Lemma getNFTDataFromTx_shape_witness :
  exists d, getNFTDataFromTx mint_meta mint_tx = Ok ([mkNFTTransactionsData 7 100 4 555], Some d) /\
    is_Some (nd_uri d) /\ nd_transactionIndex d = Some 4.
Proof.
  exists (mkNFTsData 7 100 (Some 4) 3 (Some [104; 105]) false).
  split; [by vm_compute|].
  destruct (getNFTDataFromTx_shape (H := SampleRipple) mint_meta mint_tx [mkNFTTransactionsData 7 100 4 555]
    (Some (mkNFTsData 7 100 (Some 4) 3 (Some [104; 105]) false)))
    as (_ & _ & _ & _ & Hidx & Huri & _); [by vm_compute|].
  split; [by apply Huri | exact Hidx].
Defined.

(** Three cancelled offers, two of them for token 5. *)
Definition offer_node (tok : Z) : TreeObj :=
  mkObj sfDeletedNode [(sfLedgerEntryType, VNum ltNFTOKEN_OFFER);
    (sfFinalFields, VObj (mkObj sfFinalFields [(sfNFTokenID, VNum tok)]))].
Definition cancel_meta : TreeMeta :=
  mkTreeMeta [offer_node 5; offer_node 6; offer_node 5] 100 4 0.
Definition cancel_tx : TreeTx := mkTreeTx ttNFTOKEN_CANCEL_OFFER 777 (mkObj sfNewFields []).

Lemma cancel_spec_witness :
  exists offers, cancel_collect cancel_meta cancel_tx = Ok offers /\
    getNFTokenCancelOfferData cancel_meta cancel_tx = Ok (std_unique cancel_eq offers, None).
Proof.
  eexists. split; [by vm_compute|].
  eapply (cancel_spec (H := SampleRipple) cancel_meta cancel_tx). by vm_compute.
Defined.

(** The links of a cancel can hold the same token twice, although the code
    means to deduplicate them: with offers for tokens 5, 6, 5 nothing is
    removed. *)
Theorem cancel_duplicates :
  exists txs, getNFTokenCancelOfferData cancel_meta cancel_tx = Ok (txs, None) /\
    ntd_tokenID <$> txs = [5; 6; 5] /\ ~ NoDup txs.
Proof.
  eexists. split; [by vm_compute|]. split; [done|].
  intros Hnd. apply NoDup_cons in Hnd as [Hni _]. apply Hni. right. left.
Qed.

(** A sell offer of account 3 for token 8, which is in account 5's page after. *)
Definition accept_meta : TreeMeta := mkTreeMeta
  [ mkObj sfDeletedNode [(sfLedgerEntryType, VNum ltNFTOKEN_OFFER); (sfLedgerIndex, VNum 900);
      (sfFinalFields, VObj (mkObj sfFinalFields [(sfNFTokenID, VNum 8); (sfOwner, VNum 3)]))];
    page_node sfModifiedNode (3 * 2 ^ 96 + 1)
      [(sfFinalFields, VObj (mkObj sfFinalFields [tokens_field [2]]))];
    page_node sfCreatedNode (5 * 2 ^ 96 + 1)
      [(sfNewFields, VObj (mkObj sfNewFields [tokens_field [8]]))] ] 100 4 0.
Definition accept_tx : TreeTx :=
  mkTreeTx ttNFTOKEN_ACCEPT_OFFER 557 (mkObj sfNewFields [(sfNFTokenSellOffer, VNum 900)]).

Lemma accept_spec_witness :
  getNFTokenAcceptOfferData accept_meta accept_tx =
  Ok ([mkNFTTransactionsData 8 100 4 557], Some (mkNFTsData 8 100 (Some 4) 5 None false)).
Proof.
  assert (Hk : Forall2 (fun n k => getFieldH256 n sfLedgerIndex = Ok k) (getNodes accept_meta)
    [900; 3 * 2 ^ 96 + 1; 5 * 2 ^ 96 + 1]) by (repeat constructor).
  assert (Hps : Forall2 node_after (getNodes accept_meta)
    [None; Some (3 * 2 ^ 96 + 1, [2]); Some (5 * 2 ^ 96 + 1, [8])]).
  { constructor; [|constructor; [|constructor; [|constructor]]].
    - left. by eexists.
    - split_and!; [done | done | done |]. eexists _, _. split_and!; by vm_compute.
    - split_and!; [done | done | done |]. eexists _, _. split_and!; by vm_compute. }
  destruct (accept_spec (H := SampleRipple) accept_meta accept_tx 900 _ _ eq_refl Hk Hps) as [_ Hsell].
  exact (Hsell 0%nat _ (mkObj sfFinalFields [(sfNFTokenID, VNum 8); (sfOwner, VNum 3)]) 8 3
    eq_refl eq_refl eq_refl eq_refl eq_refl).
Defined.

Definition burn_meta : TreeMeta := mkTreeMeta
  [ page_node sfDeletedNode (4 * 2 ^ 96 + 1)
      [(sfPreviousFields, VObj (mkObj sfPreviousFields []));
       (sfFinalFields, VObj (mkObj sfFinalFields [tokens_field [8]]))];
    page_node sfDeletedNode (3 * 2 ^ 96 + 1)
      [(sfFinalFields, VObj (mkObj sfFinalFields [tokens_field [8]]))] ] 100 4 0.
Definition burn_tx : TreeTx :=
  mkTreeTx ttNFTOKEN_BURN 556 (mkObj sfNewFields [(sfNFTokenID, VNum 8)]).

Lemma burn_spec_witness :
  getNFTokenBurnData burn_meta burn_tx =
  Ok ([mkNFTTransactionsData 8 100 4 556], Some (mkNFTsData 8 100 (Some 4) 3 None true)).
Proof.
  assert (Forall2 node_before (getNodes burn_meta) [None; Some (3 * 2 ^ 96 + 1, [8])]) as Hps.
  { constructor; [|constructor; [|constructor]].
    - right. split; [done|]. right. right. split; [by vm_compute|].
      eexists. split; by vm_compute.
    - split_and!; [done | done | done |].
      right. split; [by vm_compute|]. split; [done|]. eexists _, _. split_and!; by vm_compute. }
  exact (burn_spec (H := SampleRipple) burn_meta burn_tx [None; Some (3 * 2 ^ 96 + 1, [8])] 8 Hps eq_refl).
Defined.

Lemma getNFTDataFromObj_spec_witness :
  getNFTDataFromObj 90 (3 * 2 ^ 96 + 5) [ltNFTOKEN_PAGE; 11; 12] =
  Ok [mkNFTsData 11 90 None 3 (Some [11; 11]) false; mkNFTsData 12 90 None 3 (Some [12; 12]) false].
Proof.
  refine (proj2 (getNFTDataFromObj_spec (H := SampleRipple) 90 (3 * 2 ^ 96 + 5) [ltNFTOKEN_PAGE; 11; 12] _
    ltNFTOKEN_PAGE eq_refl eq_refl) eq_refl _ [11; 12] [[11; 11]; [12; 12]] eq_refl _ _);
    repeat constructor.
Defined.

End samples.
