(* ===== verification/Migration.v ===== *)
(** * The migrator

    [src/src/main/main.cpp]: the retry wrappers, the batched NFT writes, the
    three migration steps and [doMigration], over the database operations the
    migrator calls (class [MigratorDb]; [Backend] supplies the ledger pages).
    Events record what reaches the database: batches written, barriers, the
    dropped table. *)

From stdpp Require Import base list gmap strings sorting.
From Stdlib Require Import ZArith Lia.
From S2P Require Import Prelude Types TreeRipple SimpleCache Backend NFTHelpers.

Open Scope Z_scope.

(** The calls of the Cassandra backend and of the driver that the migrator and
    the verifier make. *)
Class MigratorDb (W : Type) := {
  md_backend :: BackendImpl W;
  fetchTransactions : list uint256 -> M W (list TransactionAndMetadata);
  fetchNFT : uint256 -> Z -> M W (option NFT);
  writeNFTs : list NFTsData -> M W unit;
  sync : M W unit;
  tablePrefix : string;
  CassStatement : Type;
  CassResult : Type;
  cass_statement_new : string -> CassStatement;
  cass_statement_set_paging_size : CassStatement -> Z -> CassStatement;
  cass_statement_set_paging_state : CassStatement -> CassResult -> CassStatement;
  (** [cass_future_get_result(cass_session_execute(..))]; [None] is [nullptr] *)
  cass_execute : CassStatement -> M W (option CassResult);
  (** [cass_future_error_code(cass_session_execute(..)) == CASS_OK] *)
  cass_execute_ok : CassStatement -> M W bool;
  (** the bytes of column 0 of each row; [None] when [cass_value_get_bytes] fails *)
  cass_result_column0 : CassResult -> list (option Blob);
  cass_result_has_more_pages : CassResult -> bool;
  timer_wait : Z -> M W unit
}.

Definition MAX_RETRIES : nat := 5.
Definition WAIT_TIME : Z := 60.
Definition NFT_WRITE_BATCH_SIZE : Z := 10000.

Section migrator.
Context `{MigratorDb W} `{Ripple}.

Definition wait : M W unit := timer_wait WAIT_TIME.

Definition doNFTWrite (nfts : list NFTsData) : M W (list NFTsData) :=
  if (length nfts =? 0)%nat then mret nfts
  else writeNFTs nfts ≫= fun _ => sync ≫= fun _ => mret [].

Definition maybeDoNFTWrite (nfts : list NFTsData) : M W (list NFTsData) :=
  if Z.of_nat (length nfts) <? NFT_WRITE_BATCH_SIZE then mret nfts else doNFTWrite nfts.

(** The recursive retry of [doTryFetchTransactions] and [doTryFetchLedgerPage]:
    [left] is [MAX_RETRIES - attempts]. *)
Fixpoint doTry {A} (func : M W A) (left : nat) : M W A :=
  catch_timeout func
    match left with
    | O => throw DatabaseTimeout
    | S left' => wait ≫= fun _ => doTry func left'
    end.

Definition doTryFetchTransactions (hashes : list uint256) : M W (list TransactionAndMetadata) :=
  doTry (fetchTransactions hashes) MAX_RETRIES.

Definition doTryFetchLedgerPage (cursor : option uint256) (sequence : Z) : M W LedgerPage :=
  doTry (fetchLedgerPage cursor sequence 10000 false) MAX_RETRIES.

Fixpoint doTryGetTxPageResult (query : CassStatement) (left : nat) : M W CassResult :=
  result ← cass_execute query;
  match result with
  | Some r => mret r
  | None =>
      match left with
      | O => throw (RuntimeError "Already retried too many times")
      | S left' => wait ≫= fun _ => doTryGetTxPageResult query left'
      end
  end.

(** The hash of every row of a page. *)
Definition page_hashes (result : CassResult) : Res (list uint256) :=
  res_map (fun col =>
    match col with
    | Some buf => Ok (uint256_fromVoid buf)
    | None => Throw (RuntimeError "Could not retrieve hash from nf_token_transactions")
    end) (cass_result_column0 result).

(** The NFT data a transaction contributes: none for a transaction after the
    range or of another type; [value()] of an empty optional throws. *)
Definition tx_nft (maxSeq : Z) (tx : TransactionAndMetadata) : Res (list NFTsData) :=
  if tm_ledgerSequence tx >? maxSeq then Ok []
  else
    sttx ← parseSTTx (tm_transaction tx);
    if negb (bool_decide (getTxnType sttx = ttNFTOKEN_MINT)) then Ok []
    else
      txMeta ← parseTxMeta (getTransactionID sttx) (tm_ledgerSequence tx) (tm_metadata tx);
      '(_, nft) ← getNFTDataFromTx txMeta sttx;
      match nft with Some d => Ok [d] | None => Throw BadOptionalAccess end.

Definition txs_nfts (maxSeq : Z) (txs : list TransactionAndMetadata) : Res (list NFTsData) :=
  l ← res_map (tx_nft maxSeq) txs; Ok (concat l).

(** The page loop of step one; [fuel] bounds the number of pages. *)
Fixpoint step_one_loop (fuel : nat) (query : CassStatement) (maxSeq : Z)
    (toWrite : list NFTsData) : M W (list NFTsData) :=
  match fuel with
  | O => no_fuel
  | S fuel' =>
      result ← doTryGetTxPageResult query MAX_RETRIES;
      txHashes ← lift_res (page_hashes result);
      txs ← doTryFetchTransactions txHashes;
      new ← lift_res (txs_nfts maxSeq txs);
      toWrite ← maybeDoNFTWrite (toWrite ++ new);
      if cass_result_has_more_pages result
      then step_one_loop fuel' (cass_statement_set_paging_state query result) maxSeq toWrite
      else mret toWrite
  end.

Definition nftTxQuery : CassStatement :=
  cass_statement_set_paging_size
    (cass_statement_new ("SELECT hash FROM " +:+ tablePrefix +:+ "nf_token_transactions")) 1000.

Definition doMigrationStepOne (fuel : nat) (ledgerRange : LedgerRange) : M W unit :=
  toWrite ← step_one_loop fuel nftTxQuery (maxSequence ledgerRange) [];
  doNFTWrite toWrite ≫= fun _ => mret tt.

(** The NFTs of the objects of a page. *)
Definition objects_nfts (seq : Z) (objects : list LedgerObject) : Res (list NFTsData) :=
  l ← res_map (fun o => getNFTDataFromObj seq (lo_key o) (lo_blob o)) objects; Ok (concat l).

(** The do-while loop of step two. *)
Fixpoint step_two_loop (fuel : nat) (seq : Z) (cursor : option uint256)
    (toWrite : list NFTsData) : M W (list NFTsData) :=
  match fuel with
  | O => no_fuel
  | S fuel' =>
      page ← doTryFetchLedgerPage cursor seq;
      objectNFTs ← lift_res (objects_nfts seq (page_objects page));
      toWrite ← maybeDoNFTWrite (toWrite ++ objectNFTs);
      match page_cursor page with
      | Some c => step_two_loop fuel' seq (Some c) toWrite
      | None => mret toWrite
      end
  end.

Definition doMigrationStepTwo (fuel : nat) (ledgerRange : LedgerRange) : M W unit :=
  toWrite ← step_two_loop fuel (minSequence ledgerRange) None [];
  doNFTWrite toWrite ≫= fun _ => mret tt.

(** The outcome of the drop is only logged. *)
Definition doMigrationStepThree : M W unit :=
  cass_execute_ok (cass_statement_new ("DROP TABLE " +:+ tablePrefix +:+ "issuer_nf_tokens"))
    ≫= fun _ => sync ≫= fun _ => mret tt.

Definition doMigration (fuel : nat) : M W unit :=
  ledgerRange ← hardFetchLedgerRangeNoThrow fuel;
  match ledgerRange with
  | None => mret tt
  | Some r =>
      doMigrationStepOne fuel r ≫= fun _ =>
      doMigrationStepTwo fuel r ≫= fun _ =>
      doMigrationStepThree
  end.

End migrator.

(** ** What reaches the database *)

Inductive Event :=
| EWrite (batch : list NFTsData)
| ESync
| EDrop.

Definition event_records (e : Event) : list NFTsData :=
  match e with EWrite b => b | _ => [] end.

(** The records written by a sequence of events, in order. *)
Definition written (evs : list Event) : list NFTsData := evs ≫= event_records.

(** Every write is followed at once by a barrier, and nothing is dropped. *)
Inductive synced_writes : list Event -> Prop :=
| synced_nil : synced_writes []
| synced_write b evs : b <> [] -> synced_writes evs -> synced_writes (EWrite b :: ESync :: evs).

(** The world after [k] attempts of [func] that timed out, each followed by a
    wait; [None] if that is not what happens. *)
Fixpoint after_timeouts `{MigratorDb W} {A} (func : M W A) (k : nat) (w : W) : option W :=
  match k with
  | O => Some w
  | S k' =>
      match func w with
      | (Throw DatabaseTimeout, w1) =>
          match wait w1 with
          | (Ok _, w2) => after_timeouts func k' w2
          | _ => None
          end
      | _ => None
      end
  end.

(** The records of all the NFT objects of a ledger, in key order. *)
Definition ledger_nfts `{Ripple} (seq : Z) (m : gmap Z Blob) : Res (list NFTsData) :=
  objects_nfts seq (object_at m <$> keys_from m None).

(** [d] is the record of a mint at or before the last ledger. *)
Definition mint_record `{Ripple} (maxSeq : Z) (tx : TransactionAndMetadata) (d : NFTsData) : Prop :=
  tm_ledgerSequence tx <= maxSeq /\
  exists sttx txMeta links,
    parseSTTx (tm_transaction tx) = Ok sttx /\ getTxnType sttx = ttNFTOKEN_MINT /\
    parseTxMeta (getTransactionID sttx) (tm_ledgerSequence tx) (tm_metadata tx) = Ok txMeta /\
    getNFTDataFromTx txMeta sttx = Ok (links, Some d).

(** [d] is the record of a token of some NFT page of the ledger [m]. *)
Definition ledger_token `{Ripple} (seq : Z) (m : gmap Z Blob) (d : NFTsData) : Prop :=
  exists k b l, m !! k = Some b /\ getNFTDataFromObj seq k b = Ok l /\ d ∈ l.

(** The contract of the database operations, for a database with the ledger
    history [Ldg], the transactions [txdb] and the range [rng], whose
    [nf_token_transactions] table is served as the pages [pages]. [At evs w]: the
    world has seen the effects [evs], and no write is pending; [Rec] are the
    records it accepts, among them all those of the history. [remaining q ps]:
    statement [q] is about to return the first of the pages [ps]. Reads may fail
    with the exceptions of [Ex], [DatabaseTimeout] among them or not; the range
    read times out fewer than [patience] times in a row. *)
Class MigratorLaws `{MigratorDb W} `{Ripple} (Ldg : Z -> gmap Z Blob)
    (txdb : uint256 -> TransactionAndMetadata) (rng : option LedgerRange)
    (pages : list (list uint256)) (Rec : NFTsData -> Prop) (At : list Event -> W -> Prop)
    (Ex : Exn -> Prop) (patience : W -> nat)
    (remaining : CassStatement -> list (list uint256) -> Prop) := {
  ml_reads : forall evs, ReadLaws Ldg (At evs) (fun e w => Ex e /\ At evs w);
  ml_range : forall evs n,
    triple (fun w => At evs w /\ (patience w < S n)%nat) hardFetchLedgerRange
      (fun r w => r = rng /\ At evs w)
      (fun e w => At evs w /\ if decide (e = DatabaseTimeout) then (patience w < n)%nat else Ex e);
  ml_transactions : forall evs hs,
    triple (At evs) (fetchTransactions hs)
      (fun r w => r = txdb <$> hs /\ At evs w) (fun e w => Ex e /\ At evs w);
  ml_mints : forall r h d, rng = Some r -> h ∈ concat pages ->
    mint_record (maxSequence r) (txdb h) d -> Rec d;
  ml_tokens : forall r d, rng = Some r ->
    ledger_token (minSequence r) (Ldg (minSequence r)) d -> Rec d;
  ml_write : forall evs d, Forall Rec d ->
    triple (At evs) (writeNFTs d ≫= fun _ => sync) (fun _ => At (evs ++ [EWrite d; ESync])) noexn;
  ml_sync : forall evs, triple (At evs) sync (fun _ => At (evs ++ [ESync])) noexn;
  ml_wait : forall evs s, triple (At evs) (timer_wait s) (fun _ => At evs) noexn;
  ml_pages : pages <> [];
  ml_query : remaining nftTxQuery pages;
  ml_execute : forall evs q p ps, remaining q (p :: ps) ->
    triple (At evs) (cass_execute q)
      (fun r w => (r = None \/ exists res, r = Some res /\
          page_hashes res = Ok p /\
          (cass_result_has_more_pages res = true <-> ps <> []) /\
          remaining (cass_statement_set_paging_state q res) ps) /\
        At evs w) noexn;
  ml_drop : forall evs, triple (At evs)
    (cass_execute_ok (cass_statement_new ("DROP TABLE " +:+ tablePrefix +:+ "issuer_nf_tokens")))
    (fun _ => At (evs ++ [EDrop])) noexn
}.

(** Why the migration can stop before it is done. *)
Definition stops `{Ripple} (Ex : Exn -> Prop) (e : Exn) (fromTxs fromLedger : Res (list NFTsData))
  : Prop :=
  Ex e \/ e = RuntimeError "Already retried too many times" \/
  fromTxs = Throw e \/ fromLedger = Throw e.

(** ** Lemmas *)

Lemma res_map_app {A B} (f : A -> Res B) l1 l2 :
  res_map f (l1 ++ l2) = (ys1 ← res_map f l1; ys2 ← res_map f l2; Ok (ys1 ++ ys2)).
Proof.
  induction l1 as [|x l1 IH]; simpl; [by destruct (res_map f l2)|].
  destruct (f x); simpl; [|done..]. rewrite IH.
  destruct (res_map f l1); simpl; [|done..]. by destruct (res_map f l2).
Qed.

Lemma txs_nfts_app `{Ripple} s l1 l2 :
  txs_nfts s (l1 ++ l2) = (a ← txs_nfts s l1; b ← txs_nfts s l2; Ok (a ++ b)).
Proof.
  unfold txs_nfts. rewrite res_map_app. destruct (res_map _ l1); simpl; [|done..].
  destruct (res_map _ l2); simpl; [|done..]. by rewrite concat_app.
Qed.

Lemma objects_nfts_app `{Ripple} s l1 l2 :
  objects_nfts s (l1 ++ l2) = (a ← objects_nfts s l1; b ← objects_nfts s l2; Ok (a ++ b)).
Proof.
  unfold objects_nfts. rewrite res_map_app. destruct (res_map _ l1); simpl; [|done..].
  destruct (res_map _ l2); simpl; [|done..]. by rewrite concat_app.
Qed.

Lemma tx_nft_elem `{Ripple} s tx l :
  tx_nft s tx = Ok l -> forall d, d ∈ l <-> mint_record s tx d.
Proof.
  unfold tx_nft, mint_record. rewrite Z.gtb_ltb. destruct (Z.ltb_spec s (tm_ledgerSequence tx)).
  { intros [= <-] d. split; [by intros ?%elem_of_nil | intros [? _]; lia]. }
  destruct (parseSTTx _) as [sttx| |]; simpl; [|done..]. case_bool_decide as Ht; simpl.
  2:{ intros [= <-] d. split; [by intros ?%elem_of_nil | intros (_ & ? & ? & ? & [= <-] & ? & _); done]. }
  destruct (parseTxMeta _ _ _) as [m| |] eqn:Hm; simpl; [|done..].
  destruct (getNFTDataFromTx m sttx) as [[links [r|]]| |] eqn:Hg; simpl; [|done..].
  intros [= <-] d. rewrite list_elem_of_singleton. split.
  - intros ->. split; [done|]. by exists sttx, m, links.
  - intros (_ & sttx' & m' & links' & [= <-] & _ & Hm' & Hg'). congruence.
Qed.

Lemma concat_res_elem {A B} (f : A -> Res (list B)) (P : A -> B -> Prop) xs ls :
  (forall x l, f x = Ok l -> forall d, d ∈ l <-> P x d) -> res_map f xs = Ok ls ->
  forall d, d ∈ concat ls <-> exists x, x ∈ xs /\ P x d.
Proof.
  intros Hf Hm%res_map_ok d. induction Hm as [|x l xs ls Hx Hm IH]; simpl; [set_solver|].
  rewrite elem_of_app, IH, (Hf x l Hx). set_solver.
Qed.

Lemma txs_nfts_elem `{Ripple} s txs l :
  txs_nfts s txs = Ok l -> forall d, d ∈ l <-> exists tx, tx ∈ txs /\ mint_record s tx d.
Proof.
  unfold txs_nfts. destruct (res_map _ _) as [ls| |] eqn:Hm; simpl; [|done..]. intros [= <-].
  exact (concat_res_elem _ (mint_record s) _ _ (tx_nft_elem s) Hm).
Qed.

Lemma objects_nfts_elem `{Ripple} s objs l :
  objects_nfts s objs = Ok l -> forall d, d ∈ l <->
    exists o, o ∈ objs /\ exists l', getNFTDataFromObj s (lo_key o) (lo_blob o) = Ok l' /\ d ∈ l'.
Proof.
  unfold objects_nfts. destruct (res_map _ _) as [ls| |] eqn:Hm; simpl; [|done..]. intros [= <-].
  refine (concat_res_elem _ (fun o d => exists l', getNFTDataFromObj s (lo_key o) (lo_blob o) = Ok l' /\ d ∈ l') _ _ _ Hm).
  intros o l' Ho d. split; [by eauto|]. intros (l'' & Hl'' & Hd). congruence.
Qed.

Lemma keys_objects_elem `{Ripple} s m keys l :
  (forall k, k ∈ keys -> is_Some (m !! k)) ->
  objects_nfts s (object_at m <$> keys) = Ok l -> Forall (ledger_token s m) l.
Proof.
  intros Hk Hl. apply Forall_forall. intros d Hd.
  apply (objects_nfts_elem _ _ _ Hl) in Hd as (o & (k & -> & Hin)%list_elem_of_fmap & l' & Hl' & Hd).
  destruct (Hk k Hin) as [b Hb]. unfold object_at in Hl'. rewrite Hb in Hl'. by exists k, b, l'.
Qed.

(** The records of a ledger are those of its tokens. *)
Lemma ledger_nfts_elem `{Ripple} s m l :
  (forall j, is_Some (m !! j) -> valid_key j) -> m !! firstKey = None ->
  ledger_nfts s m = Ok l -> forall d, d ∈ l <-> ledger_token s m d.
Proof.
  intros Hv H0 Hl d. split.
  - intros Hd. pose proof (keys_objects_elem s m _ l (fun k Hk => proj1 (keys_after_elem _ _ _ k Hk)) Hl) as Hall.
    by apply (proj1 (Forall_forall _ _) Hall).
  - intros (k & b & l' & Hk & Hl' & Hd). apply (objects_nfts_elem _ _ _ Hl).
    exists (object_at m k). split.
    + apply list_elem_of_fmap. exists k. split; [done|]. by apply keys_from_elem.
    + exists l'. unfold object_at. by rewrite Hk.
Qed.

Lemma txs_nfts_total `{R : Ripple} `{RT : !RippleTotal} s txs : total (txs_nfts s txs).
Proof.
  unfold txs_nfts. apply total_bind; [|done]. apply total_map. intros tx. unfold tx_nft. solve_total.
Qed.

Lemma ledger_nfts_total `{R : Ripple} `{RT : !RippleTotal} s m : total (ledger_nfts s m).
Proof. unfold ledger_nfts, objects_nfts. solve_total. Qed.

Lemma synced_writes_app e1 e2 :
  synced_writes e1 -> synced_writes e2 -> synced_writes (e1 ++ e2).
Proof. induction 1; [done|]. intros. simpl. constructor; auto. Qed.

Lemma synced_no_drop evs : synced_writes evs -> EDrop ∉ evs.
Proof. induction 1; set_solver. Qed.

Lemma written_app e1 e2 : written (e1 ++ e2) = written e1 ++ written e2.
Proof. apply bind_app. Qed.

(** A page whose cells are hashes. *)
Lemma cells_hashes p :
  Forall valid_key p ->
  res_map (fun col => match col with
                      | Some buf => Ok (uint256_fromVoid buf)
                      | None => Throw (RuntimeError "Could not retrieve hash from nf_token_transactions")
                      end) ((fun k => Some (uint256_bytes k)) <$> p) = Ok p.
Proof.
  induction 1 as [|k p Hk Hp IH]; [done|].
  cbn [fmap list_fmap res_map mbind Res_bind]. fold_fmap. rewrite IH. simpl.
  change (uint256_bytes k) with (uint256ToString k). by rewrite (uint256_fromVoid_bytes k Hk).
Qed.

Lemma written_batch d : written [EWrite d; ESync] = d.
Proof. unfold written. simpl. apply app_nil_r. Qed.

(** A retried read keeps what its attempts and the waits keep. *)
Lemma doTry_triple `{MigratorDb W} {A} (P : W -> Prop) (X : Exn -> Prop) (func : M W A)
    (Q : A -> W -> Prop) n :
  triple P wait (fun _ => P) noexn ->
  triple P func Q (fun e w => X e /\ P w) ->
  triple P (doTry func n) Q (fun e w => X e /\ P w).
Proof.
  intros Hwait Hf.
  assert (forall h, triple (fun w => X DatabaseTimeout /\ P w) h Q (fun e w => X e /\ P w) ->
          triple P (catch_timeout func h) Q (fun e w => X e /\ P w)) as Hc.
  { intros h Hh. eapply triple_catch; [|exact Hh].
    eapply triple_conseq; [exact Hf | done | done |].
    intros e w He. destruct (decide (e = DatabaseTimeout)) as [->|]; done. }
  induction n as [|n IH]; simpl; apply Hc; apply triple_pre_pure; intros Hex.
  - by apply triple_throw.
  - eapply (triple_bind _ _ _ (fun _ => P)); [|intros []; apply IH].
    eapply triple_conseq; [apply Hwait | done | done | done].
Qed.

(** The unbounded retry ends when the timeouts do: [patience] decreases with each. *)
Lemma retryOnTimeout_triple `{BackendImpl W} {A} (P : W -> Prop) (X : Exn -> Prop)
    (patience : W -> nat) (func : M W A) (Q : A -> W -> Prop) fuel :
  (forall n, triple (fun w => P w /\ (patience w < S n)%nat) func Q
     (fun e w => P w /\ if decide (e = DatabaseTimeout) then (patience w < n)%nat else X e)) ->
  triple (fun w => P w /\ (patience w < fuel)%nat) (retryOnTimeout fuel func) Q
    (fun e w => X e /\ P w).
Proof.
  intros Hf. induction fuel as [|fuel IH]; simpl; [intros w [_ ?]; lia|].
  eapply triple_catch; [|exact IH].
  eapply triple_conseq; [apply (Hf fuel) | done | done |].
  intros e w (H1 & H2). by destruct (decide (e = DatabaseTimeout)).
Qed.

Section migrator_specs.
Context `{MD : MigratorDb W} `{R : Ripple} `{RT : !RippleTotal}.
Context {Ldg : Z -> gmap Z Blob} {txdb : uint256 -> TransactionAndMetadata}
  {rng : option LedgerRange} {pages : list (list uint256)} {Rec : NFTsData -> Prop}
  {At : list Event -> W -> Prop} {Ex : Exn -> Prop} {patience : W -> nat}
  {remaining : CassStatement -> list (list uint256) -> Prop}.
Context `{ML : !MigratorLaws Ldg txdb rng pages Rec At Ex patience remaining}.

(** Since the log [evs], [recs] have been taken up: all are written and synced
    but [left], which is still in memory. *)
Definition progress (evs : list Event) (recs left : list NFTsData) (w : W) : Prop :=
  exists evs', At (evs ++ evs') w /\ synced_writes evs' /\ written evs' ++ left = recs.

(** An exception found the log [evs] extended by synced writes only. *)
Definition stopped (evs : list Event) (why : Exn -> Prop) (e : Exn) (w : W) : Prop :=
  why e /\ exists evs', At (evs ++ evs') w /\ synced_writes evs'.

Lemma stopped_here evs (why : Exn -> Prop) e w : why e -> At evs w -> stopped evs why e w.
Proof.
  intros Hw Hl. split; [done|]. exists []. rewrite app_nil_r. split; [done | constructor].
Qed.

Lemma stopped_later evs evs1 (why why' : Exn -> Prop) e w :
  synced_writes evs1 -> (why' e -> why e) ->
  stopped (evs ++ evs1) why' e w -> stopped evs why e w.
Proof.
  intros Hs Hwhy [Hw (evs2 & Hl & Hs2)]. split; [auto|]. exists (evs1 ++ evs2).
  rewrite app_assoc. split; [done | by apply synced_writes_app].
Qed.

Lemma wait_log evs : triple (At evs) wait (fun _ => At evs) noexn.
Proof. apply ml_wait. Qed.

Lemma doTry_log {A} (func : M W A) evs (Q : A -> W -> Prop) n :
  triple (At evs) func Q (fun e w => Ex e /\ At evs w) ->
  triple (At evs) (doTry func n) Q (fun e w => Ex e /\ At evs w).
Proof. apply doTry_triple, wait_log. Qed.

Lemma getTxPage_log evs q p ps n :
  remaining q (p :: ps) ->
  triple (At evs) (doTryGetTxPageResult q n)
    (fun res w => page_hashes res = Ok p /\
       (cass_result_has_more_pages res = true <-> ps <> []) /\
       remaining (cass_statement_set_paging_state q res) ps /\ At evs w)
    (fun e w => e = RuntimeError "Already retried too many times" /\ At evs w).
Proof.
  intros Hq.
  assert (forall h, triple (At evs) h
    (fun res w => page_hashes res = Ok p /\
       (cass_result_has_more_pages res = true <-> ps <> []) /\
       remaining (cass_statement_set_paging_state q res) ps /\ At evs w)
    (fun e w => e = RuntimeError "Already retried too many times" /\ At evs w) ->
    triple (At evs) (cass_execute q ≫= fun r => match r with Some r => mret r | None => h end)
    (fun res w => page_hashes res = Ok p /\
       (cass_result_has_more_pages res = true <-> ps <> []) /\
       remaining (cass_statement_set_paging_state q res) ps /\ At evs w)
    (fun e w => e = RuntimeError "Already retried too many times" /\ At evs w)) as Hstep.
  { intros h Hh. eapply triple_bind.
    - eapply triple_conseq; [by apply (ml_execute evs q p ps) | done | done | done].
    - intros [r|]; simpl; apply triple_pre_pure; [|done].
      intros [?|(res & [= <-] & H1 & H2 & H3)]; [done|]. by apply triple_ret. }
  induction n as [|n IH]; simpl; apply Hstep; [by apply triple_throw|].
  eapply (triple_bind _ _ _ (fun _ => At evs)); [|intros []; exact IH].
  eapply triple_conseq; [apply wait_log | done | done | done].
Qed.

Lemma doNFTWrite_log evs tw :
  Forall Rec tw ->
  triple (At evs) (doNFTWrite tw)
    (fun tw' w => tw' = [] /\ progress evs tw [] w) noexn.
Proof.
  intros Htw. unfold doNFTWrite. destruct (length tw =? 0)%nat eqn:Hl.
  - apply Nat.eqb_eq, nil_length_inv in Hl as ->. apply triple_ret. intros w Hw.
    split; [done|]. exists []. rewrite app_nil_r. split; [done|]. split; [constructor | done].
  - apply Nat.eqb_neq in Hl. intros w Hw. rewrite <- (bind_assoc (writeNFTs tw)). revert w Hw.
    eapply triple_bind; [by apply ml_write|]. intros ?. apply triple_ret. intros w Hw.
    split; [done|]. exists [EWrite tw; ESync].
    split; [exact Hw|]. split; [|unfold written; simpl; by rewrite !app_nil_r].
    constructor; [by intros -> | constructor].
Qed.

Lemma maybeDoNFTWrite_log evs tw :
  Forall Rec tw ->
  triple (At evs) (maybeDoNFTWrite tw) (fun tw' w => progress evs tw tw' w) noexn.
Proof.
  intros Htw. unfold maybeDoNFTWrite. destruct (_ <? _).
  - apply triple_ret. intros w Hw. exists []. rewrite app_nil_r. split; [done|].
    split; [constructor | done].
  - eapply triple_conseq; [by apply doNFTWrite_log | done | | done].
    by intros tw' w [-> Hw].
Qed.

Lemma progress_trans evs evs1 recs1 left1 recs2 left2 w :
  synced_writes evs1 -> written evs1 ++ left1 = recs1 ->
  progress (evs ++ evs1) (left1 ++ recs2) left2 w -> progress evs (recs1 ++ recs2) left2 w.
Proof.
  intros Hs <- (evs2 & Hl & Hs2 & Hw). exists (evs1 ++ evs2). rewrite app_assoc.
  split; [done|]. split; [by apply synced_writes_app|].
  by rewrite written_app, <- !app_assoc, Hw.
Qed.

(** What is left to write is among what was taken up. *)
Lemma left_records evs recs left : Forall Rec recs -> written evs ++ left = recs -> Forall Rec left.
Proof. intros Hr <-. by apply Forall_app in Hr as [_ ?]. Qed.

(** Why a step can stop: a failing read, too many failed queries, or a record
    that does not parse. *)
Definition step_stops (parsed : Res (list NFTsData)) (e : Exn) : Prop :=
  Ex e \/ e = RuntimeError "Already retried too many times" \/ parsed = Throw e.

Lemma step_one_loop_log maxSeq fuel q ps evs tw :
  ps <> [] -> remaining q ps -> (length ps <= fuel)%nat ->
  (forall h d, h ∈ concat ps -> mint_record maxSeq (txdb h) d -> Rec d) -> Forall Rec tw ->
  txs_nfts maxSeq (txdb <$> concat ps) <> NoFuel ->
  triple (At evs) (step_one_loop fuel q maxSeq tw)
    (fun tw' w => exists l, txs_nfts maxSeq (txdb <$> concat ps) = Ok l /\
       progress evs (tw ++ l) tw' w)
    (stopped evs (step_stops (txs_nfts maxSeq (txdb <$> concat ps)))).
Proof.
  revert q ps evs tw. induction fuel as [|fuel IH]; intros q [|p ps] evs tw Hne Hq Hf Hmints Htw Hp;
    simpl in Hf; try done; try lia. cbn [step_one_loop concat] in *.
  eapply triple_bind.
  { eapply triple_conseq; [by eapply getTxPage_log | done | done |].
    intros e w [-> Hw]. apply stopped_here; [|done]. by right; left. }
  intros res. apply triple_pre_pure; intros Hh. apply triple_pre_pure; intros Hmore.
  apply triple_pre_pure; intros Hrem. rewrite Hh.
  eapply (triple_bind _ _ _ (fun r w => r = p /\ At evs w)); [by apply triple_lift|].
  intros ?. apply triple_pre_pure; intros ->.
  eapply triple_bind.
  { eapply triple_conseq; [apply doTry_log, ml_transactions | done | done |].
    intros e w [He Hw]. apply stopped_here; [|done]. by left. }
  intros txs. apply triple_pre_pure; intros ->.
  rewrite fmap_app, txs_nfts_app in *.
  apply triple_lift_bind; [by intros Hn; rewrite Hn in Hp | |].
  { intros e w He Hw. apply stopped_here; [|done]. right; right. by rewrite He. }
  intros l1 Hl1. rewrite Hl1 in Hp |- *. simpl in Hp.
  assert (Forall Rec (tw ++ l1)) as Htw1.
  { apply Forall_app. split; [done|]. apply Forall_forall. intros d.
    rewrite (txs_nfts_elem _ _ _ Hl1 d). intros (tx & (h & -> & Hin)%list_elem_of_fmap & Hm).
    eapply Hmints; [|done]. set_solver. }
  eapply triple_bind.
  { eapply triple_conseq; [by apply maybeDoNFTWrite_log | done | done | done]. }
  intros tw1. apply triple_pre_exists; intros evs1.
  intros w (Hw & Hs & Hrec). revert w Hw. change (triple (At (evs ++ evs1))
    (if cass_result_has_more_pages res
     then step_one_loop fuel (cass_statement_set_paging_state q res) maxSeq tw1 else mret tw1)
    (fun tw' w => exists l, (b ← txs_nfts maxSeq (txdb <$> concat ps); Ok (l1 ++ b)) = Ok l /\
       progress evs (tw ++ l) tw' w)
    (stopped evs (step_stops (b ← txs_nfts maxSeq (txdb <$> concat ps); Ok (l1 ++ b))))).
  destruct (cass_result_has_more_pages res) eqn:Hm.
  - assert (ps <> []) as Hps by by apply Hmore.
    eapply triple_conseq.
    + apply (IH _ ps); [done | done | lia | | by eapply left_records |].
      * intros h d Hh'. apply Hmints. set_solver.
      * by intros Hn; rewrite Hn in Hp.
    + done.
    + simpl. intros tw' w (l & Hl & Hprog). rewrite Hl. simpl. eexists; split; [done|].
      rewrite app_assoc. by eapply progress_trans.
    + intros e w. apply stopped_later; [done|]. intros [?|[?|Ht]]; [by left | by right; left |].
      right; right. by rewrite Ht.
  - destruct ps as [|p' ps]; [|pose proof (proj2 Hmore ltac:(done)); congruence].
    apply triple_ret. intros w Hw. simpl. eexists; split; [done|]. rewrite app_nil_r.
    exists evs1. done.
Qed.

Lemma fetch_page_log cursor seq evs :
  (forall k, cursor = Some k -> is_Some (Ldg seq !! k)) ->
  triple (At evs) (doTryFetchLedgerPage cursor seq)
    (fun p w =>
       let K := keys_from (Ldg seq) cursor in
       page_objects p = object_at (Ldg seq) <$> take (Z.to_nat 10000) K /\
       match page_cursor p with
       | None => (length K < Z.to_nat 10000)%nat
       | Some c => is_Some (Ldg seq !! c) /\
           keys_from (Ldg seq) (Some c) = drop (Z.to_nat 10000) K /\ (Z.to_nat 10000 <= length K)%nat
       end /\ At evs w)
    (fun e w => Ex e /\ At evs w).
Proof.
  intros Hc. apply doTry_log.
  by apply (fetchLedgerPage_chunk (ReadLaws0 := ml_reads evs)).
Qed.

Lemma step_two_loop_log seq fuel cursor evs tw :
  (forall k, cursor = Some k -> is_Some (Ldg seq !! k)) ->
  Z.of_nat (length (keys_from (Ldg seq) cursor)) < Z.of_nat fuel * 10000 ->
  (forall d, ledger_token seq (Ldg seq) d -> Rec d) -> Forall Rec tw ->
  objects_nfts seq (object_at (Ldg seq) <$> keys_from (Ldg seq) cursor) <> NoFuel ->
  triple (At evs) (step_two_loop fuel seq cursor tw)
    (fun tw' w => exists l,
       objects_nfts seq (object_at (Ldg seq) <$> keys_from (Ldg seq) cursor) = Ok l /\
       progress evs (tw ++ l) tw' w)
    (stopped evs (step_stops (objects_nfts seq (object_at (Ldg seq) <$> keys_from (Ldg seq) cursor)))).
Proof.
  revert cursor evs tw. induction fuel as [|fuel IH]; intros cursor evs tw Hc Hf Htok Htw Hp; [lia|].
  cbn [step_two_loop].
  eapply triple_bind.
  { eapply triple_conseq; [by apply fetch_page_log | done | done |].
    intros e w [He Hw]. apply stopped_here; [by left | done]. }
  intros p. apply triple_pre_pure; intros Ho. apply triple_pre_pure; intros Hcur. rewrite Ho.
  pose proof (objects_nfts_app seq (object_at (Ldg seq) <$> take (Z.to_nat 10000) (keys_from (Ldg seq) cursor))
    (object_at (Ldg seq) <$> drop (Z.to_nat 10000) (keys_from (Ldg seq) cursor))) as Hsplit.
  rewrite <- fmap_app, take_drop in Hsplit. rewrite Hsplit in Hp |- *. clear Hsplit.
  apply triple_lift_bind; [by intros Hn; rewrite Hn in Hp | |].
  { intros e w He Hw. apply stopped_here; [|done]. right; right. by rewrite He. }
  intros l1 Hl1. rewrite Hl1 in Hp |- *. cbn [mbind Res_bind] in Hp |- *.
  assert (Forall Rec (tw ++ l1)) as Htw1.
  { apply Forall_app. split; [done|]. eapply Forall_impl; [|exact Htok].
    eapply keys_objects_elem; [|exact Hl1]. intros k Hk. eapply keys_after_elem. by eapply subseteq_take. }
  eapply triple_bind.
  { eapply triple_conseq; [by apply maybeDoNFTWrite_log | done | done | done]. }
  intros tw1. apply triple_pre_exists; intros evs1.
  intros w (Hw & Hs & Hrec).
  destruct (page_cursor p) as [c|].
  - destruct Hcur as (Hk & Hrest & Hlen). rewrite <- Hrest in *.
    revert w Hw. eapply (triple_conseq _ (At (evs ++ evs1))).
    + apply (IH (Some c)); [by intros k [= <-] | | done | by eapply left_records |].
      * rewrite Hrest, length_drop. lia.
      * by intros Hn; rewrite Hn in Hp.
    + done.
    + intros tw' w (l & Hl & Hprog). rewrite Hl. simpl. eexists; split; [done|].
      rewrite app_assoc. by eapply progress_trans.
    + intros e w. apply stopped_later; [done|]. intros [?|[?|Ht]]; [by left | by right; left |].
      right; right. by rewrite Ht.
  - rewrite (drop_ge (keys_from (Ldg seq) cursor)) by lia. simpl. eexists; split; [done|].
    rewrite app_nil_r. exists evs1. done.
Qed.

(** The final write of a step. *)
Lemma finish_step evs (m : M W (list NFTsData)) (parsed : Res (list NFTsData)) :
  triple (At evs) m
    (fun tw w => exists l, parsed = Ok l /\ progress evs l tw w)
    (stopped evs (step_stops parsed)) ->
  (forall l, parsed = Ok l -> Forall Rec l) ->
  triple (At evs) (m ≫= fun tw => doNFTWrite tw ≫= fun _ => mret tt)
    (fun _ w => exists l, parsed = Ok l /\ progress evs l [] w)
    (stopped evs (step_stops parsed)).
Proof.
  intros Hm Hl'. eapply triple_bind; [exact Hm|]. intros tw.
  apply triple_pre_exists; intros l. apply triple_pre_pure; intros Hl.
  apply triple_pre_exists; intros evs1 w (Hw & Hs & Hrec).
  eapply (triple_bind (At (evs ++ evs1)) _ _
    (fun _ w => exists l, parsed = Ok l /\ progress evs l [] w)); [| |exact Hw].
  - assert (Forall Rec tw) as Htw by (eapply left_records; [by apply Hl' | exact Hrec]).
    eapply triple_conseq; [by apply doNFTWrite_log | done | | done].
    intros tw' w' [-> Hp]. exists l. split; [done|]. rewrite <- (app_nil_r tw) in Hp.
    rewrite <- (app_nil_r l). by eapply progress_trans.
  - intros u. by apply triple_ret.
Qed.

Lemma stepOne_log evs fuel r :
  rng = Some r ->
  (length pages <= fuel)%nat ->
  txs_nfts (maxSequence r) (txdb <$> concat pages) <> NoFuel ->
  triple (At evs) (doMigrationStepOne fuel r)
    (fun _ w => exists l, txs_nfts (maxSequence r) (txdb <$> concat pages) = Ok l /\
       progress evs l [] w)
    (stopped evs (step_stops (txs_nfts (maxSequence r) (txdb <$> concat pages)))).
Proof.
  intros Hr Hf Hp. apply finish_step.
  - apply (step_one_loop_log (maxSequence r) fuel nftTxQuery pages evs []);
      [apply ml_pages | apply ml_query | done | | constructor | done].
    intros h d Hh Hm. exact (ml_mints r h d Hr Hh Hm).
  - intros l Hl. apply Forall_forall. intros d. rewrite (txs_nfts_elem _ _ _ Hl d).
    intros (tx & (h & -> & Hh)%list_elem_of_fmap & Hm). by eapply (ml_mints r).
Qed.

Lemma stepTwo_log evs fuel r :
  rng = Some r ->
  Z.of_nat (size (Ldg (minSequence r))) < Z.of_nat fuel * 10000 ->
  ledger_nfts (minSequence r) (Ldg (minSequence r)) <> NoFuel ->
  triple (At evs) (doMigrationStepTwo fuel r)
    (fun _ w => exists l, ledger_nfts (minSequence r) (Ldg (minSequence r)) = Ok l /\
       progress evs l [] w)
    (stopped evs (step_stops (ledger_nfts (minSequence r) (Ldg (minSequence r))))).
Proof.
  intros Hr Hf Hp. apply finish_step.
  - apply (step_two_loop_log (minSequence r) fuel None evs []); [done | | | constructor | done].
    + pose proof (keys_after_size (Ldg (minSequence r)) firstKey (size (Ldg (minSequence r)))).
      unfold keys_from. simpl. lia.
    + intros d Hd. exact (ml_tokens r d Hr Hd).
  - intros l Hl. eapply Forall_impl; [|intros d Hd; exact (ml_tokens r d Hr Hd)].
    eapply keys_objects_elem; [|exact Hl]. intros k Hk. by eapply keys_after_elem.
Qed.

Lemma stepThree_log evs :
  triple (At evs) doMigrationStepThree (fun _ w => At ((evs ++ [EDrop]) ++ [ESync]) w) noexn.
Proof.
  eapply triple_bind; [apply ml_drop|]. intros ?.
  eapply triple_bind; [apply ml_sync|]. intros ?. by apply triple_ret.
Qed.

Lemma range_log evs fuel :
  triple (fun w => At evs w /\ (patience w < fuel)%nat) (hardFetchLedgerRangeNoThrow fuel)
    (fun r w => r = rng /\ At evs w) (stopped evs Ex).
Proof.
  eapply triple_conseq; [apply (retryOnTimeout_triple (At evs) Ex patience _ (fun r w => r = rng /\ At evs w) fuel) | done | done |].
  - intros n. apply (ml_range evs n).
  - intros e w [He Hw]. by apply stopped_here.
Qed.

(** The migration, with the records as the lists it collects. *)
Lemma doMigration_triple (evs : list Event) (fuel : nat) :
  (length pages <= fuel)%nat ->
  (forall r, rng = Some r ->
     Z.of_nat (size (Ldg (minSequence r))) < Z.of_nat fuel * 10000) ->
  triple (fun w => At evs w /\ (patience w < fuel)%nat) (doMigration fuel)
    (fun _ w =>
       match rng with
       | None => At evs w
       | Some r => exists l1 l2 evs',
           txs_nfts (maxSequence r) (txdb <$> concat pages) = Ok l1 /\
           ledger_nfts (minSequence r) (Ldg (minSequence r)) = Ok l2 /\
           synced_writes evs' /\ written evs' = l1 ++ l2 /\
           At (evs ++ evs' ++ [EDrop; ESync]) w
       end)
    (stopped evs (fun e =>
       Ex e \/ exists r, rng = Some r /\
         stops Ex e (txs_nfts (maxSequence r) (txdb <$> concat pages))
                    (ledger_nfts (minSequence r) (Ldg (minSequence r))))).
Proof.
  intros Hpages Hr. unfold doMigration. eapply triple_bind.
  { eapply triple_conseq; [apply (range_log evs fuel) | done | done |].
    intros e w [He Hw]. split; [by left | done]. }
  intros r'. apply triple_pre_pure; intros ->.
  assert (rng = None \/ exists r, rng = Some r) as [Hrng|[r Hrng]] by (destruct rng; eauto);
    rewrite Hrng; [by apply triple_ret|].
  pose proof (Hr r Hrng) as Hsize.
  pose proof (txs_nfts_total (maxSequence r) (txdb <$> concat pages)) as Hp1.
  pose proof (ledger_nfts_total (minSequence r) (Ldg (minSequence r))) as Hp2.
  eapply triple_bind.
  { eapply triple_conseq; [by apply stepOne_log | done | done |].
    intros e w [He Hw]. split; [|done]. right; exists r. split; [done|].
    destruct He as [?|[?|?]]; unfold stops; auto. }
  intros u. apply triple_pre_exists; intros l1. apply triple_pre_pure; intros Hl1.
  apply triple_pre_exists; intros evs1 w (Hw & Hs1 & Hw1). rewrite app_nil_r in Hw1.
  revert w Hw. eapply triple_bind.
  { eapply triple_conseq; [by apply stepTwo_log | done | done |].
    intros e w. apply stopped_later; [done|]. intros He. right; exists r. split; [done|].
    destruct He as [?|[?|?]]; unfold stops; auto. }
  intros u2. apply triple_pre_exists; intros l2. apply triple_pre_pure; intros Hl2.
  apply triple_pre_exists; intros evs2 w (Hw & Hs2 & Hw2). rewrite app_nil_r in Hw2.
  revert w Hw. eapply triple_conseq; [apply stepThree_log | done | | done].
  intros u3 w Hw. exists l1, l2, (evs1 ++ evs2). split_and!; [done | done | | |].
  - by apply synced_writes_app.
  - by rewrite written_app, Hw1, Hw2.
  - rewrite <- !app_assoc in *. exact Hw.
Qed.

(** C2: [doMigration] on a database with a range writes the records of the mints
    among the listed transactions up to the last ledger and then those of the
    tokens in the NFT pages of the first ledger, and no others, in the order in
    which they are read, every batch followed by a barrier; only then it drops
    the old table. If it stops - a read fails, a query fails six times, a
    record does not parse - nothing has been dropped. With no range it does
    nothing. Fuel above the pages of the table and a ten-thousandth of the first
    ledger's objects is enough. *)
Theorem doMigration_spec (evs : list Event) (fuel : nat) :
  (length pages <= fuel)%nat ->
  (forall r, rng = Some r ->
     Z.of_nat (size (Ldg (minSequence r))) < Z.of_nat fuel * 10000 /\
     Ldg (minSequence r) !! firstKey = None) ->
  triple (fun w => At evs w /\ (patience w < fuel)%nat) (doMigration fuel)
    (fun _ w =>
       match rng with
       | None => At evs w
       | Some r => exists l1 l2 evs',
           txs_nfts (maxSequence r) (txdb <$> concat pages) = Ok l1 /\
           ledger_nfts (minSequence r) (Ldg (minSequence r)) = Ok l2 /\
           (forall d, d ∈ l1 <-> exists h, h ∈ concat pages /\ mint_record (maxSequence r) (txdb h) d) /\
           (forall d, d ∈ l2 <-> ledger_token (minSequence r) (Ldg (minSequence r)) d) /\
           synced_writes evs' /\ written evs' = l1 ++ l2 /\
           At (evs ++ evs' ++ [EDrop; ESync]) w
       end)
    (stopped evs (fun e =>
       Ex e \/ exists r, rng = Some r /\
         stops Ex e (txs_nfts (maxSequence r) (txdb <$> concat pages))
                    (ledger_nfts (minSequence r) (Ldg (minSequence r))))).
Proof.
  intros Hpages Hr. eapply triple_conseq; [by apply (doMigration_triple evs fuel); [|intros r Hrng; apply Hr] | done | | done].
  intros ? w Hw. assert (rng = None \/ exists r, rng = Some r) as [Hrng|[r Hrng]] by (destruct rng; eauto);
    rewrite Hrng in Hw |- *; [done|].
  destruct Hw as (l1 & l2 & evs' & Hl1 & Hl2 & Hs & Hrec & Hat). exists l1, l2, evs'. split_and!; try done.
  - intros d. rewrite (txs_nfts_elem _ _ _ Hl1 d). split.
    + intros (tx & (h & -> & Hh)%list_elem_of_fmap & Hm). eauto.
    + intros (h & Hh & Hm). eexists; split; [|done]. by apply list_elem_of_fmap_2.
  - destruct (Hr r Hrng) as [_ Hzero]. apply ledger_nfts_elem; [|done | done].
    intros j [b Hb]. eapply (rl_valid (ReadLaws := ml_reads [])), Hb.
Qed.

End migrator_specs.

(** A retried read that times out [k <= 5] times in a row has the outcome,
    and leaves the world, of its next attempt after [k] waits; when all six
    attempts time out, the timeout is rethrown, and the read is not attempted a
    seventh time. *)
Theorem doTry_retries `{MigratorDb W} {A} (func : M W A) (k : nat) (w w1 w2 : W) (r : Res A) :
  (k <= MAX_RETRIES)%nat ->
  after_timeouts func k w = Some w1 -> func w1 = (r, w2) ->
  (r <> Throw DatabaseTimeout \/ k = MAX_RETRIES) ->
  doTry func MAX_RETRIES w = (r, w2).
Proof.
  generalize MAX_RETRIES as n. intros n. revert k w.
  induction n as [|n IH]; intros [|k] w Hk Ha Hf Hr; simpl in *; try lia.
  - injection Ha as ->. unfold catch_timeout. rewrite Hf.
    destruct r as [|[]|]; try done.
  - injection Ha as ->. destruct Hr as [Hr|?]; [|lia]. unfold catch_timeout. rewrite Hf.
    by destruct r as [|[]|].
  - unfold catch_timeout. destruct (func w) as [[a|[]|] w']; try discriminate Ha.
    unfold mbind, M_bind. destruct (wait w') as [[[]|e|] w'']; try discriminate Ha.
    apply (IH k); [lia | done | done |]. destruct Hr as [?|Hr]; [by left | right; lia].
Qed.

(** ** A database in memory

    [MemBackend] with a log of effects, pages of transaction hashes, and reads
    that time out [mg_glitches] times before they succeed. *)

Record MigWorld := mkMigWorld
  { mg_mem : MemWorld; mg_log : list Event; mg_glitches : nat }.

Definition mg_emit (e : Event) : M MigWorld unit := fun w =>
  (Ok tt, mkMigWorld (mg_mem w) (mg_log w ++ [e]) (mg_glitches w)).

(** A read that times out while there are glitches left. *)
Definition glitchy {A} (f : MigWorld -> A) : M MigWorld A := fun w =>
  match mg_glitches w with
  | O => (Ok (f w), w)
  | S n => (Throw DatabaseTimeout, mkMigWorld (mg_mem w) (mg_log w) n)
  end.

#[export] Instance MigBackend (h : history) : BackendImpl MigWorld := {|
  cache_ := fun w => mw_cache (mg_mem w);
  set_cache := fun c w => mkMigWorld (set_cache (BackendImpl := MemBackend h) c (mg_mem w)) (mg_log w) (mg_glitches w);
  range := fun w => mw_range (mg_mem w);
  set_range := fun r w => mkMigWorld (set_range (BackendImpl := MemBackend h) r (mg_mem w)) (mg_log w) (mg_glitches w);
  doFetchLedgerObject := fun k s => glitchy (fun _ => L h s !! k);
  doFetchLedgerObjects := fun ks s => glitchy (fun _ => (fun k => default [] (L h s !! k)) <$> ks);
  doFetchSuccessorKey := fun k s => glitchy (fun _ => next_key (L h s) k);
  hardFetchLedgerRange := glitchy (fun w => mw_range (mg_mem w));
  doFinishWrites := mret true;
  doWriteLedgerObject := fun _ _ _ => mret tt
|}.

(** The last record written for a token. *)
Definition last_record (id : uint256) (evs : list Event) : option NFT :=
  (fun p => mkNFT id (nd_ledgerSequence p.2) (nd_owner p.2) (default [] (nd_uri p.2)) (nd_isBurned p.2))
    <$> list_find (fun d => nd_tokenID d = id) (reverse (written evs)).

Definition page_cells (p : list uint256) : list (option Blob) :=
  map (fun k => Some (uint256_bytes k)) p.

Definition MigDb (h : history) (txdb : uint256 -> TransactionAndMetadata)
    (pages : list (list uint256)) : MigratorDb MigWorld := {|
  md_backend := MigBackend h;
  fetchTransactions := fun hs => glitchy (fun _ => map txdb hs);
  fetchNFT := fun id _ => glitchy (fun w => last_record id (mg_log w));
  writeNFTs := fun d => mg_emit (EWrite d);
  sync := mg_emit ESync;
  tablePrefix := "";
  CassStatement := string * nat;
  CassResult := list (option Blob) * nat;
  cass_statement_new := fun s => (s, 0%nat);
  cass_statement_set_paging_size := fun s _ => s;
  cass_statement_set_paging_state := fun s r => (s.1, S r.2);
  cass_execute := fun s w => (Ok (option_map (fun p => (page_cells p, s.2)) (pages !! s.2)), w);
  cass_execute_ok := fun s w =>
    if decide (s.1 = "DROP TABLE issuer_nf_tokens")%string
    then (Ok true, (mg_emit EDrop w).2) else (Ok false, w);
  cass_result_column0 := fst;
  cass_result_has_more_pages := fun r => (S r.2 <? length pages)%nat;
  timer_wait := fun _ => mret tt
|}.

Definition mig_ok (h : history) (r : option LedgerRange) (w : MigWorld) : Prop :=
  cache_reachable h (mg_mem w) /\ mw_range (mg_mem w) = r.

Lemma glitchy_log {A} (f : MigWorld -> A) h r evs :
  triple (fun w => mg_log w = evs /\ mig_ok h r w) (glitchy f)
    (fun a w => a = f w /\ mg_log w = evs /\ mig_ok h r w)
    (fun e w => e = DatabaseTimeout /\ mg_log w = evs /\ mig_ok h r w).
Proof. intros [m l [|n]] [Hl Hok]; simpl; [done|]. by split. Qed.

#[export] Instance MigReads h r evs :
  ReadLaws (H := MigBackend h) (L h) (fun w => mg_log w = evs /\ mig_ok h r w)
    (fun e w => e = DatabaseTimeout /\ mg_log w = evs /\ mig_ok h r w).
Proof.
  pose proof (MemLaws h) as HM.
  split.
  - apply L_nonempty.
  - apply L_valid.
  - intros w k s b (_ & Hr & _). by apply (rl_get (ReadLaws := HM)).
  - intros w k s o (_ & Hr & _). by apply (rl_succ (ReadLaws := HM)).
  - intros w k s (Hl & Hr & Hg). split; [done|]. split; [|done].
    by apply (rl_set_get (ReadLaws := HM) (mg_mem w)).
  - intros w k s (Hl & Hr & Hg). split; [done|]. split; [|done].
    by apply (rl_set_succ (ReadLaws := HM) (mg_mem w)).
  - intros k s _. apply glitchy_log.
  - intros ks s _. apply glitchy_log.
  - intros k s _. apply glitchy_log.
Qed.

Lemma page_hashes_bytes h txdb pages p i :
  Forall valid_key p -> page_hashes (H := MigDb h txdb pages) (page_cells p, i) = Ok p.
Proof. apply cells_hashes. Qed.

#[export] Instance MigLaws `{Ripple} h txdb r pages :
  pages <> [] -> Forall (Forall (fun k => 0 <= k < 2 ^ 256)) pages ->
  MigratorLaws (H := MigDb h txdb pages) (L h) txdb r pages (fun _ => True)
    (fun evs w => mg_log w = evs /\ mig_ok h r w) (fun e => e = DatabaseTimeout) mg_glitches (fun q ps => ps = drop q.2 pages).
Proof.
  intros Hne Hp. split.
  - intros evs. apply MigReads.
  - intros evs n [m l [|g]] ((Hl & Hr & Hrng) & Hn); simpl in *; [done|]. split; [by split_and! | lia].
  - intros evs hs. apply glitchy_log.
  - done.
  - done.
  - intros evs d _ [m l g] [<- Hok]. simpl. split; [by rewrite <- app_assoc | done].
  - intros evs [m l g] [<- Hok]. by split.
  - intros evs s w Hw. exact Hw.
  - done.
  - done.
  - intros evs [q i] p ps Hps w Hw. simpl in *.
    assert (pages !! i = Some p) as Hi by (rewrite <- (Nat.add_0_r i), <- lookup_drop, <- Hps; done).
    rewrite Hi. simpl. split; [|done]. right. eexists. split; [done|].
    assert (drop (S i) pages = ps) as Hd.
    { rewrite <- Nat.add_1_r, <- drop_drop, <- Hps. done. }
    split_and!; [| | done].
    + apply page_hashes_bytes. rewrite Forall_forall in Hp. apply Hp. by eapply list_elem_of_lookup_2.
    + rewrite Nat.ltb_lt, <- Hd. simpl. pose proof (length_drop pages (S i)) as Hlen.
      destruct (drop (S i) pages); cbn [length] in Hlen; split; intros; [exfalso; lia | done | done | lia].
  - intros evs [m l g] [<- Hok]. simpl. by split.
Qed.

Section samples.

(** A mint in ledger 100 and a payment after the range; one NFT page in the
    first ledger. *)
#[local] Instance SampleRipple : Ripple :=
  TreeRipple (fun b => Ok (if decide (b = [1]) then mint_tx
                           else mkTreeTx (ttOTHER 0) 556 (mkObj sfNewFields [])))
             (fun _ _ _ => Ok mint_meta)
             (parseSLE (Ripple := NFTHelpers.SampleRipple)).

Definition mig_L (s : Z) : gmap Z Blob :=
  <[3 * 2 ^ 96 + 5 := [ltNFTOKEN_PAGE; 11; 12]]> (<[20 := [1; 2; 3]]> ∅).

#[local] Instance SampleTotal : RippleTotal.
Proof.
  apply TreeTotal; [intros b; by case_decide | done |]. intros b k. cbn. by repeat case_match.
Qed.

Lemma mig_L_nonempty s k b : mig_L s !! k = Some b -> b <> [].
Proof.
  unfold mig_L. intros [[_ <-]|[_ [[_ <-]|[_ Hk]]%lookup_insert_Some]]%lookup_insert_Some; done.
Qed.

Lemma mig_L_valid s k b : mig_L s !! k = Some b -> valid_key k.
Proof.
  unfold mig_L, valid_key.
  intros [[<- _]|[_ [[<- _]|[_ Hk]]%lookup_insert_Some]]%lookup_insert_Some; [lia | lia | done].
Qed.

Definition mig_history : history := mkHistory mig_L 5 ltac:(done) mig_L_nonempty mig_L_valid.
Definition mig_range : LedgerRange := mkLedgerRange 90 100.
Definition mig_txdb (k : uint256) : TransactionAndMetadata :=
  mkTransactionAndMetadata [if k =? 7 then 1 else 0] [] (if k =? 9 then 101 else 100) 0.
Definition mig_pages : list (list uint256) := [[7; 8]; [9]].
Definition mig_world : MigWorld := mkMigWorld (mkMemWorld SimpleCache_init (Some mig_range)) [] 2.
Definition mig_db : MigratorDb MigWorld := MigDb mig_history mig_txdb mig_pages.

Lemma mig_world_ok : mig_ok mig_history (Some mig_range) mig_world.
Proof. split; [|done]. exists ∅. apply rtc_refl. Qed.

Lemma mig_laws :
  MigratorLaws (H := mig_db) mig_L mig_txdb (Some mig_range) mig_pages (fun _ => True)
    (fun evs w => mg_log w = evs /\ mig_ok mig_history (Some mig_range) w) (fun e => e = DatabaseTimeout) mg_glitches
    (fun q ps => ps = drop q.2 mig_pages).
Proof. apply (MigLaws mig_history); [done|]. repeat constructor; lia. Qed.

Definition mig_written : list NFTsData :=
  [mkNFTsData 7 100 (Some 4) 3 (Some [104; 105]) false;
   mkNFTsData 11 90 None 3 (Some [11; 11]) false;
   mkNFTsData 12 90 None 3 (Some [12; 12]) false].

(** With two timeouts on the way the migration ends with the three records
    written and the table dropped. *)
Lemma doMigration_spec_witness :
  exists w l1 l2 evs', doMigration (H := mig_db) 3 mig_world = (Ok tt, w) /\
    mg_log w = evs' ++ [EDrop; ESync] /\ written evs' = l1 ++ l2 /\ l1 ++ l2 = mig_written.
Proof.
  assert (Hrun : (doMigration (H := mig_db) 3 mig_world).1 = Ok tt) by (vm_compute; reflexivity).
  assert (Hpat : (mg_glitches mig_world < 3)%nat) by (simpl; lia).
  pose proof (doMigration_spec (MD := mig_db) (ML := mig_laws) [] 3 ltac:(simpl; lia)
    ltac:(intros r [= <-]; split_and!; vm_compute; done)
    mig_world (conj (conj eq_refl mig_world_ok) Hpat)) as Ht.
  destruct (doMigration (H := mig_db) 3 mig_world) as [o w]. simpl in Hrun. subst o.
  destruct Ht as (l1 & l2 & evs' & H1 & H2 & _ & _ & _ & Hw & Hlog & _).
  exists w, l1, l2, evs'. split; [reflexivity|]. split; [exact Hlog|]. split; [exact Hw|].
  vm_compute in H1. injection H1 as <-. vm_compute in H2. injection H2 as <-. reflexivity.
Defined.

Lemma doTry_retries_witness :
  exists w, doTry (H := mig_db) (hardFetchLedgerRange (BackendImpl := MigBackend mig_history))
              MAX_RETRIES mig_world = (Ok (Some mig_range), w) /\ mg_glitches w = 0%nat.
Proof.
  eexists. split.
  - eapply (doTry_retries (H := mig_db) _ 2); [unfold MAX_RETRIES; lia | by vm_compute | by vm_compute | by left].
  - by vm_compute.
Defined.

End samples.
