(* ===== verification/Verifier.v ===== *)
(** * The verifier

    [src/src/main/verify.cpp]: reads every NFT page of the last ledger back and
    compares the URI of each token with the record the migrator wrote. The retry
    wrappers are the ones of [Migration]; a run writes nothing. *)

From stdpp Require Import base list gmap strings sorting.
From Stdlib Require Import ZArith Lia.
From S2P Require Import Prelude Types TreeRipple SimpleCache Backend NFTHelpers Migration.

Open Scope Z_scope.

Definition MIN_VERIFICATION_BATCH : Z := 2000.

Section verifier.
Context `{MigratorDb W} `{Ripple}.
(** [ripple::strHex] *)
Context (strHex : Blob -> string).

Definition verify_doTryFetchLedgerPage (cursor : option uint256) (sequence : Z) : M W LedgerPage :=
  doTry (fetchLedgerPage cursor sequence 2000 false) MAX_RETRIES.

Definition doTryGetNFT (nftID : uint256) (seq : Z) : M W (option NFT) :=
  doTry (fetchNFT nftID seq) MAX_RETRIES.

(** The comparison of the record found for a token. *)
Definition checkNFT (nft : NFTsData) (writtenNFT : option NFT) : Res unit :=
  match writtenNFT with
  | None => Throw (RuntimeError "NFT was not written!")
  | Some w =>
      let writtenUriStr := strHex (nft_uri w) in
      let oldUriStr := match nd_uri nft with Some u => strHex u | None => "" end in
      if negb (bool_decide (oldUriStr = writtenUriStr))
      then Throw (RuntimeError "Failed to match!") else Ok tt
  end.

Fixpoint verify_loop (seq : Z) (nfts : list NFTsData) : M W unit :=
  match nfts with
  | [] => mret tt
  | nft :: nfts' =>
      writtenNFT ← doTryGetNFT (nd_tokenID nft) seq;
      lift_res (checkNFT nft writtenNFT) ≫= fun _ => verify_loop seq nfts'
  end.

Definition verifyNFTs (seq : Z) (nfts : list NFTsData) : M W (list NFTsData) :=
  if (length nfts =? 0)%nat then mret nfts
  else verify_loop seq nfts ≫= fun _ => mret [].

Definition maybeVerifyNFTs (seq : Z) (nfts : list NFTsData) : M W (list NFTsData) :=
  if Z.of_nat (length nfts) <? MIN_VERIFICATION_BATCH then mret nfts else verifyNFTs seq nfts.

(** The do-while loop over the pages of the last ledger. *)
Fixpoint verification_loop (fuel : nat) (seq : Z) (cursor : option uint256)
    (toVerify : list NFTsData) : M W (list NFTsData) :=
  match fuel with
  | O => no_fuel
  | S fuel' =>
      page ← verify_doTryFetchLedgerPage cursor seq;
      nfts ← lift_res (objects_nfts seq (page_objects page));
      toVerify ← maybeVerifyNFTs seq (toVerify ++ nfts);
      match page_cursor page with
      | Some c => verification_loop fuel' seq (Some c) toVerify
      | None => mret toVerify
      end
  end.

Definition doVerification (fuel : nat) : M W unit :=
  ledgerRange ← hardFetchLedgerRangeNoThrow fuel;
  match ledgerRange with
  | None => mret tt
  | Some r =>
      toVerify ← verification_loop fuel (maxSequence r) None [];
      verifyNFTs (maxSequence r) toVerify ≫= fun _ => mret tt
  end.

End verifier.

(** The contract of the reads: the ledger history [Ldg], the range [rng], the
    record [stored] of a token as of a ledger, and [J] kept throughout. *)
Class VerifierLaws `{MigratorDb W} (Ldg : Z -> gmap Z Blob) (rng : option LedgerRange)
    (stored : uint256 -> Z -> option NFT) (J : W -> Prop) (Ex : Exn -> Prop)
    (patience : W -> nat) := {
  vl_reads :: ReadLaws Ldg J (fun e w => Ex e /\ J w);
  vl_range : forall n,
    triple (fun w => J w /\ (patience w < S n)%nat) hardFetchLedgerRange
      (fun r w => r = rng /\ J w)
      (fun e w => J w /\ if decide (e = DatabaseTimeout) then (patience w < n)%nat else Ex e);
  vl_nft : forall id seq,
    triple J (fetchNFT id seq) (fun r w => r = stored id seq /\ J w) (fun e w => Ex e /\ J w);
  vl_wait : forall s, triple J (timer_wait s) (fun _ => J) noexn
}.

Section verifier_specs.
Context `{MD : MigratorDb W} `{R : Ripple} `{RT : !RippleTotal}.
Context (strHex : Blob -> string).
Context {Ldg : Z -> gmap Z Blob} {rng : option LedgerRange}
  {stored : uint256 -> Z -> option NFT} {J : W -> Prop} {Ex : Exn -> Prop} {patience : W -> nat}.
Context `{VL : !VerifierLaws Ldg rng stored J Ex patience}.

(** A token's URI as the verifier prints it. *)
Definition uri_text (uri : option Blob) : string :=
  match uri with Some u => strHex u | None => "" end.

(** A token's record is there with the token's URI. *)
Definition verified (seq : Z) (d : NFTsData) : Prop :=
  exists n, stored (nd_tokenID d) seq = Some n /\ strHex (nft_uri n) = uri_text (nd_uri d).

(** A token's record is missing, or has another URI, and the error that says so. *)
Definition mismatch (seq : Z) (d : NFTsData) (e : Exn) : Prop :=
  (stored (nd_tokenID d) seq = None /\ e = RuntimeError "NFT was not written!") \/
  (exists n, stored (nd_tokenID d) seq = Some n /\ strHex (nft_uri n) <> uri_text (nd_uri d) /\
     e = RuntimeError "Failed to match!").

Lemma checkNFT_spec seq d :
  match checkNFT strHex d (stored (nd_tokenID d) seq) with
  | Ok _ => verified seq d
  | Throw e => mismatch seq d e
  | NoFuel => False
  end.
Proof.
  unfold checkNFT, verified, mismatch. destruct (stored _ _) as [n|]; [|by left].
  fold (uri_text (nd_uri d)). case_bool_decide; simpl; [by eauto|].
  right. exists n. split_and!; congruence.
Qed.

(** Why a verification fails: a read, a page that does not parse, or a token of
    the ledger whose record is missing or differs. *)
Definition verification_fails (seq : Z) (parsed : Res (list NFTsData)) (e : Exn) : Prop :=
  Ex e \/ parsed = Throw e \/
  exists d, ledger_token seq (Ldg seq) d /\ mismatch seq d e.

Lemma verify_loop_spec seq parsed nfts :
  Forall (ledger_token seq (Ldg seq)) nfts ->
  triple J (verify_loop strHex seq nfts)
    (fun _ w => Forall (verified seq) nfts /\ J w)
    (fun e w => verification_fails seq parsed e /\ J w).
Proof.
  induction 1 as [|d nfts Hd Hall IH]; [by apply triple_ret|]. simpl.
  eapply triple_bind.
  { eapply triple_conseq; [apply (doTry_triple J Ex); [apply vl_wait | apply vl_nft] | done | done |].
    intros e w [He Hw]. split; [by left | done]. }
  intros r. apply triple_pre_pure; intros ->.
  pose proof (checkNFT_spec seq d) as Hc. apply triple_lift_bind.
  - intros Hn. by rewrite Hn in Hc.
  - intros e w He Hw. rewrite He in Hc. split; [|done]. right; right. by exists d.
  - intros [] Hok. rewrite Hok in Hc. eapply triple_conseq; [exact IH | done | | done].
    intros u w [Hv Hw]. split; [|done]. by constructor.
Qed.

Lemma verifyNFTs_spec seq parsed nfts :
  Forall (ledger_token seq (Ldg seq)) nfts ->
  triple J (verifyNFTs strHex seq nfts)
    (fun r w => r = [] /\ Forall (verified seq) nfts /\ J w)
    (fun e w => verification_fails seq parsed e /\ J w).
Proof.
  intros Hall. unfold verifyNFTs. destruct (length nfts =? 0)%nat eqn:Hl.
  - apply Nat.eqb_eq, nil_length_inv in Hl as ->. by apply triple_ret.
  - eapply triple_bind; [by apply (verify_loop_spec seq parsed)|]. intros ?. by apply triple_ret.
Qed.

Lemma maybeVerifyNFTs_spec seq parsed nfts :
  Forall (ledger_token seq (Ldg seq)) nfts ->
  triple J (maybeVerifyNFTs strHex seq nfts)
    (fun r w => Forall (ledger_token seq (Ldg seq)) r /\
       (Forall (verified seq) r -> Forall (verified seq) nfts) /\ J w)
    (fun e w => verification_fails seq parsed e /\ J w).
Proof.
  intros Hall. unfold maybeVerifyNFTs. destruct (_ <? _); [by apply triple_ret|].
  eapply triple_conseq; [by apply (verifyNFTs_spec seq parsed) | done | | done].
  intros r w (-> & Hv & Hw). by split_and!.
Qed.

Lemma verification_loop_spec seq fuel cursor tv :
  (forall k, cursor = Some k -> is_Some (Ldg seq !! k)) ->
  Z.of_nat (length (keys_from (Ldg seq) cursor)) < Z.of_nat fuel * 2000 ->
  let parsed := objects_nfts seq (object_at (Ldg seq) <$> keys_from (Ldg seq) cursor) in
  parsed <> NoFuel -> Forall (ledger_token seq (Ldg seq)) tv ->
  triple J (verification_loop strHex fuel seq cursor tv)
    (fun tv' w => Forall (ledger_token seq (Ldg seq)) tv' /\ (exists l, parsed = Ok l /\
       (Forall (verified seq) tv' -> Forall (verified seq) (tv ++ l))) /\ J w)
    (fun e w => verification_fails seq parsed e /\ J w).
Proof.
  revert cursor tv. induction fuel as [|fuel IH]; intros cursor tv Hc Hf parsed Hp Htv; [lia|].
  subst parsed. cbn [verification_loop]. eapply triple_bind.
  { eapply triple_conseq; [apply (doTry_triple J Ex); [apply vl_wait|] | done | done |].
    - by apply (fetchLedgerPage_chunk cursor seq 2000).
    - intros e w [He Hw]. split; [by left | done]. }
  intros p. apply triple_pre_pure; intros Ho. apply triple_pre_pure; intros Hcur. rewrite Ho.
  assert (forall k, k ∈ take (Z.to_nat 2000) (keys_from (Ldg seq) cursor) -> is_Some (Ldg seq !! k)) as Hin.
  { intros k Hk. eapply keys_after_elem. by eapply subseteq_take. }
  pose proof (objects_nfts_app seq (object_at (Ldg seq) <$> take (Z.to_nat 2000) (keys_from (Ldg seq) cursor))
    (object_at (Ldg seq) <$> drop (Z.to_nat 2000) (keys_from (Ldg seq) cursor))) as Hsplit.
  rewrite <- fmap_app, take_drop in Hsplit. rewrite Hsplit in Hp |- *. clear Hsplit.
  apply triple_lift_bind; [by intros Hn; rewrite Hn in Hp | |].
  { intros e w He Hw. split; [|done]. right; left. by rewrite He. }
  intros l1 Hl1. rewrite Hl1 in Hp |- *. cbn [mbind Res_bind] in Hp |- *.
  eapply triple_bind.
  { apply maybeVerifyNFTs_spec. apply Forall_app. split; [done|].
    by eapply keys_objects_elem. }
  intros tv1. apply triple_pre_pure; intros Htv1. apply triple_pre_pure; intros Hdone.
  destruct (page_cursor p) as [c|].
  - destruct Hcur as (Hk & Hrest & Hlen). rewrite <- Hrest in *.
    eapply triple_conseq.
    + apply (IH (Some c) tv1); [by intros k [= <-] | | by intros Hn; rewrite Hn in Hp | done].
      rewrite Hrest, length_drop. lia.
    + done.
    + intros tv' w (Htv' & (l & Hl & Hv) & Hw). split; [done|]. split; [|done].
      rewrite Hl. eexists; split; [done|]. intros Hall. apply Hv, Forall_app in Hall as [H1 H2].
      rewrite app_assoc. apply Forall_app. auto.
    + intros e w [[?|[Ht|?]] Hw]; (split; [|done]); [by left | right; left; by rewrite Ht | by right; right].
  - rewrite (drop_ge (keys_from (Ldg seq) cursor)) by lia. apply triple_ret. intros w Hw.
    split; [done|]. split; [|done]. eexists; split; [done|]. by rewrite app_nil_r.
Qed.

Lemma verify_range_spec fuel :
  triple (fun w => J w /\ (patience w < fuel)%nat) (hardFetchLedgerRangeNoThrow fuel)
    (fun r w => r = rng /\ J w) (fun e w => Ex e /\ J w).
Proof. apply (retryOnTimeout_triple J Ex patience). apply vl_range. Qed.

(** The verification, over the list of the ledger's records. *)
Lemma doVerification_triple (fuel : nat) :
  (forall r, rng = Some r ->
     Z.of_nat (size (Ldg (maxSequence r))) < Z.of_nat fuel * 2000) ->
  triple (fun w => J w /\ (patience w < fuel)%nat) (doVerification strHex fuel)
    (fun _ w => (forall r, rng = Some r -> exists l,
         ledger_nfts (maxSequence r) (Ldg (maxSequence r)) = Ok l /\
         Forall (verified (maxSequence r)) l) /\ J w)
    (fun e w => (Ex e \/ exists r, rng = Some r /\
         verification_fails (maxSequence r)
           (ledger_nfts (maxSequence r) (Ldg (maxSequence r))) e) /\ J w).
Proof.
  intros Hr. unfold doVerification. eapply triple_bind.
  { eapply triple_conseq; [apply (verify_range_spec fuel) | done | done |].
    intros e w [He Hw]. split; [by left | done]. }
  intros r'. apply triple_pre_pure; intros ->.
  assert (rng = None \/ exists r, rng = Some r) as [Hrng|[r Hrng]] by (destruct rng; eauto);
    rewrite Hrng; [by apply triple_ret|].
  pose proof (Hr r Hrng) as Hsize.
  pose proof (ledger_nfts_total (maxSequence r) (Ldg (maxSequence r))) as Hp. eapply triple_bind.
  { eapply triple_conseq; [apply (verification_loop_spec (maxSequence r) fuel None []) | done | done |];
      [done | | done | constructor |].
    - pose proof (keys_after_size (Ldg (maxSequence r)) firstKey (size (Ldg (maxSequence r)))).
      unfold keys_from. simpl. lia.
    - intros e w [He Hw]. split; [right; eauto | done]. }
  intros tv. apply triple_pre_pure; intros Htv.
  intros w [(l & Hl & Hv) Hw]. revert w Hw. eapply (triple_bind _ _ _ (fun _ w => Forall (verified (maxSequence r)) tv /\ J w)).
  { eapply triple_conseq; [apply (verifyNFTs_spec (maxSequence r)); exact Htv | done | |].
    - by intros a w (_ & H1 & H2).
    - intros e w [He Hw]. split; [right; eauto | done]. }
  intros ?. apply triple_pre_pure; intros Hall. apply triple_ret. intros w Hw. split; [|done].
  intros r' [= <-]. exists l. split; [done | by apply Hv].
Qed.

(** C3: a verification ends normally only when every token of every NFT page
    of the last ledger has a stored record whose URI prints as the token's (an
    absent URI as the empty string); it stops only on a failing read, a page
    that does not parse, or a token of that ledger without such a record. With
    no range there is nothing to verify. Fuel above a two-thousandth of the
    ledger's objects is enough. *)
Theorem doVerification_spec (fuel : nat) :
  (forall r, rng = Some r ->
     Z.of_nat (size (Ldg (maxSequence r))) < Z.of_nat fuel * 2000 /\
     Ldg (maxSequence r) !! firstKey = None) ->
  triple (fun w => J w /\ (patience w < fuel)%nat) (doVerification strHex fuel)
    (fun _ w => (forall r, rng = Some r ->
         (exists l, ledger_nfts (maxSequence r) (Ldg (maxSequence r)) = Ok l) /\
         forall d, ledger_token (maxSequence r) (Ldg (maxSequence r)) d ->
           verified (maxSequence r) d) /\ J w)
    (fun e w => (Ex e \/ exists r, rng = Some r /\
         verification_fails (maxSequence r)
           (ledger_nfts (maxSequence r) (Ldg (maxSequence r))) e) /\ J w).
Proof.
  intros Hr. eapply triple_conseq; [by apply (doVerification_triple fuel); intros r Hrng; apply Hr | done | | done].
  intros ? w [Hv Hw]. split; [|done]. intros r Hrng. destruct (Hv r Hrng) as (l & Hl & Hall).
  split; [by exists l|]. intros d Hd. rewrite Forall_forall in Hall. destruct (Hr r Hrng) as [_ Hzero].
  apply Hall, (ledger_nfts_elem (maxSequence r) (Ldg (maxSequence r)) l); [|done | exact Hl | done].
  intros j [b Hb]. eapply rl_valid, Hb.
Qed.

End verifier_specs.

(** ** The in-memory database of [Migration] satisfies the contract *)

#[export] Instance MigVerifierLaws h txdb r pages evs :
  VerifierLaws (H := MigDb h txdb pages) (L h) r (fun id _ => last_record id evs)
    (fun w => mg_log w = evs /\ mig_ok h r w) (fun e => e = DatabaseTimeout) mg_glitches.
Proof.
  split.
  - apply MigReads.
  - intros n [m l [|g]] ((Hl & Hr & Hrng) & Hn); simpl in *; [by split|].
    split; [by split_and! | lia].
  - intros id seq. eapply triple_conseq; [apply (glitchy_log _ h r evs) | done | | done].
    intros a w (-> & Hl & Hok). split; [by rewrite Hl | done].
  - intros s w Hw. exact Hw.
Qed.

Section samples.

#[local] Existing Instance Migration.SampleRipple.

(** The two digits of a byte, most significant first. *)
Definition hex_digit (z : Z) : Ascii.ascii :=
  Ascii.ascii_of_N (Z.to_N (if z <? 10 then 48 + z else 55 + z)).
Definition sample_strHex (b : Blob) : string :=
  foldr (fun z s => String (hex_digit (Z.shiftr z 4)) (String (hex_digit (Z.land z 15)) s)) "" b.

Definition migrated_world (recs : list NFTsData) : MigWorld :=
  mkMigWorld (mkMemWorld SimpleCache_init (Some mig_range)) [EWrite recs; ESync] 2.

Lemma migrated_world_ok recs : mig_ok mig_history (Some mig_range) (migrated_world recs).
Proof. split; [|done]. exists ∅. apply rtc_refl. Qed.

(** The world the migration leaves verifies; one whose last record lost its URI
    does not. *)
Lemma doVerification_spec_witness :
  exists l, ledger_nfts 100 (mig_L 100) = Ok l /\ length l = 2%nat /\
    forall d, ledger_token 100 (mig_L 100) d ->
      verified sample_strHex (stored := fun id _ => last_record id [EWrite mig_written; ESync]) 100 d.
Proof.
  assert (Hrun : (doVerification (H := mig_db) sample_strHex 3 (migrated_world mig_written)).1 = Ok tt)
    by (vm_compute; reflexivity).
  assert (Hpat : (mg_glitches (migrated_world mig_written) < 3)%nat) by (simpl; lia).
  pose proof (doVerification_spec (MD := mig_db) (RT := Migration.SampleTotal) sample_strHex
    (VL := MigVerifierLaws mig_history mig_txdb (Some mig_range) mig_pages [EWrite mig_written; ESync]) 3
    ltac:(intros r [= <-]; split; vm_compute; done)
    (migrated_world mig_written) (conj (conj eq_refl (migrated_world_ok _)) Hpat)) as Ht.
  destruct (doVerification (H := mig_db) sample_strHex 3 (migrated_world mig_written)) as [o w].
  simpl in Hrun. subst o. destruct Ht as [Hv _]. destruct (Hv mig_range eq_refl) as ((l & Hl) & Hall).
  exists l. split; [exact Hl|]. split; [|exact Hall]. vm_compute in Hl. injection Hl as <-. reflexivity.
Defined.

Example verification_detects :
  (doVerification (H := mig_db) sample_strHex 3 (migrated_world (take 2 mig_written))).1 =
    Throw (RuntimeError "NFT was not written!") /\
  (doVerification (H := mig_db) sample_strHex 3
     (migrated_world (mig_written ++ [mkNFTsData 12 91 None 3 (Some []) false]))).1 =
    Throw (RuntimeError "Failed to match!").
Proof. split; vm_compute; reflexivity. Qed.

End samples.
