(* ===== verification/Cql.v ===== *)
(** * The Cassandra driver wrappers

    [src/src/backend/CassandraBackend.h] up to the class [CassandraBackend]:
    prepared statements, statements with their bound values, results with their
    getters, [isTimeout]; and the texts [CassandraBackend::open] prepares and
    executes. The driver ([cassandra.h]) is the class [CassApi]. *)

From stdpp Require Import base list gmap strings pretty.
From Stdlib Require Import ZArith Lia.
From S2P Require Import Prelude Types.

Open Scope Z_scope.

(** The error codes the code distinguishes. *)
Inductive CassError :=
| CASS_OK
| CASS_ERROR_LIB_NO_HOSTS_AVAILABLE
| CASS_ERROR_LIB_REQUEST_TIMED_OUT
| CASS_ERROR_SERVER_UNAVAILABLE
| CASS_ERROR_SERVER_OVERLOADED
| CASS_ERROR_SERVER_READ_TIMEOUT
| CASS_ERROR_SERVER_INVALID_QUERY
| CASS_ERROR_OTHER (code : Z).

#[export] Instance CassError_eq_dec : EqDecision CassError.
Proof. solve_decision. Defined.

Definition isTimeout (rc : CassError) : bool :=
  match rc with
  | CASS_ERROR_LIB_NO_HOSTS_AVAILABLE | CASS_ERROR_LIB_REQUEST_TIMED_OUT
  | CASS_ERROR_SERVER_UNAVAILABLE | CASS_ERROR_SERVER_OVERLOADED
  | CASS_ERROR_SERVER_READ_TIMEOUT => true
  | _ => false
  end.

(** Values bound to statements and read from rows. *)
Inductive Value :=
| CBytes (b : Blob)
| CInt64 (z : Z)
| CInt32 (z : Z)
| CBool (b : bool)
| CTuple (a b : Z).

#[export] Instance Value_eq_dec : EqDecision Value.
Proof. solve_decision. Defined.

Definition Row : Type := list Value.

(** The prepared statements of [CassandraBackend] that [open] prepares. *)
Inductive Prepared :=
| insertObject_ | insertTransaction_ | insertLedgerTransaction_ | insertSuccessor_
| insertDiff_ | selectSuccessor_ | selectDiff_ | selectObject_ | selectTransaction_
| selectAllTransactionHashesInLedger_ | selectLedgerPageKeys_ | selectLedgerPage_
| getToken_ | insertAccountTx_ | selectAccountTx_ | selectAccountTxForward_
| insertNFT_ | selectNFT_ | insertIssuerNFT_ | insertNFTURI_ | selectNFTURI_
| insertNFTTx_ | selectNFTTx_ | selectNFTTxForward_ | insertLedgerHeader_
| insertLedgerHash_ | selectLedgerByHash_ | updateLedgerRange_ | deleteLedgerRange_
| selectLedgerBySeq_ | selectLatestLedger_ | selectLedgerRange_.

#[export] Instance Prepared_eq_dec : EqDecision Prepared.
Proof. solve_decision. Defined.

(** In the order [open] prepares them. *)
Definition prepared_order : list Prepared :=
  [insertObject_; insertTransaction_; insertLedgerTransaction_; insertSuccessor_;
   insertDiff_; selectSuccessor_; selectDiff_; selectObject_; selectTransaction_;
   selectAllTransactionHashesInLedger_; selectLedgerPageKeys_; selectLedgerPage_;
   getToken_; insertAccountTx_; selectAccountTx_; selectAccountTxForward_;
   insertNFT_; selectNFT_; insertIssuerNFT_; insertNFTURI_; selectNFTURI_;
   insertNFTTx_; selectNFTTx_; selectNFTTxForward_; insertLedgerHeader_;
   insertLedgerHash_; selectLedgerByHash_; updateLedgerRange_; deleteLedgerRange_;
   selectLedgerBySeq_; selectLatestLedger_; selectLedgerRange_].

(** The texts of the ledger and transaction statements; [tp] is the table prefix. *)
Definition ledger_query (tp : string) (p : Prepared) : option string :=
  match p with
  | insertObject_ => Some ("INSERT INTO " +:+ tp +:+ "objects" +:+
      " (key, sequence, object) VALUES (?, ?, ?)")
  | insertTransaction_ => Some ("INSERT INTO " +:+ tp +:+ "transactions" +:+
      " (hash, ledger_sequence, date, transaction, metadata) VALUES " +:+ "(?, ?, ?, ?, ?)")
  | insertLedgerTransaction_ => Some ("INSERT INTO " +:+ tp +:+ "ledger_transactions" +:+
      " (ledger_sequence, hash) VALUES " +:+ "(?, ?)")
  | insertSuccessor_ => Some ("INSERT INTO " +:+ tp +:+ "successor" +:+
      " (key,seq,next) VALUES (?, ?, ?)")
  | insertDiff_ => Some ("INSERT INTO " +:+ tp +:+ "diff" +:+ " (seq,key) VALUES (?, ?)")
  | selectSuccessor_ => Some ("SELECT next FROM " +:+ tp +:+ "successor" +:+
      " WHERE key = ? AND seq <= ? ORDER BY seq DESC LIMIT 1")
  | selectDiff_ => Some ("SELECT key FROM " +:+ tp +:+ "diff" +:+ " WHERE seq = ?")
  | selectObject_ => Some ("SELECT object, sequence FROM " +:+ tp +:+ "objects" +:+
      " WHERE key = ? AND sequence <= ? ORDER BY sequence DESC " +:+ "LIMIT 1")
  | selectTransaction_ => Some ("SELECT transaction, metadata, ledger_sequence, date FROM " +:+
      tp +:+ "transactions" +:+ " WHERE hash = ?")
  | selectAllTransactionHashesInLedger_ => Some ("SELECT hash FROM " +:+ tp +:+
      "ledger_transactions" +:+ " WHERE ledger_sequence = ?")
  | selectLedgerPageKeys_ => Some ("SELECT key FROM " +:+ tp +:+ "objects " +:+
      " WHERE TOKEN(key) >= ? and sequence <= ? " +:+ " PER PARTITION LIMIT 1 LIMIT ?" +:+
      " ALLOW FILTERING")
  | selectLedgerPage_ => Some ("SELECT object,key FROM " +:+ tp +:+ "objects " +:+
      " WHERE TOKEN(key) >= ? and sequence <= ? " +:+
      " PER PARTITION LIMIT 1 LIMIT ? ALLOW FILTERING")
  | getToken_ => Some ("SELECT TOKEN(key) FROM " +:+ tp +:+ "objects " +:+
      " WHERE key = ? LIMIT 1")
  | insertAccountTx_ => Some (" INSERT INTO " +:+ tp +:+ "account_tx" +:+
      " (account, seq_idx, hash) " +:+ " VALUES (?,?,?)")
  | selectAccountTx_ => Some (" SELECT hash,seq_idx FROM " +:+ tp +:+ "account_tx" +:+
      " WHERE account = ? " +:+ " AND seq_idx < ? LIMIT ?")
  | selectAccountTxForward_ => Some (" SELECT hash,seq_idx FROM " +:+ tp +:+ "account_tx" +:+
      " WHERE account = ? " +:+ " AND seq_idx >= ? ORDER BY seq_idx ASC LIMIT ?")
  | _ => None
  end.

(** The texts of the NFT, header and range statements. *)
Definition nft_query (tp : string) (p : Prepared) : option string :=
  match p with
  | insertNFT_ => Some ("INSERT INTO " +:+ tp +:+ "nf_tokens" +:+
      " (token_id,sequence,owner,is_burned)" +:+ " VALUES (?,?,?,?)")
  | selectNFT_ => Some ("SELECT sequence,owner,is_burned" +:+ " FROM " +:+ tp +:+
      "nf_tokens WHERE" +:+ " token_id = ? AND" +:+ " sequence <= ?" +:+
      " ORDER BY sequence DESC" +:+ " LIMIT 1")
  | insertIssuerNFT_ => Some ("INSERT INTO " +:+ tp +:+ "issuer_nf_tokens_v2" +:+
      " (issuer,taxon,token_id)" +:+ " VALUES (?,?,?)")
  | insertNFTURI_ => Some ("INSERT INTO " +:+ tp +:+ "nf_token_uris" +:+
      " (token_id,sequence,uri)" +:+ " VALUES (?,?,?)")
  | selectNFTURI_ => Some ("SELECT uri FROM " +:+ tp +:+ "nf_token_uris" +:+
      " WHERE token_id = ? AND" +:+ " sequence <= ?" +:+ " ORDER BY sequence DESC" +:+ " LIMIT 1")
  | insertNFTTx_ => Some ("INSERT INTO " +:+ tp +:+ "nf_token_transactions" +:+
      " (token_id,seq_idx,hash)" +:+ " VALUES (?,?,?)")
  | selectNFTTx_ => Some ("SELECT hash,seq_idx" +:+ " FROM " +:+ tp +:+
      "nf_token_transactions WHERE" +:+ " token_id = ? AND" +:+ " seq_idx < ?" +:+
      " ORDER BY seq_idx DESC" +:+ " LIMIT ?")
  | selectNFTTxForward_ => Some ("SELECT hash,seq_idx" +:+ " FROM " +:+ tp +:+
      "nf_token_transactions WHERE" +:+ " token_id = ? AND" +:+ " seq_idx >= ?" +:+
      " ORDER BY seq_idx ASC" +:+ " LIMIT ?")
  | insertLedgerHeader_ => Some (" INSERT INTO " +:+ tp +:+ "ledgers " +:+
      " (sequence, header) VALUES(?,?)")
  | insertLedgerHash_ => Some (" INSERT INTO " +:+ tp +:+ "ledger_hashes" +:+
      " (hash, sequence) VALUES(?,?)")
  | selectLedgerByHash_ => Some ("SELECT sequence FROM " +:+ tp +:+ "ledger_hashes " +:+
      "WHERE hash = ? LIMIT 1")
  | updateLedgerRange_ => Some (" update " +:+ tp +:+ "ledger_range" +:+
      " set sequence = ? where is_latest = ? if sequence in " +:+ "(?,null)")
  | deleteLedgerRange_ => Some (" update " +:+ tp +:+ "ledger_range" +:+
      " set sequence = ? where is_latest = false")
  | selectLedgerBySeq_ => Some (" select header from " +:+ tp +:+ "ledgers where sequence = ?")
  | selectLatestLedger_ => Some (" select sequence from " +:+ tp +:+
      "ledger_range where is_latest = true")
  | selectLedgerRange_ => Some (" SELECT sequence FROM " +:+ tp +:+ "ledger_range")
  | _ => None
  end.

Definition query_text (tp : string) (p : Prepared) : string :=
  match ledger_query tp p with
  | Some q => q
  | None => default "" (nft_query tp p)
  end.

(** [std::to_string] and stream insertion of an unsigned integer. *)
Definition to_string (z : Z) : string := pretty z.

(** A [CREATE TABLE], then the one-row [SELECT] that checks it. *)
Definition probe_query (tp table : string) : string :=
  "SELECT * FROM " +:+ tp +:+ table +:+ " LIMIT 1".

Definition setup_ledger_tables (tp : string) (ttl : Z) : list string :=
  ["CREATE TABLE IF NOT EXISTS " +:+ tp +:+ "objects" +:+
     " ( key blob, sequence bigint, object blob, PRIMARY " +:+ "KEY(key, " +:+
     "sequence)) WITH CLUSTERING ORDER BY (sequence DESC) AND" +:+
     " default_time_to_live = " +:+ to_string ttl;
   probe_query tp "objects";
   "CREATE TABLE IF NOT EXISTS " +:+ tp +:+ "transactions" +:+
     " ( hash blob PRIMARY KEY, ledger_sequence bigint, date bigint, " +:+
     "transaction blob, metadata blob)" +:+ " WITH default_time_to_live = " +:+ to_string ttl;
   "CREATE TABLE IF NOT EXISTS " +:+ tp +:+ "ledger_transactions" +:+
     " ( ledger_sequence bigint, hash blob, PRIMARY " +:+ "KEY(ledger_sequence, hash))" +:+
     " WITH default_time_to_live = " +:+ to_string ttl;
   probe_query tp "transactions";
   probe_query tp "ledger_transactions";
   "CREATE TABLE IF NOT EXISTS " +:+ tp +:+ "successor" +:+
     " (key blob, seq bigint, next blob, PRIMARY KEY (key, seq)) " +:+
     " WITH default_time_to_live = " +:+ to_string ttl;
   probe_query tp "successor";
   "CREATE TABLE IF NOT EXISTS " +:+ tp +:+ "diff" +:+
     " (seq bigint, key blob, PRIMARY KEY (seq, key)) " +:+
     " WITH default_time_to_live = " +:+ to_string ttl;
   probe_query tp "diff";
   "CREATE TABLE IF NOT EXISTS " +:+ tp +:+ "account_tx" +:+
     " ( account blob, seq_idx " +:+ "tuple<bigint, bigint>, " +:+ " hash blob, " +:+
     "PRIMARY KEY " +:+ "(account, seq_idx)) WITH " +:+ "CLUSTERING ORDER BY (seq_idx desc)" +:+
     " AND default_time_to_live = " +:+ to_string ttl;
   probe_query tp "account_tx";
   "CREATE TABLE IF NOT EXISTS " +:+ tp +:+ "ledgers" +:+
     " ( sequence bigint PRIMARY KEY, header blob )" +:+
     " WITH default_time_to_live = " +:+ to_string ttl;
   probe_query tp "ledgers";
   "CREATE TABLE IF NOT EXISTS " +:+ tp +:+ "ledger_hashes" +:+
     " (hash blob PRIMARY KEY, sequence bigint)" +:+
     " WITH default_time_to_live = " +:+ to_string ttl;
   probe_query tp "ledger_hashes";
   "CREATE TABLE IF NOT EXISTS " +:+ tp +:+ "ledger_range" +:+
     " (is_latest boolean PRIMARY KEY, sequence bigint)";
   probe_query tp "ledger_range"].

Definition setup_nft_tables (tp : string) (ttl : Z) : list string :=
  ["CREATE TABLE IF NOT EXISTS " +:+ tp +:+ "nf_tokens" +:+ "  (" +:+
     "    token_id blob," +:+ "    sequence bigint," +:+ "    owner blob," +:+
     "    is_burned boolean," +:+ "    PRIMARY KEY (token_id, sequence)" +:+ "  )" +:+
     "  WITH CLUSTERING ORDER BY (sequence DESC)" +:+
     "    AND default_time_to_live = " +:+ to_string ttl;
   probe_query tp "nf_tokens";
   "CREATE TABLE IF NOT EXISTS " +:+ tp +:+ "issuer_nf_tokens_v2" +:+ "  (" +:+
     "    issuer blob," +:+ "    taxon bigint," +:+ "    token_id blob," +:+
     "    PRIMARY KEY (issuer, taxon, token_id)" +:+ "  )";
   probe_query tp "issuer_nf_tokens_v2";
   "CREATE TABLE IF NOT EXISTS " +:+ tp +:+ "nf_token_uris" +:+ "  (" +:+
     "    token_id blob," +:+ "    sequence bigint," +:+ "    uri blob," +:+
     "    PRIMARY KEY (token_id, sequence)" +:+ "  )" +:+
     "  WITH CLUSTERING ORDER BY (sequence DESC)" +:+
     "    AND default_time_to_live = " +:+ to_string ttl;
   probe_query tp "nf_token_uris";
   "CREATE TABLE IF NOT EXISTS " +:+ tp +:+ "nf_token_transactions" +:+ "  (" +:+
     "    token_id blob," +:+ "    seq_idx tuple<bigint, bigint>," +:+ "    hash blob," +:+
     "    PRIMARY KEY (token_id, seq_idx)" +:+ "  )" +:+
     "  WITH CLUSTERING ORDER BY (seq_idx DESC)" +:+
     "    AND default_time_to_live = " +:+ to_string ttl;
   probe_query tp "nf_token_transactions"].

(** The statements that set the tables up, in order. *)
Definition setup_queries (tp : string) (ttl : Z) : list string :=
  setup_ledger_tables tp ttl ++ setup_nft_tables tp ttl.

(** ** The driver *)

(** What the driver answers: to a bind of a value at an index of a prepared
    statement, to reads of a column ([None] is a column the row does not have),
    and the text a code prints as. *)
Class CassApi := {
  cass_bind : Prepared -> nat -> Value -> CassError;
  cass_error_text : CassError -> string;
  cass_value_get_bytes : option Value -> CassError * Blob;
  cass_value_get_int64 : option Value -> CassError * Z;
  cass_value_get_bool : option Value -> CassError * bool;
  (** the items a tuple iterator yields *)
  cass_tuple_items : option Value -> list Z;
  cass_tuple_blobs : option Value -> list Blob
}.

(** A statement; [statement_] is null once it has been moved from. *)
Record CassandraStatement := mkStatement
  { statement_ : option Prepared; bound : list Value }.

Definition CassandraStatement_make (p : Prepared) : CassandraStatement := mkStatement (Some p) [].

Definition CassandraStatement_move (other : CassandraStatement)
  : CassandraStatement * CassandraStatement :=
  (other, mkStatement None []).

Definition curBindingIndex_ (s : CassandraStatement) : nat := length (bound s).

(** Conversions of a 32-bit unsigned value to [int32] and of [int64] to 32 bits. *)
Definition int32_of (z : Z) : Z := let w := u32 z in if w <? 2 ^ 31 then w else w - 2 ^ 32.

Section statements.
Context `{CassApi}.

(** The common tail of the [bindNext] functions. *)
Definition bind_value (what : string) (v : Value) (p : Prepared) (s : CassandraStatement)
  : Res CassandraStatement :=
  let rc := cass_bind p (curBindingIndex_ s) v in
  if negb (bool_decide (rc = CASS_OK))
  then Throw (RuntimeError ("Error binding " +:+ what +:+ " to statement: " +:+ cass_error_text rc))
  else Ok (mkStatement (statement_ s) (bound s ++ [v])).

Definition bindNextBoolean (val : bool) (s : CassandraStatement) : Res CassandraStatement :=
  match statement_ s with
  | None => Throw (RuntimeError "CassandraStatement::bindNextBoolean - statement_ is null")
  | Some p => bind_value "boolean" (CBool val) p s
  end.

Definition bindNextBytes (data : Blob) (s : CassandraStatement) : Res CassandraStatement :=
  match statement_ s with
  | None => Throw (RuntimeError "CassandraStatement::bindNextBytes - statement_ is null")
  | Some p => bind_value "bytes" (CBytes data) p s
  end.

Definition bindNextUInt (value : Z) (s : CassandraStatement) : Res CassandraStatement :=
  match statement_ s with
  | None => Throw (RuntimeError "CassandraStatement::bindNextUInt - statement_ is null")
  | Some p => bind_value "uint" (CInt32 (int32_of value)) p s
  end.

Definition bindNextInt (value : Z) (s : CassandraStatement) : Res CassandraStatement :=
  match statement_ s with
  | None => Throw (RuntimeError "CassandraStatement::bindNextInt - statement_ is null")
  | Some p => bind_value "int" (CInt64 value) p s
  end.

(** A null statement is not checked for here: it is passed to the driver. *)
Definition bindNextIntTuple (first second : Z) (s : CassandraStatement) : Res CassandraStatement :=
  match statement_ s with
  | None => Throw (LibraryError "null statement")
  | Some p => bind_value "tuple" (CTuple first second) p s
  end.

End statements.

(** ** Results *)

(** [result_] with its rows, the current row, the rows the iterator has left. *)
Record CassandraResult := mkResult
  { result_ : option (list Row); row_ : option Row; iter_ : list Row; curGetIndex_ : nat }.

(** [result_ = nullptr] is a [CassandraResult()]. *)
Definition CassandraResult_empty : CassandraResult := mkResult None None [] 0.

Definition CassandraResult_make (result : option (list Row)) : Res CassandraResult :=
  match result with
  | None => Throw (RuntimeError "CassandraResult - result is null")
  | Some [] => Ok (mkResult (Some []) None [] 0)
  | Some (r :: rows) => Ok (mkResult (Some (r :: rows)) (Some r) rows 0)
  end.

Definition isOk (r : CassandraResult) : bool := bool_decide (is_Some (result_ r)).

Definition hasResult (r : CassandraResult) : bool := bool_decide (is_Some (row_ r)).

Definition numRows (r : CassandraResult) : nat := length (default [] (result_ r)).

Definition nextRow (r : CassandraResult) : bool * CassandraResult :=
  match iter_ r with
  | row :: rest => (true, mkResult (result_ r) (Some row) rest 0)
  | [] => (false, mkResult (result_ r) None [] 0)
  end.

Definition advance (r : CassandraResult) : CassandraResult :=
  mkResult (result_ r) (row_ r) (iter_ r) (S (curGetIndex_ r)).

Section getters.
Context `{CassApi}.

(** Read the current column with [read]; [none] and [bad] are the two errors. *)
Definition getColumn {A} (read : option Value -> CassError * A) (none bad : string)
    (r : CassandraResult) : Res (A * CassandraResult) :=
  match row_ r with
  | None => Throw (RuntimeError none)
  | Some row =>
      let '(rc, v) := read (row !! curGetIndex_ r) in
      if negb (bool_decide (rc = CASS_OK))
      then Throw (RuntimeError (bad +:+ cass_error_text rc))
      else Ok (v, advance r)
  end.

Definition getBytes (r : CassandraResult) : Res (Blob * CassandraResult) :=
  getColumn cass_value_get_bytes "CassandraResult::getBytes - no result"
    "CassandraResult::getBytes - error getting value: " r.

Definition getUInt256 (r : CassandraResult) : Res (uint256 * CassandraResult) :=
  '(buf, r) ← getColumn cass_value_get_bytes "CassandraResult::uint256 - no result"
    "CassandraResult::getuint256 - error getting value: " r;
  Ok (uint256_fromVoid buf, r).

Definition getInt64 (r : CassandraResult) : Res (Z * CassandraResult) :=
  getColumn cass_value_get_int64 "CassandraResult::getInt64 - no result"
    "CassandraResult::getInt64 - error getting value: " r.

Definition getUInt32 (r : CassandraResult) : Res (Z * CassandraResult) :=
  '(v, r) ← getInt64 r; Ok (u32 v, r).

Definition getInt64Tuple (r : CassandraResult) : Res ((Z * Z) * CassandraResult) :=
  match row_ r with
  | None => Throw (RuntimeError "CassandraResult::getInt64Tuple - no result")
  | Some row =>
      match cass_tuple_items (row !! curGetIndex_ r) with
      | first :: second :: _ => Ok ((first, second), advance r)
      | _ => Throw (RuntimeError "CassandraResult::getInt64Tuple - failed to iterate tuple")
      end
  end.

Definition getBytesTuple (r : CassandraResult) : Res ((Blob * Blob) * CassandraResult) :=
  match row_ r with
  | None => Throw (RuntimeError "CassandraResult::getBytesTuple - no result")
  | Some row =>
      match cass_tuple_blobs (row !! curGetIndex_ r) with
      | first :: second :: _ => Ok ((first, second), advance r)
      | _ => Throw (RuntimeError "CassandraResult::getBytesTuple - failed to iterate tuple")
      end
  end.

Definition getBool (r : CassandraResult) : Res (bool * CassandraResult) :=
  getColumn cass_value_get_bool "No result" "Error getting value: " r.

(** [do { v = get(result) } while (result.nextRow())]; the rows left bound it. *)
Fixpoint each_row {A} (get : CassandraResult -> Res (A * CassandraResult)) (n : nat)
    (r : CassandraResult) : Res (list A) :=
  '(v, r) ← get r;
  let '(more, r) := nextRow r in
  match n, more with
  | S n', true => vs ← each_row get n' r; Ok (v :: vs)
  | _, _ => Ok [v]
  end.

End getters.

(** ** Parameters of the statements *)

(** The types of the placeholders, in order, from the columns they stand for. *)
Inductive ParamType := TBlob | TBigint | TInt | TBoolean | TTuple.

Definition param_types (p : Prepared) : list ParamType :=
  match p with
  | insertObject_ => [TBlob; TBigint; TBlob]
  | insertTransaction_ => [TBlob; TBigint; TBigint; TBlob; TBlob]
  | insertLedgerTransaction_ => [TBigint; TBlob]
  | insertSuccessor_ => [TBlob; TBigint; TBlob]
  | insertDiff_ => [TBigint; TBlob]
  | selectSuccessor_ => [TBlob; TBigint]
  | selectDiff_ => [TBigint]
  | selectObject_ => [TBlob; TBigint]
  | selectTransaction_ => [TBlob]
  | selectAllTransactionHashesInLedger_ => [TBigint]
  | selectLedgerPageKeys_ => [TBigint; TBigint; TInt]
  | selectLedgerPage_ => [TBigint; TBigint; TInt]
  | getToken_ => [TBlob]
  | insertAccountTx_ => [TBlob; TTuple; TBlob]
  | selectAccountTx_ => [TBlob; TTuple; TInt]
  | selectAccountTxForward_ => [TBlob; TTuple; TInt]
  | insertNFT_ => [TBlob; TBigint; TBlob; TBoolean]
  | selectNFT_ => [TBlob; TBigint]
  | insertIssuerNFT_ => [TBlob; TBigint; TBlob]
  | insertNFTURI_ => [TBlob; TBigint; TBlob]
  | selectNFTURI_ => [TBlob; TBigint]
  | insertNFTTx_ => [TBlob; TTuple; TBlob]
  | selectNFTTx_ => [TBlob; TTuple; TInt]
  | selectNFTTxForward_ => [TBlob; TTuple; TInt]
  | insertLedgerHeader_ => [TBigint; TBlob]
  | insertLedgerHash_ => [TBlob; TBigint]
  | selectLedgerByHash_ => [TBlob]
  | updateLedgerRange_ => [TBigint; TBoolean; TBigint]
  | deleteLedgerRange_ => [TBigint]
  | selectLedgerBySeq_ => [TBigint]
  | selectLatestLedger_ => []
  | selectLedgerRange_ => []
  end.

Definition value_type (v : Value) : ParamType :=
  match v with
  | CBytes _ => TBlob | CInt64 _ => TBigint | CInt32 _ => TInt
  | CBool _ => TBoolean | CTuple _ _ => TTuple
  end.

#[export] Instance ParamType_eq_dec : EqDecision ParamType.
Proof. solve_decision. Defined.

(** The number of markers (question marks, code 63) in a text. *)
Fixpoint markers (s : string) : nat :=
  match s with
  | EmptyString => 0
  | String c s' => if Ascii.eqb c (Ascii.ascii_of_nat 63) then S (markers s') else markers s'
  end.

(** The documented behaviour of the driver: a bind succeeds at an index of the
    statement with a value of the placeholder's type; the getters return the
    value of a column of their type. *)
Class CassApiLaws `{CassApi} := {
  bind_ok : forall p i v, param_types p !! i = Some (value_type v) -> cass_bind p i v = CASS_OK;
  bytes_ok : forall b, cass_value_get_bytes (Some (CBytes b)) = (CASS_OK, b);
  int64_ok : forall z, cass_value_get_int64 (Some (CInt64 z)) = (CASS_OK, z);
  bool_ok : forall b, cass_value_get_bool (Some (CBool b)) = (CASS_OK, b);
  tuple_ok : forall a b, cass_tuple_items (Some (CTuple a b)) = [a; b]
}.

(** A driver with that behaviour. *)
Definition get_or {A} (f : Value -> option A) (d : A) (v : option Value) : CassError * A :=
  match v ≫= f with Some a => (CASS_OK, a) | None => (CASS_ERROR_OTHER 16777224, d) end.

Definition TypedApi : CassApi := {|
  cass_bind := fun p i v =>
    if decide (param_types p !! i = Some (value_type v)) then CASS_OK else CASS_ERROR_OTHER 16777223;
  cass_error_text := fun _ => "error";
  cass_value_get_bytes := get_or (fun v => match v with CBytes b => Some b | _ => None end) [];
  cass_value_get_int64 := get_or (fun v => match v with CInt64 z => Some z | _ => None end) 0;
  cass_value_get_bool := get_or (fun v => match v with CBool b => Some b | _ => None end) false;
  cass_tuple_items := fun v => match v with Some (CTuple a b) => [a; b] | _ => [] end;
  cass_tuple_blobs := fun _ => []
|}.

Lemma TypedLaws : CassApiLaws (H := TypedApi).
Proof. split; try done. intros p i v Hp. simpl. by rewrite decide_True. Qed.

(** ** The texts and their parameters agree *)

Lemma markers_app s1 s2 : markers (s1 +:+ s2) = (markers s1 + markers s2)%nat.
Proof. induction s1 as [|c s1 IH]; simpl; [done|]. rewrite IH. by destruct (Ascii.eqb c _). Qed.

(** Every statement of the backend has a text (with any table prefix free
    of markers) with as many markers as the statement has parameters, and [open]
    prepares every statement exactly once. *)
Theorem prepared_params (tp : string) :
  markers tp = 0%nat ->
  (forall p, markers (query_text tp p) = length (param_types p)) /\
  (forall p, p ∈ prepared_order) /\ NoDup prepared_order.
Proof.
  intros Htp. split; [|split].
  - intros p. unfold query_text. destruct p; simpl; rewrite ?markers_app, ?Htp; reflexivity.
  - intros p. apply (bool_decide_unpack _). by destruct p; vm_compute.
  - apply (bool_decide_unpack _). by vm_compute.
Qed.

Lemma prepared_params_witness : markers "clio_" = 0%nat /\
  markers (query_text "clio_" insertTransaction_) = 5%nat.
Proof. split; [reflexivity|]. exact (proj1 (prepared_params "clio_" eq_refl) insertTransaction_). Defined.

(** ** Binding *)

Section binding.
Context `{CL : CassApiLaws}.

(** [b] binds the value [v]. *)
Definition binds (b : CassandraStatement -> Res CassandraStatement) (v : Value) : Prop :=
  forall p vs, param_types p !! length vs = Some (value_type v) ->
  b (mkStatement (Some p) vs) = Ok (mkStatement (Some p) (vs ++ [v])).

Lemma bind_value_ok what v p vs :
  param_types p !! length vs = Some (value_type v) ->
  bind_value what v p (mkStatement (Some p) vs) = Ok (mkStatement (Some p) (vs ++ [v])).
Proof.
  intros Ht. unfold bind_value. simpl. rewrite (bind_ok p _ v Ht). by rewrite bool_decide_true.
Qed.

Lemma bindNextBytes_binds b : binds (bindNextBytes b) (CBytes b).
Proof. intros p vs. apply bind_value_ok. Qed.
Lemma bindNextInt_binds z : binds (bindNextInt z) (CInt64 z).
Proof. intros p vs. apply bind_value_ok. Qed.
Lemma bindNextUInt_binds z : binds (bindNextUInt z) (CInt32 (int32_of z)).
Proof. intros p vs. apply bind_value_ok. Qed.
Lemma bindNextBoolean_binds b : binds (bindNextBoolean b) (CBool b).
Proof. intros p vs. apply bind_value_ok. Qed.
Lemma bindNextIntTuple_binds a b : binds (bindNextIntTuple a b) (CTuple a b).
Proof. intros p vs. apply bind_value_ok. Qed.

End binding.

#[export] Hint Resolve bindNextBytes_binds bindNextInt_binds bindNextUInt_binds
  bindNextBoolean_binds bindNextIntTuple_binds : clio.
