(* ===== verification/Cassandra.v ===== *)
(** * The Cassandra backend

    [src/src/backend/CassandraBackend.h] (class [CassandraBackend]) and
    [CassandraBackend.cpp]: reads, asynchronous writes with their retries and
    throttling, the ledger commit, the NFT and transaction queries, online
    deletion. The session is a parameter ([CassSession]); a callback runs as
    soon as its request is answered, retries run when the writer has to wait. *)

From stdpp Require Import base list gmap strings.
From Stdlib Require Import ZArith Lia.
From S2P Require Import Prelude Types SimpleCache Backend Cql.

Open Scope Z_scope.

(** [cass_session_execute] and the outcome of its future: an error code, and
    the rows ([None] is a null result). *)
Class CassSession (D : Type) := {
  session_execute : CassandraStatement -> D -> (CassError * option (list Row)) * D
}.

(** [ripple::nft::getIssuer] and [toUInt32(getTaxon(..))]. *)
Class NftUtils := { getIssuer : uint256 -> AccountID; getTaxon : uint256 -> Z }.

(** A write waiting to be retried: its statement and [currentRetries]. *)
Record PendingWrite := mkPendingWrite
  { pw_statement : CassandraStatement; currentRetries : Z }.

Record Cass (D : Type) := mkCass {
  db : D;
  c_cache : SimpleCache;
  c_range : option LedgerRange;
  syncInterval_ : Z;
  lastSync_ : Z;
  maxWriteRequestsOutstanding : Z;
  numWriteRequestsOutstanding_ : Z;
  maxReadRequestsOutstanding : Z;
  numReadRequestsOutstanding_ : Z;
  ledgerSequence_ : Z;
  (** writes whose timer is running *)
  retries : list PendingWrite
}.
Arguments mkCass {D}.
Arguments db {D}. Arguments c_cache {D}. Arguments c_range {D}. Arguments syncInterval_ {D}.
Arguments lastSync_ {D}. Arguments maxWriteRequestsOutstanding {D}.
Arguments numWriteRequestsOutstanding_ {D}. Arguments maxReadRequestsOutstanding {D}.
Arguments numReadRequestsOutstanding_ {D}. Arguments ledgerSequence_ {D}. Arguments retries {D}.

Section setters.
Context {D : Type}.
Implicit Types w : Cass D.

Definition set_db (d : D) w : Cass D :=
  mkCass d (c_cache w) (c_range w) (syncInterval_ w) (lastSync_ w)
    (maxWriteRequestsOutstanding w) (numWriteRequestsOutstanding_ w)
    (maxReadRequestsOutstanding w) (numReadRequestsOutstanding_ w) (ledgerSequence_ w) (retries w).
Definition set_c_cache (c : SimpleCache) w : Cass D :=
  mkCass (db w) c (c_range w) (syncInterval_ w) (lastSync_ w)
    (maxWriteRequestsOutstanding w) (numWriteRequestsOutstanding_ w)
    (maxReadRequestsOutstanding w) (numReadRequestsOutstanding_ w) (ledgerSequence_ w) (retries w).
Definition set_c_range (r : option LedgerRange) w : Cass D :=
  mkCass (db w) (c_cache w) r (syncInterval_ w) (lastSync_ w)
    (maxWriteRequestsOutstanding w) (numWriteRequestsOutstanding_ w)
    (maxReadRequestsOutstanding w) (numReadRequestsOutstanding_ w) (ledgerSequence_ w) (retries w).
Definition set_lastSync (s : Z) w : Cass D :=
  mkCass (db w) (c_cache w) (c_range w) (syncInterval_ w) s
    (maxWriteRequestsOutstanding w) (numWriteRequestsOutstanding_ w)
    (maxReadRequestsOutstanding w) (numReadRequestsOutstanding_ w) (ledgerSequence_ w) (retries w).
Definition set_writes (n : Z) w : Cass D :=
  mkCass (db w) (c_cache w) (c_range w) (syncInterval_ w) (lastSync_ w)
    (maxWriteRequestsOutstanding w) n
    (maxReadRequestsOutstanding w) (numReadRequestsOutstanding_ w) (ledgerSequence_ w) (retries w).
Definition set_reads (n : Z) w : Cass D :=
  mkCass (db w) (c_cache w) (c_range w) (syncInterval_ w) (lastSync_ w)
    (maxWriteRequestsOutstanding w) (numWriteRequestsOutstanding_ w)
    (maxReadRequestsOutstanding w) n (ledgerSequence_ w) (retries w).
Definition set_ledgerSequence (s : Z) w : Cass D :=
  mkCass (db w) (c_cache w) (c_range w) (syncInterval_ w) (lastSync_ w)
    (maxWriteRequestsOutstanding w) (numWriteRequestsOutstanding_ w)
    (maxReadRequestsOutstanding w) (numReadRequestsOutstanding_ w) s (retries w).
Definition set_retries (l : list PendingWrite) w : Cass D :=
  mkCass (db w) (c_cache w) (c_range w) (syncInterval_ w) (lastSync_ w)
    (maxWriteRequestsOutstanding w) (numWriteRequestsOutstanding_ w)
    (maxReadRequestsOutstanding w) (numReadRequestsOutstanding_ w) (ledgerSequence_ w) l.

End setters.

(** A statement with its values bound one after the other. *)
Definition bind_all `{CassApi} (p : Prepared)
    (bs : list (CassandraStatement -> Res CassandraStatement)) : Res CassandraStatement :=
  foldl (fun acc b => acc ≫= b) (Ok (CassandraStatement_make p)) bs.

Definition AccountID_bytes (a : AccountID) : Blob := be_encode 20 a.

(** The wait before a retry, in milliseconds: [2 ^ min(10, currentRetries)]. *)
Definition retry_wait (currentRetries : Z) : Z := 2 ^ Z.min 10 currentRetries.

Section backend.
Context {D : Type} `{CS : CassSession D} `{CA : CassApi} `{NU : NftUtils}.
(** the bound on the loops that run until the database answers *)
Context (fuel : nat).
(** the value [currentRetries] has before it is ever assigned *)
Context (uninit : Z).

Abbreviation W := (Cass D).

Definition execute (s : CassandraStatement) : M W (CassError * option (list Row)) := fun w =>
  let '(r, d) := session_execute s (db w) in (Ok r, set_db d w).

(** ** Writes *)

Definition canAddRequest (w : W) : bool :=
  numWriteRequestsOutstanding_ w <? maxWriteRequestsOutstanding w.

Definition finishedAllRequests (w : W) : bool := numWriteRequestsOutstanding_ w =? 0.

Definition decrementOutstandingRequestCount : M W unit :=
  n ← gets numWriteRequestsOutstanding_;
  if n =? 0 then throw (RuntimeError "decrementing num outstanding below 0")
  else modify (set_writes (u32 (n - 1))).

Definition finishAsyncWrite : M W unit := decrementOutstandingRequestCount.

(** [processAsyncWriteResponse]: retry later, or finish. *)
Definition processAsyncWriteResponse (pw : PendingWrite) (rc : CassError) : M W unit :=
  if negb (bool_decide (rc = CASS_OK)) then
    modify (fun w => set_retries
      (retries w ++ [mkPendingWrite (pw_statement pw) (u32 (currentRetries pw + 1))]) w)
  else finishAsyncWrite.

(** The first retry timer fires. *)
Definition run_retry : M W unit :=
  l ← gets retries;
  match l with
  | [] => no_fuel
  | pw :: rest =>
      modify (set_retries rest) ≫= fun _ =>
      '(rc, _) ← execute (pw_statement pw);
      processAsyncWriteResponse pw rc
  end.

(** [cv.wait(lck, cond)]: retries go on until the condition holds. *)
Fixpoint wait_until (n : nat) (cond : W -> bool) : M W unit := fun w =>
  if cond w then (Ok tt, w)
  else match n with
       | O => (NoFuel, w)
       | S n' => (run_retry ≫= fun _ => wait_until n' cond) w
       end.

Definition incrementOutstandingRequestCount : M W unit :=
  wait_until fuel canAddRequest ≫= fun _ =>
  modify (fun w => set_writes (u32 (numWriteRequestsOutstanding_ w + 1)) w).

Definition executeAsyncWrite (pw : PendingWrite) (isRetry : bool) : M W unit :=
  (if isRetry then mret tt else incrementOutstandingRequestCount) ≫= fun _ =>
  '(rc, _) ← execute (pw_statement pw);
  processAsyncWriteResponse pw rc.

(** [makeAndExecuteAsyncWrite]: [bind] has made the statement. *)
Definition makeAndExecuteAsyncWrite (bind : Res CassandraStatement) : M W unit :=
  s ← lift_res bind; executeAsyncWrite (mkPendingWrite s uninit) false.

Definition sync : M W unit := wait_until fuel finishedAllRequests.

Definition startWrites : M W unit := mret tt.

Fixpoint for_each {A} (f : A -> M W unit) (l : list A) : M W unit :=
  match l with [] => mret tt | x :: l' => f x ≫= fun _ => for_each f l' end.

Definition insertDiff_stmt (seq : Z) (key : Blob) : Res CassandraStatement :=
  bind_all insertDiff_ [bindNextInt seq; bindNextBytes key].
Definition insertObject_stmt (key : Blob) (seq : Z) (blob : Blob) : Res CassandraStatement :=
  bind_all insertObject_ [bindNextBytes key; bindNextInt seq; bindNextBytes blob].

(** The diff is only recorded once there is a range. *)
Definition cass_doWriteLedgerObject (key : Blob) (seq : Z) (blob : Blob) : M W unit :=
  r ← gets c_range;
  match r with
  | Some _ => makeAndExecuteAsyncWrite (insertDiff_stmt seq key)
  | None => mret tt
  end ≫= fun _ => makeAndExecuteAsyncWrite (insertObject_stmt key seq blob).

Definition writeSuccessor_assert (key successor : Blob) : bool :=
  negb (length key =? 0)%nat && negb (length successor =? 0)%nat.

Definition insertSuccessor_stmt (key : Blob) (seq : Z) (successor : Blob) : Res CassandraStatement :=
  bind_all insertSuccessor_ [bindNextBytes key; bindNextInt seq; bindNextBytes successor].

Definition writeSuccessor (key : Blob) (seq : Z) (successor : Blob) : M W unit :=
  makeAndExecuteAsyncWrite (insertSuccessor_stmt key seq successor).

Definition insertLedgerHeader_stmt (seq : Z) (header : Blob) : Res CassandraStatement :=
  bind_all insertLedgerHeader_ [bindNextInt seq; bindNextBytes header].
Definition insertLedgerHash_stmt (hash : uint256) (seq : Z) : Res CassandraStatement :=
  bind_all insertLedgerHash_ [bindNextBytes (uint256_bytes hash); bindNextInt seq].

Definition writeLedger (ledgerInfo : LedgerInfo) (header : Blob) : M W unit :=
  makeAndExecuteAsyncWrite (insertLedgerHeader_stmt (li_seq ledgerInfo) header) ≫= fun _ =>
  makeAndExecuteAsyncWrite
    (insertLedgerHash_stmt (li_hash ledgerInfo) (li_seq ledgerInfo)) ≫= fun _ =>
  modify (set_ledgerSequence (li_seq ledgerInfo)).

Definition accountTx_stmt (record : AccountTransactionsData) (account : AccountID)
  : Res CassandraStatement :=
  bind_all insertAccountTx_
    [bindNextBytes (AccountID_bytes account);
     bindNextIntTuple (atd_ledgerSequence record) (atd_transactionIndex record);
     bindNextBytes (uint256_bytes (atd_txHash record))].

Definition writeAccountTransactions (data : list AccountTransactionsData) : M W unit :=
  for_each (fun record =>
    for_each (fun account => makeAndExecuteAsyncWrite (accountTx_stmt record account))
      (atd_accounts record)) data.

Definition nftTx_stmt (record : NFTTransactionsData) : Res CassandraStatement :=
  bind_all insertNFTTx_
    [bindNextBytes (uint256_bytes (ntd_tokenID record));
     bindNextIntTuple (ntd_ledgerSequence record) (ntd_transactionIndex record);
     bindNextBytes (uint256_bytes (ntd_txHash record))].

Definition writeNFTTransactions (data : list NFTTransactionsData) : M W unit :=
  for_each (fun record => makeAndExecuteAsyncWrite (nftTx_stmt record)) data.

Definition insertLedgerTransaction_stmt (seq : Z) (hash : Blob) : Res CassandraStatement :=
  bind_all insertLedgerTransaction_ [bindNextInt seq; bindNextBytes hash].
Definition insertTransaction_stmt (hash : Blob) (seq date : Z) (transaction metadata : Blob)
  : Res CassandraStatement :=
  bind_all insertTransaction_
    [bindNextBytes hash; bindNextInt seq; bindNextInt date; bindNextBytes transaction;
     bindNextBytes metadata].

Definition writeTransaction (hash : Blob) (seq date : Z) (transaction metadata : Blob) : M W unit :=
  makeAndExecuteAsyncWrite (insertLedgerTransaction_stmt seq hash) ≫= fun _ =>
  makeAndExecuteAsyncWrite (insertTransaction_stmt hash seq date transaction metadata).

Definition insertNFT_stmt (tokenID : uint256) (seq : Z) (owner : AccountID) (isBurned : bool)
  : Res CassandraStatement :=
  bind_all insertNFT_
    [bindNextBytes (uint256_bytes tokenID); bindNextInt seq;
     bindNextBytes (AccountID_bytes owner); bindNextBoolean isBurned].
Definition insertIssuerNFT_stmt (tokenID : uint256) : Res CassandraStatement :=
  bind_all insertIssuerNFT_
    [bindNextBytes (AccountID_bytes (getIssuer tokenID)); bindNextInt (getTaxon tokenID);
     bindNextBytes (uint256_bytes tokenID)].
Definition insertNFTURI_stmt (tokenID : uint256) (seq : Z) (uri : Blob) : Res CassandraStatement :=
  bind_all insertNFTURI_
    [bindNextBytes (uint256_bytes tokenID); bindNextInt seq; bindNextBytes uri].

(** The statements for one NFT record: always the token, and the issuer and URI
    rows when the record has a URI. *)
Definition nft_stmts (record : NFTsData) : list (Res CassandraStatement) :=
  insertNFT_stmt (nd_tokenID record) (nd_ledgerSequence record) (nd_owner record)
    (nd_isBurned record) ::
  match nd_uri record with
  | Some uri =>
      [insertIssuerNFT_stmt (nd_tokenID record);
       insertNFTURI_stmt (nd_tokenID record) (nd_ledgerSequence record) uri]
  | None => []
  end.

Definition writeNFTs (data : list NFTsData) : M W unit :=
  for_each (fun record => for_each makeAndExecuteAsyncWrite (nft_stmts record)) data.

(** ** Reads *)

(** [executeAsyncRead] with a coroutine: timeouts and invalid queries throw, any
    other error is retried at once. *)
Fixpoint executeAsyncRead (n : nat) (statement : CassandraStatement) : M W CassandraResult :=
  match n with
  | O => no_fuel
  | S n' =>
      modify (fun w => set_reads (u32 (numReadRequestsOutstanding_ w + 1)) w) ≫= fun _ =>
      '(rc, res) ← execute statement;
      modify (fun w => set_reads (u32 (numReadRequestsOutstanding_ w - 1)) w) ≫= fun _ =>
      if isTimeout rc then throw DatabaseTimeout
      else if bool_decide (rc = CASS_ERROR_SERVER_INVALID_QUERY)
      then throw (RuntimeError "invalid query")
      else if bool_decide (rc = CASS_OK) then lift_res (CassandraResult_make res)
      else executeAsyncRead n' statement
  end.

(** Bind, then read. *)
Definition read_stmt (s : Res CassandraStatement) : M W CassandraResult :=
  statement ← lift_res s; executeAsyncRead fuel statement.

(** The range from the rows: one or two sequences, in order. *)
Definition range_of_rows (result : CassandraResult) : Res (option LedgerRange) :=
  if negb (hasResult result) then Ok None
  else
    '(first, result) ← getUInt32 result;
    let '(more, result) := nextRow result in
    max ← (if (more : bool) then '(m, _) ← getUInt32 result; Ok m else Ok first);
    Ok (Some (if first >? max then mkLedgerRange max first else mkLedgerRange first max)).

(** The queries of the ledgers and of their range. *)
Definition selectLedgerRange_stmt : Res CassandraStatement := bind_all selectLedgerRange_ [].
Definition selectLatestLedger_stmt : Res CassandraStatement := bind_all selectLatestLedger_ [].
Definition selectLedgerBySeq_stmt (sequence : Z) : Res CassandraStatement :=
  bind_all selectLedgerBySeq_ [bindNextInt sequence].
Definition selectLedgerByHash_stmt (hash : uint256) : Res CassandraStatement :=
  bind_all selectLedgerByHash_ [bindNextBytes (uint256_bytes hash)].

Definition cass_hardFetchLedgerRange : M W (option LedgerRange) :=
  result ← read_stmt selectLedgerRange_stmt;
  lift_res (range_of_rows result).

Definition fetchLatestLedgerSequence : M W (option Z) :=
  result ← read_stmt selectLatestLedger_stmt;
  if negb (hasResult result) then mret None
  else '(s, _) ← lift_res (getUInt32 result); mret (Some s).

Definition fetchLedgerBySequence `{SerialCodec} (sequence : Z) : M W (option LedgerInfo) :=
  result ← read_stmt (selectLedgerBySeq_stmt sequence);
  if negb (hasResult result) then mret None
  else
    '(header, _) ← lift_res (getBytes result);
    info ← lift_res (deserializeHeader header);
    mret (Some info).

Definition fetchLedgerByHash `{SerialCodec} (hash : uint256) : M W (option LedgerInfo) :=
  result ← read_stmt (selectLedgerByHash_stmt hash);
  if negb (hasResult result) then mret None
  else
    '(sequence, _) ← lift_res (getInt64 result);
    fetchLedgerBySequence (u32 sequence).

(** The columns of a transaction row. *)
Definition transaction_of_row (result : CassandraResult) : Res TransactionAndMetadata :=
  '(transaction, result) ← getBytes result;
  '(metadata, result) ← getBytes result;
  '(ledgerSequence, result) ← getUInt32 result;
  '(date, result) ← getUInt32 result;
  Ok (mkTransactionAndMetadata transaction metadata ledgerSequence date).

Definition selectTransaction_stmt (hash : uint256) : Res CassandraStatement :=
  bind_all selectTransaction_ [bindNextBytes (uint256_bytes hash)].

Definition fetchTransaction (hash : uint256) : M W (option TransactionAndMetadata) :=
  result ← read_stmt (selectTransaction_stmt hash);
  if negb (hasResult result) then mret None
  else t ← lift_res (transaction_of_row result); mret (Some t).

(** One callback read ([ReadCallbackData::finish]): [None] when it errored, else
    what [onSuccess] stores, starting from [dflt]. *)
Definition callback_read {A} (statement : CassandraStatement) (dflt : A)
    (onSuccess : CassandraResult -> Res A) : M W (option A) :=
  '(rc, res) ← execute statement;
  if negb (bool_decide (rc = CASS_OK)) then mret None
  else
    result ← lift_res (CassandraResult_make res);
    if hasResult result then a ← lift_res (onSuccess result); mret (Some a) else mret (Some dflt).

(** The reads of a batch, all issued before the outcome is looked at. *)
Fixpoint callback_reads {A K} (stmt : K -> Res CassandraStatement) (dflt : A)
    (onSuccess : CassandraResult -> Res A) (keys : list K) : M W (list (option A)) :=
  match keys with
  | [] => mret []
  | k :: keys' =>
      s ← lift_res (stmt k);
      r ← callback_read s dflt onSuccess;
      rs ← callback_reads stmt dflt onSuccess keys';
      mret (r :: rs)
  end.

(** Any errored read of the batch is a timeout of the batch. *)
Fixpoint all_read {A} (rs : list (option A)) : Res (list A) :=
  match rs with
  | [] => Ok []
  | None :: _ => Throw DatabaseTimeout
  | Some a :: rs' => l ← all_read rs'; Ok (a :: l)
  end.

Definition batch_read {A K} (stmt : K -> Res CassandraStatement) (dflt : A)
    (onSuccess : CassandraResult -> Res A) (keys : list K) : M W (list A) :=
  let n := Z.of_nat (length keys) in
  modify (fun w => set_reads (u32 (numReadRequestsOutstanding_ w + n)) w) ≫= fun _ =>
  rs ← callback_reads stmt dflt onSuccess keys;
  modify (fun w => set_reads (u32 (numReadRequestsOutstanding_ w - n)) w) ≫= fun _ =>
  lift_res (all_read rs).

Definition cass_fetchTransactions (hashes : list uint256) : M W (list TransactionAndMetadata) :=
  if (length hashes =? 0)%nat then mret []
  else batch_read selectTransaction_stmt TransactionAndMetadata_default transaction_of_row hashes.

Definition selectAllTransactionHashesInLedger_stmt (ledgerSequence : Z) : Res CassandraStatement :=
  bind_all selectAllTransactionHashesInLedger_ [bindNextInt ledgerSequence].

Definition fetchAllTransactionHashesInLedger (ledgerSequence : Z) : M W (list uint256) :=
  result ← read_stmt (selectAllTransactionHashesInLedger_stmt ledgerSequence);
  if negb (hasResult result) then mret []
  else lift_res (each_row getUInt256 (numRows result) result).

Definition fetchAllTransactionsInLedger (ledgerSequence : Z) : M W (list TransactionAndMetadata) :=
  hashes ← fetchAllTransactionHashesInLedger ledgerSequence;
  cass_fetchTransactions hashes.

Definition selectNFT_stmt (tokenID : uint256) (seq : Z) : Res CassandraStatement :=
  bind_all selectNFT_ [bindNextBytes (uint256_bytes tokenID); bindNextInt seq].
Definition selectNFTURI_stmt (tokenID : uint256) (seq : Z) : Res CassandraStatement :=
  bind_all selectNFTURI_ [bindNextBytes (uint256_bytes tokenID); bindNextInt seq].

(** The token row at or before the ledger, then the latest URI by then; a token
    without a URI row has an empty URI. *)
Definition cass_fetchNFT (tokenID : uint256) (ledgerSequence : Z) : M W (option NFT) :=
  nftResponse ← read_stmt (selectNFT_stmt tokenID ledgerSequence);
  if negb (hasResult nftResponse) then mret None
  else
    '(seq, nftResponse) ← lift_res (getUInt32 nftResponse);
    '(owner, nftResponse) ← lift_res (getBytes nftResponse);
    '(isBurned, _) ← lift_res (getBool nftResponse);
    uriResponse ← read_stmt (selectNFTURI_stmt tokenID ledgerSequence);
    uri ← (if hasResult uriResponse
           then '(u, _) ← lift_res (getBytes uriResponse); mret u else mret []);
    mret (Some (mkNFT tokenID seq (be_decode owner) uri isBurned)).

(** The row loop of the transaction queries: the hashes, and the position of the
    last row as the cursor, moved past it when going forward. *)
Fixpoint tx_rows (n numRows : nat) (forward : bool) (cursor : option TransactionsCursor)
    (result : CassandraResult) : Res (list uint256 * option TransactionsCursor) :=
  '(h, result) ← getUInt256 result;
  let numRows := (numRows - 1)%nat in
  '(cursor, result) ←
    (if (numRows =? 0)%nat then
       '((lgrSeq, txnIdx), result) ← getInt64Tuple result;
       Ok (Some (mkTransactionsCursor (u32 lgrSeq)
                   (if forward then u32 (u32 txnIdx + 1) else u32 txnIdx)), result)
     else Ok (cursor, result));
  let '(more, result) := nextRow result in
  match n, more with
  | S n', true => '(hs, c) ← tx_rows n' numRows forward cursor result; Ok (h :: hs, c)
  | _, _ => Ok ([h], cursor)
  end.

(** [int const placeHolder = forward ? 0 : uint32 max], passed as [uint32]. *)
Definition placeHolder (forward : bool) : Z := if forward then 0 else u32 (int32_of (2 ^ 32 - 1)).

(** Where a query starts: at the cursor, or at the end it is read from. *)
Definition bind_cursor (forward : bool) (cursor : option TransactionsCursor)
    (s : CassandraStatement) : Res CassandraStatement :=
  match cursor with
  | Some c => bindNextIntTuple (tc_ledgerSequence c) (tc_transactionIndex c) s
  | None => bindNextIntTuple (placeHolder forward) (placeHolder forward) s
  end.

(** A page of transactions: the common part of the two queries. *)
Definition tx_page (statement : Res CassandraStatement) (limit : Z) (forward : bool)
    (cursor : option TransactionsCursor) : M W TransactionsAndCursor :=
  result ← read_stmt statement;
  if negb (hasResult result) then mret (mkTransactionsAndCursor [] None)
  else
    '(hashes, cursor) ← lift_res (tx_rows (numRows result) (numRows result) forward cursor result);
    txns ← cass_fetchTransactions hashes;
    if Z.of_nat (length txns) =? limit then mret (mkTransactionsAndCursor txns cursor)
    else mret (mkTransactionsAndCursor txns None).

Definition selectNFTTx_stmt (tokenID : uint256) (limit : Z) (forward : bool)
    (cursor : option TransactionsCursor) : Res CassandraStatement :=
  bind_all (if forward then selectNFTTxForward_ else selectNFTTx_)
    [bindNextBytes (uint256_bytes tokenID); bind_cursor forward cursor; bindNextUInt limit].
Definition selectAccountTx_stmt (account : AccountID) (limit : Z) (forward : bool)
    (cursor : option TransactionsCursor) : Res CassandraStatement :=
  bind_all (if forward then selectAccountTxForward_ else selectAccountTx_)
    [bindNextBytes (AccountID_bytes account); bind_cursor forward cursor; bindNextUInt limit].

Definition fetchNFTTransactions (tokenID : uint256) (limit : Z) (forward : bool)
    (cursorIn : option TransactionsCursor) : M W TransactionsAndCursor :=
  rng ← gets c_range;
  match rng with
  | None => mret (mkTransactionsAndCursor [] None)
  | Some _ =>
      tx_page (selectNFTTx_stmt tokenID limit forward cursorIn) limit forward cursorIn
  end.

Definition fetchAccountTransactions (account : AccountID) (limit : Z) (forward : bool)
    (cursorIn : option TransactionsCursor) : M W TransactionsAndCursor :=
  rng ← gets c_range;
  match rng with
  | None => mret (mkTransactionsAndCursor [] None)
  | Some _ =>
      tx_page (selectAccountTx_stmt account limit forward cursorIn) limit forward cursorIn
  end.

Definition selectSuccessor_stmt (key : uint256) (ledgerSequence : Z) : Res CassandraStatement :=
  bind_all selectSuccessor_ [bindNextBytes (uint256_bytes key); bindNextInt ledgerSequence].

Definition cass_doFetchSuccessorKey (key : uint256) (ledgerSequence : Z) : M W (option uint256) :=
  result ← read_stmt (selectSuccessor_stmt key ledgerSequence);
  if negb (hasResult result) then mret None
  else
    '(next, _) ← lift_res (getUInt256 result);
    if next =? lastKey then mret None else mret (Some next).

Definition selectObject_stmt (sequence : Z) (key : uint256) : Res CassandraStatement :=
  bind_all selectObject_ [bindNextBytes (uint256_bytes key); bindNextInt sequence].

Definition cass_doFetchLedgerObject (key : uint256) (sequence : Z) : M W (option Blob) :=
  result ← read_stmt (selectObject_stmt sequence key);
  if negb (hasResult result) then mret None
  else
    '(res, _) ← lift_res (getBytes result);
    if (length res =? 0)%nat then mret None else mret (Some res).

Definition object_of_row (result : CassandraResult) : Res Blob :=
  '(b, _) ← getBytes result; Ok b.

Definition cass_doFetchLedgerObjects (keys : list uint256) (sequence : Z) : M W (list Blob) :=
  if (length keys =? 0)%nat then mret []
  else batch_read (selectObject_stmt sequence) [] object_of_row keys.

Definition getToken_stmt (key : Blob) : Res CassandraStatement :=
  bind_all getToken_ [bindNextBytes (take 32 key)].

(** [getToken]: the partition token after a key's. *)
Definition getToken (key : Blob) : M W (option Z) :=
  result ← read_stmt (getToken_stmt key);
  if negb (hasResult result) then mret None
  else
    '(token, _) ← lift_res (getInt64 result);
    if token =? 2 ^ 63 - 1 then mret None else mret (Some (token + 1)).

Definition isTooBusy (w : W) : bool :=
  numReadRequestsOutstanding_ w >=? maxReadRequestsOutstanding w.

(** ** Synchronous writes and the commit *)

Fixpoint executeSyncWrite (n : nat) (statement : CassandraStatement) : M W unit :=
  match n with
  | O => no_fuel
  | S n' =>
      '(rc, _) ← execute statement;
      if negb (bool_decide (rc = CASS_OK)) then executeSyncWrite n' statement else mret tt
  end.

(** The loop of [executeSyncUpdate]: the result of the first attempt that
    succeeds, and whether one failed before. *)
Fixpoint sync_update_loop (n : nat) (statement : CassandraStatement) (timedOut : bool)
  : M W (option (list Row) * bool) :=
  match n with
  | O => no_fuel
  | S n' =>
      '(rc, res) ← execute statement;
      if negb (bool_decide (rc = CASS_OK)) then sync_update_loop n' statement true
      else mret (res, timedOut)
  end.

Definition executeSyncUpdate (statement : CassandraStatement) : M W bool :=
  '(res, timedOut) ← sync_update_loop fuel statement false;
  match res ≫= head with
  | None => mret false
  | Some row =>
      let '(rc, success) := cass_value_get_bool (row !! 0%nat) in
      if negb (bool_decide (rc = CASS_OK)) then mret false
      else if negb success && timedOut then
        rng ← retryOnTimeout fuel cass_hardFetchLedgerRange;
        s ← gets ledgerSequence_;
        mret (match rng with Some r => maxSequence r =? s | None => false end)
      else mret success
  end.

Definition updateLedgerRange_stmt (sequence : Z) (is_latest : bool) (expected : Z)
  : Res CassandraStatement :=
  bind_all updateLedgerRange_
    [bindNextInt sequence; bindNextBoolean is_latest; bindNextInt expected].

(** [writeRange] when the database has none yet. *)
Definition write_first_range : M W unit :=
  rng ← gets c_range;
  s ← gets ledgerSequence_;
  match rng with
  | Some _ => mret tt
  | None => st ← lift_res (updateLedgerRange_stmt s false s); executeSyncWrite fuel st
  end.

Definition doFinishWritesSync : M W bool :=
  sync ≫= fun _ =>
  write_first_range ≫= fun _ =>
  s ← gets ledgerSequence_;
  st ← lift_res (updateLedgerRange_stmt s true (u32 (s - 1)));
  ok ← executeSyncUpdate st;
  if negb ok then mret false else mret true.

Definition doFinishWritesAsync : M W bool :=
  rng ← gets c_range;
  last ← gets lastSync_;
  s ← gets ledgerSequence_;
  interval ← gets syncInterval_;
  if bool_decide (rng = None) || (last =? 0) || (u32 (s - interval) >=? last) then
    sync ≫= fun _ =>
    write_first_range ≫= fun _ =>
    st ← lift_res (updateLedgerRange_stmt s true (if last =? 0 then u32 (s - 1) else last));
    ok ← executeSyncUpdate st;
    if negb ok then mret false
    else modify (set_lastSync s) ≫= fun _ => mret true
  else mret true.

Definition cass_doFinishWrites : M W bool :=
  interval ← gets syncInterval_;
  if interval =? 1 then doFinishWritesSync else doFinishWritesAsync.

(** ** The interface, implemented *)

#[export] Instance CassandraImpl : BackendImpl W := {|
  cache_ := c_cache;
  set_cache := set_c_cache;
  range := c_range;
  set_range := set_c_range;
  doFetchLedgerObject := cass_doFetchLedgerObject;
  doFetchLedgerObjects := cass_doFetchLedgerObjects;
  doFetchSuccessorKey := cass_doFetchSuccessorKey;
  hardFetchLedgerRange := cass_hardFetchLedgerRange;
  doFinishWrites := cass_doFinishWrites;
  doWriteLedgerObject := cass_doWriteLedgerObject
|}.

Definition selectDiff_stmt (ledgerSequence : Z) : Res CassandraStatement :=
  bind_all selectDiff_ [bindNextInt ledgerSequence].

Definition fetchLedgerDiff (ledgerSequence : Z) : M W (list LedgerObject) :=
  result ← read_stmt (selectDiff_stmt ledgerSequence);
  if negb (hasResult result) then mret []
  else
    keys ← lift_res (each_row getUInt256 (numRows result) result);
    objs ← fetchLedgerObjects keys ledgerSequence;
    mret (zip_with mkLedgerObject keys objs).

(** ** Online deletion *)

(** One attempt of a bulk write: the writes still outstanding. Bulk writes are
    not counted by [numWriteRequestsOutstanding_]. *)
Definition bulk_attempt (pw : PendingWrite) (outstanding : list PendingWrite)
  : M W (list PendingWrite) :=
  '(rc, _) ← execute (pw_statement pw);
  if negb (bool_decide (rc = CASS_OK))
  then mret (outstanding ++ [mkPendingWrite (pw_statement pw) (u32 (currentRetries pw + 1))])
  else mret outstanding.

(** [cv.wait] until fewer than [limit] bulk writes are outstanding. *)
Fixpoint bulk_wait (n : nat) (limit : nat) (outstanding : list PendingWrite)
  : M W (list PendingWrite) :=
  if (length outstanding <? limit)%nat then mret outstanding
  else match n, outstanding with
       | S n', pw :: rest => o ← bulk_attempt pw rest; bulk_wait n' limit o
       | _, _ => no_fuel
       end.

Definition concurrentLimit : nat := 10.

Fixpoint bulk_objects (minLedger : Z) (objects : list LedgerObject)
    (outstanding : list PendingWrite) : M W (list PendingWrite) :=
  match objects with
  | [] => mret outstanding
  | obj :: objects' =>
      st ← lift_res (insertObject_stmt (uint256_bytes (lo_key obj)) minLedger (lo_blob obj));
      o ← bulk_attempt (mkPendingWrite st uninit) outstanding;
      o ← bulk_wait fuel concurrentLimit o;
      bulk_objects minLedger objects' o
  end.

Fixpoint delete_loop (n : nat) (minLedger : Z) (cursor : option uint256)
    (outstanding : list PendingWrite) : M W (list PendingWrite) :=
  match n with
  | O => no_fuel
  | S n' =>
      page ← retryOnTimeout fuel (fetchLedgerPage cursor minLedger 256 false);
      o ← bulk_objects minLedger (page_objects page) outstanding;
      match page_cursor page with
      | None => mret o
      | Some c => delete_loop n' minLedger (Some c) o
      end
  end.

Definition deleteLedgerRange_stmt (minLedger : Z) : Res CassandraStatement :=
  bind_all deleteLedgerRange_ [bindNextInt minLedger].

Definition doOnlineDelete (numLedgersToKeep : Z) : M W bool :=
  rng ← gets c_range;
  match rng with
  | None => mret false
  | Some rng =>
      let minLedger := u32 (maxSequence rng - numLedgersToKeep) in
      if minLedger <=? minSequence rng then mret false
      else
        o ← delete_loop fuel minLedger None [];
        bulk_wait fuel 1 o ≫= fun _ =>
        st ← lift_res (deleteLedgerRange_stmt minLedger);
        executeSyncWrite fuel st ≫= fun _ => mret true
  end.

End backend.
