(* ===== verification/Tables.v ===== *)
(** * The tables

    A reference model of the tables of [CassandraBackend::open] and of what each
    prepared statement does to them, and the documented behaviour of a session
    over them (class [SessionLaws]): a request that is not acknowledged may or
    may not have been applied, and only finitely many fail. A session in memory
    with a script of failures satisfies it. *)

From stdpp Require Import base list gmap strings sorting.
From Stdlib Require Import ZArith Lia.
From S2P Require Import Prelude Types SimpleCache Backend Cql Cassandra.

Open Scope Z_scope.

(** ** Tables *)

Record Tables := mkTables {
  t_objects : gmap Blob (gmap Z Blob);
  t_transactions : gmap Blob (Z * Z * Blob * Blob);
  t_ledger_transactions : gmap Z (gset Blob);
  t_successor : gmap Blob (gmap Z Blob);
  t_diff : gmap Z (gset Blob);
  t_account_tx : gmap Blob (gmap (Z * Z) Blob);
  t_ledgers : gmap Z Blob;
  t_ledger_hashes : gmap Blob Z;
  t_ledger_range : gmap bool Z;
  t_nf_tokens : gmap Blob (gmap Z (Blob * bool));
  t_issuer_nf_tokens : gset (Blob * Z * Blob);
  t_nf_token_uris : gmap Blob (gmap Z Blob);
  t_nf_token_transactions : gmap Blob (gmap (Z * Z) Blob)
}.

Definition no_tables : Tables := mkTables ∅ ∅ ∅ ∅ ∅ ∅ ∅ ∅ ∅ ∅ ∅ ∅ ∅.

(** A row in a partition. *)
Definition put {K C V} `{Countable K, Countable C} (k : K) (c : C) (v : V)
    (t : gmap K (gmap C V)) : gmap K (gmap C V) :=
  <[k := <[c := v]> (default ∅ (t !! k))]> t.

(** [WHERE key = ? AND seq <= ? ORDER BY seq DESC LIMIT 1]. *)
Definition latest {V} (k : Blob) (s : Z) (t : gmap Blob (gmap Z V)) : option (Z * V) :=
  before_lower_bound (s + 1) (default ∅ (t !! k)).

Definition pair_lt (a b : Z * Z) : bool := (a.1 <? b.1) || ((a.1 =? b.1) && (a.2 <? b.2)).

(** The rows of a transaction partition in the order of [seq_idx]. *)
Definition tx_rows_asc (k : Blob) (t : gmap Blob (gmap (Z * Z) Blob)) : list ((Z * Z) * Blob) :=
  std_sort (fun a b => pair_lt a.1 b.1) (map_to_list (default ∅ (t !! k))).

Definition tx_row (r : (Z * Z) * Blob) : Row := [CBytes r.2; CTuple r.1.1 r.1.2].

(** [seq_idx >= c .. ASC LIMIT n], [seq_idx < c .. DESC LIMIT n]. *)
Definition tx_forward (c : Z * Z) (n : Z) (rows : list ((Z * Z) * Blob)) : list ((Z * Z) * Blob) :=
  take (Z.to_nat n) (filter (fun r => pair_lt r.1 c = false) rows).
Definition tx_backward (c : Z * Z) (n : Z) (rows : list ((Z * Z) * Blob)) : list ((Z * Z) * Blob) :=
  take (Z.to_nat n) (reverse (filter (fun r => pair_lt r.1 c = true) rows)).

Definition set_objects x t := mkTables x (t_transactions t) (t_ledger_transactions t)
  (t_successor t) (t_diff t) (t_account_tx t) (t_ledgers t) (t_ledger_hashes t) (t_ledger_range t)
  (t_nf_tokens t) (t_issuer_nf_tokens t) (t_nf_token_uris t) (t_nf_token_transactions t).
Definition set_transactions x t := mkTables (t_objects t) x (t_ledger_transactions t)
  (t_successor t) (t_diff t) (t_account_tx t) (t_ledgers t) (t_ledger_hashes t) (t_ledger_range t)
  (t_nf_tokens t) (t_issuer_nf_tokens t) (t_nf_token_uris t) (t_nf_token_transactions t).
Definition set_ledger_transactions x t := mkTables (t_objects t) (t_transactions t) x
  (t_successor t) (t_diff t) (t_account_tx t) (t_ledgers t) (t_ledger_hashes t) (t_ledger_range t)
  (t_nf_tokens t) (t_issuer_nf_tokens t) (t_nf_token_uris t) (t_nf_token_transactions t).
Definition set_successor x t := mkTables (t_objects t) (t_transactions t) (t_ledger_transactions t)
  x (t_diff t) (t_account_tx t) (t_ledgers t) (t_ledger_hashes t) (t_ledger_range t)
  (t_nf_tokens t) (t_issuer_nf_tokens t) (t_nf_token_uris t) (t_nf_token_transactions t).
Definition set_diff x t := mkTables (t_objects t) (t_transactions t) (t_ledger_transactions t)
  (t_successor t) x (t_account_tx t) (t_ledgers t) (t_ledger_hashes t) (t_ledger_range t)
  (t_nf_tokens t) (t_issuer_nf_tokens t) (t_nf_token_uris t) (t_nf_token_transactions t).
Definition set_account_tx x t := mkTables (t_objects t) (t_transactions t) (t_ledger_transactions t)
  (t_successor t) (t_diff t) x (t_ledgers t) (t_ledger_hashes t) (t_ledger_range t)
  (t_nf_tokens t) (t_issuer_nf_tokens t) (t_nf_token_uris t) (t_nf_token_transactions t).
Definition set_ledgers x t := mkTables (t_objects t) (t_transactions t) (t_ledger_transactions t)
  (t_successor t) (t_diff t) (t_account_tx t) x (t_ledger_hashes t) (t_ledger_range t)
  (t_nf_tokens t) (t_issuer_nf_tokens t) (t_nf_token_uris t) (t_nf_token_transactions t).
Definition set_ledger_hashes x t := mkTables (t_objects t) (t_transactions t) (t_ledger_transactions t)
  (t_successor t) (t_diff t) (t_account_tx t) (t_ledgers t) x (t_ledger_range t)
  (t_nf_tokens t) (t_issuer_nf_tokens t) (t_nf_token_uris t) (t_nf_token_transactions t).
Definition set_ledger_range x t := mkTables (t_objects t) (t_transactions t) (t_ledger_transactions t)
  (t_successor t) (t_diff t) (t_account_tx t) (t_ledgers t) (t_ledger_hashes t) x
  (t_nf_tokens t) (t_issuer_nf_tokens t) (t_nf_token_uris t) (t_nf_token_transactions t).
Definition set_nf_tokens x t := mkTables (t_objects t) (t_transactions t) (t_ledger_transactions t)
  (t_successor t) (t_diff t) (t_account_tx t) (t_ledgers t) (t_ledger_hashes t) (t_ledger_range t)
  x (t_issuer_nf_tokens t) (t_nf_token_uris t) (t_nf_token_transactions t).
Definition set_issuer_nf_tokens x t := mkTables (t_objects t) (t_transactions t) (t_ledger_transactions t)
  (t_successor t) (t_diff t) (t_account_tx t) (t_ledgers t) (t_ledger_hashes t) (t_ledger_range t)
  (t_nf_tokens t) x (t_nf_token_uris t) (t_nf_token_transactions t).
Definition set_nf_token_uris x t := mkTables (t_objects t) (t_transactions t) (t_ledger_transactions t)
  (t_successor t) (t_diff t) (t_account_tx t) (t_ledgers t) (t_ledger_hashes t) (t_ledger_range t)
  (t_nf_tokens t) (t_issuer_nf_tokens t) x (t_nf_token_transactions t).
Definition set_nf_token_transactions x t := mkTables (t_objects t) (t_transactions t) (t_ledger_transactions t)
  (t_successor t) (t_diff t) (t_account_tx t) (t_ledgers t) (t_ledger_hashes t) (t_ledger_range t)
  (t_nf_tokens t) (t_issuer_nf_tokens t) (t_nf_token_uris t) x.

(** The range rows; the order of the two partitions is the cluster's. *)
Definition range_rows (flip : bool) (t : Tables) : list Row :=
  let row b := match t_ledger_range t !! b with Some s => [[CInt64 s]] | None => [] end in
  if flip then row true ++ row false else row false ++ row true.

(** What the insertions and updates do. *)
Definition cql_write (t : Tables) (p : Prepared) (vs : list Value) : option (Tables * list Row) :=
  match p, vs with
  | insertObject_, [CBytes k; CInt64 s; CBytes b] =>
      Some (set_objects (put k s b (t_objects t)) t, [])
  | insertTransaction_, [CBytes h; CInt64 s; CInt64 d; CBytes tx; CBytes m] =>
      Some (set_transactions (<[h := (s, d, tx, m)]> (t_transactions t)) t, [])
  | insertLedgerTransaction_, [CInt64 s; CBytes h] =>
      Some (set_ledger_transactions
        (<[s := {[h]} ∪ default ∅ (t_ledger_transactions t !! s)]> (t_ledger_transactions t)) t, [])
  | insertSuccessor_, [CBytes k; CInt64 s; CBytes n] =>
      Some (set_successor (put k s n (t_successor t)) t, [])
  | insertDiff_, [CInt64 s; CBytes k] =>
      Some (set_diff (<[s := {[k]} ∪ default ∅ (t_diff t !! s)]> (t_diff t)) t, [])
  | insertAccountTx_, [CBytes a; CTuple s i; CBytes h] =>
      Some (set_account_tx (put a (s, i) h (t_account_tx t)) t, [])
  | insertNFT_, [CBytes k; CInt64 s; CBytes o; CBool b] =>
      Some (set_nf_tokens (put k s (o, b) (t_nf_tokens t)) t, [])
  | insertIssuerNFT_, [CBytes i; CInt64 x; CBytes k] =>
      Some (set_issuer_nf_tokens ({[(i, x, k)]} ∪ t_issuer_nf_tokens t) t, [])
  | insertNFTURI_, [CBytes k; CInt64 s; CBytes u] =>
      Some (set_nf_token_uris (put k s u (t_nf_token_uris t)) t, [])
  | insertNFTTx_, [CBytes k; CTuple s i; CBytes h] =>
      Some (set_nf_token_transactions (put k (s, i) h (t_nf_token_transactions t)) t, [])
  | insertLedgerHeader_, [CInt64 s; CBytes h] =>
      Some (set_ledgers (<[s := h]> (t_ledgers t)) t, [])
  | insertLedgerHash_, [CBytes h; CInt64 s] =>
      Some (set_ledger_hashes (<[h := s]> (t_ledger_hashes t)) t, [])
  | updateLedgerRange_, [CInt64 s; CBool b; CInt64 e] =>
      match t_ledger_range t !! b with
      | Some s' => if s' =? e
          then Some (set_ledger_range (<[b := s]> (t_ledger_range t)) t, [[CBool true]])
          else Some (t, [[CBool false; CInt64 s']])
      | None => Some (set_ledger_range (<[b := s]> (t_ledger_range t)) t, [[CBool true]])
      end
  | deleteLedgerRange_, [CInt64 s] =>
      Some (set_ledger_range (<[false := s]> (t_ledger_range t)) t, [])
  | _, _ => None
  end.

(** What the queries return. *)
Definition cql_read (flip : bool) (t : Tables) (p : Prepared) (vs : list Value)
  : option (list Row) :=
  match p, vs with
  | selectObject_, [CBytes k; CInt64 s] =>
      Some (option_list ((fun r => [CBytes r.2; CInt64 r.1]) <$> latest k s (t_objects t)))
  | selectSuccessor_, [CBytes k; CInt64 s] =>
      Some (option_list ((fun r => [CBytes r.2]) <$> latest k s (t_successor t)))
  | selectDiff_, [CInt64 s] =>
      Some ((fun k => [CBytes k]) <$> elements (default ∅ (t_diff t !! s)))
  | selectTransaction_, [CBytes h] =>
      Some (option_list ((fun r : Z * Z * Blob * Blob => let '(s, d, tx, m) := r in
        [CBytes tx; CBytes m; CInt64 s; CInt64 d]) <$> t_transactions t !! h))
  | selectAllTransactionHashesInLedger_, [CInt64 s] =>
      Some ((fun k => [CBytes k]) <$> elements (default ∅ (t_ledger_transactions t !! s)))
  | selectAccountTx_, [CBytes a; CTuple s i; CInt32 n] =>
      Some (tx_row <$> tx_backward (s, i) n (tx_rows_asc a (t_account_tx t)))
  | selectAccountTxForward_, [CBytes a; CTuple s i; CInt32 n] =>
      Some (tx_row <$> tx_forward (s, i) n (tx_rows_asc a (t_account_tx t)))
  | selectNFTTx_, [CBytes k; CTuple s i; CInt32 n] =>
      Some (tx_row <$> tx_backward (s, i) n (tx_rows_asc k (t_nf_token_transactions t)))
  | selectNFTTxForward_, [CBytes k; CTuple s i; CInt32 n] =>
      Some (tx_row <$> tx_forward (s, i) n (tx_rows_asc k (t_nf_token_transactions t)))
  | selectNFT_, [CBytes k; CInt64 s] =>
      Some (option_list ((fun r => [CInt64 r.1; CBytes r.2.1; CBool r.2.2]) <$>
        latest k s (t_nf_tokens t)))
  | selectNFTURI_, [CBytes k; CInt64 s] =>
      Some (option_list ((fun r => [CBytes r.2]) <$> latest k s (t_nf_token_uris t)))
  | selectLedgerByHash_, [CBytes h] =>
      Some (option_list ((fun s => [CInt64 s]) <$> t_ledger_hashes t !! h))
  | selectLedgerBySeq_, [CInt64 s] =>
      Some (option_list ((fun h => [CBytes h]) <$> t_ledgers t !! s))
  | selectLatestLedger_, [] =>
      Some (option_list ((fun s => [CInt64 s]) <$> t_ledger_range t !! true))
  | selectLedgerRange_, [] => Some (range_rows flip t)
  | _, _ => None
  end.

(** A statement on the tables; the token queries, which no operation of the
    backend but [getToken] issues, are left out. *)
Definition cql (flip : bool) (t : Tables) (s : CassandraStatement) : option (Tables * list Row) :=
  p ← statement_ s;
  match cql_write t p (bound s) with
  | Some r => Some r
  | None => rows ← cql_read flip t p (bound s); Some (t, rows)
  end.

(** The statements the tables are modelled for, with values of their types. *)
Definition modelled (s : CassandraStatement) : bool :=
  match statement_ s with
  | None => false
  | Some p =>
      bool_decide (value_type <$> bound s = param_types p) &&
      negb (bool_decide (p ∈ [selectLedgerPageKeys_; selectLedgerPage_; getToken_]))
  end.

(** ** Sessions over the tables *)

(** [acked] is the log of acknowledged statements; [patience] bounds the failures
    to come. *)
Class SessionLaws `{CassSession D} (tables : D -> Tables) (patience : D -> nat)
    (acked : D -> list CassandraStatement) := {
  sl_ok : forall s d res d', modelled s = true -> session_execute s d = ((CASS_OK, res), d') ->
    (patience d' <= patience d)%nat /\ acked d' = acked d ++ [s] /\
    exists flip rows, res = Some rows /\ cql flip (tables d) s = Some (tables d', rows);
  sl_err : forall s d rc res d', modelled s = true ->
    session_execute s d = ((rc, res), d') -> rc <> CASS_OK ->
    (patience d' < patience d)%nat /\ acked d' = acked d /\
    (tables d' = tables d \/ exists flip rows, cql flip (tables d) s = Some (tables d', rows))
}.

(** A session in memory: each request takes an answer from a script; a failing
    request is applied or not as the script says. *)
Record MemSession := mkMemSession
  { ms_tables : Tables; ms_script : list (CassError * bool); ms_acked : list CassandraStatement }.

Definition mem_execute (s : CassandraStatement) (d : MemSession)
  : (CassError * option (list Row)) * MemSession :=
  match cql false (ms_tables d) s with
  | None => (* not a statement of the model: answered with an error *)
      ((CASS_ERROR_SERVER_INVALID_QUERY, None), mkMemSession (ms_tables d) (tail (ms_script d)) (ms_acked d))
  | Some (t, rows) =>
      match ms_script d with
      | (CASS_OK, _) :: rest => ((CASS_OK, Some rows), mkMemSession t rest (ms_acked d ++ [s]))
      | [] => ((CASS_OK, Some rows), mkMemSession t [] (ms_acked d ++ [s]))
      | (rc, applied) :: rest =>
          ((rc, None), mkMemSession (if applied : bool then t else ms_tables d) rest (ms_acked d))
      end
  end.

Definition MemCass : CassSession MemSession := {| session_execute := mem_execute |}.

(** The failures still in a script. *)
Definition ms_patience (d : MemSession) : nat :=
  length (filter (fun x : CassError * bool => x.1 <> CASS_OK) (ms_script d)).

(** ** Lemmas on the tables *)

(** Take apart a list of values whose types are known. *)
Ltac type_inv H vs := repeat (destruct vs as [|[] vs]; simpl in H; try discriminate H).

Lemma cql_total flip t s : modelled s = true -> is_Some (cql flip t s).
Proof.
  unfold modelled, cql. destruct s as [[p|] vs]; [|done]. simpl.
  intros [Hty%bool_decide_eq_true Hp%negb_true_iff%bool_decide_eq_false]%andb_true_iff.
  destruct p; simpl in Hty; try (exfalso; apply Hp; set_solver);
    type_inv Hty vs; simpl; try (by eexists).
  destruct (t_ledger_range t !! b); simpl; [destruct (_ =? _)|]; by eexists.
Qed.

Lemma MemCassLaws : SessionLaws (H := MemCass) ms_tables ms_patience ms_acked.
Proof.
  split.
  - intros s [t scr log] res d' Hm. simpl. unfold mem_execute, ms_patience. simpl.
    destruct (cql_total false t s Hm) as [[t' rows] Hc]. rewrite Hc.
    destruct scr as [|[[] ap] scr]; intros [= <- <-]; simpl.
    + split; [done|]. split; [done|]. eauto.
    + rewrite filter_cons_False by (by intros []). split; [done|]. split; [done|]. eauto.
  - intros s [t scr log] rc res d' Hm. simpl. unfold mem_execute, ms_patience. simpl.
    destruct (cql_total false t s Hm) as [[t' rows] Hc]. rewrite Hc.
    destruct scr as [|[rc' ap] scr]; simpl; [intros [= <- <- <-] ?; done|].
    destruct (decide (rc' = CASS_OK)) as [->|Hne]; [intros [= <- <- <-] ?; done|].
    intros Heq Hrc. rewrite filter_cons_True by done.
    assert (d' = mkMemSession (if ap then t' else t) scr log) as ->
      by (destruct rc'; [done|..]; by injection Heq).
    simpl. split; [lia|]. split; [done|]. destruct ap; [right; eauto | by left].
Qed.
