(* ===== verification/CassandraSpec.v ===== *)
(** * The Cassandra backend over its tables

    The operations of [Cassandra] on a session over the tables of [Tables]: the
    statements bind, every issued write is acknowledged and in the tables after
    a barrier, the NFT round trip, and that the backend implements the contract
    [Backend] is proved against. *)

From stdpp Require Import base list gmap strings sorting.
From Stdlib Require Import ZArith Lia.
From S2P Require Import Prelude Types SimpleCache Backend Cql Cassandra Tables.

Open Scope Z_scope.

(** ** Asynchronous writes *)

Section writes.
Context {D : Type} `{CS : CassSession D} {tables : D -> Tables} {patience : D -> nat}
  {acked : D -> list CassandraStatement} `{SL : !SessionLaws tables patience acked}.
(** [budget] bounds the failures to come and the writes pending. *)
Context (fuel budget : nat) (Hbudget : (budget <= fuel)%nat) (uninit : Z).

(** The statements issued, and what an acknowledged one leaves true of the
    tables whatever else is issued. *)
Context (Iss : CassandraStatement -> Prop) (R : CassandraStatement -> Tables -> Prop).
Context (HS : forall s, Iss s -> modelled s = true).
Context (Hest : forall s flip t t' rows, Iss s -> cql flip t s = Some (t', rows) -> R s t').
Context (Hkeep : forall s s' flip t t' rows,
  Iss s -> Iss s' -> cql flip t s' = Some (t', rows) -> R s t -> R s t').
(** What the writes keep of the tables. *)
Context (Inv : Tables -> Prop).
Context (Hinv : forall s flip t t' rows, Iss s -> cql flip t s = Some (t', rows) -> Inv t -> Inv t').

(** The world is [w0] but for the session and the pending writes: of the
    statements [issued] since the log [a0] each is acknowledged, and then its
    effect is in the tables, or waits for its retry. *)
Definition writing (w0 : Cass D) (a0 issued : list CassandraStatement) (w : Cass D) : Prop :=
  exists d l new,
    w = set_retries l (set_writes (Z.of_nat (length l)) (set_db d w0)) /\
    acked d = a0 ++ new /\ new ++ (pw_statement <$> l) ≡ₚ issued /\ Forall Iss issued /\
    Forall (fun s => R s (tables d)) new /\ Inv (tables d) /\
    Z.of_nat (length l) <= maxWriteRequestsOutstanding w0 /\
    0 < maxWriteRequestsOutstanding w0 < 2 ^ 32 /\ (patience d + length l <= budget)%nat.

(** The same while the write [s] is being attempted: it is counted and neither
    acknowledged nor pending. *)
Definition attempting (w0 : Cass D) (a0 issued : list CassandraStatement) (s : CassandraStatement)
    (n : nat) (w : Cass D) : Prop :=
  exists d l new,
    w = set_retries l (set_writes (Z.of_nat (length l) + 1) (set_db d w0)) /\
    acked d = a0 ++ new /\ new ++ (pw_statement <$> l) ++ [s] ≡ₚ issued /\ Forall Iss issued /\
    Forall (fun s => R s (tables d)) new /\ Inv (tables d) /\
    Z.of_nat (length l) + 1 <= maxWriteRequestsOutstanding w0 /\
    0 < maxWriteRequestsOutstanding w0 < 2 ^ 32 /\ (patience d + length l <= n)%nat.

Lemma attempt_spec w0 a0 issued pw n :
  (n <= budget)%nat ->
  triple (attempting w0 a0 issued (pw_statement pw) n)
    ('(rc, _) ← execute (pw_statement pw); processAsyncWriteResponse pw rc)
    (fun _ w => writing w0 a0 issued w /\ (patience (db w) + length (retries w) <= n)%nat) noexn.
Proof.
  intros Hn w (d & l & new & -> & Hack & Hperm & HSi & HR & HI & Hle & Hmax & Hpat).
  set (s := pw_statement pw) in *.
  assert (Iss s) as Hs by (rewrite <- Hperm in HSi; apply Forall_app in HSi as [_ [_ [? _]%Forall_cons]%Forall_app]; done).
  assert (forall t', (exists flip rows, cql flip (tables d) s = Some (t', rows)) ->
    Forall (fun s' => R s' t') new) as HR'.
  { intros t' (flip & rows & Hc). rewrite Forall_forall in HR |- *. intros s' Hs'.
    eapply Hkeep; [| exact Hs | exact Hc | by apply HR].
    rewrite <- Hperm in HSi. apply Forall_app in HSi as [HSn _].
    rewrite Forall_forall in HSn. by apply HSn. }
  unfold execute, mbind, M_bind. cbn [db set_retries set_writes set_db].
  destruct (session_execute s d) as [[rc res] d'] eqn:Hex.
  unfold processAsyncWriteResponse. destruct (bool_decide (rc = CASS_OK)) eqn:Hrc; cbn [negb].
  - apply bool_decide_eq_true in Hrc as ->.
    destruct (sl_ok s d res d' (HS s Hs) Hex) as (Hp & Ha & flip & rows & -> & Hc).
    assert (Inv (tables d')) as HI' by (by eapply Hinv).
    unfold finishAsyncWrite, decrementOutstandingRequestCount, gets, modify, mbind, M_bind.
    cbn -[u32]. rewrite (proj2 (Z.eqb_neq _ 0)) by lia.
    split; [|cbn; lia]. exists d', l, (new ++ [s]). split_and!; try done; try lia.
    + unfold set_db, set_writes, set_retries. cbn -[u32]. f_equal.
      rewrite u32_small by lia. lia.
    + by rewrite Ha, Hack, app_assoc.
    + rewrite <- Hperm, <- !app_assoc. apply Permutation_app_head. apply Permutation_app_comm.
    + apply Forall_app. split; [eauto|]. constructor; [|done]. by eapply Hest.
  - apply bool_decide_eq_false in Hrc.
    destruct (sl_err s d rc res d' (HS s Hs) Hex Hrc) as (Hp & Ha & Ht).
    assert (Inv (tables d')) as HI' by (destruct Ht as [->|(? & ? & ?)]; [done | by eapply Hinv]).
    unfold modify. split; [|cbn; rewrite length_app; cbn; lia].
    exists d', (l ++ [mkPendingWrite s (u32 (currentRetries pw + 1))]), new.
    rewrite length_app, fmap_app. cbn [length fmap list_fmap pw_statement].
    split_and!; try done; try lia.
    + unfold set_db, set_writes, set_retries. cbn -[u32]. f_equal; lia.
    + by rewrite Ha.
    + destruct Ht as [->|?]; [done | eauto].
Qed.

Lemma run_retry_spec w0 a0 issued n :
  (S n <= budget)%nat ->
  triple (fun w => writing w0 a0 issued w /\ retries w <> [] /\
            (patience (db w) + length (retries w) <= S n)%nat) run_retry
    (fun _ w => writing w0 a0 issued w /\ (patience (db w) + length (retries w) <= n)%nat) noexn.
Proof.
  intros Hn w (Hw & Hne & Hm).
  destruct Hw as (d & l & new & -> & Hack & Hperm & HSi & HR & HI & Hle & Hmax & Hpat).
  cbn in Hne, Hm. destruct l as [|pw l]; [done|]. cbn [length] in *.
  unfold run_retry, gets, modify, mbind at 1 2, M_bind at 1 2. cbn [retries set_retries].
  apply (attempt_spec w0 a0 issued pw n); [lia|].
  exists d, l, new. split_and!; try done; try lia.
  - unfold set_db, set_writes, set_retries. cbn -[Z.of_nat]. f_equal. lia.
  - rewrite <- Hperm. apply Permutation_app_head. cbn. rewrite Permutation_app_comm. done.
Qed.

Lemma wait_until_spec w0 a0 issued cond m n :
  (m <= n)%nat -> (m <= budget)%nat ->
  (forall w, retries w = [] -> writing w0 a0 issued w -> cond w = true) ->
  triple (fun w => writing w0 a0 issued w /\ (patience (db w) + length (retries w) <= m)%nat)
    (wait_until n cond)
    (fun _ w => writing w0 a0 issued w /\ cond w = true) noexn.
Proof.
  intros Hmn Hm Hcond. revert m Hmn Hm. induction n as [|n IH]; intros m Hmn Hm w [Hw Hme]; simpl.
  - destruct (cond w) eqn:Hc; [done|]. rewrite Hcond in Hc; [done | | done].
    apply nil_length_inv. lia.
  - destruct (cond w) eqn:Hc; [done|].
    assert (retries w <> []) as Hne by (intros Hr; by rewrite Hcond in Hc).
    destruct m as [|m]; [destruct (retries w); [done | simpl in Hme; lia]|].
    apply (triple_bind (fun w => writing w0 a0 issued w /\ retries w <> [] /\
      (patience (db w) + length (retries w) <= S m)%nat) run_retry _
      (fun _ w => writing w0 a0 issued w /\ (patience (db w) + length (retries w) <= m)%nat)).
    + by apply run_retry_spec.
    + intros _. apply IH; lia.
    + by split_and!.
Qed.

Lemma writing_bound w0 a0 issued w :
  writing w0 a0 issued w -> (patience (db w) + length (retries w) <= budget)%nat.
Proof. intros (d & l & new & -> & _ & _ & _ & _ & _ & _ & _ & Hp). exact Hp. Qed.

(** One write: afterwards it is issued. *)
Lemma write_spec w0 a0 issued bind s :
  bind = Ok s -> Iss s ->
  triple (writing w0 a0 issued) (makeAndExecuteAsyncWrite fuel uninit bind)
    (fun _ => writing w0 a0 (issued ++ [s])) noexn.
Proof.
  intros -> Hs. unfold makeAndExecuteAsyncWrite, executeAsyncWrite, incrementOutstandingRequestCount.
  eapply (triple_bind _ _ _ (fun a w => a = s /\ writing w0 a0 issued w)); [by apply triple_lift|].
  intros ?. apply triple_pre_pure; intros ->.
  eapply (triple_bind _ _ _ (fun _ w => attempting w0 a0 (issued ++ [s]) s budget w)).
  - eapply triple_bind.
    + eapply triple_conseq; [apply (wait_until_spec w0 a0 issued canAddRequest budget fuel) | | done | done]; [done | done | |].
      * intros w Hr (d & l & new & -> & _ & _ & _ & _ & _ & _ & Hmax & _). cbn in Hr. subst l.
        unfold canAddRequest. cbn. apply Z.ltb_lt. lia.
      * intros w Hw. split; [done | by eapply writing_bound].
    + intros ? w [(d & l & new & -> & Hack & Hperm & HSi & HR & HI & Hle & Hmax & Hpat) Hc].
      unfold canAddRequest in Hc. cbn -[Z.of_nat] in Hc. apply Z.ltb_lt in Hc.
      exists d, l, new. split_and!; try done; try lia.
      * unfold set_db, set_writes, set_retries. cbn -[u32 Z.of_nat]. f_equal. apply u32_small. lia.
      * by rewrite app_assoc, Hperm.
      * apply Forall_app. split; [done | by constructor].
  - intros ?. eapply triple_conseq; [by apply (attempt_spec w0 a0 (issued ++ [s]) (mkPendingWrite s uninit) budget) | done | | done].
    by intros ? w [Hw _].
Qed.

(** A list of writes. *)
Lemma writes_spec w0 a0 issued binds ss :
  binds = Ok <$> ss -> Forall Iss ss ->
  triple (writing w0 a0 issued) (for_each (makeAndExecuteAsyncWrite fuel uninit) binds)
    (fun _ => writing w0 a0 (issued ++ ss)) noexn.
Proof.
  intros -> Hss. revert issued. induction Hss as [|s ss Hs Hss IH]; intros issued; simpl.
  - apply triple_ret. intros w Hw. by rewrite app_nil_r.
  - eapply triple_bind; [by apply write_spec|]. intros ?.
    eapply triple_conseq; [apply IH | done | | done].
    intros ? w Hw. by rewrite <- app_assoc in Hw.
Qed.

(** After the barrier nothing is pending: everything issued is acknowledged and
    in the tables. *)
Lemma sync_spec w0 a0 issued :
  triple (writing w0 a0 issued) (sync fuel)
    (fun _ w => exists d new, w = set_retries [] (set_writes 0 (set_db d w0)) /\
       acked d = a0 ++ new /\ new ≡ₚ issued /\ Forall (fun s => R s (tables d)) issued /\
       Inv (tables d) /\ (patience d <= budget)%nat) noexn.
Proof.
  eapply triple_conseq; [apply (wait_until_spec w0 a0 issued finishedAllRequests budget fuel) | | | done]; [done | done | | |].
  - intros w Hr (d & l & new & -> & _). cbn in Hr. by subst l.
  - intros w Hw. split; [done | by eapply writing_bound].
  - intros ? w [(d & l & new & -> & Hack & Hperm & HSi & HR & HI & Hle & Hmax & Hpat) Hc].
    unfold finishedAllRequests in Hc. cbn -[Z.of_nat] in Hc. apply Z.eqb_eq in Hc.
    destruct l; [|cbn in Hc; lia]. cbn in *. rewrite app_nil_r in Hperm.
    exists d, new. split_and!; [done | done | done | by rewrite <- Hperm | done | lia].
Qed.

(** No write is pending. *)
Definition idle (w0 : Cass D) : Prop :=
  retries w0 = [] /\ numWriteRequestsOutstanding_ w0 = 0 /\
  0 < maxWriteRequestsOutstanding w0 < 2 ^ 32.

Lemma writing_start w0 :
  idle w0 -> (patience (db w0) <= budget)%nat -> Inv (tables (db w0)) -> writing w0 (acked (db w0)) [] w0.
Proof.
  intros (Hr & Hn & Hmax) Hp HI. exists (db w0), [], []. split_and!; try done; try (cbn; lia).
  - destruct w0. cbn in *. by subst.
  - by rewrite app_nil_r.
Qed.

Lemma idle_set_db w0 d : idle w0 -> set_retries [] (set_writes 0 (set_db d w0)) = set_db d w0.
Proof. intros (Hr & Hn & _). destruct w0. cbn in *. by subst. Qed.

End writes.

(** ** Binding *)

Section binding.
Context `{CL : CassApiLaws}.

Lemma bind_all_from p bs vs pre :
  Forall2 binds bs vs -> value_type <$> (pre ++ vs) = param_types p ->
  foldl (fun acc b => acc ≫= b) (Ok (mkStatement (Some p) pre)) bs =
    Ok (mkStatement (Some p) (pre ++ vs)).
Proof.
  intros Hb. revert pre. induction Hb as [|b v bs vs Hbv Hb IH]; intros pre Ht; simpl.
  - by rewrite app_nil_r.
  - rewrite (Hbv p pre).
    + rewrite IH; [by rewrite <- app_assoc|]. by rewrite <- app_assoc.
    + rewrite <- Ht. rewrite fmap_app, lookup_app_r by (by rewrite length_fmap).
      by rewrite length_fmap, Nat.sub_diag.
Qed.

Lemma bind_all_ok p bs vs :
  Forall2 binds bs vs -> value_type <$> vs = param_types p ->
  bind_all p bs = Ok (mkStatement (Some p) vs).
Proof. intros Hb Ht. by apply (bind_all_from p bs vs []). Qed.

End binding.

(** Bind a statement of the backend. *)
Ltac solve_binds :=
  eapply bind_all_ok; [repeat (apply Forall2_cons_2; [solve [eauto with clio]|]); apply Forall2_nil_2 | reflexivity].

(** A statement, the prepared statement it must be and the values it must carry:
    it binds without an error, and to every placeholder of the query's text the
    value is of the type of the column. *)
Definition binds_as (x : Res CassandraStatement * (Prepared * list Value)) : Prop :=
  x.1 = Ok (mkStatement (Some x.2.1) x.2.2) /\ value_type <$> x.2.2 = param_types x.2.1.

Ltac solve_binds_as := split; [solve_binds | reflexivity].

(** Where a transaction query starts when there is no cursor: at either end of
    the partition. *)
Definition cursor_value (forward : bool) (cursor : option TransactionsCursor) : Value :=
  match cursor with
  | Some c => CTuple (tc_ledgerSequence c) (tc_transactionIndex c)
  | None => if forward then CTuple 0 0 else CTuple (2 ^ 32 - 1) (2 ^ 32 - 1)
  end.

Section statements.
Context `{CA : CassApi} `{CL : !CassApiLaws} `{NU : NftUtils}.

Lemma bind_cursor_binds forward cursor : binds (bind_cursor forward cursor) (cursor_value forward cursor).
Proof. destruct cursor; [|destruct forward]; apply bindNextIntTuple_binds. Qed.

(** The queries that read a page from a cursor. *)
Lemma paged_as p b forward cursor limit :
  param_types p = [TBlob; TTuple; TInt] ->
  binds_as (bind_all p [bindNextBytes b; bind_cursor forward cursor; bindNextUInt limit],
    (p, [CBytes b; cursor_value forward cursor; CInt32 (int32_of limit)])).
Proof.
  intros Hp. assert (Ht : value_type (cursor_value forward cursor) = TTuple) by (by destruct cursor, forward).
  split; cbn [fst snd fmap list_fmap value_type]; rewrite ?Ht, ?Hp; [|done].
  apply bind_all_ok; [|cbn; by rewrite Ht, Hp].
  repeat constructor; eauto using bind_cursor_binds with clio.
Qed.

Variables (key blob tx md : Blob) (seq seq' date limit : Z) (k : uint256) (a : AccountID)
  (flag : bool) (cursor : option TransactionsCursor).
Variables (at_ : AccountTransactionsData) (nt : NFTTransactionsData).

(** What the writes carry. *)
Definition write_table : list (Res CassandraStatement * (Prepared * list Value)) :=
  [(insertDiff_stmt seq key, (insertDiff_, [CInt64 seq; CBytes key]));
   (insertObject_stmt key seq blob, (insertObject_, [CBytes key; CInt64 seq; CBytes blob]));
   (insertSuccessor_stmt key seq blob, (insertSuccessor_, [CBytes key; CInt64 seq; CBytes blob]));
   (insertLedgerHeader_stmt seq blob, (insertLedgerHeader_, [CInt64 seq; CBytes blob]));
   (insertLedgerHash_stmt k seq, (insertLedgerHash_, [CBytes (uint256_bytes k); CInt64 seq]));
   (insertLedgerTransaction_stmt seq key, (insertLedgerTransaction_, [CInt64 seq; CBytes key]));
   (insertTransaction_stmt key seq date tx md,
     (insertTransaction_, [CBytes key; CInt64 seq; CInt64 date; CBytes tx; CBytes md]));
   (accountTx_stmt at_ a,
     (insertAccountTx_, [CBytes (be_encode 20 a);
        CTuple (atd_ledgerSequence at_) (atd_transactionIndex at_);
        CBytes (uint256_bytes (atd_txHash at_))]));
   (nftTx_stmt nt,
     (insertNFTTx_, [CBytes (uint256_bytes (ntd_tokenID nt));
        CTuple (ntd_ledgerSequence nt) (ntd_transactionIndex nt);
        CBytes (uint256_bytes (ntd_txHash nt))]));
   (insertNFT_stmt k seq a flag,
     (insertNFT_, [CBytes (uint256_bytes k); CInt64 seq; CBytes (be_encode 20 a); CBool flag]));
   (insertIssuerNFT_stmt k,
     (insertIssuerNFT_, [CBytes (be_encode 20 (getIssuer k)); CInt64 (getTaxon k);
        CBytes (uint256_bytes k)]));
   (insertNFTURI_stmt k seq blob,
     (insertNFTURI_, [CBytes (uint256_bytes k); CInt64 seq; CBytes blob]));
   (updateLedgerRange_stmt seq flag seq',
     (updateLedgerRange_, [CInt64 seq; CBool flag; CInt64 seq']));
   (deleteLedgerRange_stmt seq, (deleteLedgerRange_, [CInt64 seq]))].

(** What the queries carry. *)
Definition query_table : list (Res CassandraStatement * (Prepared * list Value)) :=
  [(selectLedgerRange_stmt, (selectLedgerRange_, []));
   (selectLatestLedger_stmt, (selectLatestLedger_, []));
   (selectLedgerBySeq_stmt seq, (selectLedgerBySeq_, [CInt64 seq]));
   (selectLedgerByHash_stmt k, (selectLedgerByHash_, [CBytes (uint256_bytes k)]));
   (selectTransaction_stmt k, (selectTransaction_, [CBytes (uint256_bytes k)]));
   (selectAllTransactionHashesInLedger_stmt seq, (selectAllTransactionHashesInLedger_, [CInt64 seq]));
   (selectObject_stmt seq k, (selectObject_, [CBytes (uint256_bytes k); CInt64 seq]));
   (selectSuccessor_stmt k seq, (selectSuccessor_, [CBytes (uint256_bytes k); CInt64 seq]));
   (selectDiff_stmt seq, (selectDiff_, [CInt64 seq]));
   (getToken_stmt key, (getToken_, [CBytes (take 32 key)]));
   (selectNFT_stmt k seq, (selectNFT_, [CBytes (uint256_bytes k); CInt64 seq]));
   (selectNFTURI_stmt k seq, (selectNFTURI_, [CBytes (uint256_bytes k); CInt64 seq]));
   (selectNFTTx_stmt k limit false cursor,
     (selectNFTTx_, [CBytes (uint256_bytes k); cursor_value false cursor; CInt32 (int32_of limit)]));
   (selectNFTTx_stmt k limit true cursor,
     (selectNFTTxForward_, [CBytes (uint256_bytes k); cursor_value true cursor; CInt32 (int32_of limit)]));
   (selectAccountTx_stmt a limit false cursor,
     (selectAccountTx_, [CBytes (be_encode 20 a); cursor_value false cursor; CInt32 (int32_of limit)]));
   (selectAccountTx_stmt a limit true cursor,
     (selectAccountTxForward_, [CBytes (be_encode 20 a); cursor_value true cursor; CInt32 (int32_of limit)]))].

(** C40: every statement the backend builds, for whatever keys, sequences and
    cursors, binds without an error to the prepared statement it is meant for,
    each placeholder with the value meant for it and of its column's type: the
    writes, the range updates and the queries, in both directions and with or
    without a cursor. The list is complete: it has every statement that [open]
    prepares, but the two page queries, which nothing uses. *)
Theorem statements_bind :
  Forall binds_as (write_table ++ query_table) /\
  forall p, p ∈ prepared_order ->
    p ∈ (fun x => x.2.1) <$> (write_table ++ query_table) \/
    p = selectLedgerPageKeys_ \/ p = selectLedgerPage_.
Proof.
  split.
  - apply Forall_app. split.
    + repeat (constructor; [solve_binds_as|]). constructor.
    + repeat (constructor; [first [solve_binds_as | by apply paged_as]|]). constructor.
  - intros p _. destruct p; cbn;
      first [right; by left | right; by right | left; repeat constructor].
Qed.

End statements.

Lemma statements_bind_witness :
  binds_as (insertDiff_stmt (CA := TypedApi) 7 [1; 2], (insertDiff_, [CInt64 7; CBytes [1; 2]])) /\
  CassApiLaws (H := TypedApi).
Proof.
  split; [|exact TypedLaws].
  exact (proj1 (Forall_cons_1 _ _ _ (proj1 (statements_bind (CA := TypedApi) (CL := TypedLaws)
    (NU := Build_NftUtils (fun _ => 0) (fun _ => 0)) [1; 2] [] [] [] 7 0 0 0 0 0 true None
    (mkAccountTransactionsData [] 0 0 0) (mkNFTTransactionsData 0 0 0 0))))).
Defined.

(** ** Reads *)

(** The exceptions of a read. *)
Definition read_fails (e : Exn) : Prop :=
  e = DatabaseTimeout \/ e = RuntimeError "invalid query".

Section reads.
Context {D : Type} `{CS : CassSession D} {tables : D -> Tables} {patience : D -> nat}
  {acked : D -> list CassandraStatement} `{SL : !SessionLaws tables patience acked}.
Context `{CA : CassApi} `{CL : !CassApiLaws} (fuel : nat).

(** The world is [w0] but for the session, whose tables are [T]. *)
Definition reading (w0 : Cass D) (T : Tables) (n : nat) (w : Cass D) : Prop :=
  0 <= numReadRequestsOutstanding_ w0 < 2 ^ 32 /\
  exists d, w = set_db d w0 /\ tables d = T /\ (patience d < n)%nat.

Lemma reading_mono w0 T n m w : (n <= m)%nat -> reading w0 T n w -> reading w0 T m w.
Proof. intros Hnm (Hr & d & -> & HT & Hp). split; [done|]. exists d. split_and!; [done | done | lia]. Qed.

Lemma reads_restored w0 d' :
  0 <= numReadRequestsOutstanding_ w0 < 2 ^ 32 ->
  set_reads (u32 (u32 (numReadRequestsOutstanding_ w0 + 1) - 1))
    (set_db d' (set_reads (u32 (numReadRequestsOutstanding_ w0 + 1)) w0)) = set_db d' w0 :> Cass D.
Proof.
  intros Hr. unfold set_db, set_reads. cbn -[u32]. f_equal. unfold u32.
  rewrite Zminus_mod_idemp_l. rewrite Z.mod_small; lia.
Qed.

(** A query leaves the tables alone and, in whatever attempt it succeeds, returns
    the rows they hold; a failure that is not a timeout or a rejected query is
    retried. The counter of outstanding reads is back at its value in every
    outcome. *)
Lemma executeAsyncRead_spec w0 T p vs k n :
  (k <= n)%nat ->
  modelled (mkStatement (Some p) vs) = true -> (forall t, cql_write t p vs = None) ->
  triple (reading w0 T k) (executeAsyncRead n (mkStatement (Some p) vs))
    (fun r w => (exists flip rows, cql_read flip T p vs = Some rows /\
        CassandraResult_make (Some rows) = Ok r) /\ reading w0 T k w)
    (fun e w => read_fails e /\ reading w0 T (pred k) w).
Proof.
  intros Hkn Hm Hw. set (s := mkStatement (Some p) vs).
  assert (forall flip t t' rows, cql flip t s = Some (t', rows) ->
    t' = t /\ cql_read flip t p vs = Some rows) as Hcql.
  { intros flip t t' rows. unfold cql. simpl. rewrite Hw.
    destruct (cql_read flip t p vs); simpl; [by intros [= <- <-] | done]. }
  revert k Hkn. induction n as [|n IH]; intros k Hkn w (Hr & d & -> & HT & Hp); [lia|].
  cbn [executeAsyncRead]. unfold modify, execute, mbind, M_bind. cbn -[u32 isTimeout].
  destruct (session_execute s d) as [[rc res] d'] eqn:Hex.
  cbn -[u32 isTimeout]. change (numReadRequestsOutstanding_ (set_db d w0)) with (numReadRequestsOutstanding_ w0).
  assert (set_reads (u32 (u32 (numReadRequestsOutstanding_ w0 + 1) - 1))
    (set_db d' (set_reads (u32 (numReadRequestsOutstanding_ w0 + 1)) (set_db d w0))) = set_db d' w0) as ->.
  { by rewrite <- (reads_restored w0 d' Hr). }
  destruct (decide (rc = CASS_OK)) as [->|Hrc].
  - destruct (sl_ok s d res d' Hm Hex) as (Hp' & _ & flip & rows & -> & Hc).
    apply Hcql in Hc as [Ht Hrows]. rewrite HT in Hrows, Ht.
    cbn [isTimeout]. rewrite bool_decide_false, bool_decide_true by done. unfold lift_res.
    assert (exists r, CassandraResult_make (Some rows) = Ok r) as [r Hmk]
      by (destruct rows; by eexists).
    rewrite Hmk. split; [by eauto|]. split; [done|]. exists d'. split_and!; [done | done | lia].
  - destruct (sl_err s d rc res d' Hm Hex Hrc) as (Hp' & _ & Ht).
    assert (tables d' = T) as HT' by (destruct Ht as [->|(? & ? & [-> _]%Hcql)]; done).
    assert (reading w0 T (pred k) (set_db d' w0)) as Hrd.
    { split; [done|]. exists d'. split_and!; [done | done | lia]. }
    destruct (isTimeout rc) eqn:Hto; [split; [by left | done]|].
    destruct (bool_decide (rc = CASS_ERROR_SERVER_INVALID_QUERY)); [split; [by right | done]|].
    rewrite bool_decide_false by done. specialize (IH (pred k) ltac:(lia) _ Hrd).
    destruct (executeAsyncRead n s (set_db d' w0)) as [[r|e|] w']; [| |done];
      destruct IH as [H1 H2]; (split; [done|]); (eapply reading_mono; [|done]; lia).
Qed.

(** The same for a statement as the backend builds it. *)
Lemma read_stmt_within w0 T b p vs k :
  (k <= fuel)%nat -> b = Ok (mkStatement (Some p) vs) ->
  modelled (mkStatement (Some p) vs) = true -> (forall t, cql_write t p vs = None) ->
  triple (reading w0 T k) (read_stmt fuel b)
    (fun r w => (exists flip rows, cql_read flip T p vs = Some rows /\
        CassandraResult_make (Some rows) = Ok r) /\ reading w0 T k w)
    (fun e w => read_fails e /\ reading w0 T (pred k) w).
Proof.
  intros Hk -> Hm Hw. unfold read_stmt. apply triple_ok_bind. by apply executeAsyncRead_spec.
Qed.

Lemma read_stmt_spec w0 T b p vs :
  b = Ok (mkStatement (Some p) vs) ->
  modelled (mkStatement (Some p) vs) = true -> (forall t, cql_write t p vs = None) ->
  triple (reading w0 T fuel) (read_stmt fuel b)
    (fun r w => (exists flip rows, cql_read flip T p vs = Some rows /\
        CassandraResult_make (Some rows) = Ok r) /\ reading w0 T fuel w)
    (fun e w => read_fails e /\ reading w0 T fuel w).
Proof.
  intros Hb Hm Hw. eapply triple_conseq; [by apply read_stmt_within | done | done |].
  intros e w [He Hr]. split; [done|]. eapply reading_mono; [|done]. lia.
Qed.

Lemma getColumn_at {A} (read : option Value -> CassError * A) none bad r row v a :
  row_ r = Some row -> row !! curGetIndex_ r = Some v -> read (Some v) = (CASS_OK, a) ->
  getColumn read none bad r = Ok (a, advance r).
Proof. intros H1 H2 H3. unfold getColumn. rewrite H1, H2, H3. by rewrite bool_decide_true. Qed.

Lemma getBytes_at r row b :
  row_ r = Some row -> row !! curGetIndex_ r = Some (CBytes b) -> getBytes r = Ok (b, advance r).
Proof. intros. eapply getColumn_at; [done..|]. apply bytes_ok. Qed.

Lemma getInt64_at r row z :
  row_ r = Some row -> row !! curGetIndex_ r = Some (CInt64 z) -> getInt64 r = Ok (z, advance r).
Proof. intros. eapply getColumn_at; [done..|]. apply int64_ok. Qed.

Lemma getUInt32_at r row z :
  row_ r = Some row -> row !! curGetIndex_ r = Some (CInt64 z) -> getUInt32 r = Ok (u32 z, advance r).
Proof. intros. unfold getUInt32. by erewrite getInt64_at. Qed.

Lemma getBool_at r row b :
  row_ r = Some row -> row !! curGetIndex_ r = Some (CBool b) -> getBool r = Ok (b, advance r).
Proof. intros. eapply getColumn_at; [done..|]. apply bool_ok. Qed.

Lemma getUInt256_at r row b :
  row_ r = Some row -> row !! curGetIndex_ r = Some (CBytes b) ->
  getUInt256 r = Ok (uint256_fromVoid b, advance r).
Proof. intros. unfold getUInt256. by erewrite getColumn_at; [|done..|apply bytes_ok]. Qed.

Lemma hasResult_row r row : row_ r = Some row -> hasResult r = true.
Proof. intros Hr. unfold hasResult. by rewrite Hr. Qed.
Lemma hasResult_none r : row_ r = None -> hasResult r = false.
Proof. intros Hr. unfold hasResult. by rewrite Hr. Qed.

(** What the tables say of a token: the last row by a ledger, with the last URI. *)
Definition nft_lookup (T : Tables) (id : uint256) (s : Z) : option NFT :=
  r ← latest (uint256_bytes id) s (t_nf_tokens T);
  Some (mkNFT id (u32 r.1) (be_decode r.2.1)
          (default [] (snd <$> latest (uint256_bytes id) s (t_nf_token_uris T))) r.2.2).

Lemma fetchNFT_reads w0 T id s :
  triple (reading w0 T fuel) (cass_fetchNFT fuel id s)
    (fun r w => r = nft_lookup T id s /\ reading w0 T fuel w)
    (fun e w => read_fails e /\ reading w0 T fuel w).
Proof.
  unfold cass_fetchNFT. eapply triple_bind; [apply read_stmt_spec; [solve_binds | done | done]|].
  intros r. apply triple_pre_pure; intros (flip & rows & [= <-] & Hmk). unfold nft_lookup.
  destruct (latest (uint256_bytes id) s (t_nf_tokens T)) as [[q [o b]]|]; simpl in Hmk;
    injection Hmk as <-; [|by apply triple_ret].
  erewrite hasResult_row by done. cbn [negb].
  erewrite getUInt32_at by done. apply triple_ok_bind.
  erewrite getBytes_at by done. apply triple_ok_bind.
  erewrite getBool_at by done. apply triple_ok_bind.
  eapply triple_bind; [apply read_stmt_spec; [solve_binds | done | done]|].
  intros r. apply triple_pre_pure; intros (flip' & rows & [= <-] & Hmk).
  destruct (latest (uint256_bytes id) s (t_nf_token_uris T)) as [[q' u]|]; simpl in Hmk;
    injection Hmk as <-.
  - erewrite hasResult_row by done. erewrite getBytes_at by done. by apply triple_ret.
  - rewrite hasResult_none by done. by apply triple_ret.
Qed.

(** *** Batches of reads *)

(** What one read of a batch stores, from the rows of its query. *)
Definition stored_value {A} (dflt : A) (onSuccess : CassandraResult -> Res A) (rows : list Row) (a : A)
  : Prop :=
  match rows with
  | [] => a = dflt
  | row :: rest => onSuccess (mkResult (Some (row :: rest)) (Some row) rest 0) = Ok a
  end.

Section batch.
Context {A K : Type} (T : Tables) (stmt : K -> Res CassandraStatement) (dflt : A)
  (onSuccess : CassandraResult -> Res A) (p : Prepared) (vs : K -> list Value) (val : K -> A).
Context (Hstmt : forall k, stmt k = Ok (mkStatement (Some p) (vs k))).
Context (Hmod : forall k, modelled (mkStatement (Some p) (vs k)) = true).
Context (Hread : forall k t, cql_write t p (vs k) = None).
Context (Hval : forall k flip rows, cql_read flip T p (vs k) = Some rows ->
  stored_value dflt onSuccess rows (val k)).

Lemma callback_read_spec w0 n k :
  triple (reading w0 T n) (callback_read (mkStatement (Some p) (vs k)) dflt onSuccess)
    (fun r w => r = Some (val k) /\ reading w0 T n w \/ r = None /\ reading w0 T (pred n) w) noexn.
Proof.
  intros w (Hr & d & -> & HT & Hp). unfold callback_read, execute, mbind, M_bind.
  cbn [db set_db]. set (s := mkStatement (Some p) (vs k)).
  assert (forall flip t t' rows, cql flip t s = Some (t', rows) ->
    t' = t /\ cql_read flip t p (vs k) = Some rows) as Hcql.
  { intros flip t t' rows. unfold cql. simpl. rewrite Hread.
    destruct (cql_read flip t p (vs k)); simpl; [by intros [= <- <-] | done]. }
  destruct (session_execute s d) as [[rc res] d'] eqn:Hex.
  destruct (bool_decide (rc = CASS_OK)) eqn:Hrc; cbn [negb].
  - apply bool_decide_eq_true in Hrc as ->.
    destruct (sl_ok s d res d' (Hmod k) Hex) as (Hp' & _ & flip & rows & -> & Hc).
    apply Hcql in Hc as [Ht Hrows]. rewrite HT in Ht, Hrows. apply Hval in Hrows.
    assert (reading w0 T n (set_db d' w0)) as Hrd.
    { split; [done|]. exists d'. split_and!; [done | done | lia]. }
    destruct rows as [|row rest]; unfold lift_res; simpl.
    + simpl in Hrows. subst. by left.
    + simpl in Hrows. rewrite Hrows. by left.
  - apply bool_decide_eq_false in Hrc.
    destruct (sl_err s d rc res d' (Hmod k) Hex Hrc) as (Hp' & _ & Ht).
    right. split; [done|]. split; [done|]. exists d'.
    split_and!; [done | | lia]. destruct Ht as [->|(? & ? & [-> _]%Hcql)]; done.
Qed.

Lemma callback_reads_spec w0 n keys :
  triple (reading w0 T n) (callback_reads stmt dflt onSuccess keys)
    (fun rs w => rs = Some <$> (val <$> keys) /\ reading w0 T n w \/
       all_read rs = Throw DatabaseTimeout /\ reading w0 T (pred n) w) noexn.
Proof.
  revert n. induction keys as [|k keys IH]; intros n; simpl; [apply triple_ret; intros w Hw; by left|].
  rewrite Hstmt. apply triple_ok_bind. eapply triple_bind; [apply callback_read_spec|].
  intros r w [[-> Hw]|[-> Hw]].
  - revert w Hw. eapply triple_bind; [apply IH|]. intros rs. apply triple_ret.
    intros w [[-> Hw]|[Hrs Hw]]; [by left|]. right. split; [|done]. cbn. by rewrite Hrs.
  - revert w Hw. eapply triple_bind; [apply IH|]. intros rs. apply triple_ret.
    intros w Hw. right. split; [done|]. destruct Hw as [[_ Hw]|[_ Hw]]; [done|].
    eapply reading_mono; [|exact Hw]. lia.
Qed.

Lemma all_read_some (xs : list A) : all_read (Some <$> xs) = Ok xs.
Proof. induction xs as [|x xs IH]; [done|]. cbn. cbn in IH. by rewrite IH. Qed.

(** A batch returns every value, in order, or times out when a read failed. *)
Lemma batch_read_within w0 n keys :
  triple (reading w0 T n) (batch_read stmt dflt onSuccess keys)
    (fun r w => r = val <$> keys /\ reading w0 T n w)
    (fun e w => read_fails e /\ reading w0 T (pred n) w).
Proof.
  unfold batch_read. set (c := Z.of_nat (length keys)).
  intros w (Hr & d & -> & HT & Hp).
  set (w1 := set_reads (u32 (numReadRequestsOutstanding_ w0 + c)) w0).
  assert (reading w1 T n (set_db d w1)) as H1.
  { split; [apply u32_bound|]. exists d. done. }
  pose proof (callback_reads_spec w1 n keys _ H1) as Hc.
  unfold modify, mbind at 1, M_bind at 1.
  change (set_reads (u32 (numReadRequestsOutstanding_ (set_db d w0) + c)) (set_db d w0))
    with (set_db d w1). unfold mbind at 1, M_bind at 1.
  destruct (callback_reads stmt dflt onSuccess keys (set_db d w1)) as [[rs|e|] w']; [|done..].
  unfold mbind at 1, M_bind at 1.
  assert (Hback : forall d', set_reads (u32 (numReadRequestsOutstanding_ (set_db d' w1) - c)) (set_db d' w1) = set_db d' w0).
  { intros d'. unfold w1, set_reads, set_db. cbn -[u32]. f_equal. unfold u32.
    rewrite Zminus_mod_idemp_l. rewrite Z.mod_small; lia. }
  unfold lift_res. destruct Hc as [[-> (_ & d' & -> & HT' & Hp')]|[Hrs (_ & d' & -> & HT' & Hp')]]; rewrite Hback.
  - rewrite all_read_some. split; [done|]. split; [done|]. eauto.
  - rewrite Hrs. split; [by left|]. split; [done|]. eauto.
Qed.

Lemma batch_read_spec w0 n keys :
  triple (reading w0 T n) (batch_read stmt dflt onSuccess keys)
    (fun r w => r = val <$> keys /\ reading w0 T n w)
    (fun e w => read_fails e /\ reading w0 T n w).
Proof.
  eapply triple_conseq; [apply batch_read_within | done | done |].
  intros e w [He Hr]. split; [done|]. eapply reading_mono; [|done]. lia.
Qed.

End batch.

Definition tx_lookup (T : Tables) (h : uint256) : TransactionAndMetadata :=
  match t_transactions T !! uint256_bytes h with
  | Some (s, d, tx, m) => mkTransactionAndMetadata tx m (u32 s) (u32 d)
  | None => TransactionAndMetadata_default
  end.

Lemma fetchTransactions_reads w0 T hashes :
  triple (reading w0 T fuel) (cass_fetchTransactions hashes)
    (fun r w => r = tx_lookup T <$> hashes /\ reading w0 T fuel w)
    (fun e w => read_fails e /\ reading w0 T fuel w).
Proof.
  unfold cass_fetchTransactions. destruct (length hashes =? 0)%nat eqn:Hl.
  { apply Nat.eqb_eq, nil_length_inv in Hl as ->. by apply triple_ret. }
  eapply (batch_read_spec T _ _ _ selectTransaction_ (fun k => [CBytes (uint256_bytes k)])); try done.
  - intros k. solve_binds.
  - intros k flip rows [= <-]. unfold tx_lookup.
    destruct (t_transactions T !! uint256_bytes k) as [[[[s d] tx] m]|]; simpl; [|done].
    unfold transaction_of_row. erewrite getBytes_at by done. simpl.
    erewrite getBytes_at by done. simpl. erewrite getUInt32_at by done. simpl.
    by erewrite getUInt32_at by done.
Qed.

(** *** Ledger objects and successors *)

(** The tables hold the ledgers [Ldg]: the last object row by a ledger is the
    object (empty when it was deleted), and the last successor row of a key of
    the ledger, or of the first key, is the next key (no row: no next key). *)
Record represents (T : Tables) (Ldg : Z -> gmap Z Blob) : Prop := {
  rep_nonempty : forall s k b, Ldg s !! k = Some b -> b <> [];
  rep_valid : forall s k b, Ldg s !! k = Some b -> valid_key k;
  rep_object : forall s k, valid_key k ->
    default [] (snd <$> latest (uint256_bytes k) s (t_objects T)) = default [] (Ldg s !! k);
  rep_successor : forall s k, k = firstKey \/ is_Some (Ldg s !! k) ->
    (exists q, latest (uint256_bytes k) s (t_successor T) =
      Some (q, uint256_bytes (default lastKey (next_key (Ldg s) k)))) \/
    (latest (uint256_bytes k) s (t_successor T) = None /\ next_key (Ldg s) k = None);
  rep_last : forall s, Ldg s !! lastKey = None
}.

Lemma next_key_valid T Ldg s k n :
  represents T Ldg -> next_key (Ldg s) k = Some n -> valid_key n /\ n <> lastKey.
Proof.
  intros HT [[b Hb] _]%next_key_Some. split; [by eapply rep_valid|].
  intros ->. by rewrite (rep_last T Ldg HT) in Hb.
Qed.

Lemma doFetchLedgerObject_within w0 T Ldg k s n :
  (n <= fuel)%nat -> represents T Ldg -> valid_key k ->
  triple (reading w0 T n) (cass_doFetchLedgerObject fuel k s)
    (fun r w => r = Ldg s !! k /\ reading w0 T n w)
    (fun e w => read_fails e /\ reading w0 T (pred n) w).
Proof.
  intros Hn HT Hk. unfold cass_doFetchLedgerObject.
  eapply triple_bind; [apply read_stmt_within; [done | solve_binds | done | done]|].
  intros r. apply triple_pre_pure; intros (flip & rows & [= <-] & Hmk).
  pose proof (rep_object T Ldg HT s k Hk) as Ho.
  assert (forall b, Ldg s !! k = Some b -> b <> []) as Hne by (by apply (rep_nonempty T Ldg HT)).
  destruct (latest (uint256_bytes k) s (t_objects T)) as [[q b]|]; simpl in Hmk, Ho;
    injection Hmk as <-.
  - erewrite hasResult_row by done. cbn [negb]. erewrite getBytes_at by done. apply triple_ok_bind.
    destruct (Ldg s !! k) as [b'|]; simpl in Ho; subst b.
    + rewrite (proj2 (Nat.eqb_neq _ 0)) by (intros ?%nil_length_inv; by eapply Hne).
      by apply triple_ret.
    + by apply triple_ret.
  - rewrite hasResult_none by done. apply triple_ret. intros w Hw. split; [|done].
    destruct (Ldg s !! k) as [b'|]; [|done]. simpl in Ho. subst b'. by destruct (Hne [] eq_refl).
Qed.

Lemma doFetchLedgerObjects_within w0 T Ldg ks s n :
  represents T Ldg -> Forall valid_key ks ->
  triple (reading w0 T n) (cass_doFetchLedgerObjects ks s)
    (fun r w => r = (fun k => default [] (Ldg s !! k)) <$> ks /\ reading w0 T n w)
    (fun e w => read_fails e /\ reading w0 T (pred n) w).
Proof.
  intros HT Hks. unfold cass_doFetchLedgerObjects. destruct (length ks =? 0)%nat eqn:Hl.
  { apply Nat.eqb_eq, nil_length_inv in Hl as ->. by apply triple_ret. }
  replace ((fun k => default [] (Ldg s !! k)) <$> ks)
    with ((fun k => default [] (snd <$> latest (uint256_bytes k) s (t_objects T))) <$> ks).
  - eapply (batch_read_within T _ _ _ selectObject_ (fun k => [CBytes (uint256_bytes k); CInt64 s])); try done.
    + intros k. solve_binds.
    + intros k flip rows [= <-].
      destruct (latest (uint256_bytes k) s (t_objects T)) as [[q b]|]; simpl; [|done].
      unfold object_of_row. by erewrite getBytes_at by done.
  - apply list_fmap_ext. intros i k Hi. apply (rep_object T Ldg HT).
    rewrite Forall_forall in Hks. apply Hks. by eapply list_elem_of_lookup_2.
Qed.

Lemma doFetchSuccessorKey_within w0 T Ldg k s n :
  (n <= fuel)%nat -> represents T Ldg -> k = firstKey \/ is_Some (Ldg s !! k) ->
  triple (reading w0 T n) (cass_doFetchSuccessorKey fuel k s)
    (fun r w => r = next_key (Ldg s) k /\ reading w0 T n w)
    (fun e w => read_fails e /\ reading w0 T (pred n) w).
Proof.
  intros Hn HT Hk. unfold cass_doFetchSuccessorKey.
  eapply triple_bind; [apply read_stmt_within; [done | solve_binds | done | done]|].
  intros r. apply triple_pre_pure; intros (flip & rows & [= <-] & Hmk).
  destruct (rep_successor T Ldg HT s k Hk) as [[q Hq]|[Hq Hnone]]; rewrite Hq in Hmk; simpl in Hmk;
    injection Hmk as <-; [|rewrite hasResult_none by done; rewrite Hnone; by apply triple_ret].
  erewrite hasResult_row by done. cbn [negb].
  erewrite getUInt256_at by done. apply triple_ok_bind.
  change (uint256_bytes (default lastKey (next_key (Ldg s) k)))
    with (uint256ToString (default lastKey (next_key (Ldg s) k))).
  destruct (next_key (Ldg s) k) as [nk|] eqn:Hnk; cbn [default].
  - destruct (next_key_valid _ _ _ _ _ HT Hnk) as [Hv Hne].
    rewrite uint256_fromVoid_bytes by done. cbv beta iota.
    unfold id.     rewrite (proj2 (Z.eqb_neq _ _) Hne). by apply triple_ret.
  - rewrite uint256_fromVoid_bytes by (unfold lastKey; lia). cbv beta iota. rewrite Z.eqb_refl. by apply triple_ret.
Qed.

(** The state of the backend while it only reads. *)
Definition serving (T : Tables) (cache_ok : SimpleCache -> Prop) (w : Cass D) : Prop :=
  tables (db w) = T /\ (patience (db w) < fuel)%nat /\
  0 <= numReadRequestsOutstanding_ w < 2 ^ 32 /\ cache_ok (c_cache w).

End reads.

(** Any set of states [I] over tables that represent the history, kept by reads
    and by the cache's counters, satisfies the contract of the reads; a failing
    read leaves one of the states [J]. *)
Lemma bounded_ReadLaws {D} `{CS : CassSession D} {tables patience acked}
    `{SL : !SessionLaws tables patience acked} `{CA : CassApi} `{CL : !CassApiLaws}
    (fuel : nat) (uninit : Z) (h : history) (n : nat) (I J : Cass D -> Prop) :
  (n <= fuel)%nat ->
  (forall w, I w -> exists T, represents T (L h) /\
     reading (tables := tables) (patience := patience) w T n w /\
     (forall w', reading (tables := tables) (patience := patience) w T n w' -> I w') /\
     (forall w', reading (tables := tables) (patience := patience) w T (pred n) w' -> J w')) ->
  (forall w, I w -> exists ld, reach h (c_cache w) ld) ->
  (forall w k s, I w -> I (set_cache (BackendImpl := CassandraImpl fuel uninit) (get k s (c_cache w)).2 w)) ->
  (forall w k s, I w -> I (set_cache (BackendImpl := CassandraImpl fuel uninit) (getSuccessor k s (c_cache w)).2 w)) ->
  ReadLaws (H := CassandraImpl fuel uninit) (L h) I (fun e w => read_fails e /\ J w).
Proof.
  intros Hn HI Hcache Hget Hsucc.
  assert (forall A (m : M (Cass D) A) (v : A),
    (forall w0 T, represents T (L h) -> triple (reading (tables := tables) (patience := patience) w0 T n) m
       (fun r w => r = v /\ reading (tables := tables) (patience := patience) w0 T n w)
       (fun e w => read_fails e /\ reading (tables := tables) (patience := patience) w0 T (pred n) w)) ->
    triple I m (fun r w => r = v /\ I w) (fun e w => read_fails e /\ J w)) as Hread.
  { intros A m v Hm w Hw. destruct (HI w Hw) as (T & HT & Hr & Hback & HbackJ).
    specialize (Hm w T HT w Hr). destruct (m w) as [[x|e|] w']; [| |done];
      destruct Hm as [H1 H2]; (split; [done | by apply Hback || by apply HbackJ]). }
  split.
  - apply L_nonempty.
  - apply L_valid.
  - intros w k s b Hw Hg. destruct (Hcache w Hw) as [ld Hr]. by eapply cache_hit_sound.
  - intros w k s o Hw Hg. destruct (Hcache w Hw) as [ld Hr].
    destruct (getSuccessor_sound _ _ _ _ _ _ Hr Hg) as (H1 & H2 & H3). apply next_key_Some. eauto.
  - intros w k s Hw. by apply Hget.
  - intros w k s Hw. by apply Hsucc.
  - intros k s Hk. apply Hread. intros w0 T HT. by apply doFetchLedgerObject_within.
  - intros ks s Hk. apply Hread. intros w0 T HT. by apply doFetchLedgerObjects_within.
  - intros k s Hk. apply Hread. intros w0 T HT. by apply doFetchSuccessorKey_within.
Qed.

Lemma states_ReadLaws {D} `{CS : CassSession D} {tables patience acked}
    `{SL : !SessionLaws tables patience acked} `{CA : CassApi} `{CL : !CassApiLaws}
    (fuel : nat) (uninit : Z) (h : history) (I : Cass D -> Prop) :
  (forall w, I w -> exists T, represents T (L h) /\
     reading (tables := tables) (patience := patience) w T fuel w /\
     forall w', reading (tables := tables) (patience := patience) w T fuel w' -> I w') ->
  (forall w, I w -> exists ld, reach h (c_cache w) ld) ->
  (forall w c, I w -> (exists ld, reach h c ld) ->
     I (set_cache (BackendImpl := CassandraImpl fuel uninit) c w)) ->
  ReadLaws (H := CassandraImpl fuel uninit) (L h) I (fun e w => read_fails e /\ I w).
Proof.
  intros HI Hcache Hset.
  apply (bounded_ReadLaws (tables := tables) (patience := patience) (acked := acked) fuel uninit h fuel); [done| |done|..].
  - intros w Hw. destruct (HI w Hw) as (T & HT & Hr & Hback). exists T. split_and!; [done..|].
    intros w' Hr'. apply Hback. eapply reading_mono; [|exact Hr']. lia.
  - intros w k s Hw. apply Hset; [done|]. destruct (Hcache w Hw) as [ld Hr].
    exists ld. eapply rtc_r; [exact Hr | apply step_get].
  - intros w k s Hw. apply Hset; [done|]. destruct (Hcache w Hw) as [ld Hr].
    exists ld. eapply rtc_r; [exact Hr | apply step_succ].
Qed.

Lemma reading_self {D} `{CS : CassSession D} {tables : D -> Tables} {patience : D -> nat} T n (w : Cass D) :
  tables (db w) = T -> (patience (db w) < n)%nat -> 0 <= numReadRequestsOutstanding_ w < 2 ^ 32 ->
  reading (tables := tables) (patience := patience) w T n w.
Proof. intros HT Hp Hr. split; [done|]. exists (db w). split_and!; [by destruct w | done | done]. Qed.

Lemma serving_ReadLaws {D} `{CS : CassSession D} {tables patience acked}
    `{SL : !SessionLaws tables patience acked} `{CA : CassApi} `{CL : !CassApiLaws}
    (fuel : nat) (uninit : Z) (h : history) (T : Tables) :
  represents T (L h) ->
  ReadLaws (H := CassandraImpl fuel uninit) (L h)
    (serving (tables := tables) (patience := patience) fuel T (fun c => exists ld, reach h c ld))
    (fun e w => read_fails e /\
       serving (tables := tables) (patience := patience) fuel T (fun c => exists ld, reach h c ld) w).
Proof.
  intros HT. apply states_ReadLaws.
  - intros w (H1 & H2 & H3 & H4). exists T. split; [done|]. split; [by apply reading_self|].
    intros w' (_ & d & -> & HT' & Hp). exact (conj HT' (conj Hp (conj H3 H4))).
  - by intros w (_ & _ & _ & ?).
  - intros w c (H1 & H2 & H3 & _) Hc. exact (conj H1 (conj H2 (conj H3 Hc))).
Qed.

(** C20: the Cassandra backend implements the contract of the interface: over
    tables that represent a ledger history, with a cache some writer of that
    history left, its object, batch and successor queries return the ledger's
    objects and next keys, failing only with a timeout or a rejected query, and
    leave the state as it was. Every theorem on [BackendInterface]'s reads then
    holds of it. *)
Theorem Cassandra_ReadLaws {D} `{CS : CassSession D} {tables patience acked}
    `{SL : !SessionLaws tables patience acked} `{CA : CassApi} `{CL : !CassApiLaws}
    (fuel : nat) (uninit : Z) (h : history) (T : Tables) :
  represents T (L h) ->
  ReadLaws (H := CassandraImpl fuel uninit) (L h)
    (serving (tables := tables) (patience := patience) fuel T (fun c => exists ld, reach h c ld))
    (fun e w => read_fails e /\
       serving (tables := tables) (patience := patience) fuel T (fun c => exists ld, reach h c ld) w).
Proof. apply serving_ReadLaws. Qed.

(** *** A ledger in tables *)

Definition one_L (s : Z) : gmap Z Blob := if s <? 5 then ∅ else {[10 := [1]]}.

Lemma one_L_Some s k b : one_L s !! k = Some b <-> 5 <= s /\ k = 10 /\ b = [1].
Proof.
  unfold one_L. destruct (s <? 5) eqn:Hs; zbool.
  - rewrite lookup_empty. split; [done | lia].
  - rewrite lookup_singleton_Some. naive_solver lia.
Qed.

Definition one_history : history.
Proof.
  refine (mkHistory one_L 5 ltac:(done) _ _); intros s k b (_ & -> & ->)%one_L_Some;
    [done | unfold valid_key; lia].
Defined.

Definition one_tables : Tables :=
  set_objects {[uint256_bytes 10 := {[5 := [1]]}]}
    (set_successor (<[uint256_bytes firstKey := {[5 := uint256_bytes 10]}]>
       {[uint256_bytes 10 := {[5 := uint256_bytes lastKey]}]}) no_tables).

Lemma uint256_bytes_inj k1 k2 :
  valid_key k1 -> valid_key k2 -> uint256_bytes k1 = uint256_bytes k2 -> k1 = k2.
Proof.
  intros H1 H2 He. rewrite <- (uint256_fromVoid_bytes k1 H1), <- (uint256_fromVoid_bytes k2 H2).
  unfold uint256ToString. by rewrite He.
Qed.

Lemma latest_singleton {V} k s q (v : V) t :
  t !! k = Some {[q := v]} -> latest k s t = if q <? s + 1 then Some (q, v) else None.
Proof.
  intros Hk. unfold latest. rewrite Hk. simpl. unfold before_lower_bound.
  rewrite map_to_list_singleton. simpl. by destruct (q <? s + 1).
Qed.

Lemma one_next s k : next_key (one_L s) k = if (5 <=? s) && (k <? 10) then Some 10 else None.
Proof.
  unfold one_L. destruct (s <? 5) eqn:Hs; zbool.
  - rewrite (proj2 (Z.leb_gt 5 s)) by lia. simpl. apply next_key_None. intros. apply lookup_empty.
  - rewrite (proj2 (Z.leb_le 5 s)) by lia. simpl. destruct (k <? 10) eqn:Hk; zbool.
    + apply next_key_Some. rewrite lookup_singleton_eq. split_and!; [done | lia |].
      intros j Hj. apply lookup_singleton_ne. lia.
    + apply next_key_None. intros j Hj. apply lookup_singleton_ne. lia.
Qed.

Lemma one_represents : represents one_tables (L one_history).
Proof.
  split.
  - apply (L_nonempty one_history).
  - apply (L_valid one_history).
  - intros s k Hk. simpl. destruct (decide (k = 10)) as [->|Hne].
    + rewrite (latest_singleton _ s 5 [1]) by apply lookup_singleton_eq. unfold one_L.
      destruct (s <? 5) eqn:Hs, (5 <? s + 1) eqn:Hs'; zbool; try lia;
        by rewrite ?lookup_singleton_eq, ?lookup_empty.
    + assert (one_L s !! k = None) as ->.
      { apply eq_None_not_Some. intros [b (_ & ? & _)%one_L_Some]. done. }
      unfold latest. rewrite lookup_singleton_ne; [done|]. intros He.
      apply Hne. symmetry. apply uint256_bytes_inj; [unfold valid_key; lia | done | done].
  - intros s k Hk. simpl in Hk |- *. rewrite one_next. destruct Hk as [->|[b (Hs & -> & _)%one_L_Some]].
    + rewrite (latest_singleton _ s 5 (uint256_bytes 10)) by apply lookup_insert_eq.
      destruct (5 <=? s) eqn:Hs, (5 <? s + 1) eqn:Hs'; zbool; try lia; simpl; [left; eauto | by right].
    + rewrite (latest_singleton _ s 5 (uint256_bytes lastKey)).
      * rewrite (proj2 (Z.ltb_lt 5 (s + 1))) by lia. rewrite andb_false_r. left. eauto.
      * rewrite lookup_insert_ne; [apply lookup_singleton_eq|]. by intros He%(f_equal (fun l => nth 31 l 0)).
  - intros s. apply eq_None_not_Some. intros [b (_ & ? & _)%one_L_Some]. done.
Qed.

Definition one_world (script : list (CassError * bool)) : Cass MemSession :=
  mkCass (mkMemSession one_tables script []) SimpleCache_init (Some (mkLedgerRange 5 5)) 1 0
    10000 0 100000 0 0 [].

(** Through the interface: the first page of the ledger from the tables, with a
    failing request on the way. *)
Lemma Cassandra_ReadLaws_witness :
  ReadLaws (H := CassandraImpl (CS := MemCass) (CA := TypedApi) 3 0) one_L
    (serving (tables := ms_tables) (patience := ms_patience) 3 one_tables
       (fun c => exists ld, reach one_history c ld))
    (fun e w => read_fails e /\ serving (tables := ms_tables) (patience := ms_patience) 3 one_tables
       (fun c => exists ld, reach one_history c ld) w) /\
  (fetchLedgerPage (H := CassandraImpl (CS := MemCass) (CA := TypedApi) 3 0) None 6 2 false
     (one_world [(CASS_ERROR_OTHER 1, false)])).1 = Ok (mkLedgerPage [mkLedgerObject 10 [1]] None).
Proof.
  split; [|by vm_compute].
  exact (Cassandra_ReadLaws (SL := MemCassLaws) (CL := TypedLaws) 3 0 one_history one_tables one_represents).
Defined.

(** ** Barriers *)

(** C31: from an idle backend, any statements issued as asynchronous writes and
    then a barrier: the barrier returns, however many requests failed and were
    retried (also when the writer had to wait for a free slot), with every
    statement acknowledged exactly once, nothing pending and the counter of
    outstanding writes at zero. Fuel above the failures is enough. *)
Theorem writes_acknowledged {D} `{CS : CassSession D} {tables patience acked}
    `{SL : !SessionLaws tables patience acked} (fuel : nat) (uninit : Z)
    (ss : list CassandraStatement) (w0 : Cass D) :
  idle w0 -> (patience (db w0) <= fuel)%nat -> Forall (fun s => modelled s = true) ss ->
  exists d new,
    (for_each (makeAndExecuteAsyncWrite fuel uninit) (Ok <$> ss) ≫= fun _ => sync fuel) w0 =
      (Ok tt, set_db d w0) /\ idle (set_db d w0) /\
    acked d = acked (db w0) ++ new /\ new ≡ₚ ss.
Proof.
  intros Hidle Hp Hss.
  destruct (triple_run (fun w => w = w0)
    (for_each (makeAndExecuteAsyncWrite fuel uninit) (Ok <$> ss) ≫= fun _ => sync fuel)
    (fun _ w => exists d new, w = set_db d w0 /\ acked d = acked (db w0) ++ new /\ new ≡ₚ ss) w0)
    as ([] & w & Hrun & d & new & -> & Ha & Hperm); [|done|].
  - apply (triple_bind _ _ _ (fun _ => writing (tables := tables) (patience := patience)
      (acked := acked) fuel (fun s => modelled s = true) (fun _ _ => True) (fun _ => True) w0 (acked (db w0)) ss)).
    + eapply triple_conseq; [apply (writes_spec (SL := SL) fuel fuel (le_n _) uninit
        (fun s => modelled s = true) (fun _ _ => True)) with (Inv := fun _ => True) (w0 := w0) (a0 := acked (db w0)) (issued := []) (ss := ss) | | done | done]; try done.
      intros w ->. by eapply (writing_start fuel).
    + intros ?. eapply triple_conseq; [apply (sync_spec (SL := SL) fuel fuel (le_n _)
        (fun s => modelled s = true) (fun _ _ => True)) with (Inv := fun _ => True) | done | | done]; try done.
      intros ? w (d & new & -> & Ha & Hperm & _). exists d, new. by rewrite idle_set_db.
  - exists d, new. by split_and!.
Qed.

(** Three writes through a window of one, with failures. *)
Definition busy_world (script : list (CassError * bool)) : Cass MemSession :=
  mkCass (mkMemSession no_tables script []) SimpleCache_init None 1 0 1 0 100000 0 0 [].

Definition three_writes : list CassandraStatement :=
  (fun k => mkStatement (Some insertDiff_) [CInt64 7; CBytes [k]]) <$> [1; 2; 3].

Lemma writes_acknowledged_witness :
  exists d new,
    (for_each (makeAndExecuteAsyncWrite (CS := MemCass) 3 77) (Ok <$> three_writes) ≫=
       fun _ => sync (CS := MemCass) 3) (busy_world [(CASS_ERROR_OTHER 1, true); (CASS_OK, false);
         (CASS_ERROR_SERVER_UNAVAILABLE, false)]) =
      (Ok tt, set_db d (busy_world [(CASS_ERROR_OTHER 1, true); (CASS_OK, false);
         (CASS_ERROR_SERVER_UNAVAILABLE, false)])) /\ new ≡ₚ three_writes.
Proof.
  destruct (writes_acknowledged (SL := MemCassLaws) 3 77 three_writes
    (busy_world [(CASS_ERROR_OTHER 1, true); (CASS_OK, false); (CASS_ERROR_SERVER_UNAVAILABLE, false)])
    ltac:(split_and!; done) ltac:(vm_compute; lia) ltac:(repeat constructor))
    as (d & new & Hrun & _ & _ & Hp).
  exists d, new. split; [exact Hrun | exact Hp].
Defined.

(** ** The NFT round trip *)

Definition table_row {K C V} `{Countable K, Countable C} (k : K) (c : C) (t : gmap K (gmap C V))
  : option V := default ∅ (t !! k) !! c.

#[local] Arguments put : simpl never.
#[local] Arguments table_row : simpl never.

Lemma table_row_put {K C V} `{Countable K, Countable C} (k k' : K) (c c' : C) (v : V) t :
  table_row k c (put k' c' v t) =
  if decide (k = k' /\ c = c') then Some v else table_row k c t.
Proof.
  unfold table_row, put. destruct (decide (k = k')) as [->|Hk].
  - rewrite lookup_insert_eq. simpl. destruct (decide (c = c')) as [->|Hc].
    + by rewrite lookup_insert_eq, decide_True.
    + rewrite lookup_insert_ne, decide_False by naive_solver. done.
  - rewrite lookup_insert_ne, decide_False by naive_solver. done.
Qed.

Lemma latest_exact {V} k q (v : V) t : table_row k q t = Some v -> latest k q t = Some (q, v).
Proof.
  intros Hr. unfold latest. apply before_lower_bound_Some. split_and!; [exact Hr | lia |].
  intros j Hj. lia.
Qed.

Section nft_roundtrip.
Context {D : Type} `{CS : CassSession D} {tables : D -> Tables} {patience : D -> nat}
  {acked : D -> list CassandraStatement} `{SL : !SessionLaws tables patience acked}.
Context `{CA : CassApi} `{CL : !CassApiLaws} `{NU : NftUtils} (fuel : nat) (uninit : Z).

(** The statements of a record, bound. *)
Definition nft_statements (d : NFTsData) : list CassandraStatement :=
  let id := uint256_bytes (nd_tokenID d) in
  mkStatement (Some insertNFT_) [CBytes id; CInt64 (nd_ledgerSequence d);
    CBytes (AccountID_bytes (nd_owner d)); CBool (nd_isBurned d)] ::
  match nd_uri d with
  | Some uri =>
      [mkStatement (Some insertIssuerNFT_)
         [CBytes (AccountID_bytes (getIssuer (nd_tokenID d))); CInt64 (getTaxon (nd_tokenID d)); CBytes id];
       mkStatement (Some insertNFTURI_) [CBytes id; CInt64 (nd_ledgerSequence d); CBytes uri]]
  | None => []
  end.

Lemma nft_stmts_ok d : nft_stmts d = Ok <$> nft_statements d.
Proof.
  unfold nft_stmts, nft_statements.
  destruct (nd_uri d) as [u|]; cbn [fmap list_fmap];
    repeat (apply (f_equal2 cons); [solve_binds|]); reflexivity.
Qed.

(** What an acknowledged NFT statement leaves in the tables. *)
Definition nft_effect (s : CassandraStatement) (t : Tables) : Prop :=
  match statement_ s, bound s with
  | Some insertNFT_, [CBytes k; CInt64 q; CBytes o; CBool b] =>
      table_row k q (t_nf_tokens t) = Some (o, b)
  | Some insertIssuerNFT_, [CBytes i; CInt64 x; CBytes k] => (i, x, k) ∈ t_issuer_nf_tokens t
  | Some insertNFTURI_, [CBytes k; CInt64 q; CBytes u] =>
      table_row k q (t_nf_token_uris t) = Some u
  | _, _ => True
  end.

(** Records of one batch do not contradict each other. *)
Definition consistent (data : list NFTsData) : Prop :=
  forall d1 d2, d1 ∈ data -> d2 ∈ data ->
  uint256_bytes (nd_tokenID d1) = uint256_bytes (nd_tokenID d2) ->
  nd_ledgerSequence d1 = nd_ledgerSequence d2 ->
  nd_owner d1 = nd_owner d2 /\ nd_isBurned d1 = nd_isBurned d2 /\
  forall u1 u2, nd_uri d1 = Some u1 -> nd_uri d2 = Some u2 -> u1 = u2.

Definition is_nft_stmt (data : list NFTsData) (s : CassandraStatement) : Prop :=
  exists d, d ∈ data /\ s ∈ nft_statements d.

(** The cases of a statement of a record. *)
Lemma nft_statements_elem d s :
  s ∈ nft_statements d ->
  s = mkStatement (Some insertNFT_) [CBytes (uint256_bytes (nd_tokenID d)); CInt64 (nd_ledgerSequence d);
    CBytes (AccountID_bytes (nd_owner d)); CBool (nd_isBurned d)] \/
  (exists u, nd_uri d = Some u /\
    (s = mkStatement (Some insertIssuerNFT_) [CBytes (AccountID_bytes (getIssuer (nd_tokenID d)));
       CInt64 (getTaxon (nd_tokenID d)); CBytes (uint256_bytes (nd_tokenID d))] \/
     s = mkStatement (Some insertNFTURI_) [CBytes (uint256_bytes (nd_tokenID d));
       CInt64 (nd_ledgerSequence d); CBytes u])).
Proof.
  unfold nft_statements. destruct (nd_uri d) as [u|]; rewrite !elem_of_cons, ?elem_of_nil; naive_solver.
Qed.

Lemma nft_stmt_modelled data s : is_nft_stmt data s -> modelled s = true.
Proof.
  intros (d & _ & [->|(u & _ & [->| ->])]%nft_statements_elem); reflexivity.
Qed.

Lemma nft_effect_est data s flip t t' rows :
  is_nft_stmt data s -> cql flip t s = Some (t', rows) -> nft_effect s t'.
Proof.
  intros (d & _ & [->|(u & _ & [->| ->])]%nft_statements_elem) [= <- <-]; unfold nft_effect; simpl.
  - by rewrite table_row_put, decide_True.
  - set_solver.
  - by rewrite table_row_put, decide_True.
Qed.

Lemma nft_effect_keep data s s' flip t t' rows :
  consistent data -> is_nft_stmt data s -> is_nft_stmt data s' ->
  cql flip t s' = Some (t', rows) -> nft_effect s t -> nft_effect s t'.
Proof.
  intros Hcon (d & Hd & Hs) (d' & Hd' & Hs') Hc.
  pose proof (Hcon d d' Hd Hd') as Hdd.
  apply nft_statements_elem in Hs as [->|(u & Hu & [->| ->])];
    apply nft_statements_elem in Hs' as [->|(u' & Hu' & [->| ->])];
    injection Hc as <- <-; unfold nft_effect; simpl; try done; rewrite ?table_row_put.
  - destruct (decide _) as [[H1 H2]|]; [|done]. intros _.
    destruct (Hdd H1 H2) as (-> & -> & _). done.
  - intros Hin. apply elem_of_union. by right.
  - destruct (decide _) as [[H1 H2]|]; [|done]. intros _.
    destruct (Hdd H1 H2) as (_ & _ & Huu). by rewrite (Huu u u').
Qed.

Lemma for_each_app {A} (f : A -> M (Cass D) unit) (x y : list A) :
  meq (for_each f (x ++ y)) (for_each f x ≫= fun _ => for_each f y).
Proof.
  induction x as [|a x IH]; intros w; simpl; [done|].
  unfold mbind, M_bind. destruct (f a w) as [[[]|e|] w']; [apply IH | done | done].
Qed.

Lemma writeNFTs_statements data :
  meq (writeNFTs fuel uninit data)
    (for_each (makeAndExecuteAsyncWrite fuel uninit) (Ok <$> concat (nft_statements <$> data))).
Proof.
  unfold writeNFTs. induction data as [|r data IH]; [done|]. intros w.
  cbn [fmap list_fmap concat for_each]. fold_fmap.
  rewrite fmap_app, for_each_app, <- nft_stmts_ok. unfold mbind, M_bind.
  destruct (for_each _ (nft_stmts r) w) as [[[]|e|] w']; [apply IH | done | done].
Qed.

Lemma elem_of_stmts data s :
  s ∈ concat (nft_statements <$> data) <-> is_nft_stmt data s.
Proof.
  unfold is_nft_stmt. induction data as [|d data IH]; cbn [fmap list_fmap concat].
  - split; [by intros ?%not_elem_of_nil | intros (? & ?%not_elem_of_nil & _); done].
  - fold_fmap. rewrite elem_of_app, IH. set_solver.
Qed.

Lemma nft_stmts_all data : Forall (is_nft_stmt data) (concat (nft_statements <$> data)).
Proof.
  apply Forall_forall. intros s. apply elem_of_stmts.
Qed.

(** Everything the batch says is in the tables after the barrier, and what its
    statements keep of the tables is kept. *)
Lemma writeNFTs_keeps data (Inv : Tables -> Prop) w0 :
  consistent data -> idle w0 -> (patience (db w0) < fuel)%nat ->
  (forall s flip t t' rows, is_nft_stmt data s -> cql flip t s = Some (t', rows) -> Inv t -> Inv t') ->
  Inv (tables (db w0)) ->
  triple (fun w => w = w0) (writeNFTs fuel uninit data ≫= fun _ => sync fuel)
    (fun _ w => exists d, w = set_db d w0 /\ (patience d < fuel)%nat /\ Inv (tables d) /\
       forall r, r ∈ data -> Forall (fun s => nft_effect s (tables d)) (nft_statements r)) noexn.
Proof.
  intros Hcon Hidle Hp Hinv HI w ->. unfold mbind, M_bind. rewrite (writeNFTs_statements data w0).
  set (ss := concat (nft_statements <$> data)).
  assert (Hb : (patience (db w0) <= fuel)%nat) by lia.
  pose proof (writes_spec (SL := SL) fuel (patience (db w0)) Hb uninit (is_nft_stmt data) nft_effect
    (nft_stmt_modelled data) (nft_effect_est data)
    (fun s s' flip t t' rows => nft_effect_keep data s s' flip t t' rows Hcon)
    Inv Hinv w0 (acked (db w0)) [] (Ok <$> ss) ss eq_refl (nft_stmts_all data)
    w0 (writing_start fuel (patience (db w0)) Hb _ _ Inv w0 Hidle (le_n _) HI)) as Hw.
  destruct (for_each _ (Ok <$> ss) w0) as [[[]|e|] w1]; [|done..].
  pose proof (sync_spec (SL := SL) fuel (patience (db w0)) Hb (is_nft_stmt data) nft_effect
    (nft_stmt_modelled data) (nft_effect_est data)
    (fun s s' flip t t' rows => nft_effect_keep data s s' flip t t' rows Hcon)
    Inv Hinv w0 (acked (db w0)) ss w1 Hw) as Hs.
  destruct (sync fuel w1) as [[[]|e|] w2]; [|done..].
  destruct Hs as (d & new & -> & _ & _ & HR & HI' & Hpd). exists d. rewrite idle_set_db by done.
  split_and!; [done | lia | done |]. intros r Hr. apply Forall_forall. intros s Hs.
  rewrite Forall_forall in HR. apply HR. apply elem_of_stmts. by exists r.
Qed.

(** C19: NFT records written as one batch and synced can be read back: at the
    ledger of a record, [fetchNFT] returns its owner and burn mark, and its URI
    when it has one - whatever requests failed and were retried. The batch may
    hold several records of a token; two for the same ledger must agree. *)
Theorem nft_roundtrip (data : list NFTsData) (r : NFTsData) (w0 : Cass D) :
  consistent data -> idle w0 -> (patience (db w0) < fuel)%nat ->
  0 <= numReadRequestsOutstanding_ w0 < 2 ^ 32 ->
  r ∈ data -> 0 <= nd_ledgerSequence r < 2 ^ 32 -> 0 <= nd_owner r < 2 ^ 160 ->
  triple (fun w => w = w0)
    (writeNFTs fuel uninit data ≫= fun _ => sync fuel ≫= fun _ =>
     cass_fetchNFT fuel (nd_tokenID r) (nd_ledgerSequence r))
    (fun res _ => exists uri,
       res = Some (mkNFT (nd_tokenID r) (nd_ledgerSequence r) (nd_owner r) uri (nd_isBurned r)) /\
       forall u, nd_uri r = Some u -> uri = u)
    (fun e _ => read_fails e).
Proof.
  intros Hcon Hidle Hp Hnr Hr Hseq Hown.
  assert (Ha : forall w, (writeNFTs fuel uninit data ≫= fun _ => sync fuel ≫= fun _ =>
     cass_fetchNFT fuel (nd_tokenID r) (nd_ledgerSequence r)) w =
    ((writeNFTs fuel uninit data ≫= fun _ => sync fuel) ≫= fun _ =>
     cass_fetchNFT fuel (nd_tokenID r) (nd_ledgerSequence r)) w) by (symmetry; apply bind_assoc).
  intros w Hw. rewrite Ha. revert w Hw. eapply triple_bind.
  { eapply triple_conseq; [by apply (writeNFTs_keeps data (fun _ => True)) | done | done | done]. }
  intros ?. apply triple_pre_exists; intros d w (-> & Hpd & _ & Heff).
  specialize (Heff r Hr). unfold nft_statements in Heff. apply Forall_cons in Heff as [Htok Huri].
  assert (reading (tables := tables) (patience := patience) w0 (tables d) fuel (set_db d w0)) as Hrd.
  { split; [done|]. by exists d. }
  pose proof (fetchNFT_reads fuel w0 (tables d) (nd_tokenID r) (nd_ledgerSequence r) _ Hrd) as Hf.
  destruct (cass_fetchNFT _ _ _ _) as [[res|e|] w']; [| by destruct Hf | done].
  destruct Hf as [-> _]. unfold nft_lookup. unfold nft_effect in Htok. simpl in Htok.
  rewrite (latest_exact _ _ _ _ Htok). simpl. rewrite u32_small by done.
  assert (be_decode (AccountID_bytes (nd_owner r)) = nd_owner r) as ->.
  { unfold AccountID_bytes. rewrite be_decode_encode. by apply Z.mod_small. }
  eexists. split; [done|]. intros u Hu. rewrite Hu in Huri.
  apply Forall_cons in Huri as [_ [Hu' _]%Forall_cons]. unfold nft_effect in Hu'. simpl in Hu'.
  by rewrite (latest_exact _ _ _ _ Hu').
Qed.

End nft_roundtrip.

Definition sample_nfts : list NFTsData :=
  [mkNFTsData 7 100 (Some 4) 3 (Some [104; 105]) false;
   mkNFTsData 7 120 (Some 1) 5 None false; mkNFTsData 8 100 None 3 (Some []) false].

Lemma sample_nfts_consistent : consistent sample_nfts.
Proof.
  intros d1 d2 H1 H2. unfold sample_nfts in *.
  rewrite !elem_of_cons, elem_of_nil in H1, H2.
  destruct H1 as [->|[->|[->|[]]]], H2 as [->|[->|[->|[]]]]; cbn [nd_tokenID nd_ledgerSequence];
    intros Hid Hs; try lia; try (vm_compute in Hid; discriminate Hid);
    (split; [done|]; split; [done|]); intros u1 u2 [= <-] [= <-]; done.
Qed.

(** The second write fails and is not applied, the third is applied but not
    acknowledged: the token minted in ledger 100 reads back. *)
Lemma nft_roundtrip_witness :
  exists w, (writeNFTs (CS := MemCass) (CA := TypedApi)
       (NU := Build_NftUtils (fun k => k) (fun k => k)) 5 0 sample_nfts ≫= fun _ =>
     sync (CS := MemCass) 5 ≫= fun _ => cass_fetchNFT (CS := MemCass) (CA := TypedApi) 5 7 100)
    (busy_world [(CASS_OK, true); (CASS_ERROR_OTHER 1, false); (CASS_ERROR_SERVER_OVERLOADED, true)])
    = (Ok (Some (mkNFT 7 100 3 [104; 105] false)), w).
Proof.
  set (w0 := busy_world [(CASS_OK, true); (CASS_ERROR_OTHER 1, false); (CASS_ERROR_SERVER_OVERLOADED, true)]).
  pose proof (nft_roundtrip (SL := MemCassLaws) (CL := TypedLaws)
    (NU := Build_NftUtils (fun k => k) (fun k => k)) 5 0 sample_nfts
    (mkNFTsData 7 100 (Some 4) 3 (Some [104; 105]) false) w0 sample_nfts_consistent
    ltac:(split_and!; done) ltac:(vm_compute; lia) ltac:(done) ltac:(left) ltac:(done) ltac:(done)
    w0 eq_refl) as Ht.
  cbn [nd_tokenID nd_ledgerSequence nd_owner nd_isBurned nd_uri] in Ht.
  match type of Ht with match ?m with _ => _ end =>
    assert (Hok : exists r, m.1 = Ok r) by (vm_compute; eexists; reflexivity);
    destruct m as [[res|e|] w'] end; [| destruct Hok; discriminate ..].
  destruct Ht as (uri & -> & Hu). rewrite (Hu _ eq_refl). by exists w'.
Defined.
