(* ===== verification/CassandraCommit.v ===== *)
(** * The ledger range and its commit

    [doFinishWritesSync] and [executeSyncUpdate] of
    [src/src/backend/CassandraBackend.h] and [hardFetchLedgerRange] of
    [CassandraBackend.cpp] over the tables: the range a reader sees, and the
    conditional update that commits a ledger. *)

From stdpp Require Import base list gmap strings sorting.
From Stdlib Require Import ZArith Lia.
From S2P Require Import Prelude Types SimpleCache Backend Cql Cassandra Tables CassandraSpec.

Open Scope Z_scope.

(** The range of the tables: the two rows in order, or the one there is. *)
Definition table_range (T : Tables) : option LedgerRange :=
  match t_ledger_range T !! false, t_ledger_range T !! true with
  | None, None => None
  | Some a, None | None, Some a => Some (mkLedgerRange (u32 a) (u32 a))
  | Some a, Some b => Some (mkLedgerRange (Z.min (u32 a) (u32 b)) (Z.max (u32 a) (u32 b)))
  end.

(** A statement that writes the range table. *)
Definition range_stmt (s : CassandraStatement) : bool :=
  bool_decide (statement_ s = Some updateLedgerRange_ \/ statement_ s = Some deleteLedgerRange_).

Section commit.
Context {D : Type} `{CS : CassSession D} {tables : D -> Tables} {patience : D -> nat}
  {acked : D -> list CassandraStatement} `{SL : !SessionLaws tables patience acked}.
Context `{CA : CassApi} `{CL : !CassApiLaws} (fuel : nat) (uninit : Z).

Abbreviation rd := (reading (tables := tables) (patience := patience)).

Lemma hardFetchLedgerRange_within w0 T k :
  (k <= fuel)%nat ->
  triple (rd w0 T k) (cass_hardFetchLedgerRange fuel)
    (fun r w => r = table_range T /\ rd w0 T k w)
    (fun e w => read_fails e /\ rd w0 T (pred k) w).
Proof.
  intros Hk. unfold cass_hardFetchLedgerRange.
  eapply triple_bind; [apply read_stmt_within; [done | solve_binds | done | done]|].
  intros r. apply triple_pre_pure; intros (flip & rows & [= <-] & Hmk).
  apply triple_lift. intros w Hw. unfold table_range, range_rows in *.
  destruct flip; destruct (t_ledger_range T !! false) as [a|], (t_ledger_range T !! true) as [b|];
    simpl in Hmk; injection Hmk as <-; unfold range_of_rows; try done;
    erewrite hasResult_row by done; cbn [negb]; erewrite getUInt32_at by done; simpl;
    try (split; [|done]; by rewrite Z.gtb_ltb, Z.ltb_irrefl).
  all: erewrite getUInt32_at by done; simpl; (split; [|done]).
  - destruct (u32 b >? u32 a) eqn:Hc; zbool; do 2 f_equal; lia.
  - destruct (u32 a >? u32 b) eqn:Hc; zbool; do 2 f_equal; lia.
Qed.

(** Timeouts of the range read are retried until it answers. *)
Lemma rangeNoThrow_reads w0 T k :
  (k <= fuel)%nat ->
  triple (rd w0 T k) (retryOnTimeout fuel (cass_hardFetchLedgerRange fuel))
    (fun r w => r = table_range T /\ rd w0 T k w)
    (fun e w => e = RuntimeError "invalid query" /\ rd w0 T k w).
Proof.
  intros Hk. assert (forall n m, (m <= k)%nat -> (m <= n)%nat -> triple (rd w0 T m)
    (retryOnTimeout n (cass_hardFetchLedgerRange fuel))
    (fun r w => r = table_range T /\ rd w0 T m w)
    (fun e w => e = RuntimeError "invalid query" /\ rd w0 T m w)) as Hloop; [|by apply Hloop].
  induction n as [|n IH]; intros m Hmk Hm; simpl.
  - intros w (_ & d & _ & _ & Hp). lia.
  - eapply (triple_catch _ _ _ _ _ (rd w0 T (pred m))).
    + eapply triple_conseq; [apply (hardFetchLedgerRange_within w0 T m); lia | done | done |].
      intros e w [[-> | ->] Hr]; simpl; [done|]. split; [done|]. eapply reading_mono; [|done]. lia.
    + eapply triple_conseq; [apply (IH (pred m)); lia | done | |];
        intros ? w [H1 H2]; (split; [done|]); (eapply reading_mono; [|done]; lia).
Qed.

(** The tables some attempts of [s] can leave. *)
Definition attempts (s : CassandraStatement) : Tables -> Tables -> Prop :=
  rtc (fun t t' => exists flip rows, cql flip t s = Some (t', rows)).

(** The session of [w0] replaced by one that satisfies [P]. *)
Definition session_with (w0 : Cass D) (P : D -> Prop) (w : Cass D) : Prop :=
  exists d, w = set_db d w0 /\ P d.

Lemma sync_update_loop_spec w0 s T0 a n k timedOut :
  modelled s = true -> (k <= n)%nat ->
  triple (session_with w0 (fun d => attempts s T0 (tables d) /\ acked d = a /\ (patience d < k)%nat /\
            (timedOut = false -> tables d = T0)))
    (sync_update_loop n s timedOut)
    (fun r => session_with w0 (fun d => exists T flip rows, attempts s T0 T /\
        cql flip T s = Some (tables d, rows) /\ r.1 = Some rows /\ (r.2 = false -> T = T0) /\
        acked d = a ++ [s] /\ (patience d < k)%nat)) noexn.
Proof.
  intros Hm. revert k timedOut. induction n as [|n IH]; intros k timedOut Hk w (d & -> & Hat & Ha & Hp & Hto);
    [lia|]. cbn [sync_update_loop]. unfold execute, mbind, M_bind. cbn [db set_db].
  destruct (session_execute s d) as [[rc res] d'] eqn:Hex.
  destruct (bool_decide (rc = CASS_OK)) eqn:Hrc; cbn [negb].
  - apply bool_decide_eq_true in Hrc as ->.
    destruct (sl_ok s d res d' Hm Hex) as (Hp' & Ha' & flip & rows & -> & Hc).
    exists d'. split; [done|]. exists (tables d), flip, rows. cbn [fst snd].
    rewrite Ha', Ha. split_and!; [done | done | done | done | done | lia].
  - apply bool_decide_eq_false in Hrc.
    destruct (sl_err s d rc res d' Hm Hex Hrc) as (Hp' & Ha' & Ht).
    assert (attempts s T0 (tables d')) as Hat'.
    { destruct Ht as [->|(flip & rows & Hc)]; [done|]. eapply rtc_r; [exact Hat|]. by exists flip, rows. }
    assert (session_with w0 (fun d => attempts s T0 (tables d) /\ acked d = a /\
      (patience d < pred k)%nat /\ (true = false -> tables d = T0)) (set_db d' w0)) as Hpre.
    { exists d'. split; [done|]. split_and!; [done | by rewrite Ha' | lia | done]. }
    specialize (IH (pred k) true ltac:(lia) (set_db d' w0) Hpre).
    change (set_db d' (set_db d w0)) with (set_db d' w0).
    destruct (sync_update_loop n s true (set_db d' w0)) as [[r|e|] w']; [|done..].
    destruct IH as (d2 & -> & T & flip & rows & H1 & H2 & H3 & H4 & H5 & H6).
    exists d2. split; [done|]. exists T, flip, rows. split_and!; try done. lia.
Qed.

Lemma executeSyncWrite_loop n s b :
  meq (executeSyncWrite n s) (sync_update_loop n s b ≫= fun _ => mret tt).
Proof.
  revert b. induction n as [|n IH]; intros b w; [done|]. simpl. unfold mbind, M_bind.
  destruct (execute s w) as [[[rc res]|e|] w']; [|done..].
  destruct (bool_decide (rc = CASS_OK)); simpl; [done|]. rewrite (IH true w').
  unfold mbind, M_bind. by destruct (sync_update_loop n s true w') as [[r|e|] w''].
Qed.

(** *** The conditional update *)

Abbreviation commit_stmt q b e := (mkStatement (Some updateLedgerRange_) [CInt64 q; CBool b; CInt64 e]).

Lemma commit_cql flip T q b e T' rows :
  cql flip T (commit_stmt q b e) = Some (T', rows) ->
  (t_ledger_range T' = <[b := q]> (t_ledger_range T) /\ rows = [[CBool true]] /\
     (t_ledger_range T !! b = None \/ t_ledger_range T !! b = Some e)) \/
  (T' = T /\ exists x, t_ledger_range T !! b = Some x /\ x <> e /\ rows = [[CBool false; CInt64 x]]).
Proof.
  unfold cql. simpl. destruct (t_ledger_range T !! b) as [x|] eqn:Hx; simpl.
  - destruct (x =? e) eqn:Hxe; zbool; intros [= <- <-]; [subst; left; auto | right; eauto 10].
  - intros [= <- <-]. left; auto.
Qed.

(** Attempts of an update of one row leave the other alone. *)
Lemma attempts_other q b e T0 T :
  attempts (commit_stmt q b e) T0 T -> t_ledger_range T !! negb b = t_ledger_range T0 !! negb b.
Proof.
  induction 1 as [|t1 t2 t3 (flip & rows & Hc) _ IH]; [done|]. rewrite IH.
  apply commit_cql in Hc as [(-> & _)|(-> & _)]; [|done].
  rewrite lookup_insert_ne; [done|]. by destruct b.
Qed.

(** [T] is [T0] but for the range. *)
Definition ranged (T0 T : Tables) : Prop := T = set_ledger_range (t_ledger_range T) T0.

Lemma ranged_refl T : ranged T T.
Proof. unfold ranged. by destruct T. Qed.

Lemma ranged_trans T1 T2 T3 : ranged T1 T2 -> ranged T2 T3 -> ranged T1 T3.
Proof. unfold ranged. intros H1 ->. rewrite H1. by destruct T1. Qed.

Lemma commit_ranged flip T q b e T' rows :
  cql flip T (commit_stmt q b e) = Some (T', rows) -> ranged T T'.
Proof.
  unfold cql, ranged. simpl. destruct (t_ledger_range T !! b) as [x|]; simpl; [destruct (x =? e)|];
    intros [= <- <-]; by destruct T.
Qed.

Lemma attempts_ranged q b e T0 T : attempts (commit_stmt q b e) T0 T -> ranged T0 T.
Proof.
  induction 1 as [|t1 t2 t3 (flip & rows & Hc) _ IH]; [apply ranged_refl|].
  eapply ranged_trans; [by eapply commit_ranged | done].
Qed.

(** The update of the last ledger from [e] to [q] takes place when the last ledger
    was [e] or there was none. *)
Definition update_taken (before : option Z) (e : Z) : bool :=
  match before with None => true | Some x => x =? e end.

(** The update, over tables whose last ledger was [before] and with no other writer,
    returned [r] with the tables [T]. When it takes place the last ledger is [q] and
    it returns [true], also when an attempt that was applied came back as an error;
    otherwise the last ledger is as it was. It never returns [true] unless the range
    ends at [q]. *)
Definition commit_outcome (before : option Z) (q e : Z) (r : bool) (T : Tables) : Prop :=
  t_ledger_range T !! true = (if update_taken before e then Some q else before) /\
  (update_taken before e = true -> r = true) /\
  (r = true -> maxSequence <$> table_range T = Some q).

(** After attempts the last ledger is as it was or the update has taken place. *)
Lemma attempts_last q e T0 T :
  attempts (commit_stmt q true e) T0 T ->
  t_ledger_range T !! true = t_ledger_range T0 !! true \/
  (update_taken (t_ledger_range T0 !! true) e = true /\ t_ledger_range T !! true = Some q).
Proof.
  unfold attempts. revert T. apply (rtc_ind_r (R := _) (fun T => _ \/ _)); [by left|]. intros t2 t3 _ (flip & rows & Hc) IH.
  apply commit_cql in Hc as [(HT & _ & Hb)|(-> & _)]; [|done]. right. rewrite HT, lookup_insert_eq. split; [|done].
  destruct IH as [Hl|[Htk _]]; [|done]. rewrite Hl in Hb. destruct Hb as [->| ->]; cbn; [done|]. by rewrite Z.eqb_refl.
Qed.

Lemma committed_range T q :
  0 <= q < 2 ^ 32 -> t_ledger_range T !! true = Some q ->
  (forall x, t_ledger_range T !! false = Some x -> 0 <= x <= q) ->
  maxSequence <$> table_range T = Some q.
Proof.
  intros Hq Ht Hf. unfold table_range. rewrite Ht.
  destruct (t_ledger_range T !! false) as [x|]; simpl.
  - specialize (Hf x eq_refl). rewrite !u32_small by lia. f_equal. lia.
  - by rewrite u32_small.
Qed.

Lemma executeSyncUpdate_spec w0 q e k T0 :
  (k <= fuel)%nat -> 0 <= numReadRequestsOutstanding_ w0 < 2 ^ 32 ->
  ledgerSequence_ w0 = q -> 0 <= q < 2 ^ 32 ->
  (forall x, t_ledger_range T0 !! false = Some x -> 0 <= x <= q) ->
  triple (session_with w0 (fun d => tables d = T0 /\ (patience d < k)%nat))
    (executeSyncUpdate fuel (commit_stmt q true e))
    (fun r => session_with w0 (fun d => ranged T0 (tables d) /\
       commit_outcome (t_ledger_range T0 !! true) q e r (tables d) /\
       t_ledger_range (tables d) !! false = t_ledger_range T0 !! false))
    (fun ex w => ex = RuntimeError "invalid query" /\
       session_with w0 (fun d => ranged T0 (tables d)) w).
Proof.
  intros Hk Hnr Hls Hq Hf. set (s := commit_stmt q true e). unfold executeSyncUpdate.
  apply (triple_bind _ _ _ (fun r => session_with w0 (fun d => exists T flip rows, attempts s T0 T /\
    cql flip T s = Some (tables d, rows) /\ r.1 = Some rows /\ (r.2 = false -> T = T0) /\ (patience d < k)%nat))).
  { intros w (d & -> & HT & Hp).
    pose proof (sync_update_loop_spec w0 s T0 (acked d) fuel k false eq_refl Hk (set_db d w0)) as Hl.
    assert (session_with w0 (fun d' => attempts s T0 (tables d') /\ acked d' = acked d /\
      (patience d' < k)%nat /\ (false = false -> tables d' = T0)) (set_db d w0)) as Hpre.
    { exists d. split; [done|]. rewrite HT. split_and!; [apply rtc_refl | done | done | done]. }
    specialize (Hl Hpre). destruct (sync_update_loop fuel s false (set_db d w0)) as [[r|?|] w']; [|done..].
    destruct Hl as (d' & -> & T & flip & rows & H1 & H2 & H3 & H4 & _ & H6).
    exists d'. split; [done|]. exists T, flip, rows. done. }
  intros [res timedOut]. cbn [fst snd]. intros w (d & -> & T & flip & rows & Hat & Hc & -> & Hto & Hp).
  pose proof (attempts_last _ _ _ _ Hat) as Hlast. pose proof (attempts_other _ _ _ _ _ Hat) as Hoth. cbn [negb] in Hoth.
  assert (ranged T0 (tables d)) as Hrg by (eapply ranged_trans; [by eapply attempts_ranged | by eapply commit_ranged]).
  assert (t_ledger_range (tables d) !! false = t_ledger_range T0 !! false) as Hsame.
  { rewrite <- Hoth. apply commit_cql in Hc as [(HT & _)|(HT & _)]; rewrite HT; [|done].
    by rewrite lookup_insert_ne. }
  assert (forall x, t_ledger_range (tables d) !! false = Some x -> 0 <= x <= q) as Hf'.
  { by rewrite Hsame. }
  apply commit_cql in Hc as [(HT & -> & Hb)|(HT & x & Hx & Hne & ->)]; cbn [head mbind option_bind].
  - assert (t_ledger_range (tables d) !! true = Some q) as Htrue by (by rewrite HT, lookup_insert_eq).
    cbn [lookup list_lookup]. rewrite bool_ok, bool_decide_true by done. cbn [negb andb].
    assert (maxSequence <$> table_range (tables d) = Some q) as Hm by (by apply committed_range).
    exists d. split; [done|]. split; [done|]. split; [|done]. unfold commit_outcome. rewrite Htrue.
    destruct Hlast as [Hl|[Htk _]]; [|by rewrite Htk].
    rewrite Hl in Hb. destruct Hb as [->| ->]; cbn; rewrite ?Z.eqb_refl; done.
  - cbn [lookup list_lookup]. rewrite bool_ok, bool_decide_true by done. cbn [negb andb].
    rewrite <- HT in Hx.
    assert (forall r : bool, (r = true -> maxSequence <$> table_range (tables d) = Some q) ->
      (r = false -> t_ledger_range T0 !! true = Some x) -> (x = q -> r = true \/ t_ledger_range T0 !! true = Some x) ->
      commit_outcome (t_ledger_range T0 !! true) q e r (tables d)) as Hno.
    { intros r Hr Hu Hq'. unfold commit_outcome. rewrite Hx. rewrite <- HT, Hx in Hlast. destruct Hlast as [Hl|[Htk Hl]].
      - rewrite <- Hl. cbn. by rewrite (proj2 (Z.eqb_neq x e)).
      - injection Hl as ->. rewrite Htk. split; [done|]. split; [|done]. intros _. destruct (Hq' eq_refl) as [?|Hl]; [done|].
        rewrite Hl in Htk. cbn in Htk. by apply Z.eqb_eq in Htk. }
    destruct timedOut; [|exists d; split_and!; [done | done | | done]; apply Hno; try done; intros _; [|right]; by rewrite <- (Hto eq_refl), <- HT].
    assert (rd w0 (tables d) k (set_db d w0)) as Hrd.
    { split; [done|]. exists d. done. }
    pose proof (rangeNoThrow_reads w0 (tables d) k Hk _ Hrd) as Hr. unfold mbind, M_bind.
    destruct (retryOnTimeout fuel (cass_hardFetchLedgerRange fuel) (set_db d w0)) as [[rg|ex|] w'];
      [| destruct Hr as [-> (_ & d' & -> & HT' & _)]; split; [done|]; exists d'; by rewrite HT' | done].
    destruct Hr as [-> (_ & d' & -> & HT' & _)]. unfold gets, mret, M_ret. cbn [ledgerSequence_ set_db].
    exists d'. split; [done|]. rewrite HT'. split; [done|]. split; [|done]. rewrite Hls.
    destruct (decide (x = q)) as [->|Hxq].
    + pose proof (committed_range _ _ Hq Hx Hf') as Hm. destruct (table_range (tables d)) as [rg|]; [|done].
      injection Hm as Hm. rewrite Hm, Z.eqb_refl. apply Hno; [|done|by left]. intros _. cbn. by rewrite Hm.
    + apply Hno; [|intros _|done].
      * destruct (table_range (tables d)) as [rg|]; [|done]. destruct (Z.eqb_spec (maxSequence rg) q); [|done]. intros _. cbn. by f_equal.
      * rewrite <- HT, Hx in Hlast. destruct Hlast as [Hl|[_ Hl]]; [done|congruence].
Qed.

Lemma cql_keeps_range s flip t t' rows :
  range_stmt s = false -> modelled s = true -> cql flip t s = Some (t', rows) ->
  t_ledger_range t' = t_ledger_range t.
Proof.
  unfold range_stmt, modelled, cql. destruct s as [[p|] vs]; [|done].
  intros Hr%bool_decide_eq_false [Hty%bool_decide_eq_true _]%andb_true_iff. cbn [statement_ bound] in *.
  destruct p; try (exfalso; apply Hr; by auto); simpl in Hty; type_inv Hty vs; simpl;
    by intros [= <- <-].
Qed.

(** The first range row is written when the database has none. *)
Lemma write_first_range_spec w0 q k T0 :
  (k <= fuel)%nat -> ledgerSequence_ w0 = q -> 0 <= q ->
  (forall x, t_ledger_range T0 !! false = Some x -> 0 <= x <= q) ->
  triple (session_with w0 (fun d => tables d = T0 /\ (patience d < k)%nat))
    (write_first_range fuel)
    (fun _ => session_with w0 (fun d => ranged T0 (tables d) /\ (patience d < k)%nat /\
       (forall x, t_ledger_range (tables d) !! false = Some x -> 0 <= x <= q) /\
       (c_range w0 = None -> is_Some (t_ledger_range (tables d) !! false)) /\
       t_ledger_range (tables d) !! true = t_ledger_range T0 !! true)) noexn.
Proof.
  intros Hk Hls Hq Hf w (d & -> & HT & Hp). unfold write_first_range, gets.
  unfold mbind at 1 2, M_bind at 1 2. cbn [c_range ledgerSequence_ set_db]. rewrite Hls.
  destruct (c_range w0) as [r|] eqn:Hr.
  { exists d. split; [done|]. rewrite HT. split_and!; [apply ranged_refl | done | done | done | done]. }
  set (s := commit_stmt q false q).
  assert (updateLedgerRange_stmt q false q = Ok s) as -> by solve_binds.
  unfold mbind, M_bind, lift_res. rewrite (executeSyncWrite_loop fuel s false (set_db d w0)).
  assert (session_with w0 (fun d' => attempts s T0 (tables d') /\ acked d' = acked d /\
    (patience d' < k)%nat /\ (false = false -> tables d' = T0)) (set_db d w0)) as Hpre.
  { exists d. split; [done|]. rewrite HT. split_and!; [apply rtc_refl | done | done | done]. }
  pose proof (sync_update_loop_spec w0 s T0 (acked d) fuel k false eq_refl Hk (set_db d w0) Hpre) as Hl.
  unfold mbind, M_bind. destruct (sync_update_loop fuel s false (set_db d w0)) as [[res|?|] w']; [|done..].
  destruct Hl as (d' & -> & T & flip & rows & Hat & Hc & _ & _ & _ & Hp').
  assert (forall x, t_ledger_range T !! false = Some x -> 0 <= x <= q) as HfT.
  { clear -Hat Hf Hq. induction Hat as [|t1 t2 t3 (flip & rows & Hc) _ IH]; [done|]. apply IH.
    apply commit_cql in Hc as [(HT & _)|(HT & _)]; [|by rewrite HT].
    rewrite HT. intros x. rewrite lookup_insert_eq. intros [= <-]. lia. }
  exists d'. split; [done|]. split_and!; [| done | | |].
  - eapply ranged_trans; [by eapply attempts_ranged | by eapply commit_ranged].
  - apply commit_cql in Hc as [(HT' & _)|(HT' & _)]; rewrite HT'; [|done].
    intros x. rewrite lookup_insert_eq. intros [= <-]. lia.
  - intros _. apply commit_cql in Hc as [(HT' & _)|(HT' & x & Hx & _)]; rewrite HT'; [|by eexists].
    rewrite lookup_insert_eq. by eexists.
  - pose proof (attempts_other _ _ _ _ _ Hat) as Hoth. cbn [negb] in Hoth. rewrite <- Hoth.
    apply commit_cql in Hc as [(HT' & _)|(HT' & _)]; rewrite HT'; [|done]. by rewrite lookup_insert_ne.
Qed.

(** The commit from a backend with writes under way. *)
Section finish.
Context (Iss : CassandraStatement -> Prop) (R : CassandraStatement -> Tables -> Prop).
Context (HS : forall s, Iss s -> modelled s = true /\ range_stmt s = false).
Context (Hest : forall s flip t t' rows, Iss s -> cql flip t s = Some (t', rows) -> R s t').
Context (Hkeep : forall s s' flip t t' rows,
  Iss s -> Iss s' -> cql flip t s' = Some (t', rows) -> R s t -> R s t').
Context (Inv : Tables -> Prop).
Context (Hinv : forall s flip t t' rows, Iss s -> cql flip t s = Some (t', rows) -> Inv t -> Inv t').

Lemma doFinishWritesSync_from budget (Hb : (budget <= fuel)%nat) (w0 : Cass D) a0 issued q before :
  idle w0 -> (budget < fuel)%nat -> 0 <= numReadRequestsOutstanding_ w0 < 2 ^ 32 ->
  ledgerSequence_ w0 = q -> 0 < q < 2 ^ 32 ->
  (forall t, Inv t -> t_ledger_range t !! true = before /\ forall x, t_ledger_range t !! false = Some x -> 0 <= x <= q) ->
  triple (writing (tables := tables) (patience := patience) (acked := acked) budget Iss R Inv w0 a0 issued)
    (doFinishWritesSync fuel)
    (fun r w => exists d1 new d, acked d1 = a0 ++ new /\ new ≡ₚ issued /\
       Forall (fun s => R s (tables d1)) issued /\ Inv (tables d1) /\
       w = set_db d w0 /\ ranged (tables d1) (tables d) /\ commit_outcome before q (q - 1) r (tables d) /\
       (c_range w0 = None -> is_Some (t_ledger_range (tables d) !! false)))
    (fun e w => e = RuntimeError "invalid query" /\
       exists d1 d, Inv (tables d1) /\ w = set_db d w0 /\ ranged (tables d1) (tables d)).
Proof.
  intros Hidle Hlt Hnr Hls Hq Hf w1 Hw. unfold doFinishWritesSync.
  pose proof (sync_spec (SL := SL) fuel budget Hb Iss R (fun s Hs => proj1 (HS s Hs)) Hest Hkeep Inv Hinv
    w0 a0 issued w1 Hw) as Hs.
  unfold mbind at 1, M_bind at 1. destruct (sync fuel w1) as [[[]|?|] w2]; [|done..].
  destruct Hs as (d1 & new & -> & Ha & Hperm & HR & HI & Hp1). rewrite idle_set_db by done.
  assert (session_with w0 (fun d => tables d = tables d1 /\ (patience d < fuel)%nat) (set_db d1 w0)) as Hpre.
  { exists d1. split; [done|]. split; [done | lia]. }
  pose proof (write_first_range_spec w0 q fuel (tables d1) (le_n _) Hls ltac:(lia) (proj2 (Hf _ HI)) _ Hpre) as Hfr.
  unfold mbind at 1, M_bind at 1.
  destruct (write_first_range fuel (set_db d1 w0)) as [[[]|?|] w3]; [|done..].
  destruct Hfr as (d2 & -> & Hrg2 & Hp2 & Hf2 & Hsome & Hlast). rewrite (proj1 (Hf _ HI)) in Hlast.
  unfold gets, mbind at 1, M_bind at 1. cbn [ledgerSequence_ set_db]. rewrite Hls, u32_small by lia.
  assert (updateLedgerRange_stmt q true (q - 1) = Ok (commit_stmt q true (q - 1))) as -> by solve_binds.
  unfold mbind at 1, M_bind at 1, lift_res.
  pose proof (executeSyncUpdate_spec w0 q (q - 1) fuel (tables d2) (le_n _) Hnr Hls ltac:(lia) Hf2
    (set_db d2 w0) (ex_intro _ d2 (conj eq_refl (conj eq_refl Hp2)))) as Hup.
  unfold mbind, M_bind.
  destruct (executeSyncUpdate fuel _ (set_db d2 w0)) as [[r|?|] w4]; [| | done].
  - destruct Hup as (d & -> & Hrg & Hout & Hsame). rewrite Hlast in Hout. destruct r; cbn [negb];
      (exists d1, new, d; split_and!; [done | done | done | done | done | by eapply ranged_trans | done | by rewrite Hsame]).
  - destruct Hup as (-> & d & -> & Hrg). split; [done|]. exists d1, d.
    split_and!; [done | done | by eapply ranged_trans].
Qed.

End finish.

(** C33: the ledger commit. From an idle backend, after any writes of a ledger [q],
    [doFinishWritesSync] waits for all of them to be acknowledged, then updates the
    range and nothing else. When the stored range ended at the predecessor, or was
    not there, it then ends at [q] and the result is [true] - also when an update
    was applied, came back as an error and was retried, so that the retry was
    refused. Otherwise the last ledger is left as it was; the result is [true] only
    if the range ends at [q]. A database without a range gets its first ledger. *)
Theorem doFinishWritesSync_spec (ss : list CassandraStatement) (q : Z) (w0 : Cass D) :
  idle w0 -> (patience (db w0) < fuel)%nat -> 0 <= numReadRequestsOutstanding_ w0 < 2 ^ 32 ->
  ledgerSequence_ w0 = q -> 0 < q < 2 ^ 32 ->
  (forall x, t_ledger_range (tables (db w0)) !! false = Some x -> 0 <= x <= q) ->
  Forall (fun s => modelled s = true /\ range_stmt s = false) ss ->
  triple (fun w => w = w0)
    (for_each (makeAndExecuteAsyncWrite fuel uninit) (Ok <$> ss) ≫= fun _ => doFinishWritesSync fuel)
    (fun r w => exists d1 new d, acked d1 = acked (db w0) ++ new /\ new ≡ₚ ss /\
       w = set_db d w0 /\ ranged (tables d1) (tables d) /\
       commit_outcome (t_ledger_range (tables (db w0)) !! true) q (q - 1) r (tables d) /\
       (c_range w0 = None -> is_Some (t_ledger_range (tables d) !! false)))
    (fun e _ => e = RuntimeError "invalid query").
Proof.
  intros Hidle Hp Hnr Hls Hq Hf Hss w ->.
  assert (Hb : (patience (db w0) <= fuel)%nat) by lia.
  set (Iss := fun s => modelled s = true /\ range_stmt s = false) in *.
  set (Inv := fun t => t_ledger_range t = t_ledger_range (tables (db w0))).
  assert (forall s flip t t' rows, Iss s -> cql flip t s = Some (t', rows) -> Inv t -> Inv t') as Hinv.
  { intros s flip t t' rows [Hm Hr] Hc. unfold Inv. by rewrite (cql_keeps_range s flip t t' rows). }
  pose proof (writes_spec (SL := SL) fuel (patience (db w0)) Hb uninit Iss (fun _ _ => True)
    ltac:(by intros s []) ltac:(done) ltac:(done) Inv Hinv w0 (acked (db w0)) [] _ ss eq_refl Hss w0
    (writing_start fuel (patience (db w0)) Hb Iss (fun _ _ => True) Inv w0 Hidle (le_n _) eq_refl)) as Hw.
  unfold mbind, M_bind. destruct (for_each _ (Ok <$> ss) w0) as [[[]|?|] w1]; [|done..].
  pose proof (doFinishWritesSync_from Iss (fun _ _ => True) ltac:(done) ltac:(done) ltac:(done) Inv Hinv
    (patience (db w0)) Hb w0 (acked (db w0)) ss q (t_ledger_range (tables (db w0)) !! true) Hidle Hp Hnr Hls Hq
    ltac:(intros t Ht; by rewrite Ht)
    w1 Hw) as Hfin.
  destruct (doFinishWritesSync fuel w1) as [[r|e|] w2]; [| by destruct Hfin | done].
  destruct Hfin as (d1 & new & d & H1 & H2 & _ & _ & H3 & H4 & H5 & H6).
  by exists d1, new, d.
Qed.

End commit.

(** Ledger 6 after ledger 5; the update is applied without being acknowledged,
    its retry finds ledger 6 already there. *)
Definition commit_world : Cass MemSession :=
  mkCass (mkMemSession (set_ledger_range {[false := 5; true := 5]} no_tables)
            [(CASS_OK, true); (CASS_OK, true); (CASS_OK, true); (CASS_ERROR_OTHER 1, true)] [])
    SimpleCache_init (Some (mkLedgerRange 5 5)) 1 0 10 0 100 0 6 [].

Lemma doFinishWritesSync_spec_witness :
  exists r w, (for_each (makeAndExecuteAsyncWrite (CS := MemCass) 5 0) (Ok <$> three_writes) ≫=
     fun _ => doFinishWritesSync (CS := MemCass) (CA := TypedApi) 5) commit_world = (Ok r, w) /\
    r = true /\ maxSequence <$> table_range (ms_tables (db w)) = Some 6.
Proof.
  pose proof (doFinishWritesSync_spec (SL := MemCassLaws) (CL := TypedLaws) 5 0 three_writes 6 commit_world
    ltac:(split_and!; done) ltac:(vm_compute; lia) ltac:(done) eq_refl ltac:(done)
    ltac:(intros x Hx; vm_compute in Hx; injection Hx as <-; lia) ltac:(repeat constructor) commit_world eq_refl) as Ht.
  match type of Ht with match ?m with _ => _ end =>
    assert (Hok : exists r, m.1 = Ok r) by (eexists; vm_compute; reflexivity);
    destruct m as [o w] end.
  destruct Hok as [r Hok]. simpl in Hok. subst o. destruct Ht as (d1 & new & d & _ & _ & -> & _ & (_ & Htk & Hmax) & _).
  assert (r = true) as -> by (apply Htk; vm_compute; reflexivity).
  exists true. eexists. split; [reflexivity|]. split; [done | exact (Hmax eq_refl)].
Defined.
