(* ===== verification/CassandraPaging.v ===== *)
(** * Pages of transactions

    [fetchAccountTransactions] and [fetchNFTTransactions] of
    [src/src/backend/CassandraBackend.cpp] over the tables: what a page holds,
    and that following the cursors visits every row once. *)

From stdpp Require Import base list gmap strings sorting.
From Stdlib Require Import ZArith Lia.
From S2P Require Import Prelude Types SimpleCache Backend Cql Cassandra Tables CassandraSpec.

Open Scope Z_scope.

Abbreviation TxRow := ((Z * Z) * Blob)%type.

Definition row_before (a b : TxRow) : Prop := pair_lt a.1 b.1 = true.

(** The rows left from a position: at or after it going forward, before it and
    in descending order going backward. *)
Definition rows_left (forward : bool) (rows : list TxRow) (c : Z * Z) : list TxRow :=
  if forward then filter (fun r => pair_lt r.1 c = false) rows
  else reverse (filter (fun r => pair_lt r.1 c = true) rows).

Definition cursor_pos (forward : bool) (cursor : option TransactionsCursor) : Z * Z :=
  match cursor with
  | Some c => (tc_ledgerSequence c, tc_transactionIndex c)
  | None => (placeHolder forward, placeHolder forward)
  end.

(** Positions fit in 32 bits, with room for the step past the last one. *)
Definition rows_fit (rows : list TxRow) : Prop :=
  Forall (fun r => 0 <= r.1.1 < 2 ^ 32 /\ 0 <= r.1.2 < 2 ^ 32 - 1) rows.

(** ** Order *)

Lemma pair_lt_spec a b : pair_lt a b = true <-> a.1 < b.1 \/ (a.1 = b.1 /\ a.2 < b.2).
Proof. unfold pair_lt. rewrite orb_true_iff, andb_true_iff, !Z.ltb_lt, Z.eqb_eq. tauto. Qed.

Lemma pair_ge_spec a b : pair_lt a b = false <-> b.1 < a.1 \/ (b.1 = a.1 /\ b.2 <= a.2).
Proof.
  rewrite <- not_true_iff_false, pair_lt_spec. destruct (Z.lt_trichotomy a.1 b.1) as [?|[?|?]]; lia.
Qed.

Lemma sort_insert_rows (x : TxRow) l :
  Forall (fun y => y.1 <> x.1) l -> StronglySorted row_before l ->
  StronglySorted row_before (sort_insert (fun a b => pair_lt a.1 b.1) x l).
Proof.
  intros Hne Hs. induction Hs as [|y l Hs IH Hy]; simpl; [by repeat constructor|].
  apply Forall_cons in Hne as [Hne Hnel]. unfold row_before in *.
  destruct (pair_lt x.1 y.1) eqn:Hxy.
  - constructor; [by constructor|]. constructor; [done|].
    eapply Forall_impl; [exact Hy|]. intros z. cbv beta. rewrite !pair_lt_spec in *. lia.
  - constructor; [auto|]. rewrite sort_insert_perm. constructor; [|done].
    apply pair_ge_spec in Hxy. apply pair_lt_spec.
    destruct x as [[a b] ?], y as [[a' b'] ?]; simpl in *.
    destruct (decide (a' < a)); [by left|]. right. split; [lia|].
    assert (b <> b') by (intros ->; apply Hne; f_equal; lia). lia.
Qed.

Lemma tx_rows_sorted k t : StronglySorted row_before (tx_rows_asc k t).
Proof.
  unfold tx_rows_asc. set (m := default ∅ (t !! k)).
  pose proof (NoDup_fst_map_to_list m) as Hnd. revert Hnd. generalize (map_to_list m) as l.
  assert (forall l acc, NoDup ((acc ++ l).*1) -> StronglySorted row_before acc ->
    StronglySorted row_before (foldl (fun acc x => sort_insert (fun a b => pair_lt a.1 b.1) x acc) acc l)) as Hgen.
  { induction l as [|x l IH]; intros acc Hnd Hs; simpl; [done|]. apply IH.
    - rewrite sort_insert_perm. by rewrite <- Permutation_middle in Hnd.
    - apply sort_insert_rows; [|done]. apply Forall_forall. intros y Hy Heq.
      rewrite <- Permutation_middle in Hnd. simpl in Hnd. apply NoDup_cons in Hnd as [Hni _].
      apply Hni. rewrite <- Heq. apply list_elem_of_fmap_2. set_solver. }
  intros l Hnd. apply Hgen; [done | constructor].
Qed.

Lemma filter_all {A} (P : A -> Prop) `{!forall x, Decision (P x)} (l : list A) :
  Forall P l -> filter P l = l.
Proof. induction 1 as [|x l Hx Hl IH]; [done|]. by rewrite filter_cons_True, IH. Qed.

Lemma StronglySorted_filter {A} (R : A -> A -> Prop) (P : A -> Prop) `{!forall x, Decision (P x)} l :
  StronglySorted R l -> StronglySorted R (filter P l).
Proof.
  induction 1 as [|a l Hs IH Ha]; [constructor|]. rewrite filter_cons. case_decide; [|done].
  constructor; [done|]. apply Forall_forall. intros b [_ Hb]%list_elem_of_filter.
  rewrite Forall_forall in Ha. by apply Ha.
Qed.

(** In a list sorted by [R], what comes after the [n]-th element. *)
Lemma sorted_rest {A} (R : A -> A -> Prop) `{!forall x y, Decision (R x y)} (F : list A) n x :
  (forall a, ~ R a a) -> (forall a b c, R a b -> R b c -> R a c) ->
  StronglySorted R F -> last (take n F) = Some x -> filter (R x) F = drop n F.
Proof.
  intros Hirr Htr Hs. revert n. induction Hs as [|a F Hs IH Ha]; intros [|n] Hl; simpl in Hl; try done.
  cbn [drop]. destruct n as [|n].
  - simpl in Hl. injection Hl as <-. rewrite drop_0, filter_cons_False by apply Hirr.
    by apply filter_all.
  - assert (last (take (S n) F) = Some x \/ (F = [] /\ x = a)) as [Hl'|[-> ->]].
    { destruct F as [|b F]; [right; simpl in Hl; by injection Hl | by left]. }
    + rewrite filter_cons_False; [by apply IH|].
      intros Hxa. assert (x ∈ F) as Hx.
      { apply last_Some in Hl' as [l' Hl']. apply (subseteq_take (S n)). rewrite Hl'. set_solver. }
      rewrite Forall_forall in Ha. apply (Hirr a). by apply (Htr a x a); [apply Ha|].
    + by rewrite filter_cons_False by apply Hirr.
Qed.

Lemma StronglySorted_reverse {A} (R : A -> A -> Prop) (l : list A) :
  StronglySorted R l -> StronglySorted (fun a b => R b a) (reverse l).
Proof.
  induction 1 as [|a l Hs IH Ha]; [constructor|]. rewrite reverse_cons.
  apply StronglySorted_app_2; [| done | by repeat constructor].
  intros x1 x2 Hx1 Hx2. apply list_elem_of_singleton in Hx2 as ->.
  rewrite Forall_forall in Ha. apply Ha. by rewrite elem_of_reverse in Hx1.
Qed.

#[local] Instance row_before_dec a b : Decision (row_before a b).
Proof. unfold row_before. apply _. Defined.

Lemma row_before_irr a : ~ row_before a a.
Proof. unfold row_before. rewrite pair_lt_spec. lia. Qed.

Lemma row_before_trans a b c : row_before a b -> row_before b c -> row_before a c.
Proof. unfold row_before. rewrite !pair_lt_spec. lia. Qed.

(** Where the next page starts: past the last row, or at it. *)
Definition next_pos (forward : bool) (x : TxRow) : Z * Z :=
  if forward then (x.1.1, x.1.2 + 1) else x.1.

(** The rows left after a page are the ones the page did not hold. *)
Lemma rows_left_next forward rows c n x :
  StronglySorted row_before rows ->
  last (take n (rows_left forward rows c)) = Some x ->
  rows_left forward rows (next_pos forward x) = drop n (rows_left forward rows c).
Proof.
  intros Hs Hl.
  assert (x ∈ rows_left forward rows c) as Hx.
  { apply last_Some in Hl as [l' Hl]. apply (subseteq_take n). rewrite Hl. set_solver. }
  destruct forward; simpl in *.
  - apply list_elem_of_filter in Hx as [Hx _].
    rewrite <- (sorted_rest row_before _ n x); [| apply row_before_irr | apply row_before_trans
      | by apply StronglySorted_filter | done].
    rewrite list_filter_filter_l.
    + apply list_filter_iff. intros r. unfold row_before.
      rewrite pair_ge_spec, pair_lt_spec. simpl. lia.
    + intros r. unfold row_before. rewrite pair_ge_spec, pair_lt_spec in *. lia.
  - rewrite elem_of_reverse in Hx. apply list_elem_of_filter in Hx as [Hx _].
    rewrite <- (sorted_rest (fun a b => row_before b a) _ n x);
      [| apply row_before_irr | intros a b d ? ?; by eapply row_before_trans
       | by apply StronglySorted_reverse, StronglySorted_filter | done].
    rewrite filter_reverse, list_filter_filter_l; [done|].
    intros r. unfold row_before. rewrite !pair_lt_spec in *. lia.
Qed.

(** ** The row loop *)

Section paging.
Context {D : Type} `{CS : CassSession D} {tables : D -> Tables} {patience : D -> nat}
  {acked : D -> list CassandraStatement} `{SL : !SessionLaws tables patience acked}.
Context `{CA : CassApi} `{CL : !CassApiLaws} (fuel : nat).

Abbreviation rd := (reading (tables := tables) (patience := patience)).

(** The position of a row as a cursor. *)
Definition cursor_at (forward : bool) (x : TxRow) : TransactionsCursor :=
  mkTransactionsCursor (u32 x.1.1) (if forward then u32 (u32 x.1.2 + 1) else u32 x.1.2).

Lemma tx_rows_spec forward cursor x xs res n :
  (length xs <= n)%nat ->
  tx_rows n (S (length xs)) forward cursor
    (mkResult res (Some (tx_row x)) (tx_row <$> xs) 0) =
  Ok ((fun r => uint256_fromVoid r.2) <$> x :: xs, cursor_at forward <$> last (x :: xs)).
Proof.
  revert x cursor n. induction xs as [|y xs IH]; intros x cursor n Hn.
  - destruct n; cbn [tx_rows]; erewrite getUInt256_at by done; cbn [mbind Res_bind length];
      unfold getInt64Tuple; simpl; by rewrite tuple_ok.
  - destruct n as [|n]; simpl in Hn; [lia|].
    cbn [tx_rows]. erewrite getUInt256_at by done. cbn [mbind Res_bind length].
    change (S (S (length xs)) - 1)%nat with (S (length xs)). cbn [Nat.eqb].
    cbn [nextRow advance iter_ fmap list_fmap]. fold_fmap. cbn [result_].
    cbn [mbind Res_bind nextRow advance iter_ result_]. by rewrite (IH y cursor n) by lia.
Qed.

(** A page over the rows [rows] of a partition: the transactions of the rows
    left, up to the limit. When that many rows were left there is a cursor, whose
    numbers fit in 32 bits and which leaves exactly the other rows; when fewer were
    left there is none. *)
Definition page_ok (T : Tables) (forward : bool) (rows : list TxRow) (c : Z * Z) (limit : Z)
    (r : TransactionsAndCursor) : Prop :=
  let left := rows_left forward rows c in
  tac_txns r = (fun x => tx_lookup T (uint256_fromVoid x.2)) <$> take (Z.to_nat limit) left /\
  if decide (limit <= Z.of_nat (length left)) then
    exists c', tac_cursor r = Some c' /\ cursor_fits c' /\
      rows_left forward rows (tc_ledgerSequence c', tc_transactionIndex c') = drop (Z.to_nat limit) left
  else tac_cursor r = None.

Lemma cursor_at_pos forward x :
  0 <= x.1.1 < 2 ^ 32 -> 0 <= x.1.2 < 2 ^ 32 - 1 ->
  (tc_ledgerSequence (cursor_at forward x), tc_transactionIndex (cursor_at forward x)) =
    next_pos forward x.
Proof.
  intros H1 H2. unfold cursor_at, next_pos. cbn [tc_ledgerSequence tc_transactionIndex].
  destruct forward; rewrite !u32_small by (rewrite ?u32_small; lia); [done|]. by destruct x as [[? ?] ?].
Qed.

Lemma rows_left_fit forward rows c x :
  rows_fit rows -> x ∈ rows_left forward rows c -> 0 <= x.1.1 < 2 ^ 32 /\ 0 <= x.1.2 < 2 ^ 32 - 1.
Proof.
  intros Hf Hx. assert (x ∈ rows) as Hin.
  { destruct forward; simpl in Hx; [|rewrite elem_of_reverse in Hx];
      by apply list_elem_of_filter in Hx as [_ ?]. }
  unfold rows_fit in Hf. rewrite Forall_forall in Hf. by apply Hf.
Qed.

Lemma tx_page_spec w0 T b p vs forward cursor limit rows :
  b = Ok (mkStatement (Some p) vs) ->
  modelled (mkStatement (Some p) vs) = true -> (forall t, cql_write t p vs = None) ->
  (forall flip, cql_read flip T p vs =
     Some (tx_row <$> take (Z.to_nat limit) (rows_left forward rows (cursor_pos forward cursor)))) ->
  StronglySorted row_before rows -> rows_fit rows -> 0 < limit ->
  triple (rd w0 T fuel) (tx_page fuel b limit forward cursor)
    (fun r w => page_ok T forward rows (cursor_pos forward cursor) limit r /\ rd w0 T fuel w)
    (fun e w => read_fails e /\ rd w0 T fuel w).
Proof.
  intros Hb Hm Hw Hread Hs Hfit Hlim. unfold tx_page.
  eapply triple_bind; [by apply (read_stmt_spec fuel w0 T b p vs)|].
  intros r. apply triple_pre_pure; intros (flip & rows' & Hrows & Hmk).
  rewrite Hread in Hrows. injection Hrows as <-. unfold page_ok.
  set (left := rows_left forward rows (cursor_pos forward cursor)) in *.
  destruct (take (Z.to_nat limit) left) as [|x xs] eqn:Hpage; simpl in Hmk; injection Hmk as <-.
  - rewrite hasResult_none by done. apply triple_ret. intros w Hwd. split; [|done]. simpl.
    split; [done|]. apply (f_equal length) in Hpage. rewrite length_take in Hpage. simpl in Hpage.
    by rewrite decide_False by lia.
  - erewrite hasResult_row by done. cbn [negb].
    match goal with |- context [numRows ?r] =>
      assert (numRows r = S (length xs)) as ->
        by (unfold numRows, default, id; cbn [result_ length]; f_equal; exact (length_fmap tx_row xs)) end.
    fold_fmap.
    rewrite tx_rows_spec by lia. apply triple_ok_bind.
    eapply triple_bind; [apply fetchTransactions_reads|].
    intros txns. apply triple_pre_pure; intros ->.
    assert (tx_lookup T <$> ((fun r : TxRow => uint256_fromVoid r.2) <$> x :: xs) =
      (fun x : TxRow => tx_lookup T (uint256_fromVoid x.2)) <$> x :: xs) as -> by (by rewrite <- list_fmap_compose).
    rewrite length_fmap.
    pose proof (length_take left (Z.to_nat limit)) as Hlen. rewrite Hpage in Hlen.
    destruct (Z.of_nat (length (x :: xs)) =? limit) eqn:Heq; zbool; apply triple_ret; intros w Hwd;
      (split; [|done]); cbn [tac_txns tac_cursor]; (split; [done|]).
    + destruct (last (x :: xs)) as [y|] eqn:Hlast; [|by apply last_None in Hlast].
      cbn [fmap option_fmap option_map].
      assert (last (take (Z.to_nat limit) left) = Some y) as Hlast' by (by rewrite Hpage).
      assert (y ∈ left) as Hy.
      { apply last_Some in Hlast as [l' Hl]. apply (subseteq_take (Z.to_nat limit)).
        rewrite Hpage, Hl. set_solver. }
      destruct (rows_left_fit _ _ _ _ Hfit Hy) as [H1 H2].
      rewrite decide_True by lia. eexists. split; [done|]. split.
      * split; [apply u32_bound|]. cbn [cursor_at tc_transactionIndex]. destruct forward; apply u32_bound.
      * rewrite cursor_at_pos by done. by apply rows_left_next.
    + by rewrite decide_False by lia.
Qed.

Lemma limit_int limit : 0 < limit < 2 ^ 31 -> int32_of limit = limit.
Proof. intros Hl. unfold int32_of. rewrite u32_small by lia. by rewrite (proj2 (Z.ltb_lt _ _)) by lia. Qed.

(** Both queries, once their statement is bound. *)
Ltac solve_page w0 T :=
  match goal with Hr : c_range w0 = Some _ |- _ =>
    intros w Hw; assert (c_range w = c_range w0) as Hr' by (by destruct Hw as (_ & d & -> & _));
    unfold fetchAccountTransactions, fetchNFTTransactions, gets, mbind at 1, M_bind at 1; rewrite Hr', Hr;
    clear Hr'; revert w Hw end;
  unfold selectAccountTx_stmt, selectNFTTx_stmt;
  match goal with |- context [bind_cursor ?forward ?cursor] =>
    destruct forward, cursor as [[s i]|]; unfold bind_cursor, cursor_pos; cbn [tc_ledgerSequence tc_transactionIndex] end;
  (eapply (tx_page_spec w0 T); [solve_binds | done | done | | apply tx_rows_sorted | done | lia]);
  intros flip; cbn [cql_read]; by rewrite limit_int.

Lemma account_page w0 T account limit forward cursor rng :
  c_range w0 = Some rng -> 0 < limit < 2 ^ 31 ->
  let rows := tx_rows_asc (AccountID_bytes account) (t_account_tx T) in rows_fit rows ->
  triple (rd w0 T fuel) (fetchAccountTransactions fuel account limit forward cursor)
    (fun r w => page_ok T forward rows (cursor_pos forward cursor) limit r /\ rd w0 T fuel w)
    (fun e w => read_fails e /\ rd w0 T fuel w).
Proof. intros Hrng Hlim rows Hf. solve_page w0 T. Qed.

Lemma nft_page w0 T id limit forward cursor rng :
  c_range w0 = Some rng -> 0 < limit < 2 ^ 31 ->
  let rows := tx_rows_asc (uint256_bytes id) (t_nf_token_transactions T) in rows_fit rows ->
  triple (rd w0 T fuel) (fetchNFTTransactions fuel id limit forward cursor)
    (fun r w => page_ok T forward rows (cursor_pos forward cursor) limit r /\ rd w0 T fuel w)
    (fun e w => read_fails e /\ rd w0 T fuel w).
Proof. intros Hrng Hlim rows Hf. solve_page w0 T. Qed.

(** C34: a page of an account's transactions, or of an NFT's, in either
    direction: the transactions of the next rows, in the order of ledger and
    transaction index, up to the limit; and a cursor when the page is full, from
    which the remaining rows, and no others, are left, and no cursor when it is not
    - so following the cursors visits every row once and ends. *)
Theorem transaction_pages (w0 : Cass D) (T : Tables) (account : AccountID) (id : uint256)
    (limit : Z) (forward : bool) (cursor : option TransactionsCursor) (rng : LedgerRange) :
  c_range w0 = Some rng -> 0 < limit < 2 ^ 31 ->
  let acc_rows := tx_rows_asc (AccountID_bytes account) (t_account_tx T) in
  let nft_rows := tx_rows_asc (uint256_bytes id) (t_nf_token_transactions T) in
  rows_fit acc_rows -> rows_fit nft_rows ->
  triple (rd w0 T fuel) (fetchAccountTransactions fuel account limit forward cursor)
    (fun r w => page_ok T forward acc_rows (cursor_pos forward cursor) limit r /\ rd w0 T fuel w)
    (fun e w => read_fails e /\ rd w0 T fuel w) /\
  triple (rd w0 T fuel) (fetchNFTTransactions fuel id limit forward cursor)
    (fun r w => page_ok T forward nft_rows (cursor_pos forward cursor) limit r /\ rd w0 T fuel w)
    (fun e w => read_fails e /\ rd w0 T fuel w).
Proof. intros Hrng Hlim acc_rows nft_rows Hfa Hfn. split; [by eapply account_page | by eapply nft_page]. Qed.

End paging.

(** Three transactions of account 5, in two ledgers. *)
Definition paged_tables : Tables :=
  set_account_tx {[AccountID_bytes 5 :=
    <[(7, 2) := uint256_bytes 12]> (<[(9, 0) := uint256_bytes 13]> {[(7, 1) := uint256_bytes 11]})]}
    (set_transactions {[uint256_bytes 11 := (7, 100, [1], [2])]} no_tables).

Definition paged_world : Cass MemSession :=
  mkCass (mkMemSession paged_tables [(CASS_ERROR_OTHER 5, false)] []) SimpleCache_init
    (Some (mkLedgerRange 5 9)) 1 0 10 0 100 0 0 [].

Lemma transaction_pages_witness :
  exists r w, fetchAccountTransactions (CS := MemCass) (CA := TypedApi) 3 5 2 true None paged_world
                = (Ok r, w) /\
    tac_txns r = [mkTransactionAndMetadata [1] [2] 7 100; TransactionAndMetadata_default] /\
    tac_cursor r = Some (mkTransactionsCursor 7 3) /\
    rows_left true (tx_rows_asc (AccountID_bytes 5) (t_account_tx paged_tables)) (7, 3) =
      [((9, 0), uint256_bytes 13)].
Proof.
  assert (Hfit : rows_fit (tx_rows_asc (AccountID_bytes 5) (t_account_tx paged_tables))).
  { replace (tx_rows_asc _ _) with [((7, 1), uint256_bytes 11); ((7, 2), uint256_bytes 12);
      ((9, 0), uint256_bytes 13)] by (vm_compute; reflexivity).
    repeat (apply Forall_cons; split; [simpl; lia|]). apply Forall_nil_2. }
  assert (Hrd : reading (tables := ms_tables) (patience := ms_patience) paged_world paged_tables 3 paged_world).
  { split; [simpl; lia|]. exists (db paged_world). split_and!; [reflexivity | reflexivity | vm_compute; lia]. }
  pose proof (proj1 (transaction_pages (SL := MemCassLaws) (CL := TypedLaws) 3 paged_world paged_tables
    5 0 2 true None (mkLedgerRange 5 9) eq_refl ltac:(lia) Hfit (Forall_nil_2 _)) paged_world Hrd) as Ht.
  match type of Ht with match ?m with _ => _ end =>
    assert (Hok : exists r, m.1 = Ok r /\ tac_cursor r = Some (mkTransactionsCursor 7 3))
      by (vm_compute; eexists; split; reflexivity);
    destruct m as [o w] end.
  destruct Hok as (r & Hr & Hc). simpl in Hr. subst o. destruct Ht as [[Htx Hleft] _].
  rewrite decide_True in Hleft by (vm_compute; done). destruct Hleft as (c & Hc' & _ & Hleft).
  rewrite Hc in Hc'. injection Hc' as <-. exists r, w. split; [reflexivity|].
  split; [rewrite Htx; by vm_compute|]. split; [exact Hc|].
  etrans; [exact Hleft | by vm_compute].
Defined.

(** ** Online deletion *)

(** With no more ledgers than are to be kept - here 100 and 200 - the first
    ledger to keep wraps around to 4294967196, and the deletion, which should do
    nothing, sets the first ledger of the stored range to it. *)
Theorem doOnlineDelete_wraps :
  exists w,
    doOnlineDelete (CS := MemCass) (CA := TypedApi) 5 0 200
      (mkCass (mkMemSession (set_ledger_range {[false := 1; true := 100]} no_tables) [] [])
         SimpleCache_init (Some (mkLedgerRange 1 100)) 1 0 10 0 100 0 100 []) = (Ok true, w) /\
    t_ledger_range (ms_tables (db w)) = {[false := 4294967196; true := 100]}.
Proof. eexists. split; [by vm_compute|]. by vm_compute. Qed.
