(* ===== verification/AsyncWrites.v ===== *)
(** * Asynchronous writes under arbitrary scheduling

    The throttle and the barrier of [src/src/backend/CassandraBackend.h]
    ([incrementOutstandingRequestCount], [decrementOutstandingRequestCount],
    [sync]) and the write callback of [CassandraBackend.cpp]
    ([processAsyncWriteResponse]) at the grain of their atomic actions: one
    thread issues writes and barriers, the driver's threads answer requests in
    any order, the timers of failed writes fire at any time, and a condition
    variable may wake without a notification. [Cassandra] answers every request
    when it is sent; here the schedule is free. *)

From stdpp Require Import base list gmap.
From Stdlib Require Import ZArith Lia.
From S2P Require Import Prelude Cql.

Open Scope Z_scope.

(** What the issuing thread is to do. *)
Inductive Op :=
| OWrite (s : CassandraStatement)
| OSync.

(** Where it is. [PLocked], [PRecheck] hold [throttleMutex_]: at the [if] and in
    the loop of [throttleCv_.wait]; [PAsleep] waits on the condition variable,
    [PRelock] is awake and needs the mutex; [PCount] is at
    [++numWriteRequestsOutstanding_], [PSend] at the call of the session. The
    barrier's states are the same on [syncMutex_]. *)
Inductive Pc :=
| PIdle
| PLock (s : CassandraStatement)
| PLocked (s : CassandraStatement)
| PRecheck (s : CassandraStatement)
| PAsleep (s : CassandraStatement)
| PRelock (s : CassandraStatement)
| PCount (s : CassandraStatement)
| PSend (s : CassandraStatement)
| PSyncLock
| PSyncRecheck
| PSyncAsleep
| PSyncRelock.

(** Where a request is: with the driver, waiting for its timer, or acknowledged
    and counted down to [cur], about to lock [throttleMutex_] and notify; then,
    when [cur] was 0, about to lock [syncMutex_] and notify. *)
Inductive Req :=
| RSent (s : CassandraStatement)
| RBackoff (s : CassandraStatement)
| RThrottle (cur : Z)
| RSync.

(** [issued] and [acked] are the statements sent and acknowledged so far,
    [faults] and [wakeups] the failures and spurious wake-ups still to come. *)
Record St := mkSt {
  pc : Pc; todo : list Op; num : Z; reqs : list Req;
  issued : list CassandraStatement; acked : list CassandraStatement;
  faults : nat; wakeups : nat
}.

(** The numbered request answers, its timer fires, or its callback notifies. *)
Inductive Event :=
| EWriter
| ESpurious
| ERespond (i : nat) (ok : bool)
| ETimer (i : nat)
| ENotify (i : nat).

Section protocol.
(** [maxWriteRequestsOutstanding] *)
Context (max : Z).

Definition set_pc (p : Pc) (st : St) : St :=
  mkSt p (todo st) (num st) (reqs st) (issued st) (acked st) (faults st) (wakeups st).
Definition set_num (n : Z) (st : St) : St :=
  mkSt (pc st) (todo st) n (reqs st) (issued st) (acked st) (faults st) (wakeups st).
Definition set_reqs (l : list Req) (st : St) : St :=
  mkSt (pc st) (todo st) (num st) l (issued st) (acked st) (faults st) (wakeups st).

Definition can_add (st : St) : bool := num st <? max.
Definition all_finished (st : St) : bool := num st =? 0.

Definition throttle_free (p : Pc) : bool :=
  match p with PLocked _ | PRecheck _ => false | _ => true end.
Definition sync_free (p : Pc) : bool := match p with PSyncRecheck => false | _ => true end.

(** The next atomic action of the issuing thread; [None] when it has to wait. *)
Definition writer_step (st : St) : option St :=
  match pc st with
  | PIdle =>
      match todo st with
      | [] => None
      | o :: rest =>
          Some (mkSt (match o with OWrite s => PLock s | OSync => PSyncLock end) rest (num st)
                  (reqs st) (issued st) (acked st) (faults st) (wakeups st))
      end
  | PLock s => Some (set_pc (PLocked s) st)
  | PLocked s => Some (set_pc (if can_add st then PCount s else PRecheck s) st)
  | PRecheck s => Some (set_pc (if can_add st then PCount s else PAsleep s) st)
  | PAsleep _ => None
  | PRelock s => Some (set_pc (PRecheck s) st)
  | PCount s => Some (set_pc (PSend s) (set_num (u32 (num st + 1)) st))
  | PSend s =>
      Some (mkSt PIdle (todo st) (num st) (reqs st ++ [RSent s]) (issued st ++ [s]) (acked st)
              (faults st) (wakeups st))
  | PSyncLock => Some (set_pc PSyncRecheck st)
  | PSyncRecheck => Some (set_pc (if all_finished st then PIdle else PSyncAsleep) st)
  | PSyncAsleep => None
  | PSyncRelock => Some (set_pc PSyncRecheck st)
  end.

Definition wake_throttle (p : Pc) : Pc := match p with PAsleep s => PRelock s | _ => p end.
Definition wake_sync (p : Pc) : Pc := match p with PSyncAsleep => PSyncRelock | _ => p end.

Definition fire (e : Event) (st : St) : option St :=
  match e with
  | EWriter => writer_step st
  | ESpurious =>
      match wakeups st with
      | O => None
      | S n => Some (mkSt (wake_sync (wake_throttle (pc st))) (todo st) (num st) (reqs st)
                       (issued st) (acked st) (faults st) n)
      end
  | ERespond i ok =>
      match reqs st !! i with
      | Some (RSent s) =>
          if ok then
            if num st =? 0 then None (* throws; never happens, see [outstanding] *)
            else
              let cur := u32 (num st - 1) in
              Some (mkSt (pc st) (todo st) cur (<[i := RThrottle cur]> (reqs st)) (issued st)
                      (acked st ++ [s]) (faults st) (wakeups st))
          else
            match faults st with
            | O => None
            | S n => Some (mkSt (pc st) (todo st) (num st) (<[i := RBackoff s]> (reqs st))
                             (issued st) (acked st) n (wakeups st))
            end
      | _ => None
      end
  | ETimer i =>
      match reqs st !! i with
      | Some (RBackoff s) => Some (set_reqs (<[i := RSent s]> (reqs st)) st)
      | _ => None
      end
  | ENotify i =>
      match reqs st !! i with
      | Some (RThrottle cur) =>
          if throttle_free (pc st) then
            Some (set_pc (wake_throttle (pc st))
                    (set_reqs (if cur =? 0 then <[i := RSync]> (reqs st) else delete i (reqs st)) st))
          else None
      | Some RSync =>
          if sync_free (pc st)
          then Some (set_pc (wake_sync (pc st)) (set_reqs (delete i (reqs st)) st))
          else None
      | _ => None
      end
  end.

(** A backend with nothing outstanding, [nf] failures and [nw] spurious wake-ups
    to come. *)
Definition start (ops : list Op) (nf nw : nat) : St := mkSt PIdle ops 0 [] [] [] nf nw.

Fixpoint run (es : list Event) (st : St) : option St :=
  match es with
  | [] => Some st
  | e :: es' => match fire e st with Some st' => run es' st' | None => None end
  end.

(** The statements of a list of operations. *)
Definition op_statements (ops : list Op) : list CassandraStatement :=
  ops ≫= fun o => match o with OWrite s => [s] | OSync => [] end.

End protocol.

(** ** Invariant *)

(** The statement of a request that is not acknowledged. *)
Definition req_pending (r : Req) : option CassandraStatement :=
  match r with RSent s | RBackoff s => Some s | _ => None end.
Definition pending (st : St) : list CassandraStatement := omap req_pending (reqs st).

(** The statement the issuing thread holds, and whether it is counted already. *)
Definition pc_statement (p : Pc) : list CassandraStatement :=
  match p with
  | PLock s | PLocked s | PRecheck s | PAsleep s | PRelock s | PCount s | PSend s => [s]
  | _ => []
  end.
Definition pc_counted (p : Pc) : Z := match p with PSend _ => 1 | _ => 0 end.

Record protocol_inv (max : Z) (ops : list Op) (st : St) : Prop := {
  inv_num : num st = Z.of_nat (length (pending st)) + pc_counted (pc st);
  inv_max : num st <= max;
  inv_count : forall s, pc st = PCount s -> num st < max;
  inv_acked : acked st ++ pending st ≡ₚ issued st;
  inv_order : issued st ++ pc_statement (pc st) ++ op_statements (todo st) = op_statements ops;
  (** a waiting thread will be notified *)
  inv_throttle : forall s, pc st = PAsleep s -> num st < max -> exists cur, RThrottle cur ∈ reqs st;
  inv_sync : pc st = PSyncAsleep -> num st = 0 -> RThrottle 0 ∈ reqs st \/ RSync ∈ reqs st
}.

(** A request in its place. *)
Lemma req_split (l : list Req) i r :
  l !! i = Some r -> exists a b, l = a ++ r :: b /\
    (forall x, <[i := x]> l = a ++ x :: b) /\ delete i l = a ++ b.
Proof.
  intros Hi. exists (take i l), (drop (S i) l).
  split_and!; [by rewrite take_drop_middle | | by rewrite delete_take_drop].
  intros x. apply insert_take_drop. by eapply lookup_lt_Some.
Qed.

Lemma pending_split (st : St) a r b :
  reqs st = a ++ r :: b ->
  pending st = omap req_pending a ++ option_list (req_pending r) ++ omap req_pending b.
Proof. intros Hr. unfold pending. rewrite Hr, omap_app. simpl. by destruct (req_pending r). Qed.

Ltac inv_split :=
  split; unfold pending; simpl; rewrite ?omap_app; simpl;
  change (list_omap Req CassandraStatement req_pending) with (omap (M := list) req_pending);
  try done.

Ltac split_req H :=
  let a := fresh "a" in let b := fresh "b" in let Hl := fresh "Hl" in
  let Hins := fresh "Hins" in let Hdel := fresh "Hdel" in
  apply req_split in H as (a & b & Hl & Hins & Hdel).

Lemma pc_counted_nonneg p : 0 <= pc_counted p.
Proof. by destruct p. Qed.

Section invariant.
Context (max : Z) (Hmax : 0 < max < 2 ^ 32) (ops : list Op).

Abbreviation inv := (protocol_inv max ops).

Lemma start_inv nf nw : inv (start ops nf nw).
Proof. split; try done; simpl; lia. Qed.

Lemma writer_inv st st' : inv st -> writer_step max st = Some st' -> inv st'.
Proof.
  intros [H1 H2 H3 H4 H5 H6 H7] Hs. unfold writer_step in Hs. unfold pending in *.
  destruct (pc st) eqn:Hpc; simpl in *; try discriminate Hs.
  - destruct (todo st) as [|o rest] eqn:Htd; [done|]. injection Hs as <-.
    destruct o; split; unfold pending; simpl in *; try done; try lia.
  - injection Hs as <-. split; unfold pending; simpl; try done; lia.
  - injection Hs as <-. unfold can_add. destruct (num st <? max) eqn:Hc; zbool;
      split; unfold pending; simpl; try done; try lia.
  - injection Hs as <-. unfold can_add. destruct (num st <? max) eqn:Hc; zbool;
      split; unfold pending; simpl; try done; try lia.
  - injection Hs as <-. split; unfold pending; simpl; try done; lia.
  - injection Hs as <-. specialize (H3 s eq_refl).
    split; unfold pending; simpl; try done; rewrite ?u32_small; lia.
  - injection Hs as <-. inv_split.
    + rewrite length_app. simpl. lia.
    + by rewrite app_assoc, H4.
    + by rewrite <- app_assoc.
  - injection Hs as <-. split; unfold pending; simpl; try done; lia.
  - injection Hs as <-. unfold all_finished. destruct (num st =? 0) eqn:Hc; zbool;
      split; unfold pending; simpl; try done; lia.
  - injection Hs as <-. split; unfold pending; simpl; try done; lia.
Qed.

(** Waking changes none of what is counted. *)
Lemma wake_inv st p :
  inv st -> p = wake_throttle (pc st) \/ p = wake_sync (pc st) -> inv (set_pc p st).
Proof.
  intros [H1 H2 H3 H4 H5 H6 H7] Hp. unfold pending in *.
  destruct (pc st) eqn:Hpc; simpl in *; destruct Hp as [->| ->];
    split; unfold pending; simpl; eauto; try done.
Qed.

Lemma respond_inv i ok st st' : inv st -> fire max (ERespond i ok) st = Some st' -> inv st'.
Proof.
  intros [H1 H2 H3 H4 H5 H6 H7]. simpl.
  destruct (reqs st !! i) as [[s|s|cur|]|] eqn:Hi; try done. split_req Hi.
  rewrite (pending_split _ _ _ _ Hl) in H1, H4. simpl in H1, H4. rewrite Hl in H6, H7.
  destruct ok.
  - destruct (num st =? 0) eqn:Hz; zbool; [done|]. intros [= <-]. rewrite Hins.
    pose proof (pc_counted_nonneg (pc st)) as Hpc.
    assert (u32 (num st - 1) = num st - 1) as -> by (apply u32_small; lia).
    rewrite length_app in H1. cbn [length] in H1. inv_split.
    + rewrite length_app. lia.
    + lia.
    + intros s' Hs'. specialize (H3 s' Hs'). lia.
    + rewrite <- H4. rewrite <- app_assoc. apply Permutation_app_head. simpl.
      by rewrite Permutation_middle.
    + intros s' Hs' _. exists (num st - 1). set_solver.
    + intros Hp Hz'. left. rewrite Hz'. set_solver.
  - destruct (faults st) as [|n]; [done|]. intros [= <-]. rewrite Hins. inv_split.
    + intros s' Hs' Hlt. destruct (H6 s' Hs' Hlt) as [cur Hc]. exists cur. set_solver.
    + intros Hp Hz. destruct (H7 Hp Hz); set_solver.
Qed.

Lemma timer_inv i st st' : inv st -> fire max (ETimer i) st = Some st' -> inv st'.
Proof.
  intros [H1 H2 H3 H4 H5 H6 H7]. simpl.
  destruct (reqs st !! i) as [[s|s|cur|]|] eqn:Hi; try done. split_req Hi. intros [= <-].
  rewrite (pending_split _ _ _ _ Hl) in H1, H4. simpl in H1, H4. rewrite Hl in H6, H7.
  rewrite Hins. inv_split.
  - intros s' Hs' Hlt. destruct (H6 s' Hs' Hlt) as [cur Hc]. exists cur. set_solver.
  - intros Hp Hz. destruct (H7 Hp Hz); set_solver.
Qed.

(** A notification finds the mutex free and the thread it is for wakes. *)
Lemma notify_throttle_inv st a cur b :
  inv st -> reqs st = a ++ RThrottle cur :: b ->
  inv (set_pc (wake_throttle (pc st)) (set_reqs (if cur =? 0 then a ++ RSync :: b else a ++ b) st)).
Proof.
  intros [H1 H2 H3 H4 H5 H6 H7] Hl. rewrite (pending_split _ _ _ _ Hl) in H1, H4. simpl in H1, H4.
  rewrite Hl in H6, H7.
  assert (forall s, wake_throttle (pc st) <> PAsleep s) as Hna by (intros s'; by destruct (pc st)).
  split; unfold pending; simpl.
  - rewrite H1. destruct (cur =? 0); rewrite omap_app; by destruct (pc st).
  - done.
  - intros s' Hs'. apply (H3 s'). by destruct (pc st).
  - rewrite <- H4. destruct (cur =? 0); by rewrite omap_app.
  - rewrite <- H5. by destruct (pc st).
  - intros s' Hs'. by destruct (Hna s').
  - intros Hp Hz. assert (Hps : pc st = PSyncAsleep) by (by destruct (pc st)).
    destruct (H7 Hps Hz) as [Hin|Hin]; [|right; destruct (cur =? 0); set_solver].
    apply elem_of_app in Hin as [Hin|[Hin|Hin]%elem_of_cons].
    + left. destruct (cur =? 0); set_solver.
    + injection Hin as <-. right. simpl. set_solver.
    + left. destruct (cur =? 0); set_solver.
Qed.

Lemma notify_sync_inv st a b :
  inv st -> reqs st = a ++ RSync :: b -> inv (set_pc (wake_sync (pc st)) (set_reqs (a ++ b) st)).
Proof.
  intros [H1 H2 H3 H4 H5 H6 H7] Hl. rewrite (pending_split _ _ _ _ Hl) in H1, H4. simpl in H1, H4.
  rewrite Hl in H6, H7. split; unfold pending; simpl; rewrite ?omap_app.
  - rewrite H1. by destruct (pc st).
  - done.
  - intros s' Hs'. apply (H3 s'). by destruct (pc st).
  - done.
  - rewrite <- H5. by destruct (pc st).
  - intros s' Hs' Hlt. assert (Hps : pc st = PAsleep s') by (by destruct (pc st)).
    destruct (H6 s' Hps Hlt) as [cur Hc]. exists cur. set_solver.
  - intros Hp. by destruct (pc st).
Qed.

Lemma fire_inv e st st' : inv st -> fire max e st = Some st' -> inv st'.
Proof.
  intros Hinv. destruct e as [| |i ok|i|i];
    [by apply writer_inv | | by apply respond_inv | by apply timer_inv |]; simpl.
  - destruct (wakeups st) as [|n]; [done|]. intros [= <-].
    assert (Hw : inv (set_pc (wake_sync (wake_throttle (pc st))) st)).
    { destruct (pc st) eqn:Hpc; simpl; (eapply wake_inv; [done|]); rewrite Hpc; auto. }
    destruct Hw as [H1 H2 H3 H4 H5 H6 H7]. by split.
  - destruct (reqs st !! i) as [[s|s|cur|]|] eqn:Hi; try done; split_req Hi.
    + destruct (throttle_free (pc st)); [|done]. intros [= <-]. rewrite Hins, Hdel.
      by apply notify_throttle_inv.
    + destruct (sync_free (pc st)); [|done]. intros [= <-]. rewrite Hdel. by apply notify_sync_inv.
Qed.

Lemma run_inv es st st' : inv st -> run max es st = Some st' -> inv st'.
Proof.
  revert st. induction es as [|e es IH]; intros st Hi; simpl; [by intros [= <-]|].
  destruct (fire max e st) as [st1|] eqn:Hf; [|done]. apply IH. by eapply fire_inv.
Qed.

(** ** Progress: nothing to do only when all is done *)

Lemma quiescent st :
  inv st -> (forall e, fire max e st = None) ->
  pc st = PIdle /\ todo st = [] /\ reqs st = [] /\ num st = 0 /\ acked st ≡ₚ op_statements ops.
Proof.
  intros [H1 H2 H3 H4 H5 H6 H7] Hstuck. pose proof (Hstuck EWriter) as Hw. simpl in Hw.
  assert (throttle_free (pc st) = true /\ sync_free (pc st) = true) as [Hf1 Hf2].
  { unfold writer_step in Hw. destruct (pc st); simpl; try done. }
  assert (reqs st = []) as Hr.
  { destruct (reqs st) as [|[s|s|cur|] l] eqn:Hl; [done| | | |].
    - pose proof (Hstuck (ERespond 0 true)) as Hx. simpl in Hx. rewrite Hl in Hx. simpl in Hx.
      destruct (num st =? 0) eqn:Hz; [|done]. zbool. rewrite (pending_split st [] _ l Hl) in H1.
      pose proof (pc_counted_nonneg (pc st)). simpl in H1. lia.
    - pose proof (Hstuck (ETimer 0)) as Hx. simpl in Hx. by rewrite Hl in Hx.
    - pose proof (Hstuck (ENotify 0)) as Hx. simpl in Hx. by rewrite Hl, Hf1 in Hx.
    - pose proof (Hstuck (ENotify 0)) as Hx. simpl in Hx. by rewrite Hl, Hf2 in Hx. }
  unfold pending in *. rewrite Hr in *. simpl in *.
  unfold writer_step in Hw. destruct (pc st) eqn:Hpc; try done.
  - destruct (todo st) eqn:Htd; [|done]. split_and!; try done; try lia.
    rewrite <- H5. simpl. rewrite app_nil_r. rewrite <- H4. by rewrite app_nil_r.
  - destruct (H6 _ eq_refl) as [cur Hc]; [simpl in H1; lia|]. by apply elem_of_nil in Hc.
  - destruct (H7 eq_refl) as [Hc|Hc]; [simpl in H1; lia | by apply elem_of_nil in Hc..].
Qed.

End invariant.

(** ** Termination *)

Definition pc_weight (p : Pc) : nat :=
  match p with
  | PIdle => 0
  | PLock _ | PSyncLock => 35
  | PLocked _ => 34
  | PRelock _ | PSyncRelock => 33
  | PRecheck _ | PSyncRecheck => 32
  | PAsleep _ | PSyncAsleep => 31
  | PCount _ => 30
  | PSend _ => 29
  end.
Definition req_weight (r : Req) : nat :=
  match r with RSent _ => 15 | RBackoff _ => 16 | RThrottle _ => 12 | RSync => 6 end.

Definition weight (st : St) : nat :=
  40 * length (todo st) + pc_weight (pc st) + sum_list_with req_weight (reqs st) +
  10 * faults st + 5 * wakeups st.

Lemma wake_weight p :
  (pc_weight (wake_throttle p) <= pc_weight p + 2)%nat /\
  (pc_weight (wake_sync p) <= pc_weight p + 2)%nat /\
  (pc_weight (wake_sync (wake_throttle p)) <= pc_weight p + 2)%nat.
Proof. destruct p; simpl; lia. Qed.

Lemma fire_weight max e st st' : fire max e st = Some st' -> (weight st' < weight st)%nat.
Proof.
  pose proof (wake_weight (pc st)) as (W1 & W2 & W3).
  destruct e as [| |i ok|i|i]; simpl; unfold weight.
  - unfold writer_step. destruct (pc st) eqn:Hpc; try done;
      [destruct (todo st) as [|[] rest]; [done|..] | ..]; intros [= <-]; simpl;
      try destruct (can_add max st); try destruct (all_finished st);
      rewrite ?sum_list_with_app; simpl; lia.
  - destruct (wakeups st); [done|]. intros [= <-]. simpl. lia.
  - destruct (reqs st !! i) as [[s|s|cur|]|] eqn:Hi; try done. split_req Hi. destruct ok.
    + destruct (num st =? 0); [done|]. intros [= <-]. simpl. rewrite Hins, Hl, !sum_list_with_app. simpl. lia.
    + destruct (faults st); [done|]. intros [= <-]. simpl. rewrite Hins, Hl, !sum_list_with_app. simpl. lia.
  - destruct (reqs st !! i) as [[s|s|cur|]|] eqn:Hi; try done. split_req Hi.
    intros [= <-]. simpl. rewrite Hins, Hl, !sum_list_with_app. simpl. lia.
  - destruct (reqs st !! i) as [[s|s|cur|]|] eqn:Hi; try done; split_req Hi.
    + destruct (throttle_free _); [|done]. intros [= <-]. simpl.
      destruct (cur =? 0); rewrite ?Hins, ?Hdel, Hl, !sum_list_with_app; simpl; lia.
    + destruct (sync_free _); [|done]. intros [= <-]. simpl.
      rewrite Hdel, Hl, !sum_list_with_app. simpl. lia.
Qed.

Lemma run_weight max es st st' : run max es st = Some st' -> (length es + weight st' <= weight st)%nat.
Proof.
  revert st. induction es as [|e es IH]; intros st; simpl; [by intros [= <-]|].
  destruct (fire max e st) as [st1|] eqn:Hf; [|done]. intros Hr.
  specialize (IH _ Hr). apply fire_weight in Hf. lia.
Qed.

(** ** The theorems *)

(** In every reachable state of the protocol, whatever the schedule, the
    counter is the number of requests sent or about to be sent and not yet
    acknowledged, within the limit; the statements are sent in the order they
    were given, each acknowledged once or still pending; and when the barrier
    finds the counter at zero, everything sent before it is acknowledged. *)
Theorem async_safety (max : Z) (ops : list Op) (nf nw : nat) (es : list Event) (st : St) :
  0 < max < 2 ^ 32 -> run max es (start ops nf nw) = Some st ->
  num st = Z.of_nat (length (pending st)) + pc_counted (pc st) /\ num st <= max /\
  acked st ++ pending st ≡ₚ issued st /\
  issued st ++ pc_statement (pc st) ++ op_statements (todo st) = op_statements ops /\
  (pc st = PSyncRecheck -> all_finished st = true -> acked st ≡ₚ issued st).
Proof.
  intros Hmax Hrun.
  destruct (run_inv max Hmax ops es _ st (start_inv max Hmax ops nf nw) Hrun) as [H1 H2 H3 H4 H5 _ _].
  split_and!; [done | done | done | done |]. intros Hpc Hz. unfold all_finished in Hz. zbool.
  rewrite Hpc in H1. simpl in H1. assert (pending st = []) as Hp by (apply nil_length_inv; lia).
  rewrite Hp, app_nil_r in H4. exact H4.
Qed.

(** C32: no schedule runs for ever or gets stuck: with [nf] failures and [nw]
    spurious wake-ups a run has at most [40 * length ops + 10 * nf + 5 * nw]
    steps, and one that cannot go on - no response, timer, notification or
    action of the thread is possible - has issued everything and returned from
    every barrier, every statement acknowledged exactly once. In particular no
    wake-up is lost. *)
Theorem async_liveness (max : Z) (ops : list Op) (nf nw : nat) (es : list Event) (st : St) :
  0 < max < 2 ^ 32 -> run max es (start ops nf nw) = Some st ->
  (length es <= 40 * length ops + 10 * nf + 5 * nw)%nat /\
  ((forall e, fire max e st = None) ->
     pc st = PIdle /\ todo st = [] /\ reqs st = [] /\ num st = 0 /\ acked st ≡ₚ op_statements ops).
Proof.
  intros Hmax Hrun. split.
  - apply run_weight in Hrun. unfold weight in Hrun at 2. simpl in Hrun. lia.
  - apply (quiescent max Hmax). by eapply (run_inv max Hmax), Hrun; apply start_inv.
Qed.

(** Two writes through a window of one and a barrier, with a failed request and
    a spurious wake-up. *)
Definition demo_ops : list Op :=
  [OWrite (mkStatement (Some insertDiff_) [CInt64 7; CBytes [1]]);
   OWrite (mkStatement (Some insertDiff_) [CInt64 7; CBytes [2]]); OSync].
Definition demo_events : list Event :=
  replicate 9 EWriter ++ [ESpurious; EWriter; EWriter; ERespond 0 false; ETimer 0;
    ERespond 0 true; ENotify 0; ENotify 0] ++
  replicate 7 EWriter ++ [ERespond 0 true; ENotify 0; ENotify 0; EWriter].

Lemma async_safety_witness :
  exists st, run 1 demo_events (start demo_ops 1 1) = Some st /\
    pc st = PSyncRecheck /\ acked st ≡ₚ issued st /\ length (issued st) = 2%nat.
Proof.
  assert (Hmax : 0 < 1 < 2 ^ 32) by lia.
  destruct (run 1 demo_events (start demo_ops 1 1)) as [st|] eqn:Hrun; [|by vm_compute in Hrun].
  pose proof (async_safety 1 demo_ops 1 1 demo_events st Hmax Hrun) as (_ & _ & _ & _ & Hsync).
  exists st. split; [reflexivity|]. vm_compute in Hrun. injection Hrun as Hst. rewrite <- Hst in Hsync |- *.
  split; [reflexivity|]. split; [apply Hsync; reflexivity | reflexivity].
Defined.

Lemma async_liveness_witness :
  exists st, run 1 (demo_events ++ [EWriter]) (start demo_ops 1 1) = Some st /\
    acked st ≡ₚ op_statements demo_ops.
Proof.
  assert (Hmax : 0 < 1 < 2 ^ 32) by lia.
  destruct (run 1 (demo_events ++ [EWriter]) (start demo_ops 1 1)) as [st|] eqn:Hrun; [|by vm_compute in Hrun].
  pose proof (async_liveness 1 demo_ops 1 1 (demo_events ++ [EWriter]) st Hmax Hrun) as [_ Hend].
  exists st. split; [reflexivity|]. apply Hend. vm_compute in Hrun. injection Hrun as <-.
  intros [| |i ok|i|i]; reflexivity.
Defined.
