(* ===== verification/CassandraOpen.v ===== *)
(** * Opening the database

    [CassandraBackend::open] of [src/src/backend/CassandraBackend.cpp] from the
    point where the cluster object is configured: the loop that connects, creates
    the keyspace when it cannot, and sets the tables up; and the loop that
    prepares the statements ([CassandraPreparedStatement::prepareStatement] of
    [CassandraBackend.h]). Both start over after any failure. *)

From stdpp Require Import base list gmap strings.
From Stdlib Require Import ZArith Lia.
From S2P Require Import Prelude Types Cql.

Open Scope Z_scope.

(** The driver: connecting a new session, a simple statement, a preparation. *)
Class ClusterApi (W : Type) := {
  cass_session_connect_keyspace : string -> W -> CassError * W;
  cass_session_connect : W -> CassError * W;
  cass_session_execute_simple : string -> W -> CassError * W;
  cass_session_prepare : string -> W -> CassError * W
}.

(** Calls that fail, fail finitely often; a rejected query may always be. *)
Class ClusterLaws `{ClusterApi W} (patience : W -> nat) := {
  cl_connect_keyspace : forall k w rc w', cass_session_connect_keyspace k w = (rc, w') ->
    (patience w' + (if decide (rc = CASS_OK) then 0 else 1) <= patience w)%nat;
  cl_connect : forall w rc w', cass_session_connect w = (rc, w') -> (patience w' <= patience w)%nat;
  cl_simple : forall q w rc w', cass_session_execute_simple q w = (rc, w') ->
    (patience w' + (if decide (rc = CASS_OK \/ rc = CASS_ERROR_SERVER_INVALID_QUERY) then 0 else 1)
       <= patience w)%nat;
  cl_prepare : forall q w rc w', cass_session_prepare q w = (rc, w') ->
    (patience w' + (if decide (rc = CASS_OK) then 0 else 1) <= patience w)%nat
}.

(** What is asked of the driver. *)
Inductive Call :=
| CConnectKeyspace (keyspace : string)
| CConnect
| CSimple (query : string)
| CPrepare (p : Prepared) (query : string).

(** The driver's world, the calls made so far with their outcomes, and [open_]. *)
Record Opening (W : Type) := mkOpening
  { op_world : W; op_calls : list (Call * CassError); open_ : bool }.
Arguments mkOpening {W} _ _ _.
Arguments op_world {W} _.
Arguments op_calls {W} _.
Arguments open_ {W} _.

Section opening.
Context `{ClusterApi W}.
(** the configuration: [keyspace], [replication_factor], [table_prefix], [ttl_] *)
Context (keyspace : string) (rf : Z) (tablePrefix : string) (ttl_ : Z).

Definition call (c : Call) (f : W -> CassError * W) : M (Opening W) CassError := fun o =>
  let '(rc, w) := f (op_world o) in
  (Ok rc, mkOpening w (op_calls o ++ [(c, rc)]) (open_ o)).

Definition executeSimpleStatement (query : string) : M (Opening W) bool :=
  rc ← call (CSimple query) (cass_session_execute_simple query);
  mret (negb (negb (bool_decide (rc = CASS_OK)) &&
              negb (bool_decide (rc = CASS_ERROR_SERVER_INVALID_QUERY)))).

Definition prepareStatement (p : Prepared) (query : string) : M (Opening W) bool :=
  rc ← call (CPrepare p query) (cass_session_prepare query); mret (bool_decide (rc = CASS_OK)).

(** A chain of [if (!..) continue;]: stops at the first failure. *)
Fixpoint all_succeed {A} (f : A -> M (Opening W) bool) (l : list A) : M (Opening W) bool :=
  match l with
  | [] => mret true
  | x :: l' => ok ← f x; if (ok : bool) then all_succeed f l' else mret false
  end.

Definition effective_keyspace : string := if String.eqb keyspace "" then "clio" else keyspace.

Definition create_keyspace_query : string :=
  "CREATE KEYSPACE IF NOT EXISTS " +:+ effective_keyspace +:+
  " WITH replication = {'class': 'SimpleStrategy', " +:+ "'replication_factor': '" +:+
  to_string rf +:+ "'}  AND durable_writes = true".

(** [ttl_ * 2] in 32 bits. *)
Definition ttl : Z := u32 (ttl_ * 2).

(** One round of the first loop: whether the tables are set up. *)
Definition setup_round : M (Opening W) bool :=
  rc ← call (CConnectKeyspace effective_keyspace) (cass_session_connect_keyspace effective_keyspace);
  if negb (bool_decide (rc = CASS_OK)) then
    rc ← call CConnect cass_session_connect;
    if negb (bool_decide (rc = CASS_OK)) then mret false
    else all_succeed executeSimpleStatement [create_keyspace_query; "USE " +:+ effective_keyspace]
           ≫= fun _ => mret false
  else all_succeed executeSimpleStatement (setup_queries tablePrefix ttl).

(** One round of the second loop. *)
Definition prepare_round : M (Opening W) bool :=
  all_succeed (fun p => prepareStatement p (query_text tablePrefix p)) prepared_order.

Fixpoint until_done (fuel : nat) (round : M (Opening W) bool) : M (Opening W) unit :=
  match fuel with
  | O => no_fuel
  | S fuel' => ok ← round; if (ok : bool) then mret tt else until_done fuel' round
  end.

(** A second [open] only logs an error. *)
Definition open (fuel : nat) : M (Opening W) unit :=
  o ← gets open_;
  if (o : bool) then mret tt
  else
    until_done fuel setup_round ≫= fun _ =>
    until_done fuel prepare_round ≫= fun _ =>
    modify (fun o => mkOpening (op_world o) (op_calls o) true).

End opening.

(** ** Opening ends, with everything set up and prepared *)

Section specs.
Context `{ClusterApi W} {patience : W -> nat} `{CL : !ClusterLaws patience}.
Context (keyspace : string) (rf : Z) (tablePrefix : string) (ttl_ : Z).

Abbreviation pat o := (patience (op_world o)).

Definition accepted (rc : CassError) : Prop := rc = CASS_OK \/ rc = CASS_ERROR_SERVER_INVALID_QUERY.

(** A list of calls [C x] that all succeeded. *)
Definition all_made {A} (C : A -> Call) (good : CassError -> Prop) (l : list A)
    (new : list (Call * CassError)) : Prop :=
  Forall2 (fun x c => c.1 = C x /\ good c.2) l new.

Lemma all_succeed_spec {A} (f : A -> M (Opening W) bool) (C : A -> Call) (good : CassError -> Prop) n l cs op :
  (forall x n cs, triple (fun o => pat o = n /\ op_calls o = cs /\ open_ o = op) (f x)
     (fun b o => open_ o = op /\ exists rc, op_calls o = cs ++ [(C x, rc)] /\
        if (b : bool) then good rc /\ (pat o <= n)%nat else (pat o < n)%nat) noexn) ->
  triple (fun o => pat o = n /\ op_calls o = cs /\ open_ o = op) (all_succeed f l)
    (fun b o => open_ o = op /\ exists new, op_calls o = cs ++ new /\
       if (b : bool) then all_made C good l new /\ (pat o <= n)%nat else (pat o < n)%nat) noexn.
Proof.
  intros Hf. revert n cs. induction l as [|x l IH]; intros n cs; simpl.
  - apply triple_ret. intros o (Hn & Hc & Ho). split; [done|]. exists []. rewrite app_nil_r.
    split; [done|]. split; [constructor | lia].
  - intros o Ho. pose proof (Hf x n cs o Ho) as Hx. unfold mbind, M_bind.
    destruct (f x o) as [[b|e|] o1]; [|done..]. destruct Hx as (Ho1 & rc & Hc1 & Hb). destruct b.
    + destruct Hb as [Hg Hp]. pose proof (IH (pat o1) _ o1 (conj eq_refl (conj Hc1 Ho1))) as Hl.
      destruct (all_succeed f l o1) as [[b|e|] o2]; [|done..].
      destruct Hl as (Ho2 & new & Hc2 & Hb). split; [done|]. exists ((C x, rc) :: new).
      split; [by rewrite Hc2, <- app_assoc|].
      destruct b; [|lia]. destruct Hb as [Hm Hp2]. split; [by constructor | lia].
    + split; [done|]. by exists [(C x, rc)].
Qed.

#[local] Arguments all_succeed : simpl never.

Lemma executeSimpleStatement_spec q n cs op :
  triple (fun o => pat o = n /\ op_calls o = cs /\ open_ o = op) (executeSimpleStatement q)
    (fun b o => open_ o = op /\ exists rc, op_calls o = cs ++ [(CSimple q, rc)] /\
       if (b : bool) then accepted rc /\ (pat o <= n)%nat else (pat o < n)%nat) noexn.
Proof.
  intros [w l op'] (Hn & Hc & Ho). simpl in *. subst. unfold executeSimpleStatement, call, mbind, M_bind. simpl.
  destruct (cass_session_execute_simple q w) as [rc w'] eqn:He. pose proof (cl_simple q w rc w' He) as Hp.
  simpl. split; [done|]. exists rc. split; [done|]. unfold accepted.
  case_bool_decide; [subst; rewrite decide_True in Hp by auto; simpl; split; [auto | lia]|].
  case_bool_decide; simpl; [rewrite decide_True in Hp by auto; split; [auto | lia]|].
  rewrite decide_False in Hp by (by intros [?|?]). lia.
Qed.

Lemma prepareStatement_spec p q n cs op :
  triple (fun o => pat o = n /\ op_calls o = cs /\ open_ o = op) (prepareStatement p q)
    (fun b o => open_ o = op /\ exists rc, op_calls o = cs ++ [(CPrepare p q, rc)] /\
       if (b : bool) then rc = CASS_OK /\ (pat o <= n)%nat else (pat o < n)%nat) noexn.
Proof.
  intros [w l op'] (Hn & Hc & Ho). simpl in *. subst. unfold prepareStatement, call, mbind, M_bind. simpl.
  destruct (cass_session_prepare q w) as [rc w'] eqn:He. pose proof (cl_prepare q w rc w' He) as Hp.
  simpl. split; [done|]. exists rc. split; [done|].
  case_bool_decide; [rewrite decide_True in Hp by done | rewrite decide_False in Hp by done];
    simpl; [split; [done | lia] | lia].
Qed.

(** A round of the first loop ends with the tables set up on a fresh session, or
    has used up some of the driver's failures. *)
Definition tables_set_up (new : list (Call * CassError)) : Prop :=
  exists pre made, new = pre ++ (CConnectKeyspace (effective_keyspace keyspace), CASS_OK) :: made /\
    all_made CSimple accepted (setup_queries tablePrefix (ttl ttl_)) made.

Definition all_prepared (new : list (Call * CassError)) : Prop :=
  exists pre made, new = pre ++ made /\
    all_made (fun p => CPrepare p (query_text tablePrefix p)) (fun rc => rc = CASS_OK) prepared_order made.

Lemma setup_round_spec n cs op :
  triple (fun o => pat o = n /\ op_calls o = cs /\ open_ o = op) (setup_round keyspace rf tablePrefix ttl_)
    (fun b o => open_ o = op /\ exists new, op_calls o = cs ++ new /\
       if (b : bool) then tables_set_up new /\ (pat o <= n)%nat else (pat o < n)%nat) noexn.
Proof.
  intros [w l op0] (Hn & Hc & Ho). simpl in *. subst. unfold setup_round, call, mbind, M_bind. simpl.
  destruct (cass_session_connect_keyspace _ w) as [rc w1] eqn:He.
  pose proof (cl_connect_keyspace _ w rc w1 He) as Hp. simpl. case_bool_decide as Hrc; simpl.
  - subst rc. rewrite decide_True in Hp by done.
    set (o1 := mkOpening w1 _ op).
    pose proof (all_succeed_spec executeSimpleStatement CSimple accepted (pat o1)
      (setup_queries tablePrefix (ttl ttl_)) (op_calls o1) op (fun x m cs' => executeSimpleStatement_spec x m cs' op) o1 ltac:(done)) as Ha.
    match type of Ha with match ?m with _ => _ end => destruct m as [[b|e|] o2] end; [|done..].
    destruct Ha as (Ho2 & new & Hc2 & Hb).
    split; [done|]. eexists. split; [rewrite Hc2; simpl; by rewrite <- app_assoc|].
    destruct b; [|simpl in *; lia]. destruct Hb as [Hm Hp2].
    split; [by exists [], new | simpl in *; lia].
  - rewrite decide_False in Hp by done. destruct (cass_session_connect w1) as [rc2 w2] eqn:He2.
    pose proof (cl_connect w1 rc2 w2 He2) as Hp2. simpl. case_bool_decide; simpl.
    + set (o2 := mkOpening w2 _ op).
      pose proof (all_succeed_spec executeSimpleStatement CSimple accepted (pat o2)
        [create_keyspace_query keyspace rf; "USE " +:+ effective_keyspace keyspace] (op_calls o2) op
        (fun x m cs' => executeSimpleStatement_spec x m cs' op) o2 ltac:(done)) as Ha.
      match type of Ha with match ?m with _ => _ end => destruct m as [[b|e|] o3] end; [|done..].
    destruct Ha as (Ho3 & new & Hc3 & Hb).
      split; [done|]. eexists. split; [by rewrite Hc3; simpl; rewrite <- !app_assoc|].
      destruct b; simpl in *; lia.
    + split; [done|]. eexists. split; [by rewrite <- app_assoc|]. lia.
Qed.

Lemma prepare_round_spec n cs op :
  triple (fun o => pat o = n /\ op_calls o = cs /\ open_ o = op) (prepare_round tablePrefix)
    (fun b o => open_ o = op /\ exists new, op_calls o = cs ++ new /\
       if (b : bool) then all_prepared new /\ (pat o <= n)%nat else (pat o < n)%nat) noexn.
Proof.
  intros o Ho.
  pose proof (all_succeed_spec (fun p => prepareStatement p (query_text tablePrefix p))
    (fun p => CPrepare p (query_text tablePrefix p)) (fun rc => rc = CASS_OK) n prepared_order cs op
    (fun p m cs' => prepareStatement_spec p _ m cs' op) o Ho) as Ha.
  unfold prepare_round. match type of Ha with match ?m with _ => _ end => destruct m as [[b|e|] o2] end; [|done..].
  destruct Ha as (Ho2 & new & Hc & Hb). split; [done|]. exists new. split; [done|].
  destruct b; [|done]. destruct Hb as [Hm Hp]. split; [by exists [], new | done].
Qed.

(** A loop whose rounds succeed or use up failures ends in a round that
    succeeds. *)
Lemma until_done_spec (round : M (Opening W) bool) (Done : list (Call * CassError) -> Prop) fuel n cs op :
  (forall n cs, triple (fun o => pat o = n /\ op_calls o = cs /\ open_ o = op) round
    (fun b o => open_ o = op /\ exists new, op_calls o = cs ++ new /\
       if (b : bool) then Done new /\ (pat o <= n)%nat else (pat o < n)%nat) noexn) ->
  (forall pre new, Done new -> Done (pre ++ new)) -> (n < fuel)%nat ->
  triple (fun o => pat o = n /\ op_calls o = cs /\ open_ o = op) (until_done fuel round)
    (fun _ o => open_ o = op /\ (pat o <= n)%nat /\ exists new, op_calls o = cs ++ new /\ Done new) noexn.
Proof.
  intros Hround Hpre. revert n cs. induction fuel as [|fuel IH]; intros n cs Hn; [lia|]. cbn [until_done].
  intros o Ho. pose proof (Hround n cs o Ho) as Hr. unfold mbind, M_bind.
  destruct (round o) as [[b|e|] o1]; [|done..]. destruct Hr as (Ho1 & new & Hc1 & Hb). destruct b.
  - destruct Hb as [Hd Hp]. split; [done|]. split; [done|]. by exists new.
  - pose proof (IH (pat o1) _ ltac:(lia) o1 (conj eq_refl (conj Hc1 Ho1))) as Hrest.
    destruct (until_done fuel round o1) as [[u|e|] o2]; [|done..].
    destruct Hrest as (Ho2 & Hp2 & new2 & Hc2 & Hd). split; [done|]. split; [lia|].
    exists (new ++ new2). split; [by rewrite Hc2, app_assoc | by apply Hpre].
Qed.

(** [open] ends, however many connections, statements and preparations
    fail first, and does not throw. It ends open, and the calls it made contain,
    after a successful connection to the keyspace, every statement of the schema
    in order, each accepted; and end with every statement of the backend
    prepared, in order and with its text. On an open database it does nothing. *)
Theorem open_spec (fuel : nat) (o : Opening W) :
  (patience (op_world o) < fuel)%nat ->
  exists o', open keyspace rf tablePrefix ttl_ fuel o = (Ok tt, o') /\ open_ o' = true /\
    if open_ o then o' = o
    else exists setup prepares, op_calls o' = op_calls o ++ setup ++ prepares /\
           tables_set_up setup /\ all_prepared prepares.
Proof.
  intros Hp. unfold open, gets, modify, mbind, M_bind. destruct (open_ o) eqn:Hop; [by exists o|].
  assert (Hpre1 : forall pre new, tables_set_up new -> tables_set_up (pre ++ new)).
  { intros pre new (p & made & -> & Hm). exists (pre ++ p), made. by rewrite <- app_assoc. }
  assert (Hpre2 : forall pre new, all_prepared new -> all_prepared (pre ++ new)).
  { intros pre new (p & made & -> & Hm). exists (pre ++ p), made. by rewrite <- app_assoc. }
  pose proof (until_done_spec _ tables_set_up fuel (pat o) (op_calls o) false
    (fun n cs => setup_round_spec n cs false) Hpre1 Hp o (conj eq_refl (conj eq_refl Hop))) as H1.
  destruct (until_done fuel (setup_round _ _ _ _) o) as [[u|e|] o1]; [|done..].
  destruct H1 as (Ho1 & Hp1 & setup & Hc1 & Hd1).
  assert (Hp1' : (pat o1 < fuel)%nat) by lia.
  pose proof (until_done_spec _ all_prepared fuel (pat o1) (op_calls o1) false
    (fun n cs => prepare_round_spec n cs false) Hpre2 Hp1' o1 (conj eq_refl (conj eq_refl Ho1))) as H2.
  destruct (until_done fuel (prepare_round _) o1) as [[u2|e|] o2]; [|done..].
  destruct H2 as (Ho2 & Hp2 & prepares & Hc2 & Hd2).
  eexists. split; [done|]. split; [done|]. exists setup, prepares. simpl.
  by rewrite Hc2, Hc1, <- app_assoc.
Qed.

End specs.

(** ** A driver with a script of outcomes *)

Definition next_outcome (w : list CassError) : CassError * list CassError :=
  match w with [] => (CASS_OK, []) | rc :: w' => (rc, w') end.

#[local] Instance ScriptCluster : ClusterApi (list CassError) := {|
  cass_session_connect_keyspace := fun _ => next_outcome;
  cass_session_connect := next_outcome;
  cass_session_execute_simple := fun _ => next_outcome;
  cass_session_prepare := fun _ => next_outcome
|}.

#[local] Instance ScriptLaws : ClusterLaws (length (A := CassError)).
Proof.
  split; cbn.
  - intros _ [|rc w] rc' w' [= <- <-]; simpl; [done|]. case_decide; lia.
  - intros [|rc w] rc' w' [= <- <-]; simpl; lia.
  - intros _ [|rc w] rc' w' [= <- <-]; simpl; [done|]. case_decide; lia.
  - intros _ [|rc w] rc' w' [= <- <-]; simpl; [done|]. case_decide; lia.
Qed.

(** The keyspace is missing and is created; then the second table fails. *)
Lemma open_spec_witness :
  exists o setup prepares,
    open "" 3 "" 0 4 (mkOpening [CASS_ERROR_OTHER 1; CASS_OK; CASS_OK; CASS_OK; CASS_OK; CASS_OK;
      CASS_ERROR_SERVER_OVERLOADED] [] false) = (Ok tt, o) /\ open_ o = true /\
    op_calls o = setup ++ prepares /\
    tables_set_up "" "" 0 setup /\ all_prepared "" prepares.
Proof.
  set (o0 := mkOpening [CASS_ERROR_OTHER 1; CASS_OK; CASS_OK; CASS_OK; CASS_OK; CASS_OK;
    CASS_ERROR_SERVER_OVERLOADED] [] false).
  assert (Hp : (length (op_world o0) < 8)%nat) by (simpl; lia).
  destruct (open_spec "" 3 "" 0 8 o0 Hp) as (o' & Hrun & Ho & setup & prepares & Hc & H1 & H2).
  exists o', setup, prepares. split; [|by split_and!].
  assert (Hsame : open "" 3 "" 0 4 o0 = open "" 3 "" 0 8 o0) by (vm_compute; reflexivity).
  rewrite Hsame. exact Hrun.
Defined.
