(* ===== verification/MigrationCassandra.v ===== *)
(** * The two programs over the Cassandra backend

    The migrator of [src/src/main/main.cpp] and the verifier of [verify.cpp] run
    on [CassandraBackend]: the operations of [Cassandra] satisfy the contracts
    [MigratorLaws] and [VerifierLaws] the programs are proved against, and the
    two proofs compose - a finished migration leaves a database that verifies. *)

From stdpp Require Import base list gmap strings sorting.
From Stdlib Require Import ZArith Lia.
From S2P Require Import Prelude Types TreeRipple SimpleCache Backend NFTHelpers Migration Verifier.
From S2P Require Import Cql Cassandra Tables CassandraSpec CassandraCommit.

Open Scope Z_scope.

(** ** The simple statements of the driver

    The migrator executes two statements of its own on the backend's session,
    the first page by page. *)
Class RawDriver (D : Type) := {
  RawStatement : Type;
  RawResult : Type;
  raw_new : string -> RawStatement;
  raw_set_paging_size : RawStatement -> Z -> RawStatement;
  raw_set_paging_state : RawStatement -> RawResult -> RawStatement;
  raw_execute : RawStatement -> D -> option RawResult * D;
  raw_execute_ok : RawStatement -> D -> bool * D;
  raw_column0 : RawResult -> list (option Blob);
  raw_has_more_pages : RawResult -> bool
}.

Section database.
Context {D : Type} `{CS : CassSession D} `{CA : CassApi} `{NU : NftUtils} `{RD : RawDriver D}.
Context (fuel : nat) (uninit : Z) (prefix : string).

(** A call on the session alone. *)
Definition on_session {A} (f : D -> A * D) : M (Cass D) A := fun w =>
  let '(a, d) := f (db w) in (Ok a, set_db d w).

(** The database as the two programs see it. *)
#[export] Instance CassandraDb : MigratorDb (Cass D) := {|
  md_backend := CassandraImpl fuel uninit;
  fetchTransactions := cass_fetchTransactions;
  fetchNFT := cass_fetchNFT fuel;
  Migration.writeNFTs := Cassandra.writeNFTs fuel uninit;
  Migration.sync := Cassandra.sync fuel;
  tablePrefix := prefix;
  CassStatement := RawStatement;
  CassResult := RawResult;
  cass_statement_new := raw_new;
  cass_statement_set_paging_size := raw_set_paging_size;
  cass_statement_set_paging_state := raw_set_paging_state;
  cass_execute := fun q => on_session (raw_execute q);
  cass_execute_ok := fun q => on_session (raw_execute_ok q);
  cass_result_column0 := raw_column0;
  cass_result_has_more_pages := raw_has_more_pages;
  timer_wait := fun _ => mret tt
|}.

End database.

(** What the driver does with the two statements: it reads, page by page, the
    hashes [pages]; a drop of the old table touches none of the others. *)
Class RawLaws `{RawDriver D} (tables : D -> Tables) (patience : D -> nat)
    (query : RawStatement) (drop : RawStatement) (pages : list (list uint256))
    (remaining : RawStatement -> list (list uint256) -> Prop) := {
  rw_pages : pages <> [] /\ remaining query pages;
  rw_execute : forall q p ps d r d', remaining q (p :: ps) -> raw_execute q d = (r, d') ->
    tables d' = tables d /\ (patience d' <= patience d)%nat /\
    (r = None \/ exists res, r = Some res /\
       raw_column0 res = (fun h => Some (uint256_bytes h)) <$> p /\ Forall valid_key p /\
       (raw_has_more_pages res = true <-> ps <> []) /\
       remaining (raw_set_paging_state q res) ps);
  rw_drop : forall d b d', raw_execute_ok drop d = (b, d') ->
    tables d' = tables d /\ (patience d' <= patience d)%nat
}.

(** ** Rows of the token tables *)

(** Records any two of which agree when they are of one token and ledger. *)
Definition agreeing (Rec : NFTsData -> Prop) : Prop :=
  forall l, Forall Rec l -> consistent l.

(** The tables the migration only reads are those of [T0], and every URI row is
    one of [T0] or that of a record of [Rec]. *)
Definition uri_rows (Rec : NFTsData -> Prop) (T0 T : Tables) : Prop :=
  forall k q u, table_row k q (t_nf_token_uris T) = Some u ->
    table_row k q (t_nf_token_uris T0) = Some u \/
    exists d, Rec d /\ k = uint256_bytes (nd_tokenID d) /\ q = nd_ledgerSequence d /\ nd_uri d = Some u.

Definition migrating (Rec : NFTsData -> Prop) (T0 T : Tables) : Prop :=
  t_objects T = t_objects T0 /\ t_successor T = t_successor T0 /\
  t_transactions T = t_transactions T0 /\ t_ledger_range T = t_ledger_range T0 /\
  uri_rows Rec T0 T.

(** The last row by a ledger is a row of the table by that ledger, and there is
    one as soon as the table has any. *)
Lemma latest_row {V} k s q (v : V) t :
  latest k s t = Some (q, v) -> table_row k q t = Some v /\ q <= s.
Proof. intros (H1 & H2 & _)%before_lower_bound_Some. split; [exact H1 | lia]. Qed.

Lemma latest_exists {V} k s q (v : V) t :
  table_row k q t = Some v -> q <= s -> is_Some (latest k s t).
Proof.
  intros Hr Hq. destruct (latest k s t) as [p|] eqn:Hl; [by eexists|].
  apply (proj1 (before_lower_bound_None _ _)) with (j := q) in Hl; [|lia].
  unfold table_row in Hr. congruence.
Qed.

Lemma represents_migrating Rec T0 T Ldg :
  migrating Rec T0 T -> represents T0 Ldg -> represents T Ldg.
Proof.
  intros (Ho & Hs & _) [H1 H2 H3 H4 H5]. split; rewrite ?Ho, ?Hs; done.
Qed.

Section keeping.
Context `{NU : NftUtils} (Rec : NFTsData -> Prop) (T0 : Tables).

(** The records of the batches are all in the tables. *)
Definition recorded (evs : list Event) (T : Tables) : Prop :=
  forall r, r ∈ written evs -> Forall (fun s => nft_effect s T) (nft_statements r).

Lemma nft_stmt_migrating data s flip t t' rows :
  Forall Rec data -> is_nft_stmt data s -> cql flip t s = Some (t', rows) ->
  migrating Rec T0 t -> migrating Rec T0 t'.
Proof.
  intros HR (d & Hd & Hs) Hc (H1 & H2 & H3 & H4 & Hu).
  rewrite Forall_forall in HR. specialize (HR d Hd).
  apply nft_statements_elem in Hs as [->|(u & Hud & [->| ->])]; injection Hc as <- <-;
    repeat (split; [done|]); try exact Hu.
  intros k q v. simpl. rewrite table_row_put. destruct (decide _) as [[-> ->]|]; [|apply Hu].
  intros [= <-]. right. by exists d.
Qed.

Lemma nft_stmt_recorded evs data s flip t t' rows :
  agreeing Rec -> Forall Rec (written evs) -> Forall Rec data ->
  is_nft_stmt data s -> cql flip t s = Some (t', rows) -> recorded evs t -> recorded evs t'.
Proof.
  intros Hag Hw HR (d & Hd & Hs) Hc Hrec r Hr. specialize (Hrec r Hr).
  rewrite Forall_forall in Hrec |- *. intros s' Hs'.
  eapply (nft_effect_keep (written evs ++ data)); [| | | exact Hc | by apply Hrec].
  - apply Hag. by apply Forall_app.
  - exists r. split; [set_solver | done].
  - exists d. split; [set_solver | done].
Qed.

Lemma recorded_app evs d T :
  recorded (evs ++ [EWrite d; ESync]) T <->
  recorded evs T /\ forall r, r ∈ d -> Forall (fun s => nft_effect s T) (nft_statements r).
Proof.
  unfold recorded. setoid_rewrite written_app. unfold written at 2. simpl. rewrite app_nil_r.
  setoid_rewrite elem_of_app. naive_solver.
Qed.

Lemma recorded_same evs e T : written [e] = [] -> recorded (evs ++ [e]) T <-> recorded evs T.
Proof. intros He. unfold recorded. by rewrite written_app, He, app_nil_r. Qed.

End keeping.

(** ** The contracts hold *)

Section contracts.
Context {D : Type} `{CS : CassSession D} {tables : D -> Tables} {patience : D -> nat}
  {acked : D -> list CassandraStatement} `{SL : !SessionLaws tables patience acked}.
Context `{CA : CassApi} `{CL : !CassApiLaws} `{NU : NftUtils} `{R : Ripple}.
Context `{RD : RawDriver D} {pages : list (list uint256)}
  {remaining : RawStatement -> list (list uint256) -> Prop}.
Context (fuel : nat) (uninit : Z) (prefix : string).

Abbreviation migrator := (CassandraDb (D := D) fuel uninit prefix).

Context `{RW : !RawLaws tables patience (nftTxQuery (H := migrator))
  (raw_new ("DROP TABLE " +:+ prefix +:+ "issuer_nf_tokens")) pages remaining}.
Context (h : history) (T0 : Tables) (Hrep : represents T0 (L h)).
Context (Rec : NFTsData -> Prop) (Hag : agreeing Rec).

Abbreviation rd := (reading (tables := tables) (patience := patience)).

(** After the effects [evs] no write is pending, the records written are in the
    tables, and the tables the migration reads are those of [T0]. *)
Definition migrated (evs : list Event) (w : Cass D) : Prop :=
  (idle w /\ 0 <= numReadRequestsOutstanding_ w < 2 ^ 32 /\ exists ld, reach h (c_cache w) ld) /\
  (patience (db w) < fuel)%nat /\ migrating Rec T0 (tables (db w)) /\
  Forall Rec (written evs) /\ recorded evs (tables (db w)).

Lemma migrated_session evs w d :
  migrated evs w -> tables d = tables (db w) -> (patience d < fuel)%nat -> migrated evs (set_db d w).
Proof.
  intros (Hw & _ & Hm & HR & Hrec) HT Hp. split; [exact Hw|]. cbn. rewrite HT. by split_and!.
Qed.

Lemma migrated_reading evs w k :
  migrated evs w -> (patience (db w) < k)%nat -> rd w (tables (db w)) k w.
Proof. intros ((_ & Hr & _) & _) Hp. by apply reading_self. Qed.

Lemma reading_migrated evs w k w' :
  (k <= fuel)%nat -> migrated evs w -> rd w (tables (db w)) k w' -> migrated evs w'.
Proof. intros Hk Hw (_ & d & -> & HT & Hp). apply migrated_session; [done | done | lia]. Qed.

(** What a query returns over the tables the migration keeps. *)
Lemma migrated_read {A} evs (m : M (Cass D) A) (v : A) :
  (forall w0 T, migrating Rec T0 T -> triple (rd w0 T fuel) m
     (fun r w => r = v /\ rd w0 T fuel w) (fun e w => read_fails e /\ rd w0 T fuel w)) ->
  triple (migrated evs) m (fun r w => r = v /\ migrated evs w)
    (fun e w => read_fails e /\ migrated evs w).
Proof.
  intros Hm w Hw. assert (Hp : (patience (db w) < fuel)%nat) by apply Hw.
  assert (HM : migrating Rec T0 (tables (db w))) by apply Hw.
  specialize (Hm w _ HM w (migrated_reading _ _ _ Hw Hp)).
  destruct (m w) as [[r|e|] w']; [| |done];
    destruct Hm as [H1 H2]; (split; [done | exact (reading_migrated _ _ fuel _ (le_n _) Hw H2)]).
Qed.

Lemma migrated_range evs n :
  triple (fun w => migrated evs w /\ (patience (db w) < S n)%nat)
    (hardFetchLedgerRange (BackendImpl := CassandraImpl fuel uninit))
    (fun r w => r = table_range T0 /\ migrated evs w)
    (fun e w => migrated evs w /\
       if decide (e = DatabaseTimeout) then (patience (db w) < n)%nat else read_fails e).
Proof.
  intros w [Hw Hn]. assert (Hp : (patience (db w) < fuel)%nat) by apply Hw.
  assert (Hk : (patience (db w) < S n `min` fuel)%nat) by lia.
  pose proof (hardFetchLedgerRange_within fuel w (tables (db w)) (S n `min` fuel) ltac:(lia) w
    (migrated_reading _ _ _ Hw Hk)) as Ht.
  cbn [hardFetchLedgerRange CassandraImpl].
  destruct (cass_hardFetchLedgerRange fuel w) as [[r|e|] w']; [| |done].
  - destruct Ht as [-> Hr]. split; [|eapply (reading_migrated _ _ (S n `min` fuel)); [lia | done | done]].
    destruct Hw as (_ & _ & (_ & _ & _ & Hrng & _) & _). unfold table_range. by rewrite Hrng.
  - destruct Ht as [He Hr]. split; [eapply (reading_migrated _ _ (pred (S n `min` fuel))); [lia | done | done]|].
    destruct (decide _); [|done]. destruct Hr as (_ & d & -> & _ & Hd). cbn. lia.
Qed.

Lemma migrated_ReadLaws evs :
  ReadLaws (H := CassandraImpl fuel uninit) (L h) (migrated evs)
    (fun e w => read_fails e /\ migrated evs w).
Proof.
  apply (states_ReadLaws (tables := tables) (patience := patience) (acked := acked)).
  - intros w Hw. exists (tables (db w)).
    split; [eapply represents_migrating; [apply Hw | exact Hrep]|].
    split; [eapply migrated_reading; [exact Hw | apply Hw]|].
    intros w' Hr. exact (reading_migrated _ _ fuel _ (le_n _) Hw Hr).
  - intros w (H1 & _). apply H1.
  - intros w c ((H1 & H2 & _) & H3) Hc. split; [|exact H3]. split; [exact H1|]. by split.
Qed.

Lemma migrated_write evs data :
  Forall Rec data ->
  triple (migrated evs) (Cassandra.writeNFTs fuel uninit data ≫= fun _ => Cassandra.sync fuel)
    (fun _ => migrated (evs ++ [EWrite data; ESync])) noexn.
Proof.
  intros HR w Hw. destruct (Hw) as ((Hidle & Hr & Hc) & Hp & Hm & HRec & Hrec).
  pose proof (writeNFTs_keeps (SL := SL) fuel uninit data
    (fun T => migrating Rec T0 T /\ recorded evs T) w (Hag data HR) Hidle Hp) as Ht.
  assert (Hinv : forall s flip t t' rows, is_nft_stmt data s -> cql flip t s = Some (t', rows) ->
    migrating Rec T0 t /\ recorded evs t -> migrating Rec T0 t' /\ recorded evs t').
  { intros s flip t t' rows Hs Hcq [H1 H2]. split.
    - exact (nft_stmt_migrating Rec T0 data s flip t t' rows HR Hs Hcq H1).
    - exact (nft_stmt_recorded Rec evs data s flip t t' rows Hag HRec HR Hs Hcq H2). }
  specialize (Ht Hinv (conj Hm Hrec) w eq_refl).
  match type of Ht with match ?m with _ => _ end => destruct m as [[u|e|] w'] end; [|done..].
  destruct Ht as (d & -> & Hpd & [Hm' Hrec'] & Hnew).
  split; [exact (conj Hidle (conj Hr Hc))|].
  cbn. split; [done|]. split; [done|]. split; [|by apply recorded_app].
  rewrite written_app. apply Forall_app. split; [done|]. by rewrite written_batch.
Qed.

Lemma migrated_sync evs :
  triple (migrated evs) (Cassandra.sync fuel) (fun _ => migrated (evs ++ [ESync])) noexn.
Proof.
  intros w Hw. assert (Hf : finishedAllRequests w = true).
  { destruct Hw as (((_ & Hn & _) & _) & _). unfold finishedAllRequests. by rewrite Hn. }
  assert (Cassandra.sync fuel w = (Ok tt, w)) as ->.
  { unfold Cassandra.sync. destruct fuel; cbn [wait_until]; unfold mret, M_ret; by rewrite Hf. }
  destruct Hw as (H1 & H2 & H3 & H4 & H5). split; [exact H1|]. split; [done|]. split; [done|].
  split; [by rewrite written_app, app_nil_r | by apply recorded_same].
Qed.

Lemma migrated_drop evs :
  triple (migrated evs)
    (cass_execute_ok (MigratorDb := migrator)
       (cass_statement_new (MigratorDb := migrator) ("DROP TABLE " +:+ prefix +:+ "issuer_nf_tokens")))
    (fun _ => migrated (evs ++ [EDrop])) noexn.
Proof.
  intros w Hw. cbn. unfold on_session.
  destruct (raw_execute_ok _ (db w)) as [b d] eqn:He.
  apply (rw_drop (RawLaws := RW)) in He as [HT Hp].
  destruct (migrated_session evs w d Hw HT) as (H1 & H2 & H3 & H4 & H5); [destruct Hw; lia|].
  split; [exact H1|]. split; [done|]. split; [done|].
  split; [by rewrite written_app, app_nil_r | by apply recorded_same].
Qed.

Lemma migrated_page evs q p ps :
  remaining q (p :: ps) ->
  triple (migrated evs) (cass_execute (MigratorDb := migrator) q)
    (fun r w => (r = None \/ exists res, r = Some res /\
        page_hashes (H := migrator) res = Ok p /\
        (cass_result_has_more_pages (MigratorDb := migrator) res = true <-> ps <> []) /\
        remaining (cass_statement_set_paging_state (MigratorDb := migrator) q res) ps) /\
      migrated evs w) noexn.
Proof.
  intros Hq w Hw. cbn. unfold on_session. destruct (raw_execute q (db w)) as [r d] eqn:He.
  destruct (rw_execute (RawLaws := RW) q p ps (db w) r d Hq He) as (HT & Hp & Hr).
  split; [|apply migrated_session; [done | done |]; destruct Hw; lia].
  destruct Hr as [->|(res & -> & Hcol & Hv & Hmore & Hrem)]; [by left | right].
  exists res. split; [done|]. split; [|done]. unfold page_hashes. cbn [cass_result_column0 CassandraDb].
  rewrite Hcol. by apply cells_hashes.
Qed.

Lemma CassandraMigratorLaws (rng : option LedgerRange) :
  table_range T0 = rng ->
  (forall r k d, rng = Some r -> k ∈ concat pages -> mint_record (maxSequence r) (tx_lookup T0 k) d -> Rec d) ->
  (forall r d, rng = Some r -> ledger_token (minSequence r) (L h (minSequence r)) d -> Rec d) ->
  MigratorLaws (H := migrator) (L h) (tx_lookup T0) rng pages Rec migrated read_fails
    (fun w => patience (db w)) remaining.
Proof.
  intros <- Hmints Htokens. split.
  - apply migrated_ReadLaws.
  - apply migrated_range.
  - intros evs hs. apply migrated_read. intros w0 T (_ & _ & Htx & _).
    eapply triple_conseq; [apply fetchTransactions_reads | done | | done].
    intros r w [-> Hw]. split; [|done]. unfold tx_lookup. by rewrite Htx.
  - exact Hmints.
  - exact Htokens.
  - apply migrated_write.
  - apply migrated_sync.
  - intros evs s. by apply triple_ret.
  - apply RW.
  - apply RW.
  - apply migrated_page.
  - apply migrated_drop.
Qed.

(** Between two runs: the tables are [T], nothing is pending. *)
Lemma CassandraVerifierLaws (T : Tables) :
  represents T (L h) ->
  VerifierLaws (H := migrator) (L h) (table_range T) (nft_lookup T)
    (serving (tables := tables) (patience := patience) fuel T (fun c => exists ld, reach h c ld))
    read_fails (fun w => patience (db w)).
Proof.
  intros HT. set (J := serving fuel T _).
  assert (HJ : forall w k w', (k <= fuel)%nat -> J w -> rd w T k w' -> J w').
  { intros w k w' Hk (H1 & H2 & H3 & H4) (_ & d & -> & HT' & Hd).
    assert (Hd' : (patience d < fuel)%nat) by lia. exact (conj HT' (conj Hd' (conj H3 H4))). }
  split.
  - by apply (serving_ReadLaws (acked := acked)).
  - intros n w [Hw Hn]. destruct (Hw) as (H1 & H2 & H3 & H4).
    assert (Hk : (patience (db w) < S n `min` fuel)%nat) by lia.
    pose proof (hardFetchLedgerRange_within fuel w T (S n `min` fuel) ltac:(lia) w
      (reading_self _ _ _ H1 Hk H3)) as Ht.
    cbn [hardFetchLedgerRange CassandraImpl md_backend CassandraDb].
    destruct (cass_hardFetchLedgerRange fuel w) as [[r|e|] w']; [| |done].
    + destruct Ht as [-> Hr]. split; [done|]. eapply (HJ w (S n `min` fuel)%nat); [lia | done | done].
    + destruct Ht as [He Hr]. split; [eapply (HJ w (pred (S n `min` fuel))); [lia | done | done]|].
      destruct (decide _); [|done]. destruct Hr as (_ & d & -> & _ & Hd). cbn. lia.
  - intros id s w Hw. destruct (Hw) as (H1 & H2 & H3 & H4).
    pose proof (fetchNFT_reads fuel w T id s w (reading_self _ _ _ H1 H2 H3)) as Ht.
    cbn [fetchNFT CassandraDb]. destruct (cass_fetchNFT fuel id s w) as [[r|e|] w']; [| |done];
      destruct Ht as [? Hr]; (split; [done|]); by eapply (HJ w fuel).
  - intros s. by apply triple_ret.
Qed.

End contracts.

(** ** A finished migration verifies *)

(** The history is coherent with what the migration collects: two of its records
    for one token and ledger agree, and every token of the last ledger has been
    collected, by that ledger and with the URI it has there. *)
Record coherent (collected last_tokens : list NFTsData) (maxSeq : Z) : Prop := {
  co_agree : consistent collected;
  co_known : forall d, d ∈ last_tokens ->
    exists d', d' ∈ collected /\ nd_tokenID d' = nd_tokenID d /\ nd_ledgerSequence d' <= maxSeq;
  co_uri : forall d d', d ∈ last_tokens -> d' ∈ collected ->
    uint256_bytes (nd_tokenID d') = uint256_bytes (nd_tokenID d) -> nd_uri d' = nd_uri d
}.

Lemma agreeing_list l : consistent l -> agreeing (fun d => d ∈ l).
Proof.
  intros Hc l' Hl'. rewrite Forall_forall in Hl'. intros d1 d2 H1 H2. apply Hc; by apply Hl'.
Qed.

Lemma page_records_uri `{Ripple} seq k b l :
  getNFTDataFromObj seq k b = Ok l -> Forall (fun d => is_Some (nd_uri d)) l.
Proof.
  unfold getNFTDataFromObj. destruct (parseSLE b k) as [sle| |]; simpl; [|done..].
  destruct (getFieldU16 sle _) as [t| |]; simpl; [|done..]. destruct (negb _); [intros [= <-]; constructor|].
  destruct (getFieldArray sle _) as [nodes| |]; simpl; [|done..]. intros Hm%res_map_ok.
  induction Hm as [|n d nodes l Hd Hm IH]; [constructor|]. constructor; [|exact IH].
  destruct (getFieldH256 n _); simpl in Hd; [|done..]. destruct (getFieldVL n _); simpl in Hd; [|done..].
  injection Hd as <-. by eexists.
Qed.

(** A collected token is found in the tables with its URI. *)
Lemma collected_verified `{Ripple} strHex `{NU : NftUtils} l12 l3 maxSeq T0 T evs d :
  coherent l12 l3 maxSeq -> t_nf_token_uris T0 = ∅ -> migrating (fun d => d ∈ l12) T0 T ->
  written evs = l12 -> recorded evs T -> d ∈ l3 -> is_Some (nd_uri d) ->
  verified strHex (stored := nft_lookup T) maxSeq d.
Proof.
  intros Hco H0 (_ & _ & _ & _ & Huri) Hw Hrec Hd [u Hu].
  destruct (co_known _ _ _ Hco d Hd) as (d' & Hd' & Hid & Hseq).
  pose proof (co_uri _ _ _ Hco d d' Hd Hd' ltac:(by rewrite Hid)) as Hud. rewrite Hu in Hud.
  rewrite <- Hw in Hd'. specialize (Hrec d' Hd'). unfold nft_statements in Hrec. rewrite Hud, Hid in Hrec.
  apply Forall_cons in Hrec as [Htok Hrec]. apply Forall_cons in Hrec as [_ Hrec].
  apply Forall_cons in Hrec as [Hrow _]. unfold nft_effect in Htok, Hrow. simpl in Htok, Hrow.
  destruct (latest_exists _ _ _ _ _ Htok Hseq) as [[q [o b]] Hq].
  destruct (latest_exists _ _ _ _ _ Hrow Hseq) as [[q' v] Hq'].
  unfold verified, nft_lookup. rewrite Hq, Hq'. simpl. eexists; split; [done|]. cbn. rewrite Hu. cbn.
  apply latest_row in Hq' as [Hv _]. destruct (Huri _ _ _ Hv) as [Hnone|(d2 & Hd2 & Hk & _ & Hv2)].
  - rewrite H0 in Hnone. done.
  - pose proof (co_uri _ _ _ Hco d d2 Hd Hd2 ltac:(done)) as He. congruence.
Qed.

Section end_to_end.
Context {D : Type} `{CS : CassSession D} {tables : D -> Tables} {patience : D -> nat}
  {acked : D -> list CassandraStatement} `{SL : !SessionLaws tables patience acked}.
Context `{CA : CassApi} `{CL : !CassApiLaws} `{NU : NftUtils} `{R : Ripple} `{RT : !RippleTotal}.
Context `{RD : RawDriver D} {pages : list (list uint256)}
  {remaining : RawStatement -> list (list uint256) -> Prop}.
Context (fuel : nat) (uninit : Z) (prefix : string) (strHex : Blob -> string).

Abbreviation migrator := (CassandraDb (D := D) fuel uninit prefix).

Context `{RW : !RawLaws tables patience (nftTxQuery (H := migrator))
  (raw_new ("DROP TABLE " +:+ prefix +:+ "issuer_nf_tokens")) pages remaining}.

(** The migrator and then the verifier. *)
Definition migrate_and_verify : M (Cass D) unit :=
  doMigration (H := migrator) fuel ≫= fun _ => doVerification (H := migrator) strHex fuel.

(** C1: the two programs over the Cassandra backend. On a database whose tables
    represent a coherent ledger history and hold no URIs yet, a migration
    followed by a verification never reports a missing or a differing token,
    whatever requests fail and are retried: it ends with every token of the
    last ledger stored with its URI, or stops because a read timed out six
    times, a query was rejected, or the transaction query kept failing. *)
Theorem migration_verifies (h : history) (T0 : Tables) (r : LedgerRange) (l1 l2 l3 : list NFTsData)
    (w0 : Cass D) :
  idle w0 -> (patience (db w0) < fuel)%nat -> 0 <= numReadRequestsOutstanding_ w0 < 2 ^ 32 ->
  (exists ld, reach h (c_cache w0) ld) ->
  tables (db w0) = T0 -> represents T0 (L h) -> table_range T0 = Some r -> t_nf_token_uris T0 = ∅ ->
  (forall s, L h s !! firstKey = None) -> (length pages <= fuel)%nat ->
  (forall s, Z.of_nat (size (L h s)) < Z.of_nat fuel * 2000) ->
  txs_nfts (maxSequence r) (tx_lookup T0 <$> concat pages) = Ok l1 ->
  ledger_nfts (minSequence r) (L h (minSequence r)) = Ok l2 ->
  ledger_nfts (maxSequence r) (L h (maxSequence r)) = Ok l3 ->
  coherent (l1 ++ l2) l3 (maxSequence r) ->
  triple (fun w => w = w0) migrate_and_verify
    (fun _ w => forall d, d ∈ l3 ->
       verified strHex (stored := nft_lookup (tables (db w))) (maxSequence r) d)
    (fun e _ => read_fails e \/ e = RuntimeError "Already retried too many times").
Proof.
  intros Hidle Hp Hr Hc HT Hrep Hrng Huris Hzero Hpages Hsize Hl1 Hl2 Hl3 Hco.
  assert (Hval : forall s j, is_Some (L h s !! j) -> valid_key j) by (intros s j [b Hb]; by eapply L_valid).
  set (Rec := fun d => d ∈ l1 ++ l2).
  assert (ML : MigratorLaws (H := migrator) (L h) (tx_lookup T0) (Some r) pages Rec
    (migrated (tables := tables) (patience := patience) fuel h T0 Rec) read_fails
    (fun w => patience (db w)) remaining).
  { eapply (CassandraMigratorLaws (SL := SL)); [exact RW | exact Hrep | apply agreeing_list, Hco | done | | ].
    - intros r' k d [= <-] Hk Hm. unfold Rec. apply elem_of_app. left.
      rewrite (txs_nfts_elem _ _ _ Hl1 d). exists (tx_lookup T0 k). split; [by apply list_elem_of_fmap_2 | done].
    - intros r' d [= <-] Hd. unfold Rec. apply elem_of_app. right.
      apply (ledger_nfts_elem _ _ _ (Hval _) (Hzero _) Hl2 d). exact Hd. }
  unfold migrate_and_verify. eapply triple_bind.
  - eapply triple_conseq; [apply (doMigration_triple (ML := ML) [] fuel Hpages) | | |].
    + intros r' [= <-]. specialize (Hsize (minSequence r)). lia.
    + intros w ->. split; [|done]. split; [by split|]. split; [done|]. rewrite HT.
      split; [repeat (split; [done|]); intros k q u; auto|]. split; [constructor|].
      intros r' Hr'. by apply elem_of_nil in Hr'.
    + intros ? w Hw. exact Hw.
    + intros e w [[He|(r' & [= <-] & Hs)] _]; [by left|].
      destruct Hs as [He|[He|[He|He]]]; [by left | by right | congruence | congruence].
  - intros ?. intros w (k1 & k2 & evs & Hk1 & Hk2 & _ & Hw & Hat).
    rewrite Hl1 in Hk1. rewrite Hl2 in Hk2. injection Hk1 as <-. injection Hk2 as <-.
    destruct (Hat) as ((_ & Hr' & Hc') & Hp' & Hm & _ & Hrec). simpl in Hrec.
    set (T := tables (db w)) in *.
    assert (Hall : forall d, d ∈ l3 -> verified strHex (stored := nft_lookup T) (maxSequence r) d).
    { intros d Hd. eapply (collected_verified strHex (l1 ++ l2) l3 _ T0 T (evs ++ [EDrop; ESync]));
        [done | done | exact Hm | | exact Hrec | done |].
      - rewrite written_app, Hw. by rewrite app_nil_r.
      - apply (ledger_nfts_elem _ _ _ (Hval _) (Hzero _) Hl3 d) in Hd as (k & b & l & _ & Hl & Hd).
        apply page_records_uri in Hl. rewrite Forall_forall in Hl. by apply Hl. }
    assert (HrngT : table_range T = Some r).
    { destruct Hm as (_ & _ & _ & Ht & _). unfold table_range in *. by rewrite Ht. }
    pose proof (CassandraVerifierLaws (SL := SL) fuel uninit prefix h T
      (represents_migrating _ _ _ _ Hm Hrep)) as VL.
    pose proof (doVerification_triple (MD := migrator) strHex (VL := VL) fuel) as Hv.
    rewrite HrngT in Hv. specialize (Hv ltac:(intros r' [= <-]; apply Hsize) w).
    specialize (Hv (conj (conj eq_refl (conj Hp' (conj Hr' Hc'))) Hp')).
    match type of Hv with match ?m with _ => _ end => destruct m as [[u|e|] w'] end; [| |done].
    + destruct Hv as [_ (HT' & _)]. by rewrite HT'.
    + destruct Hv as [[He|(r' & [= <-] & [He|[He|(d & Hd & Hmis)]])] _]; [by left | by left | congruence |].
      exfalso. apply (ledger_nfts_elem _ _ _ (Hval _) (Hzero _) Hl3 d) in Hd.
      destruct (Hall d Hd) as (n & Hn & Huri).
      destruct Hmis as [[Hmis _]|(n' & Hn' & Hne & _)]; congruence.
Qed.

End end_to_end.

(** ** A run in memory

    The ledgers of [one_history], whose object is read as a page with token 11,
    and one listed transaction, a mint of token 7 in ledger 100. *)
Section samples.

#[local] Instance RunRipple : Ripple :=
  TreeRipple (fun _ => Ok mint_tx) (fun _ _ _ => Ok mint_meta)
    (fun _ _ => Ok (mkObj sfNewFields [(sfLedgerEntryType, VNum ltNFTOKEN_PAGE);
       (sfNFTokens, VArr [token_obj 11 [11; 11]])])).

#[local] Instance RunTotal : RippleTotal.
Proof. by apply TreeTotal. Qed.

#[local] Instance RunNft : NftUtils := Build_NftUtils (fun k => k) (fun k => k).

#[local] Instance MemRaw : RawDriver MemSession := {|
  RawStatement := string * nat;
  RawResult := list (option Blob) * nat;
  raw_new := fun s => (s, 0%nat);
  raw_set_paging_size := fun s _ => s;
  raw_set_paging_state := fun s r => (s.1, S r.2);
  raw_execute := fun q d =>
    (if decide (q.2 = 0%nat) then Some ([Some (uint256_bytes 9)], 0%nat) else None, d);
  raw_execute_ok := fun _ d => (true, d);
  raw_column0 := fst;
  raw_has_more_pages := fun _ => false
|}.

Definition run_tables : Tables :=
  set_transactions {[uint256_bytes 9 := (100, 0, [1], [])]}
    (set_ledger_range {[false := 5; true := 100]}
      (set_nf_token_transactions {[uint256_bytes 7 := {[(100, 4) := uint256_bytes 9]}]} one_tables)).

Definition run_world : Cass MemSession :=
  mkCass (mkMemSession run_tables [(CASS_OK, false); (CASS_ERROR_SERVER_UNAVAILABLE, false);
      (CASS_OK, false); (CASS_ERROR_OTHER 1, true)] [])
    SimpleCache_init None 1 0 1 0 100000 0 0 [].

Lemma run_represents : represents run_tables (L one_history).
Proof. destruct one_represents as [H1 H2 H3 H4 H5]. by split. Qed.

Lemma run_raw : RawLaws (H := MemRaw) ms_tables ms_patience
  (nftTxQuery (H := CassandraDb (CS := MemCass) (CA := TypedApi) 5 0 ""))
  (raw_new ("DROP TABLE " +:+ "" +:+ "issuer_nf_tokens")) [[9]]
  (fun q ps => q.2 = 0%nat /\ ps = [[9]] \/ ps = []).
Proof.
  split.
  - split; [done|]. by left.
  - intros q p ps d r d' [[Hq Hps]|?] He; [|done]. cbn in He. rewrite Hq in He. cbn in He.
    injection He as <- <-. injection Hps as -> ->. split; [done|]. split; [done|]. right.
    eexists. split; [done|]. split; [done|].
    split; [repeat constructor; unfold valid_key; lia|]. split; [by split | by right].
  - by intros d b d' [= <- <-].
Qed.

Definition run_minted : NFTsData := mkNFTsData 7 100 (Some 4) 3 (Some [104; 105]) false.
Definition run_token (seq : Z) : NFTsData := mkNFTsData 11 seq None 0 (Some [11; 11]) false.

Lemma run_coherent : coherent [run_minted; run_token 5] [run_token 100] 100.
Proof.
  split.
  - intros d1 d2 H1 H2. rewrite !elem_of_cons, elem_of_nil in H1, H2.
    destruct H1 as [->|[->|[]]], H2 as [->|[->|[]]]; intros Hid Hs; cbn in Hs; try lia;
      (split; [done|]; split; [done|]); intros u1 u2 [= <-] [= <-]; done.
  - intros d Hd. apply list_elem_of_singleton in Hd as ->. exists (run_token 5).
    split; [right; left|]. split; [done | cbn; lia].
  - intros d d' Hd Hd'. apply list_elem_of_singleton in Hd as ->.
    rewrite !elem_of_cons, elem_of_nil in Hd'. destruct Hd' as [->|[->|[]]]; [|done].
    intros Hb. by vm_compute in Hb.
Qed.

(** With a timeout in the migration's reads and a failing write, the run ends
    and token 11 has its URI. *)
Lemma migration_verifies_witness :
  exists w, migrate_and_verify (CS := MemCass) (CA := TypedApi) 5 0 "" sample_strHex run_world = (Ok tt, w) /\
    verified sample_strHex (stored := nft_lookup (ms_tables (db w))) 100 (run_token 100).
Proof.
  assert (Hpat : (ms_patience (db run_world) < 5)%nat) by (vm_compute; lia).
  assert (Hreads : 0 <= numReadRequestsOutstanding_ run_world < 2 ^ 32) by done.
  assert (Hzero : forall s, L one_history s !! firstKey = None).
  { intros s. apply eq_None_not_Some. intros [b (_ & Hk & _)%one_L_Some]. done. }
  assert (Hsize : forall s, Z.of_nat (size (L one_history s)) < Z.of_nat 5 * 2000).
  { intros s. cbn. unfold one_L. destruct (s <? 5); [done|]. by rewrite map_size_singleton. }
  pose proof (migration_verifies (SL := MemCassLaws) (CL := TypedLaws) (RW := run_raw) 5 0 "" sample_strHex
    one_history run_tables (mkLedgerRange 5 100) [run_minted] [run_token 5] [run_token 100] run_world
    ltac:(split_and!; done) Hpat Hreads ltac:(exists ∅; apply rtc_refl) eq_refl run_represents
    ltac:(vm_compute; reflexivity) eq_refl Hzero ltac:(simpl; lia) Hsize
    ltac:(vm_compute; reflexivity) ltac:(vm_compute; reflexivity) ltac:(vm_compute; reflexivity)
    run_coherent run_world eq_refl) as Ht.
  match type of Ht with match ?m with _ => _ end =>
    assert (Hok : m.1 = Ok tt) by (vm_compute; reflexivity); destruct m as [o w] end.
  simpl in Hok. subst o. exists w. split; [reflexivity|]. apply Ht. left.
Defined.

End samples.
