(* ===== verification/Monitor.v ===== *)
(** * Objects guarded by a mutex and a condition variable

    The shared objects of [src/src/etl/ETLHelpers.h] have one shape: every
    method takes the mutex, may wait on the condition variable until a predicate
    holds, changes the state, and may call [notify_all]. A [Monitor] is the
    sequential reading of such an object. Its calls run in threads under an
    arbitrary schedule, with spurious wake-ups and timeouts; the theorems are
    that the completed calls took effect one after the other, and that no thread
    sleeps while its call could go on. *)

From stdpp Require Import base list relations.
From Stdlib Require Import Lia.
From S2P Require Import Prelude.

(** [attempt c s] is the call once it holds the mutex: [None] when it has to
    wait, otherwise its result, the new state, and whether it notified. A call
    with [wait_first] waits once for a notification or a timeout before that. *)
Class Monitor (S C R : Type) := {
  attempt : C -> S -> option (R * S * bool);
  wait_first : C -> bool
}.

Section monitor.
Context {S C R : Type} `{Monitor S C R}.

Inductive Thread :=
| TCalled (c : C)
| TAsleep (c : C)
| TAwake (c : C)
| TDone (c : C) (r : R).

(** [log] holds the completed calls with their results, in order. *)
Record System := mkSystem { state : S; threads : list Thread; log : list (C * R) }.

Definition wake (t : Thread) : Thread := match t with TAsleep c => TAwake c | _ => t end.

(** The thread has the mutex: at the call, or on leaving the wait. *)
Definition run_call (i : nat) (c : C) (sys : System) : System :=
  match attempt c (state sys) with
  | None => mkSystem (state sys) (<[i := TAsleep c]> (threads sys)) (log sys)
  | Some (r, s, notified) =>
      mkSystem s (<[i := TDone c r]> (if notified then wake <$> threads sys else threads sys))
        (log sys ++ [(c, r)])
  end.

Inductive ThreadEvent :=
| ECall (c : C)
| ERun (i : nat)
| EWake (i : nat).

(** A step of the schedule; [None] when the event does not apply. *)
Definition sys_step (e : ThreadEvent) (sys : System) : option System :=
  match e with
  | ECall c => Some (mkSystem (state sys) (threads sys ++ [TCalled c]) (log sys))
  | ERun i =>
      match threads sys !! i with
      | Some (TCalled c) =>
          Some (if wait_first c then mkSystem (state sys) (<[i := TAsleep c]> (threads sys)) (log sys)
                else run_call i c sys)
      | Some (TAwake c) => Some (run_call i c sys)
      | _ => None
      end
  | EWake i =>
      match threads sys !! i with
      | Some (TAsleep c) => Some (mkSystem (state sys) (<[i := TAwake c]> (threads sys)) (log sys))
      | _ => None
      end
  end.

Fixpoint sys_run (es : list ThreadEvent) (sys : System) : option System :=
  match es with
  | [] => Some sys
  | e :: es' => match sys_step e sys with Some sys' => sys_run es' sys' | None => None end
  end.

Definition sys_start (s : S) : System := mkSystem s [] [].

(** The calls of a log executed one after the other. *)
Inductive executes : list (C * R) -> S -> S -> Prop :=
| executes_nil s : executes [] s s
| executes_snoc l s s' c r s'' n :
    executes l s s' -> attempt c s' = Some (r, s'', n) -> executes (l ++ [(c, r)]) s s''.

(** A call that does not notify lets no waiting call go on. *)
Definition quiet_law : Prop :=
  forall c c' s r s', attempt c s = Some (r, s', false) -> attempt c' s = None -> attempt c' s' = None.

(** Whoever sleeps without being woken would have to wait. *)
Definition sleepers_wait (sys : System) : Prop :=
  forall c, TAsleep c ∈ threads sys -> wait_first c = false -> attempt c (state sys) = None.

Lemma elem_insert (i : nat) (t t' : Thread) (l : list Thread) : t ∈ <[i := t']> l -> t = t' \/ t ∈ l.
Proof.
  intros [j Hj]%list_elem_of_lookup. destruct (decide (i = j)) as [->|Hne].
  - left. destruct (decide (j < length l)%nat) as [Hl|Hl].
    + rewrite list_lookup_insert_eq in Hj by done. congruence.
    + rewrite list_insert_ge in Hj by lia. rewrite lookup_ge_None_2 in Hj by lia. done.
  - right. rewrite list_lookup_insert_ne in Hj by done. by eapply list_elem_of_lookup_2.
Qed.

Lemma not_asleep_woken c (l : list Thread) : TAsleep c ∉ (wake <$> l).
Proof. intros (t & Ht & _)%list_elem_of_fmap. by destruct t. Qed.

Lemma run_call_sleepers i c sys :
  quiet_law -> sleepers_wait sys -> sleepers_wait (run_call i c sys).
Proof.
  intros Hq Hs c' Hin Hw. unfold run_call in *.
  destruct (attempt c (state sys)) as [[[r s] n]|] eqn:Ha; cbn [threads state] in *.
  - apply elem_insert in Hin as [?|Hin]; [done|]. destruct n; [by apply not_asleep_woken in Hin|].
    by eapply Hq; [exact Ha | apply Hs].
  - apply elem_insert in Hin as [[= ->]|Hin]; [done | by apply Hs].
Qed.

Lemma step_sleepers e sys sys' :
  quiet_law -> sleepers_wait sys -> sys_step e sys = Some sys' -> sleepers_wait sys'.
Proof.
  intros Hq Hs. destruct e as [c|i|i]; simpl.
  - intros [= <-] c' [Hin|Hin%list_elem_of_singleton]%elem_of_app; [by apply Hs | done].
  - destruct (threads sys !! i) as [[c|c|c|c r]|] eqn:Hi; try done; intros [= <-].
    + destruct (wait_first c) eqn:Hw; [|by apply run_call_sleepers].
      intros c' [[= ->]|Hin]%elem_insert Hw'; [congruence | by apply Hs].
    + by apply run_call_sleepers.
  - destruct (threads sys !! i) as [[c|c|c|c r]|] eqn:Hi; try done; intros [= <-].
    intros c' [?|Hin]%elem_insert; [done | by apply Hs].
Qed.

Lemma step_executes s0 e sys sys' :
  executes (log sys) s0 (state sys) -> sys_step e sys = Some sys' -> executes (log sys') s0 (state sys').
Proof.
  intros He. assert (forall i c, executes (log (run_call i c sys)) s0 (state (run_call i c sys))) as Hrun.
  { intros i c. unfold run_call. destruct (attempt c (state sys)) as [[[r s] n]|] eqn:Ha; [|done].
    by eapply executes_snoc. }
  destruct e as [c|i|i]; simpl; [by intros [= <-] | |];
    (destruct (threads sys !! i) as [[c|c|c|c r]|]; try done; intros [= <-]); auto.
  by destruct (wait_first c).
Qed.

(** Every run of the object is a sequence of calls, and loses no wake-up. *)
Lemma run_linear s0 es sys :
  quiet_law -> sys_run es (sys_start s0) = Some sys ->
  executes (log sys) s0 (state sys) /\ sleepers_wait sys.
Proof.
  intros Hq. assert (forall sys0, executes (log sys0) s0 (state sys0) -> sleepers_wait sys0 ->
    sys_run es sys0 = Some sys -> executes (log sys) s0 (state sys) /\ sleepers_wait sys) as Hgen.
  { induction es as [|e es IH]; intros sys0 He Hs; simpl; [by intros [= <-]|].
    destruct (sys_step e sys0) as [sys1|] eqn:Hf; [|done].
    apply IH; [by eapply step_executes | by eapply step_sleepers]. }
  apply Hgen; [constructor|]. by intros c ?%not_elem_of_nil.
Qed.

(** A state in which no thread can run has only sleepers left. *)
Definition stuck (sys : System) : Prop := forall i, sys_step (ERun i) sys = None.

Lemma stuck_threads sys t : stuck sys -> t ∈ threads sys ->
  (exists c, t = TAsleep c) \/ exists c r, t = TDone c r.
Proof.
  intros Hs [i Hi]%list_elem_of_lookup. specialize (Hs i). simpl in Hs. rewrite Hi in Hs.
  destruct t as [c|c|c|c r]; [done | by left; exists c | done | by right; exists c, r].
Qed.

(** Invariants of the state by induction over the completed calls. *)
Lemma executes_ind_state (P : list (C * R) -> S -> Prop) s0 l s :
  P [] s0 ->
  (forall l s c r s' n, P l s -> attempt c s = Some (r, s', n) -> P (l ++ [(c, r)]) s') ->
  executes l s0 s -> P l s.
Proof. intros H0 Hstep He. induction He; eauto. Qed.

End monitor.
Arguments Thread : clear implicits.
Arguments System : clear implicits.
Arguments ThreadEvent : clear implicits.
