(* ===== verification/ETLHelpers.v ===== *)
(** * Helpers of the extraction

    [src/src/etl/ETLHelpers.h]: [NetworkValidatedLedgers], the last sequence the
    network validated; [ThreadSafeQueue], the queue between the threads of the
    extraction; [getMarkers], which splits the key space for the download of the
    first ledger. The two shared objects are instances of [Monitor]. *)

From stdpp Require Import base list.
From Stdlib Require Import ZArith Lia.
From S2P Require Import Prelude Types Monitor.

Open Scope Z_scope.

(** ** NetworkValidatedLedgers *)

Record NetworkValidatedLedgers := mkNetworkValidatedLedgers { max_ : option Z }.

Inductive NvlCall :=
| NvlPush (idx : Z)
| NvlMostRecent
| NvlWait (sequence : Z) (maxWaitMs : option Z).

Inductive NvlResult :=
| NvlPushed
| NvlRecent (idx : Z)
| NvlValidated (b : bool).

(** The predicate of [waitUntilValidatedByNetwork]. *)
Definition nvl_pred (sequence : Z) (n : NetworkValidatedLedgers) : bool :=
  match max_ n with Some m => sequence <=? m | None => false end.

Definition NetworkValidatedLedgers_push (idx : Z) (n : NetworkValidatedLedgers) : NetworkValidatedLedgers :=
  match max_ n with
  | None => mkNetworkValidatedLedgers (Some idx)
  | Some m => if idx >? m then mkNetworkValidatedLedgers (Some idx) else n
  end.

Abbreviation NvlStep := (option (NvlResult * NetworkValidatedLedgers * bool)).

Definition getMostRecent (n : NetworkValidatedLedgers) : NvlStep :=
  match max_ n with Some m => Some (NvlRecent m, n, false) | None => None end.

(** With a time limit [wait_for] has no predicate: the call waits once, and
    whatever ends the wait, answers what the predicate then says. *)
Definition waitUntilValidatedByNetwork (sequence : Z) (maxWaitMs : option Z) (n : NetworkValidatedLedgers)
  : NvlStep :=
  match maxWaitMs with
  | Some _ => Some (NvlValidated (nvl_pred sequence n), n, false)
  | None => if nvl_pred sequence n then Some (NvlValidated true, n, false) else None
  end.

#[export] Instance nvl_monitor : Monitor NetworkValidatedLedgers NvlCall NvlResult := {
  attempt c n :=
    match c with
    | NvlPush idx => Some (NvlPushed, NetworkValidatedLedgers_push idx n, true)
    | NvlMostRecent => getMostRecent n
    | NvlWait sequence maxWaitMs => waitUntilValidatedByNetwork sequence maxWaitMs n
    end;
  wait_first c := match c with NvlWait _ (Some _) => true | _ => false end
}.

Lemma nvl_quiet : quiet_law (S := NetworkValidatedLedgers).
Proof.
  intros c c' s r s' Ha Hn. enough (s = s') by congruence. clear Hn.
  destruct c as [idx| |q [ms|]]; cbn in Ha; unfold getMostRecent in *.
  - done.
  - destruct (max_ s); [|done]. by injection Ha.
  - by injection Ha.
  - destruct (nvl_pred q s); [|done]. by injection Ha.
Qed.

(** The sequences pushed by the completed calls. *)
Definition nvl_pushes (l : list (NvlCall * NvlResult)) : list Z :=
  omap (fun cr => match cr.1 with NvlPush idx => Some idx | _ => None end) l.

Definition is_max (m : option Z) (l : list Z) : Prop :=
  match m with Some x => x ∈ l /\ (forall y, y ∈ l -> y <= x) | None => l = [] end.

Lemma is_max_snoc m l x :
  is_max m l -> is_max (max_ (NetworkValidatedLedgers_push x (mkNetworkValidatedLedgers m))) (l ++ [x]).
Proof.
  unfold is_max, NetworkValidatedLedgers_push. cbn [max_]. destruct m as [m|].
  - intros [H1 H2]. destruct (x >? m) eqn:Hx; zbool; cbn [max_]; split.
    + apply elem_of_app. right. by left.
    + intros y [Hy%H2|Hy%list_elem_of_singleton]%elem_of_app; lia.
    + apply elem_of_app. by left.
    + intros y [Hy%H2|Hy%list_elem_of_singleton]%elem_of_app; lia.
  - intros ->. split; [by left|]. intros y Hy%list_elem_of_singleton. lia.
Qed.

(** What is so after the completed calls [l]: the state is the maximum of the
    pushes, and every answer was right when it was given. *)
Definition nvl_answer (before : list (NvlCall * NvlResult)) (cr : NvlCall * NvlResult) : Prop :=
  match cr with
  | (NvlMostRecent, NvlRecent m) => is_max (Some m) (nvl_pushes before)
  | (NvlWait q w, NvlValidated b) =>
      (b = true <-> exists idx, idx ∈ nvl_pushes before /\ q <= idx) /\ (b = false -> is_Some w)
  | (NvlPush _, NvlPushed) => True
  | _ => False
  end.

Definition nvl_log (l : list (NvlCall * NvlResult)) : Prop :=
  forall before cr after, l = before ++ cr :: after -> nvl_answer before cr.

Lemma nvl_log_snoc l cr : nvl_log l -> nvl_answer l cr -> nvl_log (l ++ [cr]).
Proof.
  intros Hl Hcr b x a Heq. destruct a as [|y a _] using rev_ind.
  - apply app_inj_tail in Heq as [<- <-]. done.
  - rewrite app_comm_cons, app_assoc in Heq. apply app_inj_tail in Heq as [Heq _]. by apply (Hl b x a).
Qed.

Lemma nvl_pred_pushes q m l :
  is_max m l -> nvl_pred q (mkNetworkValidatedLedgers m) = true <-> exists idx, idx ∈ l /\ q <= idx.
Proof.
  unfold nvl_pred, is_max. cbn [max_]. destruct m as [m|].
  - intros [H1 H2]. rewrite Z.leb_le. split; [by exists m|]. intros (idx & Hi%H2 & ?). lia.
  - intros ->. split; [done|]. by intros (idx & Hi%not_elem_of_nil & _).
Qed.

Lemma nvl_executes l s :
  executes l (mkNetworkValidatedLedgers None) s -> is_max (max_ s) (nvl_pushes l) /\ nvl_log l.
Proof.
  apply (executes_ind_state (fun l s => is_max (max_ s) (nvl_pushes l) /\ nvl_log l)).
  - split; [done|]. by intros [|] ? ?.
  - intros l' [m] c r s' n [Hm Hl] Ha. unfold nvl_pushes in *. rewrite omap_app. cbn [max_] in Hm.
    destruct c as [idx| |q [ms|]]; cbn in Ha |- *.
    + injection Ha as <- <- _. split; [by apply is_max_snoc|]. by apply nvl_log_snoc.
    + destruct m as [m|]; [|done]. injection Ha as <- <- _. rewrite app_nil_r. split; [done|].
      by apply nvl_log_snoc.
    + injection Ha as <- <- _. rewrite app_nil_r. split; [done|]. apply nvl_log_snoc; [done|].
      split; [by apply nvl_pred_pushes | done].
    + destruct (nvl_pred q _) eqn:Hp; [|done]. injection Ha as <- <- _. rewrite app_nil_r. split; [done|].
      apply nvl_log_snoc; [done|]. split; [|done]. split; [|done].
      intros _. by eapply nvl_pred_pushes.
Qed.

(** ** ThreadSafeQueue *)

Section queue.
Context {T : Type}.

Record ThreadSafeQueue := mkThreadSafeQueue { queue_ : list T; maxSize_ : option Z }.

Inductive QueueCall :=
| QPush (elt : T)
| QPop
| QTryPop.

Inductive QueueResult :=
| QPushed
| QPopped (elt : T)
| QTried (elt : option T).

(** The predicate [push] waits for. *)
Definition has_room (q : ThreadSafeQueue) : bool :=
  match maxSize_ q with Some m => Z.of_nat (length (queue_ q)) <=? m | None => true end.

Definition queue_push (elt : T) (q : ThreadSafeQueue) : option (QueueResult * ThreadSafeQueue * bool) :=
  if has_room q then Some (QPushed, mkThreadSafeQueue (queue_ q ++ [elt]) (maxSize_ q), true) else None.

Definition queue_pop (q : ThreadSafeQueue) : option (QueueResult * ThreadSafeQueue * bool) :=
  match queue_ q with
  | [] => None
  | ret :: rest => Some (QPopped ret, mkThreadSafeQueue rest (maxSize_ q), bool_decide (is_Some (maxSize_ q)))
  end.

Definition queue_tryPop (q : ThreadSafeQueue) : option (QueueResult * ThreadSafeQueue * bool) :=
  match queue_ q with
  | [] => Some (QTried None, q, false)
  | ret :: rest =>
      Some (QTried (Some ret), mkThreadSafeQueue rest (maxSize_ q), bool_decide (is_Some (maxSize_ q)))
  end.

#[export] Instance queue_monitor : Monitor ThreadSafeQueue QueueCall QueueResult := {
  attempt c q :=
    match c with QPush elt => queue_push elt q | QPop => queue_pop q | QTryPop => queue_tryPop q end;
  wait_first _ := false
}.

Lemma has_room_unbounded rest : has_room (mkThreadSafeQueue rest None) = true.
Proof. done. Qed.

Lemma queue_quiet : quiet_law (S := ThreadSafeQueue).
Proof.
  intros c c' [q m] r s' Ha Hn. destruct c as [x| |]; cbn in Ha.
  - unfold queue_push in Ha. by destruct (has_room _).
  - unfold queue_pop in Ha. cbn in Ha. destruct q as [|y q]; [done|]. destruct m as [m|]; [done|].
    injection Ha as _ <-. destruct c'; [done | done |]. unfold attempt; cbn. by destruct q.
  - unfold queue_tryPop in Ha. cbn in Ha. destruct q as [|y q]; [by injection Ha as _ <-|].
    destruct m as [m|]; [done|]. injection Ha as _ <-. by destruct c'.
Qed.

(** The elements that went in and those that came out, in order. *)
Definition pushed_elts (l : list (QueueCall * QueueResult)) : list T :=
  omap (fun cr => match cr.1 with QPush elt => Some elt | _ => None end) l.
Definition popped_elts (l : list (QueueCall * QueueResult)) : list T :=
  omap (fun cr => match cr.2 with QPopped elt => Some elt | QTried r => r | QPushed => None end) l.

Definition fifo (q0 : ThreadSafeQueue) (l : list (QueueCall * QueueResult)) (q : ThreadSafeQueue) : Prop :=
  queue_ q0 ++ pushed_elts l = popped_elts l ++ queue_ q /\ maxSize_ q = maxSize_ q0.

Lemma queue_fifo q0 l q : executes l q0 q -> fifo q0 l q.
Proof.
  apply executes_ind_state; [by split; [rewrite app_nil_r|]|].
  intros l' [q' m] c r q1 n [Hf Hm] Ha. unfold fifo, pushed_elts, popped_elts in *.
  rewrite !omap_app, app_assoc, Hf. cbn in Hf, Hm.
  destruct c as [x| |]; cbn in Ha.
  - unfold queue_push in Ha. destruct (has_room _); [|done]. injection Ha as <- <- _. cbn.
    by rewrite app_nil_r, <- app_assoc.
  - unfold queue_pop in Ha. cbn in Ha. destruct q' as [|y q']; [done|]. injection Ha as <- <- _. cbn.
    by rewrite app_nil_r, <- app_assoc.
  - unfold queue_tryPop in Ha. cbn in Ha. destruct q' as [|y q'].
    + injection Ha as <- <- _. cbn. by rewrite !app_nil_r.
    + injection Ha as <- <- _. cbn. by rewrite app_nil_r, <- app_assoc.
Qed.

(** One element more than [maxSize_] fits in. *)
Definition within_bound (q : ThreadSafeQueue) : Prop :=
  forall m, maxSize_ q = Some m -> Z.of_nat (length (queue_ q)) <= m + 1.

Lemma queue_bounded q0 l q : within_bound q0 -> executes l q0 q -> within_bound q.
Proof.
  intros H0. apply (executes_ind_state (fun _ q => within_bound q)); [done|].
  intros _ [q' mx] c r q1 n Hb Ha m. specialize (Hb m). cbn in Hb.
  destruct c as [x| |]; cbn in Ha.
  - unfold queue_push, has_room in Ha. cbn in Ha. destruct mx as [mx|]; [|by injection Ha as _ <- _].
    destruct (Z.of_nat (length q') <=? mx) eqn:Hl; [|done]. injection Ha as _ <- _. cbn. zbool.
    intros [= ->]. rewrite length_app. cbn. lia.
  - unfold queue_pop in Ha. cbn in Ha. destruct q' as [|y q']; [done|]. injection Ha as _ <- _. cbn.
    intros ->. specialize (Hb eq_refl). cbn in Hb. lia.
  - unfold queue_tryPop in Ha. cbn in Ha. destruct q' as [|y q']; injection Ha as _ <- _; cbn;
      intros ->; specialize (Hb eq_refl); cbn in Hb; lia.
Qed.

(** A writer alone is let in until the queue is over its limit. *)
Lemma queue_pushes xs q m :
  maxSize_ q = Some m -> Z.of_nat (length (queue_ q) + length xs) <= m + 1 ->
  exists l, executes l q (mkThreadSafeQueue (queue_ q ++ xs) (Some m)) /\ pushed_elts l = xs.
Proof.
  destruct q as [q0 mx]. cbn. intros ->. induction xs as [|x xs IH] using rev_ind; intros Hl.
  { exists []. rewrite app_nil_r. split; [constructor | done]. }
  rewrite length_app in Hl. cbn in Hl. destruct IH as (l & He & Hp); [lia|].
  exists (l ++ [(QPush x, QPushed)]). split.
  - eapply executes_snoc; [exact He|]. cbn. unfold queue_push, has_room. cbn.
    rewrite length_app. destruct (Z.leb_spec (Z.of_nat (length q0 + length xs)) m); [|lia].
    by rewrite <- app_assoc.
  - unfold pushed_elts in *. by rewrite omap_app, Hp.
Qed.

End queue.
Arguments ThreadSafeQueue : clear implicits.
Arguments QueueCall : clear implicits.
Arguments QueueResult : clear implicits.

(** C39: the queue between the threads. Under every schedule of calls, spurious
    wake-ups included: elements come out in the order they went in, none lost or
    doubled; the queue never holds more than one element above [maxSize_]; a
    [push] sleeps only while the queue is over its limit and a [pop] only while
    it is empty, so a state where nobody can run has no sleeping [push] together
    with a sleeping [pop]. The limit is exceeded by one: [maxSize_ + 1] pushes to
    an empty queue do not wait, where the comment says a call that would exceed
    the size blocks. *)
Theorem queue_threads {T} (m : Z) (es : list (ThreadEvent (QueueCall T)))
    (sys : System (ThreadSafeQueue T) (QueueCall T) (QueueResult T)) :
  0 <= m -> sys_run es (sys_start (mkThreadSafeQueue [] (Some m))) = Some sys ->
  pushed_elts (log sys) = popped_elts (log sys) ++ queue_ (state sys) /\
  Z.of_nat (length (queue_ (state sys))) <= m + 1 /\
  (forall x, TAsleep (QPush x) ∈ threads sys -> m < Z.of_nat (length (queue_ (state sys)))) /\
  (TAsleep QPop ∈ threads sys -> queue_ (state sys) = []) /\
  (stuck sys -> forall t, t ∈ threads sys -> (exists c r, t = TDone c r) \/
     (t = TAsleep QPop /\ queue_ (state sys) = []) \/
     (exists x, t = TAsleep (QPush x) /\ m < Z.of_nat (length (queue_ (state sys))))) /\
  (forall xs : list T, length xs = Z.to_nat (m + 1) ->
     exists l : list (QueueCall T * QueueResult T), executes l (mkThreadSafeQueue [] (Some m)) (mkThreadSafeQueue xs (Some m)) /\
       pushed_elts l = xs).
Proof.
  intros Hm Hrun. destruct (run_linear _ _ _ queue_quiet Hrun) as [He Hs].
  destruct (queue_fifo _ _ _ He) as [Hf Hmx]. cbn in Hf, Hmx.
  assert (within_bound (state sys)) as Hb.
  { eapply queue_bounded; [|exact He]. intros m' [= <-]. cbn. lia. }
  assert (forall x, TAsleep (QPush x) ∈ threads sys -> m < Z.of_nat (length (queue_ (state sys)))) as Hpush.
  { intros x Hx. specialize (Hs _ Hx eq_refl). cbn in Hs. unfold queue_push, has_room in Hs.
    rewrite Hmx in Hs. destruct (Z.leb_spec (Z.of_nat (length (queue_ (state sys)))) m); [done | lia]. }
  assert (TAsleep QPop ∈ threads sys -> queue_ (state sys) = []) as Hpop.
  { intros Hx. specialize (Hs _ Hx eq_refl). cbn in Hs. unfold queue_pop in Hs.
    by destruct (queue_ (state sys)). }
  split_and!; [exact Hf | by apply Hb | exact Hpush | exact Hpop | |].
  - intros Hstuck t Ht. destruct (stuck_threads _ _ Hstuck Ht) as [[c ->]|Hd]; [|by left]. right.
    destruct c as [x| |]; [right; eauto | left; auto|].
    specialize (Hs _ Ht eq_refl). cbn in Hs. unfold queue_tryPop in Hs. by destruct (queue_ (state sys)).
  - intros xs Hxs. apply (queue_pushes xs (mkThreadSafeQueue [] (Some m)) m eq_refl). cbn. lia.
Qed.

(** Two pushes and a third that sleeps until a pop. *)
Definition queue_schedule : list (ThreadEvent (QueueCall nat)) :=
  [ECall (QPush 7%nat); ECall (QPush 8%nat); ECall (QPush 9%nat); ERun 0; ERun 2; ERun 1; EWake 1; ERun 1;
   ECall QPop; ERun 3; ERun 1].

Lemma queue_threads_witness : exists sys,
  sys_run queue_schedule (sys_start (mkThreadSafeQueue [] (Some 1))) = Some sys /\
  popped_elts (log sys) = [7%nat] /\ queue_ (state sys) = [9; 8]%nat /\
  pushed_elts (log sys) = [7; 9; 8]%nat.
Proof.
  destruct (sys_run queue_schedule (sys_start (mkThreadSafeQueue [] (Some 1)))) as [sys|] eqn:Hrun;
    [|vm_compute in Hrun; discriminate].
  pose proof (queue_threads 1 _ sys ltac:(done) Hrun) as Ht.
  exists sys. split; [done|]. vm_compute in Hrun. injection Hrun as <-. destruct Ht as [Hf _].
  split_and!; [reflexivity | reflexivity | exact Hf].
Defined.

(** The last validated ledger. Whatever the schedule, the sequence held is
    the greatest that was pushed; [getMostRecent] answers with it and otherwise
    sleeps; a wait answers true exactly when a sequence as great was pushed
    before, and false only if it had a time limit; without one it sleeps only
    while the sequence has not been pushed. *)
Theorem nvl_threads (es : list (ThreadEvent NvlCall)) (sys : System NetworkValidatedLedgers NvlCall NvlResult) :
  sys_run es (sys_start (mkNetworkValidatedLedgers None)) = Some sys ->
  is_max (max_ (state sys)) (nvl_pushes (log sys)) /\ nvl_log (log sys) /\
  (TAsleep NvlMostRecent ∈ threads sys -> nvl_pushes (log sys) = []) /\
  (forall q, TAsleep (NvlWait q None) ∈ threads sys -> forall idx, idx ∈ nvl_pushes (log sys) -> idx < q).
Proof.
  intros Hrun. destruct (run_linear _ _ _ nvl_quiet Hrun) as [He Hs].
  destruct (nvl_executes _ _ He) as [Hm Hl]. split_and!; [done | done | |].
  - intros Hin. specialize (Hs _ Hin eq_refl). cbn in Hs. unfold getMostRecent in Hs.
    by destruct (max_ (state sys)).
  - intros q Hin idx Hidx. specialize (Hs _ Hin eq_refl). cbn in Hs.
    destruct (nvl_pred q (state sys)) eqn:Hp; [done|]. destruct (Z.lt_ge_cases idx q) as [|Hge]; [done|].
    assert (nvl_pred q (state sys) = true) as Ht; [|congruence].
    destruct (state sys) as [m]. apply (nvl_pred_pushes q m _ Hm). eauto.
Qed.

Lemma nvl_threads_witness : exists sys,
  sys_run [ECall (NvlWait 5 None); ERun 0; ECall (NvlPush 4); ERun 1; ERun 0; ECall (NvlPush 6); ERun 2; ERun 0]
    (sys_start (mkNetworkValidatedLedgers None)) = Some sys /\
  (NvlWait 5 None, NvlValidated true) ∈ log sys /\ is_max (Some 6) (nvl_pushes (log sys)).
Proof.
  destruct (sys_run _ _) as [sys|] eqn:Hrun; [|vm_compute in Hrun; discriminate].
  pose proof (nvl_threads _ sys Hrun) as [Hm _].
  exists sys. split; [done|]. vm_compute in Hrun. injection Hrun as <-. split; [|exact Hm].
  cbn. right. right. by left.
Defined.

(** ** getMarkers *)

(** [base.data()[0] += incr] on the most significant byte. *)
Definition add_first_byte (incr : Z) (base : uint256) : uint256 :=
  Z.shiftl (u8 (Z.shiftr base 248 + incr)) 248 + Z.land base (Z.ones 248).

Fixpoint markers_from (incr : Z) (n : nat) (base : uint256) : list uint256 :=
  match n with
  | O => []
  | S n' => base :: markers_from incr n' (add_first_byte incr base)
  end.

(** Nothing divides by zero: [None]. *)
Definition getMarkers (numMarkers : nat) : option (list uint256) :=
  if (numMarkers =? 0)%nat then None
  else Some (markers_from (u8 (256 / Z.of_nat numMarkers)) numMarkers 0).

(** Where the part of a marker ends. *)
Definition part_end (ms : list uint256) (i : nat) : Z := default (2 ^ 256) (ms !! S i).

Definition marker (n i : nat) : Z := Z.of_nat i * (256 / Z.of_nat n) * 2 ^ 248.

Lemma add_first_byte_small b incr :
  0 <= b -> 0 <= incr -> b + incr < 256 -> add_first_byte incr (b * 2 ^ 248) = (b + incr) * 2 ^ 248.
Proof.
  intros Hb Hi Hs. unfold add_first_byte. rewrite Z.shiftr_div_pow2, Z.div_mul by lia.
  rewrite Z.land_ones, Z.mod_mul, Z.add_0_r by lia. unfold u8. rewrite Z.mod_small by lia.
  by rewrite Z.shiftl_mul_pow2.
Qed.

Lemma markers_from_spec step n i :
  0 <= step -> Z.of_nat (i + n - 1) * step < 256 ->
  markers_from step n (Z.of_nat i * step * 2 ^ 248) =
  (fun j => Z.of_nat j * step * 2 ^ 248) <$> seq i n.
Proof.
  intros Hs. revert i. induction n as [|n IH]; intros i Hb; [done|].
  cbn [markers_from seq fmap list_fmap]. f_equal. destruct n as [|n]; [done|].
  assert (Z.of_nat (S i) * step <= Z.of_nat (i + S (S n) - 1) * step) as Hm.
  { apply Z.mul_le_mono_nonneg_r; lia. }
  rewrite add_first_byte_small by lia. rewrite <- (IH (S i)).
  - do 2 f_equal. lia.
  - replace (S i + S n - 1)%nat with (i + S (S n) - 1)%nat by lia. done.
Qed.

Lemma getMarkers_eq n :
  (1 <= n <= 256)%nat -> getMarkers n = Some (marker n <$> seq 0 n).
Proof.
  intros Hn. unfold getMarkers. destruct (Nat.eqb_spec n 0); [lia|]. f_equal. unfold marker.
  destruct (decide (n = 1%nat)) as [->|Hne]; [done|].
  assert (0 < 256 / Z.of_nat n <= 128) as Hd.
  { split; [apply Z.div_str_pos; lia|]. apply Z.div_le_upper_bound; lia. }
  unfold u8. rewrite Z.mod_small by lia.
  apply (markers_from_spec (256 / Z.of_nat n) n 0); [lia|].
  pose proof (Z.mul_div_le 256 (Z.of_nat n) ltac:(lia)).
  pose proof (Z.mul_le_mono_nonneg_r (Z.of_nat (0 + n - 1)) (Z.of_nat n - 1) (256 / Z.of_nat n) ltac:(lia) ltac:(lia)).
  lia.
Qed.

Lemma marker_lookup n i : (marker n <$> seq 0 n) !! i = if decide (i < n)%nat then Some (marker n i) else None.
Proof.
  rewrite list_lookup_fmap. case_decide as Hi.
  - by rewrite lookup_seq_lt.
  - by rewrite lookup_seq_ge by lia.
Qed.

Lemma marker_lt n i j : (1 <= n <= 256)%nat -> (i < j)%nat -> marker n i < marker n j.
Proof.
  intros Hn Hij. unfold marker. apply Z.mul_lt_mono_pos_r; [lia|]. apply Z.mul_lt_mono_pos_r; [|lia].
  apply Z.div_str_pos. lia.
Qed.

Lemma part_end_eq n i : (i < n)%nat ->
  part_end (marker n <$> seq 0 n) i = if decide (S i < n)%nat then marker n (S i) else 2 ^ 256.
Proof. intros Hi. unfold part_end. rewrite marker_lookup. by case_decide. Qed.

Lemma marker_last n : (1 <= n <= 256)%nat -> marker n (n - 1) < 2 ^ 256.
Proof.
  intros Hn. unfold marker. pose proof (Z.mul_div_le 256 (Z.of_nat n) ltac:(lia)).
  pose proof (Z.div_str_pos 256 (Z.of_nat n) ltac:(lia)).
  change (2 ^ 256) with (256 * 2 ^ 248). apply Z.mul_lt_mono_pos_r; [lia|].
  replace (Z.of_nat (n - 1)) with (Z.of_nat n - 1) by lia. lia.
Qed.

(** The part of a key: the last marker not above it. *)
Lemma marker_part n k : (1 <= n <= 256)%nat -> valid_key k ->
  exists i, (i < n)%nat /\ marker n i <= k < part_end (marker n <$> seq 0 n) i.
Proof.
  intros Hn Hk. assert (forall m, (1 <= m <= n)%nat -> (exists i, (i < m)%nat /\ marker n i <= k /\
      forall j, (i < j < m)%nat -> k < marker n j)) as Hlast.
  { induction m as [|m IH]; [lia|]. intros Hm. destruct (Z.le_gt_cases (marker n m) k) as [Hle|Hgt].
    - exists m. split_and!; [lia | done | lia].
    - destruct (decide (m = 0%nat)) as [->|Hm0]; [unfold marker, valid_key in *; lia|].
      destruct IH as (i & Hi & Hle & Hj); [lia|]. exists i. split_and!; [lia | done |].
      intros j Hji. destruct (decide (j = m)) as [->|]; [done | apply Hj; lia]. }
  destruct (Hlast n) as (i & Hi & Hle & Hj); [lia|]. exists i. split; [done|]. split; [done|].
  rewrite part_end_eq by done. case_decide; [apply Hj; lia | by apply Hk].
Qed.

(** The markers of the download. For 1 to 256 markers they are the
    multiples of [256 / numMarkers] in the first byte (for one marker that does
    not fit a byte, and is not used), and every key lies in the part of exactly
    one. The parts are of equal size, as the comment has it, only when the
    number divides 256; otherwise the last part is larger. *)
Theorem getMarkers_partition (n : nat) :
  (1 <= n <= 256)%nat ->
  exists ms, getMarkers n = Some ms /\ ms = marker n <$> seq 0 n /\
  (forall k, valid_key k -> exists i lo, ms !! i = Some lo /\ lo <= k < part_end ms i /\
     forall j lo', ms !! j = Some lo' -> lo' <= k < part_end ms j -> j = i) /\
  ((exists size, forall i lo, ms !! i = Some lo -> part_end ms i - lo = size) <-> (Z.of_nat n | 256)).
Proof.
  intros Hn. exists (marker n <$> seq 0 n). split; [by apply getMarkers_eq|]. split; [done|]. split.
  - intros k Hk. destruct (marker_part n k Hn Hk) as (i & Hi & Hr). exists i, (marker n i).
    rewrite marker_lookup, decide_True by done. split; [done|]. split; [done|].
    intros j lo'. rewrite marker_lookup. case_decide as Hj; [|done]. intros [= <-].
    rewrite !part_end_eq in * by done. intros Hr'.
    destruct (Nat.lt_trichotomy i j) as [Hlt|[->|Hlt]]; [exfalso|done|exfalso].
    + destruct (decide (S i < n)%nat); [|lia]. destruct (decide (j = S i)) as [->|]; [lia|].
      pose proof (marker_lt n (S i) j Hn ltac:(lia)). lia.
    + destruct (decide (S j < n)%nat); [|lia]. destruct (decide (i = S j)) as [->|]; [lia|].
      pose proof (marker_lt n (S j) i Hn ltac:(lia)). lia.
  - split.
    + intros [size Hs]. destruct (decide (n = 1%nat)) as [->|Hn1]; [by exists 256|].
      pose proof (Hs 0%nat (marker n 0)) as H0. pose proof (Hs (n - 1)%nat (marker n (n - 1))) as H1.
      rewrite marker_lookup, decide_True, part_end_eq, decide_True in H0 by lia.
      rewrite marker_lookup, decide_True, part_end_eq, decide_False in H1 by lia.
      specialize (H0 eq_refl). specialize (H1 eq_refl). unfold marker in *. exists (256 / Z.of_nat n).
      rewrite Nat2Z.inj_sub in H1 by lia. change (2 ^ 256) with (256 * 2 ^ 248) in H1. lia.
    + intros [d Hd]. exists (d * 2 ^ 248). intros i lo. rewrite marker_lookup. case_decide as Hi; [|done].
      intros [= <-]. rewrite part_end_eq by done. unfold marker.
      assert (256 / Z.of_nat n = d) as -> by (rewrite Hd, Z.div_mul; lia).
      change (2 ^ 256) with (256 * 2 ^ 248). case_decide as Hsi; [lia|].
      assert (Z.of_nat i = Z.of_nat n - 1) as -> by lia. lia.
Qed.

Lemma getMarkers_partition_witness : exists ms,
  getMarkers 3 = Some ms /\ ms = [0; 85 * 2 ^ 248; 170 * 2 ^ 248] /\
  ~ (exists size, forall i lo, ms !! i = Some lo -> part_end ms i - lo = size).
Proof.
  destruct (getMarkers_partition 3 ltac:(lia)) as (ms & H1 & H2 & _ & H4).
  exists ms. split; [exact H1|]. split; [rewrite H2; vm_compute; reflexivity|].
  rewrite H4. intros Hd%Z.mod_divide; [|done]. vm_compute in Hd. done.
Defined.
