(* ===== verification/LedgerRows.v ===== *)
(** * Tables that represent the ledgers up to a sequence

    What it means that the [objects] and [successor] tables hold every ledger up
    to a sequence, for the keys of the ledgers and for the bases of order books,
    and which rows have to be written for the next ledger. The key order of two
    consecutive ledgers is compared here without reference to any program. *)

From stdpp Require Import base list gmap strings sorting.
From Stdlib Require Import ZArith Lia.
From S2P Require Import Prelude Types SimpleCache Backend Cql Cassandra Tables CassandraSpec.

Open Scope Z_scope.

#[local] Arguments table_row : simpl never.

(** ** Rows of a partition *)

Lemma latest_ext {V} (k : Blob) (s : Z) (t t' : gmap Blob (gmap Z V)) :
  (forall q, q <= s -> table_row k q t = table_row k q t') -> latest k s t = latest k s t'.
Proof.
  intros Hrow. unfold latest. unfold table_row in Hrow.
  set (m := default ∅ (t !! k)) in *. set (m' := default ∅ (t' !! k)) in *.
  destruct (before_lower_bound (s + 1) m') as [[q v]|] eqn:Hb.
  - apply before_lower_bound_Some in Hb as (H1 & H2 & H3). apply before_lower_bound_Some.
    split_and!; [by rewrite Hrow by lia | done |]. intros j Hj. rewrite Hrow by lia. by apply H3.
  - apply before_lower_bound_None. intros j Hj. rewrite Hrow by lia.
    by eapply before_lower_bound_None.
Qed.

Lemma latest_step {V} (k : Blob) (s : Z) (t : gmap Blob (gmap Z V)) :
  latest k s t = match table_row k s t with Some v => Some (s, v) | None => latest k (s - 1) t end.
Proof.
  destruct (table_row k s t) as [v|] eqn:Hr; [by apply latest_exact|].
  unfold latest, table_row in *. set (m := default ∅ (t !! k)) in *.
  destruct (before_lower_bound (s - 1 + 1) m) as [[q v]|] eqn:Hb.
  - apply before_lower_bound_Some in Hb as (H1 & H2 & H3). apply before_lower_bound_Some.
    split_and!; [done | lia |]. intros j Hj. destruct (decide (j = s)) as [->|]; [done|]. apply H3. lia.
  - apply before_lower_bound_None. intros j Hj. destruct (decide (j = s)) as [->|]; [done|].
    eapply before_lower_bound_None; [exact Hb | lia].
Qed.

(** ** The order of the keys *)

(** The greatest key of a ledger below [k]; the first key if there is none. *)
Definition prev_key (m : gmap Z Blob) (k : Z) : option Z := fst <$> before_lower_bound k m.
Definition pred_of (m : gmap Z Blob) (k : Z) : Z := default firstKey (prev_key m k).
Definition succ_of (m : gmap Z Blob) (k : Z) : Z := default lastKey (next_key m k).

Lemma prev_key_Some m k k' :
  prev_key m k = Some k' <-> is_Some (m !! k') /\ k' < k /\ forall j, k' < j < k -> m !! j = None.
Proof.
  unfold prev_key. rewrite fmap_Some. split.
  - intros ([k1 v] & Hub & ->). apply before_lower_bound_Some in Hub as (? & ? & ?). simpl. eauto.
  - intros ([v Hv] & Hlt & Hn). exists (k', v). split; [|done]. by apply before_lower_bound_Some.
Qed.

Lemma prev_key_None m k : prev_key m k = None <-> forall j, j < k -> m !! j = None.
Proof. unfold prev_key. rewrite fmap_None. apply before_lower_bound_None. Qed.

(** The first directory of the order book with a base: the keys of its
    directories share the base's high 192 bits. *)
Definition first_dir (m : gmap Z Blob) (b : Z) : option Z :=
  match next_key m b with Some k => if k <? b + 2 ^ 64 then Some k else None | None => None end.

Lemma first_dir_Some m b k :
  first_dir m b = Some k <-> next_key m b = Some k /\ k < b + 2 ^ 64.
Proof.
  unfold first_dir. destruct (next_key m b) as [x|]; [|naive_solver].
  destruct (x <? b + 2 ^ 64) eqn:Hx; zbool; split; [by intros [= <-] | by intros [[= <-] _] | done |].
  intros [[= <-] ?]. lia.
Qed.

(** A successor row of a base leads a reader to the first directory of the book,
    or out of the book when it has none. *)
Definition book_entry (m : gmap Z Blob) (b : Z) (v : Blob) : Prop :=
  match first_dir m b with
  | Some k => v = uint256_bytes k
  | None => exists x, valid_key x /\ v = uint256_bytes x /\ (x = lastKey \/ b + 2 ^ 64 <= x)
  end.

Lemma book_entry_succ m b :
  (forall k, is_Some (m !! k) -> valid_key k) -> book_entry m b (uint256_bytes (succ_of m b)).
Proof.
  intros Hv. unfold book_entry, succ_of, first_dir.
  destruct (next_key m b) as [k|] eqn:Hn; simpl.
  - pose proof Hn as (Hk & _ & _)%next_key_Some.
    destruct (k <? b + 2 ^ 64) eqn:Hlt; zbool; [done|]. exists k. auto.
  - exists lastKey. split; [unfold valid_key, lastKey; lia | auto].
Qed.

(** Predecessor and successor fit together. *)
Lemma succ_pred_present h s x :
  L h s !! firstKey = None -> is_Some (L h s !! x) -> succ_of (L h s) (pred_of (L h s) x) = x.
Proof.
  intros Hf Hx. unfold succ_of, pred_of.
  assert (0 < x) as Hpos.
  { destruct Hx as [b Hb]. pose proof (L_valid h s x b Hb) as [? _].
    destruct (decide (x = firstKey)); [congruence|]. unfold firstKey in *. lia. }
  rewrite (proj2 (next_key_Some _ _ x)); [done|]. split; [done|].
  destruct (prev_key (L h s) x) as [p|] eqn:Hp; cbn [default]; unfold id.
  - apply prev_key_Some in Hp as (_ & ? & ?). done.
  - pose proof (proj1 (prev_key_None _ _) Hp) as Hn. unfold firstKey. split; [done|].
    intros j Hj. apply Hn. lia.
Qed.

Lemma succ_pred_absent h s x :
  valid_key x -> L h s !! x = None -> succ_of (L h s) (pred_of (L h s) x) = succ_of (L h s) x.
Proof.
  intros [Hx _] Hn. unfold succ_of. f_equal.
  assert (pred_of (L h s) x <= x /\ forall j, pred_of (L h s) x < j <= x -> L h s !! j = None) as [Hle Hgap].
  { unfold pred_of. destruct (prev_key (L h s) x) as [p|] eqn:Hp; cbn [default]; unfold id.
    - apply prev_key_Some in Hp as (_ & ? & Hp). split; [lia|]. intros j Hj.
      destruct (decide (j = x)) as [->|]; [done | apply Hp; lia].
    - pose proof (proj1 (prev_key_None _ _) Hp) as Hn'. unfold firstKey. split; [lia|].
      intros j Hj. destruct (decide (j = x)) as [->|]; [done | apply Hn'; lia]. }
  destruct (next_key (L h s) x) as [y|] eqn:Hy.
  - apply next_key_Some in Hy as (H1 & H2 & H3). apply next_key_Some. split_and!; [done | lia |].
    intros j Hj. destruct (decide (j <= x)); [apply Hgap; lia | apply H3; lia].
  - pose proof (proj1 (next_key_None _ _) Hy) as Hy'. apply next_key_None. intros j Hj.
    destruct (decide (j <= x)); [apply Hgap; lia | apply Hy'; lia].
Qed.

(** A full cache knows the order of its ledger's keys. *)
Lemma cache_next h c ld k s :
  reach h c ld -> full_ c = true -> s = latestSeq_ c -> 0 < s ->
  lo_key <$> (getSuccessor k s c).1 = next_key (L h s) k.
Proof.
  intros Hr Hf Hs Hpos. destruct (full_neighbours h c ld k s Hr Hf Hs Hpos) as [Hn _].
  destruct (next_key (L h s) k) as [x|] eqn:Hx.
  - apply next_key_Some in Hx as ([b Hb] & H2 & H3).
    by rewrite (proj2 (Hn (mkLedgerObject x b))) by done.
  - destruct (getSuccessor k s c).1 as [o|] eqn:Ho; [|done].
    destruct (proj1 (Hn o) eq_refl) as (H1 & H2 & _).
    rewrite (proj1 (next_key_None _ _) Hx) in H1 by done. done.
Qed.

Lemma cache_prev h c ld k s :
  reach h c ld -> full_ c = true -> s = latestSeq_ c -> 0 < s ->
  lo_key <$> getPredecessor k s c = prev_key (L h s) k.
Proof.
  intros Hr Hf Hs Hpos. destruct (full_neighbours h c ld k s Hr Hf Hs Hpos) as [_ Hn].
  destruct (prev_key (L h s) k) as [x|] eqn:Hx.
  - apply prev_key_Some in Hx as ([b Hb] & H2 & H3).
    by rewrite (proj2 (Hn (mkLedgerObject x b))) by done.
  - destruct (getPredecessor k s c) as [o|] eqn:Ho; [|done].
    destruct (proj1 (Hn o) eq_refl) as (H1 & H2 & _).
    rewrite (proj1 (prev_key_None _ _) Hx) in H1 by done. done.
Qed.

(** ** Representation up to a ledger *)

Record represents_upto (n : Z) (T : Tables) (Ldg : Z -> gmap Z Blob) : Prop := {
  ru_object : forall s k, s <= n -> valid_key k ->
    default [] (snd <$> latest (uint256_bytes k) s (t_objects T)) = default [] (Ldg s !! k);
  ru_successor : forall s k, s <= n -> k = firstKey \/ is_Some (Ldg s !! k) ->
    (exists q, latest (uint256_bytes k) s (t_successor T) =
      Some (q, uint256_bytes (succ_of (Ldg s) k))) \/
    (latest (uint256_bytes k) s (t_successor T) = None /\ next_key (Ldg s) k = None)
}.

(** The same for the bases of order books. *)
Definition books_upto (Books : Z -> Prop) (n : Z) (T : Tables) (Ldg : Z -> gmap Z Blob) : Prop :=
  forall s b, s <= n -> Books b ->
    (exists q v, latest (uint256_bytes b) s (t_successor T) = Some (q, v) /\ book_entry (Ldg s) b v) \/
    (latest (uint256_bytes b) s (t_successor T) = None /\ first_dir (Ldg s) b = None).

(** A represented history that stops changing, in tables without later rows, is
    represented at every sequence. *)
Lemma represents_all n T (h : history) :
  represents_upto n T (L h) -> (forall s, n <= s -> L h s = L h n) ->
  (forall s, L h s !! lastKey = None) ->
  (forall k q, n < q -> table_row k q (t_objects T) = None /\ table_row k q (t_successor T) = None) ->
  represents T (L h).
Proof.
  intros [Hobj Hsucc] Hfix Hlast Hrows.
  assert (forall V (t : gmap Blob (gmap Z V)) k s, (forall q, n < q -> table_row k q t = None) ->
    n <= s -> latest k s t = latest k n t) as Hlat.
  { intros V t k s Hr Hs. unfold latest, table_row in *. set (m := default ∅ (t !! k)) in *.
    destruct (before_lower_bound (n + 1) m) as [[q v]|] eqn:Hb.
    - apply before_lower_bound_Some in Hb as (H1 & H2 & H3). apply before_lower_bound_Some.
      split_and!; [done | lia |]. intros j Hj. destruct (decide (j <= n)); [apply H3; lia | apply Hr; lia].
    - apply before_lower_bound_None. intros j Hj. destruct (decide (j <= n)); [|apply Hr; lia].
      eapply before_lower_bound_None; [exact Hb | lia]. }
  split.
  - apply L_nonempty.
  - apply L_valid.
  - intros s k Hk. destruct (decide (s <= n)) as [Hs|Hs]; [by apply Hobj|].
    rewrite (Hlat _ _ _ s) by (intros; lia || by apply Hrows). rewrite (Hfix s) by lia. by apply Hobj.
  - intros s k Hk. destruct (decide (s <= n)) as [Hs|Hs]; [by apply Hsucc|].
    rewrite (Hlat _ _ _ s) by (intros; lia || by apply Hrows). rewrite (Hfix s) in * by lia.
    by apply Hsucc.
  - exact Hlast.
Qed.

(** ** The next ledger *)

Section next_ledger.
Context (h : history) (seq : Z) (Books : Z -> Prop).

Abbreviation Old := (L h (seq - 1)).
Abbreviation New := (L h seq).

Context (Hfirst : New !! firstKey = None).

(** A right successor row of ledger [seq]. *)
Definition right_succ (k : Z) (v : Blob) : Prop :=
  (k = firstKey \/ is_Some (New !! k) -> v = uint256_bytes (succ_of New k)) /\
  (Books k -> book_entry New k v).

Lemma right_succ_exact k : right_succ k (uint256_bytes (succ_of New k)).
Proof.
  split; [done|]. intros _. apply book_entry_succ. intros j [b Hb]. by eapply L_valid.
Qed.

(** What the writes of ledger [seq] keep of the tables: the rows of other
    sequences, and that the rows of this one are right. *)
Record rows_kept (T0 T : Tables) : Prop := {
  rk_objects : forall k q, q <> seq -> table_row k q (t_objects T) = table_row k q (t_objects T0);
  rk_successor : forall k q, q <> seq ->
    table_row k q (t_successor T) = table_row k q (t_successor T0);
  rk_object : forall k b, valid_key k ->
    table_row (uint256_bytes k) seq (t_objects T) = Some b -> b = default [] (New !! k);
  rk_succ : forall k v, valid_key k ->
    table_row (uint256_bytes k) seq (t_successor T) = Some v -> right_succ k v
}.

(** Whether an object was created or deleted. *)
Definition changed (x : Z) : Prop := is_Some (Old !! x) <-> ~ is_Some (New !! x).

(** Where the next key of a key changes, an object was created or deleted with
    that key as its predecessor in the new ledger. *)
Lemma next_key_changed k :
  k = firstKey \/ is_Some (New !! k) -> next_key Old k <> next_key New k ->
  exists x, changed x /\ pred_of New x = k.
Proof.
  intros Hk Hne.
  assert (exists x, changed x /\ k < x /\ forall j, k < j < x -> New !! j = None) as (x & Hx & Hlt & Hn).
  { destruct (next_key New k) as [b|] eqn:HN.
    - apply next_key_Some in HN as (Hb & Hkb & HbN).
      destruct (next_key Old k) as [a|] eqn:HO.
      + apply next_key_Some in HO as (Ha & Hka & HaN).
        destruct (Z.lt_trichotomy a b) as [Hab|[->|Hab]]; [|done|].
        * exists a. split_and!; [| done | intros; apply HbN; lia].
          unfold changed. rewrite (HbN a) by lia. split; [by intros _ [] | done].
        * exists b. split_and!; [| done | done].
          unfold changed. rewrite (HaN b) by lia. split; [by intros [] | by intros []].
      + exists b. split_and!; [| done | done].
        unfold changed. rewrite (proj1 (next_key_None _ _) HO b) by done.
        split; [by intros [] | by intros []].
    - destruct (next_key Old k) as [a|] eqn:HO; [|done].
      apply next_key_Some in HO as (Ha & Hka & HaN). pose proof (proj1 (next_key_None _ _) HN) as HN'.
      exists a. split_and!; [| done | intros; apply HN'; lia].
      unfold changed. rewrite (HN' a) by lia. split; [by intros _ [] | done]. }
  exists x. split; [done|]. unfold pred_of.
  destruct Hk as [->|Hk].
  - rewrite (proj2 (prev_key_None New x)); [done|]. intros j Hj.
    destruct (New !! j) as [b|] eqn:Hb; [|done]. pose proof (L_valid h seq j b Hb) as [Hv _].
    destruct (decide (j = firstKey)) as [->|Hj0]; [congruence|]. rewrite Hn in Hb; [done|].
    unfold firstKey in *. lia.
  - by rewrite (proj2 (prev_key_Some New x k)).
Qed.

(** An object whose creation or deletion makes the book's first directory
    another one: it was the first key after the base and is gone, or it is new
    and before that key. *)
Definition triggers (x : Z) : Prop :=
  changed x /\
  if decide (is_Some (New !! x)) then
    match next_key Old (getBookBase x) with Some y => x < y | None => True end
  else next_key Old (getBookBase x) = Some x.

Lemma getBookBase_range b x :
  valid_key b -> getBookBase b = b -> valid_key x -> b < x < b + 2 ^ 64 -> getBookBase x = b.
Proof.
  intros Hb Hbb Hx Hr. rewrite getBookBase_spec in Hbb |- * by done.
  rewrite Z.shiftr_div_pow2, Z.shiftl_mul_pow2 in * by lia.
  rewrite <- Hbb. f_equal. symmetry. apply Z.div_unique with (r := x - b); lia.
Qed.

Lemma first_dir_changed b :
  valid_key b -> getBookBase b = b -> first_dir Old b <> first_dir New b ->
  exists x, triggers x /\ getBookBase x = b.
Proof.
  intros Hb Hbb Hne.
  assert (forall x, is_Some (Old !! x) \/ is_Some (New !! x) -> b < x < b + 2 ^ 64 -> getBookBase x = b) as Hbase.
  { intros x Hx Hr. apply getBookBase_range; try done. by destruct Hx as [[y Hy]|[y Hy]]; eapply L_valid. }
  assert (forall m x, first_dir m b = Some x ->
    is_Some (m !! x) /\ b < x < b + 2 ^ 64 /\ forall j, b < j < x -> m !! j = None) as Hin.
  { intros m x [(H1 & H2 & H3)%next_key_Some H4]%first_dir_Some. done. }
  assert (forall m x, match first_dir m b with Some y => x < y | None => x < b + 2 ^ 64 end ->
    b < x -> m !! x = None) as Hout.
  { intros m x. unfold first_dir. destruct (next_key m b) as [y|] eqn:Hy.
    - apply next_key_Some in Hy as (_ & _ & Hy). destruct (y <? b + 2 ^ 64) eqn:Hlt; zbool;
        intros; apply Hy; lia.
    - intros _ Hlt. by apply (proj1 (next_key_None _ _) Hy). }
  assert (forall x, first_dir New b = Some x ->
    match first_dir Old b with Some y => x < y | None => x < b + 2 ^ 64 end ->
    exists x, triggers x /\ getBookBase x = b) as Hcreated.
  { intros x HN Hlt. destruct (Hin _ _ HN) as (Hx & Hr & _). pose proof (Hout Old x Hlt ltac:(lia)) as HO.
    exists x. specialize (Hbase x (or_intror Hx) Hr). split; [|done]. unfold triggers, changed.
    rewrite HO, decide_True, Hbase by done. split; [by split; intros []|].
    destruct (next_key Old b) as [y|] eqn:Hy; [|done]. unfold first_dir in Hlt. rewrite Hy in Hlt.
    destruct (y <? b + 2 ^ 64) eqn:Hyb; zbool; lia. }
  assert (forall x, first_dir Old b = Some x ->
    match first_dir New b with Some y => x < y | None => x < b + 2 ^ 64 end ->
    exists x, triggers x /\ getBookBase x = b) as Hdeleted.
  { intros x HO Hlt. destruct (Hin _ _ HO) as (Hx & Hr & _). pose proof (Hout New x Hlt ltac:(lia)) as HN.
    exists x. specialize (Hbase x (or_introl Hx) Hr). split; [|done]. unfold triggers, changed.
    rewrite HN, Hbase. rewrite decide_False by (by intros []). split; [by split; [intros _ []|]|].
    by apply first_dir_Some in HO as [? _]. }
  destruct (first_dir Old b) as [x|] eqn:HO, (first_dir New b) as [y|] eqn:HN; [| | |done].
  - destruct (Z.lt_trichotomy x y) as [?|[->|?]]; [by eapply Hdeleted | done | by eapply Hcreated].
  - eapply Hdeleted; [done|]. by destruct (Hin _ _ HO) as (_ & [_ ?] & _).
  - eapply Hcreated; [done|]. by destruct (Hin _ _ HN) as (_ & [_ ?] & _).
Qed.

(** Tables that keep the earlier rows and have the rows of every change
    represent the new ledger too. *)
Lemma represents_next T0 T :
  represents_upto (seq - 1) T0 (L h) -> rows_kept T0 T ->
  (forall k, valid_key k -> Old !! k <> New !! k ->
     is_Some (table_row (uint256_bytes k) seq (t_objects T))) ->
  (forall x, changed x ->
     is_Some (table_row (uint256_bytes (pred_of New x)) seq (t_successor T)) /\
     (is_Some (New !! x) -> is_Some (table_row (uint256_bytes x) seq (t_successor T)))) ->
  represents_upto seq T (L h).
Proof.
  intros [Hobj Hsucc] [Ko Ks Ro Rs] Hrow Hlink.
  assert (forall k s, s <= seq - 1 -> latest k s (t_objects T) = latest k s (t_objects T0)) as Eo.
  { intros k s Hs. apply latest_ext. intros q Hq. apply Ko. lia. }
  assert (forall k s, s <= seq - 1 -> latest k s (t_successor T) = latest k s (t_successor T0)) as Es.
  { intros k s Hs. apply latest_ext. intros q Hq. apply Ks. lia. }
  split.
  - intros s k Hs Hk. destruct (decide (s = seq)) as [->|]; [|rewrite Eo by lia; apply Hobj; [lia | done]].
    rewrite latest_step. destruct (table_row _ seq _) as [b|] eqn:Hb; simpl; [by apply Ro|].
    rewrite Eo, Hobj by (lia || done). destruct (decide (Old !! k = New !! k)) as [->|Hne]; [done|].
    destruct (Hrow k Hk Hne) as [b' Hb']. congruence.
  - intros s k Hs Hk. destruct (decide (s = seq)) as [->|]; [|rewrite Es by lia; apply Hsucc; [lia | done]].
    assert (valid_key k) as Hvk.
    { destruct Hk as [->|[b Hb]]; [unfold valid_key, firstKey; lia | by eapply L_valid]. }
    rewrite latest_step. destruct (table_row _ seq _) as [v|] eqn:Hv.
    { left. exists seq. apply Rs in Hv as [Hv _]; [|done]. by rewrite (Hv Hk). }
    rewrite Es by lia.
    destruct (decide (next_key Old k = next_key New k)) as [He|Hne].
    + unfold succ_of. rewrite <- He. apply Hsucc; [lia|]. destruct Hk as [->|Hk]; [by left|].
      right. destruct (decide (is_Some (Old !! k))) as [|Hnk]; [done|].
      assert (changed k) as Hch by (unfold changed; tauto).
      destruct (proj2 (Hlink k Hch) Hk) as [v' Hv']. congruence.
    + destruct (next_key_changed k Hk Hne) as (x & Hx & Hp).
      destruct (proj1 (Hlink x Hx)) as [v' Hv']. rewrite Hp in Hv'. congruence.
Qed.

Lemma books_next T0 T :
  books_upto Books (seq - 1) T0 (L h) -> rows_kept T0 T -> (forall b, Books b -> valid_key b) ->
  (forall b, Books b -> first_dir Old b <> first_dir New b ->
     is_Some (table_row (uint256_bytes b) seq (t_successor T))) ->
  books_upto Books seq T (L h).
Proof.
  intros Hb [_ Ks _ Rs] Hvalid Hrow s b Hs HB.
  assert (forall k s, s <= seq - 1 -> latest k s (t_successor T) = latest k s (t_successor T0)) as Es.
  { intros k s' Hs'. apply latest_ext. intros q Hq. apply Ks. lia. }
  destruct (decide (s = seq)) as [->|]; [|rewrite Es by lia; apply Hb; [lia | done]].
  rewrite latest_step. destruct (table_row _ seq _) as [v|] eqn:Hv.
  { left. exists seq, v. split; [done|]. by apply Rs in Hv as [_ Hv]; [apply Hv | apply Hvalid]. }
  rewrite Es by lia. destruct (decide (first_dir Old b = first_dir New b)) as [He|Hne].
  - specialize (Hb (seq - 1) b ltac:(lia) HB). unfold book_entry in *. by rewrite <- He.
  - destruct (Hrow b HB Hne) as [v' Hv']. congruence.
Qed.

(** The rows of earlier ledgers are what they were. *)
Lemma kept_earlier T0 T : rows_kept T0 T ->
  (represents_upto (seq - 1) T0 (L h) -> represents_upto (seq - 1) T (L h)) /\
  (books_upto Books (seq - 1) T0 (L h) -> books_upto Books (seq - 1) T (L h)).
Proof.
  intros [Ko Ks _ _].
  assert (forall k s, s <= seq - 1 -> latest k s (t_objects T) = latest k s (t_objects T0)) as Eo.
  { intros k s Hs. apply latest_ext. intros q Hq. apply Ko. lia. }
  assert (forall k s, s <= seq - 1 -> latest k s (t_successor T) = latest k s (t_successor T0)) as Es.
  { intros k s Hs. apply latest_ext. intros q Hq. apply Ks. lia. }
  split.
  - intros [Hobj Hsucc]. split; intros s k Hs; [rewrite Eo by done | rewrite Es by done]; by auto.
  - intros Hb s b Hs. rewrite Es by done. by apply Hb.
Qed.

End next_ledger.
