(* ===== verification/ReportingETL.v ===== *)
(** * Building ledgers from extracted data

    [src/src/etl/ReportingETL.cpp]: [insertTransactions] and
    [buildNextLedger], which turn the answer of a rippled node into the writes
    of one ledger. The gRPC messages ([GetLedgerResponse] and its parts, which
    the build generates) are records of the fields this code reads. The writes
    are those of [Cassandra], the cache and the range those of its world. *)

From stdpp Require Import base list gmap strings sorting.
From Stdlib Require Import ZArith Lia.
From S2P Require Import Prelude Types SimpleCache Backend NFTHelpers Cql Cassandra.

Open Scope Z_scope.

(** ** The messages *)

Inductive ModType := UNSPECIFIED | CREATED | MODIFIED | DELETED.

#[export] Instance ModType_eq_dec : EqDecision ModType.
Proof. solve_decision. Defined.

Record RawLedgerObject := mkRawLedgerObject
  { ro_data : Blob; ro_key : Blob; ro_mod_type : ModType;
    ro_predecessor : Blob; ro_successor : Blob }.

Record BookSuccessor := mkBookSuccessor { bs_book_base : Blob; bs_first_book : Blob }.

Record RawTransaction := mkRawTransaction { rt_transaction_blob : Blob; rt_metadata_blob : Blob }.

Record GetLedgerResponse := mkGetLedgerResponse
  { ledger_header : Blob; transactions_list : list RawTransaction;
    ledger_objects : list RawLedgerObject; object_neighbors_included : bool;
    book_successors : list BookSuccessor }.

(** ReportingETL.h *)
Record FormattedTransactionsData := mkFormattedTransactionsData
  { accountTxData : list AccountTransactionsData;
    nfTokenTxData : list NFTTransactionsData;
    nfTokensData : list NFTsData }.

Section etl.
Context {D : Type} `{CS : CassSession D} `{CA : CassApi} `{NU : NftUtils}.
Context `{R : Ripple} `{SC : SerialCodec}.
Context (fuel : nat) (uninit : Z).

Abbreviation W := (Cass D).

#[local] Instance backend_impl : BackendImpl W := CassandraImpl fuel uninit.

(** ** Transactions *)

(** One round of the loop of [insertTransactions]. *)
Definition insert_transaction (ledger : LedgerInfo) (result : FormattedTransactionsData)
    (txn : RawTransaction) : M W FormattedTransactionsData :=
  sttx ← lift_res (parseSTTx (rt_transaction_blob txn));
  txMeta ← lift_res (parseTxMeta (getTransactionID sttx) (li_seq ledger) (rt_metadata_blob txn));
  '(nftTxs, maybeNFT) ← lift_res (getNFTDataFromTx txMeta sttx);
  let result := mkFormattedTransactionsData
    (accountTxData result ++ [AccountTransactionsData_make txMeta (getTransactionID sttx)])
    (nfTokenTxData result ++ nftTxs)
    (nfTokensData result ++ option_list maybeNFT) in
  writeTransaction fuel uninit (uint256_bytes (getTransactionID sttx)) (li_seq ledger)
    (li_closeTime ledger) (rt_transaction_blob txn) (rt_metadata_blob txn) ≫= fun _ =>
  mret result.

(** The comparator given to [std::sort], and what [std::unique] compares.
    [std::optional] orders an empty index before every other. *)
Definition option_gt (a b : option Z) : bool :=
  match a, b with
  | Some x, Some y => x >? y
  | Some _, None => true
  | None, _ => false
  end.
Definition nft_sort_gt (a b : NFTsData) : bool :=
  (nd_tokenID a >? nd_tokenID b) && option_gt (nd_transactionIndex a) (nd_transactionIndex b).
Definition same_token (a b : NFTsData) : bool := nd_tokenID a =? nd_tokenID b.

Definition unique_nfts (nfts : list NFTsData) : list NFTsData :=
  std_unique same_token (std_sort nft_sort_gt nfts).

Definition insertTransactions (ledger : LedgerInfo) (data : GetLedgerResponse)
  : M W FormattedTransactionsData :=
  result ← m_fold (insert_transaction ledger) (mkFormattedTransactionsData [] [] [])
             (transactions_list data);
  mret (mkFormattedTransactionsData (accountTxData result) (nfTokenTxData result)
          (unique_nfts (nfTokensData result))).

(** ** The next ledger *)

Definition or_key (s : Blob) (k : uint256) : Blob :=
  if (length s =? 0)%nat then uint256ToString k else s.

(** Successors as rippled sent them: of the books, then of the objects. *)
Definition write_book_successor (seq : Z) (obj : BookSuccessor) : M W unit :=
  writeSuccessor fuel uninit (bs_book_base obj) seq (or_key (bs_first_book obj) lastKey).

Definition write_neighbors (seq : Z) (obj : RawLedgerObject) : M W unit :=
  if negb (bool_decide (ro_mod_type obj = MODIFIED)) then
    let pred := or_key (ro_predecessor obj) firstKey in
    let succ := or_key (ro_successor obj) lastKey in
    if bool_decide (ro_mod_type obj = DELETED) then writeSuccessor fuel uninit pred seq succ
    else
      writeSuccessor fuel uninit pred seq (ro_key obj) ≫= fun _ =>
      writeSuccessor fuel uninit (ro_key obj) seq succ
  else mret tt.

Definition cache_error : Exn :=
  RuntimeError "Cache is not full, but object neighbors were not included".

(** The cache is full and at the given sequence. *)
Definition require_cache (seq : Z) : M W unit :=
  c ← gets cache_;
  if negb (isFull c) || negb (latestLedgerSequence c =? seq) then throw cache_error else mret tt.

(** [isBookDir] and the dereferenced optionals after an [assert]: undefined
    behaviour is an exception here. *)
Definition is_book_dir (key : uint256) (blob : Blob) : M W bool :=
  match isBookDir key blob with Some r => lift_res r | None => throw OutOfRange end.

(** The base whose successor has to be recalculated because of a created or
    deleted object, if any. *)
Definition changed_book (seq : Z) (key : uint256) (blob : Blob) : M W (option uint256) :=
  let isDeleted := (length blob =? 0)%nat in
  checkBookBase ←
    (if isDeleted then
       old ← cache_get key (u32 (seq - 1));
       match old with Some b => is_book_dir key b | None => throw BadOptionalAccess end
     else is_book_dir key blob);
  if (checkBookBase : bool) then
    let bookBase := getBookBase key in
    oldFirstDir ← cache_getSuccessor bookBase (u32 (seq - 1));
    match oldFirstDir with
    | None => throw BadOptionalAccess
    | Some o =>
        if (isDeleted && (key =? lo_key o)) || (negb isDeleted && (key <? lo_key o))
        then mret (Some bookBase) else mret None
    end
  else mret None.

(** What the loop over the objects collects: [cacheUpdates],
    [bookSuccessorsToCalculate], [modified]. *)
Record ObjectLoop := mkObjectLoop
  { cacheUpdates : list LedgerObject; bookSuccessors : gset Z; modified : gset Z }.

Definition write_object (seq : Z) (included : bool) (st : ObjectLoop) (obj : RawLedgerObject)
  : M W ObjectLoop :=
  match uint256_fromVoidChecked (ro_key obj) with
  | None => throw BadOptionalAccess
  | Some key =>
      let isModified := bool_decide (ro_mod_type obj = MODIFIED) in
      base ← (if negb isModified && negb included then
                require_cache (u32 (seq - 1)) ≫= fun _ => changed_book seq key (ro_data obj)
              else mret None);
      writeLedgerObject (ro_key obj) seq (ro_data obj) ≫= fun _ =>
      mret (mkObjectLoop
              (cacheUpdates st ++ [mkLedgerObject key (ro_data obj)])
              (match base with Some b => {[b]} ∪ bookSuccessors st | None => bookSuccessors st end)
              (if isModified then {[key]} ∪ modified st else modified st))
  end.

(** Successors from the updated cache: of the objects, then of the books. *)
Definition write_cached_neighbors (seq : Z) (modified : gset Z) (obj : LedgerObject) : M W unit :=
  if bool_decide (lo_key obj ∈ modified) then mret tt
  else
    lb ← gets (fun w => getPredecessor (lo_key obj) seq (cache_ w));
    let lb := match lb with Some o => lo_key o | None => firstKey end in
    ub ← cache_getSuccessor (lo_key obj) seq;
    let ub := match ub with Some o => lo_key o | None => lastKey end in
    if (length (lo_blob obj) =? 0)%nat then
      writeSuccessor fuel uninit (uint256ToString lb) seq (uint256ToString ub)
    else
      writeSuccessor fuel uninit (uint256ToString lb) seq (uint256ToString (lo_key obj)) ≫= fun _ =>
      writeSuccessor fuel uninit (uint256ToString (lo_key obj)) seq (uint256ToString ub).

Definition write_cached_book (seq : Z) (base : uint256) : M W unit :=
  succ ← cache_getSuccessor base seq;
  writeSuccessor fuel uninit (uint256ToString base) seq
    (uint256ToString (match succ with Some o => lo_key o | None => lastKey end)).

(** The elements of a [std::set], in order. *)
Definition set_list (s : gset Z) : list Z := std_sort Z.ltb (elements s).

Definition buildNextLedger (rawData : GetLedgerResponse) : M W (LedgerInfo * bool) :=
  lgrInfo ← lift_res (deserializeHeader (ledger_header rawData));
  let seq := li_seq lgrInfo in
  let included := object_neighbors_included rawData in
  startWrites ≫= fun _ =>
  writeLedger fuel uninit lgrInfo (ledger_header rawData) ≫= fun _ =>
  (if included then
     for_each (write_book_successor seq) (book_successors rawData) ≫= fun _ =>
     for_each (write_neighbors seq) (ledger_objects rawData)
   else mret tt) ≫= fun _ =>
  st ← m_fold (write_object seq included) (mkObjectLoop [] ∅ ∅) (ledger_objects rawData);
  modify (fun w => set_cache (update (cacheUpdates st) seq false (cache_ w)) w) ≫= fun _ =>
  (if negb included then
     require_cache seq ≫= fun _ =>
     for_each (write_cached_neighbors seq (modified st)) (cacheUpdates st) ≫= fun _ =>
     for_each (write_cached_book seq) (set_list (bookSuccessors st))
   else mret tt) ≫= fun _ =>
  insertTxResult ← insertTransactions lgrInfo rawData;
  writeAccountTransactions fuel uninit (accountTxData insertTxResult) ≫= fun _ =>
  writeNFTs fuel uninit (nfTokensData insertTxResult) ≫= fun _ =>
  writeNFTTransactions fuel uninit (nfTokenTxData insertTxResult) ≫= fun _ =>
  success ← finishWrites seq;
  mret (lgrInfo, success).

End etl.

(** ** Which record of a token is written *)

(** Records in transaction order: each has an index above the ones before. *)
Definition tx_order (nfts : list NFTsData) : Prop :=
  StronglySorted (fun a b => option_gt (nd_transactionIndex b) (nd_transactionIndex a) = true) nfts.

Abbreviation of_token t := (filter (fun d => nd_tokenID d = t)).

(** Descending by token. *)
Abbreviation descending := (StronglySorted (fun a b => nd_tokenID b <= nd_tokenID a)).

Lemma filter_none t l : Forall (fun d => nd_tokenID d <> t) l -> of_token t l = [].
Proof. induction 1 as [|x l Hx _ IH]; [done|]. by rewrite filter_cons_False. Qed.

Lemma nft_insert_spec x l :
  descending l -> Forall (fun y => option_gt (nd_transactionIndex x) (nd_transactionIndex y) = true) l ->
  descending (sort_insert nft_sort_gt x l) /\
  forall t, of_token t (sort_insert nft_sort_gt x l) = of_token t (l ++ [x]).
Proof.
  induction l as [|y l IH]; intros Hs Hi; cbn [sort_insert app].
  { split; [by repeat constructor | done]. }
  apply StronglySorted_inv in Hs as [Hs Hy]. apply Forall_cons in Hi as [Hxy Hi].
  unfold nft_sort_gt at 1 3. rewrite Hxy, andb_true_r.
  destruct (nd_tokenID x >? nd_tokenID y) eqn:Hgt; zbool.
  - split.
    + constructor; [by constructor|]. constructor; [lia|].
      eapply Forall_impl; [exact Hy|]. simpl. intros; lia.
    + intros t. rewrite (app_comm_cons l [x] y), filter_app.
      destruct (decide (nd_tokenID x = t)) as [Ht|Ht].
      * rewrite !(filter_cons_True _ x) by done.
        rewrite (filter_none _ (y :: l)); [done|]. constructor; [lia|].
        eapply Forall_impl; [exact Hy|]. simpl. intros; lia.
      * rewrite !(filter_cons_False _ x), app_nil_r by done. done.
  - destruct (IH Hs Hi) as [H1 H2]. split.
    + constructor; [done|]. apply Forall_forall. intros z Hz.
      rewrite sort_insert_perm in Hz. apply elem_of_cons in Hz as [->|Hz]; [lia|].
      rewrite Forall_forall in Hy. by apply Hy.
    + intros t. rewrite !filter_cons, H2. by case_decide.
Qed.

Lemma nft_sort_acc acc l :
  descending acc -> tx_order l ->
  (forall x y, x ∈ l -> y ∈ acc -> option_gt (nd_transactionIndex x) (nd_transactionIndex y) = true) ->
  let r := foldl (fun acc x => sort_insert nft_sort_gt x acc) acc l in
  descending r /\ forall t, of_token t r = of_token t (acc ++ l).
Proof.
  revert acc. induction l as [|x l IH]; intros acc Hacc Hl Hgt; cbn [foldl].
  { by rewrite app_nil_r. }
  apply StronglySorted_inv in Hl as [Hl Hx]. rewrite Forall_forall in Hx.
  destruct (nft_insert_spec x acc Hacc) as [H1 H2].
  { apply Forall_forall. intros y Hy. apply Hgt; [by left | done]. }
  destruct (IH _ H1 Hl) as [H3 H4].
  - intros z y Hz Hy. rewrite sort_insert_perm in Hy. apply elem_of_cons in Hy as [->|Hy]; [by apply Hx|].
    apply Hgt; [by right | done].
  - split; [exact H3|]. intros t. rewrite H4, filter_app, H2, <- filter_app, <- app_assoc. done.
Qed.

Lemma unique_first x l : descending (x :: l) ->
  forall t, of_token t (unique_from same_token x l) = take 1 (of_token t (x :: l)).
Proof.
  revert x. induction l as [|y l IH]; intros x Hs t; cbn [unique_from].
  { rewrite !filter_cons. by case_decide. }
  apply StronglySorted_inv in Hs as [Hs Hx]. apply Forall_cons in Hx as [Hxy Hx].
  unfold same_token at 1. destruct (nd_tokenID x =? nd_tokenID y) eqn:He; zbool.
  - assert (descending (x :: l)) as Hs'.
    { apply StronglySorted_inv in Hs as [Hs _]. by constructor. }
    rewrite (IH x Hs' t), !filter_cons, <- He. by case_decide.
  - rewrite filter_cons, (IH y Hs t). rewrite (filter_cons _ x). destruct (decide (nd_tokenID x = t)); [|done].
    rewrite (filter_none t (y :: l)); [done|]. constructor; [lia|].
    apply StronglySorted_inv in Hs as [_ Hy]. eapply Forall_impl; [exact Hy|]. simpl. intros; lia.
Qed.

(** Of the records one ledger's transactions make of a token,
    [insertTransactions] writes the one of the first transaction: sorting with
    a comparator that wants both a greater token and a greater index leaves the
    records of a token in transaction order, and [std::unique] keeps the first.
    The comment in the source wants the last. (The sort is the insertion sort
    that [std::sort] is on short ranges; the comparator is not an ordering.) *)
Theorem unique_nfts_first (nfts : list NFTsData) (t : uint256) :
  tx_order nfts -> of_token t (unique_nfts nfts) = take 1 (of_token t nfts).
Proof.
  intros Ho. unfold unique_nfts, std_sort.
  destruct (nft_sort_acc [] nfts) as [Hd Hf]; [constructor | done | by intros x y _ ?%not_elem_of_nil |].
  specialize (Hf t). cbn [app] in Hf. rewrite <- Hf. unfold std_unique.
  destruct (foldl _ [] nfts) as [|x l]; [done|]. by apply unique_first.
Qed.

(** A token minted and burned in one ledger: the burn is lost. *)
Definition minted_and_burned : list NFTsData :=
  [mkNFTsData 5 90 (Some 3) 1 (Some [7]) false; mkNFTsData 9 90 (Some 4) 1 None false;
   mkNFTsData 5 90 (Some 6) 1 None true].

Lemma unique_nfts_first_witness :
  tx_order minted_and_burned /\
  of_token 5 (unique_nfts minted_and_burned) = [mkNFTsData 5 90 (Some 3) 1 (Some [7]) false].
Proof.
  assert (tx_order minted_and_burned) as Ho by (repeat constructor).
  split; [exact Ho|]. exact (unique_nfts_first minted_and_burned 5 Ho).
Defined.
