(* ===== verification/ETLSource.v ===== *)
(** * The sources of the extraction

    [src/src/etl/ETLSource.cpp]: the download of a whole ledger from a rippled
    node ([AsyncCallData], [loadInitialLedger]), [fetchLedger], and the balancer
    that tries the sources in turn. Also the part of
    [src/src/etl/ReportingETL.cpp] that fetches ledgers and loads the first.

    The nodes are a class: what they answer, which ledgers they announce, how
    many records they put on a page, in which order and with what status the
    calls of a download complete. [hasLedger] and everything downstream is code. *)

From stdpp Require Import base list gmap strings.
From Stdlib Require Import ZArith Lia.
From S2P Require Import Prelude Types SimpleCache Backend NFTHelpers Cql Cassandra ETLHelpers ReportingETL.

Open Scope Z_scope.

(** ** The nodes *)

(** The messages of the gRPC interface this code reads. *)
Record GetLedgerDataResponse := mkGetLedgerDataResponse
  { gd_marker : Blob; gd_objects : list (Blob * Blob) }.

(** What the completion queue hands over: one of the calls under way (its
    position among them), whether the operation was carried out, whether the
    status is OK, and the page size the node chose. *)
Record Completion := mkCompletion
  { cp_pick : nat; cp_ok : bool; cp_status : bool; cp_size : nat }.

Class RippledNodes (Src : Type) := {
  (** whether a gRPC stub could be made *)
  stub_ : Src -> bool;
  (** the ranges announced before an attempt *)
  validatedLedgers_ : nat -> Src -> list (Z * Z);
  GetLedgerData : Src -> Z -> Blob -> nat -> GetLedgerDataResponse;
  (** status, [validated] and the message, at an attempt *)
  GetLedger : nat -> Src -> Z -> bool -> bool -> bool * bool * GetLedgerResponse;
  completions : nat -> Src -> list Completion
}.

(** [validatedLedgers_] is sorted by the first sequence. *)
Fixpoint hasLedger (ranges : list (Z * Z)) (sequence : Z) : bool :=
  match ranges with
  | [] => false
  | (first, last) :: rest =>
      if (first <=? sequence) && (sequence <=? last) then true
      else if sequence <? first then false
      else hasLedger rest sequence
  end.

(** ** AsyncCallData *)

Record AsyncCallData := mkAsyncCallData
  { cur_ : GetLedgerDataResponse; next_ : GetLedgerDataResponse;
    request_marker : Blob; status_ok : bool; nextPrefix_ : Z; lastKey_ : Blob }.

Inductive CallStatus := MORE | DONE | ERRORED.

#[export] Instance CallStatus_eq_dec : EqDecision CallStatus.
Proof. solve_decision. Defined.

Definition no_data : GetLedgerDataResponse := mkGetLedgerDataResponse [] [].

Definition AsyncCallData_make (marker : uint256) (nextMarker : option uint256) : AsyncCallData :=
  mkAsyncCallData no_data no_data
    (if marker =? 0 then [] else uint256_bytes marker) true
    (match nextMarker with Some m => uint256_byte m 0 | None => 0 end) [].

(** [s[0]] of a [std::string]: the terminating zero of an empty one. *)
Definition first_char (s : Blob) : Z := default 0 (head s).

Section source.
Context {D : Type} `{CS : CassSession D} `{CA : CassApi} `{NU : NftUtils}.
Context `{R : Ripple} `{SC : SerialCodec}.
Context (fuel : nat) (uninit : Z).

Abbreviation W := (Cass D).

#[local] Instance backend_impl : BackendImpl W := CassandraImpl fuel uninit.

(** One object of a page: [lastKey_] and [cacheUpdates]. *)
Definition process_object (sequence : Z) (more cacheOnly : bool) (nextPrefix : Z)
    (st : Blob * list LedgerObject) (obj : Blob * Blob) : M W (Blob * list LedgerObject) :=
  let '(lastKey, cacheUpdates) := st in
  let '(key, data) := obj in
  if negb more && negb (nextPrefix =? 0) && (nextPrefix <=? first_char key) then mret st
  else
    match uint256_fromVoidChecked key with
    | None => throw BadOptionalAccess
    | Some k =>
        let cacheUpdates := cacheUpdates ++ [mkLedgerObject k data] in
        if cacheOnly then mret (lastKey, cacheUpdates)
        else
          (if negb (length lastKey =? 0)%nat then writeSuccessor fuel uninit lastKey sequence key
           else mret tt) ≫= fun _ =>
          nfts ← lift_res (getNFTDataFromObj sequence (uint256_fromVoid key) data);
          writeNFTs fuel uninit nfts ≫= fun _ =>
          writeLedgerObject key sequence data ≫= fun _ =>
          mret (key, cacheUpdates)
    end.

(** Whether the call goes on after the page [cur]. *)
Definition has_more (nextPrefix : Z) (cur : GetLedgerDataResponse) : bool :=
  negb (length (gd_marker cur) =? 0)%nat &&
  negb (negb (nextPrefix =? 0) && (nextPrefix <=? first_char (gd_marker cur))).

(** [process]; the request of the next page is under way when it answers
    [MORE]. *)
Definition process (sequence : Z) (call : AsyncCallData) (abort cacheOnly : bool)
  : M W (CallStatus * AsyncCallData) :=
  if abort then mret (ERRORED, call)
  else if negb (status_ok call) then mret (ERRORED, call)
  else
    let cur := next_ call in
    let more := has_more (nextPrefix_ call) cur in
    '(lastKey, cacheUpdates) ← m_fold (process_object sequence more cacheOnly (nextPrefix_ call))
      (lastKey_ call, []) (gd_objects cur);
    modify (fun w => set_cache (update cacheUpdates sequence cacheOnly (cache_ w)) w) ≫= fun _ =>
    mret (if more then MORE else DONE,
          mkAsyncCallData cur (cur_ call) (if more then gd_marker cur else request_marker call)
            (status_ok call) (nextPrefix_ call) lastKey).

(** ** The download *)

Section nodes.
Context {Src : Type} `{RN : RippledNodes Src}.

(** The calls, those under way, and the variables of [loadInitialLedger]. *)
Record Download := mkDownload
  { calls : list AsyncCallData; under_way : list nat; numFinished : nat;
    dl_abort : bool; edgeKeys : list Blob }.

(** The answer arrives in the call's [next_] and [status_]. *)
Definition receive (src : Src) (sequence : Z) (e : Completion) (call : AsyncCallData) : AsyncCallData :=
  mkAsyncCallData (cur_ call)
    (if cp_status e then GetLedgerData src sequence (request_marker call) (cp_size e) else next_ call)
    (request_marker call) (cp_status e) (nextPrefix_ call) (lastKey_ call).

(** The loop's variables after call [i], at [p] among those under way, was
    processed. *)
Definition after_process (dl : Download) (p i : nat) (result : CallStatus) (call : AsyncCallData) : Download :=
  let more := bool_decide (result = MORE) in
  mkDownload (<[i := call]> (calls dl))
    (if more then under_way dl else delete p (under_way dl))
    (if more then numFinished dl else S (numFinished dl))
    (dl_abort dl || bool_decide (result = ERRORED))
    (if negb more && negb (length (lastKey_ call) =? 0)%nat
     then edgeKeys dl ++ [lastKey_ call] else edgeKeys dl).

(** The loop over the completions. It returns early, with [None], when an
    operation was not carried out; with no completion left it would wait. *)
Fixpoint download_loop (src : Src) (sequence : Z) (cacheOnly : bool) (events : list Completion)
    (dl : Download) : M W (option Download) :=
  if (numFinished dl <? length (calls dl))%nat then
    match events with
    | [] => no_fuel
    | e :: events' =>
        let p := (cp_pick e mod length (under_way dl))%nat in
        match under_way dl !! p with
        | None => no_fuel
        | Some i =>
            match calls dl !! i with
            | None => no_fuel
            | Some call =>
                if negb (cp_ok e) then mret None
                else
                  '(result, call) ← process sequence (receive src sequence e call) (dl_abort dl) cacheOnly;
                  download_loop src sequence cacheOnly events' (after_process dl p i result call)
            end
        end
    end
  else mret (Some dl).

(** The successor of the last key of each call. *)
Definition write_edge (sequence : Z) (key : Blob) : M W unit :=
  match uint256_fromVoidChecked key with
  | None => throw BadOptionalAccess
  | Some k =>
      succ ← cache_getSuccessor k sequence;
      match succ with
      | Some o => writeSuccessor fuel uninit key sequence (uint256ToString (lo_key o))
      | None => mret tt
      end
  end.

(** The successor of a book's base, at a directory of the book. The source tests
    [cache().get(cur->key, sequence)] where the comment means the base. *)
Definition write_first_dir (sequence : Z) (cur : LedgerObject) : M W unit :=
  dir ← is_book_dir (lo_key cur) (lo_blob cur);
  if (dir : bool) then
    let base := getBookBase (lo_key cur) in
    obj ← cache_get (lo_key cur) sequence;
    match obj with
    | Some _ => mret tt
    | None =>
        succ ← cache_getSuccessor base sequence;
        match succ with
        | None => throw BadOptionalAccess
        | Some s =>
            if lo_key s =? lo_key cur
            then writeSuccessor fuel uninit (uint256ToString base) sequence (uint256ToString (lo_key cur))
            else mret tt
        end
    end
  else mret tt.

(** The walk over the cache; it returns the last key. *)
Fixpoint cache_walk (n : nat) (sequence : Z) (prev : uint256) : M W uint256 :=
  match n with
  | O => no_fuel
  | S n' =>
      cur ← cache_getSuccessor prev sequence;
      match cur with
      | None => mret prev
      | Some cur =>
          (if prev =? firstKey then
             writeSuccessor fuel uninit (uint256ToString prev) sequence (uint256ToString (lo_key cur))
           else mret tt) ≫= fun _ =>
          write_first_dir sequence cur ≫= fun _ =>
          cache_walk n' sequence (lo_key cur)
      end
  end.

(** The writes after a complete download. The walk visits every entry of the
    cache at most once. *)
Definition write_edges (sequence : Z) (edges : list Blob) : M W unit :=
  for_each (write_edge sequence) edges ≫= fun _ =>
  n ← gets (fun w => cache_size (cache_ w));
  prev ← cache_walk (S n) sequence firstKey;
  writeSuccessor fuel uninit (uint256ToString prev) sequence (uint256ToString lastKey).

Fixpoint make_calls (markers : list uint256) : list AsyncCallData :=
  match markers with
  | [] => []
  | m :: rest => AsyncCallData_make m (head rest) :: make_calls rest
  end.

Definition source_loadInitialLedger (attempt : nat) (src : Src) (sequence : Z) (numMarkers : nat)
    (cacheOnly : bool) : M W bool :=
  if negb (stub_ src) then mret false
  else
    match getMarkers numMarkers with
    | None => throw DivisionByZero
    | Some markers =>
        let cs := make_calls markers in
        dl ← download_loop src sequence cacheOnly (completions attempt src)
               (mkDownload cs (seq 0 (length cs)) 0 false []);
        match dl with
        | None => mret false
        | Some dl =>
            (if negb (dl_abort dl) then
               modify (fun w => set_cache (setFull (cache_ w)) w) ≫= fun _ =>
               if negb cacheOnly then write_edges sequence (edgeKeys dl) else mret tt
             else mret tt) ≫= fun _ =>
            mret (negb (dl_abort dl))
        end
    end.

(** ** The balancer *)

Context (sources_ : list Src) (first_source : nat).

(** [execute]: the sources in turn, from a random one, until the function is
    true ([Some], with what it leaves in the variables it captures). It sleeps
    after each round, which takes no step here. *)
Fixpoint balancer_execute_loop {A} (n : nat) (f : nat -> Src -> M W (option A)) (ledgerSequence : Z)
    (sourceIdx numAttempts : nat) : M W A :=
  match n with
  | O => no_fuel
  | S n' =>
      match sources_ !! sourceIdx with
      | None => throw OutOfRange
      | Some source =>
          res ← (if hasLedger (validatedLedgers_ numAttempts source) ledgerSequence
                 then f numAttempts source else mret None);
          match res with
          | Some a => mret a
          | None => balancer_execute_loop n' f ledgerSequence ((sourceIdx + 1) mod length sources_) (S numAttempts)
          end
      end
  end.

Definition balancer_execute {A} (n : nat) (f : nat -> Src -> M W (option A)) (ledgerSequence : Z) : M W A :=
  if (length sources_ =? 0)%nat then throw DivisionByZero
  else balancer_execute_loop n f ledgerSequence (first_source mod length sources_) 0.

(** [downloadRanges_] as the constructor sets it: [num_markers] of the
    configuration, or 4 with a database, or the initial value. *)
Definition downloadRanges (num_markers : option Z) (range : option LedgerRange) : nat :=
  match num_markers with
  | Some v => Z.to_nat (Z.min (Z.max v 1) 256)
  | None => match range with Some _ => 4 | None => 16 end
  end.

Definition balancer_loadInitialLedger (n ranges : nat) (sequence : Z) (cacheOnly : bool) : M W unit :=
  balancer_execute n (fun attempt source =>
    res ← source_loadInitialLedger attempt source sequence ranges cacheOnly;
    mret (if (res : bool) then Some tt else None)) sequence.

(** [ETLSourceImpl::fetchLedger], and the balancer's. *)
Definition source_fetchLedger (attempt : nat) (src : Src) (sequence : Z) (getObjects getObjectNeighbors : bool)
  : bool * bool * GetLedgerResponse :=
  if negb (stub_ src) then (false, false, mkGetLedgerResponse [] [] [] false [])
  else GetLedger attempt src sequence getObjects getObjectNeighbors.

Definition balancer_fetchLedger (n : nat) (ledgerSequence : Z) (getObjects getObjectNeighbors : bool)
  : M W (option GetLedgerResponse) :=
  response ← balancer_execute n (fun attempt source =>
    let '(status, validated, data) :=
      source_fetchLedger attempt source ledgerSequence getObjects getObjectNeighbors in
    mret (if status && validated then Some data else None)) ledgerSequence;
  mret (Some response).

(** ** ReportingETL *)

Definition fetchLedgerData (n : nat) (seq : Z) : M W (option GetLedgerResponse) :=
  balancer_fetchLedger n seq false false.

Definition fetchLedgerDataAndDiff (n : nat) (seq : Z) : M W (option GetLedgerResponse) :=
  c ← gets cache_;
  balancer_fetchLedger n seq true (negb (isFull c) || (seq <=? latestLedgerSequence c)).

(** [stopping] is what [stopping_] says after the download. *)
Definition loadInitialLedger (n ranges : nat) (stopping : bool) (startingSequence : Z)
  : M W (option LedgerInfo) :=
  rng ← hardFetchLedgerRangeNoThrow fuel;
  match rng with
  | Some _ => mret None
  | None =>
      ledgerData ← fetchLedgerData n startingSequence;
      match ledgerData with
      | None => mret None
      | Some data =>
          lgrInfo ← lift_res (deserializeHeader (ledger_header data));
          startWrites ≫= fun _ =>
          writeLedger fuel uninit lgrInfo (ledger_header data) ≫= fun _ =>
          insertTxResult ← insertTransactions fuel uninit lgrInfo data;
          balancer_loadInitialLedger n ranges startingSequence false ≫= fun _ =>
          (if negb stopping then
             writeAccountTransactions fuel uninit (accountTxData insertTxResult) ≫= fun _ =>
             writeNFTs fuel uninit (nfTokensData insertTxResult) ≫= fun _ =>
             writeNFTTransactions fuel uninit (nfTokenTxData insertTxResult)
           else mret tt) ≫= fun _ =>
          finishWrites startingSequence ≫= fun _ =>
          mret (Some lgrInfo)
      end
  end.

End nodes.
End source.
