(* ===== verification/LedgerWrites.v ===== *)
(** * The writes of one ledger

    What building a ledger and loading the first one have in common: which
    statements may be issued for a ledger and what they leave in the tables, the
    phases of a program that issues them, the writes of header, transactions,
    objects and successors, and the commit. *)

From stdpp Require Import base list gmap strings sorting.
From Stdlib Require Import ZArith Lia.
From S2P Require Import Prelude Types SimpleCache Backend NFTHelpers Cql Cassandra Tables.
From S2P Require Import CassandraSpec CassandraCommit LedgerRows ReportingETL.

Open Scope Z_scope.

#[local] Arguments table_row : simpl never.
#[local] Arguments put : simpl never.

(** ** The statements *)

Section contract.
Context `{R : Ripple} `{SC : SerialCodec}.
Context (h : history) (Books : Z -> Prop) (data : GetLedgerResponse) (info : LedgerInfo).

Abbreviation seq := (li_seq info).
Abbreviation New := (L h seq).

(** The row of a transaction of the response. *)
Definition tx_row_of (id : Blob) (row : Z * Z * Blob * Blob) : Prop :=
  exists txn sttx, txn ∈ transactions_list data /\ parseSTTx (rt_transaction_blob txn) = Ok sttx /\
    id = uint256_bytes (getTransactionID sttx) /\
    row = (seq, li_closeTime info, rt_transaction_blob txn, rt_metadata_blob txn).

(** The transactions of the response parse. *)
Definition txs_parse : Prop :=
  forall txn, txn ∈ transactions_list data -> exists sttx meta r,
    parseSTTx (rt_transaction_blob txn) = Ok sttx /\
    parseTxMeta (getTransactionID sttx) seq (rt_metadata_blob txn) = Ok meta /\
    getNFTDataFromTx meta sttx = Ok r.

(** A statement the program may issue for this ledger. *)
Definition stmt_ok (s : CassandraStatement) : Prop :=
  (modelled s = true /\ range_stmt s = false) /\
  match statement_ s, bound s with
  | Some insertObject_, [CBytes k; CInt64 q; CBytes b] =>
      q = seq /\ exists key, valid_key key /\ k = uint256_bytes key /\ b = default [] (New !! key)
  | Some insertSuccessor_, [CBytes k; CInt64 q; CBytes v] =>
      q = seq /\ exists key, valid_key key /\ k = uint256_bytes key /\ right_succ h seq Books key v
  | Some insertLedgerHeader_, [CInt64 q; CBytes hd] => q = seq /\ hd = ledger_header data
  | Some insertTransaction_, [CBytes id; CInt64 q; CInt64 d; CBytes tx; CBytes m] =>
      tx_row_of id (q, d, tx, m)
  | _, _ => True
  end.

(** What an acknowledged statement leaves in the tables. *)
Definition stmt_effect (s : CassandraStatement) (t : Tables) : Prop :=
  match statement_ s, bound s with
  | Some insertObject_, [CBytes k; CInt64 q; CBytes b] => is_Some (table_row k q (t_objects t))
  | Some insertSuccessor_, [CBytes k; CInt64 q; CBytes v] => is_Some (table_row k q (t_successor t))
  | Some insertDiff_, [CInt64 q; CBytes k] => k ∈ default ∅ (t_diff t !! q)
  | Some insertLedgerHeader_, [CInt64 q; CBytes hd] => t_ledgers t !! q = Some hd
  | Some insertLedgerTransaction_, [CInt64 q; CBytes id] =>
      id ∈ default ∅ (t_ledger_transactions t !! q)
  | Some insertTransaction_, [CBytes id; CInt64 q; CInt64 d; CBytes tx; CBytes m] =>
      t_transactions t !! id = Some (q, d, tx, m)
  | _, _ => True
  end.

(** The tables only gain rows. *)
Record grows (t t' : Tables) : Prop := {
  gr_objects : forall k q, is_Some (table_row k q (t_objects t)) -> is_Some (table_row k q (t_objects t'));
  gr_successor : forall k q,
    is_Some (table_row k q (t_successor t)) -> is_Some (table_row k q (t_successor t'));
  gr_diff : forall q k, k ∈ default ∅ (t_diff t !! q) -> k ∈ default ∅ (t_diff t' !! q);
  gr_ledgers : t_ledgers t !! seq = Some (ledger_header data) ->
    t_ledgers t' !! seq = Some (ledger_header data);
  gr_ledger_tx : forall q k,
    k ∈ default ∅ (t_ledger_transactions t !! q) -> k ∈ default ∅ (t_ledger_transactions t' !! q);
  gr_tx : forall id r, tx_row_of id r -> t_transactions t !! id = Some r ->
    t_transactions t' !! id = Some r
}.

Lemma put_grows {V} (k k' : Blob) (q q' : Z) (v : V) t :
  is_Some (table_row k q t) -> is_Some (table_row k q (put k' q' v t)).
Proof. intros Hs. rewrite table_row_put. by case_decide. Qed.

Lemma default_union_grows {K} `{Countable K} (s : Z) (x : K) (q : Z) (t : gmap Z (gset K)) k :
  k ∈ default ∅ (t !! q) -> k ∈ default ∅ (<[s := {[x]} ∪ default ∅ (t !! s)]> t !! q).
Proof.
  intros Hk. destruct (decide (s = q)) as [->|]; [|by rewrite lookup_insert_ne].
  rewrite lookup_insert_eq. simpl. set_solver.
Qed.

#[local] Hint Resolve put_grows default_union_grows : core.

(** Case analysis over the statements of the model. *)
Ltac statement_cases Hok :=
  match type of Hok with stmt_ok ?s =>
    let p := fresh "p" in let vs := fresh "vs" in
    let Hty := fresh "Hty" in let Hr := fresh "Hr" in
    destruct s as [[p|] vs]; [|by destruct Hok as [[? _] _]];
    destruct Hok as [[[Hty%bool_decide_eq_true _]%andb_true_iff Hr%bool_decide_eq_false] Hok];
    cbn [statement_ bound] in *;
    destruct p; try (exfalso; apply Hr; by auto); cbn [param_types] in Hty; type_inv Hty vs; clear Hty Hr
  end.

Lemma stmt_grows s flip t t' rows :
  (forall id r1 r2, tx_row_of id r1 -> tx_row_of id r2 -> r1 = r2) ->
  stmt_ok s -> cql flip t s = Some (t', rows) -> grows t t'.
Proof.
  intros Hids Hok Hc. statement_cases Hok; cbn in Hc;
    injection Hc as <- _; split; simpl; auto.
  - intros id r Hr Ht. destruct (decide (b = id)) as [->|]; [|by rewrite lookup_insert_ne].
    rewrite lookup_insert_eq. f_equal. by eapply Hids.
  - destruct Hok as [-> ->]. intros _. by rewrite lookup_insert_eq.
Qed.

Lemma stmt_effect_keep s t t' : stmt_ok s -> grows t t' -> stmt_effect s t -> stmt_effect s t'.
Proof.
  intros Hok [G1 G2 G3 G4 G5 G6]. unfold stmt_effect.
  statement_cases Hok; cbn [statement_ bound]; auto.
  destruct Hok as [-> ->]. auto.
Qed.

Lemma stmt_effect_est s flip t t' rows :
  stmt_ok s -> cql flip t s = Some (t', rows) -> stmt_effect s t'.
Proof.
  intros Hok Hc. unfold stmt_effect. statement_cases Hok; cbn in Hc; injection Hc as <- _;
    cbn [statement_ bound]; simpl; rewrite ?table_row_put, ?decide_True, ?lookup_insert_eq by done;
    simpl; try done; set_solver.
Qed.

(** What the statements keep. *)
Definition kept (T0 t : Tables) : Prop :=
  rows_kept h seq Books T0 t /\ t_ledger_range t = t_ledger_range T0.

Lemma stmt_keeps T0 s flip t t' rows :
  stmt_ok s -> cql flip t s = Some (t', rows) -> kept T0 t -> kept T0 t'.
Proof.
  intros Hok Hc [[K1 K2 K3 K4] Hr]. split.
  2:{ rewrite <- Hr. destruct Hok as [[Hm Hn] _]. by eapply cql_keeps_range. }
  statement_cases Hok; cbn in Hc; injection Hc as <- _; split; simpl; auto.
  - destruct Hok as (-> & _). intros k q Hq. rewrite table_row_put, decide_False by naive_solver. auto.
  - destruct Hok as (-> & key & Hkey & -> & ->). intros k b1 Hk. rewrite table_row_put.
    case_decide as Hd; [|by apply K3]. destruct Hd as [Hd%uint256_bytes_inj _]; [|done..].
    intros [= <-]. by subst.
  - destruct Hok as (-> & _). intros k q Hq. rewrite table_row_put, decide_False by naive_solver. auto.
  - destruct Hok as (-> & key & Hkey & -> & Hv). intros k b1 Hk. rewrite table_row_put.
    case_decide as Hd; [|by apply K4]. destruct Hd as [Hd%uint256_bytes_inj _]; [|done..].
    intros [= <-]. by subst.
Qed.

End contract.

(** ** The phases of the program *)

(** What the lemmas on the writes need: [Clean] is what keeps the program from
    stopping at input it cannot parse. *)
Class LedgerSetting {D} {CS : CassSession D} {tables : D -> Tables} {patience : D -> nat}
    {R : Ripple} {SC : SerialCodec} {NU : NftUtils} (fuel : nat) (h : history) (Books : Z -> Prop)
    (data : GetLedgerResponse) (info : LedgerInfo) (w0 : Cass D) (Clean : Prop) : Prop := {
  ls_ids : forall id r1 r2, tx_row_of data info id r1 -> tx_row_of data info id r2 -> r1 = r2;
  ls_idle : idle w0;
  ls_patience : (patience (db w0) < fuel)%nat;
  ls_first : L h (li_seq info) !! firstKey = None;
  ls_kept : kept h Books info (tables (db w0)) (tables (db w0));
  ls_txs : Clean -> txs_parse data info
}.

Section writes.
Context {D : Type} `{CS : CassSession D} {tables : D -> Tables} {patience : D -> nat}
  {acked : D -> list CassandraStatement} `{SL : !SessionLaws tables patience acked}.
Context `{CA : CassApi} `{CL : !CassApiLaws} `{NU : NftUtils} `{R : Ripple} `{RT : !RippleTotal}
  `{SC : SerialCodec}.
Context {fuel : nat} {uninit : Z} {h : history} {Books : Z -> Prop}.
Context {data : GetLedgerResponse} {info : LedgerInfo} {w0 : Cass D} {Clean : Prop}.
Context `{LS : !LedgerSetting (tables := tables) (patience := patience) fuel h Books data info w0 Clean}.

Abbreviation seq := (li_seq info).
Abbreviation New := (L h seq).
Abbreviation T0 := (tables (db w0)).

(** Writes under way on the world [w0] with another cache and current ledger. *)
Abbreviation under_way c ls issued :=
  (writing (tables := tables) (patience := patience) (acked := acked) (patience (db w0))
     (stmt_ok h Books data info) stmt_effect (kept h Books info T0)
     (set_ledgerSequence ls (set_c_cache c w0)) (acked (db w0)) issued).

(** The cache satisfies [C] and at least the statements [Done] are issued. *)
Definition phase (C : SimpleCache -> Prop) (ls : Z) (Done : CassandraStatement -> Prop) (w : Cass D)
  : Prop :=
  exists c issued, C c /\ (forall s, Done s -> s ∈ issued) /\ under_way c ls issued w.

(** The state after an exception that a clean response does not cause. *)
Definition broken (e : Exn) (w : Cass D) : Prop :=
  kept h Books info T0 (tables (db w)) /\ ~ Clean.

Lemma phase_kept C ls P w : phase C ls P w -> kept h Books info T0 (tables (db w)).
Proof. intros (c & issued & _ & _ & d & l & new & -> & _ & _ & _ & _ & HI & _). exact HI. Qed.

Lemma phase_start c :
  c = c_cache w0 -> phase (fun c' => c' = c) (ledgerSequence_ w0) (fun _ => False) w0.
Proof.
  intros ->. exists (c_cache w0), []. split; [done|]. split; [done|].
  replace (set_ledgerSequence _ _) with w0 by (by destruct w0).
  pose proof ls_idle. pose proof ls_patience. pose proof ls_kept.
  by apply (writing_start fuel (patience (db w0)) ltac:(lia)).
Qed.

Lemma phase_weaken C C' ls (P P' : CassandraStatement -> Prop) w :
  (forall c, C c -> C' c) -> (forall s, P' s -> P s) -> phase C ls P w -> phase C' ls P' w.
Proof. intros HC HP (c & issued & H1 & H2 & H3). exists c, issued. split_and!; auto. Qed.

(** A computation that issues at least the statements [S]. *)
Definition adds (C : SimpleCache -> Prop) (ls : Z) {A} (m : M (Cass D) A)
    (S : A -> CassandraStatement -> Prop) : Prop :=
  forall P, triple (phase C ls P) m (fun a => phase C ls (fun s => P s \/ S a s)) broken.

Lemma adds_ret C ls {A} (a : A) : adds C ls (mret a) (fun _ _ => False).
Proof. intros P. apply triple_ret. intros w. apply phase_weaken; [done | tauto]. Qed.

Lemma adds_bind C ls {A B} (m : M (Cass D) A) (f : A -> M (Cass D) B) S1 S2 S :
  adds C ls m S1 -> (forall a, adds C ls (f a) (S2 a)) ->
  (forall a b s, S b s -> S1 a s \/ S2 a b s) -> adds C ls (m ≫= f) S.
Proof.
  intros Hm Hf HS P. eapply triple_bind; [apply Hm|]. intros a.
  eapply triple_conseq; [apply Hf | done | | done].
  intros b w. apply phase_weaken; [done|]. intros s [H|H]; [tauto|].
  destruct (HS a b s H); tauto.
Qed.

Lemma adds_seq C ls {B} (m : M (Cass D) unit) (f : M (Cass D) B) S1 S2 :
  adds C ls m (fun _ => S1) -> adds C ls f S2 ->
  adds C ls (m ≫= fun _ => f) (fun b s => S1 s \/ S2 b s).
Proof. intros Hm Hf. eapply adds_bind; [exact Hm | intros; exact Hf | tauto]. Qed.

Lemma adds_weaken C ls {A} (m : M (Cass D) A) (S S' : A -> CassandraStatement -> Prop) :
  adds C ls m S -> (forall a s, S' a s -> S a s) -> adds C ls m S'.
Proof.
  intros Hm HS P. eapply triple_conseq; [apply Hm | done | | done].
  intros a w. apply phase_weaken; [done|]. intros s [?|?]; auto.
Qed.

Lemma adds_for_each C ls {A} (f : A -> M (Cass D) unit) (S : A -> CassandraStatement -> Prop) l :
  (forall x, x ∈ l -> adds C ls (f x) (fun _ => S x)) ->
  adds C ls (for_each f l) (fun _ s => exists x, x ∈ l /\ S x s).
Proof.
  induction l as [|x l IH]; intros Hf; simpl.
  - eapply adds_weaken; [apply adds_ret|]. intros _ s (x & Hx%not_elem_of_nil & _). done.
  - eapply adds_weaken; [eapply adds_seq; [apply Hf; by left | apply IH; intros; apply Hf; by right]|].
    intros _ s (y & [->|Hy]%elem_of_cons & Hs); eauto.
Qed.

(** One write. *)
Lemma adds_write C ls bind s :
  bind = Ok s -> stmt_ok h Books data info s ->
  adds C ls (makeAndExecuteAsyncWrite fuel uninit bind) (fun _ x => x = s).
Proof.
  intros Hbind Hok P w (c & issued & HC & HP & Hw).
  pose proof (write_spec (SL := SL) fuel (patience (db w0)) ltac:(pose proof ls_patience; lia) uninit (stmt_ok h Books data info)
    stmt_effect (fun s Hs => proj1 (proj1 Hs)) (stmt_effect_est h Books data info)
    (fun s s' flip t t' rows Hs Hs' Hc He => stmt_effect_keep h Books data info s t t' Hs
       (stmt_grows h Books data info s' flip t t' rows ls_ids Hs' Hc) He)
    (kept h Books info T0) (stmt_keeps h Books data info T0) _ _ issued bind s Hbind Hok w Hw) as Ht.
  destruct (makeAndExecuteAsyncWrite fuel uninit bind w) as [[[]|e|] w']; [|done..].
  exists c, (issued ++ [s]). split_and!; [done | | exact Ht].
  intros x [Hx%HP| ->]; apply elem_of_app; [by left | right; by apply list_elem_of_singleton].
Qed.

(** A list of statements. *)
Lemma adds_writes C ls {A} (f : A -> CassandraStatement) (bind : A -> Res CassandraStatement) l :
  (forall x, x ∈ l -> bind x = Ok (f x) /\ stmt_ok h Books data info (f x)) ->
  adds C ls (for_each (fun x => makeAndExecuteAsyncWrite fuel uninit (bind x)) l)
    (fun _ s => exists x, x ∈ l /\ s = f x).
Proof. intros Hf. apply adds_for_each. intros x Hx. destruct (Hf x Hx). by apply adds_write. Qed.

(** A parser that a clean response satisfies. *)
Lemma phase_lift C ls P {A B} (r : Res A) (f : A -> M (Cass D) B) Q :
  total r -> (Clean -> exists a, r = Ok a) ->
  (forall a, r = Ok a -> triple (phase C ls P) (f a) Q broken) ->
  triple (phase C ls P) (lift_res r ≫= f) Q broken.
Proof.
  intros Htot Hc Hf w Hw. unfold lift_res, mbind, M_bind.
  destruct r as [a|e|]; [by apply (Hf a eq_refl) | | done]. split; [by eapply phase_kept|].
  intros Hcl. destruct (Hc Hcl). done.
Qed.

Lemma adds_lift C ls {A B} (r : Res A) (f : A -> M (Cass D) B) S :
  total r -> (Clean -> exists a, r = Ok a) ->
  (forall a, r = Ok a -> adds C ls (f a) S) -> adds C ls (lift_res r ≫= f) S.
Proof. intros Htot Hc Hf P. apply phase_lift; [done | done |]. intros a Ha. by apply Hf. Qed.

(** An operation on the cache alone. *)
Lemma phase_cache C C' ls P {A} (f : SimpleCache -> A * SimpleCache) (Q : A -> Prop) :
  (forall c, C c -> Q (f c).1 /\ C' (f c).2) ->
  triple (phase C ls P) (fun w => let '(r, c) := f (c_cache w) in (Ok r, set_c_cache c w))
    (fun r w => Q r /\ phase C' ls P w) broken.
Proof.
  intros Hf w (c & issued & HC & HP & d & l & new & -> & Hrest).
  change (c_cache _) with c. specialize (Hf c HC). destruct (f c) as [r c'] eqn:Hfc.
  destruct Hf as [HQ HC']. split; [done|]. exists c', issued. split_and!; [done | done |].
  exists d, l, new. split; [reflexivity | exact Hrest].
Qed.

Lemma phase_gets C ls P {A} (f : SimpleCache -> A) (Q : A -> Prop) :
  (forall c, C c -> Q (f c)) ->
  triple (phase C ls P) (gets (fun w => f (c_cache w))) (fun r w => Q r /\ phase C ls P w) broken.
Proof.
  intros Hf w Hw. pose proof Hw as (c & issued & HC & HP & d & l & new & -> & _).
  split; [by apply Hf | done].
Qed.

Lemma phase_broken C ls P e : ~ Clean ->
  forall w, phase C ls P w -> broken e w.
Proof. intros Hc w Hw. split; [by eapply phase_kept | done]. Qed.

(** *** The contract, in terms of the new ledger's order *)
(** *** Successors *)

Definition succ_stmt (k : Z) : CassandraStatement :=
  mkStatement (Some insertSuccessor_)
    [CBytes (uint256_bytes k); CInt64 seq; CBytes (uint256_bytes (succ_of New k))].
Definition header_stmt : CassandraStatement :=
  mkStatement (Some insertLedgerHeader_) [CInt64 seq; CBytes (ledger_header data)].
(** The successor rows a created or deleted object needs. *)
Definition linked (x : Z) (s : CassandraStatement) : Prop :=
  s = succ_stmt (pred_of New x) \/ (is_Some (New !! x) /\ s = succ_stmt x).

Lemma valid_pred x : valid_key (pred_of New x).
Proof.
  unfold pred_of. destruct (prev_key New x) as [p|] eqn:Hp; cbn [default]; [|by unfold valid_key, firstKey; lia].
  apply prev_key_Some in Hp as ([b Hb] & _). by eapply L_valid.
Qed.

Lemma succ_stmt_ok k : valid_key k -> stmt_ok h Books data info (succ_stmt k).
Proof.
  intros Hk. split; [done|]. split; [done|]. exists k. split_and!; [done | done |].
  by apply right_succ_exact.
Qed.

Lemma succ_bind (k v : Blob) (q : Z) :
  insertSuccessor_stmt k q v =
  Ok (mkStatement (Some insertSuccessor_) [CBytes k; CInt64 q; CBytes v]).
Proof. solve_binds. Qed.

Lemma adds_succ C ls k v :
  valid_key k -> v = succ_of New k ->
  adds C ls (writeSuccessor fuel uninit (uint256_bytes k) seq (uint256_bytes v))
    (fun _ s => s = succ_stmt k).
Proof. intros Hk ->. apply adds_write; [apply succ_bind | by apply succ_stmt_ok]. Qed.

(** The two writes of an object, with the neighbours of the new ledger. *)
Lemma adds_linked C ls x :
  valid_key x ->
  (New !! x = None -> adds C ls
     (writeSuccessor fuel uninit (uint256_bytes (pred_of New x)) seq (uint256_bytes (succ_of New x)))
     (fun _ => linked x)) /\
  (is_Some (New !! x) -> adds C ls
     (writeSuccessor fuel uninit (uint256_bytes (pred_of New x)) seq (uint256_bytes x) ≫= fun _ =>
      writeSuccessor fuel uninit (uint256_bytes x) seq (uint256_bytes (succ_of New x)))
     (fun _ => linked x)).
Proof.
  pose proof ls_first as Hfirst. intros Hx. split; intros Hn.
  - eapply adds_weaken; [apply adds_succ; [apply valid_pred | by rewrite succ_pred_absent]|].
    intros _ s [H|[[b Hb] _]]; [done | congruence].
  - eapply adds_weaken; [eapply adds_seq; [apply (adds_succ C ls (pred_of New x)) | by apply adds_succ]|].
    + apply valid_pred.
    + by rewrite succ_pred_present.
    + intros _ s [H|[_ H]]; auto.
Qed.

(** *** Objects *)

Definition obj_stmt (key data : Blob) : CassandraStatement :=
  mkStatement (Some insertObject_) [CBytes key; CInt64 seq; CBytes data].
Definition diff_stmt (key : Blob) : CassandraStatement :=
  mkStatement (Some insertDiff_) [CInt64 seq; CBytes key].

(** What the writes of an object issue. *)
Definition obj_writes (key data : Blob) (s : CassandraStatement) : Prop :=
  s = obj_stmt key data \/ (is_Some (c_range w0) /\ s = diff_stmt key).

Lemma writeLedgerObject_adds C ls k o :
  valid_key k -> o = default [] (New !! k) ->
  adds C ls (writeLedgerObject (H := CassandraImpl fuel uninit) (uint256_bytes k) seq o)
    (fun _ => obj_writes (uint256_bytes k) o).
Proof.
  intros Hv Ho. unfold writeLedgerObject. cbn [doWriteLedgerObject CassandraImpl].
  unfold cass_doWriteLedgerObject.
  assert (adds C ls (makeAndExecuteAsyncWrite fuel uninit (insertObject_stmt (uint256_bytes k) seq o))
    (fun _ s => s = obj_stmt (uint256_bytes k) o)) as Hobj.
  { apply adds_write; [solve_binds|]. split; [done|]. split; [done|].
    by exists k. }
  intros P w Hw. pose proof Hw as (c & issued & _ & _ & d & l & new & Heq & _).
  assert (c_range w = c_range w0) as Hrange by (by rewrite Heq).
  unfold gets, mbind at 1, M_bind at 1. rewrite Hrange. clear Hrange Heq c issued d l new.
  destruct (c_range w0) as [r|] eqn:Hr.
  - refine (adds_weaken C ls _ _ (fun _ => obj_writes (uint256_bytes k) o) (adds_seq C ls _ _ (fun s => s = diff_stmt (uint256_bytes k)) _ _ Hobj) _ P w Hw).
    + apply adds_write; [solve_binds | done].
    + intros _ s [->|[_ ->]]; auto.
  - refine (adds_weaken C ls _ _ (fun _ => obj_writes (uint256_bytes k) o) (adds_seq C ls _ _ (fun s => False) _ (adds_ret C ls tt) Hobj) _ P w Hw).
    intros ? s [->|[[x Hx] ->]]; [by right | congruence].
Qed.

Lemma isBookDir_total k blob r : isBookDir k blob = Some r -> total r.
Proof.
  unfold isBookDir. destruct (isDirNode blob) as [d|]; [|done]. cbn. intros [= <-].
  destruct d; cbn; solve_total.
Qed.

(** The object's blob is looked at: the old one comes from the cache. *)
Lemma match_key (o : option LedgerObject) (k : option Z) (d : Z) :
  lo_key <$> o = k -> match o with Some o => lo_key o | None => d end = default d k.
Proof. intros <-. by destruct o. Qed.

(** *** The header, the transactions and the records made from them *)

Lemma phase_ledger C ls q P w :
  phase C ls P w -> phase C q P (set_ledgerSequence q w).
Proof.
  intros (c & issued & Hc & HP & d & l & new & -> & Hrest).
  exists c, issued. split; [done|]. split; [done|]. by exists d, l, new.
Qed.

Lemma writeLedger_spec C ls P :
  triple (phase C ls P) (writeLedger fuel uninit info (ledger_header data))
    (fun _ => phase C seq (fun s => P s \/ s = header_stmt)) broken.
Proof.
  unfold writeLedger.
  eapply triple_bind; [apply (adds_write C ls _ header_stmt); [solve_binds | done]|]. intros ?.
  eapply triple_bind; [apply (adds_write C ls); [solve_binds | done]|]. intros ?.
  intros w Hw. unfold modify. apply (phase_ledger C ls). revert Hw. apply phase_weaken; [done | tauto].
Qed.

Lemma adds_m_fold C ls {A B} (f : A -> B -> M (Cass D) A) (S : B -> CassandraStatement -> Prop) l acc :
  (forall acc x, x ∈ l -> adds C ls (f acc x) (fun _ => S x)) ->
  adds C ls (m_fold f acc l) (fun _ s => exists x, x ∈ l /\ S x s).
Proof.
  revert acc. induction l as [|x l IH]; intros acc Hf; cbn [m_fold].
  - eapply adds_weaken; [apply adds_ret|]. intros _ s (x & Hx%not_elem_of_nil & _). done.
  - eapply adds_bind; [apply Hf; by left | intros; apply IH; intros; apply Hf; by right |].
    intros _ _ s (y & [->|Hy]%elem_of_cons & Hs); eauto.
Qed.

Definition ledger_tx_stmt (id : uint256) : CassandraStatement :=
  mkStatement (Some insertLedgerTransaction_) [CInt64 seq; CBytes (uint256_bytes id)].
Definition tx_stmt (id : uint256) (txn : RawTransaction) : CassandraStatement :=
  mkStatement (Some insertTransaction_) [CBytes (uint256_bytes id); CInt64 seq;
    CInt64 (li_closeTime info); CBytes (rt_transaction_blob txn); CBytes (rt_metadata_blob txn)].

Definition tx_writes (txn : RawTransaction) (s : CassandraStatement) : Prop :=
  exists sttx, parseSTTx (rt_transaction_blob txn) = Ok sttx /\
    (s = ledger_tx_stmt (getTransactionID sttx) \/ s = tx_stmt (getTransactionID sttx) txn).

Lemma insert_transaction_adds C ls result txn :
  txn ∈ transactions_list data ->
  adds C ls (insert_transaction fuel uninit info result txn) (fun _ => tx_writes txn).
Proof.
  intros Hin. unfold insert_transaction.
  apply adds_lift; [solve_total | by intros Hcl; destruct (ls_txs Hcl txn Hin) as (x & _ & _ & ? & _); exists x|].
  intros sttx Hx. apply adds_lift; [solve_total | |].
  { intros Hcl. destruct (ls_txs Hcl txn Hin) as (x & m & _ & Hx' & Hm & _).
    rewrite Hx in Hx'. injection Hx' as <-. eauto. }
  intros txMeta Hm. apply adds_lift; [solve_total | |].
  { intros Hcl. destruct (ls_txs Hcl txn Hin) as (x & m & r & Hx' & Hm' & Hr).
    rewrite Hx in Hx'. injection Hx' as <-. rewrite Hm in Hm'. injection Hm' as <-. eauto. }
  intros [nftTxs maybeNFT] Hr. unfold writeTransaction.
  eapply adds_bind; [eapply adds_seq | intros; apply adds_ret |].
  - apply (adds_write C ls _ (ledger_tx_stmt (getTransactionID sttx))); [solve_binds | done].
  - apply (adds_write C ls _ (tx_stmt (getTransactionID sttx) txn)); [solve_binds|].
    split; [done|]. by exists txn, sttx.
  - intros _ _ s (x & Hx' & Hs). rewrite Hx in Hx'. injection Hx' as <-. by left.
Qed.

Lemma insertTransactions_adds C ls :
  adds C ls (insertTransactions fuel uninit info data)
    (fun _ s => exists txn, txn ∈ transactions_list data /\ tx_writes txn s).
Proof.
  unfold insertTransactions. eapply adds_bind.
  - apply adds_m_fold. intros. by apply insert_transaction_adds.
  - intros. apply adds_ret.
  - intros ? ? s Hs. by left.
Qed.

(** Writes that no theorem here speaks of. *)
Lemma adds_nothing C ls (m : M (Cass D) unit) S : adds C ls m S -> adds C ls m (fun _ _ => False).
Proof. intros Hm. by eapply adds_weaken; [exact Hm|]. Qed.

Lemma writeAccountTransactions_adds C ls l :
  adds C ls (writeAccountTransactions fuel uninit l) (fun _ _ => False).
Proof.
  eapply adds_nothing, (adds_for_each C ls _ (fun _ _ => False)). intros r _.
  eapply adds_nothing, (adds_for_each C ls _ (fun _ _ => False)). intros a _.
  eapply adds_nothing, adds_write; [solve_binds | done].
Qed.

Lemma writeNFTTransactions_adds C ls l :
  adds C ls (writeNFTTransactions fuel uninit l) (fun _ _ => False).
Proof.
  eapply adds_nothing, (adds_for_each C ls _ (fun _ _ => False)). intros r _.
  eapply adds_nothing, adds_write; [solve_binds | done].
Qed.

Lemma nft_stmt_ok d s : s ∈ nft_statements d -> stmt_ok h Books data info s.
Proof. intros [->|(u & _ & [->| ->])]%nft_statements_elem; done. Qed.

Lemma writeNFTs_adds C ls l : adds C ls (writeNFTs fuel uninit l) (fun _ _ => False).
Proof.
  eapply adds_nothing, (adds_for_each C ls _ (fun _ _ => False)). intros r _.
  rewrite nft_stmts_ok. eapply adds_nothing, (adds_for_each C ls _ (fun _ _ => False)).
  intros b (s & -> & Hs)%list_elem_of_fmap. eapply adds_nothing, adds_write; [done | by eapply nft_stmt_ok].
Qed.

(** *** What the writes amount to *)

(** The header of the ledger and its transactions. *)
Record header_stored (T : Tables) : Prop := {
  st_header : t_ledgers T !! seq = Some (ledger_header data);
  st_txs : forall txn sttx, txn ∈ transactions_list data -> parseSTTx (rt_transaction_blob txn) = Ok sttx ->
    uint256_bytes (getTransactionID sttx) ∈ default ∅ (t_ledger_transactions T !! seq) /\
    t_transactions T !! uint256_bytes (getTransactionID sttx) =
      Some (seq, li_closeTime info, rt_transaction_blob txn, rt_metadata_blob txn)
}.

Lemma effects_stored (Done : CassandraStatement -> Prop) T :
  Done header_stmt ->
  (forall txn s, txn ∈ transactions_list data -> tx_writes txn s -> Done s) ->
  (forall s, Done s -> stmt_effect s T) -> header_stored T.
Proof.
  intros Hh Htx Heff. split; [by apply (Heff header_stmt)|].
  intros txn sttx Hin Hx. split.
  - apply (Heff (ledger_tx_stmt (getTransactionID sttx))), (Htx txn); [done|]. exists sttx. auto.
  - apply (Heff (tx_stmt (getTransactionID sttx) txn)), (Htx txn); [done|]. exists sttx. auto.
Qed.

(** The commit changes the range table only. *)
Lemma ranged_effect T T' s : ranged T T' -> stmt_effect s T -> stmt_effect s T'.
Proof. intros ->. done. Qed.

Lemma ranged_kept T T' : ranged T T' -> rows_kept h seq Books T0 T -> rows_kept h seq Books T0 T'.
Proof. intros -> [K1 K2 K3 K4]. by split. Qed.

(** *** The commit *)

Definition built (C : SimpleCache -> Prop) (Done : CassandraStatement -> Prop) (r : bool) (w : Cass D) : Prop :=
  (forall s, Done s -> stmt_effect s (tables (db w))) /\
  rows_kept h seq Books T0 (tables (db w)) /\ commit_outcome (t_ledger_range T0 !! true) seq (seq - 1) r (tables (db w)) /\
  C (c_cache w) /\ idle w /\
  c_range w = if r then Some (mkLedgerRange (match c_range w0 with Some x => minSequence x | None => seq end) seq)
              else c_range w0.

Context (Hseq : 0 < seq < 2 ^ 32).
Context (Hnr : 0 <= numReadRequestsOutstanding_ w0 < 2 ^ 32) (Hsync : syncInterval_ w0 = 1).
Context (Hrange : forall x, t_ledger_range T0 !! false = Some x -> 0 <= x <= seq).

Lemma finishWrites_spec C Done :
  triple (phase C seq Done) (finishWrites (H := CassandraImpl fuel uninit) seq)
    (built C Done)
    (fun e w => rows_kept h seq Books T0 (tables (db w)) /\ e = RuntimeError "invalid query").
Proof.
  intros w1 (c & issued & Hc & HP & Hw). pose proof ls_patience. set (wc := set_ledgerSequence seq (set_c_cache c w0)) in *.
  assert (idle wc) as Hidle' by (pose proof ls_idle as Hi; exact Hi).
  pose proof (doFinishWritesSync_from (SL := SL) (CL := CL) fuel (stmt_ok h Books data info) stmt_effect
    (fun s Hs => proj1 Hs) (stmt_effect_est h Books data info)
    (fun s s' flip t t' rows Hs Hs' Hc He => stmt_effect_keep h Books data info s t t' Hs
       (stmt_grows h Books data info s' flip t t' rows ls_ids Hs' Hc) He)
    (kept h Books info T0) (stmt_keeps h Books data info T0) (patience (db w0)) ltac:(lia) wc (acked (db w0))
    issued seq (t_ledger_range T0 !! true) Hidle' ltac:(done) Hnr eq_refl ltac:(lia)
    ltac:(intros t [_ Ht]; rewrite Ht; split; [done | exact Hrange]) w1 Hw) as Hfin.
  assert (syncInterval_ w1 = 1) as Hs1.
  { destruct Hw as (d & l & new & -> & _). done. }
  unfold finishWrites, mbind, M_bind. cbn [doFinishWrites CassandraImpl]. unfold cass_doFinishWrites, gets, mbind, M_bind.
  rewrite Hs1, Z.eqb_refl.
  destruct (doFinishWritesSync fuel w1) as [[r|e|] w2]; [| | done].
  - destruct Hfin as (d1 & new & d & _ & _ & Heff & [Hkp _] & -> & Hrg & Hout & _).
    rewrite Forall_forall in Heff.
    assert (forall w, db w = d -> c_cache w = c -> idle w -> c_range w =
      (if r then Some (mkLedgerRange (match c_range w0 with Some x => minSequence x | None => seq end) seq)
       else c_range w0) -> built C Done r w) as Hb.
    { intros w Hdb Hcc Hi Hrr. split_and!; rewrite ?Hdb, ?Hcc; try done.
      - intros s Hs. eapply ranged_effect; [exact Hrg|]. by apply Heff, HP.
      - by eapply ranged_kept. }
    destruct r; [|by apply Hb]. unfold updateRange. cbn [range set_range CassandraImpl].
    change (c_range (set_db d wc)) with (c_range w0).
    destruct (c_range w0) as [rg|]; by apply Hb.
  - destruct Hfin as (-> & d1 & d & [Hkp _] & -> & Hrg). split; [|done]. by eapply ranged_kept.
Qed.

End writes.
