(* ===== verification/BuildLedger.v ===== *)
(** * What [buildNextLedger] leaves in the database

    The theorems on [src/src/etl/ReportingETL.cpp]'s [buildNextLedger] over the
    Cassandra backend: tables that represent the ledgers up to a sequence
    represent the next ledger too once its response has been written, with the
    successors taken from the response or recomputed from the cache, and the
    cache is again the cache of the history. *)

From stdpp Require Import base list gmap strings sorting.
From Stdlib Require Import ZArith Lia.
From S2P Require Import Prelude Types TreeRipple SimpleCache Backend NFTHelpers Cql Cassandra Tables.
From S2P Require Import CassandraSpec CassandraCommit LedgerRows ReportingETL.
From S2P Require Import CassandraSpec CassandraCommit LedgerRows ReportingETL LedgerWrites.
Open Scope Z_scope.

#[local] Arguments table_row : simpl never.
#[local] Arguments put : simpl never.

(** ** The contract of the response *)

Definition obj_of (o : RawLedgerObject) : LedgerObject :=
  mkLedgerObject (uint256_fromVoid (ro_key o)) (ro_data o).

Definition key_or_empty (k : option Z) : Blob :=
  match k with Some k => uint256_bytes k | None => [] end.

Section contract.
Context `{R : Ripple} `{SC : SerialCodec}.
Context (h : history) (Books : Z -> Prop) (data : GetLedgerResponse) (info : LedgerInfo).

Abbreviation seq := (li_seq info).
Abbreviation Old := (L h (seq - 1)).
Abbreviation New := (L h seq).

(** The response describes the ledger after [seq - 1]: its objects are the
    diff; when it includes neighbours they are those of the new ledger, and the
    books whose first directory changed are listed. *)
Record describes : Prop := {
  ds_header : deserializeHeader (ledger_header data) = Ok info;
  ds_keys : forall o, o ∈ ledger_objects data ->
    exists k, valid_key k /\ ro_key o = uint256_bytes k;
  ds_diff : is_diff h seq (obj_of <$> ledger_objects data);
  ds_modified : forall o, o ∈ ledger_objects data ->
    ro_mod_type o = MODIFIED <-> ~ changed h seq (lo_key (obj_of o));
  ds_deleted : forall o, o ∈ ledger_objects data -> ro_mod_type o <> MODIFIED ->
    ro_mod_type o = DELETED <-> New !! lo_key (obj_of o) = None;
  ds_neighbors : object_neighbors_included data = true ->
    forall o, o ∈ ledger_objects data -> ro_mod_type o <> MODIFIED ->
    ro_predecessor o = key_or_empty (prev_key New (lo_key (obj_of o))) /\
    ro_successor o = key_or_empty (next_key New (lo_key (obj_of o)));
  ds_books : object_neighbors_included data = true ->
    (forall bs, bs ∈ book_successors data -> exists b, valid_key b /\ bs_book_base bs = uint256_bytes b /\
       b <> firstKey /\ New !! b = None /\ bs_first_book bs = key_or_empty (first_dir New b)) /\
    (forall b, Books b -> first_dir Old b <> first_dir New b ->
       exists bs, bs ∈ book_successors data /\ bs_book_base bs = uint256_bytes b);
  ds_ids : forall id r1 r2, tx_row_of data info id r1 -> tx_row_of data info id r2 -> r1 = r2
}.

(** Every created or deleted object in a book is one of its directories. *)
Definition book_objects : Prop :=
  (forall b, Books b -> valid_key b /\ getBookBase b = b) /\
  forall k, changed h seq k -> Books (getBookBase k) ->
    forall blob, Old !! k = Some blob \/ New !! k = Some blob -> isBookDir k blob = Some (Ok true).

(** Nothing in the response stops the program: the transactions parse; without
    neighbours, the objects do and a book has a key after its base. *)
Definition clean (c : SimpleCache) : Prop :=
  txs_parse data info /\
  (object_neighbors_included data = false ->
     isFull c = true /\ disabled_ c = false /\ latestLedgerSequence c = seq - 1 /\
     forall o blob, o ∈ ledger_objects data -> ro_mod_type o <> MODIFIED ->
       Old !! lo_key (obj_of o) = Some blob \/ New !! lo_key (obj_of o) = Some blob ->
       exists b, isBookDir (lo_key (obj_of o)) blob = Some (Ok b) /\
         (b = true -> is_Some (next_key Old (getBookBase (lo_key (obj_of o)))))).

End contract.

(** ** The phases of the program *)

Section program.
Context {D : Type} `{CS : CassSession D} {tables : D -> Tables} {patience : D -> nat}
  {acked : D -> list CassandraStatement} `{SL : !SessionLaws tables patience acked}.
Context `{CA : CassApi} `{CL : !CassApiLaws} `{NU : NftUtils} `{R : Ripple} `{RT : !RippleTotal}
  `{SC : SerialCodec}.
Context (fuel : nat) (uninit : Z) (h : history) (Books : Z -> Prop).
Context (data : GetLedgerResponse) (info : LedgerInfo) (w0 : Cass D).

Abbreviation seq := (li_seq info).
Abbreviation Old := (L h (seq - 1)).
Abbreviation New := (L h seq).
Abbreviation T0 := (tables (db w0)).

Context (Hds : describes h Books data info) (Hseq : 1 < seq < 2 ^ 32).
Context (Hidle : idle w0) (Hpat : (patience (db w0) < fuel)%nat).
Context (Hkept : kept h Books info T0 T0).
Context (Hfirst : New !! firstKey = None) (Hbooks : book_objects h Books info).
Abbreviation c0 := (c_cache w0).

#[local] Instance setting : LedgerSetting (tables := tables) (patience := patience) fuel h Books data info w0
  (clean h data info c0).
Proof. split; [apply (ds_ids _ _ _ _ Hds) | done | done | done | done | by intros [? _]]. Qed.

Abbreviation phase := (phase (tables := tables) (patience := patience) (acked := acked)
  (h := h) (Books := Books) (data := data) (info := info) (w0 := w0)).
Abbreviation broken := (broken (tables := tables) (h := h) (Books := Books) (info := info) (w0 := w0)
  (Clean := clean h data info c0)).
Abbreviation adds := (adds (tables := tables) (patience := patience) (acked := acked)
  (h := h) (Books := Books) (data := data) (info := info) (w0 := w0) (Clean := clean h data info c0)).
Abbreviation succ_stmt := (succ_stmt (h := h) (info := info)).
Abbreviation linked := (linked (h := h) (info := info)).
Abbreviation header_stmt := (header_stmt (data := data) (info := info)).
Abbreviation tx_writes := (tx_writes (info := info)).

Definition book_stmt (b : Z) : CassandraStatement :=
  mkStatement (Some insertSuccessor_)
    [CBytes (uint256_bytes b); CInt64 seq; CBytes (uint256_bytes (default lastKey (first_dir New b)))].
Lemma obj_key o : o ∈ ledger_objects data ->
  valid_key (lo_key (obj_of o)) /\ ro_key o = uint256_bytes (lo_key (obj_of o)).
Proof.
  intros Ho. destruct (ds_keys _ _ _ _ Hds o Ho) as (k & Hk & He).
  unfold obj_of. cbn [lo_key]. rewrite He.
  change (uint256_bytes k) with (uint256ToString k) at 1 3. by rewrite uint256_fromVoid_bytes.
Qed.

Lemma obj_blob o : o ∈ ledger_objects data ->
  New !! lo_key (obj_of o) = if decide (ro_data o = []) then None else Some (ro_data o).
Proof.
  intros Ho. destruct (ds_diff _ _ _ _ Hds) as (_ & Hd & _). apply (Hd (obj_of o)).
  by apply list_elem_of_fmap_2.
Qed.

Lemma obj_deleted o : o ∈ ledger_objects data ->
  (length (ro_data o) =? 0)%nat = bool_decide (New !! lo_key (obj_of o) = None).
Proof.
  intros Ho. rewrite (obj_blob o Ho). destruct (ro_data o) as [|b l]; [done|].
  by rewrite decide_False, bool_decide_false.
Qed.

Lemma or_key_default k d : or_key (key_or_empty k) d = uint256_bytes (default d k).
Proof. by destruct k. Qed.

(** *** Successors from the response *)

Lemma write_neighbors_adds C ls o :
  object_neighbors_included data = true -> o ∈ ledger_objects data ->
  adds C ls (write_neighbors fuel uninit seq o)
    (fun _ s => ro_mod_type o <> MODIFIED /\ linked (lo_key (obj_of o)) s).
Proof.
  intros Hinc Ho. unfold write_neighbors.
  case_bool_decide as Hm; cbn [negb]; [eapply adds_weaken; [apply adds_ret | naive_solver]|].
  destruct (obj_key o Ho) as [Hv Hk].
  destruct (ds_neighbors _ _ _ _ Hds Hinc o Ho Hm) as [-> ->]. rewrite !or_key_default, Hk.
  destruct (adds_linked (uninit := uninit) C ls _ Hv) as [Hdel Hcre].
  pose proof (ds_deleted _ _ _ _ Hds o Ho Hm) as Hd.
  apply (adds_weaken C ls _ (fun _ => linked (lo_key (obj_of o)))); [|by intros ? s [_ Hs]].
  case_bool_decide as Hdd.
  - apply Hdel. by apply Hd.
  - apply Hcre. apply not_eq_None_Some. tauto.
Qed.

Lemma write_books_adds C ls :
  object_neighbors_included data = true ->
  adds C ls (for_each (write_book_successor fuel uninit seq) (book_successors data))
    (fun _ s => exists b, Books b /\ first_dir Old b <> first_dir New b /\ s = book_stmt b).
Proof.
  intros Hinc. destruct (ds_books _ _ _ _ Hds Hinc) as [Hbs Hall].
  eapply adds_weaken.
  - apply (adds_for_each C ls _ (fun bs s => s = mkStatement (Some insertSuccessor_)
      [CBytes (bs_book_base bs); CInt64 seq; CBytes (or_key (bs_first_book bs) lastKey)])).
    intros bs Hin. apply adds_write; [apply succ_bind|].
    destruct (Hbs bs Hin) as (b & Hb & -> & Hne & Hno & ->). rewrite or_key_default.
    split; [done|]. split; [done|]. exists b. split_and!; [done | done |]. split.
    + intros [?|[y Hy]]; [done | congruence].
    + intros _. unfold book_entry. destruct (first_dir New b) as [k|]; [done|]. exists lastKey.
      split_and!; [unfold valid_key, lastKey; lia | done | by left].
  - intros _ s (b & HB & Hne & ->). destruct (Hall b HB Hne) as (bs & Hin & Hb).
    exists bs. split; [done|]. destruct (Hbs bs Hin) as (b' & Hb' & Hbb & _ & _ & ->).
    rewrite or_key_default, Hb. rewrite Hbb in Hb.
    apply uint256_bytes_inj in Hb as Heq; [by rewrite Heq | done |]. by apply Hbooks.
Qed.

(** *** The objects *)

Context (Hreach : exists ld, reach h c0 ld).
Context (Hcur : current h c0 = seq - 1 \/ disabled_ c0 = true).

(** The cache but for its counters, before and after the update. *)
Definition cache_at (s : Z) (c : SimpleCache) : Prop :=
  (exists ld, reach h c ld) /\ full_ c = full_ c0 /\ disabled_ c = disabled_ c0 /\
  latestSeq_ c = if disabled_ c0 then latestSeq_ c0 else s.

Abbreviation before := (cache_at (latestSeq_ c0)).
Abbreviation after := (cache_at seq).

Lemma cache_at_start c : c = c0 -> before c.
Proof. intros ->. unfold cache_at. split_and!; [done..|]. by destruct (disabled_ c0). Qed.

Lemma cache_at_get s k q c : cache_at s c -> cache_at s (get k q c).2.
Proof.
  intros ((ld & Hr) & Hf & Hd & Hl).
  assert (full_ (get k q c).2 = full_ c /\ disabled_ (get k q c).2 = disabled_ c /\
    latestSeq_ (get k q c).2 = latestSeq_ c) as (E1 & E2 & E3).
  { unfold get. by repeat case_match. }
  split; [|by rewrite E1, E2, E3]. exists ld. eapply rtc_r; [exact Hr | constructor].
Qed.

Lemma cache_at_succ s k q c : cache_at s c -> cache_at s (getSuccessor k q c).2.
Proof.
  intros ((ld & Hr) & Hf & Hd & Hl).
  assert (full_ (getSuccessor k q c).2 = full_ c /\ disabled_ (getSuccessor k q c).2 = disabled_ c /\
    latestSeq_ (getSuccessor k q c).2 = latestSeq_ c) as (E1 & E2 & E3).
  { unfold getSuccessor, getSuccessor_enter, getSuccessor_lookup.
    destruct (full_ c) eqn:E; simpl; rewrite ?E; [|done]. destruct (q =? latestSeq_ c); simpl; [|by rewrite E].
    destruct (upper_bound k (map_ c)) as [[]|]; simpl; by rewrite E. }
  split; [|by rewrite E1, E2, E3]. exists ld. eapply rtc_r; [exact Hr | constructor].
Qed.

(** What a full cache answers. *)
Lemma cache_at_get_value s k q c :
  cache_at s c -> full_ c = true -> q = latestSeq_ c -> 0 < q -> (get k q c).1 = L h q !! k.
Proof. intros ((ld & Hr) & _) Hf Hq Hpos. by eapply full_get. Qed.

Lemma cache_at_next s k q c :
  cache_at s c -> full_ c = true -> q = latestSeq_ c -> 0 < q ->
  lo_key <$> (getSuccessor k q c).1 = next_key (L h q) k.
Proof. intros ((ld & Hr) & _) Hf Hq Hpos. by eapply cache_next. Qed.

Lemma cache_at_prev s k q c :
  cache_at s c -> full_ c = true -> q = latestSeq_ c -> 0 < q ->
  lo_key <$> getPredecessor k q c = prev_key (L h q) k.
Proof. intros ((ld & Hr) & _) Hf Hq Hpos. by eapply cache_prev. Qed.

(** The check of the cache: it fails only for a response that is not clean. *)
Lemma require_cache_spec s q ls P :
  object_neighbors_included data = false ->
  (clean h data info c0 -> (if disabled_ c0 then latestSeq_ c0 else s) = q) ->
  triple (phase (cache_at s) ls P) (require_cache fuel uninit q)
    (fun _ => phase (fun c => cache_at s c /\ full_ c = true /\ q = latestSeq_ c) ls P) broken.
Proof.
  intros Hinc Hq w Hw. pose proof Hw as (c & issued & Hc & HP & d & l & new & -> & Hrest).
  unfold require_cache, gets, mbind, M_bind. change (cache_ _) with c.
  destruct Hc as (Hr & Hf & Hd & Hl).
  destruct (negb (isFull c) || negb (latestLedgerSequence c =? q)) eqn:Hn.
  - split; [by eapply phase_kept|]. intros Hcl. specialize (Hq Hcl).
    destruct Hcl as [_ Hcl]. destruct (Hcl Hinc) as (Hf0 & Hd0 & _).
    unfold isFull, latestLedgerSequence in *. rewrite Hf, Hf0, Hl, Hq, Z.eqb_refl in Hn. done.
  - unfold isFull, latestLedgerSequence in Hn. apply orb_false_iff in Hn as [H1%negb_false_iff H2%negb_false_iff].
    zbool. exists c, issued. split; [by unfold cache_at; split_and! |]. split; [done|]. by exists d, l, new.
Qed.

Abbreviation ready := (fun c => before c /\ full_ c = true /\ seq - 1 = latestSeq_ c).

Lemma is_book_dir_spec ls P k blob :
  (clean h data info c0 -> exists b, isBookDir k blob = Some (Ok b)) ->
  (forall r, isBookDir k blob = Some r -> total r) ->
  triple (phase ready ls P) (is_book_dir k blob)
    (fun r w => isBookDir k blob = Some (Ok r) /\ phase ready ls P w) broken.
Proof.
  intros Hcl Htot w Hw. unfold is_book_dir. destruct (isBookDir k blob) as [r|] eqn:Hb.
  - specialize (Htot r eq_refl). destruct r as [b|e|]; [done | | done].
    apply (phase_broken _ _ _ _) with (2 := Hw). intros [b Hb']%Hcl. done.
  - apply (phase_broken _ _ _ _) with (2 := Hw). intros [b Hb']%Hcl. done.
Qed.

Lemma obj_changed o : o ∈ ledger_objects data -> ro_mod_type o <> MODIFIED ->
  changed h seq (lo_key (obj_of o)).
Proof.
  intros Ho Hm. rewrite (ds_modified _ _ _ _ Hds o Ho) in Hm. unfold changed in *.
  destruct (decide (is_Some (Old !! lo_key (obj_of o)))), (decide (is_Some (New !! lo_key (obj_of o)))); tauto.
Qed.

(** The blob of a created or deleted object: the new one, or the old one. *)
Definition either_blob (k : Z) : Blob := default (default [] (Old !! k)) (New !! k).

Lemma either_blob_of k : changed h seq k ->
  Old !! k = Some (either_blob k) \/ New !! k = Some (either_blob k).
Proof.
  unfold changed, either_blob. destruct (New !! k) as [b|] eqn:HN; [by right|].
  destruct (Old !! k) as [b|] eqn:HO; [by left|]. intros [_ H]. destruct H; [by intros [] | done].
Qed.

Lemma clean_book_dir o :
  object_neighbors_included data = false -> o ∈ ledger_objects data -> ro_mod_type o <> MODIFIED ->
  clean h data info c0 ->
  exists b, isBookDir (lo_key (obj_of o)) (either_blob (lo_key (obj_of o))) = Some (Ok b) /\
    (b = true -> is_Some (next_key Old (getBookBase (lo_key (obj_of o))))).
Proof.
  intros Hinc Ho Hm [_ Hcl]. destruct (Hcl Hinc) as (_ & _ & _ & Hb).
  apply Hb; [done | done |]. apply either_blob_of. by apply obj_changed.
Qed.

Lemma checked_blob_spec ls P o :
  object_neighbors_included data = false -> o ∈ ledger_objects data -> ro_mod_type o <> MODIFIED ->
  let k := lo_key (obj_of o) in
  triple (phase ready ls P)
    (if (length (ro_data o) =? 0)%nat then
       old ← cache_get (H := CassandraImpl fuel uninit) k (seq - 1);
       match old with Some b => is_book_dir k b | None => throw BadOptionalAccess end
     else is_book_dir k (ro_data o))
    (fun r w => isBookDir k (either_blob k) = Some (Ok r) /\ phase ready ls P w) broken.
Proof.
  intros Hinc Ho Hm k. pose proof (obj_changed o Ho Hm) as Hch. fold k in Hch.
  assert (forall r, isBookDir k (either_blob k) = Some r -> total r) as Htot by (intros r; apply isBookDir_total).
  assert (clean h data info c0 -> exists b, isBookDir k (either_blob k) = Some (Ok b)) as Hcl.
  { intros Hc. destruct (clean_book_dir o Hinc Ho Hm Hc) as (b & Hb & _). eauto. }
  rewrite (obj_deleted o Ho). fold k. pose proof (obj_blob o Ho) as HN. fold k in HN.
  case_bool_decide as Hdel.
  - eapply triple_bind.
    + apply (phase_cache ready ready ls P (get k (seq - 1)) (fun r => r = Old !! k)).
      intros c (Hc & Hf & Hl). split; [by apply (cache_at_get_value (latestSeq_ c0)); [.. | lia]|].
      assert (full_ (get k (seq - 1) c).2 = full_ c /\ latestSeq_ (get k (seq - 1) c).2 = latestSeq_ c) as [-> ->].
      { unfold get. by repeat case_match. }
      split; [by apply cache_at_get | done].
    + intros old. apply triple_pre_pure; intros ->.
      assert (Old !! k = Some (either_blob k)) as ->.
      { destruct (either_blob_of k Hch) as [?|?]; [done | congruence]. }
      by apply is_book_dir_spec.
  - assert (either_blob k = ro_data o) as <-.
    { unfold either_blob. rewrite HN in *. by destruct (decide (ro_data o = [])). }
    by apply is_book_dir_spec.
Qed.

Lemma changed_book_spec ls P o :
  object_neighbors_included data = false -> o ∈ ledger_objects data -> ro_mod_type o <> MODIFIED ->
  let k := lo_key (obj_of o) in
  triple (phase ready ls P) (changed_book fuel uninit seq k (ro_data o))
    (fun r w => ((forall b, r = Some b -> b = getBookBase k) /\
        (triggers h seq k -> Books (getBookBase k) -> r = Some (getBookBase k))) /\ phase ready ls P w)
    broken.
Proof.
  intros Hinc Ho Hm k. pose proof (obj_changed o Ho Hm) as Hch. fold k in Hch.
  unfold changed_book. rewrite u32_small by lia.
  eapply triple_bind; [by apply checked_blob_spec|].
  intros chk. apply triple_pre_pure. fold k. intros Hchk. destruct chk.
  2:{ apply triple_ret. intros w Hw. split; [|done]. split; [done|]. intros _ HB.
      destruct Hbooks as [_ Hb]. rewrite (Hb k Hch HB (either_blob k)) in Hchk; [done|].
      by apply either_blob_of. }
  eapply triple_bind.
  { apply (phase_cache ready ready ls P (getSuccessor (getBookBase k) (seq - 1))
      (fun r => lo_key <$> r = next_key Old (getBookBase k))).
    intros c (Hc & Hf & Hl). split; [by apply (cache_at_next (latestSeq_ c0)); [.. | lia]|].
    pose proof (cache_at_succ _ (getBookBase k) (seq - 1) c Hc) as Hc'. split; [done|].
    destruct Hc as (_ & Hfc & _ & Hlc), Hc' as (_ & Hfc' & _ & Hlc'). split; congruence. }
  intros r. apply triple_pre_pure; intros Hr.
  destruct r as [x|]; cbn [fmap option_fmap option_map] in Hr.
  2:{ intros w Hw. apply (phase_broken _ _ _ _) with (2 := Hw). intros Hcl.
      destruct (clean_book_dir o Hinc Ho Hm Hcl) as (b & Hb & Hs). fold k in Hb, Hs.
      rewrite Hchk in Hb. injection Hb as <-. rewrite <- Hr in Hs. by destruct (Hs eq_refl). }
  rewrite (obj_deleted o Ho). fold k.
  unfold triggers. rewrite <- Hr. destruct (New !! k) as [b|] eqn:HN.
  - rewrite bool_decide_false by done. cbn [andb orb negb].
    destruct (k <? lo_key x) eqn:Hlt; zbool; apply triple_ret; intros w Hw; (split; [|done]).
    + split; [by intros b' [= <-] | done].
    + split; [done|]. rewrite decide_True by done. intros [_ ?]. lia.
  - rewrite bool_decide_true by done. cbn [andb orb negb]. rewrite orb_false_r.
    destruct (k =? lo_key x) eqn:He; zbool; apply triple_ret; intros w Hw; (split; [|done]).
    + split; [by intros b' [= <-] | done].
    + split; [done|]. rewrite decide_False by (by intros []). intros [_ [= ?]]. congruence.
Qed.

(** What the writes of an object issue. *)
(** What the writes of an object issue. *)
Abbreviation obj_writes o := (obj_writes (info := info) (w0 := w0) (ro_key o) (ro_data o)).

Lemma write_raw_object_adds C ls o :
  o ∈ ledger_objects data ->
  adds C ls (writeLedgerObject (H := CassandraImpl fuel uninit) (ro_key o) seq (ro_data o))
    (fun _ => obj_writes o).
Proof.
  intros Ho. destruct (obj_key o Ho) as [Hv ->]. apply writeLedgerObject_adds; [done|].
  rewrite (obj_blob o Ho). by case_decide.
Qed.

Lemma getBookBase_valid k : valid_key k -> valid_key (getBookBase k).
Proof.
  intros Hk. rewrite getBookBase_spec by done. unfold valid_key in *.
  rewrite Z.shiftl_mul_pow2, Z.shiftr_div_pow2 by lia.
  pose proof (Z.mul_div_le k (2 ^ 64) ltac:(lia)). pose proof (Z.div_pos k (2 ^ 64)). lia.
Qed.

(** What the loop has collected from the objects before. *)
Record collected (pre : list RawLedgerObject) (st : ObjectLoop) : Prop := {
  co_updates : cacheUpdates st = obj_of <$> pre;
  co_modified : forall k, k ∈ modified st <->
    exists o, o ∈ pre /\ ro_mod_type o = MODIFIED /\ k = lo_key (obj_of o);
  co_valid : forall b, b ∈ bookSuccessors st -> valid_key b;
  co_books : object_neighbors_included data = false -> forall o, o ∈ pre -> ro_mod_type o <> MODIFIED ->
    triggers h seq (lo_key (obj_of o)) -> Books (getBookBase (lo_key (obj_of o))) ->
    getBookBase (lo_key (obj_of o)) ∈ bookSuccessors st
}.

Lemma collected_nil : collected [] (mkObjectLoop [] ∅ ∅).
Proof. split; set_solver. Qed.

Lemma collected_step pre st o base :
  collected pre st -> o ∈ ledger_objects data ->
  (forall b, base = Some b -> b = getBookBase (lo_key (obj_of o))) ->
  (object_neighbors_included data = false -> ro_mod_type o <> MODIFIED ->
     triggers h seq (lo_key (obj_of o)) -> Books (getBookBase (lo_key (obj_of o))) ->
     base = Some (getBookBase (lo_key (obj_of o)))) ->
  collected (pre ++ [o]) (mkObjectLoop (cacheUpdates st ++ [obj_of o])
    (match base with Some b => {[b]} ∪ bookSuccessors st | None => bookSuccessors st end)
    (if bool_decide (ro_mod_type o = MODIFIED) then {[lo_key (obj_of o)]} ∪ modified st else modified st)).
Proof.
  intros [H1 H2 H3 H4] Ho Hb Hneed. destruct (obj_key o Ho) as [Hv _]. split; cbn [cacheUpdates modified bookSuccessors].
  - by rewrite H1, fmap_app.
  - intros k. setoid_rewrite elem_of_app. setoid_rewrite list_elem_of_singleton.
    case_bool_decide as Hm; rewrite ?elem_of_union, ?elem_of_singleton, H2; naive_solver.
  - intros b. destruct base as [b0|]; [|apply H3]. rewrite elem_of_union, elem_of_singleton.
    intros [->|?]; [|by apply H3]. rewrite (Hb b0 eq_refl). by apply getBookBase_valid.
  - intros Hinc o'. rewrite elem_of_app, list_elem_of_singleton. intros [Hin| ->] Hm Ht HB.
    + specialize (H4 Hinc o' Hin Hm Ht HB). destruct base; set_solver.
    + rewrite (Hneed Hinc Hm Ht HB). set_solver.
Qed.

Lemma before_u32 : u32 (seq - 1) = seq - 1.
Proof. apply u32_small. lia. Qed.

Lemma changed_base_spec ls P o :
  o ∈ ledger_objects data ->
  triple (phase before ls P)
    (if negb (bool_decide (ro_mod_type o = MODIFIED)) && negb (object_neighbors_included data) then
       require_cache fuel uninit (u32 (seq - 1)) ≫= fun _ =>
       changed_book fuel uninit seq (lo_key (obj_of o)) (ro_data o)
     else mret None)
    (fun base w => ((forall b, base = Some b -> b = getBookBase (lo_key (obj_of o))) /\
        (object_neighbors_included data = false -> ro_mod_type o <> MODIFIED ->
         triggers h seq (lo_key (obj_of o)) -> Books (getBookBase (lo_key (obj_of o))) ->
         base = Some (getBookBase (lo_key (obj_of o))))) /\ phase before ls P w) broken.
Proof.
  intros Ho. case_bool_decide as Hm; cbn [negb andb]; [by apply triple_ret|].
  destruct (object_neighbors_included data) eqn:Hinc; cbn [negb]; [by apply triple_ret|].
  rewrite before_u32. eapply triple_bind.
  - apply (require_cache_spec (latestSeq_ c0)); [done|].
    intros [_ Hcl]. destruct (Hcl Hinc) as (_ & -> & Hl & _). exact Hl.
  - intros ?. eapply triple_conseq; [by apply changed_book_spec | done | | done].
    intros r w [[H1 H2] Hw]. split; [by split|]. revert Hw. apply phase_weaken; [by intros c [? _] | done].
Qed.

Lemma write_objects_spec P :
  triple (phase before seq P)
    (m_fold (write_object fuel uninit seq (object_neighbors_included data))
       (mkObjectLoop [] ∅ ∅) (ledger_objects data))
    (fun st w => collected (ledger_objects data) st /\
       phase before seq (fun s => P s \/ exists o, o ∈ ledger_objects data /\ obj_writes o s) w) broken.
Proof.
  eapply triple_conseq.
  - apply (triple_m_fold _ (fun pre st w => collected pre st /\
      phase before seq (fun s => P s \/ exists o, o ∈ pre /\ obj_writes o s) w) broken
      (ledger_objects data) []).
    intros pre o st Ho. apply triple_pre_pure; intros Hcol. unfold write_object.
    destruct (obj_key o Ho) as [Hv Hk].
    assert (uint256_fromVoidChecked (ro_key o) = Some (lo_key (obj_of o))) as ->.
    { unfold uint256_fromVoidChecked. by rewrite Hk at 1. }
    eapply triple_bind; [by apply changed_base_spec|].
    intros base. apply triple_pre_pure; intros [Hb Hneed].
    eapply triple_bind; [by apply write_raw_object_adds|]. intros ?. apply triple_ret. intros w Hw.
    split; [by apply collected_step|]. revert Hw. apply phase_weaken; [done|].
    intros s [?|(o' & Ho' & Hs)]; [auto|]. apply elem_of_app in Ho' as [?| ->%list_elem_of_singleton]; eauto.
  - intros w Hw. split; [apply collected_nil|]. revert Hw. apply phase_weaken; [done|].
    intros s [?|(o & Ho%not_elem_of_nil & _)]; done.
  - done.
  - done.
Qed.

(** *** The cache after the ledger *)

Lemma update_cache_spec P :
  triple (phase before seq P)
    (modify (fun w => set_cache (BackendImpl := CassandraImpl fuel uninit)
       (update (obj_of <$> ledger_objects data) seq false (c_cache w)) w))
    (fun _ => phase after seq P) broken.
Proof.
  intros w (c & issued & Hc & HP & d & l & new & -> & Hrest). unfold modify.
  change (c_cache (set_retries _ _)) with c.
  exists (update (obj_of <$> ledger_objects data) seq false c), issued.
  split; [|split; [done|]; by exists d, l, new].
  destruct Hc as ((ld & Hr) & Hf & Hd & Hl).
  assert (latestSeq_ c = latestSeq_ c0) as Hl' by (by destruct (disabled_ c0)).
  assert (current h c = current h c0) as Hc' by (unfold current; by rewrite Hl').
  split.
  { exists ld. eapply rtc_r; [exact Hr|]. apply step_diff; [|apply (ds_diff _ _ _ _ Hds)].
    rewrite Hc', Hd. destruct Hcur as [->|]; [left; lia | by right]. }
  unfold update. destruct (disabled_ c) eqn:Hdis.
  { rewrite <- Hd in *. by rewrite Hdis, Hl'. }
  rewrite <- Hd.
  assert ((seq >? latestSeq_ c) = true) as ->.
  { rewrite <- Hd in Hcur. destruct Hcur as [Hcu|]; [|done]. rewrite <- Hc' in Hcu.
    unfold current in Hcu. rewrite Z.gtb_ltb. apply Z.ltb_lt. destruct (latestSeq_ c =? 0) eqn:Hz; zbool; lia. }
  by destruct (foldl_frame seq false (obj_of <$> ledger_objects data) (with_latestSeq c seq)) as (-> & -> & ->).
Qed.

(** *** Successors from the cache *)

Abbreviation updated := (fun c => after c /\ full_ c = true /\ seq = latestSeq_ c).

Lemma updated_succ k c : updated c ->
  lo_key <$> (getSuccessor k seq c).1 = next_key New k /\ updated (getSuccessor k seq c).2.
Proof.
  intros (Hc & Hf & Hl). split; [by apply (cache_at_next seq); [.. | lia]|].
  pose proof (cache_at_succ _ k seq c Hc) as Hc'. split; [done|].
  destruct Hc as (_ & Hfc & _ & Hlc), Hc' as (_ & Hfc' & _ & Hlc'). split; congruence.
Qed.

Lemma modified_spec st o :
  collected (ledger_objects data) st -> o ∈ ledger_objects data ->
  lo_key (obj_of o) ∈ modified st <-> ro_mod_type o = MODIFIED.
Proof.
  intros Hcol Ho. rewrite (co_modified _ _ Hcol). split; [|by exists o].
  intros (o' & Ho' & Hm & Hk). rewrite (ds_modified _ _ _ _ Hds) in Hm |- * by done. by rewrite Hk.
Qed.

Lemma write_cached_neighbors_adds ls st o :
  collected (ledger_objects data) st -> o ∈ ledger_objects data ->
  adds updated ls (write_cached_neighbors fuel uninit seq (modified st) (obj_of o))
    (fun _ s => ro_mod_type o <> MODIFIED /\ linked (lo_key (obj_of o)) s).
Proof.
  intros Hcol Ho. unfold write_cached_neighbors. pose proof (modified_spec st o Hcol Ho) as Hmod.
  case_bool_decide as Hm; [eapply adds_weaken; [apply adds_ret | naive_solver]|].
  destruct (obj_key o Ho) as [Hv Hk]. intros P.
  eapply triple_bind.
  { apply (phase_gets updated ls P (getPredecessor (lo_key (obj_of o)) seq)
      (fun r => lo_key <$> r = prev_key New (lo_key (obj_of o)))).
    intros c (Hc & Hf & Hl). by apply (cache_at_prev seq); [.. | lia]. }
  intros lb. apply triple_pre_pure; intros Hlb.
  rewrite (match_key _ _ firstKey Hlb). fold (pred_of New (lo_key (obj_of o))).
  eapply triple_bind.
  { apply (phase_cache updated updated ls P (getSuccessor (lo_key (obj_of o)) seq)
      (fun r => lo_key <$> r = next_key New (lo_key (obj_of o)))).
    apply updated_succ. }
  intros ub. apply triple_pre_pure; intros Hub.
  rewrite (match_key _ _ lastKey Hub). fold (succ_of New (lo_key (obj_of o))).
  destruct (adds_linked (uninit := uninit) updated ls _ Hv) as [Hdel Hcre].
  cbn [obj_of lo_blob]. rewrite (obj_deleted o Ho). unfold uint256ToString.
  assert (forall s, ro_mod_type o <> MODIFIED /\ linked (lo_key (obj_of o)) s -> linked (lo_key (obj_of o)) s) as Hs by tauto.
  case_bool_decide as Hn.
  - by apply (adds_weaken updated ls _ _ _ (Hdel Hn)).
  - apply not_eq_None_Some in Hn. by apply (adds_weaken updated ls _ _ _ (Hcre Hn)).
Qed.

Lemma write_cached_book_adds ls b :
  valid_key b -> adds updated ls (write_cached_book fuel uninit seq b) (fun _ s => s = succ_stmt b).
Proof.
  intros Hb P. unfold write_cached_book. eapply triple_bind.
  { apply (phase_cache updated updated ls P (getSuccessor b seq) (fun r => lo_key <$> r = next_key New b)).
    apply updated_succ. }
  intros r. apply triple_pre_pure; intros Hr. rewrite (match_key _ _ lastKey Hr).
  fold (succ_of New b). by apply adds_succ.
Qed.

Lemma set_list_elem (X : gset Z) b : b ∈ set_list X <-> b ∈ X.
Proof. unfold set_list. rewrite std_sort_perm. apply elem_of_elements. Qed.

(** The successor rows that the ledger needs, from either source. *)
Definition neighbor_writes (s : CassandraStatement) : Prop :=
  (exists o, o ∈ ledger_objects data /\ ro_mod_type o <> MODIFIED /\ linked (lo_key (obj_of o)) s) \/
  (exists b, Books b /\ first_dir Old b <> first_dir New b /\ s =
     if object_neighbors_included data then book_stmt b else succ_stmt b).

Lemma included_neighbors_adds C ls :
  object_neighbors_included data = true ->
  adds C ls (for_each (write_book_successor fuel uninit seq) (book_successors data) ≫= fun _ =>
    for_each (write_neighbors fuel uninit seq) (ledger_objects data)) (fun _ => neighbor_writes).
Proof.
  intros Hinc. eapply adds_weaken.
  - eapply adds_seq; [by apply write_books_adds|]. apply adds_for_each.
    intros o Ho. by apply write_neighbors_adds.
  - intros _ s [(o & Ho & Hm & Hs)|(b & HB & Hne & ->)]; [right; eauto|]. rewrite Hinc. left. eauto.
Qed.

(** A book whose first directory changed was found by the loop. *)
Lemma changed_books_collected st b :
  object_neighbors_included data = false -> collected (ledger_objects data) st ->
  Books b -> first_dir Old b <> first_dir New b -> b ∈ bookSuccessors st.
Proof.
  intros Hinc Hcol HB Hne. destruct Hbooks as [Hvalid _]. destruct (Hvalid b HB) as [Hv Hbb].
  destruct (first_dir_changed h seq b Hv Hbb Hne) as (x & Htr & Hx).
  assert (x ∈ (lo_key <$> (obj_of <$> ledger_objects data))) as Hin.
  { destruct (decide (x ∈ (lo_key <$> (obj_of <$> ledger_objects data)))) as [|Hni]; [done|].
    destruct (ds_diff _ _ _ _ Hds) as (_ & _ & Hsame). destruct Htr as [Hch _].
    unfold changed in Hch. rewrite (Hsame x Hni) in Hch. tauto. }
  apply list_elem_of_fmap in Hin as (y & -> & Hy). apply list_elem_of_fmap in Hy as (o & -> & Ho).
  rewrite <- Hx. apply (co_books _ _ Hcol Hinc o Ho); [| done | by rewrite Hx].
  rewrite (ds_modified _ _ _ _ Hds o Ho). intros Hn. apply Hn. by destruct Htr.
Qed.

Lemma cached_neighbors_spec st P :
  object_neighbors_included data = false -> collected (ledger_objects data) st ->
  triple (phase after seq P)
    (require_cache fuel uninit seq ≫= fun _ =>
     for_each (write_cached_neighbors fuel uninit seq (modified st)) (cacheUpdates st) ≫= fun _ =>
     for_each (write_cached_book fuel uninit seq) (set_list (bookSuccessors st)))
    (fun _ => phase after seq (fun s => P s \/ neighbor_writes s)) broken.
Proof.
  intros Hinc Hcol. eapply triple_bind.
  - apply (require_cache_spec seq); [done|]. intros [_ Hcl]. by destruct (Hcl Hinc) as (_ & -> & _).
  - intros ?. eapply triple_conseq; [eapply (adds_weaken updated seq _ _ (fun _ => neighbor_writes)) | done | | done].
    + eapply adds_seq.
      * apply (adds_for_each updated seq _ (fun x s => exists o, o ∈ ledger_objects data /\ x = obj_of o /\
          ro_mod_type o <> MODIFIED /\ linked (lo_key (obj_of o)) s)).
        intros x. rewrite (co_updates _ _ Hcol). intros (o & -> & Ho)%list_elem_of_fmap.
        eapply adds_weaken; [by apply write_cached_neighbors_adds|].
        intros _ s (o' & Ho' & Heq & Hm & Hs). rewrite <- Heq in Hs. split; [|done].
        rewrite (ds_modified _ _ _ _ Hds) in Hm |- * by done. by rewrite Heq.
      * apply (adds_for_each updated seq _ (fun b s => s = succ_stmt b)).
        intros b Hb%set_list_elem. apply write_cached_book_adds. by apply (co_valid _ _ Hcol).
    + intros _ s [(o & Ho & Hm & Hs)|(b & HB & Hne & ->)].
      * left. exists (obj_of o). split; [|by exists o]. rewrite (co_updates _ _ Hcol).
        by apply list_elem_of_fmap_2.
      * right. rewrite Hinc. exists b. split; [|done]. apply set_list_elem. by apply changed_books_collected.
    + intros ? w. apply phase_weaken; [by intros c [? _] | done].
Qed.

(** *** All the writes of the ledger *)

Definition ledger_writes (s : CassandraStatement) : Prop :=
  s = header_stmt \/ neighbor_writes s \/
  (exists o, o ∈ ledger_objects data /\ obj_writes o s) \/
  (exists txn, txn ∈ transactions_list data /\ tx_writes txn s).

(** The program up to the commit. *)
Definition write_ledger : M (Cass D) unit :=
  startWrites ≫= fun _ =>
  writeLedger fuel uninit info (ledger_header data) ≫= fun _ =>
  (if object_neighbors_included data then
     for_each (write_book_successor fuel uninit seq) (book_successors data) ≫= fun _ =>
     for_each (write_neighbors fuel uninit seq) (ledger_objects data)
   else mret tt) ≫= fun _ =>
  st ← m_fold (write_object fuel uninit seq (object_neighbors_included data))
         (mkObjectLoop [] ∅ ∅) (ledger_objects data);
  modify (fun w => set_cache (BackendImpl := CassandraImpl fuel uninit)
    (update (cacheUpdates st) seq false (c_cache w)) w) ≫= fun _ =>
  (if negb (object_neighbors_included data) then
     require_cache fuel uninit seq ≫= fun _ =>
     for_each (write_cached_neighbors fuel uninit seq (modified st)) (cacheUpdates st) ≫= fun _ =>
     for_each (write_cached_book fuel uninit seq) (set_list (bookSuccessors st))
   else mret tt) ≫= fun _ =>
  insertTxResult ← insertTransactions fuel uninit info data;
  writeAccountTransactions fuel uninit (accountTxData insertTxResult) ≫= fun _ =>
  writeNFTs fuel uninit (nfTokensData insertTxResult) ≫= fun _ =>
  writeNFTTransactions fuel uninit (nfTokenTxData insertTxResult).

Lemma write_ledger_spec :
  triple (fun w => w = w0) write_ledger (fun _ => phase after seq ledger_writes) broken.
Proof.
  unfold write_ledger, startWrites.
  eapply triple_bind; [apply (triple_ret _ _ (fun _ => phase before (ledgerSequence_ w0) (fun _ => False)))|].
  { intros w ->. eapply phase_weaken; [exact cache_at_start | | by apply phase_start]. done. }
  intros ?. eapply triple_bind; [apply writeLedger_spec|]. intros ?.
  eapply triple_bind.
  { instantiate (1 := fun _ => phase before seq (fun s => (False \/ s = header_stmt) \/
      (object_neighbors_included data = true /\ neighbor_writes s))).
    destruct (object_neighbors_included data) eqn:Hinc.
    - eapply triple_conseq; [by apply included_neighbors_adds | done | | done].
      intros ? w. apply phase_weaken; [done | tauto].
    - apply triple_ret. intros w. apply phase_weaken; [done | naive_solver]. }
  intros ?. eapply triple_bind; [apply write_objects_spec|].
  intros st. apply triple_pre_pure; intros Hcol.
  eapply triple_bind; [rewrite (co_updates _ _ Hcol); apply update_cache_spec|]. intros ?.
  eapply triple_bind.
  { instantiate (1 := fun _ => phase after seq (fun s => s = header_stmt \/ neighbor_writes s \/
      (exists o, o ∈ ledger_objects data /\ obj_writes o s))).
    destruct (object_neighbors_included data) eqn:Hinc; cbn [negb].
    - apply triple_ret. intros w. apply phase_weaken; [done | tauto].
    - eapply triple_conseq; [by apply cached_neighbors_spec | done | | done].
      intros ? w. apply phase_weaken; [done | tauto]. }
  intros ?. eapply triple_bind; [apply insertTransactions_adds|]. intros res.
  eapply triple_bind; [apply writeAccountTransactions_adds|]. intros ?.
  eapply triple_bind; [apply writeNFTs_adds|]. intros ?.
  eapply triple_conseq; [apply writeNFTTransactions_adds | done | | done].
  intros ? w. apply phase_weaken; [done|]. unfold ledger_writes. tauto.
Qed.

(** *** What the writes amount to *)

(** The rest of the ledger: its header and transactions, the keys of its diff. *)
Record ledger_stored (T : Tables) : Prop := {
  st_rest : header_stored (data := data) (info := info) T;
  st_diff : is_Some (c_range w0) -> forall o, o ∈ ledger_objects data ->
    ro_key o ∈ default ∅ (t_diff T !! seq);
}.

Lemma writes_stored T : (forall s, ledger_writes s -> stmt_effect s T) -> ledger_stored T.
Proof.
  intros Heff. split.
  - apply (effects_stored ledger_writes); [by left | | done]. intros txn s Hin Hs.
    right; right; right. by exists txn.
  - intros Hr o Ho. apply (Heff (diff_stmt (info := info) (ro_key o))). right; right; left.
    exists o. split; [done | by right].
Qed.

(** A key whose object changed is in the response. *)
Lemma changed_listed k : Old !! k <> New !! k ->
  exists o, o ∈ ledger_objects data /\ k = lo_key (obj_of o).
Proof.
  intros Hne. destruct (decide (k ∈ (lo_key <$> (obj_of <$> ledger_objects data)))) as [Hin|Hni].
  - apply list_elem_of_fmap in Hin as (y & -> & Hy). apply list_elem_of_fmap in Hy as (o & -> & Ho). eauto.
  - destruct (ds_diff _ _ _ _ Hds) as (_ & _ & Hsame). by rewrite Hsame in Hne.
Qed.

Lemma effects_represent T :
  represents_upto (seq - 1) T0 (L h) -> rows_kept h seq Books T0 T ->
  (forall s, ledger_writes s -> stmt_effect s T) -> represents_upto seq T (L h).
Proof.
  intros Hrep Hk Heff. eapply (represents_next h seq Books Hfirst); [exact Hrep | exact Hk | |].
  - intros k Hv Hne. destruct (changed_listed k Hne) as (o & Ho & ->).
    destruct (obj_key o Ho) as [_ <-]. apply (Heff (obj_stmt (info := info) (ro_key o) (ro_data o))). right; right; left.
    exists o. split; [done | by left].
  - intros x Hx. assert (Old !! x <> New !! x) as Hne.
    { intros He. unfold changed in Hx. rewrite He in Hx. tauto. }
    destruct (changed_listed x Hne) as (o & Ho & ->).
    assert (ro_mod_type o <> MODIFIED) as Hm.
    { rewrite (ds_modified _ _ _ _ Hds o Ho). tauto. }
    split.
    + apply (Heff (succ_stmt (pred_of New (lo_key (obj_of o))))). right; left. left. exists o.
      split_and!; [done | done | by left].
    + intros Hs. apply (Heff (succ_stmt (lo_key (obj_of o)))). right; left. left. exists o.
      split_and!; [done | done | by right].
Qed.

Lemma effects_books T :
  books_upto Books (seq - 1) T0 (L h) -> rows_kept h seq Books T0 T ->
  (forall s, ledger_writes s -> stmt_effect s T) -> books_upto Books seq T (L h).
Proof.
  intros Hb Hk Heff. eapply books_next; [exact Hb | exact Hk | intros b HB; by apply Hbooks |].
  intros b HB Hne. assert (neighbor_writes (if object_neighbors_included data then book_stmt b else succ_stmt b)) as Hn.
  { right. by exists b. }
  assert (ledger_writes (if object_neighbors_included data then book_stmt b else succ_stmt b)) as Hw by (right; by left).
  specialize (Heff _ Hw). by destruct (object_neighbors_included data).
Qed.

(** *** Then the commit *)

Context (Hnr : 0 <= numReadRequestsOutstanding_ w0 < 2 ^ 32) (Hsync : syncInterval_ w0 = 1).
Context (Hrange : forall x, t_ledger_range T0 !! false = Some x -> 0 <= x <= seq).

Lemma write_and_commit_spec :
  triple (fun w => w = w0) (write_ledger ≫= fun _ =>
      success ← finishWrites (H := CassandraImpl fuel uninit) seq; mret (info, success))
    (fun r w => r.1 = info /\ built (tables := tables) (h := h) (Books := Books) (info := info) (w0 := w0)
       after ledger_writes r.2 w)
    (fun e w => rows_kept h seq Books T0 (tables (db w)) /\ (clean h data info c0 -> e = RuntimeError "invalid query")).
Proof.
  eapply triple_bind.
  - eapply triple_conseq; [apply write_ledger_spec | done | done |].
    intros e w [[Hk _] Hcl]. by split.
  - intros ?. eapply triple_bind.
    + eapply triple_conseq; [apply finishWrites_spec; (done || lia) | done | done |].
      intros e w [Hk ->]. by split.
    + intros r. by apply triple_ret.
Qed.

End program.
(** ** The theorem *)

(** [buildNextLedger] is its writes and then the commit. *)
Lemma bind_ext {W A B} (m : M W A) (f g : A -> M W B) w :
  (forall a w, f a w = g a w) -> (m ≫= f) w = (m ≫= g) w.
Proof. intros Hfg. unfold mbind, M_bind. by destruct (m w) as [[a|e|] w']. Qed.

Lemma buildNextLedger_split {D} `{CS : CassSession D} `{CA : CassApi} `{NU : NftUtils} `{R : Ripple}
    `{SC : SerialCodec} fuel uninit data info w :
  deserializeHeader (ledger_header data) = Ok info ->
  buildNextLedger fuel uninit data w =
  (write_ledger fuel uninit data info ≫= fun _ =>
   success ← finishWrites (H := CassandraImpl fuel uninit) (li_seq info); mret (info, success)) w.
Proof.
  intros Hd. unfold buildNextLedger. rewrite Hd. symmetry. unfold write_ledger.
  change (lift_res (Ok info) ≫= ?f) with (f info) at 1. cbv beta.
  repeat (etransitivity; [apply bind_assoc|]; apply bind_ext; intros). reflexivity.
Qed.

(** C4: Building the next ledger. The response describes the ledger [seq] of a
    history whose earlier ledgers, and the first directories of its order books,
    the tables represent; rows of [seq] itself may be left from an attempt that
    failed, if they are right. Either the response includes neighbours or the
    cache supplies them. When [buildNextLedger] returns, however many requests
    failed and were retried, the tables represent the ledgers and books up to
    [seq]; header, diff and transactions are stored; the flag it returns is
    right about the stored range; the cache is at [seq] and as full as before.
    When it throws, the earlier ledgers and books are intact, every row written
    for [seq] is right, and a response without defects (for the cache path: from
    a full cache at [seq - 1]) leaves a rejected query as the only cause. *)
Theorem buildNextLedger_extends {D} `{CS : CassSession D} {tables patience acked}
    `{SL : !SessionLaws tables patience acked} `{CA : CassApi} `{CL : !CassApiLaws} `{NU : NftUtils}
    `{R : Ripple} `{RT : !RippleTotal} `{SC : SerialCodec} (fuel : nat) (uninit : Z) (h : history)
    (Books : Z -> Prop) (data : GetLedgerResponse) (info : LedgerInfo) (w0 : Cass D) :
  let seq := li_seq info in
  describes h Books data info -> book_objects h Books info -> 1 < seq < 2 ^ 32 ->
  L h seq !! firstKey = None ->
  represents_upto (seq - 1) (tables (db w0)) (L h) -> books_upto Books (seq - 1) (tables (db w0)) (L h) ->
  rows_kept h seq Books (tables (db w0)) (tables (db w0)) ->
  (forall x, t_ledger_range (tables (db w0)) !! false = Some x -> 0 <= x <= seq) ->
  (exists ld, reach h (c_cache w0) ld) ->
  (current h (c_cache w0) = seq - 1 \/ disabled_ (c_cache w0) = true) ->
  idle w0 -> (patience (db w0) < fuel)%nat -> 0 <= numReadRequestsOutstanding_ w0 < 2 ^ 32 ->
  syncInterval_ w0 = 1 ->
  triple (fun w => w = w0) (buildNextLedger fuel uninit data)
    (fun r w => r.1 = info /\
       represents_upto seq (tables (db w)) (L h) /\ books_upto Books seq (tables (db w)) (L h) /\
       ledger_stored data info w0 (tables (db w)) /\
       commit_outcome (t_ledger_range (tables (db w0)) !! true) seq (seq - 1) r.2 (tables (db w)) /\
       (exists ld, reach h (c_cache w) ld) /\
       (disabled_ (c_cache w0) = false -> latestLedgerSequence (c_cache w) = seq) /\
       isFull (c_cache w) = isFull (c_cache w0) /\ idle w)
    (fun e w => represents_upto (seq - 1) (tables (db w)) (L h) /\
       books_upto Books (seq - 1) (tables (db w)) (L h) /\
       rows_kept h seq Books (tables (db w0)) (tables (db w)) /\
       (clean h data info (c_cache w0) -> e = RuntimeError "invalid query")).
Proof.
  intros seq Hds Hbo Hseq Hfirst Hrep Hbk Hrows Hrange Hreach Hcur Hidle Hpat Hnr Hsync.
  assert (kept h Books info (tables (db w0)) (tables (db w0))) as Hkept by done.
  pose proof (write_and_commit_spec (SL := SL) (CL := CL) fuel uninit h Books data info w0 Hds Hseq Hidle Hpat
    Hkept Hfirst Hbo Hreach Hcur Hnr Hsync Hrange) as Hmain.
  intros w Hw. rewrite (buildNextLedger_split fuel uninit data info w (ds_header _ _ _ _ Hds)).
  specialize (Hmain w Hw).
  destruct ((write_ledger fuel uninit data info ≫= _) w) as [[r|e|] w']; [| | done].
  - destruct Hmain as (Hr & Heff & Hk & Hout & (Hre & Hf & _ & Hl) & Hi & _).
    split; [done|]. split; [by eapply effects_represent|]. split; [by eapply effects_books|].
    split; [by eapply writes_stored|]. split; [done|]. split; [done|].
    split; [intros Hd; unfold latestLedgerSequence; by rewrite Hl, Hd | done].
  - destruct Hmain as [Hk Hcl]. destruct (kept_earlier h seq Books _ _ Hk) as [H1 H2]. auto.
Qed.

(** ** A ledger with an order book

    Ledger 6 after ledger 5: object 10 is deleted, object 20 is created, and a
    new first directory of a book. The cache is full, so the response comes
    without neighbours. The first ledger is in the tables. *)

Definition book_base : Z := 2 ^ 64 * 5.
Definition dir_blob : Blob := [0; 0; 0x64].
Definition plain_blob : Blob := [0; 0; 1].

Definition old_objects : list (Z * Blob) := [(10, plain_blob); (book_base + 7, dir_blob)].
Definition new_objects : list (Z * Blob) :=
  [(20, plain_blob); (book_base + 3, dir_blob); (book_base + 7, dir_blob)].

Definition book_L (s : Z) : gmap Z Blob :=
  if s <? 5 then ∅ else if s <? 6 then list_to_map old_objects else list_to_map new_objects.

Lemma book_L_all s k b : book_L s !! k = Some b -> valid_key k /\ b <> [].
Proof.
  assert (forall m, bool_decide (map_Forall (fun k b => (0 <= k /\ k < 2 ^ 256) /\ b <> []) (m : gmap Z Blob)) = true ->
    m !! k = Some b -> valid_key k /\ b <> []) as Hall.
  { intros m Hm%bool_decide_eq_true Hk. by apply (Hm k b). }
  unfold book_L. destruct (s <? 5); [|destruct (s <? 6)]; by apply Hall; vm_compute.
Qed.

Definition book_history : history :=
  mkHistory book_L 5 ltac:(done) (fun s k b H => proj2 (book_L_all s k b H))
    (fun s k b H => proj1 (book_L_all s k b H)).

(** Rows of ledger 5 only. *)
Definition at5 (l : list (Z * Blob)) : gmap Blob (gmap Z Blob) :=
  (fun v => {[5 := v]}) <$> (list_to_map ((fun kv => (uint256_bytes kv.1, kv.2)) <$> l) : gmap Blob Blob).

Lemma bytes_map_lookup (l : list (Z * Blob)) k :
  Forall (fun kv => valid_key kv.1) l -> valid_key k ->
  (list_to_map ((fun kv => (uint256_bytes kv.1, kv.2)) <$> l) : gmap Blob Blob) !! uint256_bytes k =
  (list_to_map l : gmap Z Blob) !! k.
Proof.
  intros Hl Hk. induction Hl as [|[x v] l Hx Hl IH]; [done|]. cbn [fmap list_fmap list_to_map foldr fst snd] in *.
  destruct (decide (x = k)) as [->|Hne]; [by rewrite !lookup_insert_eq|].
  rewrite !lookup_insert_ne; [exact IH | done |]. intros He. by apply uint256_bytes_inj in He.
Qed.

Lemma at5_row l q k : table_row k q (at5 l) =
  if decide (q = 5) then (list_to_map ((fun kv => (uint256_bytes kv.1, kv.2)) <$> l) : gmap Blob Blob) !! k else None.
Proof.
  unfold table_row, at5. rewrite lookup_fmap.
  destruct (_ !! k) as [v|]; simpl; [|by case_decide].
  case_decide as Hq; [subst; by rewrite lookup_singleton_eq | by rewrite lookup_singleton_ne].
Qed.

Lemma at5_latest l s k :
  Forall (fun kv => valid_key kv.1) l -> valid_key k -> s <= 5 ->
  latest (uint256_bytes k) s (at5 l) =
  if decide (s = 5) then (fun v => (5, v)) <$> (list_to_map l : gmap Z Blob) !! k else None.
Proof.
  intros Hl Hk Hs. rewrite <- (bytes_map_lookup l k Hl Hk).
  assert (forall s', s' < 5 -> latest (uint256_bytes k) s' (at5 l) = None) as Hlow.
  { intros s' Hs'. unfold latest. apply before_lower_bound_None. intros j Hj.
    change (table_row (uint256_bytes k) j (at5 l) = None). by rewrite at5_row, decide_False by lia. }
  rewrite latest_step, at5_row. case_decide as Heq; [|apply Hlow; lia].
  destruct (_ !! uint256_bytes k); [by subst | apply Hlow; lia].
Qed.

Definition book_successor_rows : list (Z * Blob) :=
  [(firstKey, uint256_bytes 10); (10, uint256_bytes (book_base + 7));
   (book_base + 7, uint256_bytes lastKey); (book_base, uint256_bytes (book_base + 7))].

Definition book_tables : Tables :=
  set_ledger_range {[false := 5; true := 5]}
    (set_successor (at5 book_successor_rows) (set_objects (at5 old_objects) no_tables)).

Lemma old_valid : Forall (fun kv => valid_key kv.1) old_objects.
Proof. repeat constructor; vm_compute; done. Qed.
Lemma successor_valid : Forall (fun kv => valid_key kv.1) book_successor_rows.
Proof. repeat constructor; vm_compute; done. Qed.

Lemma book_represents : represents_upto 5 book_tables book_L.
Proof.
  split.
  - intros s k Hs Hk. cbn [t_objects book_tables set_ledger_range set_successor set_objects].
    rewrite at5_latest by (done || apply old_valid). unfold book_L. case_decide as Heq.
    + subst s. cbn -[list_to_map old_objects]. by destruct (list_to_map old_objects !! k).
    + rewrite (proj2 (Z.ltb_lt s 5)) by lia. done.
  - intros s k Hs Hk. cbn [t_successor book_tables set_ledger_range set_successor set_objects].
    destruct (decide (s = 5)) as [->|Hne].
    + left. exists 5.
      assert (k = firstKey \/ k = 10 \/ k = book_base + 7) as Hcases.
      { destruct Hk as [->|[b Hb]]; [by left|]. right.
        change (book_L 5) with (<[10 := plain_blob]> (<[book_base + 7 := dir_blob]> ∅ : gmap Z Blob)) in Hb.
        apply lookup_insert_Some in Hb as [[<- _]|[_ Hb]]; [by left|].
        apply lookup_insert_Some in Hb as [[<- _]|[_ Hb]]; [by right | done]. }
      rewrite at5_latest; [| apply successor_valid | by destruct Hcases as [->|[-> | ->]]; vm_compute | done].
      destruct Hcases as [->|[-> | ->]]; by vm_compute.
    + assert (book_L s = ∅) as HL by (unfold book_L; by rewrite (proj2 (Z.ltb_lt s 5)) by lia).
      rewrite HL in *. destruct Hk as [->|[b Hb]]; [|done]. right. split; [|by vm_compute].
      rewrite at5_latest; [by rewrite decide_False | apply successor_valid | by vm_compute | done].
Qed.

Lemma book_books : books_upto (eq book_base) 5 book_tables book_L.
Proof.
  intros s b Hs <-. cbn [t_successor book_tables set_ledger_range set_successor set_objects].
  rewrite at5_latest; [| apply successor_valid | by vm_compute | done].
  destruct (decide (s = 5)) as [->|Hne].
  - left. exists 5, (uint256_bytes (book_base + 7)). split; [by vm_compute|]. by vm_compute.
  - right. split; [done|]. unfold book_L. rewrite (proj2 (Z.ltb_lt s 5)) by lia. by vm_compute.
Qed.

Lemma book_rows : rows_kept book_history 6 (eq book_base) book_tables book_tables.
Proof.
  split; [done | done | |]; intros k b _;
    cbn [t_objects t_successor book_tables set_ledger_range set_successor set_objects];
    by rewrite at5_row.
Qed.

(** The response: three objects and a transaction that touches no token. *)
Definition book_header : LedgerInfo := mkLedgerInfo 6 0 0 0 0 0 0 0 0 66.
Definition book_response : GetLedgerResponse :=
  mkGetLedgerResponse (ledgerInfoToBlob book_header true) [mkRawTransaction [1] [2]]
    [mkRawLedgerObject [] (uint256_bytes 10) DELETED [] [];
     mkRawLedgerObject plain_blob (uint256_bytes 20) CREATED [] [];
     mkRawLedgerObject dir_blob (uint256_bytes (book_base + 3)) CREATED [] []] false [].

Definition book_ripple : Ripple :=
  TreeRipple (fun _ => Ok (mkTreeTx (ttOTHER 0) 77 (mkObj sfNewFields [])))
    (fun _ s _ => Ok (mkTreeMeta [] s 0 0)) (fun _ _ => Ok (mkObj sfNewFields [])).

Lemma book_total : @RippleTotal book_ripple.
Proof. by apply TreeTotal. Qed.

Lemma book_old_cases k b : book_L 5 !! k = Some b ->
  (k = 10 /\ b = plain_blob) \/ (k = book_base + 7 /\ b = dir_blob).
Proof.
  change (book_L 5) with (<[10 := plain_blob]> (<[book_base + 7 := dir_blob]> ∅ : gmap Z Blob)).
  intros [[<- <-]|[_ H]]%lookup_insert_Some; [by left|].
  apply lookup_insert_Some in H as [[<- <-]|[_ H]]; [by right | done].
Qed.

Lemma book_new_cases k b : book_L 6 !! k = Some b ->
  (k = 20 /\ b = plain_blob) \/ (k = book_base + 3 /\ b = dir_blob) \/ (k = book_base + 7 /\ b = dir_blob).
Proof.
  change (book_L 6) with (<[20 := plain_blob]> (<[book_base + 3 := dir_blob]>
    (<[book_base + 7 := dir_blob]> ∅ : gmap Z Blob))).
  intros [[<- <-]|[_ H]]%lookup_insert_Some; [by left|].
  apply lookup_insert_Some in H as [[<- <-]|[_ H]]; [by right; left|].
  apply lookup_insert_Some in H as [[<- <-]|[_ H]]; [by right; right | done].
Qed.

Lemma book_diff : is_diff book_history 6 (obj_of <$> ledger_objects book_response).
Proof.
  split_and!.
  - apply (bool_decide_unpack _). by vm_compute.
  - intros o Ho. cbn [fmap list_fmap ledger_objects book_response] in Ho. rewrite !elem_of_cons in Ho.
    destruct Ho as [->|[->|[->|Ho%not_elem_of_nil]]]; [by vm_compute.. | done].
  - intros k Hk. change ((lo_key <$> (obj_of <$> ledger_objects book_response))) with
      [uint256_fromVoid (uint256_bytes 10); uint256_fromVoid (uint256_bytes 20);
       uint256_fromVoid (uint256_bytes (book_base + 3))] in Hk.
    assert (uint256_fromVoid (uint256_bytes 10) = 10) as E1 by (by vm_compute).
    assert (uint256_fromVoid (uint256_bytes 20) = 20) as E2 by (by vm_compute).
    assert (uint256_fromVoid (uint256_bytes (book_base + 3)) = book_base + 3) as E3 by (by vm_compute).
    rewrite E1, E2, E3, !not_elem_of_cons in Hk. destruct Hk as (H1 & H2 & H3 & _).
    change (book_L 6 !! k = book_L 5 !! k).
    change (book_L 5) with (<[10 := plain_blob]> (<[book_base + 7 := dir_blob]> ∅ : gmap Z Blob)).
    change (book_L 6) with (<[20 := plain_blob]> (<[book_base + 3 := dir_blob]>
      (<[book_base + 7 := dir_blob]> ∅ : gmap Z Blob))).
    by rewrite (lookup_insert_ne _ 20), (lookup_insert_ne _ (book_base + 3)), (lookup_insert_ne _ 10).
Qed.

(** Every object of the response was created or deleted. *)
Lemma book_response_changed o : o ∈ ledger_objects book_response ->
  (exists k, valid_key k /\ ro_key o = uint256_bytes k) /\ ro_mod_type o <> MODIFIED /\
  changed book_history 6 (lo_key (obj_of o)) /\
  (ro_mod_type o = DELETED <-> L book_history 6 !! lo_key (obj_of o) = None).
Proof.
  assert (forall k, valid_key k -> lo_key (mkLedgerObject (uint256_fromVoid (uint256_bytes k)) []) = k) as Hk.
  { intros k. apply (uint256_fromVoid_bytes k). }
  cbn [ledger_objects book_response]. rewrite !elem_of_cons.
  intros [->|[->|[->|H%not_elem_of_nil]]]; [| | | done]; (split; [eexists; split; [|reflexivity]; by vm_compute|]);
    (split; [done|]); unfold obj_of, changed; cbn [ro_key lo_key L book_history ro_mod_type];
    cbn [lo_key] in Hk; rewrite Hk by (by vm_compute).
  - assert (book_L 6 !! 10 = None) as -> by (by vm_compute).
    assert (book_L (6 - 1) !! 10 = Some plain_blob) as -> by (by vm_compute).
    split; [|done]. split; [intros _ [] | by eexists]; done.
  - assert (book_L 6 !! 20 = Some plain_blob) as -> by (by vm_compute).
    assert (book_L (6 - 1) !! 20 = None) as -> by (by vm_compute).
    split; [|done]. split; [by intros [] | intros []; by eexists].
  - assert (book_L 6 !! (book_base + 3) = Some dir_blob) as -> by (by vm_compute).
    assert (book_L (6 - 1) !! (book_base + 3) = None) as -> by (by vm_compute).
    split; [|done]. split; [by intros [] | intros []; by eexists].
Qed.

Lemma book_describes : describes (R := book_ripple) book_history (eq book_base) book_response book_header.
Proof.
  split; try done.
  - intros o Ho. by destruct (book_response_changed o Ho) as (? & _).
  - apply book_diff.
  - intros o Ho. destruct (book_response_changed o Ho) as (_ & Hm & Hc & _). naive_solver.
  - intros o Ho _. by destruct (book_response_changed o Ho) as (_ & _ & _ & Hd).
  - intros id r1 r2 (t1 & x1 & H1 & P1 & -> & ->) (t2 & x2 & H2 & P2 & _ & ->).
    apply list_elem_of_singleton in H1 as ->, H2 as ->. done.
Qed.

Lemma book_book_objects : book_objects (R := book_ripple) book_history (eq book_base) book_header.
Proof.
  split; [intros b <-; split; by vm_compute|]. intros k _ Hb blob. cbn [L book_history book_header li_seq].
  intros [[[-> ->]|[-> ->]]%book_old_cases|[[-> ->]|[[-> ->]|[-> ->]]]%book_new_cases];
    by vm_compute in Hb |- *.
Qed.

Definition book_page : list LedgerObject := (fun kv => mkLedgerObject kv.1 kv.2) <$> old_objects.
Definition book_cache : SimpleCache := setFull (update book_page 5 true SimpleCache_init).

Lemma book_reach : exists ld, reach book_history book_cache ld.
Proof.
  exists (∅ ∪ list_to_set (lo_key <$> book_page)).
  eapply rtc_l; [apply (step_page book_history SimpleCache_init ∅ book_page); [done|]|].
  - intros o Ho. apply list_elem_of_fmap in Ho as (kv & -> & Ho). unfold old_objects in Ho.
    rewrite !elem_of_cons in Ho. by destruct Ho as [->|[->|Ho%not_elem_of_nil]]; [vm_compute.. |].
  - apply rtc_once. apply step_full. intros k. cbn [L s0 book_history]. intros [b Hb].
    apply book_old_cases in Hb as [[-> _]|[-> _]]; apply (bool_decide_unpack _); by vm_compute.
Qed.

(** Two requests fail, one of them after it was applied. *)
Definition book_world : Cass MemSession :=
  mkCass (mkMemSession book_tables [(CASS_ERROR_OTHER 1, true); (CASS_OK, false); (CASS_ERROR_SERVER_UNAVAILABLE, false)] [])
    book_cache (Some (mkLedgerRange 5 5)) 1 0 3 0 100 0 0 [].

Lemma buildNextLedger_extends_witness :
  exists w, buildNextLedger (CS := MemCass) (CA := TypedApi) (NU := {| getIssuer := id; getTaxon := id |})
      (R := book_ripple) 9 77 book_response book_world = (Ok (book_header, true), w) /\
    represents_upto 6 (ms_tables (db w)) book_L /\
    books_upto (eq book_base) 6 (ms_tables (db w)) book_L.
Proof.
  pose proof (buildNextLedger_extends (SL := MemCassLaws) (CL := TypedLaws)
    (NU := {| getIssuer := id; getTaxon := id |}) (R := book_ripple) (RT := book_total) 9 77 book_history
    (eq book_base) book_response book_header book_world book_describes book_book_objects ltac:(done)
    ltac:(by vm_compute) book_represents book_books book_rows
    ltac:(intros x Hx; vm_compute in Hx; injection Hx as <-; vm_compute; done) book_reach
    ltac:(left; by vm_compute) ltac:(split_and!; done) ltac:(vm_compute; lia) ltac:(done) eq_refl
    book_world eq_refl) as Ht.
  match type of Ht with match ?m with _ => _ end =>
    assert (Hok : m.1 = Ok (book_header, true)) by (vm_compute; reflexivity);
    destruct m as [o w] end.
  simpl in Hok. subst o. destruct Ht as (_ & H1 & H2 & _).
  exists w. split; [reflexivity | split; [exact H1 | exact H2]].
Defined.
