(* ===== verification/Pipeline.v ===== *)
(** * The threads of the extraction

    [runETLPipeline] of [src/src/etl/ReportingETL.cpp] as a transition system:
    the extractor threads, each with its queue, the transformer thread and the
    function itself, which joins them, under an arbitrary schedule. A step is
    one access to the shared state (a queue, the validated ledgers, the two
    flags); fetching and building a ledger are steps whose outcome the schedule
    chooses ([BuildLedger] is about what building does). *)

From stdpp Require Import base list strings.
From Stdlib Require Import ZArith Lia.
From S2P Require Import Prelude Types ETLHelpers.

Open Scope Z_scope.

(** Where an extractor is: at the test of its loop before and after the wait for
    the network, fetching, at the [push] of the response, at the [push] of the
    empty one, returned. *)
Inductive XPc := XLoop | XCheck | XFetch | XPush | XEnd | XDone.

(** The transformer: at the test of its loop, at the [pop], building, returned. *)
Inductive TPc := TLoop | TPop | TBuild (seq : Z) | TDone.

(** The function: joining the transformer, at a [tryPop], joining the
    extractors, returned. *)
Inductive MPc := MJoin | MTryPop (i : nat) | MJoinAll | MReturn.

#[export] Instance XPc_eq_dec : EqDecision XPc.
Proof. solve_decision. Defined.
#[export] Instance TPc_eq_dec : EqDecision TPc.
Proof. solve_decision. Defined.
#[export] Instance MPc_eq_dec : EqDecision MPc.
Proof. solve_decision. Defined.

Record Extractor := mkExtractor { x_pc : XPc; x_seq : Z }.

(** A queue holds the sequences of responses, or the empty response. [t_seq] is
    the transformer's [currentSequence]; [built] the ledgers built, in order,
    with their success; [validated] the last sequence the network validated. *)
Record Pipe := mkPipe {
  extractors : list Extractor; queues : list (list (option Z));
  t_pc : TPc; t_seq : Z; m_pc : MPc;
  writeConflict : bool; stopping : bool; lastPublishedSequence : option Z;
  built : list (Z * bool); validated : option Z
}.

Inductive PipeEvent :=
| PExtract (i : nat) (fetched : bool)
| PTransform (ok : bool)
| PMain
| PValidate (idx : Z)
| PStop.

Section pipeline.
Context (startSequence : Z) (numExtractors : nat) (finishSequence : option Z).

Definition maxQueueSize : Z := u32 (1000 / Z.of_nat numExtractors).

Definition set_extractor (i : nat) (x : Extractor) (p : Pipe) : Pipe :=
  mkPipe (<[i := x]> (extractors p)) (queues p) (t_pc p) (t_seq p) (m_pc p) (writeConflict p)
    (stopping p) (lastPublishedSequence p) (built p) (validated p).
Definition set_queue (i : nat) (q : list (option Z)) (p : Pipe) : Pipe :=
  mkPipe (extractors p) (<[i := q]> (queues p)) (t_pc p) (t_seq p) (m_pc p) (writeConflict p)
    (stopping p) (lastPublishedSequence p) (built p) (validated p).
Definition set_transformer (pc : TPc) (p : Pipe) : Pipe :=
  mkPipe (extractors p) (queues p) pc (t_seq p) (m_pc p) (writeConflict p)
    (stopping p) (lastPublishedSequence p) (built p) (validated p).
Definition set_main (pc : MPc) (p : Pipe) : Pipe :=
  mkPipe (extractors p) (queues p) (t_pc p) (t_seq p) pc (writeConflict p)
    (stopping p) (lastPublishedSequence p) (built p) (validated p).

(** [getNext]: the queue of a sequence. *)
Definition getNext (sequence : Z) : nat :=
  Z.to_nat (u32 (sequence - startSequence) mod Z.of_nat numExtractors).

Definition past_finish (sequence : Z) : bool :=
  match finishSequence with Some f => f <? sequence | None => false end.

(** What extractor [i] does next with its queue; [None] when it waits or has
    returned. A fetch is empty only when the service stops; otherwise it is tried
    again ([fetched] says which, and there is no step while no node has the
    ledger). *)
Definition extractor_thread (fetched : bool) (p : Pipe) (x : Extractor) (q : list (option Z))
  : option (Extractor * list (option Z)) :=
  let s := x_seq x in
  let room := has_room (mkThreadSafeQueue q (Some maxQueueSize)) in
  match x_pc x with
  | XLoop =>
      if past_finish s then Some (mkExtractor XEnd s, q)
      else if nvl_pred s (mkNetworkValidatedLedgers (validated p)) then Some (mkExtractor XCheck s, q)
      else None
  | XCheck => Some (mkExtractor (if writeConflict p || stopping p then XEnd else XFetch) s, q)
  | XFetch =>
      if fetched then Some (mkExtractor XPush s, q)
      else if stopping p then Some (mkExtractor XEnd s, q)
      else None
  | XPush =>
      if room then
        let s' := u32 (s + Z.of_nat numExtractors) in
        Some (mkExtractor (if past_finish s' then XEnd else XLoop) s', q ++ [Some s])
      else None
  | XEnd => if room then Some (mkExtractor XDone s, q ++ [None]) else None
  | XDone => None
  end.

Definition extractor_step (i : nat) (fetched : bool) (p : Pipe) : option Pipe :=
  x ← extractors p !! i; q ← queues p !! i;
  '(x', q') ← extractor_thread fetched p x q;
  Some (set_extractor i x' (set_queue i q' p)).

(** A step of the transformer; [ok] is the success of the ledger it builds. *)
Definition transformer_step (ok : bool) (p : Pipe) : option Pipe :=
  match t_pc p with
  | TLoop => Some (set_transformer (if writeConflict p then TDone else TPop) p)
  | TPop =>
      let i := getNext (t_seq p) in
      match queues p !! i with
      | Some (r :: q) =>
          let pc := match r with
            | None => TDone
            | Some s => if stopping p then TLoop else TBuild s
            end in
          Some (mkPipe (extractors p) (<[i := q]> (queues p)) pc (u32 (t_seq p + 1)) (m_pc p)
                  (writeConflict p) (stopping p) (lastPublishedSequence p) (built p) (validated p))
      | _ => None
      end
  | TBuild s =>
      Some (mkPipe (extractors p) (queues p) TLoop (t_seq p) (m_pc p) (negb ok) (stopping p)
              (if ok then Some s else lastPublishedSequence p) (built p ++ [(s, ok)]) (validated p))
  | TDone => None
  end.

(** A step of the function: the [join]s wait for the threads to return. *)
Definition main_step (p : Pipe) : option Pipe :=
  match m_pc p with
  | MJoin => if decide (t_pc p = TDone) then Some (set_main (MTryPop 0) p) else None
  | MTryPop i =>
      if (i <? numExtractors)%nat then
        let k := getNext (Z.of_nat i) in
        match queues p !! k with
        | Some q => Some (set_main (MTryPop (S i)) (set_queue k (tail q) p))
        | None => None
        end
      else Some (set_main MJoinAll p)
  | MJoinAll =>
      if decide (Forall (fun x => x_pc x = XDone) (extractors p)) then Some (set_main MReturn p) else None
  | MReturn => None
  end.

Definition pipe_step (e : PipeEvent) (p : Pipe) : option Pipe :=
  match e with
  | PExtract i fetched => extractor_step i fetched p
  | PTransform ok => transformer_step ok p
  | PMain => main_step p
  | PValidate idx =>
      Some (mkPipe (extractors p) (queues p) (t_pc p) (t_seq p) (m_pc p) (writeConflict p) (stopping p)
              (lastPublishedSequence p) (built p)
              (max_ (NetworkValidatedLedgers_push idx (mkNetworkValidatedLedgers (validated p)))))
  | PStop =>
      Some (mkPipe (extractors p) (queues p) (t_pc p) (t_seq p) (m_pc p) (writeConflict p) true
              (lastPublishedSequence p) (built p) (validated p))
  end.

Fixpoint pipe_run (es : list PipeEvent) (p : Pipe) : option Pipe :=
  match es with
  | [] => Some p
  | e :: es' => match pipe_step e p with Some p' => pipe_run es' p' | None => None end
  end.

(** The threads after they were started, and the tests before that. *)
Definition pipe_start : Pipe :=
  mkPipe ((fun i => mkExtractor XLoop (u32 (startSequence + Z.of_nat i))) <$> seq 0 numExtractors)
    (replicate numExtractors []) TLoop startSequence MJoin false false None [] None.

Definition runETLPipeline (rng : option LedgerRange) : Res (option Pipe) :=
  if past_finish startSequence then Ok None
  else
    match rng with
    | None => Throw (RuntimeError "runETLPipeline: parent ledger is null")
    | Some r =>
        if maxSequence r <? u32 (startSequence - 1)
        then Throw (RuntimeError "runETLPipeline: parent ledger is null")
        else if (numExtractors =? 0)%nat then Throw DivisionByZero
        else Ok (Some pipe_start)
    end.

Lemma pipe_run_app es1 es2 p :
  pipe_run (es1 ++ es2) p = match pipe_run es1 p with Some p' => pipe_run es2 p' | None => None end.
Proof. revert p. induction es1 as [|e es1 IH]; intros p; [done|]. simpl. destruct (pipe_step e p); auto. Qed.

End pipeline.

(** ** The order of the ledgers

    Queue [i] holds the ledgers of its extractor that are not yet taken, from the
    first of its residue class at or after [t_seq]. *)

Section order.
Context (startSequence : Z) (numExtractors : nat) (finishSequence : option Z).
Context (Hn : (0 < numExtractors)%nat) (Hstart : 0 <= startSequence)
  (Hwidth : startSequence + Z.of_nat numExtractors <= 2 ^ 32).

Local Abbreviation n := (Z.of_nat numExtractors).
Local Abbreviation getNext := (getNext startSequence numExtractors).
Local Abbreviation past_finish := (past_finish finishSequence).
Local Abbreviation step := (pipe_step startSequence numExtractors finishSequence).
Local Abbreviation run := (pipe_run startSequence numExtractors finishSequence).
Local Abbreviation start := (pipe_start startSequence numExtractors).

Definition next_of (t : Z) (i : nat) : Z := t + (startSequence + Z.of_nat i - t) mod n.

Definition responses (e : Z) (m : nat) : list (option Z) :=
  (fun j => Some (e + Z.of_nat j * n)) <$> List.seq 0 m.

(** A sequence the pipeline may take: not past the last, and validated. *)
Definition seq_ok (v : option Z) (s : Z) : bool :=
  negb (past_finish s) && nvl_pred s (mkNetworkValidatedLedgers v).

Definition halted (p : Pipe) : bool := writeConflict p || stopping p.

Lemma getNext_lt t : (getNext t < numExtractors)%nat.
Proof.
  unfold Pipeline.getNext. pose proof (Z.mod_pos_bound (u32 (t - startSequence)) n ltac:(lia)). lia.
Qed.

Lemma getNext_sub t : startSequence <= t < 2 ^ 32 -> Z.of_nat (getNext t) = (t - startSequence) mod n.
Proof.
  intros. unfold Pipeline.getNext. rewrite u32_small by lia.
  pose proof (Z.mod_pos_bound (t - startSequence) n ltac:(lia)). lia.
Qed.

Lemma next_of_ge t i : t <= next_of t i.
Proof. unfold next_of. pose proof (Z.mod_pos_bound (startSequence + Z.of_nat i - t) n ltac:(lia)). lia. Qed.

Lemma next_of_getNext t : startSequence <= t < 2 ^ 32 -> next_of t (getNext t) = t.
Proof.
  intros Ht. unfold next_of. rewrite getNext_sub by done.
  replace (startSequence + _ - t) with ((t - startSequence) mod n - (t - startSequence)) by lia.
  rewrite Zminus_mod, Zmod_mod, Z.sub_diag, Zmod_0_l. lia.
Qed.

Lemma next_of_succ t : startSequence <= t < 2 ^ 32 -> next_of (t + 1) (getNext t) = t + n.
Proof.
  intros Ht. unfold next_of. rewrite getNext_sub by done.
  replace (startSequence + _ - (t + 1)) with ((t - startSequence) mod n - (t - startSequence) + -1) by lia.
  set (a := t - startSequence). rewrite (Z.mod_eq a n) by lia.
  rewrite <- (Z.mod_unique (a - n * (a / n) - a + -1) n (- (a / n) - 1) (n - 1)); lia.
Qed.

Lemma next_of_other t i :
  startSequence <= t < 2 ^ 32 -> (i < numExtractors)%nat -> i <> getNext t -> next_of (t + 1) i = next_of t i.
Proof.
  intros Ht Hi Hne. unfold next_of.
  set (a := startSequence + Z.of_nat i - t).
  replace (startSequence + Z.of_nat i - (t + 1)) with (a - 1) by lia.
  pose proof (Z.mod_pos_bound a n ltac:(lia)).
  assert (a mod n <> 0) as Hz.
  { intros Hz. apply Hne, Nat2Z.inj. rewrite getNext_sub by done.
    replace (t - startSequence) with (Z.of_nat i - a) by lia.
    rewrite Zminus_mod, Hz, Z.sub_0_r, Zmod_mod, Z.mod_small; lia. }
  rewrite (Z.div_mod a n) at 1 by lia.
  rewrite <- (Z.mod_unique (n * (a / n) + a mod n - 1) n (a / n) (a mod n - 1)); lia.
Qed.

Lemma responses_snoc e m : responses e (S m) = responses e m ++ [Some (e + Z.of_nat m * n)].
Proof. unfold responses. rewrite seq_S, fmap_app. done. Qed.

Lemma responses_cons e m : responses e (S m) = Some e :: responses (e + n) m.
Proof.
  unfold responses. cbn [List.seq fmap list_fmap]. f_equal; [f_equal; lia|].
  rewrite <- seq_shift, <- list_fmap_compose. apply list_fmap_ext. intros ? ? _. simpl. f_equal. lia.
Qed.

Definition fetching (pc : XPc) : bool := match pc with XCheck | XFetch | XPush => true | _ => false end.
Definition ending (pc : XPc) : bool := match pc with XEnd | XDone => true | _ => false end.

(** Extractor [i] with its queue, when [t] is the next sequence to be taken. *)
Definition thread_ok (t : Z) (p : Pipe) (i : nat) (x : Extractor) (q : list (option Z)) : Prop :=
  exists m, q = responses (next_of t i) m ++ (if decide (x_pc x = XDone) then [None] else []) /\
    x_seq x = next_of t i + Z.of_nat m * n /\
    (forall j, (j < m)%nat -> seq_ok (validated p) (next_of t i + Z.of_nat j * n) = true) /\
    (fetching (x_pc x) = true -> seq_ok (validated p) (x_seq x) = true) /\
    (ending (x_pc x) = true -> past_finish (x_seq x) = true \/ halted p = true).

(** The same when the transformer has met the empty response. *)
Definition drained (x : Extractor) (q : list (option Z)) : Prop :=
  past_finish (x_seq x) = true /\ match x_pc x with XLoop | XEnd => q = [] | XDone => (length q <= 1)%nat | _ => False end.

Definition each (P : nat -> Extractor -> list (option Z) -> Prop) (p : Pipe) : Prop :=
  forall i x q, extractors p !! i = Some x -> queues p !! i = Some q -> P i x q.

(** [b] ledgers were built, and one more failed when there is a conflict. *)
Record built_to (b : nat) (p : Pipe) : Prop := {
  bt_built : built p = ((fun j : nat => (startSequence + Z.of_nat j, true)) <$> List.seq 0 b) ++
    (if writeConflict p then [(startSequence + Z.of_nat b, false)] else []);
  bt_last : lastPublishedSequence p =
    match b with O => None | S c => Some (startSequence + Z.of_nat c) end;
  bt_ok : Forall (fun l => seq_ok (validated p) l.1 = true) (built p);
  bt_pc : match t_pc p with
    | TLoop => halted p = false -> t_seq p = startSequence + Z.of_nat b
    | TPop => writeConflict p = false /\ (stopping p = false -> t_seq p = startSequence + Z.of_nat b)
    | TBuild s => writeConflict p = false /\ s = startSequence + Z.of_nat b /\
        seq_ok (validated p) s = true /\ t_seq p = s + 1
    | TDone => halted p = false -> past_finish (startSequence + Z.of_nat b) = true
    end
}.

Record pipe_inv (p : Pipe) : Prop := {
  pi_extractors : length (extractors p) = numExtractors;
  pi_queues : length (queues p) = numExtractors;
  pi_width : forall v, validated p = Some v -> v + n < 2 ^ 32;
  pi_running : t_pc p <> TDone ->
    m_pc p = MJoin /\ startSequence <= t_seq p < 2 ^ 32 /\ each (thread_ok (t_seq p) p) p;
  pi_built : exists b, built_to b p;
  pi_drained : t_pc p = TDone -> halted p = false -> each (fun _ => drained) p
}.

Lemma seq_ok_iff v s :
  seq_ok v s = true <-> past_finish s = false /\ exists m, v = Some m /\ s <= m.
Proof.
  unfold seq_ok, nvl_pred. rewrite andb_true_iff, negb_true_iff. cbn [max_].
  destruct v as [m|]; [rewrite Z.leb_le; naive_solver | naive_solver].
Qed.

Lemma seq_ok_width p s : (forall v, validated p = Some v -> v + n < 2 ^ 32) ->
  seq_ok (validated p) s = true -> s + n < 2 ^ 32.
Proof. intros Hv (_ & m & Hm & ?)%seq_ok_iff. specialize (Hv m Hm). lia. Qed.

Lemma past_finish_mono s s' : past_finish s = true -> s <= s' -> past_finish s' = true.
Proof. unfold Pipeline.past_finish. destruct finishSequence; [|done]. rewrite !Z.ltb_lt. lia. Qed.

Lemma extractor_thread_ok fetched p i x q x' q' :
  pipe_inv p -> 0 <= t_seq p -> thread_ok (t_seq p) p i x q ->
  extractor_thread numExtractors finishSequence fetched p x q = Some (x', q') ->
  thread_ok (t_seq p) p i x' q'.
Proof.
  intros Hp Ht0 (m & -> & Hs & Hm & Hc & He) Ht. destruct x as [pc s].
  pose proof (next_of_ge (t_seq p) i).
  assert (Hu : fetching pc = true -> 0 <= s + n < 2 ^ 32).
  { intros Hf. pose proof (seq_ok_width p s (pi_width p Hp) (Hc Hf)). cbn [x_seq] in Hs. lia. }
  assert (Hm' : fetching pc = true -> forall j, (j < S m)%nat ->
    seq_ok (validated p) (next_of (t_seq p) i + Z.of_nat j * n) = true).
  { intros Hf j Hj. cbn [x_seq] in Hs. destruct (decide (j = m)) as [->|]; [|apply Hm; lia].
    rewrite <- Hs. by apply Hc. }
  unfold extractor_thread in Ht. cbn [x_seq x_pc] in *. unfold thread_ok.
  destruct pc; cbn [fetching ending] in Hc, He; repeat case_match; simplify_eq; cbn [x_seq x_pc];
    rewrite ?decide_False, ?app_nil_r in * by done;
    try (exists m; rewrite ?decide_False, ?app_nil_r by done; cbn [fetching ending]; split_and!; auto; fail).
  - exists m. rewrite app_nil_r. split_and!; auto; try done. intros _. apply seq_ok_iff.
    unfold nvl_pred in *. cbn [max_] in *. case_match; [|done]. split; [done|]. eexists. split; [done|]. by apply Z.leb_le.
  - exists m. rewrite app_nil_r. split_and!; auto; try done. intros _. right. unfold halted.
    apply orb_true_iff. by right.
  - exists (S m). rewrite responses_snoc, app_nil_r. rewrite u32_small in * by (by apply Hu).
    split_and!; [done|lia|by apply Hm'|done|by left].
  - exists (S m). rewrite responses_snoc, app_nil_r. rewrite u32_small in * by (by apply Hu).
    split_and!; [done|lia|by apply Hm'|done|done].
Qed.

Lemma extractor_thread_drained fetched p x q x' q' :
  drained x q -> extractor_thread numExtractors finishSequence fetched p x q = Some (x', q') -> drained x' q'.
Proof.
  intros [Hf Hd] Ht. destruct x as [pc s]. unfold extractor_thread in Ht. unfold drained in *. cbn [x_seq x_pc] in *.
  destruct pc; try done; rewrite ?Hf in Ht; repeat case_match; simplify_eq; done.
Qed.

Lemma each_set (P : nat -> Extractor -> list (option Z) -> Prop) p i x q :
  each P p -> P i x q -> each P (set_extractor i x (set_queue i q p)).
Proof.
  intros H HP j y r. cbn [extractors queues set_extractor set_queue]. rewrite !list_lookup_insert_Some.
  intros [(<- & <- & _)|[Hne Hy]] [(? & <- & _)|[? Hr]]; simplify_eq; try done. by apply H.
Qed.

Lemma extractor_step_inv i fetched p p' :
  pipe_inv p -> extractor_step numExtractors finishSequence i fetched p = Some p' -> pipe_inv p'.
Proof.
  intros Hp Hs. unfold extractor_step in Hs.
  destruct (extractors p !! i) as [x|] eqn:Hx; [|done]. destruct (queues p !! i) as [q|] eqn:Hq; [|done].
  cbn [mbind option_bind] in Hs. destruct (extractor_thread _ _ _ _ _ _) as [[x' q']|] eqn:Ht; [|done].
  injection Hs as <-. destruct Hp as [H1 H2 H3 H4 (b & [Hb1 Hb2 Hb3 Hb4]) H6] eqn:Hinv. split.
  - cbn. by rewrite length_insert.
  - cbn. by rewrite length_insert.
  - done.
  - intros Hpc. destruct (H4 Hpc) as (Hm & Hseq & He). split_and!; [done|cbn; lia..|].
    apply each_set; [done|]. apply (extractor_thread_ok fetched p i x q x' q'); [done|lia|by apply He|done].
  - exists b. by split.
  - intros Hpc Hh. apply each_set; [by apply H6|].
    apply (extractor_thread_drained fetched p x q); [by eapply H6|done].
Qed.

(** A pop of the next sequence [t]: what it returns, and what is left. *)
Lemma pop_response p q r :
  pipe_inv p -> t_pc p <> TDone -> queues p !! getNext (t_seq p) = Some (r :: q) ->
  match r with
  | Some s => s = t_seq p /\ seq_ok (validated p) s = true /\ forall p',
      extractors p' = extractors p -> queues p' = <[getNext (t_seq p) := q]> (queues p) ->
      validated p' = validated p -> halted p' = halted p -> each (thread_ok (t_seq p + 1) p') p'
  | None => halted p = false -> past_finish (t_seq p) = true /\ forall p',
      extractors p' = extractors p -> queues p' = <[getNext (t_seq p) := q]> (queues p) ->
      each (fun _ => drained) p'
  end.
Proof.
  intros Hp Hpc Hq. destruct (pi_running p Hp Hpc) as (_ & Hseq & He).
  pose proof (getNext_lt (t_seq p)) as Hi.
  destruct (lookup_lt_is_Some_2 (extractors p) (getNext (t_seq p))) as [x Hx]; [by rewrite (pi_extractors p Hp)|].
  destruct (He _ _ _ Hx Hq) as (m & Heq & Hs & Hm & Hc & Hend). rewrite next_of_getNext in * by done.
  destruct m as [|m].
  - cbn [responses List.seq fmap list_fmap app] in Heq. case_decide as Hdone; [|done]. injection Heq as -> ->.
    intros Hh. rewrite Hdone in Hend. destruct (Hend eq_refl) as [Hpast|]; [|congruence].
    replace (x_seq x) with (t_seq p) in Hpast by lia. split; [done|].
    intros p' Hxs Hqs j y ry. rewrite Hxs, Hqs. intros Hy Hry.
    apply list_lookup_insert_Some in Hry as [(<- & <- & _)|[Hne Hry]].
    + simplify_eq. unfold drained. rewrite Hdone, Hs. split; [|cbn; lia]. by replace (t_seq p + Z.of_nat 0 * n) with (t_seq p) by lia.
    + destruct (He _ _ _ Hy Hry) as (m & -> & Hs' & Hm' & Hc' & _). pose proof (next_of_ge (t_seq p) j).
      assert (Hall : forall s, t_seq p <= s -> seq_ok (validated p) s <> true).
      { intros s Hle (Hs0 & _)%seq_ok_iff. rewrite (past_finish_mono _ _ Hpast Hle) in Hs0. done. }
      destruct m as [|m]; [|by destruct (Hall (next_of (t_seq p) j + Z.of_nat 0 * n)); [lia|apply Hm'; lia]].
      unfold drained. split; [apply (past_finish_mono _ _ Hpast); lia|].
      destruct (x_pc y); try (by apply (Hall (x_seq y)); [lia|auto]); rewrite ?decide_False by done; [done..|].
      rewrite decide_True by done. cbn. lia.
  - rewrite responses_cons in Heq. injection Heq as -> ->. split; [done|]. split.
    { specialize (Hm 0%nat ltac:(lia)). by replace (t_seq p + Z.of_nat 0 * n) with (t_seq p) in Hm by lia. }
    intros p' Hxs Hqs Hv Hh j y ry. rewrite Hxs, Hqs. intros Hy Hry.
    apply list_lookup_insert_Some in Hry as [(<- & <- & _)|[Hne Hry]].
    + simplify_eq. exists m. rewrite next_of_succ, Hv, Hh by done. split_and!; try done; [lia|].
      intros j Hj. replace (t_seq p + n + Z.of_nat j * n) with (t_seq p + Z.of_nat (S j) * n) by lia. apply Hm. lia.
    + assert (j < numExtractors)%nat.
      { rewrite <- (pi_extractors p Hp). by eapply lookup_lt_Some. }
      destruct (He _ _ _ Hy Hry) as (m' & ? & ? & ? & ? & ?). exists m'.
      rewrite next_of_other, Hv, Hh by done. done.
Qed.

Lemma transformer_step_inv ok p p' :
  pipe_inv p -> transformer_step startSequence numExtractors ok p = Some p' -> pipe_inv p'.
Proof.
  intros Hp Hs. pose proof (pi_built p Hp) as (b & [Hb1 Hb2 Hb3 Hb4]).
  unfold transformer_step in Hs. destruct (t_pc p) as [| |s|] eqn:Hpc; [..|done].
  - injection Hs as <-. destruct Hp as [H1 H2 H3 H4 H5 H6]. rewrite Hpc in H4. split; try done.
    + intros _. by apply H4.
    + exists b. split; try done. cbn. destruct (writeConflict p) eqn:Hc; [unfold halted; cbn; by rewrite Hc|].
      split; [done|]. intros. apply Hb4. unfold halted. by rewrite Hc.
    + cbn. unfold halted. cbn. destruct (writeConflict p); done.
  - pose proof (getNext_lt (t_seq p)) as Hi.
    destruct (queues p !! getNext (t_seq p)) as [[|r q]|] eqn:Hq; [done| |done]. injection Hs as <-.
    assert (Hnd : t_pc p <> TDone) by congruence.
    pose proof (pop_response p q r Hp Hnd Hq) as Hr. destruct (pi_running p Hp Hnd) as (Hm & Hseq & _).
    destruct Hp as [H1 H2 H3 H4 H5 H6]. destruct Hb4 as [Hwc Hb4]. destruct r as [s|].
    + destruct Hr as (-> & Hok & He).
      assert (t_seq p + n < 2 ^ 32).
      { apply seq_ok_iff in Hok as (_ & v & Hv & ?). specialize (H3 v Hv). lia. }
      rewrite u32_small by lia. split.
      * done.
      * cbn. by rewrite length_insert.
      * done.
      * intros _. cbn. split_and!; [done|lia..|]. by apply He.
      * exists b. split; try done. cbn. destruct (stopping p) eqn:Hst.
        -- unfold halted. cbn. by rewrite orb_true_r.
        -- split_and!; [done|by apply Hb4|done|done].
      * cbn. destruct (stopping p); done.
    + split; try done.
      * cbn. by rewrite length_insert.
      * exists b. split; try done. cbn. unfold halted. cbn. rewrite Hwc. intros Hst. cbn in Hst.
        rewrite <- Hb4 by done. apply Hr. unfold halted. by rewrite Hwc, Hst.
      * intros _ Hh. by apply Hr.
  - injection Hs as <-. destruct Hp as [H1 H2 H3 H4 H5 H6]. rewrite Hpc in H4. destruct Hb4 as (Hwc & -> & Hok & Ht).
    rewrite Hwc, app_nil_r in Hb1. split; try done.
    + intros _. destruct (H4 ltac:(done)) as (Hm & Hseq & He). split_and!; [done|cbn; lia..|].
      intros i x q Hx Hq. destruct (He i x q Hx Hq) as (m & ? & ? & ? & ? & Hend). exists m. split_and!; try done.
      intros Hx'. destruct (Hend Hx') as [|Hh]; [by left|]. unfold halted in *. cbn. rewrite Hwc in Hh. cbn in Hh.
      right. rewrite Hh. apply orb_true_r.
    + destruct ok; [exists (S b)|exists b].
      * split; cbn -[List.seq]; [|done| |].
        -- rewrite Hb1, seq_S, fmap_app, app_nil_r. done.
        -- apply Forall_app. split; [done|]. by apply Forall_singleton.
        -- intros _. lia.
      * split; cbn; [|done| |done].
        -- by rewrite Hb1.
        -- apply Forall_app. split; [done|]. by apply Forall_singleton.
Qed.

Lemma main_step_inv p p' :
  pipe_inv p -> main_step startSequence numExtractors p = Some p' -> pipe_inv p'.
Proof.
  intros Hp Hs. destruct Hp as [H1 H2 H3 H4 (b & [Hb1 Hb2 Hb3 Hb4]) H6].
  assert (Hdone : t_pc p = TDone).
  { destruct (decide (t_pc p = TDone)) as [|Hnd]; [done|]. destruct (H4 Hnd) as (Hm & _). unfold main_step in Hs.
    rewrite Hm in Hs. by case_decide. }
  assert (Hmove : forall pc, pipe_inv (set_main pc p)).
  { intros pc. split; try done. by exists b. }
  unfold main_step in Hs. destruct (m_pc p) as [|i| |]; [by case_decide; simplify_eq| | |done].
  - destruct (i <? numExtractors)%nat; [|by injection Hs as <-].
    destruct (queues p !! _) as [q|] eqn:Hq; [|done]. injection Hs as <-. split; try done.
    + cbn. by rewrite length_insert.
    + by exists b.
    + intros _ Hh j x r Hx Hr. cbn in Hx, Hr. apply list_lookup_insert_Some in Hr as [(<- & <- & _)|[_ Hr]].
      * destruct (H6 Hdone Hh _ _ _ Hx Hq) as [Hf Hd]. split; [done|].
        destruct (x_pc x); try done; [by rewrite Hd..|]. destruct q; cbn in *; lia.
      * by eapply H6.
  - by case_decide; simplify_eq.
Qed.

Definition in_width (e : PipeEvent) : Prop :=
  match e with PValidate idx => idx + n < 2 ^ 32 | _ => True end.

Lemma pipe_step_inv e p p' : in_width e -> pipe_inv p -> step e p = Some p' -> pipe_inv p'.
Proof.
  intros He Hp Hs. destruct e as [i fetched|ok| |idx|]; cbn [pipe_step] in Hs.
  - by eapply extractor_step_inv.
  - by eapply transformer_step_inv.
  - by eapply main_step_inv.
  - injection Hs as <-. destruct Hp as [H1 H2 H3 H4 (b & [Hb1 Hb2 Hb3 Hb4]) H6].
    set (v' := max_ _).
    assert (Hv' : forall s, seq_ok (validated p) s = true -> seq_ok v' s = true).
    { intros s (? & v & Hv & ?)%seq_ok_iff. apply seq_ok_iff. split; [done|]. unfold v', NetworkValidatedLedgers_push.
      rewrite Hv. cbn [max_]. destruct (Z.gtb_spec idx v); [exists idx | exists v]; split; try done. lia. }
    split; try done.
    + intros v Hv. unfold v', NetworkValidatedLedgers_push in Hv. cbn [max_] in Hv.
      destruct (validated p) as [w|] eqn:Hw; [destruct (idx >? w)|]; cbn in Hv; injection Hv as <-; [done|by apply H3|done].
    + intros Hpc. destruct (H4 Hpc) as (? & ? & Heach). split_and!; [done|cbn; lia..|]. intros i x q Hx Hq.
      destruct (Heach i x q Hx Hq) as (m & ? & ? & ? & ? & ?). exists m. split_and!; auto.
    + exists b. split; [done..| |].
      * eapply Forall_impl; [exact Hb3|]. intros l Hl. by apply Hv'.
      * cbn. destruct (t_pc p); try done. destruct Hb4 as (? & ? & ? & ?). auto.
  - injection Hs as <-. destruct Hp as [H1 H2 H3 H4 (b & [Hb1 Hb2 Hb3 Hb4]) H6].
    assert (Hhalt : halted (mkPipe (extractors p) (queues p) (t_pc p) (t_seq p) (m_pc p) (writeConflict p) true
              (lastPublishedSequence p) (built p) (validated p)) = true) by apply orb_true_r.
    split; try done.
    + intros Hpc. destruct (H4 Hpc) as (? & ? & Heach). split_and!; [done|cbn; lia..|]. intros i x q Hx Hq.
      destruct (Heach i x q Hx Hq) as (m & ? & ? & ? & ? & ?). exists m. split_and!; auto.
    + exists b. split; [done..|]. cbn [t_pc t_seq stopping validated]. rewrite Hhalt.
      destruct (t_pc p); try done. destruct Hb4. done.
    + intros _. by rewrite Hhalt.
Qed.

Lemma pipe_run_inv es p p' : Forall in_width es -> pipe_inv p -> run es p = Some p' -> pipe_inv p'.
Proof.
  intros Hes. revert p. induction Hes as [|e es He _ IH]; intros p Hp; cbn [pipe_run].
  - by injection 1 as <-.
  - destruct (step e p) as [p1|] eqn:Hs; [|done]. apply IH. by eapply pipe_step_inv.
Qed.

Lemma pipe_start_inv : pipe_inv start.
Proof.
  split; try done.
  - cbn. by rewrite length_fmap, length_seq.
  - cbn. by rewrite length_replicate.
  - intros _. split_and!; [done|cbn; lia..|]. intros i x q Hx Hq. cbn in Hx, Hq.
    apply list_lookup_fmap_Some in Hx as (j & -> & Hj). apply lookup_seq in Hj as [-> Hlt].
    apply lookup_replicate in Hq as [-> _]. exists 0%nat. cbn [x_pc x_seq t_seq pipe_start Nat.add].
    unfold next_of. replace (startSequence + Z.of_nat i - startSequence) with (Z.of_nat i) by lia.
    rewrite Z.mod_small, u32_small by lia. split_and!; try done; lia.
  - exists 0%nat. split; try done. intros _. cbn. lia.
Qed.

(** C8: The ledgers are built one by one in the order of their sequences from
    the first, whatever the number of extractors and the schedule of the threads:
    every one successful but, on a write conflict, the last. The function's
    result is the last successful one, and none is built that the network has not
    validated or that is past the last to be built. *)
Theorem pipeline_order es p :
  Forall in_width es -> run es start = Some p ->
  exists b, built p = ((fun j : nat => (startSequence + Z.of_nat j, true)) <$> List.seq 0 b) ++
      (if writeConflict p then [(startSequence + Z.of_nat b, false)] else []) /\
    lastPublishedSequence p = match b with O => None | S c => Some (startSequence + Z.of_nat c) end /\
    Forall (fun l => past_finish l.1 = false /\ exists v, validated p = Some v /\ l.1 <= v) (built p).
Proof.
  intros Hes Hrun. pose proof (pipe_run_inv es _ _ Hes pipe_start_inv Hrun) as Hp.
  destruct (pi_built p Hp) as (b & [Hb1 Hb2 Hb3 _]). exists b. split_and!; [done..|].
  eapply Forall_impl; [exact Hb3|]. intros l. apply seq_ok_iff.
Qed.

Lemma extractor_stuck i p x q :
  extractors p !! i = Some x -> queues p !! i = Some q -> (forall f, step (PExtract i f) p = None) -> q = [] ->
  x_pc x = XDone \/
  x_pc x = XLoop /\ past_finish (x_seq x) = false /\ nvl_pred (x_seq x) (mkNetworkValidatedLedgers (validated p)) = false.
Proof.
  intros Hx Hq Hs ->. specialize (Hs true). cbn [pipe_step] in Hs. unfold extractor_step in Hs.
  rewrite Hx, Hq in Hs. cbn [mbind option_bind] in Hs. unfold extractor_thread in Hs.
  assert (Hroom : has_room (mkThreadSafeQueue (@nil (option Z)) (Some (maxQueueSize numExtractors))) = true).
  { unfold has_room, maxQueueSize. apply Z.leb_le, u32_bound. }
  rewrite Hroom in Hs. destruct (x_pc x); try done; [|by left].
  right. destruct (past_finish _); [done|]. by destruct (nvl_pred _ _).
Qed.

(** C9: Without a write conflict and a stop the threads never wait for each
    other in a circle. When none of them can take a step, either the function has
    returned and every ledger up to the last was built, or the transformer waits
    for the first ledger that is not built, which the network has not validated. *)
Theorem pipeline_progress es p :
  Forall in_width es -> run es start = Some p -> writeConflict p = false -> stopping p = false ->
  (forall i f, step (PExtract i f) p = None) -> (forall ok, step (PTransform ok) p = None) -> step PMain p = None ->
  exists b, built p = (fun j : nat => (startSequence + Z.of_nat j, true)) <$> List.seq 0 b /\
    (m_pc p = MReturn /\ past_finish (startSequence + Z.of_nat b) = true \/
     t_pc p = TPop /\ past_finish (startSequence + Z.of_nat b) = false /\
       nvl_pred (startSequence + Z.of_nat b) (mkNetworkValidatedLedgers (validated p)) = false).
Proof.
  intros Hes Hrun Hwc Hst Hx Ht Hmain. pose proof (pipe_run_inv es _ _ Hes pipe_start_inv Hrun) as Hp.
  destruct (pi_built p Hp) as (b & [Hb1 _ _ Hb4]). exists b. rewrite Hwc, app_nil_r in Hb1. split; [done|].
  assert (Hh : halted p = false) by (unfold halted; by rewrite Hwc, Hst).
  specialize (Ht true). cbn [pipe_step] in Ht, Hmain. unfold transformer_step in Ht.
  destruct (t_pc p) eqn:Hpc; try done.
  - right. destruct Hb4 as [_ Hseq]. specialize (Hseq Hst). rewrite <- Hseq. split; [done|].
    destruct (pi_running p Hp ltac:(congruence)) as (_ & Hbound & He).
    pose proof (getNext_lt (t_seq p)) as Hi.
    destruct (lookup_lt_is_Some_2 (extractors p) (getNext (t_seq p))) as [x Hlx]; [by rewrite (pi_extractors p Hp)|].
    destruct (lookup_lt_is_Some_2 (queues p) (getNext (t_seq p))) as [q Hlq]; [by rewrite (pi_queues p Hp)|].
    rewrite Hlq in Ht. destruct q; [|done].
    destruct (He _ _ _ Hlx Hlq) as (m & Hq & Hs & _). rewrite next_of_getNext in Hs by done.
    symmetry in Hq. apply app_nil in Hq as [Hm Hd]. destruct m; [|by rewrite responses_cons in Hm].
    replace (t_seq p) with (x_seq x) by lia.
    destruct (extractor_stuck _ _ _ _ Hlx Hlq (Hx _) eq_refl) as [Hdone|(_ & ? & ?)]; [|done].
    by rewrite decide_True in Hd.
  - left. split; [|by apply Hb4]. unfold main_step in Hmain. destruct (m_pc p); try done.
    + by rewrite decide_True in Hmain.
    + destruct (_ <? _)%nat; [|done].
      destruct (lookup_lt_is_Some_2 (queues p) (getNext (Z.of_nat i))) as [q Hlq];
        [by rewrite (pi_queues p Hp); apply getNext_lt|]. by rewrite Hlq in Hmain.
    + rewrite decide_True in Hmain; [done|]. apply Forall_lookup. intros i x Hlx.
      destruct (lookup_lt_is_Some_2 (queues p) i) as [q Hlq].
      { rewrite (pi_queues p Hp), <- (pi_extractors p Hp). by eapply lookup_lt_Some. }
      destruct (pi_drained p Hp Hpc Hh _ _ _ Hlx Hlq) as [Hf Hd].
      destruct (x_pc x) eqn:Hxpc; try done.
      all: destruct (extractor_stuck _ _ _ _ Hlx Hlq (Hx _) Hd) as [|(? & ? & ?)]; congruence.
Qed.

End order.

(** ** A run that never returns

    One extractor far ahead of the transformer. It waits at a [push] on its full
    queue when the transformer meets a write conflict and returns. The one
    [tryPop] lets it finish that [push]; then it sees the conflict, and its last
    [push], of the empty response, waits for room that nobody makes. *)

Definition rounds (n : nat) : list PipeEvent :=
  concat (replicate n [PExtract 0 true; PExtract 0 true; PExtract 0 true; PExtract 0 true]).

Definition conflict_schedule : list PipeEvent :=
  PValidate 5000 :: rounds 1 ++ [PTransform true; PTransform true] ++ rounds 1001 ++
  [PExtract 0 true; PExtract 0 true; PExtract 0 true; PTransform false; PTransform true; PMain; PMain; PMain;
   PExtract 0 true; PExtract 0 true; PExtract 0 true].

Definition hung (p : Pipe) : Prop :=
  (exists s, extractors p = [mkExtractor XEnd s]) /\ (exists q, queues p = [q] /\ length q = 1001%nat) /\
  t_pc p = TDone /\ m_pc p = MJoinAll.

Lemma hung_step e p p' : hung p -> pipe_step 10 1 None e p = Some p' -> hung p'.
Proof.
  intros [[s Hx] [[q [Hq Hl]] [Ht Hm]]] Hs. destruct e as [i fetched|ok| |idx|]; cbn [pipe_step] in Hs.
  - unfold extractor_step in Hs. rewrite Hx, Hq in Hs. destruct i; [|done].
    cbn [list_lookup lookup mbind option_bind] in Hs. unfold extractor_thread in Hs. cbn [x_pc x_seq] in Hs.
    unfold has_room in Hs. cbn [maxSize_ queue_] in Hs. by rewrite Hl in Hs.
  - unfold transformer_step in Hs. by rewrite Ht in Hs.
  - unfold main_step in Hs. rewrite Hm, Hx in Hs. case_decide as Hd; [|done].
    by rewrite Forall_singleton in Hd.
  - injection Hs as <-. unfold hung. cbn. eauto 10.
  - injection Hs as <-. unfold hung. cbn. eauto 10.
Qed.

Lemma hung_run es p p' : hung p -> pipe_run 10 1 None es p = Some p' -> hung p'.
Proof.
  revert p. induction es as [|e es IH]; intros p Hp; cbn [pipe_run]; [by injection 1 as <-|].
  destruct (pipe_step 10 1 None e p) as [p1|] eqn:Hs; [|done]. apply IH. by eapply hung_step.
Qed.

(** With a write conflict the function need not return: there is a run, of one
    extractor and without a last ledger, after which the transformer has stopped at a write conflict and
    the function waits for the extractor, and whatever happens from then on, even
    a stop of the service, it does not return. *)
Theorem pipeline_hangs :
  exists es p, pipe_run 10 1 None es (pipe_start 10 1) = Some p /\
    writeConflict p = true /\ t_pc p = TDone /\ m_pc p = MJoinAll /\
    forall es' p', pipe_run 10 1 None es' p = Some p' -> m_pc p' <> MReturn.
Proof.
  exists conflict_schedule. destruct (pipe_run 10 1 None conflict_schedule (pipe_start 10 1)) as [p|] eqn:Hr.
  2: { vm_compute in Hr. done. }
  exists p. split; [done|]. assert (Hh : writeConflict p = true /\ hung p).
  { vm_compute in Hr. injection Hr as <-. split; [done|]. unfold hung. cbn [extractors queues t_pc m_pc].
    split; [by eexists|]. split; [|done]. eexists. split; reflexivity. }
  destruct Hh as [Hc Hh]. split_and!; [done|by apply Hh..|]. intros es' p' Hr'.
  pose proof (hung_run _ _ _ Hh Hr') as (_ & _ & _ & Hm). by rewrite Hm.
Qed.

(** ** Concrete runs *)

(** Two extractors, with a conflict on the third ledger. *)
Definition two_ahead (i : nat) : list PipeEvent := replicate 4 (PExtract i true).

Definition order_schedule : list PipeEvent :=
  PValidate 100 :: two_ahead 1 ++ two_ahead 0 ++ replicate 6 (PTransform true) ++ two_ahead 1 ++ two_ahead 0 ++
  replicate 3 (PTransform false).

Lemma pipeline_order_witness :
  exists p, pipe_run 10 2 None order_schedule (pipe_start 10 2) = Some p /\
    built p = [(10, true); (11, true); (12, false)] /\
    exists b, built p = ((fun j : nat => (10 + Z.of_nat j, true)) <$> List.seq 0 b) ++
      (if writeConflict p then [(10 + Z.of_nat b, false)] else []).
Proof.
  assert (Hw : Forall (in_width 2) order_schedule).
  { unfold order_schedule, two_ahead. cbn. repeat constructor. }
  pose proof (fun p => pipeline_order 10 2 None ltac:(lia) ltac:(lia) ltac:(lia) order_schedule p Hw) as Ht.
  destruct (pipe_run 10 2 None order_schedule (pipe_start 10 2)) as [p|] eqn:Hr; [|vm_compute in Hr; discriminate Hr].
  exists p. split; [done|]. split; [vm_compute in Hr; injection Hr as <-; reflexivity|].
  destruct (Ht p eq_refl) as (b & Hb & _). by exists b.
Defined.

(** Two extractors and the two ledgers up to the last. *)
Definition finish_schedule : list PipeEvent :=
  PValidate 11 :: replicate 5 (PExtract 0 true) ++ replicate 5 (PExtract 1 true) ++ replicate 8 (PTransform true) ++
  replicate 5 PMain.

Lemma pipeline_progress_witness :
  exists p, pipe_run 10 2 (Some 11) finish_schedule (pipe_start 10 2) = Some p /\ m_pc p = MReturn /\
    built p = [(10, true); (11, true)] /\
    exists b, built p = (fun j : nat => (10 + Z.of_nat j, true)) <$> List.seq 0 b.
Proof.
  assert (Hw : Forall (in_width 2) finish_schedule).
  { unfold finish_schedule. cbn. repeat constructor. }
  pose proof (fun p => pipeline_progress 10 2 (Some 11) ltac:(lia) ltac:(lia) ltac:(lia) finish_schedule p Hw) as Ht.
  destruct (pipe_run 10 2 (Some 11) finish_schedule (pipe_start 10 2)) as [p|] eqn:Hr; [|vm_compute in Hr; discriminate Hr].
  exists p. specialize (Ht p eq_refl). vm_compute in Hr. injection Hr as <-.
  do 3 (split; [reflexivity|]).
  destruct Ht as (b & Hb & _); [reflexivity|reflexivity|by intros [|[|i]] []|by intros []|reflexivity|by exists b].
Defined.
