(* ===== verification/CacheLoad.v ===== *)
(** * Loading the cache from the database

    [loadCacheFromDb] of [src/src/etl/ReportingETL.cpp]: the cursors made of the
    keys of the latest ledger diffs, the thread that spawns a coroutine for every
    stretch between two cursors, never more than [numCacheMarkers_] at a time, and
    the coroutines, which page through their stretches and put the pages into the
    cache, while the ledgers that follow are applied to the same cache. The
    threads are a transition system; a step of a coroutine is one attempt at a
    page, or the update with the page it has read. *)

From stdpp Require Import base list gmap strings sorting relations.
From Stdlib Require Import ZArith Lia.
From S2P Require Import Prelude Types SimpleCache Backend.

Open Scope Z_scope.

(** What the [std::sort] and [std::unique] of the diffs compare. *)
Definition key_size_lt (a b : LedgerObject) : bool :=
  (lo_key a <? lo_key b) ||
  ((lo_key a =? lo_key b) && (length (lo_blob a) <? length (lo_blob b))%nat).

Definition same_key (a b : LedgerObject) : bool := lo_key a =? lo_key b.

Definition diff_cursors (diff : list LedgerObject) : list (option uint256) :=
  let diff := std_unique same_key (std_sort key_size_lt diff) in
  None :: ((fun obj => Some (lo_key obj)) <$>
           List.filter (fun obj => negb (length (lo_blob obj) =? 0)%nat) diff) ++ [None].

(** A coroutine: not spawned, at the test of its loop with a cursor, with a page
    read and not yet in the cache, ended. *)
Inductive LoaderPc := LWaiting | LFetch (cursor : option uint256) | LUpdate (res : LedgerPage) | LEnded.

Record Loader := mkLoader { l_start : option uint256; l_end : option uint256; l_pc : LoaderPc }.

(** [next] is the spawning thread's [i]. *)
Record CacheLoad (W : Type) := mkCacheLoad {
  world : W; loaders : list Loader; next : nat; markers : nat; numRemaining : nat
}.
Arguments mkCacheLoad {W}.
Arguments world {W}.
Arguments loaders {W}.
Arguments next {W}.
Arguments markers {W}.
Arguments numRemaining {W}.

Inductive LoadEvent := LSpawn | LStep (i : nat).

Section loading.
Context `{BackendImpl W} (fetchLedgerDiff : Z -> M W (list LedgerObject)).
Context (fuel numCacheDiffs_ numCacheMarkers_ : nat) (cachePageFetchSize_ : Z).

(** The first loop; [n] diffs from [seq - i] down. *)
Fixpoint fetch_diffs (n i : nat) (seq : Z) : M W (list LedgerObject) :=
  match n with
  | O => mret []
  | S n' =>
      d ← retryOnTimeout fuel (fetchLedgerDiff (u32 (seq - Z.of_nat i)));
      rest ← fetch_diffs n' (S i) seq;
      mret (d ++ rest)
  end.

Definition make_loaders (cursors : list (option uint256)) : list Loader :=
  zip_with (fun start end_ => mkLoader start end_ LWaiting) cursors (tail cursors).

(** Everything up to the start of the thread [cacheDownloader_]. *)
Definition loadCacheFromDb (seq : Z) : M W (list Loader) :=
  diff ← fetch_diffs numCacheDiffs_ 0 seq;
  mret (make_loaders (diff_cursors diff)).

Definition load_start (w : W) (ls : list Loader) : CacheLoad W :=
  mkCacheLoad w ls 0 0 (length ls).

(** The spawning thread: [markers->wait(numCacheMarkers_)], then a coroutine. *)
Definition spawn_step (st : CacheLoad W) : option (CacheLoad W) :=
  match loaders st !! next st with
  | None => None
  | Some l =>
      if (markers st =? numCacheMarkers_)%nat then None
      else Some (mkCacheLoad (world st) (<[next st := mkLoader (l_start l) (l_end l) (LFetch (l_start l))]> (loaders st))
                   (S (next st)) (S (markers st)) (numRemaining st))
  end.

Definition set_loader (i : nat) (pc : LoaderPc) (l : Loader) (w : W) (st : CacheLoad W) : CacheLoad W :=
  mkCacheLoad w (<[i := mkLoader (l_start l) (l_end l) pc]> (loaders st)) (next st) (markers st) (numRemaining st).

(** After the loop of a coroutine: the last one to end declares the cache full. *)
Definition end_loader (i : nat) (l : Loader) (w : W) (st : CacheLoad W) : CacheLoad W :=
  let remaining := pred (numRemaining st) in
  mkCacheLoad (if (remaining =? 0)%nat then set_cache (setFull (cache_ w)) w else w)
    (<[i := mkLoader (l_start l) (l_end l) LEnded]> (loaders st)) (next st) (pred (markers st)) remaining.

Definition past_end (end_ : option uint256) (cursor : uint256) : bool :=
  match end_ with Some e => e <? cursor | None => false end.

(** A step of coroutine [i]; [None] also when a read throws something other than
    a timeout, which nothing catches. *)
Definition loader_step (stopping : bool) (seq : Z) (i : nat) (st : CacheLoad W) : option (CacheLoad W) :=
  match loaders st !! i with
  | None => None
  | Some l =>
      match l_pc l with
      | LFetch cursor =>
          if stopping then Some (end_loader i l (world st) st)
          else
            match fetchLedgerPage cursor seq cachePageFetchSize_ false (world st) with
            | (Ok res, w) => Some (set_loader i (LUpdate res) l w st)
            | (Throw DatabaseTimeout, w) => Some (set_loader i (LFetch cursor) l w st)
            | _ => None
            end
      | LUpdate res =>
          let w := set_cache (update (page_objects res) seq true (cache_ (world st))) (world st) in
          match page_cursor res with
          | None => Some (end_loader i l w st)
          | Some c =>
              if past_end (l_end l) c then Some (end_loader i l w st)
              else Some (set_loader i (LFetch (Some c)) l w st)
          end
      | LWaiting | LEnded => None
      end
  end.

Definition load_step (seq : Z) (e : LoadEvent) (st : CacheLoad W) : option (CacheLoad W) :=
  match e with LSpawn => spawn_step st | LStep i => loader_step false seq i st end.

(** The loading while the ledgers of a history are applied to the cache, in
    order. *)
Inductive load_moves (h : history) : CacheLoad W -> CacheLoad W -> Prop :=
| lm_thread e st st' : load_step (s0 h) e st = Some st' -> load_moves h st st'
| lm_ledger st objs s :
    s = current h (cache_ (world st)) + 1 -> is_diff h s objs ->
    load_moves h st (mkCacheLoad (set_cache (update objs s false (cache_ (world st))) (world st))
                       (loaders st) (next st) (markers st) (numRemaining st)).

End loading.

(** ** The cursors *)

Lemma key_size_lt_iff a b :
  key_size_lt a b = true <->
  lo_key a < lo_key b \/ lo_key a = lo_key b /\ (length (lo_blob a) < length (lo_blob b))%nat.
Proof.
  unfold key_size_lt. rewrite orb_true_iff, andb_true_iff, Z.ltb_lt, Z.eqb_eq, Nat.ltb_lt. done.
Qed.

Definition key_size_le (a b : LedgerObject) : Prop := key_size_lt b a = false.

Lemma key_size_le_iff a b :
  key_size_le a b <->
  lo_key a < lo_key b \/ lo_key a = lo_key b /\ (length (lo_blob a) <= length (lo_blob b))%nat.
Proof.
  unfold key_size_le. rewrite <- not_true_iff_false, key_size_lt_iff. lia.
Qed.

(** Of the objects with one key, [std::unique] keeps the one with the shortest
    blob: a deletion, if there is one. *)
Lemma unique_shortest x l y z :
  StronglySorted key_size_le (x :: l) -> y ∈ unique_from same_key x l -> z ∈ x :: l -> lo_key z = lo_key y ->
  (length (lo_blob y) <= length (lo_blob z))%nat.
Proof.
  revert x z. induction l as [|w l IH]; intros x z Hs; cbn [unique_from].
  - intros ->%list_elem_of_singleton ->%list_elem_of_singleton. done.
  - apply StronglySorted_inv in Hs as [Hs Hx]. pose proof Hs as [Hs' Hw]%StronglySorted_inv.
    rewrite Forall_forall in Hx, Hw.
    assert (Hall : forall v, v ∈ w :: l -> key_size_le x v) by (intros v Hv; by apply Hx).
    unfold same_key at 1. destruct (lo_key x =? lo_key w) eqn:Hk; zbool.
    + assert (Hxl : StronglySorted key_size_le (x :: l)).
      { constructor; [done|]. apply Forall_forall. intros v Hv. apply Hall. set_solver. }
      intros Hy Hz Hzy. apply elem_of_cons in Hz as [->|[->|Hz]%elem_of_cons].
      * apply (IH x); [done..|by left|done].
      * pose proof (IH x x Hxl Hy ltac:(by left) ltac:(congruence)) as Hle.
        pose proof (Hall w ltac:(by left)) as Hxw%key_size_le_iff. lia.
      * apply (IH x); [done..|by right|done].
    + intros [->|Hy]%elem_of_cons Hz Hzy.
      * apply elem_of_cons in Hz as [->|Hz]; [done|]. specialize (Hall z Hz). apply key_size_le_iff in Hall. lia.
      * apply elem_of_cons in Hz as [->|Hz]; [|by apply (IH w)].
        pose proof (Hall w ltac:(set_solver)) as H1%key_size_le_iff.
        apply unique_from_elem in Hy. apply elem_of_cons in Hy as [->|Hy]; [lia|].
        specialize (Hw y Hy). apply key_size_le_iff in Hw. lia.
Qed.

Lemma diff_cursors_elem diff c :
  Some c ∈ diff_cursors diff ->
  (exists o, o ∈ diff /\ lo_key o = c) /\ forall o, o ∈ diff -> lo_key o = c -> lo_blob o <> [].
Proof.
  unfold diff_cursors. intros [Hc|Hc]%elem_of_cons; [done|].
  apply elem_of_app in Hc as [Hc|Hc%list_elem_of_singleton]; [|done].
  apply list_elem_of_fmap in Hc as (o & [= ->] & Ho). apply list_elem_of_In, filter_In in Ho as [Ho Hb].
  apply list_elem_of_In in Ho. apply negb_true_iff, Nat.eqb_neq in Hb.
  assert (Hin : forall v, v ∈ std_sort key_size_lt diff <-> v ∈ diff) by (intros v; by rewrite std_sort_perm).
  split.
  - exists o. split; [|done]. by apply Hin, std_unique_elem in Ho || (apply std_unique_elem in Ho; by apply Hin).
  - intros v Hv Hk Hnil. apply Hb.
    assert (Hss : StronglySorted key_size_le (std_sort key_size_lt diff)).
    { apply std_sort_ordered.
      - intros a b. rewrite key_size_lt_iff. intros. apply key_size_le_iff. lia.
      - intros a b d. change (key_size_le a b -> key_size_le b d -> key_size_le a d).
        rewrite !key_size_le_iff. lia. }
    apply Hin in Hv. destruct (std_sort key_size_lt diff) as [|x l]; [by apply not_elem_of_nil in Hv|].
    pose proof (unique_shortest x l o v Hss Ho Hv Hk) as Hle. rewrite Hnil in Hle. cbn in Hle. lia.
Qed.

(** What a read of the diff of ledger [s] returns: the diff of a ledger in the
    database, nothing of another. *)
Definition diff_of (h : history) (lo hi s : Z) (r : list LedgerObject) : Prop :=
  (lo <= s <= hi -> is_diff h s r) /\ (~ lo <= s <= hi -> r = []).

Lemma unchanged_since h s c (i : nat) :
  (forall j : nat, (j < i)%nat -> L h (s - Z.of_nat j) !! c = L h (s - Z.of_nat j - 1) !! c) ->
  L h s !! c = L h (s - Z.of_nat i) !! c.
Proof.
  induction i as [|i IH]; intros Hj; [by rewrite Z.sub_0_r|].
  rewrite IH by (intros; apply Hj; lia). rewrite Hj by lia. do 2 f_equal. lia.
Qed.

(** A cursor is a key of the ledger that is loaded: no diff deletes it, so the
    latest one that has it wrote it, and nothing changed it since. *)
Lemma diff_cursors_live h lo seq ds c :
  0 < lo -> 0 <= seq < 2 ^ 32 -> Z.of_nat (length ds) < 2 ^ 32 ->
  (forall i d, ds !! i = Some d -> diff_of h lo seq (u32 (seq - Z.of_nat i)) d) ->
  Some c ∈ diff_cursors (concat ds) -> is_Some (L h seq !! c).
Proof.
  intros Hlo Hseq Hlen Hds [(o & Ho & Hk) Hne]%diff_cursors_elem.
  apply list_elem_of_In, in_concat in Ho as (d & Hd & Ho). apply list_elem_of_In in Hd, Ho.
  set (has := fun d : list LedgerObject => c ∈ (lo_key <$> d)).
  destruct (list_find has ds) as [[i di]|] eqn:Hf.
  2: { apply list_find_None in Hf. rewrite Forall_forall in Hf. destruct (Hf d Hd). unfold has.
       apply list_elem_of_fmap. by exists o. }
  apply list_find_Some in Hf as (Hi & Hci & Hbefore). unfold has in Hci.
  apply list_elem_of_fmap in Hci as (oi & -> & Hoi).
  pose proof (Hds i di Hi) as [Hin Hout]. pose proof (lookup_lt_Some _ _ _ Hi) as Hilt.
  assert (Hr : lo <= u32 (seq - Z.of_nat i) <= seq).
  { destruct (decide (lo <= u32 (seq - Z.of_nat i) <= seq)) as [|Hn]; [done|]. rewrite (Hout Hn) in Hoi.
    by apply not_elem_of_nil in Hoi. }
  assert (Hsub : forall j : nat, (j <= i)%nat -> u32 (seq - Z.of_nat j) = seq - Z.of_nat j /\ lo <= seq - Z.of_nat j).
  { assert (Z.of_nat i <= seq) as Hle.
    { destruct (decide (Z.of_nat i <= seq)) as [|Hn]; [done|]. unfold u32 in Hr.
      rewrite <- (Z.mod_unique (seq - Z.of_nat i) (2 ^ 32) (-1) (seq - Z.of_nat i + 2 ^ 32)) in Hr; lia. }
    rewrite u32_small in Hr by lia. intros j Hj. rewrite u32_small by lia. lia. }
  rewrite (unchanged_since h seq _ i).
  - specialize (Hin Hr) as (_ & Hval & _). destruct (Hsub i) as [Hu _]; [lia|]. rewrite Hu in Hval.
    rewrite (Hval oi Hoi), decide_False; [done|]. apply (Hne oi); [|done].
    apply list_elem_of_In, in_concat. exists di. split; apply list_elem_of_In; [|done]. by eapply list_elem_of_lookup_2.
  - intros j Hj. destruct (lookup_lt_is_Some_2 ds j) as [dj Hdj]; [lia|].
    destruct (Hsub j) as [Hu Hge]; [lia|]. destruct (Hds j dj Hdj) as [Hdiff _]. rewrite Hu in Hdiff.
    destruct (Hdiff ltac:(lia)) as (_ & _ & Hsame). apply Hsame. by apply (Hbefore j dj).
Qed.

(** ** The threads *)

(** What the cache holds: the objects of the keys [ld] and of later ledgers. *)
Definition loaded_to (h : history) (ld : gset Z) (full : bool) (c : SimpleCache) : Prop :=
  reach h c ld /\ full_ c = full.

(** A backend that serves the reads of a history whatever else its cache
    satisfies. [serves R w]: the world [w] is in order and its cache has [R]. *)
Class CacheServing `{BackendImpl W} (h : history) (serves : (SimpleCache -> Prop) -> W -> Prop)
    (E : (SimpleCache -> Prop) -> Exn -> W -> Prop) := {
  cs_reads : forall ld full, ReadLaws (L h) (serves (loaded_to h ld full)) (E (loaded_to h ld full));
  cs_timeout : forall R w, E R DatabaseTimeout w -> serves R w;
  cs_cache : forall R w, serves R w -> R (cache_ w);
  cs_set : forall (R R' : SimpleCache -> Prop) c w, serves R w -> R' c -> serves R' (set_cache c w);
  cs_cache_set : forall c w, cache_ (set_cache c w) = c
}.

Section threads.
Context `{BI : BackendImpl W} (h : history) {serves E} {CSv : CacheServing h serves E}.
Context (numCacheMarkers_ : nat) (cachePageFetchSize_ : Z).
Context (Hlimit : 0 < cachePageFetchSize_) (Hfirst : L h (s0 h) !! firstKey = None).

Local Abbreviation Ldg := (L h (s0 h)).
Local Abbreviation moves := (load_moves numCacheMarkers_ cachePageFetchSize_ h).
Local Abbreviation step := (load_step numCacheMarkers_ cachePageFetchSize_ (s0 h)).

Definition above (start : option uint256) (k : Z) : Prop :=
  match start with Some s => s < k | None => True end.

Definition upto (end_ : option uint256) (k : Z) : Prop :=
  match end_ with Some e => k <= e | None => True end.

Definition live (c : uint256) : Prop := is_Some (Ldg !! c).

(** The keys of the stretch up to [bound] are loaded. *)
Definition covered (start bound : option uint256) (ld : gset Z) : Prop :=
  forall k, live k -> above start k -> upto bound k -> k ∈ ld.

Definition loader_ok (ld : gset Z) (l : Loader) : Prop :=
  (forall c, l_start l = Some c -> live c) /\
  match l_pc l with
  | LWaiting => True
  | LFetch cursor => (forall c, cursor = Some c -> live c) /\ covered (l_start l) (Some (default firstKey cursor)) ld
  | LUpdate res =>
      (exists keys, page_objects res = object_at Ldg <$> keys /\ Forall live keys) /\
      (forall c, page_cursor res = Some c -> live c) /\
      covered (l_start l) (page_cursor res) (ld ∪ list_to_set (lo_key <$> page_objects res))
  | LEnded => covered (l_start l) (l_end l) ld
  end.

Lemma covered_mono start bound ld ld' : ld ⊆ ld' -> covered start bound ld -> covered start bound ld'.
Proof. intros Hsub Hc k H1 H2 H3. by apply Hsub, Hc. Qed.

Lemma loader_ok_mono ld ld' l : ld ⊆ ld' -> loader_ok ld l -> loader_ok ld' l.
Proof.
  intros Hsub [H1 H2]. split; [done|]. destruct (l_pc l); [done| | |by eapply covered_mono].
  - split; [apply H2|]. by eapply covered_mono; [|apply H2].
  - destruct H2 as (G1 & G2 & G3). split_and!; [done..|]. eapply covered_mono; [|exact G3]. set_solver.
Qed.

Lemma keys_from_live cursor k : k ∈ keys_from Ldg cursor <-> live k /\ default firstKey cursor < k.
Proof.
  unfold keys_from. split; [by intros ?%keys_after_elem|]. intros [Hk Hlt].
  rewrite (keys_after_enough _ _ _ (S (size Ldg))) by lia. apply keys_after_complete; [|done..].
  pose proof (keys_after_size Ldg (default firstKey cursor) (S (size Ldg))). lia.
Qed.

(** A page read from a cursor covers the keys up to its own cursor. *)
Lemma page_covers start cursor ld (res : LedgerPage) :
  covered start (Some (default firstKey cursor)) ld ->
  let K := keys_from Ldg cursor in
  page_objects res = object_at Ldg <$> take (Z.to_nat cachePageFetchSize_) K ->
  match page_cursor res with
  | None => (length K < Z.to_nat cachePageFetchSize_)%nat
  | Some c => live c /\ keys_from Ldg (Some c) = drop (Z.to_nat cachePageFetchSize_) K /\
      (Z.to_nat cachePageFetchSize_ <= length K)%nat
  end ->
  covered start (page_cursor res) (ld ∪ list_to_set (lo_key <$> page_objects res)).
Proof.
  intros Hc K Ho Hcur k Hk Hs Hb. rewrite Ho, <- list_fmap_compose, elem_of_union, elem_of_list_to_set.
  rewrite (list_fmap_ext _ id), list_fmap_id by done.
  destruct (decide (k <= default firstKey cursor)) as [Hle|Hgt]; [left; by apply Hc|right].
  assert (HK : k ∈ K) by (apply keys_from_live; split; [done|lia]).
  destruct (page_cursor res) as [c|].
  - destruct Hcur as (_ & Hd & _). rewrite <- (take_drop (Z.to_nat cachePageFetchSize_) K) in HK.
    apply elem_of_app in HK as [HK|HK]; [done|]. rewrite <- Hd in HK. apply keys_from_live in HK as [_ HK].
    cbn in HK, Hb. lia.
  - rewrite take_ge by lia. done.
Qed.

Definition pc_active (l : Loader) : bool := match l_pc l with LFetch _ | LUpdate _ => true | _ => false end.
Definition pc_open (l : Loader) : bool := match l_pc l with LEnded => false | _ => true end.
Definition count (f : Loader -> bool) (ls : list Loader) : nat := length (List.filter f ls).

Lemma count_insert f ls i l l' :
  ls !! i = Some l ->
  (count f (<[i := l']> ls) + Nat.b2n (f l) = count f ls + Nat.b2n (f l'))%nat.
Proof.
  unfold count. revert i. induction ls as [|x ls IH]; intros [|i] Hi; simpl in *; [done..| |].
  - injection Hi as ->. destruct (f l), (f l'); simpl; lia.
  - specialize (IH i Hi). destruct (f x); simpl; lia.
Qed.

Record load_inv (cursors : list (option uint256)) (st : CacheLoad W) (ld : gset Z) : Prop := {
  li_world : exists full, serves (loaded_to h ld full) (world st);
  li_full : if (numRemaining st =? 0)%nat
    then full_ (cache_ (world st)) = true \/ disabled_ (cache_ (world st)) = true
    else full_ (cache_ (world st)) = false;
  li_remaining : numRemaining st = count pc_open (loaders st);
  li_markers : markers st = count pc_active (loaders st) /\ (markers st <= numCacheMarkers_)%nat;
  li_next : forall i l, loaders st !! i = Some l -> l_pc l = LWaiting <-> (next st <= i)%nat;
  li_loaders : Forall (loader_ok ld) (loaders st);
  li_cursors : zip cursors (tail cursors) = (fun l => (l_start l, l_end l)) <$> loaders st
}.

(** The stretches between the cursors cover every key. *)
Lemma stretches_cover (s : option uint256) (cs : list (option uint256)) k :
  cs <> [] -> last cs = Some None -> above s k ->
  exists p, p ∈ zip (s :: cs) cs /\ above p.1 k /\ upto p.2 k.
Proof.
  revert s. induction cs as [|e cs IH]; intros s Hne Hl Hs; [done|].
  destruct e as [x|]; [|exists (s, None); split; [by left|done]].
  destruct (decide (k <= x)) as [Hu|Hu]; [exists (s, Some x); split; [by left|done]|].
  destruct cs as [|e' cs]; [done|]. destruct (IH (Some x)) as (p & Hp & H12); [done|done|cbn; lia|].
  exists p. split; [by right|done].
Qed.

Definition cursors_ok (cursors : list (option uint256)) : Prop :=
  (exists cs, cursors = None :: cs /\ cs <> [] /\ last cs = Some None) /\
  forall c, Some c ∈ cursors -> live c.

Lemma all_ended_covers cursors (ls : list Loader) ld :
  cursors_ok cursors -> zip cursors (tail cursors) = (fun l => (l_start l, l_end l)) <$> ls ->
  Forall (fun l => covered (l_start l) (l_end l) ld) ls -> forall k, live k -> k ∈ ld.
Proof.
  intros [(cs & -> & Hne & Hl) _] Hz Hall k Hk. cbn [tail] in Hz.
  destruct (stretches_cover None cs k Hne Hl I) as (p & Hp & H1 & H2).
  rewrite Hz in Hp. apply list_elem_of_fmap in Hp as (l & -> & Hin).
  rewrite Forall_forall in Hall. by apply (Hall l).
Qed.

Lemma count_zero f ls : count f ls = 0%nat -> Forall (fun l => f l = false) ls.
Proof.
  unfold count. induction ls as [|l ls IH]; [constructor|]. cbn. destruct (f l) eqn:Hf; [done|].
  intros Hc. constructor; [done|by apply IH].
Qed.

Lemma count_pos f ls i l : ls !! i = Some l -> f l = true -> (0 < count f ls)%nat.
Proof.
  intros Hi Hf. destruct (count f ls) eqn:Hc; [|lia]. apply count_zero in Hc.
  rewrite Forall_lookup in Hc. rewrite (Hc i l Hi) in Hf. done.
Qed.

Lemma insert_bounds (ls : list Loader) i l pc :
  ls !! i = Some l ->
  (fun l => (l_start l, l_end l)) <$> <[i := mkLoader (l_start l) (l_end l) pc]> ls =
  (fun l => (l_start l, l_end l)) <$> ls.
Proof.
  intros Hi. rewrite list_fmap_insert. cbn. apply list_insert_id.
  rewrite list_lookup_fmap, Hi. done.
Qed.

Lemma update_full objs seq bg c :
  full_ (update objs seq bg c) = full_ c /\ disabled_ (update objs seq bg c) = disabled_ c.
Proof.
  unfold update. destruct (disabled_ c) eqn:Hd; [done|].
  assert (forall c', full_ (foldl (update_obj seq bg) c' objs) = full_ c' /\
    disabled_ (foldl (update_obj seq bg) c' objs) = disabled_ c') as Hf.
  { induction objs as [|o objs IH]; intros c'; [done|]. cbn. destruct (IH (update_obj seq bg c' o)) as [-> ->].
    by destruct (update_obj_frame seq bg c' o) as (_ & -> & ->). }
  destruct (Hf (if seq >? latestSeq_ c then with_latestSeq c seq else c)) as [-> ->].
  destruct (seq >? latestSeq_ c); done.
Qed.

Lemma spawn_inv cursors st st' ld :
  cursors_ok cursors -> load_inv cursors st ld -> spawn_step numCacheMarkers_ st = Some st' -> load_inv cursors st' ld.
Proof.
  intros Hc [H1 H2 H3 [H4 H5] H6 H7 H8] Hs. unfold spawn_step in Hs.
  destruct (loaders st !! next st) as [l|] eqn:Hl; [|done].
  destruct (markers st =? numCacheMarkers_)%nat eqn:Hm; [done|]. injection Hs as <-. zbool.
  assert (Hpc : l_pc l = LWaiting) by (by apply (H6 (next st))).
  set (l' := mkLoader (l_start l) (l_end l) (LFetch (l_start l))).
  pose proof (count_insert pc_open _ _ _ l' Hl) as Ho. pose proof (count_insert pc_active _ _ _ l' Hl) as Ha.
  assert (Hol : pc_open l = true /\ pc_active l = false) by (unfold pc_open, pc_active; by rewrite Hpc).
  destruct Hol as [Hol1 Hol2]. rewrite Hol1 in Ho. rewrite Hol2 in Ha. change (pc_open l') with true in Ho. change (pc_active l') with true in Ha. cbn in Ho, Ha. split; cbn [world loaders next markers numRemaining]; [done|done|fold l'; lia|fold l'| | |].
  - apply Nat.eqb_neq in Hm. lia.
  - intros i x Hx. apply list_lookup_insert_Some in Hx as [(<- & <- & _)|[Hne Hx]].
    + cbn. split; [done|lia].
    + rewrite (H6 i x Hx). lia.
  - apply Forall_insert; [done|]. rewrite Forall_lookup in H7. destruct (H7 _ _ Hl) as [Hst _].
    split; [done|]. cbn. split; [done|]. intros k Hk Hab Hup. cbn in Hup.
    destruct (l_start l) as [s|]; cbn in *; [lia|].
    assert (k = firstKey) as ->.
    { destruct Hk as [b Hb]. apply L_valid in Hb. unfold valid_key, firstKey in *. lia. }
    unfold live in Hk. rewrite Hfirst in Hk. by destruct Hk.
  - unfold l'. by rewrite insert_bounds.
Qed.

(** A coroutine goes on: its new state, and a world in which [ld] may have grown. *)
Lemma set_loader_inv cursors st ld ld' i l pc w :
  load_inv cursors st ld -> loaders st !! i = Some l -> pc_active l = true ->
  pc_active (mkLoader (l_start l) (l_end l) pc) = true -> ld ⊆ ld' ->
  loader_ok ld' (mkLoader (l_start l) (l_end l) pc) ->
  serves (loaded_to h ld' false) w -> load_inv cursors (set_loader i pc l w st) ld'.
Proof.
  intros [H1 H2 H3 [H4 H5] H6 H7 H8] Hl Ha Ha' Hsub Hok Hw.
  assert (Ho : forall l, pc_active l = true -> pc_open l = true).
  { intros x. unfold pc_active, pc_open. by destruct (l_pc x). }
  pose proof (count_insert pc_open _ _ _ (mkLoader (l_start l) (l_end l) pc) Hl) as Hco.
  pose proof (count_insert pc_active _ _ _ (mkLoader (l_start l) (l_end l) pc) Hl) as Hca.
  rewrite !Ho in Hco by done. rewrite Ha, Ha' in Hca.
  pose proof (count_pos pc_open _ _ _ Hl (Ho l Ha)) as Hpos.
  split; cbn [world loaders next markers numRemaining set_loader]; [by eexists| |lia|lia| | |].
  - rewrite (proj2 (Nat.eqb_neq _ _)) by lia. by apply (cs_cache _ _ Hw).
  - intros j x Hx. apply list_lookup_insert_Some in Hx as [(<- & <- & _)|[_ Hx]]; [|by apply H6].
    rewrite <- (H6 i l Hl). cbn. unfold pc_active in *. cbn in Ha'. destruct (l_pc l), pc; done.
  - apply Forall_insert; [|done]. eapply Forall_impl; [exact H7|]. intros x. by apply loader_ok_mono.
  - by rewrite insert_bounds.
Qed.

(** A coroutine ends with its stretch loaded. *)
Lemma end_loader_inv cursors st ld ld' i l w :
  cursors_ok cursors -> load_inv cursors st ld -> loaders st !! i = Some l -> pc_active l = true -> ld ⊆ ld' ->
  loader_ok ld' (mkLoader (l_start l) (l_end l) LEnded) ->
  serves (loaded_to h ld' false) w -> load_inv cursors (end_loader i l w st) ld'.
Proof.
  intros Hc [H1 H2 H3 [H4 H5] H6 H7 H8] Hl Ha Hsub Hok Hw.
  assert (Ho : pc_open l = true).
  { revert Ha. unfold pc_active, pc_open. by destruct (l_pc l). }
  set (l' := mkLoader (l_start l) (l_end l) LEnded) in *.
  pose proof (count_insert pc_open _ _ _ l' Hl) as Hco. pose proof (count_insert pc_active _ _ _ l' Hl) as Hca.
  rewrite Ho in Hco. rewrite Ha in Hca. change (pc_open l') with false in Hco. change (pc_active l') with false in Hca.
  cbn [Nat.b2n] in Hco, Hca.
  assert (Hoks : Forall (loader_ok ld') (<[i := l']> (loaders st))).
  { apply Forall_insert; [|done]. eapply Forall_impl; [exact H7|]. intros x. by apply loader_ok_mono. }
  assert (Hb : zip cursors (tail cursors) = (fun l => (l_start l, l_end l)) <$> <[i := l']> (loaders st)).
  { unfold l'. by rewrite insert_bounds. }
  destruct (cs_cache _ _ Hw) as [Hreach Hfull].
  unfold end_loader. fold l'. split; cbn [world loaders next markers numRemaining]; [| |lia|lia| |done|done].
  - destruct (pred (numRemaining st) =? 0)%nat eqn:Hz; [|by eexists]. apply Nat.eqb_eq in Hz.
    exists (full_ (setFull (cache_ w))). eapply cs_set; [exact Hw|]. split; [|done].
    eapply rtc_r; [exact Hreach|]. apply step_full. apply (all_ended_covers cursors (<[i := l']> (loaders st))); [done|done|].
    assert (Hzero : count pc_open (<[i := l']> (loaders st)) = 0%nat) by lia. apply count_zero in Hzero.
    rewrite Forall_forall in Hzero, Hoks |- *. intros x Hx. destruct (Hoks x Hx) as [_ Hx'].
    specialize (Hzero x Hx). unfold pc_open in Hzero. by destruct (l_pc x).
  - destruct (pred (numRemaining st) =? 0)%nat eqn:Hz; [|done]. rewrite cs_cache_set. unfold setFull.
    destruct (disabled_ (cache_ w)) eqn:Hd; [by right|by left].
  - intros j x Hx. apply list_lookup_insert_Some in Hx as [(<- & <- & _)|[_ Hx]]; [|by apply H6].
    rewrite <- (H6 i l Hl). cbn. unfold pc_active in Ha. by destruct (l_pc l).
Qed.

Lemma live_page keys (p : LedgerPage) :
  page_objects p = object_at Ldg <$> keys -> Forall live keys -> is_page h (page_objects p).
Proof.
  intros -> Hk o Ho. apply list_elem_of_fmap in Ho as (k & -> & Hin).
  rewrite Forall_forall in Hk. destruct (Hk k Hin) as [b Hb]. cbn. by rewrite Hb.
Qed.

Lemma fetch_inv cursors st ld i l cursor st' :
  load_inv cursors st ld -> loaders st !! i = Some l -> l_pc l = LFetch cursor ->
  loader_step cachePageFetchSize_ false (s0 h) i st = Some st' -> load_inv cursors st' ld.
Proof.
  intros Hi Hl Hpc Hs. pose proof Hi as [[full H1] H2 H3 [H4 H5] H6 H7 H8].
  assert (Ha : pc_active l = true) by (unfold pc_active; by rewrite Hpc).
  assert (Hopen : pc_open l = true) by (unfold pc_open; by rewrite Hpc).
  pose proof (count_pos pc_open _ _ _ Hl Hopen) as Hpos.
  rewrite (proj2 (Nat.eqb_neq _ _)) in H2 by lia.
  assert (full = false) as -> by (destruct (cs_cache _ _ H1) as [_ <-]; done).
  rewrite Forall_lookup in H7. destruct (H7 i l Hl) as [Hst Hok]. rewrite Hpc in Hok. destruct Hok as [Hlive Hcov].
  unfold loader_step in Hs. rewrite Hl, Hpc in Hs.
  pose proof (fetchLedgerPage_chunk (ReadLaws0 := cs_reads ld false) cursor (s0 h) cachePageFetchSize_ Hlimit Hlive
    (world st) H1) as Hpage.
  destruct (fetchLedgerPage cursor (s0 h) cachePageFetchSize_ false (world st)) as [[res|e|] w]; [| |done].
  - injection Hs as <-. destruct Hpage as (Ho & Hcur & Hw).
    apply (set_loader_inv cursors st ld ld); [done..| |done]. split; [done|]. cbn [l_pc]. split_and!.
    + eexists. split; [exact Ho|]. apply Forall_take, Forall_forall. intros k Hk. by apply keys_from_live in Hk as [].
    + intros c Hc. rewrite Hc in Hcur. apply Hcur.
    + by eapply page_covers.
  - destruct e; try done. injection Hs as <-.
    apply (set_loader_inv cursors st ld ld); [done..| |by apply cs_timeout]. by split.
Qed.

Lemma update_inv cursors st ld i l res st' :
  cursors_ok cursors -> load_inv cursors st ld -> loaders st !! i = Some l -> l_pc l = LUpdate res ->
  loader_step cachePageFetchSize_ false (s0 h) i st = Some st' -> exists ld', load_inv cursors st' ld'.
Proof.
  intros Hc Hi Hl Hpc Hs. pose proof Hi as [[full H1] H2 H3 [H4 H5] H6 H7 H8].
  assert (Ha : pc_active l = true) by (unfold pc_active; by rewrite Hpc).
  assert (Hopen : pc_open l = true) by (unfold pc_open; by rewrite Hpc).
  pose proof (count_pos pc_open _ _ _ Hl Hopen) as Hpos.
  rewrite (proj2 (Nat.eqb_neq _ _)) in H2 by lia.
  assert (full = false) as -> by (destruct (cs_cache _ _ H1) as [_ <-]; done).
  rewrite Forall_lookup in H7. destruct (H7 i l Hl) as [Hst Hok]. rewrite Hpc in Hok.
  destruct Hok as ((keys & Hobjs & Hkeys) & Hlive & Hcov).
  set (ld' := ld ∪ list_to_set (lo_key <$> page_objects res)) in *. exists ld'.
  assert (Hw : serves (loaded_to h ld' false) (set_cache (update (page_objects res) (s0 h) true (cache_ (world st))) (world st))).
  { eapply cs_set; [exact H1|]. destruct (cs_cache _ _ H1) as [Hr Hf]. split.
    - eapply rtc_r; [exact Hr|]. apply step_page; [done|]. by eapply live_page.
    - by rewrite (proj1 (update_full _ _ _ _)). }
  unfold loader_step in Hs. rewrite Hl, Hpc in Hs.
  assert (Hsub : ld ⊆ ld') by (unfold ld'; set_solver).
  destruct (page_cursor res) as [c|].
  - destruct (past_end (l_end l) c) eqn:Hp; injection Hs as <-.
    + apply (end_loader_inv cursors st ld ld'); [done..| |done]. split; [done|]. cbn.
      intros k Hk Hab Hup. apply Hcov; [done..|]. cbn. unfold past_end in Hp. destruct (l_end l); [|done].
      zbool. cbn in Hup. lia.
    + apply (set_loader_inv cursors st ld ld'); [done..| |done]. split; [done|]. split; [|done].
      intros x [= <-]. by apply Hlive.
  - injection Hs as <-. apply (end_loader_inv cursors st ld ld'); [done..| |done]. split; [done|]. cbn.
    intros k Hk Hab Hup. by apply Hcov.
Qed.

Lemma moves_inv cursors st st' ld :
  cursors_ok cursors -> load_inv cursors st ld -> moves st st' -> exists ld', load_inv cursors st' ld'.
Proof.
  intros Hc Hi Hm. destruct Hm as [[|i] st st' Hs|st objs s Hcur Hd].
  - exists ld. by eapply spawn_inv.
  - cbn in Hs. pose proof Hs as Hs'. unfold loader_step in Hs'.
    destruct (loaders st !! i) as [l|] eqn:Hl; [|done]. destruct (l_pc l) as [|cursor|res|] eqn:Hpc; try done; clear Hs'.
    + exists ld. by eapply fetch_inv.
    + by eapply update_inv.
  - exists ld. destruct Hi as [[full H1] H2 H3 H4 H6 H7 H8]. destruct (cs_cache _ _ H1) as [Hr Hf].
    split; cbn [world loaders next markers numRemaining]; try done.
    + exists full. eapply cs_set; [exact H1|]. split.
      * eapply rtc_r; [exact Hr|]. apply step_diff; [by left|done].
      * by rewrite (proj1 (update_full _ _ _ _)).
    + rewrite cs_cache_set. by destruct (update_full objs s false (cache_ (world st))) as [-> ->].
Qed.

Lemma load_run_inv cursors st st' ld :
  cursors_ok cursors -> load_inv cursors st ld -> rtc moves st st' -> exists ld', load_inv cursors st' ld'.
Proof.
  intros Hc Hi Hr. revert ld Hi. induction Hr as [|st st1 st' Hm _ IH]; intros ld Hi; [by eexists|].
  destruct (moves_inv cursors st st1 ld Hc Hi Hm) as [ld1 H1]. by eapply IH.
Qed.

Lemma load_start_inv cursors w ld :
  cursors_ok cursors -> serves (loaded_to h ld false) w -> load_inv cursors (load_start w (make_loaders cursors)) ld.
Proof.
  intros Hc Hw. set (ls := make_loaders cursors).
  assert (Hwait : Forall (fun l => l_pc l = LWaiting /\ exists c, c ∈ cursors /\ l_start l = c) ls).
  { apply Forall_forall. intros l Hl. unfold ls, make_loaders in Hl.
    apply elem_of_lookup_zip_with in Hl as (i & x & y & -> & Hx & _). split; [done|].
    exists x. split; [by eapply list_elem_of_lookup_2|done]. }
  assert (Hcount : forall f, (forall l, l_pc l = LWaiting -> f l = true) -> count f ls = length ls).
  { intros f Hf. unfold count. clear -Hwait Hf. induction Hwait as [|l ls [Hl _] _ IH]; [done|].
    cbn. rewrite (Hf l Hl). cbn. by rewrite IH. }
  assert (Hnone : forall f, (forall l, l_pc l = LWaiting -> f l = false) -> count f ls = 0%nat).
  { intros f Hf. unfold count. clear -Hwait Hf. induction Hwait as [|l ls [Hl _] _ IH]; [done|].
    cbn. by rewrite (Hf l Hl). }
  split; cbn [world loaders next markers numRemaining load_start].
  - by eexists.
  - destruct (cs_cache _ _ Hw) as [_ Hf]. destruct (length ls =? 0)%nat eqn:Hz; [|done].
    destruct Hc as [(cs & -> & Hne & _) _]. apply Nat.eqb_eq in Hz. unfold ls, make_loaders in Hz.
    rewrite length_zip_with in Hz. cbn in Hz. destruct cs; [done|]. cbn in Hz. lia.
  - rewrite Hcount; [done|]. intros l Hl. unfold pc_open. by rewrite Hl.
  - rewrite Hnone; [lia|]. intros l Hl. unfold pc_active. by rewrite Hl.
  - intros i l Hl. rewrite Forall_lookup in Hwait. destruct (Hwait i l Hl) as [-> _]. split; [lia|done].
  - eapply Forall_impl; [exact Hwait|]. intros l (Hl & c & Hin & Hst). unfold loader_ok. rewrite Hl, Hst. split; [|done].
    intros x ->. by apply Hc.
  - unfold ls, make_loaders. clear. generalize (tail cursors). induction cursors as [|c cs IH]; intros [|d ds]; [done..|].
    cbn. f_equal. apply IH.
Qed.

(** What is left to do; a read that times out leaves it as it is. *)
Definition pages_left (cursor : option uint256) : nat := length (keys_from Ldg cursor).

Definition loader_work (l : Loader) : nat :=
  match l_pc l with
  | LWaiting => 2 * size Ldg + 3
  | LFetch cursor => 2 * pages_left cursor + 2
  | LUpdate res => match page_cursor res with Some c => 2 * pages_left (Some c) + 3 | None => 1 end
  | LEnded => 0
  end.

Definition work (ls : list Loader) : nat := sum_list (loader_work <$> ls).

Lemma work_insert ls i l l' :
  ls !! i = Some l -> (loader_work l' < loader_work l)%nat -> (work (<[i := l']> ls) < work ls)%nat.
Proof.
  unfold work. revert i. induction ls as [|x ls IH]; intros [|i] Hi Hlt; [done..| |].
  - injection Hi as ->. change (<[0%nat := l']> (l :: ls)) with (l' :: ls). rewrite !fmap_cons. cbn [sum_list].
    unfold sum_list. cbn [sum_list_with id]. lia.
  - change (<[S i := l']> (x :: ls)) with (x :: <[i := l']> ls). rewrite !fmap_cons. specialize (IH i Hi Hlt).
    unfold sum_list in *. cbn [sum_list_with]. lia.
Qed.

Lemma open_loader cursors st ld :
  load_inv cursors st ld -> numRemaining st <> 0%nat ->
  (exists i l, loaders st !! i = Some l /\ pc_active l = true) \/
  markers st = 0%nat /\ is_Some (loaders st !! next st).
Proof.
  intros [_ _ H3 [H4 _] H6 _ _] Hne. destruct (decide (markers st = 0%nat)) as [Hz|Hz].
  - right. split; [done|]. apply lookup_lt_is_Some. destruct (decide (length (loaders st) <= next st)%nat) as [Hle|]; [|lia].
    destruct Hne. rewrite H3. unfold count. apply length_zero_iff_nil.
    destruct (List.filter pc_open (loaders st)) as [|l ls] eqn:Hf; [done|].
    assert (Hin : In l (loaders st) /\ pc_open l = true).
    { apply (proj1 (filter_In _ _ _)). rewrite Hf. by left. }
    destruct Hin as [Hin Ho]. apply list_elem_of_In, list_elem_of_lookup in Hin as [i Hi].
    rewrite Hz in H4. symmetry in H4. apply count_zero in H4. rewrite Forall_lookup in H4. specialize (H4 i l Hi).
    pose proof (lookup_lt_Some _ _ _ Hi). destruct (H6 i l Hi) as [Hw _].
    assert (l_pc l = LWaiting) as Hpc by (unfold pc_active in H4; unfold pc_open in Ho; by destruct (l_pc l)).
    specialize (Hw Hpc). lia.
  - left. rewrite H4 in Hz. unfold count in Hz. destruct (List.filter pc_active (loaders st)) as [|l ls] eqn:Hf; [done|].
    assert (Hin : In l (loaders st) /\ pc_active l = true).
    { apply (proj1 (filter_In _ _ _)). rewrite Hf. by left. }
    destruct Hin as [Hin Ha]. apply list_elem_of_In, list_elem_of_lookup in Hin as [i Hi]. by exists i, l.
Qed.

(** A read that throws what nothing catches. *)
Definition read_throws (st : CacheLoad W) : Prop :=
  exists cursor e w, fetchLedgerPage cursor (s0 h) cachePageFetchSize_ false (world st) = (Throw e, w) /\ e <> DatabaseTimeout.

Lemma active_steps cursors st ld i l :
  load_inv cursors st ld -> loaders st !! i = Some l -> pc_active l = true ->
  read_throws st /\ step (LStep i) st = None \/ exists st', step (LStep i) st = Some st' /\
    ((work (loaders st') < work (loaders st))%nat \/ loaders st' = loaders st).
Proof.
  intros [[full H1] H2 H3 [H4 H5] H6 H7 H8] Hl Ha. cbn [load_step]. unfold loader_step. rewrite Hl.
  rewrite Forall_lookup in H7. destruct (H7 i l Hl) as [_ Hok]. unfold pc_active in Ha.
  destruct (l_pc l) as [|cursor|res|] eqn:Hpc; try done.
  - destruct Hok as [Hlive _].
    pose proof (fetchLedgerPage_chunk (ReadLaws0 := cs_reads ld full) cursor (s0 h) cachePageFetchSize_ Hlimit Hlive
      (world st) H1) as Hpage.
    destruct (fetchLedgerPage cursor (s0 h) cachePageFetchSize_ false (world st)) as [[res|e|] w] eqn:Hf; [| |done].
    + right. eexists. split; [done|]. left. eapply work_insert; [done|]. unfold loader_work. cbn [l_pc]. rewrite Hpc.
      destruct Hpage as (_ & Hcur & _). destruct (page_cursor res) as [c|]; [|lia].
      destruct Hcur as (_ & Hd & Hle). unfold pages_left. rewrite Hd, length_drop. lia.
    + destruct (decide (e = DatabaseTimeout)) as [->|Hne]; [|left; split; [by exists cursor, e, w|by destruct e]].
      right. eexists. split; [done|]. right. cbn. apply list_insert_id. rewrite Hl. destruct l. cbn in *. by rewrite Hpc.
  - right. destruct (page_cursor res) as [c|] eqn:Hc; [destruct (past_end (l_end l) c)|];
      (eexists; split; [done|]; left; eapply work_insert; [done|]; unfold loader_work; cbn [l_pc]; rewrite Hpc, Hc; lia).
Qed.

Lemma spawn_steps st :
  is_Some (loaders st !! next st) -> markers st <> numCacheMarkers_ ->
  (forall i l, loaders st !! i = Some l -> l_pc l = LWaiting <-> (next st <= i)%nat) ->
  exists st', step LSpawn st = Some st' /\ (work (loaders st') < work (loaders st))%nat.
Proof.
  intros [l Hl] Hm Hw. cbn [load_step]. unfold spawn_step. rewrite Hl, (proj2 (Nat.eqb_neq _ _)) by done.
  eexists. split; [done|]. eapply work_insert; [done|]. unfold loader_work. cbn [l_pc].
  rewrite (proj2 (Hw (next st) l Hl)) by done. unfold pages_left, keys_from.
  pose proof (keys_after_size Ldg (default firstKey (l_start l)) (size Ldg)). lia.
Qed.

Lemma steps_work cursors st ld e st' :
  load_inv cursors st ld -> step e st = Some st' ->
  (work (loaders st') < work (loaders st))%nat \/ loaders st' = loaders st.
Proof.
  intros Hi Hs. destruct e as [|i].
  - left. destruct (spawn_steps st) as (st1 & H1 & H2); [| | |by simplify_eq].
    + cbn in Hs. unfold spawn_step in Hs. by destruct (loaders st !! next st).
    + cbn in Hs. unfold spawn_step in Hs. destruct (loaders st !! next st); [|done].
      destruct (markers st =? numCacheMarkers_)%nat eqn:Hm; [done|]. by apply Nat.eqb_neq in Hm.
    + apply Hi.
  - cbn in Hs. pose proof Hs as Hs'. unfold loader_step in Hs'.
    destruct (loaders st !! i) as [l|] eqn:Hl; [|done].
    assert (Ha : pc_active l = true) by (unfold pc_active; by destruct (l_pc l)).
    destruct (active_steps cursors st ld i l Hi Hl Ha) as [[_ Hn]|(st1 & H1 & H2)]; cbn in *; [congruence|].
    by simplify_eq.
Qed.

Lemma steps_enabled cursors st ld :
  (0 < numCacheMarkers_)%nat -> load_inv cursors st ld -> numRemaining st <> 0%nat ->
  read_throws st \/ exists e, is_Some (step e st).
Proof.
  intros Hpos Hi Hne. destruct (open_loader cursors st ld Hi Hne) as [(i & l & Hl & Ha)|[Hm Hl]].
  - destruct (active_steps cursors st ld i l Hi Hl Ha) as [[? _]|(st1 & H1 & _)]; [by left|].
    right. exists (LStep i). by eexists.
  - right. exists LSpawn. destruct (spawn_steps st Hl) as (st1 & H1 & _); [lia|apply Hi|by eexists].
Qed.

Lemma work_waiting c cs :
  work (zip_with (fun start end_ => mkLoader start end_ LWaiting) (c :: cs) cs) = (length cs * (2 * size Ldg + 3))%nat.
Proof.
  revert c. induction cs as [|d cs IH]; intros c; [done|]. specialize (IH d).
  change (loader_work (mkLoader c d LWaiting) +
    work (zip_with (fun start end_ => mkLoader start end_ LWaiting) (d :: cs) cs) =
    S (length cs) * (2 * size Ldg + 3))%nat.
  rewrite IH. unfold loader_work. cbn [l_pc]. lia.
Qed.

Lemma start_work (w : W) cursors :
  work (loaders (load_start w (make_loaders cursors))) = (pred (length cursors) * (2 * size Ldg + 3))%nat.
Proof. destruct cursors as [|c cs]; [done|]. apply work_waiting. Qed.

End threads.

(** ** The whole *)

Section load.
Context `{BI : BackendImpl W} (h : history) {serves E} {CSv : CacheServing h serves E}.
Context (fetchLedgerDiff : Z -> M W (list LedgerObject)) (patience : W -> nat) (lo : Z).
Context (fuel numCacheDiffs_ numCacheMarkers_ : nat) (cachePageFetchSize_ : Z).

(** The diffs are read right; a read that times out uses patience up. *)
Context (Hdiff : forall ld s,
  patient patience (serves (loaded_to h ld false)) (fetchLedgerDiff s)
    (fun r w => diff_of h lo (s0 h) s r /\ serves (loaded_to h ld false) w)).

Lemma fetch_diffs_spec ld n i :
  triple (fun w => serves (loaded_to h ld false) w /\ (patience w < fuel)%nat)
    (fetch_diffs fetchLedgerDiff fuel n i (s0 h))
    (fun r w => (exists ds, r = concat ds /\ length ds = n /\
       forall j d, ds !! j = Some d -> diff_of h lo (s0 h) (u32 (s0 h - Z.of_nat (i + j))) d) /\
       serves (loaded_to h ld false) w)
    (fun e w => serves (loaded_to h ld false) w /\ e <> DatabaseTimeout).
Proof.
  revert i. induction n as [|n IH]; intros i; cbn [fetch_diffs].
  - apply triple_ret. intros w [Hw _]. split; [|done]. by exists [].
  - eapply (triple_bind _ _ _ (fun r w => diff_of h lo (s0 h) (u32 (s0 h - Z.of_nat i)) r /\
      serves (loaded_to h ld false) w /\ (patience w < fuel)%nat)).
    { eapply triple_conseq; [by apply (patient_retry patience _ _ _ fuel (Hdiff ld _))|done| |done].
      intros r w [[? ?] ?]. done. }
    intros d. apply triple_pre_pure. intros Hd. eapply triple_bind; [apply IH|].
    intros rest. apply triple_ret. intros w [(ds & -> & Hl & Hds) Hw]. split; [|done].
    exists (d :: ds). split_and!; [done|cbn; lia|]. intros [|j] x Hx.
    + injection Hx as <-. by rewrite Nat.add_0_r.
    + rewrite <- Nat.add_succ_comm. by apply Hds.
Qed.

Lemma diff_cursors_ok ds :
  0 < lo -> 0 < s0 h < 2 ^ 32 -> Z.of_nat (length ds) < 2 ^ 32 ->
  (forall i d, ds !! i = Some d -> diff_of h lo (s0 h) (u32 (s0 h - Z.of_nat i)) d) ->
  cursors_ok h (diff_cursors (concat ds)).
Proof.
  intros Hlo Hs Hl Hds. split.
  - unfold diff_cursors. eexists. split; [done|]. split; [by destruct (_ <$> _)|]. by rewrite last_snoc.
  - intros c Hc. eapply diff_cursors_live; [exact Hlo| |exact Hl|exact Hds|exact Hc]. lia.
Qed.

Lemma load_from_db ld :
  0 < lo -> s0 h < 2 ^ 32 -> Z.of_nat numCacheDiffs_ < 2 ^ 32 -> 0 < cachePageFetchSize_ ->
  L h (s0 h) !! firstKey = None ->
  triple (fun w => serves (loaded_to h ld false) w /\ (patience w < fuel)%nat)
    (loadCacheFromDb fetchLedgerDiff fuel numCacheDiffs_ (s0 h))
    (fun ls w => forall st, rtc (load_moves numCacheMarkers_ cachePageFetchSize_ h) (load_start w ls) st ->
       let c := cache_ (world st) in
       (markers st <= numCacheMarkers_)%nat /\
       (exists ld', reach h c ld') /\
       (numRemaining st <> 0%nat -> isFull c = false) /\
       (numRemaining st = 0%nat -> isFull c = true \/ disabled_ c = true) /\
       (isFull c = true -> forall k, 0 < latestLedgerSequence c ->
          (get k (latestLedgerSequence c) c).1 = L h (latestLedgerSequence c) !! k))
    (fun e w => serves (loaded_to h ld false) w /\ e <> DatabaseTimeout).
Proof.
  intros Hlo Hs Hn Hlimit Hfirst. unfold loadCacheFromDb. eapply triple_bind; [apply fetch_diffs_spec|].
  intros r. apply triple_pre_pure. intros (ds & -> & Hl & Hds). apply triple_ret. intros w Hw st Hrun.
  assert (Hc : cursors_ok h (diff_cursors (concat ds))).
  { apply diff_cursors_ok; [done| |lia|done]. pose proof (s0_pos h). lia. }
  destruct (load_run_inv h numCacheMarkers_ cachePageFetchSize_ Hlimit Hfirst _ _ st ld Hc
    (load_start_inv h numCacheMarkers_ _ w ld Hc Hw) Hrun) as [ld' [[full Hserve] Hfull _ [_ Hm] _ _ _]].
  destruct (cs_cache _ _ Hserve) as [Hreach _]. split_and!.
  - done.
  - by eexists.
  - intros Hz. by rewrite (proj2 (Nat.eqb_neq _ _) Hz) in Hfull.
  - intros Hz. by rewrite Hz in Hfull.
  - intros Hf k Hpos. by apply (full_get h _ ld').
Qed.

(** C10: [loadCacheFromDb] after the ledger [s0]: the reads of the diffs are
    repeated until they succeed; then, however the coroutines are scheduled, however
    often their reads time out and whichever later ledgers are applied meanwhile, at
    most [numCacheMarkers_] of them run at a time, the cache holds only what the
    ledgers hold, it is not declared full before the last coroutine has ended, and
    when that one has, it is full (or disabled) and answers every lookup at its
    latest sequence exactly. *)
Theorem loadCacheFromDb_full ld :
  0 < lo -> s0 h < 2 ^ 32 -> Z.of_nat numCacheDiffs_ < 2 ^ 32 -> 0 < cachePageFetchSize_ ->
  L h (s0 h) !! firstKey = None ->
  triple (fun w => serves (loaded_to h ld false) w /\ (patience w < fuel)%nat)
    (loadCacheFromDb fetchLedgerDiff fuel numCacheDiffs_ (s0 h))
    (fun ls w => forall st, rtc (load_moves numCacheMarkers_ cachePageFetchSize_ h) (load_start w ls) st ->
       let c := cache_ (world st) in
       (markers st <= numCacheMarkers_)%nat /\
       (exists ld', reach h c ld') /\
       (numRemaining st <> 0%nat -> isFull c = false) /\
       (numRemaining st = 0%nat -> isFull c = true \/ disabled_ c = true) /\
       (isFull c = true -> forall k, 0 < latestLedgerSequence c ->
          (get k (latestLedgerSequence c) c).1 = L h (latestLedgerSequence c) !! k))
    (fun e w => serves (loaded_to h ld false) w /\ e <> DatabaseTimeout).
Proof. apply load_from_db. Qed.

(** C11: The loading ends: from the start until the last coroutine has ended some
    thread can go on, unless a read throws what nothing catches, and every step of
    a thread but a read that timed out brings the end nearer; there are at most
    twice as many steps as there are keys, three more, for every stretch. *)
Theorem loadCacheFromDb_ends cursors w ld :
  0 < cachePageFetchSize_ -> (0 < numCacheMarkers_)%nat -> L h (s0 h) !! firstKey = None ->
  cursors_ok h cursors -> serves (loaded_to h ld false) w ->
  work h (loaders (load_start w (make_loaders cursors))) = (pred (length cursors) * (2 * size (L h (s0 h)) + 3))%nat /\
  forall st, rtc (load_moves numCacheMarkers_ cachePageFetchSize_ h) (load_start w (make_loaders cursors)) st ->
    (forall e st', load_step numCacheMarkers_ cachePageFetchSize_ (s0 h) e st = Some st' ->
       (work h (loaders st') < work h (loaders st))%nat \/ loaders st' = loaders st) /\
    (numRemaining st <> 0%nat ->
       read_throws h cachePageFetchSize_ st \/
       exists e, is_Some (load_step numCacheMarkers_ cachePageFetchSize_ (s0 h) e st)).
Proof.
  intros Hlimit Hpos Hfirst Hc Hw. split; [apply start_work|]. intros st Hrun.
  destruct (load_run_inv h numCacheMarkers_ cachePageFetchSize_ Hlimit Hfirst _ _ st ld Hc
    (load_start_inv h numCacheMarkers_ _ w ld Hc Hw) Hrun) as [ld' Hi].
  split; [intros e st'; by eapply steps_work|]. intros Hne. by eapply steps_enabled.
Qed.

End load.

(** ** In memory *)

Lemma object_at_keys (m : gmap Z Blob) (ks : list Z) : lo_key <$> (object_at m <$> ks) = ks.
Proof. rewrite <- list_fmap_compose, (list_fmap_ext _ id), list_fmap_id by done. done. Qed.

(** The objects of any keys that include the changed ones are a diff. *)
Lemma objects_diff h s ks :
  NoDup ks -> (forall k, k ∉ ks -> L h s !! k = L h (s - 1) !! k) -> is_diff h s (object_at (L h s) <$> ks).
Proof.
  intros Hnd Hks. unfold is_diff. rewrite object_at_keys. split_and!; [done| |done].
  intros o Ho. apply list_elem_of_fmap in Ho as (k & -> & _). cbn. destruct (L h s !! k) as [b|] eqn:Hb; cbn; [|done].
  rewrite decide_False; [done|]. by eapply L_nonempty.
Qed.

Definition history_diff (h : history) (s : Z) : list LedgerObject :=
  object_at (L h s) <$> elements (dom (L h s) ∪ dom (L h (s - 1)) : gset Z).

Lemma history_diff_ok h s : is_diff h s (history_diff h s).
Proof.
  apply objects_diff; [apply NoDup_elements|]. intros k Hk.
  rewrite elem_of_elements, elem_of_union, !elem_of_dom in Hk.
  destruct (L h s !! k) eqn:H1, (L h (s - 1) !! k) eqn:H2; try done; destruct Hk; [left|left|right]; by eexists.
Qed.

Definition mem_fetchLedgerDiff (h : history) (lo s : Z) : M MemWorld (list LedgerObject) :=
  mret (if decide (lo <= s <= s0 h) then history_diff h s else []).

(** The counters of the cache do not matter. *)
Lemma loaded_to_get h ld full c k s : loaded_to h ld full c -> loaded_to h ld full (get k s c).2.
Proof.
  intros [Hr Hf]. split; [eapply rtc_r; [exact Hr|apply step_get]|]. rewrite <- Hf. unfold get. by repeat case_match.
Qed.

Lemma loaded_to_successor h ld full c k s : loaded_to h ld full c -> loaded_to h ld full (getSuccessor k s c).2.
Proof.
  intros [Hr Hf]. split; [eapply rtc_r; [exact Hr|apply step_succ]|]. rewrite <- Hf.
  unfold getSuccessor, getSuccessor_enter, getSuccessor_lookup. by repeat case_match; simplify_eq.
Qed.

#[export] Instance MemServing (h : history) :
  CacheServing (H := MemBackend h) h (fun R w => R (mw_cache w)) (fun _ _ _ => False).
Proof.
  split; [|done..]. intros ld full.
  assert (Hsound : forall w, loaded_to h ld full (mw_cache w) -> cache_reachable h w) by (intros w [Hr _]; by exists ld).
  pose proof (MemLaws h) as HM. split.
  - apply HM.
  - apply HM.
  - intros w k s b Hw. by apply (rl_get (ReadLaws := HM)), Hsound.
  - intros w k s o Hw. by apply (rl_succ (ReadLaws := HM)), Hsound.
  - intros w k s. apply loaded_to_get.
  - intros w k s. apply loaded_to_successor.
  - by intros k s _ w Hw.
  - by intros ks s _ w Hw.
  - by intros k s _ w Hw.
Qed.

(** Two of the three coroutines at a time, pages of one object, and the next
    ledger in between. *)
Section sample.

Local Abbreviation sample_step := (load_step (H := MemBackend sample_history) 2 1 5).

Fixpoint load_steps (es : list LoadEvent) (st : CacheLoad MemWorld) : option (CacheLoad MemWorld) :=
  match es with
  | [] => Some st
  | e :: es' => match sample_step e st with Some st' => load_steps es' st' | None => None end
  end.

Lemma load_steps_moves es st st' :
  load_steps es st = Some st' -> rtc (load_moves (H := MemBackend sample_history) 2 1 sample_history) st st'.
Proof.
  revert st. induction es as [|e es IH]; intros st; cbn [load_steps]; [by intros [= <-]|].
  destruct (sample_step e st) as [st1|] eqn:Hs; [|done]. intros Hr. eapply rtc_l; [|by apply IH].
  apply (lm_thread _ _ _ e). exact Hs.
Qed.

Definition load_world : MemWorld := mkMemWorld SimpleCache_init None.

Definition sample_loaders : list Loader := make_loaders [None; Some 10; Some 30; None].

Definition sample_first : list LoadEvent := [LSpawn; LSpawn; LStep 1; LStep 0; LStep 1].

Definition sample_rest : list LoadEvent :=
  [LStep 1; LStep 1; LStep 0; LStep 0; LStep 0; LSpawn; LStep 2; LStep 2].

Definition apply_ledger (objs : list LedgerObject) (s : Z) (st : CacheLoad MemWorld) : CacheLoad MemWorld :=
  mkCacheLoad (mkMemWorld (update objs s false (mw_cache (world st))) (mw_range (world st)))
    (loaders st) (next st) (markers st) (numRemaining st).

Definition sample_end : option (CacheLoad MemWorld) :=
  st ← load_steps sample_first (load_start load_world sample_loaders);
  load_steps sample_rest (apply_ledger sample_diff 6 st).

End sample.

Lemma sample_diff_reads ld s :
  patient (fun _ => 0%nat) (fun w => loaded_to sample_history ld false (mw_cache w)) (mem_fetchLedgerDiff sample_history 5 s)
    (fun r w => diff_of sample_history 5 (s0 sample_history) s r /\ loaded_to sample_history ld false (mw_cache w)).
Proof.
  intros w0 w [-> Hw]. split; [|done]. split; [|done]. split.
  - intros Hs. rewrite decide_True by done. apply history_diff_ok.
  - intros Hs. by rewrite decide_False by done.
Qed.

Lemma sample_run_moves st :
  sample_end = Some st ->
  rtc (load_moves (H := MemBackend sample_history) 2 1 sample_history) (load_start load_world sample_loaders) st.
Proof.
  unfold sample_end. destruct (load_steps sample_first (load_start load_world sample_loaders)) as [st1|] eqn:H1; [|done].
  cbn [mbind option_bind]. intros H2. etrans; [by apply (load_steps_moves sample_first)|].
  eapply rtc_l; [|by apply (load_steps_moves sample_rest)].
  apply (lm_ledger (H := MemBackend sample_history) _ _ _ st1 sample_diff 6).
  - vm_compute in H1. injection H1 as <-. reflexivity.
  - apply sample_diff_ok.
Qed.

Lemma sample_start_ok : loaded_to sample_history ∅ false (mw_cache load_world).
Proof. split; [apply rtc_refl|done]. Qed.

Lemma loadCacheFromDb_full_witness :
  exists st, sample_end = Some st /\ numRemaining st = 0%nat /\
    isFull (mw_cache (world st)) = true /\ (get 20 6 (mw_cache (world st))).1 = L sample_history 6 !! 20.
Proof.
  pose proof (loadCacheFromDb_full (CSv := MemServing sample_history) sample_history
    (mem_fetchLedgerDiff sample_history 5) (fun _ => 0%nat) 5 1 2 2 1 sample_diff_reads ∅
    ltac:(lia) ltac:(cbn; lia) ltac:(lia) ltac:(lia) ltac:(vm_compute; reflexivity) load_world
    (conj sample_start_ok (Nat.lt_0_succ 0))) as Ht.
  match type of Ht with match ?m with _ => _ end =>
    assert (Hok : m = (Ok sample_loaders, load_world)) by (vm_compute; reflexivity); rewrite Hok in Ht end.
  destruct sample_end as [st|] eqn:He; [|vm_compute in He; discriminate He].
  exists st. specialize (Ht st (sample_run_moves st He)). cbn zeta in Ht. destruct Ht as (_ & _ & _ & _ & Hget).
  vm_compute in He. injection He as <-. split; [reflexivity|]. split; [reflexivity|]. split; [reflexivity|].
  apply (Hget ltac:(reflexivity) 20). reflexivity.
Defined.

Lemma sample_cursors_ok : cursors_ok sample_history [None; Some 10; Some 30; None].
Proof.
  split; [eexists; split_and!; [reflexivity|done|done]|].
  intros c Hc. rewrite !elem_of_cons in Hc. destruct Hc as [Hc|[Hc|[Hc|[Hc|Hc%not_elem_of_nil]]]]; try done.
  - injection Hc as ->. by exists [1].
  - injection Hc as ->. by exists [3].
Qed.

Lemma loadCacheFromDb_ends_witness :
  work sample_history sample_loaders = 21%nat /\
  exists st, sample_end = Some st /\ numRemaining st = 0%nat /\ work sample_history (loaders st) = 0%nat /\
    work sample_history (loaders (load_start load_world sample_loaders)) = (3 * (2 * size (L sample_history 5) + 3))%nat.
Proof.
  destruct (loadCacheFromDb_ends (CSv := MemServing sample_history) sample_history 2 1
    [None; Some 10; Some 30; None] load_world ∅ ltac:(lia) ltac:(lia) ltac:(vm_compute; reflexivity)
    sample_cursors_ok sample_start_ok) as [Hw _].
  split; [vm_compute; reflexivity|]. destruct sample_end as [st|] eqn:He; [|vm_compute in He; discriminate He].
  exists st. vm_compute in He. injection He as <-. split; [reflexivity|]. split; [reflexivity|]. split; [reflexivity|]. exact Hw.
Defined.
