(* ===== verification/CacheLoadCassandra.v ===== *)
(** * Loading the cache from Cassandra

    The Cassandra backend serves the loading of the cache ([CacheServing]): over
    tables that represent a history and hold its diffs, the diffs are read right,
    and a read that times out uses patience up. The theorem of [CacheLoad] then
    holds of the two together. *)

From stdpp Require Import base list gmap strings sorting relations.
From Stdlib Require Import ZArith Lia.
From S2P Require Import Prelude Types SimpleCache Backend Cql Cassandra Tables CassandraSpec CacheLoad.

Open Scope Z_scope.

(** The rows of a result, read as keys. *)
Lemma each_row_keys `{CA : CassApi} `{CL : !CassApiLaws} (bs : list Blob) b res n :
  (length bs <= n)%nat ->
  each_row getUInt256 n (mkResult res (Some [CBytes b]) ((fun b => [CBytes b]) <$> bs) 0) =
  Ok (uint256_fromVoid <$> b :: bs).
Proof.
  revert b n. induction bs as [|b' bs IH]; intros b [|n] Hn; cbn in Hn; try lia;
    unfold each_row; fold (each_row (A := uint256)); (erewrite getUInt256_at by done); try done.
  specialize (IH b' n ltac:(lia)). unfold mbind, Res_bind, nextRow, advance. cbn [iter_ fmap list_fmap].
  exact (f_equal (fun r => match r with Ok a => Ok (uint256_fromVoid b :: a) | Throw e => Throw e | NoFuel => NoFuel end) IH).
Qed.

Section cassandra.
Context {D} `{CS : CassSession D} {tables patience acked}
  `{SL : !SessionLaws tables patience acked} `{CA : CassApi} `{CL : !CassApiLaws} `{NU : NftUtils}.
Context (fuel : nat) (uninit : Z) (h : history) (T : Tables) (HT : represents T (L h)).

Local Abbreviation serves n := (serving (tables := tables) (patience := patience) n T).

(** The diff rows of the ledgers [lo] to [hi] are the changed keys. *)
Record holds_diffs (lo hi : Z) : Prop := {
  hd_in : forall s b, lo <= s <= hi -> b ∈ default ∅ (t_diff T !! s) -> exists k, valid_key k /\ b = uint256_bytes k;
  hd_all : forall s k, lo <= s <= hi -> L h s !! k <> L h (s - 1) !! k ->
    uint256_bytes k ∈ default ∅ (t_diff T !! s);
  hd_out : forall s, ~ lo <= s <= hi -> t_diff T !! s = None
}.

Lemma serving_bounded (R : SimpleCache -> Prop) n :
  (n <= fuel)%nat -> (forall c, R c -> exists ld, reach h c ld) ->
  (forall c k s, R c -> R (get k s c).2) -> (forall c k s, R c -> R (getSuccessor k s c).2) ->
  ReadLaws (H := CassandraImpl fuel uninit) (L h) (serves n R)
    (fun e w => read_fails e /\ serves (pred n) R w).
Proof.
  intros Hn HR Hget Hsucc.
  apply (bounded_ReadLaws (tables := tables) (patience := patience) (acked := acked) fuel uninit h n); [done|..].
  - intros w (H1 & H2 & H3 & H4). exists T. split; [done|]. split; [by apply reading_self|].
    split; intros w' (_ & d & -> & HT' & Hp); exact (conj HT' (conj Hp (conj H3 H4))).
  - intros w (_ & _ & _ & H4). by apply HR.
  - intros w k s (H1 & H2 & H3 & H4). exact (conj H1 (conj H2 (conj H3 (Hget _ k s H4)))).
  - intros w k s (H1 & H2 & H3 & H4). exact (conj H1 (conj H2 (conj H3 (Hsucc _ k s H4)))).
Qed.

Lemma loaded_bounded ld full n :
  (n <= fuel)%nat ->
  ReadLaws (H := CassandraImpl fuel uninit) (L h) (serves n (loaded_to h ld full))
    (fun e w => read_fails e /\ serves (pred n) (loaded_to h ld full) w).
Proof.
  intros Hn. apply serving_bounded; [done|intros c [? _]; by eexists|intros c k s; apply loaded_to_get|].
  intros c k s. apply loaded_to_successor.
Qed.

Lemma serves_mono R n m w : (n <= m)%nat -> serves n R w -> serves m R w.
Proof. intros Hn (H1 & H2 & H3 & H4). split; [done|]. split; [lia|]. by split. Qed.

#[export] Instance CassandraServing :
  CacheServing (H := CassandraImpl fuel uninit) h (serves fuel) (fun R e w => read_fails e /\ serves fuel R w).
Proof.
  split.
  - intros ld full. pose proof (loaded_bounded ld full fuel (le_n _)) as HL. split; try apply HL.
    + intros k s Hk. eapply triple_conseq; [by apply HL|done|done|].
      intros e w [He Hw]. split; [done|]. eapply serves_mono; [|exact Hw]. lia.
    + intros ks s Hk. eapply triple_conseq; [by apply HL|done|done|].
      intros e w [He Hw]. split; [done|]. eapply serves_mono; [|exact Hw]. lia.
    + intros k s Hk. eapply triple_conseq; [by apply HL|done|done|].
      intros e w [He Hw]. split; [done|]. eapply serves_mono; [|exact Hw]. lia.
  - by intros R w [_ Hw].
  - by intros R w (_ & _ & _ & Hc).
  - intros R R' c w (H1 & H2 & H3 & _) Hc. exact (conj H1 (conj H2 (conj H3 Hc))).
  - done.
Qed.

Lemma diff_keys (lo hi s : Z) :
  holds_diffs lo hi ->
  let ks := uint256_fromVoid <$> elements (default ∅ (t_diff T !! s)) in
  NoDup ks /\ Forall valid_key ks /\ diff_of h lo hi s (object_at (L h s) <$> ks).
Proof.
  intros Hd ks.
  assert (Hk : forall b, b ∈ elements (default ∅ (t_diff T !! s)) ->
    lo <= s <= hi /\ exists k, valid_key k /\ b = uint256_bytes k).
  { intros b Hb%elem_of_elements. destruct (decide (lo <= s <= hi)) as [Hs|Hs]; [split; [done|by eapply hd_in]|].
    rewrite (hd_out _ _ Hd s Hs) in Hb. by apply elem_of_empty in Hb. }
  assert (Hnd : NoDup ks).
  { apply NoDup_fmap_2_strong; [|apply NoDup_elements].
    intros b1 b2 (_ & k1 & Hv1 & ->)%Hk (_ & k2 & Hv2 & ->)%Hk. rewrite !uint256_fromVoid_bytes by done. by intros ->. }
  split; [done|]. split.
  - apply Forall_forall. intros k Hin. apply list_elem_of_fmap in Hin as (b & -> & (_ & k & Hv & ->)%Hk).
    by rewrite uint256_fromVoid_bytes.
  - split.
    + intros Hs. apply objects_diff; [done|]. intros k Hn.
      destruct (decide (L h s !! k = L h (s - 1) !! k)) as [|Hne]; [done|]. destruct Hn.
      assert (Hv : valid_key k).
      { destruct (L h s !! k) as [b|] eqn:Hb; [by eapply L_valid|].
        destruct (L h (s - 1) !! k) as [b|] eqn:Hb'; [by eapply L_valid|done]. }
      apply list_elem_of_fmap. exists (uint256_bytes k). rewrite uint256_fromVoid_bytes by done. split; [done|].
      apply elem_of_elements. by eapply hd_all.
    + intros Hs. unfold ks. by rewrite (hd_out _ _ Hd s Hs).
Qed.

(** The diffs are read right, and a read that fails uses patience up. *)
Lemma fetchLedgerDiff_reads lo (Hd : holds_diffs lo (s0 h)) ld s :
  patient (fun w => patience (db w)) (serves fuel (loaded_to h ld false)) (fetchLedgerDiff fuel uninit s)
    (fun r w => diff_of h lo (s0 h) s r /\ serves fuel (loaded_to h ld false) w).
Proof.
  intros w0. set (n := S (patience (db w0))).
  apply (triple_conseq _ (fun w => (n <= fuel)%nat /\ serves n (loaded_to h ld false) w) _ _
    (fun r w => diff_of h lo (s0 h) s r /\ (n <= fuel)%nat /\ serves n (loaded_to h ld false) w) _
    (fun e w => (n <= fuel)%nat /\ serves (pred n) (loaded_to h ld false) w)).
  - apply triple_pre_pure. intros Hn. unfold fetchLedgerDiff.
    pose proof (loaded_bounded ld false n Hn) as HL.
    eapply (triple_bind _ _ _ (fun r w => (exists rows,
      rows = ((fun b => [CBytes b]) <$> elements (default ∅ (t_diff T !! s))) /\ CassandraResult_make (Some rows) = Ok r) /\
      serves n (loaded_to h ld false) w)).
    { intros w (H1 & H2 & H3 & H4).
      assert (Hw : reading (tables := tables) (patience := patience) w T n w) by (by apply reading_self).
      pose proof (read_stmt_within (SL := SL) fuel w T (selectDiff_stmt s) selectDiff_ [CInt64 s] n Hn
        ltac:(solve_binds) ltac:(done) ltac:(done) w Hw) as Hr.
      destruct (read_stmt _ _ w) as [[r|e|] w']; [| |done].
      - destruct Hr as [(flip & rows & [= <-] & Hmk) (_ & d & -> & HT' & Hp)].
        split; [by eexists|]. exact (conj HT' (conj Hp (conj H3 H4))).
      - destruct Hr as [_ (_ & d & -> & HT' & Hp)]. split; [done|]. exact (conj HT' (conj Hp (conj H3 H4))). }
    intros r. apply triple_pre_pure. intros (rows & -> & Hmk).
    destruct (diff_keys lo (s0 h) s Hd) as (_ & Hv & Hdiff).
    destruct (elements (default ∅ (t_diff T !! s))) as [|b bs]; cbn in Hmk; injection Hmk as <-.
    + rewrite hasResult_none by done. cbn [negb]. apply triple_ret. intros w Hw. by split.
    + erewrite hasResult_row by done. cbn [negb numRows result_ default length].
      fold_fmap. rewrite each_row_keys by (cbn; rewrite length_fmap; lia). apply triple_ok_bind.
      set (ks := uint256_fromVoid <$> b :: bs) in *.
      eapply triple_bind.
      { eapply triple_conseq; [apply (fetchLedgerObjects_reads (ReadLaws0 := HL) ks s Hv)|done|done|].
        intros e w [_ Hw]. by split. }
      intros objs. apply triple_pre_pure. intros ->. apply triple_ret. intros w Hw.
      split; [|by split]. rewrite zip_with_fmap_r, zip_with_diag. exact Hdiff.
  - intros w [-> (H1 & H2 & H3 & H4)]. split; [unfold n; lia|]. split; [done|]. split; [unfold n; lia|]. by split.
  - intros r w (Hr & Hn & Hw). split; [split; [done|by eapply serves_mono]|]. destruct Hw as (_ & Hp & _). unfold n in Hp. lia.
  - intros e w [Hn Hw]. split; [eapply serves_mono; [|exact Hw]; lia|]. destruct Hw as (_ & Hp & _). unfold n in Hp. cbn in Hp. lia.
Qed.

(** The cache loaded from a Cassandra database that holds the ledgers and the
    diffs of the last ones. *)
Corollary loadCacheFromDb_Cassandra (lo : Z) (numCacheDiffs_ numCacheMarkers_ : nat) (cachePageFetchSize_ : Z) ld :
  holds_diffs lo (s0 h) ->
  0 < lo -> s0 h < 2 ^ 32 -> Z.of_nat numCacheDiffs_ < 2 ^ 32 -> 0 < cachePageFetchSize_ ->
  L h (s0 h) !! firstKey = None ->
  triple (fun w => serves fuel (loaded_to h ld false) w /\ (patience (db w) < fuel)%nat)
    (loadCacheFromDb (fetchLedgerDiff fuel uninit) fuel numCacheDiffs_ (s0 h))
    (fun ls w => forall st,
       rtc (load_moves (H := CassandraImpl fuel uninit) numCacheMarkers_ cachePageFetchSize_ h) (load_start w ls) st ->
       numRemaining st = 0%nat -> disabled_ (c_cache (world st)) = false ->
       isFull (c_cache (world st)) = true /\
       forall k, 0 < latestLedgerSequence (c_cache (world st)) ->
         (get k (latestLedgerSequence (c_cache (world st))) (c_cache (world st))).1 =
         L h (latestLedgerSequence (c_cache (world st))) !! k)
    (fun e w => serves fuel (loaded_to h ld false) w /\ e <> DatabaseTimeout).
Proof.
  intros Hd Hlo Hs Hn Hl Hf.
  eapply triple_conseq; [apply (load_from_db (CSv := CassandraServing) h (fetchLedgerDiff fuel uninit)
    (fun w => patience (db w)) lo fuel numCacheDiffs_ numCacheMarkers_ cachePageFetchSize_
    (fetchLedgerDiff_reads lo Hd) ld); done|done| |done].
  intros ls w H st Hrun Hz Hdis. destruct (H st Hrun) as (_ & _ & _ & Hend & Hget).
  destruct (Hend Hz) as [Hfull|Hdis']; [|cbn in Hdis'; congruence]. split; [done|]. by apply Hget.
Qed.

End cassandra.
