(* ===== verification/Publish.v ===== *)
(** * Publishing ledgers

    The two [publishLedger] and the loops [monitor] and [monitorReadOnly] of
    [src/src/etl/ReportingETL.cpp]: a node that does not write the ledgers itself
    follows the database, applying the diff of each new ledger to its cache before
    it announces it. The announcements ([SubscriptionManager]), the clock, the
    flags and the functions of the backend that [BackendInterface] declares pure
    virtual are the class [Publisher]. *)

From stdpp Require Import base list gmap strings sorting relations.
From Stdlib Require Import ZArith Lia.
From S2P Require Import Prelude Types TreeRipple SimpleCache Backend NFTHelpers CacheLoad.

Open Scope Z_scope.

Class Publisher (W : Type) := {
  fetchLedgerDiff : Z -> M W (list LedgerObject);
  fetchAllTransactionsInLedger : Z -> M W (list TransactionAndMetadata);
  fetchLedgerBySequence : Z -> M W (option LedgerInfo);
  writing_ : W -> bool;
  stopping_ : W -> bool;
  setLastClose : Z -> W -> W;
  setLastPublish : W -> W;
  now : M W Z;
  sleep_for : Z -> M W unit;
  pubLedger : LedgerInfo -> Fees -> LedgerRange -> nat -> M W unit;
  pubTransaction : TransactionAndMetadata -> LedgerInfo -> M W unit;
  pubBookChanges : LedgerInfo -> list TransactionAndMetadata -> M W unit;
  waitUntilValidated : Z -> Z -> M W bool
}.

(** Seconds from 1 January 1970 to the epoch of the ledger's close times. *)
Definition rippleEpochStart : Z := 946684800.

(** [lastCloseAgeSeconds] at a time of the clock. *)
Definition closeAge (now_ closeTime : Z) : Z :=
  if now_ <? rippleEpochStart + closeTime then 0 else u32 (now_ - (rippleEpochStart + closeTime)).

Section publishing.
Context `{BI : BackendImpl W} `{Ripple} `{PB : Publisher W}.
Context (fuel : nat).

Fixpoint pub_transactions (txs : list TransactionAndMetadata) (lgrInfo : LedgerInfo) : M W unit :=
  match txs with
  | [] => mret tt
  | tx :: txs' => pubTransaction tx lgrInfo ≫= fun _ => pub_transactions txs' lgrInfo
  end.

(** The diff of the ledger, applied unless this node writes the ledgers. *)
Definition follow_ledger (seq : Z) : M W unit :=
  writing ← gets writing_;
  if (writing : bool) then mret tt
  else
    diff ← retryOnTimeout fuel (fetchLedgerDiff seq);
    modify (fun w => set_cache (update diff seq false (cache_ w)) w) ≫= fun _ =>
    updateRange seq.

Definition announce (lgrInfo : LedgerInfo) : M W unit :=
  fees ← retryOnTimeout fuel (fetchFees (li_seq lgrInfo));
  transactions ← retryOnTimeout fuel (fetchAllTransactionsInLedger (li_seq lgrInfo));
  ledgerRange ← fetchLedgerRange;
  match fees, ledgerRange with
  | Some fees, Some range =>
      pubLedger lgrInfo fees range (length transactions) ≫= fun _ =>
      pub_transactions transactions lgrInfo ≫= fun _ =>
      pubBookChanges lgrInfo transactions
  | _, _ => throw BadOptionalAccess
  end.

(** [publishLedger(LedgerInfo const&)]. *)
Definition publishLedgerInfo (lgrInfo : LedgerInfo) : M W unit :=
  follow_ledger (li_seq lgrInfo) ≫= fun _ =>
  modify (setLastClose (li_closeTime lgrInfo)) ≫= fun _ =>
  t ← now;
  (if closeAge t (li_closeTime lgrInfo) <? 600 then announce lgrInfo else mret tt) ≫= fun _ =>
  modify setLastPublish.

(** [publishLedger(uint32_t, std::optional<uint32_t>)]; [n] bounds the loop. *)
Fixpoint publish_loop (n : nat) (ledgerSequence : Z) (maxAttempts : option Z) (numAttempts : Z) : M W bool :=
  match n with
  | O => no_fuel
  | S n' =>
      stopping ← gets stopping_;
      if (stopping : bool) then mret false
      else
        range ← hardFetchLedgerRangeNoThrow fuel;
        if match range with Some r => maxSequence r <? ledgerSequence | None => true end then
          if match maxAttempts with Some m => m <=? numAttempts | None => false end then mret false
          else sleep_for 1 ≫= fun _ => publish_loop n' ledgerSequence maxAttempts (numAttempts + 1)
        else
          lgr ← retryOnTimeout fuel (fetchLedgerBySequence ledgerSequence);
          match lgr with
          | Some l => publishLedgerInfo l ≫= fun _ => mret true
          | None => throw BadOptionalAccess
          end
  end.

Definition publishLedger (n : nat) (ledgerSequence : Z) (maxAttempts : option Z) : M W bool :=
  publish_loop n ledgerSequence maxAttempts 0.

(** One round of the loop of [monitorReadOnly]. *)
Definition readonly_round (n : nat) (latestSequence : Z) : M W Z :=
  rng ← hardFetchLedgerRangeNoThrow fuel;
  if match rng with Some r => latestSequence <=? maxSequence r | None => false end then
    publishLedger n latestSequence None ≫= fun _ => mret (u32 (latestSequence + 1))
  else waitUntilValidated latestSequence 1000 ≫= fun _ => mret latestSequence.

(** One round of the loop of [monitor]; [pipeline] is [runETLPipeline]. *)
Definition monitor_round (pipeline : Z -> M W (option Z)) (n : nat) (nextSequence : Z) : M W Z :=
  rng ← hardFetchLedgerRangeNoThrow fuel;
  if match rng with Some r => nextSequence <=? maxSequence r | None => false end then
    publishLedger n nextSequence None ≫= fun _ => mret (u32 (nextSequence + 1))
  else
    validated ← waitUntilValidated nextSequence 1000;
    if (validated : bool) then
      success ← publishLedger n nextSequence (Some 10);
      if negb success then
        lastPublished ← pipeline nextSequence;
        mret (match lastPublished with Some l => u32 (l + 1) | None => nextSequence end)
      else mret (u32 (nextSequence + 1))
    else mret nextSequence.

Fixpoint rounds_of (round : Z -> M W Z) (k : nat) (sequence : Z) : M W Z :=
  match k with
  | O => mret sequence
  | S k' => s ← round sequence; rounds_of round k' s
  end.

End publishing.

(** ** A late announcement

    The pipeline posts [publishLedger] for every ledger it builds and clears
    [writing_] when it ends, which may be before the last posts have run. A post
    that runs late applies the diff of its ledger to a cache that is further. *)

Section late.

(** Ledger 7 makes object 10 again, which ledger 6 deleted. *)
Definition again_L (s : Z) : gmap Z Blob :=
  if s <=? 6 then sample_L s else {[10 := [7]; 20 := [2]; 30 := [3]]}.

Definition again_cache : SimpleCache := update [mkLedgerObject 10 [7]] 7 false sample_next.

Lemma again_nonempty s k b : again_L s !! k = Some b -> b <> [].
Proof.
  unfold again_L. case_match; [apply sample_L_nonempty|]. intros H' ->.
  apply lookup_insert_Some in H' as [[_ ?]|[_ H']]; [done|].
  apply lookup_insert_Some in H' as [[_ ?]|[_ H']]; [done|]. by apply lookup_singleton_Some in H' as [_ ?].
Qed.

Lemma again_valid s k b : again_L s !! k = Some b -> valid_key k.
Proof.
  unfold again_L. case_match; [apply sample_L_valid|]. intros H'.
  apply lookup_insert_Some in H' as [[<- ?]|[_ H']]; [unfold valid_key; lia|].
  apply lookup_insert_Some in H' as [[<- ?]|[_ H']]; [unfold valid_key; lia|].
  apply lookup_singleton_Some in H' as [<- ?]. unfold valid_key. lia.
Qed.

Definition again_history : history := mkHistory again_L 5 ltac:(done) again_nonempty again_valid.

Record PubWorld := mkPubWorld { pw_mem : MemWorld; pw_writing : bool; pw_published : list Z }.

Definition mem_lift {A} (m : M MemWorld A) : M PubWorld A := fun w =>
  let '(r, w') := m (pw_mem w) in (r, mkPubWorld w' (pw_writing w) (pw_published w)).

#[export] Instance PubBackend (h : history) : BackendImpl PubWorld := {|
  cache_ := fun w => mw_cache (pw_mem w);
  set_cache := fun c w => mkPubWorld (mkMemWorld c (mw_range (pw_mem w))) (pw_writing w) (pw_published w);
  range := fun w => mw_range (pw_mem w);
  set_range := fun r w => mkPubWorld (mkMemWorld (mw_cache (pw_mem w)) r) (pw_writing w) (pw_published w);
  doFetchLedgerObject := fun k s => mem_lift (doFetchLedgerObject (BackendImpl := MemBackend h) k s);
  doFetchLedgerObjects := fun ks s => mem_lift (doFetchLedgerObjects (BackendImpl := MemBackend h) ks s);
  doFetchSuccessorKey := fun k s => mem_lift (doFetchSuccessorKey (BackendImpl := MemBackend h) k s);
  hardFetchLedgerRange := mret (Some (mkLedgerRange 5 7));
  doFinishWrites := mret true;
  doWriteLedgerObject := fun _ _ _ => mret tt
|}.

Definition mem_header (s : Z) : LedgerInfo := mkLedgerInfo s 0 0 0 0 0 0 0 0 0.

#[export] Instance PubPublisher (h : history) : Publisher PubWorld := {|
  fetchLedgerDiff := fun s => mret (history_diff h s);
  fetchAllTransactionsInLedger := fun _ => mret [];
  fetchLedgerBySequence := fun s => mret (Some (mem_header s));
  writing_ := pw_writing;
  stopping_ := fun _ => false;
  setLastClose := fun _ w => w;
  setLastPublish := fun w => w;
  now := mret 2000000000;
  sleep_for := fun _ => mret tt;
  pubLedger := fun l _ _ _ => modify (fun w => mkPubWorld (pw_mem w) (pw_writing w) (pw_published w ++ [li_seq l]));
  pubTransaction := fun _ _ => mret tt;
  pubBookChanges := fun _ _ => mret tt;
  waitUntilValidated := fun _ _ => mret true
|}.

Lemma again_full : reach again_history sample_full sample_loaded.
Proof.
  eapply rtc_l; [apply (step_page again_history SimpleCache_init ∅ sample_page)|]; [done| |].
  { intros o Ho. unfold sample_page in Ho. rewrite !elem_of_cons in Ho.
    by destruct Ho as [->|[->|Ho%not_elem_of_nil]]. }
  apply rtc_once, step_full. intros k. change (is_Some (sample_L 5 !! k) -> k ∈ sample_loaded). unfold sample_L. simpl.
  intros [b Hb]. apply lookup_insert_Some in Hb as [[<- _]|[_ Hb]]; [set_solver|].
  apply lookup_singleton_Some in Hb as [<- _]. set_solver.
Qed.

Lemma again_reach : reach again_history again_cache sample_loaded.
Proof.
  unfold reach. etrans; [exact again_full|].
  eapply rtc_l; [apply (step_diff again_history sample_full sample_loaded sample_diff 6); [by left|exact sample_diff_ok]|].
  apply rtc_once. apply (step_diff again_history sample_next sample_loaded [mkLedgerObject 10 [7]] 7); [by left|].
  unfold is_diff. split_and!; [apply NoDup_singleton| |].
  - by intros o ->%list_elem_of_singleton.
  - intros k Hk. change (again_L 7 !! k = again_L 6 !! k). unfold again_L, sample_L. simpl. simpl in Hk.
    rewrite lookup_insert_ne; [done|]. intros <-. apply Hk. by left.
Qed.

(** A ledger announced late, when its node has ended writing, sets the node's
    ledger range back and erases from a full cache a key that a later ledger made
    again: until that ledger is announced too, the cache gives a wrong successor for
    the ledger it is at. *)
Theorem late_publish_erases :
  exists w, reach again_history (cache_ (BackendImpl := PubBackend again_history) w) sample_loaded /\
    isFull (mw_cache (pw_mem w)) = true /\ latestLedgerSequence (mw_cache (pw_mem w)) = 7 /\
    range (BackendImpl := PubBackend again_history) w = Some (mkLedgerRange 5 7) /\
    exists w', publishLedgerInfo (BI := PubBackend again_history) (PB := PubPublisher again_history)
        (H := NFTHelpers.SampleRipple) 1 (mem_header 6) w = (Ok tt, w') /\
      range (BackendImpl := PubBackend again_history) w' = Some (mkLedgerRange 5 6) /\
      next_key (L again_history 7) 5 = Some 10 /\
      (fetchSuccessorKey (H := PubBackend again_history) 5 7 w').1 = Ok (Some 20).
Proof.
  exists (mkPubWorld (mkMemWorld again_cache (Some (mkLedgerRange 5 7))) false []).
  split; [exact again_reach|]. split; [done|]. split; [done|]. split; [done|].
  eexists. split; [by vm_compute|]. by vm_compute.
Qed.
End late.

(** ** Following the database *)

(** A reader of ledger objects that parses them does not time out. *)
Definition quiet {A} (r : Res A) : Prop := r <> NoFuel /\ r <> Throw DatabaseTimeout.

Section patience.
Context {W : Type} (patience : W -> nat).

Lemma patient_ret {A} (P : W -> Prop) (a : A) Q : (forall w, P w -> Q a w) -> patient patience P (mret a) Q.
Proof. intros HQ w0 w [-> Hw]. split; [by apply HQ|done]. Qed.

Lemma patient_bind {A B} (P : W -> Prop) (m : M W A) (f : A -> M W B) R Q :
  patient patience P m R -> (forall a w, R a w -> P w) -> (forall a, patient patience (R a) (f a) Q) ->
  patient patience P (m ≫= f) Q.
Proof.
  intros Hm HR Hf w0 w Hw. specialize (Hm w0 w Hw). unfold mbind, M_bind.
  destruct (m w) as [[a|e|] w1]; [|done..]. destruct Hm as [Ha Hle]. specialize (Hf a w1 w1 (conj eq_refl Ha)).
  destruct (f a w1) as [[b|e|] w2]; [| |done].
  - destruct Hf as [? ?]. split; [done|lia].
  - destruct Hf as (HRa & ? & Ht). split_and!; [by eapply HR|lia|]. intros He. specialize (Ht He). lia.
Qed.

Lemma patient_lift {A B} (P : W -> Prop) (r : Res A) (f : A -> M W B) Q :
  quiet r -> (forall a, patient patience P (f a) Q) -> patient patience P (lift_res r ≫= f) Q.
Proof.
  intros [H1 H2] Hf w0 w [-> Hw]. destruct r as [a|e|]; [by apply (Hf a w0 w0)| |done].
  split_and!; [done..|]. intros ->. done.
Qed.

End patience.

(** The cache is at ledger [s] of the history, or switched off. *)
Definition cache_at (h : history) (s : Z) (c : SimpleCache) : Prop :=
  (exists ld, reach h c ld) /\ (disabled_ c = true \/ current h c = s).

(** What a node that does not write relies on. [P s m w]: the cache is at [s], the
    database has been seen to hold the ledgers up to [m]. *)
Class Follows `{BackendImpl W} `{Ripple} `{!Publisher W} (h : history) (patience : W -> nat)
    (P : Z -> Z -> W -> Prop) := {
  fo_cache : forall s m w, P s m w -> cache_at h s (cache_ w);
  fo_set_cache : forall s s' m c w, P s m w -> cache_at h s' c ->
    P s' m (set_cache c w) /\ patience (set_cache c w) = patience w /\ range (set_cache c w) = range w;
  fo_set_range : forall s m r w, P s m w ->
    P s m (set_range r w) /\ patience (set_range r w) = patience w /\ range (set_range r w) = r;
  fo_flags : forall s m w, P s m w -> writing_ w = false /\ stopping_ w = false;
  fo_width : forall s m w, P s m w -> m + 1 < 2 ^ 32;
  fo_fields : forall s m t w, P s m w ->
    (P s m (setLastClose t w) /\ patience (setLastClose t w) = patience w /\ range (setLastClose t w) = range w) /\
    (P s m (setLastPublish w) /\ patience (setLastPublish w) = patience w /\ range (setLastPublish w) = range w);
  fo_range : forall s m rg, patient patience (fun w => P s m w /\ range w = rg) hardFetchLedgerRange
    (fun r w => exists r', r = Some r' /\ m <= maxSequence r' /\ P s (maxSequence r') w /\ range w = rg);
  fo_diff : forall s m q rg, s0 h < q <= m ->
    patient patience (fun w => P s m w /\ range w = rg) (fetchLedgerDiff q)
      (fun d w => is_diff h q d /\ P s m w /\ range w = rg);
  fo_header : forall s m q rg, q <= m ->
    patient patience (fun w => P s m w /\ range w = rg) (fetchLedgerBySequence q)
      (fun l w => (exists l', l = Some l' /\ li_seq l' = q) /\ P s m w /\ range w = rg);
  fo_object : forall s m k q rg,
    patient patience (fun w => P s m w /\ range w = rg) (doFetchLedgerObject k q)
      (fun _ w => P s m w /\ range w = rg);
  fo_transactions : forall s m q rg,
    patient patience (fun w => P s m w /\ range w = rg) (fetchAllTransactionsInLedger q)
      (fun _ w => P s m w /\ range w = rg);
  fo_effect : forall s m rg n, let I w := P s m w /\ range w = rg /\ (patience w < n)%nat in
    triple I now (fun _ => I) noexn /\
    (forall t, triple I (sleep_for t) (fun _ => I) noexn) /\
    (forall l f r k, triple I (pubLedger l f r k) (fun _ => I) noexn) /\
    (forall tx l, triple I (pubTransaction tx l) (fun _ => I) noexn) /\
    (forall l txs, triple I (pubBookChanges l txs) (fun _ => I) noexn) /\
    (forall q t, triple I (waitUntilValidated q t) (fun _ => I) noexn);
  fo_parse : (forall b k, quiet (parseSLE b k)) /\ (forall o f, quiet (getFieldU32 o f)) /\
    (forall o f, quiet (getFieldU64 o f))
}.

Section follow.
Context `{BI : BackendImpl W} `{RP : Ripple} `{PB : !Publisher W} (h : history) {patience P}
  {FO : Follows h patience P}.
Context (fuel : nat).

(** The state between two steps. *)
Definition following (s m : Z) (rg : option LedgerRange) (w : W) : Prop :=
  P s m w /\ range w = rg /\ (patience w < fuel)%nat.

Local Abbreviation no_timeout := (fun e (_ : W) => e <> DatabaseTimeout).

Lemma following_retry {A} s m rg (f : M W A) (Q : A -> W -> Prop) :
  patient patience (fun w => P s m w /\ range w = rg) f Q ->
  triple (following s m rg) (retryOnTimeout fuel f) (fun r w => Q r w /\ (patience w < fuel)%nat) no_timeout.
Proof.
  intros Hf. eapply triple_conseq; [apply (patient_retry patience _ _ _ fuel Hf)| |done|by intros e w []].
  intros w (H1 & H2 & H3). done.
Qed.

Lemma latest_update objs s c :
  disabled_ c = false -> latestSeq_ c < s -> latestSeq_ (update objs s false c) = s.
Proof.
  intros Hd Hs. unfold update. rewrite Hd.
  assert (forall c', latestSeq_ (foldl (update_obj s false) c' objs) = latestSeq_ c') as ->.
  { induction objs as [|o objs IH]; intros c'; [done|]. cbn. rewrite IH. by destruct (update_obj_frame s false c' o). }
  destruct (Z.gtb_spec s (latestSeq_ c)); [done|lia].
Qed.

Lemma update_at s c objs :
  s0 h <= s -> cache_at h s c -> is_diff h (s + 1) objs -> cache_at h (s + 1) (update objs (s + 1) false c).
Proof.
  intros Hs [[ld Hr] Hc] Hd. pose proof (s0_pos h) as Hpos. split.
  - exists ld. eapply rtc_r; [exact Hr|]. apply step_diff; [|done]. destruct Hc as [|Hc]; [by right|left; lia].
  - destruct (disabled_ c) eqn:Hdis; [left; by rewrite (proj2 (update_full _ _ _ _))|right].
    destruct Hc as [|Hc]; [done|]. unfold current in *.
    assert (latestSeq_ c < s + 1) by (destruct (latestSeq_ c =? 0) eqn:Hz; zbool; lia).
    rewrite latest_update by done. by rewrite (proj2 (Z.eqb_neq _ _)) by lia.
Qed.

Lemma follow_ledger_spec s m lo :
  s0 h <= s -> s + 1 <= m ->
  triple (following s m (Some (mkLedgerRange lo s))) (follow_ledger fuel (s + 1))
    (fun _ => following (s + 1) m (Some (mkLedgerRange lo (s + 1)))) no_timeout.
Proof.
  intros Hs Hm. unfold follow_ledger. eapply (triple_bind _ _ _ (fun b w => b = false /\ following s m (Some (mkLedgerRange lo s)) w)).
  { intros w (H1 & H2). split; [by apply (fo_flags s m)|done]. }
  intros b. apply triple_pre_pure. intros ->.
  eapply triple_bind; [apply following_retry, fo_diff; lia|]. intros d.
  intros w ((Hd & HP & Hrg) & Hp). unfold modify, mbind, M_bind, updateRange.
  destruct (fo_set_cache s (s + 1) m (update d (s + 1) false (cache_ w)) w HP) as (HP' & Hp' & Hr').
  { apply update_at; [done|by apply (fo_cache s m)|done]. }
  cbn beta iota. rewrite Hr', Hrg. cbn [minSequence].
  destruct (fo_set_range (s + 1) m (Some (mkLedgerRange lo (s + 1))) _ HP') as (HP'' & Hp'' & Hr'').
  split; [done|]. split; [done|]. lia.
Qed.

Lemma pub_cache_get s k q c : cache_at h s c -> cache_at h s (get k q c).2.
Proof.
  intros [[ld Hr] Hc]. split; [exists ld; eapply rtc_r; [exact Hr|apply step_get]|].
  unfold get. by repeat case_match.
Qed.

Lemma fetchFees_patient s m q rg :
  patient patience (fun w => P s m w /\ range w = rg) (fetchFees q) (fun _ w => P s m w /\ range w = rg).
Proof.
  unfold fetchFees, fetchLedgerObject. destruct (fo_parse (P := P)) as (Hsle & H32 & H64).
  assert (Hfee : forall sle f read, (forall o g, quiet (read o g)) -> quiet (fee_field sle f read)).
  { intros sle f read Hread. unfold fee_field. case_match; [by apply Hread|by split]. }
  assert (Hget : patient patience (fun w => P s m w /\ range w = rg) (cache_get keylet_fees q)
    (fun _ w => P s m w /\ range w = rg)).
  { intros w0 w [-> [HP Hrg]]. unfold cache_get. pose proof (pub_cache_get s keylet_fees q _ (fo_cache s m w0 HP)) as Hc.
    destruct (get keylet_fees q (cache_ w0)) as [r c]. cbn in Hc.
    destruct (fo_set_cache s s m c w0 HP Hc) as (HP' & Hp & Hr). split; [|lia]. split; [done|congruence]. }
  set (I := fun w => P s m w /\ range w = rg) in *.
  apply (patient_bind _ _ _ _ (fun _ => I)); [apply (patient_bind _ _ _ _ (fun _ => I)); [exact Hget|done|]|done|].
  - intros [b|]; [by apply patient_ret|apply fo_object].
  - intros [b|]; [|by apply patient_ret].
    apply patient_lift; [done|]. intros sle. do 4 (apply patient_lift; [by apply Hfee|]; intros ?). by apply patient_ret.
Qed.

Lemma effects s m rg :
  let I := following s m rg in
  triple I now (fun _ => I) noexn /\
  (forall t, triple I (sleep_for t) (fun _ => I) noexn) /\
  (forall l f r k, triple I (pubLedger l f r k) (fun _ => I) noexn) /\
  (forall tx l, triple I (pubTransaction tx l) (fun _ => I) noexn) /\
  (forall l txs, triple I (pubBookChanges l txs) (fun _ => I) noexn) /\
  (forall q t, triple I (waitUntilValidated q t) (fun _ => I) noexn).
Proof. apply fo_effect. Qed.

Lemma triple_noexn {A} Pre (f : M W A) Q : triple Pre f Q noexn -> triple Pre f Q no_timeout.
Proof. intros Hf. by eapply triple_conseq. Qed.

Lemma announce_spec s m rg l :
  is_Some rg -> triple (following s m rg) (announce fuel l) (fun _ => following s m rg) no_timeout.
Proof.
  intros [r ->]. destruct (effects s m (Some r)) as (_ & _ & Hl & Ht & Hb & _). unfold announce.
  eapply triple_bind; [apply following_retry, fetchFees_patient|]. intros fees.
  eapply (triple_bind _ _ _ (fun _ => following s m (Some r))).
  { eapply triple_conseq; [apply following_retry, fo_transactions|by intros w [[? ?] ?]|by intros a w [[? ?] ?]|done]. }
  intros txs. eapply (triple_bind _ _ _ (fun rg w => rg = Some r /\ following s m (Some r) w)).
  { intros w (H1 & H2 & H3). split; [exact H2|by split]. }
  intros rg. apply triple_pre_pure. intros ->. destruct fees as [fees|]; [|by apply triple_throw].
  eapply triple_bind; [apply triple_noexn, Hl|]. intros ?. eapply (triple_bind _ _ _ (fun _ => following s m (Some r))).
  - induction txs as [|tx txs IH]; cbn [pub_transactions]; [by apply triple_ret|].
    eapply triple_bind; [apply triple_noexn, Ht|]. intros ?. exact IH.
  - intros _. apply triple_noexn, Hb.
Qed.

Lemma publishLedgerInfo_spec s m lo l :
  s0 h <= s -> s + 1 <= m -> li_seq l = s + 1 ->
  triple (following s m (Some (mkLedgerRange lo s))) (publishLedgerInfo fuel l)
    (fun _ => following (s + 1) m (Some (mkLedgerRange lo (s + 1)))) no_timeout.
Proof.
  intros Hs Hm Hl. unfold publishLedgerInfo. rewrite Hl. eapply triple_bind; [by apply follow_ledger_spec|]. intros ?.
  set (I := following (s + 1) m (Some (mkLedgerRange lo (s + 1)))).
  eapply (triple_bind _ _ _ (fun _ => I)).
  { intros w (H1 & H2 & H3). destruct (fo_fields (s + 1) m (li_closeTime l) w H1) as [(? & Hp & Hr) _].
    split; [done|]. split; [congruence|lia]. }
  intros _. eapply (triple_bind _ _ _ (fun _ => I)); [apply triple_noexn, effects|]. intros t.
  eapply (triple_bind _ _ _ (fun _ => I)).
  { case_match; [by apply announce_spec|by apply triple_ret]. }
  intros _ w (H1 & H2 & H3). destruct (fo_fields (s + 1) m 0 w H1) as [_ (? & Hp & Hr)].
  split; [done|]. split; [congruence|lia].
Qed.

Lemma range_spec s m rg :
  triple (following s m rg) (hardFetchLedgerRangeNoThrow fuel)
    (fun r w => exists r', (r = Some r' /\ m <= maxSequence r' /\ maxSequence r' + 1 < 2 ^ 32) /\
       following s (maxSequence r') rg w) no_timeout.
Proof.
  eapply triple_conseq; [apply following_retry, fo_range|done| |done].
  intros r w ((r' & -> & Hle & HP & Hrg) & Hp). exists r'. split; [|done].
  split_and!; [done|done|by eapply fo_width].
Qed.

Lemma header_spec s m rg q :
  q <= m ->
  triple (following s m rg) (retryOnTimeout fuel (fetchLedgerBySequence q))
    (fun l w => exists l', (l = Some l' /\ li_seq l' = q) /\ following s m rg w) no_timeout.
Proof.
  intros Hq. eapply triple_conseq; [by apply following_retry, fo_header|done| |done].
  intros l w (((l' & -> & Hl) & HP & Hrg) & Hp). by exists l'.
Qed.

(** A ledger the database has is published at once. *)
Lemma publishLedger_spec n s m lo attempts :
  s0 h <= s -> s + 1 <= m -> (0 < n)%nat ->
  triple (following s m (Some (mkLedgerRange lo s))) (publishLedger fuel n (s + 1) attempts)
    (fun b w => b = true /\ exists m', following (s + 1) m' (Some (mkLedgerRange lo (s + 1))) w) no_timeout.
Proof.
  intros Hs Hm Hn. destruct n as [|n]; [lia|]. unfold publishLedger. cbn [publish_loop].
  eapply (triple_bind _ _ _ (fun b w => b = false /\ following s m (Some (mkLedgerRange lo s)) w)).
  { intros w (H1 & H2). split; [by apply (fo_flags s m)|done]. }
  intros b. apply triple_pre_pure. intros ->.
  eapply triple_bind; [apply range_spec|]. intros r. apply triple_pre_exists. intros r'.
  apply triple_pre_pure. intros (-> & Hle & _). rewrite (proj2 (Z.ltb_ge _ _)) by lia.
  eapply triple_bind; [apply (header_spec _ _ _ (s + 1)); lia|]. intros l. apply triple_pre_exists. intros l'.
  apply triple_pre_pure. intros (-> & Hl).
  eapply triple_bind; [apply publishLedgerInfo_spec; [done|lia|done]|]. intros ?. apply triple_ret. intros w Hw.
  split; [done|]. by exists (maxSequence r').
Qed.

Definition followed (next : Z) (w : W) : Prop :=
  exists m lo, following (next - 1) m (Some (mkLedgerRange lo (next - 1))) w.

Lemma readonly_round_spec n next :
  s0 h < next -> (0 < n)%nat ->
  triple (followed next) (readonly_round fuel n next)
    (fun next' w => next <= next' <= next + 1 /\ followed next' w) no_timeout.
Proof.
  intros Hs Hn. apply triple_pre_exists. intros m. apply triple_pre_exists. intros lo. unfold readonly_round.
  eapply triple_bind; [apply range_spec|]. intros r. apply triple_pre_exists. intros r'.
  apply triple_pre_pure. intros (-> & Hle & Hwidth). destruct (next <=? maxSequence r') eqn:Hcmp; zbool.
  - pose proof (publishLedger_spec n (next - 1) (maxSequence r') lo None ltac:(lia) ltac:(lia) Hn) as Hpub.
    replace (next - 1 + 1) with next in Hpub by lia.
    eapply triple_bind; [exact Hpub|]. intros b. apply triple_pre_pure. intros _.
    apply triple_ret. intros w (m' & Hw). pose proof (s0_pos h). rewrite u32_small by lia. split; [lia|].
    exists m', lo. by replace (next + 1 - 1) with next by lia.
  - eapply triple_bind; [apply triple_noexn, effects|]. intros b. apply triple_ret. intros w Hw. split; [lia|].
    by exists (maxSequence r'), lo.
Qed.

Lemma rounds_spec n k next :
  s0 h < next -> (0 < n)%nat ->
  triple (followed next) (rounds_of (readonly_round fuel n) k next)
    (fun next' w => next <= next' <= next + Z.of_nat k /\ followed next' w) no_timeout.
Proof.
  intros Hs Hn. revert next Hs. induction k as [|k IH]; intros next Hs; cbn [rounds_of].
  - apply triple_ret. intros w Hw. split; [lia|done].
  - eapply triple_bind; [by apply readonly_round_spec|]. intros next1. apply triple_pre_pure. intros H1.
    eapply triple_conseq; [apply IH; lia|done| |done]. intros next' w [? ?]. split; [lia|done].
Qed.

(** C13: A node that only reads follows the database without a gap: after any
    number of rounds of its loop, with reads that time out and are repeated, the
    ledger it goes on with is the one after those it has published, its range ends
    at the last of them, and its cache is a cache of exactly that ledger (or
    switched off), each diff having been applied once and in order. *)
Theorem monitorReadOnly_follows n k next :
  s0 h < next -> (0 < n)%nat ->
  triple (followed next) (rounds_of (readonly_round fuel n) k next)
    (fun next' w => next <= next' <= next + Z.of_nat k /\
       (exists lo, range w = Some (mkLedgerRange lo (next' - 1))) /\
       (exists ld, reach h (cache_ w) ld) /\
       (disabled_ (cache_ w) = true \/ current h (cache_ w) = next' - 1))
    (fun e w => e <> DatabaseTimeout).
Proof.
  intros Hs Hn. eapply triple_conseq; [by apply rounds_spec|done| |done].
  intros next' w (Hle & m & lo & HP & Hrg & _). split; [exact Hle|]. split; [by exists lo|].
  by apply (fo_cache _ m).
Qed.

End follow.

(** ** In memory *)

Definition pub_at (s m : Z) (w : PubWorld) : Prop :=
  cache_at again_history s (mw_cache (pw_mem w)) /\ pw_writing w = false /\ m <= 7.

#[export] Instance PubFollows :
  Follows (H := PubBackend again_history) (H0 := NFTHelpers.SampleRipple) (Publisher0 := PubPublisher again_history)
    again_history (fun _ => 0%nat) pub_at.
Proof.
  assert (Hret : forall {A} (a : A) (P : PubWorld -> Prop) (Q : A -> PubWorld -> Prop), (forall w, P w -> Q a w) ->
    patient (fun _ => 0%nat) P (mret a) Q) by (intros; by apply patient_ret).
  split.
  - by intros s m w (? & _).
  - intros s s' m c w (_ & ? & ?) Hc. by split; [|split].
  - intros s m r w (? & ? & ?). by split; [|split].
  - intros s m w (_ & ? & _). by split.
  - intros s m w (_ & _ & ?). lia.
  - intros s m t w HP. by split; [split; [|split]|split; [|split]].
  - intros s m rg. apply Hret. intros w [(H1 & H2 & H3) Hrg]. exists (mkLedgerRange 5 7). split_and!; try done.
  - intros s m q rg _. apply Hret. intros w [HP Hrg]. split; [apply history_diff_ok|done].
  - intros s m q rg _. apply Hret. intros w [HP Hrg]. split; [by exists (mem_header q)|done].
  - intros s m k q rg w0 w [-> Hw]. split; [exact Hw|done].
  - intros s m q rg. by apply Hret.
  - intros s m rg n. split_and!; intros; by (intros w Hw; exact Hw).
  - split_and!; [by split| |]; intros o f; (split; cbn; unfold get_num; by repeat case_match).
Qed.

Definition pub_world : PubWorld := mkPubWorld (mkMemWorld sample_full (Some (mkLedgerRange 5 5))) false [].

Lemma pub_world_followed : followed (P := pub_at) (patience := fun _ => 0%nat) (BI := PubBackend again_history) 1 6 pub_world.
Proof.
  exists 7, 5. split; [|split; [done|lia]]. split; [|done]. split; [exists sample_loaded; apply again_full|by right].
Qed.

Lemma monitorReadOnly_follows_witness :
  exists w, rounds_of (readonly_round (BI := PubBackend again_history) (H := NFTHelpers.SampleRipple)
      (PB := PubPublisher again_history) 1 1) 3 6 pub_world = (Ok 8, w) /\
    range (BackendImpl := PubBackend again_history) w = Some (mkLedgerRange 5 7) /\
    (disabled_ (mw_cache (pw_mem w)) = true \/ current again_history (mw_cache (pw_mem w)) = 7).
Proof.
  pose proof (monitorReadOnly_follows (FO := PubFollows) again_history 1 1 3 6 ltac:(cbn; lia) ltac:(lia)
    pub_world pub_world_followed) as Ht.
  match type of Ht with match ?m with _ => _ end =>
    assert (Hok : m.1 = Ok 8) by (vm_compute; reflexivity);
    assert (Hr : range (BackendImpl := PubBackend again_history) m.2 = Some (mkLedgerRange 5 7)) by (vm_compute; reflexivity);
    destruct m as [o w] eqn:Hm end.
  cbn in Hok. subst o. exists w. split; [reflexivity|]. split; [exact Hr|].
  destruct Ht as (_ & _ & _ & Hc). exact Hc.
Defined.
