(* ===== verification/Download.v ===== *)
(** * The download of a ledger

    The lemmas on [AsyncCallData] and the loop of [loadInitialLedger] of
    [src/src/etl/ETLSource.cpp]: what the calls, each on its stretch of the key
    space, have written and loaded after any sequence of completions. *)

From stdpp Require Import base list gmap strings sorting.
From Stdlib Require Import ZArith Lia.
From S2P Require Import Prelude Types TreeRipple SimpleCache Backend NFTHelpers Cql Cassandra Tables.
From S2P Require Import CassandraSpec CassandraCommit LedgerRows ETLHelpers ReportingETL ETLSource LedgerWrites.

Open Scope Z_scope.

#[local] Arguments table_row : simpl never.
#[local] Arguments put : simpl never.

(** ** Stretches of the key space *)

Section stretch.
Context (Ldg : gmap Z Blob).

(** The last key of the ledger in the stretch above [m] up to [got]. *)
Definition last_covered (m got : Z) : option Z :=
  match prev_key Ldg (got + 1) with
  | Some k => if m <? k then Some k else None
  | None => None
  end.

Lemma last_covered_Some m got k :
  last_covered m got = Some k <->
  is_Some (Ldg !! k) /\ m < k <= got /\ forall j, k < j <= got -> Ldg !! j = None.
Proof.
  unfold last_covered. destruct (prev_key Ldg (got + 1)) as [x|] eqn:Hx.
  - apply prev_key_Some in Hx as (H1 & H2 & H3). destruct (m <? x) eqn:Hm; zbool.
    + split; [intros [= <-]; split_and!; [done | lia | lia |]; intros; apply H3; lia|].
      intros (G1 & G2 & G3). f_equal. destruct (Z.lt_trichotomy k x) as [Hlt|[->|Hlt]]; [|done|].
      * destruct H1. rewrite G3 in * by lia. done.
      * destruct G1. rewrite H3 in * by lia. done.
    + split; [done|]. intros (G1 & G2 & G3). destruct G1. rewrite H3 in * by lia. done.
  - split; [done|]. intros ([b Hb] & ? & _). by rewrite (proj1 (prev_key_None _ _) Hx k) in Hb by lia.
Qed.

Lemma last_covered_None m got :
  last_covered m got = None <-> forall k, m < k <= got -> Ldg !! k = None.
Proof.
  unfold last_covered. destruct (prev_key Ldg (got + 1)) as [x|] eqn:Hx.
  - apply prev_key_Some in Hx as (H1 & H2 & H3). destruct (m <? x) eqn:Hm; zbool.
    + split; [done|]. intros Hn. destruct H1. rewrite Hn in * by lia. done.
    + split; [|done]. intros _ k Hk. apply H3. lia.
  - split; [|done]. intros _ k Hk. apply (proj1 (prev_key_None _ _) Hx). lia.
Qed.

Lemma last_covered_gap m got got' :
  got <= got' -> (forall j, got < j <= got' -> Ldg !! j = None) ->
  last_covered m got' = last_covered m got.
Proof.
  intros Hle Hn. destruct (last_covered m got) as [k|] eqn:Hk.
  - apply last_covered_Some in Hk as (H1 & H2 & H3). apply last_covered_Some.
    split_and!; [done | lia | lia |]. intros j Hj. destruct (decide (j <= got)); [apply H3 | apply Hn]; lia.
  - apply last_covered_None. intros k Hk'. destruct (decide (k <= got)); [|apply Hn; lia].
    apply (proj1 (last_covered_None m got) Hk). lia.
Qed.

Lemma last_covered_key m got k : is_Some (Ldg !! k) -> m < k <= got ->
  (forall j, k < j <= got -> Ldg !! j = None) -> last_covered m got = Some k.
Proof. intros. by apply last_covered_Some. Qed.

(** Where a stretch with the prefix of the next marker ends. *)
Definition ends_at (np hi : Z) : Prop :=
  (np = 0 /\ hi = 2 ^ 256) \/ (0 < np < 256 /\ hi = np * 2 ^ 248).

(** ** The contract of the nodes *)

Definition start_of (marker : Blob) : Z :=
  if (length marker =? 0)%nat then 0 else uint256_fromVoid marker.

Definition marker_ok (marker : Blob) : Prop :=
  marker = [] \/ exists k, valid_key k /\ marker = uint256_bytes k.

Definition raw_object (kb : Z * Blob) : Blob * Blob := (uint256_bytes kb.1, kb.2).

(** A page: the objects above the marker of the request, in order, up to the
    marker of the answer, which is absent on the last page; others have an
    object. *)
Definition page_ok (marker : Blob) (p : GetLedgerDataResponse) : Prop :=
  exists objs last, gd_objects p = raw_object <$> objs /\
    StronglySorted (fun a b => a.1 < b.1) objs /\
    (forall k b, (k, b) ∈ objs <-> Ldg !! k = Some b /\ start_of marker < k <= last) /\
    ((gd_marker p = [] /\ last = 2 ^ 256 - 1) \/
     (gd_marker p = uint256_bytes last /\ valid_key last /\ objs <> [])).

End stretch.

Lemma first_char_bytes k : valid_key k -> first_char (uint256_bytes k) = k / 2 ^ 248.
Proof.
  intros Hk. change (first_char (uint256_bytes k)) with (u8 (Z.shiftr k 248)).
  rewrite Z.shiftr_div_pow2 by lia. unfold u8. apply Z.mod_small. unfold valid_key in *.
  split; [apply Z.div_pos; lia|]. apply Z.div_lt_upper_bound; lia.
Qed.

(** The test against the prefix of the next marker. *)
Lemma prefix_test np hi k : ends_at np hi -> valid_key k ->
  negb (np =? 0) && (np <=? first_char (uint256_bytes k)) = (hi <=? k).
Proof.
  intros [[-> ->]|[Hnp ->]] Hk.
  - symmetry. apply Z.leb_gt. apply Hk.
  - destruct (Z.eqb_spec np 0); [lia|]. cbn [negb andb]. rewrite first_char_bytes by done.
    apply Bool.eq_iff_eq_true. rewrite !Z.leb_le. split; intros Hle.
    + pose proof (Z.mul_div_le k (2 ^ 248) ltac:(lia)).
      pose proof (Z.mul_le_mono_nonneg_r np (k / 2 ^ 248) (2 ^ 248) ltac:(lia) Hle). lia.
    + apply Z.div_le_lower_bound; lia.
Qed.

(** ** One call *)

Section program.
Context {D : Type} `{CS : CassSession D} {tables : D -> Tables} {patience : D -> nat}
  {acked : D -> list CassandraStatement} `{SL : !SessionLaws tables patience acked}.
Context `{CA : CassApi} `{CL : !CassApiLaws} `{NU : NftUtils} `{R : Ripple} `{RT : !RippleTotal}
  `{SC : SerialCodec}.
Context (fuel : nat) (uninit : Z) (h : history) (Books : Z -> Prop).
Context (data : GetLedgerResponse) (info : LedgerInfo) (w0 : Cass D).

Abbreviation seq := (li_seq info).
Abbreviation New := (L h seq).
Abbreviation T0 := (tables (db w0)).

(** Nothing in the ledger stops the program. *)
Definition load_clean : Prop :=
  txs_parse data info /\
  forall k b, New !! k = Some b ->
    (exists nfts, getNFTDataFromObj seq k b = Ok nfts) /\ (exists d, isBookDir k b = Some (Ok d)).

Context `{LS : !LedgerSetting (tables := tables) (patience := patience) fuel h Books data info w0 load_clean}.
Context (Hs0 : s0 h = seq) (Hseq : 0 < seq < 2 ^ 32).

Abbreviation phase := (phase (tables := tables) (patience := patience) (acked := acked)
  (h := h) (Books := Books) (data := data) (info := info) (w0 := w0)).
Abbreviation broken := (broken (tables := tables) (h := h) (Books := Books) (info := info) (w0 := w0)
  (Clean := load_clean)).
Abbreviation adds := (adds (tables := tables) (patience := patience) (acked := acked)
  (h := h) (Books := Books) (data := data) (info := info) (w0 := w0) (Clean := load_clean)).
Abbreviation succ_stmt := (succ_stmt (h := h) (info := info)).
Abbreviation obj_stmt := (obj_stmt (info := info)).

(** What is written for a stretch: its objects, and their successors but for
    the last. *)
Definition required (m got : Z) (s : CassandraStatement) : Prop :=
  exists k b, New !! k = Some b /\ m < k <= got /\
    (s = obj_stmt (uint256_bytes k) b \/ (last_covered New m got <> Some k /\ s = succ_stmt k)).

Lemma required_gap m got got' s :
  got <= got' -> (forall j, got < j <= got' -> New !! j = None) -> required m got' s -> required m got s.
Proof.
  intros Hle Hn (k & b & Hk & Hr & Hs). exists k, b. split; [done|].
  destruct (decide (k <= got)); [|rewrite Hn in Hk by lia; done].
  split; [lia|]. by rewrite (last_covered_gap New m got got') in Hs.
Qed.

Lemma required_next m got k b s :
  m <= got -> got < k -> New !! k = Some b -> (forall j, got < j < k -> New !! j = None) ->
  required m k s -> required m got s \/ s = obj_stmt (uint256_bytes k) b \/
    (exists j, last_covered New m got = Some j /\ s = succ_stmt j).
Proof.
  intros Hmg Hgk Hk Hn (x & c & Hx & Hr & Hs). destruct (decide (x = k)) as [->|Hne].
  - rewrite Hk in Hx. injection Hx as <-. destruct Hs as [Hs|[Hl _]]; [auto|].
    exfalso. apply Hl. apply last_covered_Some. split_and!; [by rewrite Hk | lia | lia | lia].
  - destruct (decide (x <= got)); [|rewrite Hn in Hx by lia; done].
    destruct Hs as [->|[_ ->]]; [left; exists x, c; split; [done|]; split; [lia | by left]|].
    destruct (decide (last_covered New m got = Some x)) as [Hl|Hl]; [right; right; eauto|].
    left. exists x, c. split; [done|]. split; [lia | by right].
Qed.

(** The objects of a stretch, as the cache gets them. *)
Definition stretch_objs (got got' : Z) (l : list LedgerObject) : Prop :=
  (forall o, o ∈ l -> New !! lo_key o = Some (lo_blob o)) /\
  (forall k, is_Some (New !! k) -> got < k <= got' -> k ∈ (lo_key <$> l)).

Lemma stretch_objs_nil got got' :
  (forall j, got < j <= got' -> New !! j = None) -> stretch_objs got got' [].
Proof.
  intros Hn. split; [by intros o ?%not_elem_of_nil|]. intros k [b Hb] Hk. by rewrite Hn in Hb.
Qed.

Lemma key_bytes_length k : length (uint256_bytes k) = 32%nat.
Proof. unfold uint256_bytes. by rewrite length_fmap, length_seq. Qed.

Definition last_bytes (m got : Z) : Blob :=
  match last_covered New m got with Some k => uint256_bytes k | None => [] end.

Lemma fromVoid_bytes k : valid_key k -> uint256_fromVoid (uint256_bytes k) = k.
Proof. apply uint256_fromVoid_bytes. Qed.

Lemma checked_bytes k : valid_key k -> uint256_fromVoidChecked (uint256_bytes k) = Some k.
Proof.
  intros Hk. unfold uint256_fromVoidChecked. by rewrite key_bytes_length, fromVoid_bytes.
Qed.

(** An object that is not skipped. *)
Lemma process_object_spec C P more np m got k b ups :
  New !! k = Some b -> m <= got -> got < k -> (forall j, got < j < k -> New !! j = None) ->
  negb more && negb (np =? 0) && (np <=? first_char (uint256_bytes k)) = false ->
  triple (phase C seq (fun s => P s \/ required m got s))
    (process_object fuel uninit seq more false np (last_bytes m got, ups) (raw_object (k, b)))
    (fun st w => st = (last_bytes m k, ups ++ [mkLedgerObject k b]) /\
       phase C seq (fun s => P s \/ required m k s) w) broken.
Proof.
  intros Hk Hmg Hgk Hn Hskip. assert (valid_key k) as Hv by by eapply L_valid.
  unfold process_object, raw_object. cbn [fst snd]. rewrite Hskip, checked_bytes, fromVoid_bytes by done.
  assert (last_bytes m k = uint256_bytes k) as ->.
  { unfold last_bytes. rewrite (last_covered_key New m k k); [done | by rewrite Hk | lia | lia]. }
  eapply triple_bind.
  { instantiate (1 := fun _ => phase C seq (fun s => (P s \/ required m got s) \/
      exists j, last_covered New m got = Some j /\ s = succ_stmt j)).
    unfold last_bytes. destruct (last_covered New m got) as [j|] eqn:Hl.
    - rewrite key_bytes_length. cbn [Nat.eqb negb].
      pose proof Hl as ([bj Hj] & Hjr & Hjn)%last_covered_Some.
      assert (valid_key j) as Hvj by by eapply L_valid.
      eapply triple_conseq; [apply (adds_succ C seq j k Hvj) | done | | done].
      + unfold succ_of. rewrite (proj2 (next_key_Some New j k)); [done|].
        split; [by rewrite Hk|]. split; [lia|]. intros i Hi.
        destruct (decide (i <= got)); [apply Hjn; lia | apply Hn; lia].
      + intros ? w. apply phase_weaken; [done|]. intros s [?|(j' & [= <-] & ->)]; auto.
    - apply triple_ret. intros w. apply phase_weaken; [done|]. intros s [?|(j' & ? & _)]; [done|done]. }
  intros ?. apply phase_lift; [apply getNFTDataFromObj_total | |].
  { intros [_ Hcl]. by apply (Hcl k b). }
  intros nfts _. eapply triple_bind; [apply writeNFTs_adds|]. intros ?.
  eapply triple_bind; [apply (writeLedgerObject_adds C seq k b Hv); by rewrite Hk|]. intros ?.
  apply triple_ret. intros w Hw. split; [done|]. revert Hw. apply phase_weaken; [done|].
  intros s [Hs|Hs]; [auto|]. destruct (required_next m got k b s Hmg Hgk Hk Hn Hs) as [?|[->|?]];
    [auto | | auto]. right. by left.
Qed.

(** Skipped objects. *)
Lemma skip_object np hi st kb :
  ends_at np hi -> valid_key kb.1 -> hi <= kb.1 ->
  process_object fuel uninit seq false false np st (raw_object kb) = mret st.
Proof.
  intros Hnp Hv Hk. apply Z.leb_le in Hk. rewrite <- (prefix_test np hi kb.1 Hnp Hv) in Hk.
  unfold process_object, raw_object. destruct st as [lk ups].
  change (negb false) with true. by rewrite andb_true_l, Hk.
Qed.

Lemma skip_objects np hi st objs w :
  ends_at np hi -> (forall kb, kb ∈ objs -> valid_key kb.1 /\ hi <= kb.1) ->
  m_fold (process_object fuel uninit seq false false np) st (raw_object <$> objs) w = (Ok st, w).
Proof.
  intros Hnp. induction objs as [|kb objs IH]; intros Hall; [done|].
  destruct (Hall kb ltac:(by left)) as [Hv Hk]. cbn [fmap list_fmap m_fold].
  rewrite (skip_object np hi st kb Hnp Hv Hk). unfold mbind, M_bind, mret, M_ret.
  apply IH. intros kb' Hin. apply Hall. by right.
Qed.

Definition entries (got last : Z) (objs : list (Z * Blob)) : Prop :=
  StronglySorted (fun a b => a.1 < b.1) objs /\
  forall k b, (k, b) ∈ objs <-> New !! k = Some b /\ got < k <= last.

Lemma entries_cons got last k b objs :
  entries got last ((k, b) :: objs) ->
  New !! k = Some b /\ got < k <= last /\ (forall j, got < j < k -> New !! j = None) /\ entries k last objs.
Proof.
  intros [Hs Hin]. apply StronglySorted_inv in Hs as [Hs Hall]. rewrite Forall_forall in Hall.
  destruct (proj1 (Hin k b) ltac:(by left)) as [Hk Hr]. split_and!; [done | lia | lia | |].
  - intros j Hj. destruct (New !! j) as [c|] eqn:Hc; [|done].
    assert ((j, c) ∈ (k, b) :: objs) as [[= -> ->]|Hin']%elem_of_cons; [apply Hin; split; [done | lia] | lia |].
    specialize (Hall _ Hin'). cbn in Hall. lia.
  - split; [done|]. intros j c. split.
    + intros Hj. specialize (Hall _ Hj). cbn in Hall.
      destruct (proj1 (Hin j c) ltac:(by right)) as [? ?]. split; [done | lia].
    + intros [Hc Hj]. assert ((j, c) ∈ (k, b) :: objs) as [[= -> ->]|?]%elem_of_cons; [|lia|done].
      apply Hin. split; [done | lia].
Qed.

Lemma entries_none got last : entries got last [] -> forall j, got < j <= last -> New !! j = None.
Proof.
  intros [_ Hin] j Hj. destruct (New !! j) as [c|] eqn:Hc; [|done].
  assert ((j, c) ∈ []) as ?%not_elem_of_nil by (by apply Hin). done.
Qed.

(** Nothing is left in the stretch. *)
Lemma stretch_done C P m got got' (ups : list LedgerObject) w :
  got <= got' -> (forall j, got < j <= got' -> New !! j = None) ->
  phase C seq (fun s => P s \/ required m got s) w ->
  (exists new, (last_bytes m got, ups) = (last_bytes m got', ups ++ new) /\ stretch_objs got got' new) /\
  phase C seq (fun s => P s \/ required m got' s) w.
Proof.
  intros Hgg Hn Hw. split.
  - exists []. rewrite app_nil_r. unfold last_bytes. rewrite (last_covered_gap New m got got') by done.
    split; [done | by apply stretch_objs_nil].
  - revert Hw. apply phase_weaken; [done|]. intros s [?|Hs]; [auto|]. right. by apply (required_gap m got got').
Qed.

(** The objects of a page, up to the end of the stretch. *)
Lemma page_fold C P (more : bool) np hi m last objs got ups :
  ends_at np hi -> entries got last objs ->
  let got' := if more then last else Z.min last (hi - 1) in
  m <= got -> got <= got' ->
  triple (phase C seq (fun s => P s \/ required m got s))
    (m_fold (process_object fuel uninit seq more false np) (last_bytes m got, ups) (raw_object <$> objs))
    (fun st w => (exists new, st = (last_bytes m got', ups ++ new) /\ stretch_objs got got' new) /\
       phase C seq (fun s => P s \/ required m got' s) w) broken.
Proof.
  intros Hnp. revert got ups. induction objs as [|[k b] objs IH]; intros got ups Hent got' Hmg Hgg.
  - apply triple_ret. intros w. apply stretch_done; [done|]. intros j Hj.
    apply (entries_none got last Hent). unfold got' in Hj. destruct more; lia.
  - pose proof Hent as (Hk & Hr & Hn & Hent')%entries_cons.
    assert (valid_key k) as Hv by by eapply L_valid.
    destruct (decide (k <= got')) as [Hle|Hgt].
    + cbn [fmap list_fmap m_fold]. eapply triple_bind.
      { apply process_object_spec; [done | done | lia | done |].
        destruct more; [done|]. change (negb false) with true. rewrite andb_true_l, (prefix_test np hi k Hnp Hv). apply Z.leb_gt. lia. }
      intros st. apply triple_pre_pure; intros ->.
      eapply triple_conseq; [apply (IH k (ups ++ [mkLedgerObject k b]) Hent' ltac:(lia) Hle) | done | | done].
      intros st w [(new & -> & Hst) Hw]. split; [|done]. exists (mkLedgerObject k b :: new).
      rewrite <- app_assoc. split; [done|]. destruct Hst as [H1 H2]. split.
      * intros o [->|Ho]%elem_of_cons; [done | by apply H1].
      * intros j Hj Hjr. rewrite fmap_cons. apply elem_of_cons. destruct (decide (j = k)) as [->|]; [by left|].
        right. destruct (decide (j < k)); [|apply H2; [done | lia]].
        destruct Hj as [c Hc]. rewrite Hn in Hc by lia. done.
    + destruct more; [lia|]. assert (hi <= k) by lia. intros w Hw.
      rewrite (skip_objects np hi); [|done|].
      2:{ intros [j c] [[= -> ->]|Hin]%elem_of_cons; cbn; [split; [done | lia]|].
          destruct Hent' as [_ Hin']. apply Hin' in Hin as [Hc ?]. split; [by eapply L_valid | lia]. }
      apply stretch_done; [done | | done]. intros; apply Hn; lia.
Qed.

(** *** The cache while it is being filled *)

(** The keys [K] are loaded; nothing was deleted. *)
Definition loading (K : Z -> Prop) (begun : bool) (c : SimpleCache) : Prop :=
  (exists ld, reach h c ld /\ forall k, K k -> k ∈ ld) /\ full_ c = false /\ disabled_ c = false /\
  deletes_ c = ∅ /\ (latestSeq_ c = seq \/ (begun = false /\ latestSeq_ c = 0)).

(** Without deletions the ETL's update is a background update. *)
Lemma update_obj_same s c o :
  deletes_ c = ∅ -> lo_blob o <> [] -> update_obj s false c o = update_obj s true c o /\
  deletes_ (update_obj s true c o) = ∅.
Proof.
  intros Hd Hb. unfold update_obj. destruct (lo_blob o) as [|b l]; [done|]. cbn [length Nat.eqb negb andb].
  rewrite Hd, bool_decide_false by set_solver. done.
Qed.

Lemma foldl_same s objs c :
  deletes_ c = ∅ -> (forall o, o ∈ objs -> lo_blob o <> []) ->
  foldl (update_obj s false) c objs = foldl (update_obj s true) c objs /\
  deletes_ (foldl (update_obj s true) c objs) = ∅.
Proof.
  revert c. induction objs as [|o objs IH]; intros c Hd Hb; [done|]. cbn [foldl].
  destruct (update_obj_same s c o Hd) as [-> Hd']; [apply Hb; by left|].
  apply IH; [done|]. intros o' Ho'. apply Hb. by right.
Qed.

Lemma update_loading K begun c objs :
  loading K begun c -> (forall o, o ∈ objs -> New !! lo_key o = Some (lo_blob o)) ->
  loading (fun k => K k \/ k ∈ (lo_key <$> objs)) true (update objs seq false c).
Proof.
  intros ((ld & Hr & HK) & Hf & Hd & Hdel & Hl) Hin.
  assert (forall o, o ∈ objs -> lo_blob o <> []) as Hne by (intros o Ho; eapply L_nonempty, Hin, Ho).
  assert (update objs seq false c = update objs seq true c /\ deletes_ (update objs seq true c) = ∅) as [He Hd'].
  { unfold update. rewrite Hd. apply foldl_same; [by destruct (seq >? latestSeq_ c) | done]. }
  rewrite He. split.
  { exists (ld ∪ list_to_set (lo_key <$> objs)). split.
    - eapply rtc_r; [exact Hr|]. rewrite <- Hs0. apply step_page; [done|].
      intros o Ho. rewrite Hs0. by apply Hin.
    - intros k [Hk%HK|Hk]; set_solver. }
  unfold update. rewrite Hd. set (c' := if seq >? latestSeq_ c then _ else c).
  destruct (foldl_frame seq true objs c') as (-> & -> & ->).
  unfold c'. split_and!; [by destruct (_ >? _) | by destruct (_ >? _) | |].
  - unfold update in Hd'. by rewrite Hd in Hd'.
  - left. destruct Hl as [Hl|[_ Hl]]; rewrite Hl.
    + by rewrite Z.gtb_ltb, Z.ltb_irrefl.
    + destruct (seq >? 0) eqn:Hg; zbool; [done | lia].
Qed.

(** *** A step of a call *)

Context {Src : Type} `{RN : RippledNodes Src}.
Context (Hnodes : forall src marker size, marker_ok marker ->
  page_ok New marker (GetLedgerData src seq marker size)).

(** A call that has taken its stretch up to [got]. *)
Record call_at (m hi got : Z) (call : AsyncCallData) : Prop := {
  ca_range : m <= got < hi;
  ca_ends : ends_at (nextPrefix_ call) hi;
  ca_last : lastKey_ call = last_bytes m got
}.

Definition request_at (got : Z) (call : AsyncCallData) : Prop :=
  marker_ok (request_marker call) /\ start_of (request_marker call) = got.

Lemma start_of_bytes k : valid_key k -> start_of (uint256_bytes k) = k.
Proof. intros Hk. unfold start_of. by rewrite key_bytes_length, fromVoid_bytes. Qed.

(** The page that answers a request: where the stretch is then, whether the call
    goes on, and if so that the page had an object. *)
Lemma answered_page src marker size np hi got :
  marker_ok marker -> start_of marker = got -> ends_at np hi -> got < hi ->
  let p := GetLedgerData src seq marker size in
  exists objs last, gd_objects p = raw_object <$> objs /\ entries got last objs /\
    let got' := if has_more np p then last else Z.min last (hi - 1) in
    got <= got' < hi /\
    (if has_more np p then gd_marker p = uint256_bytes last /\ valid_key last /\
       exists k, is_Some (New !! k) /\ got < k <= last
     else got' = hi - 1).
Proof.
  intros Hm Hst Hnp Hlt p. destruct (Hnodes src marker size Hm) as (objs & last & Ho & Hs & Hin & Hmk).
  fold p in Ho, Hmk. rewrite Hst in Hin. exists objs, last. split; [done|]. split; [by split|].
  assert (hi <= 2 ^ 256) as Hhi by (destruct Hnp as [[_ ->]|[? ->]]; lia).
  unfold has_more. destruct Hmk as [[-> ->]|(-> & Hv & Hne)]; [cbn [length Nat.eqb negb andb]; lia|].
  rewrite key_bytes_length, (prefix_test np hi last Hnp Hv). cbn [Nat.eqb negb andb].
  destruct objs as [|[k b] objs]; [done|]. destruct (proj1 (Hin k b) ltac:(by left)) as [Hk Hr].
  destruct (Z.leb_spec hi last); cbn [negb]; [lia|]. split; [lia|]. split; [done|]. split; [done|].
  exists k. split; [by rewrite Hk | lia].
Qed.

(** [process] of a call whose answer has arrived. *)
Lemma process_spec K begun P m hi got call abort src e :
  call_at m hi got call -> request_at got call ->
  triple (phase (loading K begun) seq (fun s => P s \/ required m got s))
    (process fuel uninit seq (receive src seq e call) abort false)
    (fun r w =>
       if abort || negb (cp_status e) then r = (ERRORED, receive src seq e call) /\
         phase (loading K begun) seq (fun s => P s \/ required m got s) w
       else exists got', call_at m hi got' r.2 /\ got <= got' /\
         (r.1 = MORE /\ request_at got' r.2 /\ (exists k, is_Some (New !! k) /\ got < k <= got') \/
          r.1 = DONE /\ got' = hi - 1) /\
         phase (loading (fun k => K k \/ (is_Some (New !! k) /\ got < k <= got')) true) seq
           (fun s => P s \/ required m got' s) w) broken.
Proof.
  intros [Hr Hends Hlast] [Hm Hst]. unfold process. destruct abort; cbn [orb]; [by apply triple_ret|].
  unfold receive. cbn [status_ok]. destruct (cp_status e); cbn [negb]; [|by apply triple_ret].
  cbn [next_ nextPrefix_ lastKey_ cur_ request_marker status_ok].
  destruct (answered_page src (request_marker call) (cp_size e) (nextPrefix_ call) hi got Hm Hst Hends ltac:(lia))
    as (objs & last & -> & Hent & Hgot' & Hmore).
  set (p := GetLedgerData _ _ _ _) in *. set (got' := if has_more _ p then last else _) in *.
  rewrite Hlast. eapply triple_bind.
  { apply (page_fold (loading K begun) P (has_more (nextPrefix_ call) p) (nextPrefix_ call) hi m last objs got []);
      [done | done | lia | apply Hgot']. }
  intros st. apply triple_pre_pure; intros (new & -> & Hnew). fold got' in Hnew |- *. cbn [app].
  eapply triple_bind.
  { instantiate (1 := fun _ => phase (loading (fun k => K k \/ (is_Some (New !! k) /\ got < k <= got')) true) seq
      (fun s => P s \/ required m got' s)).
    intros w (c & issued & Hc & HP & d & l & acks & -> & Hrest). unfold modify. cbn [set_cache CassandraImpl cache_].
    change (c_cache _) with c. destruct Hnew as [Hn1 Hn2].
    pose proof (update_loading K begun c new Hc Hn1) as ((ld & Hre & HK) & Hu).
    exists (update new seq false c), issued. split; [|split; [done|]; by exists d, l, acks].
    split; [|exact Hu]. exists ld. split; [done|]. intros k [Hk|[Hk1 Hk2]]; apply HK; auto. }
  intros ?. apply triple_ret. intros w Hw. exists got'. cbn [fst snd].
  split; [split; cbn [nextPrefix_ lastKey_]; [lia | done | done]|]. split; [lia|]. split; [|done].
  destruct (has_more (nextPrefix_ call) p) eqn:Hhm; [left | by right].
  destruct Hmore as (Hmk & Hv & Hk). split; [done|]. unfold request_at. cbn [request_marker]. rewrite Hmk.
  split; [|done]. split; [right; by exists last | by apply start_of_bytes].
Qed.

(** *** The loop over the completions *)

Section download.
(** The stretches of the calls, the keys loaded and the statements issued
    before. *)
Context (bnd : list (Z * Z)) (K0 : Z -> Prop) (P0 : CassandraStatement -> Prop).

(** What the calls have taken, up to [gots]. *)
Definition taken (gots : list Z) (k : Z) : Prop :=
  K0 k \/ exists i m hi got, bnd !! i = Some (m, hi) /\ gots !! i = Some got /\
    is_Some (New !! k) /\ m < k <= got.
Definition written (gots : list Z) (s : CassandraStatement) : Prop :=
  P0 s \/ exists i m hi got, bnd !! i = Some (m, hi) /\ gots !! i = Some got /\ required m got s.

Abbreviation dl_phase gots begun := (phase (loading (taken gots) begun) seq (written gots)).

Record dl_ok (gots : list Z) (dl : Download) : Prop := {
  dl_length : length (calls dl) = length bnd;
  dl_calls : forall i call, calls dl !! i = Some call ->
    exists m hi got, bnd !! i = Some (m, hi) /\ gots !! i = Some got /\ call_at m hi got call;
  dl_nodup : NoDup (under_way dl);
  dl_under_way : forall i, i ∈ under_way dl -> (i < length bnd)%nat;
  dl_count : (numFinished dl + length (under_way dl) = length bnd)%nat;
  dl_request : forall i call got, i ∈ under_way dl -> calls dl !! i = Some call -> gots !! i = Some got ->
    request_at got call;
  dl_done : dl_abort dl = false -> forall i m hi got, i ∉ under_way dl -> bnd !! i = Some (m, hi) ->
    gots !! i = Some got -> got = hi - 1;
  dl_edges : dl_abort dl = false -> forall i call, i ∉ under_way dl -> calls dl !! i = Some call ->
    lastKey_ call <> [] -> lastKey_ call ∈ edgeKeys dl;
  dl_edge : forall key, key ∈ edgeKeys dl -> exists k, valid_key k /\ key = uint256_bytes k
}.

(** The keys still to come bound the completions. *)
Definition keys_above (got : Z) : nat := length (filter (fun k => got < k) (elements (dom New))).

Definition to_come (gots : list Z) (dl : Download) : nat :=
  sum_list ((fun i => S (keys_above (default 0 (gots !! i)))) <$> under_way dl).

Lemma keys_above_less got got' k :
  got <= got' -> is_Some (New !! k) -> got < k <= got' -> (keys_above got' < keys_above got)%nat.
Proof.
  intros Hle Hk Hr. apply (length_filter_less _ _ _ k); [|lia|lia|intros; lia].
  by apply elem_of_elements, elem_of_dom.
Qed.

Lemma last_bytes_key m got : last_bytes m got <> [] -> exists k, valid_key k /\ last_bytes m got = uint256_bytes k.
Proof.
  unfold last_bytes. destruct (last_covered New m got) as [k|] eqn:Hk; [|done]. intros _.
  apply last_covered_Some in Hk as ([b Hb] & _). exists k. split; [by eapply L_valid | done].
Qed.

(** The next state when call [i] took its stretch further, and goes on. *)
Lemma dl_more gots dl i m hi got' call' :
  dl_ok gots dl -> bnd !! i = Some (m, hi) -> i ∈ under_way dl -> call_at m hi got' call' -> request_at got' call' ->
  dl_ok (<[i := got']> gots)
    (mkDownload (<[i := call']> (calls dl)) (under_way dl) (numFinished dl) (dl_abort dl) (edgeKeys dl)).
Proof.
  intros Hok Hb Hi Hc Hrq. pose proof Hok as [H1 H2 H3 H4 H5 H6 H7 H8 H9].
  split; cbn [calls under_way numFinished dl_abort edgeKeys]; try done.
  - by rewrite length_insert.
  - intros j c. rewrite list_lookup_insert_Some. intros [(-> & <- & Hl)|[Hne Hj]].
    + exists m, hi, got'. split_and!; [done | | done]. rewrite list_lookup_insert_eq; [done|].
      destruct (lookup_lt_is_Some_2 (calls dl) j Hl) as [c0 Hc0]. destruct (H2 j c0 Hc0) as (? & ? & ? & _ & Hg & _).
      by eapply lookup_lt_Some.
    + destruct (H2 j c Hj) as (m' & hi' & g & Hb' & Hg & Hca). exists m', hi', g.
      by rewrite list_lookup_insert_ne.
  - intros j c g Hj. rewrite !list_lookup_insert_Some. intros [(-> & <- & Hl)|[Hne Hcj]] [(He & <- & Hg)|[Hne' Hgj]]; try done.
    by eapply H6.
  - intros Ha j m' hi' g Hj Hb'. rewrite list_lookup_insert_Some. intros [(-> & <- & Hg)|[Hne Hg]]; [done|].
    by eapply H7.
  - intros Ha j c Hj. rewrite list_lookup_insert_Some. intros [(-> & <- & Hg)|[Hne Hg]]; [done|]. by apply (H8 Ha j).
Qed.

(** The same when it finishes. *)
Lemma dl_finish gots dl p i m hi got' call' (err : bool) :
  dl_ok gots dl -> bnd !! i = Some (m, hi) -> under_way dl !! p = Some i -> call_at m hi got' call' ->
  (err = false -> got' = hi - 1) ->
  dl_ok (<[i := got']> gots)
    (mkDownload (<[i := call']> (calls dl)) (delete p (under_way dl)) (S (numFinished dl)) (dl_abort dl || err)
       (if negb (length (lastKey_ call') =? 0)%nat then edgeKeys dl ++ [lastKey_ call'] else edgeKeys dl)).
Proof.
  intros Hok Hb Hp Hc Herr. pose proof Hok as [H1 H2 H3 H4 H5 H6 H7 H8 H9].
  pose proof (delete_Permutation _ _ _ Hp) as Hperm.
  assert ((i ∉ delete p (under_way dl)) /\ NoDup (delete p (under_way dl))) as [Hni Hnd].
  { rewrite Hperm in H3. by apply NoDup_cons in H3. }
  assert (forall j, j ∈ delete p (under_way dl) -> j ∈ under_way dl) as Hsub by (intros j Hj; rewrite Hperm; by right).
  assert (forall j, j ∉ delete p (under_way dl) -> j <> i -> j ∉ under_way dl) as Hsub'.
  { intros j Hj Hne. rewrite Hperm, not_elem_of_cons. done. }
  split; cbn [calls under_way numFinished dl_abort edgeKeys]; try done.
  - by rewrite length_insert.
  - intros j c. rewrite list_lookup_insert_Some. intros [(-> & <- & Hl)|[Hne Hj]].
    + exists m, hi, got'. split_and!; [done | | done]. rewrite list_lookup_insert_eq; [done|].
      destruct (lookup_lt_is_Some_2 (calls dl) j Hl) as [c0 Hc0]. destruct (H2 j c0 Hc0) as (? & ? & ? & _ & Hg & _).
      by eapply lookup_lt_Some.
    + destruct (H2 j c Hj) as (m' & hi' & g & Hb' & Hg & Hca). exists m', hi', g.
      by rewrite list_lookup_insert_ne.
  - intros j Hj. by apply H4, Hsub.
  - rewrite Hperm in H5. cbn [length] in H5. lia.
  - intros j c g Hj. assert (i <> j) by congruence. rewrite !list_lookup_insert_ne by done. by apply H6, Hsub.
  - intros [Ha He]%orb_false_iff j m' hi' g Hj Hb'. rewrite list_lookup_insert_Some. intros [(-> & <- & Hg)|[Hne Hg]].
    + rewrite Hb in Hb'. injection Hb' as <- <-. auto.
    + eapply (H7 Ha j); [by apply Hsub' | done | done].
  - intros [Ha He]%orb_false_iff j c Hj. rewrite list_lookup_insert_Some. intros [(-> & <- & Hg)|[Hne Hg]] Hl.
    + destruct (lastKey_ call'); [done|]. cbn. apply elem_of_app. right. by left.
    + specialize (H8 Ha j c ltac:(by apply Hsub') Hg Hl). destruct (negb _); [|done]. apply elem_of_app. by left.
  - intros key. destruct (lastKey_ call') as [|b l] eqn:Hl; [apply H9|]. cbn [length Nat.eqb negb].
    intros [Hk|Hk%list_elem_of_singleton]%elem_of_app; [by apply H9|]. subst key.
    rewrite <- Hl, (ca_last _ _ _ _ Hc). apply last_bytes_key. by rewrite <- (ca_last _ _ _ _ Hc), Hl.
Qed.

Lemma taken_next gots i m hi got got' k :
  bnd !! i = Some (m, hi) -> gots !! i = Some got -> got <= got' -> taken (<[i := got']> gots) k ->
  taken gots k \/ (is_Some (New !! k) /\ got < k <= got').
Proof.
  intros Hb Hg Hle [Hk|(j & m' & hi' & g & Hb' & Hg' & Hk & Hr)]; [by left; left|].
  apply list_lookup_insert_Some in Hg' as [(-> & <- & _)|[Hne Hg']].
  - rewrite Hb in Hb'. injection Hb' as <- <-. destruct (decide (k <= got)); [|right; split; [done | lia]].
    left. right. exists j, m, hi, got. split_and!; [done | done | done | lia | lia].
  - left. right. by exists j, m', hi', g.
Qed.

Lemma written_next gots i m hi got got' s :
  bnd !! i = Some (m, hi) -> gots !! i = Some got -> written (<[i := got']> gots) s ->
  written gots s \/ required m got' s.
Proof.
  intros Hb Hg [Hs|(j & m' & hi' & g & Hb' & Hg' & Hs)]; [by left; left|].
  apply list_lookup_insert_Some in Hg' as [(-> & <- & _)|[Hne Hg']].
  - rewrite Hb in Hb'. injection Hb' as <- <-. by right.
  - left. right. by exists j, m', hi', g.
Qed.

Lemma loading_weaken (K K' : Z -> Prop) b b' c :
  (forall k, K' k -> K k) -> (b = true \/ b' = false) -> loading K b c -> loading K' b' c.
Proof.
  intros HK Hb ((ld & Hr & Hl) & Hf & Hd & Hdel & Hs). split; [exists ld; auto|]. split_and!; [done..|].
  destruct Hs as [?|[-> ?]]; [by left|]. destruct Hb as [?| ->]; [done | by right].
Qed.

Lemma dl_phase_next gots i m hi got got' w :
  bnd !! i = Some (m, hi) -> gots !! i = Some got -> got <= got' ->
  phase (loading (fun k => taken gots k \/ (is_Some (New !! k) /\ got < k <= got')) true) seq
    (fun s => written gots s \/ required m got' s) w ->
  dl_phase (<[i := got']> gots) true w.
Proof.
  intros Hb Hg Hle. apply phase_weaken.
  - intros c. apply loading_weaken; [|by left]. intros k. by apply (taken_next _ _ _ _ _ _ _ Hb Hg Hle).
  - intros s. by apply (written_next _ _ _ _ _ _ _ Hb Hg).
Qed.

Lemma to_come_more gots dl i got got' k call' :
  i ∈ under_way dl -> gots !! i = Some got -> is_Some (New !! k) -> got < k <= got' ->
  (to_come (<[i := got']> gots) (mkDownload (<[i := call']> (calls dl)) (under_way dl) (numFinished dl)
     (dl_abort dl) (edgeKeys dl)) < to_come gots dl)%nat.
Proof.
  intros Hi Hg Hk Hr. unfold to_come. cbn [under_way]. apply (sum_less _ _ _ i); [done | |].
  - rewrite list_lookup_insert_eq by (by eapply lookup_lt_Some). rewrite Hg. cbn [default]. unfold id.
    pose proof (keys_above_less got got' k ltac:(lia) Hk Hr). lia.
  - intros j Hj. destruct (decide (i = j)) as [->|Hne]; [|by rewrite list_lookup_insert_ne].
    rewrite list_lookup_insert_eq by (by eapply lookup_lt_Some). rewrite Hg. cbn [default]. unfold id.
    pose proof (keys_above_less got got' k ltac:(lia) Hk Hr). lia.
Qed.

Lemma to_come_finish gots gots' dl dl' p i :
  under_way dl !! p = Some i -> under_way dl' = delete p (under_way dl) -> NoDup (under_way dl) ->
  (forall j, j <> i -> gots' !! j = gots !! j) -> (to_come gots' dl' < to_come gots dl)%nat.
Proof.
  intros Hp Hdl Hnd Hsame. unfold to_come. rewrite Hdl.
  assert (i ∉ delete p (under_way dl)) as Hni.
  { rewrite (delete_Permutation _ _ _ Hp) in Hnd. by apply NoDup_cons in Hnd as [? _]. }
  rewrite <- (sum_delete _ (under_way dl) p i Hp).
  assert (((fun i => S (keys_above (default 0 (gots' !! i)))) <$> delete p (under_way dl)) =
    ((fun i => S (keys_above (default 0 (gots !! i)))) <$> delete p (under_way dl))) as ->; [|lia].
  apply list_fmap_ext. intros ? j Hj%list_elem_of_lookup_2. rewrite Hsame; [done|]. by intros ->.
Qed.

(** The completion is carried out and has an OK status. *)
Definition good (e : Completion) : Prop := cp_ok e = true /\ cp_status e = true.

(** One round of the loop. *)
Lemma round_spec src e gots dl begun p i call :
  dl_ok gots dl -> under_way dl !! p = Some i -> calls dl !! i = Some call ->
  triple (dl_phase gots begun) (process fuel uninit seq (receive src seq e call) (dl_abort dl) false)
    (fun r w => exists gots' begun', let dl' := after_process dl p i r.1 r.2 in
       dl_ok gots' dl' /\ (to_come gots' dl' < to_come gots dl)%nat /\ dl_phase gots' begun' w /\
       (dl_abort dl' = true \/ begun' = true) /\
       (cp_status e = true -> dl_abort dl = false -> dl_abort dl' = false)) broken.
Proof.
  intros Hok Hp Hcall. destruct (dl_calls _ _ Hok i call Hcall) as (m & hi & got & Hb & Hg & Hca).
  assert (i ∈ under_way dl) as Hi by (by eapply list_elem_of_lookup_2).
  pose proof (dl_request _ _ Hok i call got Hi Hcall Hg) as Hrq.
  eapply triple_conseq; [apply (process_spec (taken gots) begun (written gots) m hi got call (dl_abort dl) src e Hca Hrq) | | | done].
  { intros w. apply phase_weaken; [done|]. intros s [?|Hs]; [done|]. right. by exists i, m, hi, got. }
  intros [result call'] w. cbn [fst snd]. destruct (dl_abort dl || negb (cp_status e)) eqn:Ha.
  - intros [[= -> ->] Hw]. exists (<[i := got]> gots), begun. unfold after_process.
    change (bool_decide (ERRORED = MORE)) with false. change (bool_decide (ERRORED = ERRORED)) with true.
    cbn [negb andb].
    split; [apply (dl_finish gots dl p i m hi got _ true Hok Hb Hp); [by destruct Hca | done]|].
    split; [eapply to_come_finish; [exact Hp | done | apply Hok |]; intros; by rewrite list_lookup_insert_ne|].
    rewrite (list_insert_id gots i got Hg). split; [revert Hw; apply phase_weaken; [done | by left]|].
    cbn [dl_abort]. rewrite orb_true_r. split; [by left|]. intros He Hd. by rewrite He, Hd in Ha.
  - apply orb_false_iff in Ha as [Ha Hst]. intros (got' & Hca' & Hle & Hres & Hw).
    apply (dl_phase_next gots i m hi got got' w Hb Hg Hle) in Hw. exists (<[i := got']> gots), true.
    unfold after_process. destruct Hres as [(-> & Hrq' & k & Hk & Hkr)|[-> Hend]].
    + change (bool_decide (MORE = MORE)) with true. change (bool_decide (MORE = ERRORED)) with false.
      rewrite orb_false_r. cbn [negb andb].
      split; [by eapply dl_more|]. split; [by eapply to_come_more|]. cbn [dl_abort]. auto.
    + change (bool_decide (DONE = MORE)) with false. change (bool_decide (DONE = ERRORED)) with false.
      cbn [negb andb].
      split; [by apply (dl_finish gots dl p i m hi got' _ false)|].
      split; [eapply to_come_finish; [exact Hp | done | apply Hok |]; intros; by rewrite list_lookup_insert_ne|].
      cbn [dl_abort]. rewrite orb_false_r. auto.
Qed.

(** The loop ends when no call is under way. *)
Lemma loop_ends gots dl events src : dl_ok gots dl -> under_way dl = [] ->
  download_loop fuel uninit src seq false events dl = mret (Some dl).
Proof.
  intros Hok Hu. pose proof (dl_length _ _ Hok). pose proof (dl_count _ _ Hok) as Hc. rewrite Hu in Hc. cbn in Hc.
  destruct events; cbn [download_loop]; destruct (Nat.ltb_spec (numFinished dl) (length (calls dl))); done || lia.
Qed.

Lemma download_loop_spec src events gots dl begun :
  dl_ok gots dl -> (to_come gots dl <= length events)%nat ->
  dl_abort dl = true \/ begun = true \/ under_way dl <> [] ->
  triple (dl_phase gots begun) (download_loop fuel uninit src seq false events dl)
    (fun r w => match r with
       | None => phase (loading K0 false) seq P0 w
       | Some dl' => exists gots' begun', dl_ok gots' dl' /\ under_way dl' = [] /\ dl_phase gots' begun' w /\
           (dl_abort dl' = true \/ begun' = true)
       end /\ (Forall good events -> dl_abort dl = false -> exists dl', r = Some dl' /\ dl_abort dl' = false))
    broken.
Proof.
  revert gots dl begun. induction events as [|e events IH]; intros gots dl begun Hok Hlen Hb0;
    (destruct (decide (under_way dl = [])) as [Hu|Hu];
     [rewrite (loop_ends gots) by done; apply triple_ret; intros w Hw; split; [|by eauto];
      exists gots, begun; split_and!; [done | done | done | naive_solver]|]).
  { unfold to_come in Hlen. destruct (under_way dl); [done|]. cbn in Hlen. lia. }
  cbn [download_loop]. pose proof (dl_length _ _ Hok) as Hl. pose proof (dl_count _ _ Hok) as Hc.
  assert (0 < length (under_way dl))%nat as Hpos by (destruct (under_way dl); [done | cbn; lia]).
  destruct (Nat.ltb_spec (numFinished dl) (length (calls dl))); [|lia].
  set (p := (cp_pick e mod length (under_way dl))%nat).
  destruct (lookup_lt_is_Some_2 (under_way dl) p) as [i Hp]; [apply Nat.mod_upper_bound; lia|]. rewrite Hp.
  destruct (lookup_lt_is_Some_2 (calls dl) i) as [call Hcall].
  { rewrite Hl. apply (dl_under_way _ _ Hok). by eapply list_elem_of_lookup_2. }
  rewrite Hcall. destruct (cp_ok e) eqn:Hcp; cbn [negb].
  2:{ apply triple_ret. intros w Hw. split; [|by intros [[? _] _]%Forall_cons; congruence].
      revert Hw. apply phase_weaken; [|by left]. intros c. apply loading_weaken; [by left | by right]. }
  eapply triple_bind; [by apply round_spec|]. intros [result call'].
  apply triple_pre_exists; intros gots'. apply triple_pre_exists; intros begun'. cbn [fst snd].
  intros w (Hok' & Hless & Hw & Hb' & Hgood).
  pose proof (IH gots' (after_process dl p i result call') begun' Hok' ltac:(cbn [length] in Hlen; lia)
    ltac:(tauto) w Hw) as Hres.
  destruct (download_loop _ _ _ _ _ _ _ w) as [[r|?|] w']; [| done | done].
  destruct Hres as [Hr Hg']. split; [exact Hr|]. intros [[_ Hs] Hall]%Forall_cons Ha. apply Hg'; auto.
Qed.

End download.

End program.
