(* ===== verification/InitialLoad.v ===== *)
(** * What the first load leaves in the database

    The theorems on the download of [src/src/etl/ETLSource.cpp] and on
    [ReportingETL::loadInitialLedger]: on an empty database the first ledger is
    stored in full, with the successor of every key, and the cache is full,
    however the pages of the markers interleave and whatever attempts failed
    before. *)

From stdpp Require Import base list gmap strings sorting.
From Stdlib Require Import ZArith Lia.
From S2P Require Import Prelude Types TreeRipple SimpleCache Backend NFTHelpers Cql Cassandra Tables.
From S2P Require Import CassandraSpec CassandraCommit LedgerRows ETLHelpers ReportingETL ETLSource LedgerWrites.
From S2P Require Import BuildLedger Download.

Open Scope Z_scope.

#[local] Arguments table_row : simpl never.
#[local] Arguments put : simpl never.

(** ** One attempt *)

Section program.
Context {D : Type} `{CS : CassSession D} {tables : D -> Tables} {patience : D -> nat}
  {acked : D -> list CassandraStatement} `{SL : !SessionLaws tables patience acked}.
Context `{CA : CassApi} `{CL : !CassApiLaws} `{NU : NftUtils} `{R : Ripple} `{RT : !RippleTotal}
  `{SC : SerialCodec}.
Context (fuel : nat) (uninit : Z) (h : history) (Books : Z -> Prop).
Context (data : GetLedgerResponse) (info : LedgerInfo) (w0 : Cass D).

Abbreviation seq := (li_seq info).
Abbreviation New := (L h seq).
Abbreviation T0 := (tables (db w0)).

Context `{LS : !LedgerSetting (tables := tables) (patience := patience) fuel h Books data info w0
  (load_clean h data info)}.
Context (Hs0 : s0 h = seq) (Hseq : 0 < seq < 2 ^ 32).
Context {Src : Type} `{RN : RippledNodes Src}.
Context (Hnodes : forall src marker size, marker_ok marker ->
  page_ok New marker (GetLedgerData src seq marker size)).

Abbreviation load_clean := (load_clean h data info).
Abbreviation loading := (loading h info).
Abbreviation required := (required h info).
Abbreviation last_bytes := (last_bytes h info).
Abbreviation call_at := (call_at h info).
Abbreviation dl_ok := (dl_ok h info).
Abbreviation taken := (taken h info).
Abbreviation written := (written h info).
Abbreviation keys_above := (keys_above h info).
Abbreviation to_come := (to_come h info).

Abbreviation phase := (phase (tables := tables) (patience := patience) (acked := acked)
  (h := h) (Books := Books) (data := data) (info := info) (w0 := w0)).
Abbreviation broken := (broken (tables := tables) (h := h) (Books := Books) (info := info) (w0 := w0)
  (Clean := load_clean)).
Abbreviation adds := (adds (tables := tables) (patience := patience) (acked := acked)
  (h := h) (Books := Books) (data := data) (info := info) (w0 := w0) (Clean := load_clean)).
Abbreviation succ_stmt := (succ_stmt (h := h) (info := info)).
Abbreviation obj_stmt := (obj_stmt (info := info)).

(** *** After the download *)

Definition loaded (c : SimpleCache) : Prop :=
  (exists ld, reach h c ld) /\ full_ c = true /\ disabled_ c = false /\ latestSeq_ c = seq.

Lemma setFull_loaded K c :
  (forall k, is_Some (New !! k) -> K k) -> loading K true c -> loaded (setFull c).
Proof.
  intros HK ((ld & Hr & Hl) & Hf & Hd & _ & Hs). split.
  - exists ld. eapply rtc_r; [exact Hr|]. apply step_full. intros k. rewrite Hs0. auto.
  - unfold setFull. rewrite Hd. cbn. destruct Hs as [?|[? _]]; done.
Qed.

Lemma loaded_succ k c : loaded c ->
  (lo_key <$> (getSuccessor k seq c).1 = next_key New k /\
   forall o, (getSuccessor k seq c).1 = Some o -> New !! lo_key o = Some (lo_blob o)) /\
  loaded (getSuccessor k seq c).2.
Proof.
  intros ((ld & Hr) & Hf & Hd & Hs). split; [split|].
  - by eapply cache_next; [.. | lia].
  - intros o Ho. destruct (full_neighbours h c ld k seq Hr Hf ltac:(done) ltac:(lia)) as [Hn _].
    by apply (Hn o) in Ho as (? & _).
  - split; [exists ld; eapply rtc_r; [exact Hr | constructor]|].
    unfold getSuccessor, getSuccessor_enter, getSuccessor_lookup. rewrite Hf. cbn.
    destruct (seq =? latestSeq_ c); cbn; [|done]. by destruct (upper_bound k (map_ c)) as [[]|].
Qed.

Lemma loaded_get k c : loaded c -> (get k seq c).1 = New !! k /\ loaded (get k seq c).2.
Proof.
  intros ((ld & Hr) & Hf & Hd & Hs). split; [by eapply full_get; [.. | lia]|].
  split; [exists ld; eapply rtc_r; [exact Hr | constructor]|]. unfold get. by repeat case_match.
Qed.

Lemma loaded_size c : loaded c -> (length (elements (dom New)) <= cache_size c)%nat.
Proof.
  intros Hc. change (size (dom New) <= cache_size c)%nat. unfold cache_size. rewrite <- (size_dom (map_ c)).
  apply subseteq_size. intros k [b Hk]%elem_of_dom. destruct (loaded_get k c Hc) as [Hg _]. rewrite Hk in Hg.
  apply elem_of_dom. unfold get in Hg. destruct (seq >? latestSeq_ c); [done|]. cbn in Hg.
  by destruct (map_ c !! k).
Qed.

Lemma write_edge_adds k :
  valid_key k ->
  adds loaded seq (write_edge fuel uninit seq (uint256_bytes k))
    (fun _ s => is_Some (next_key New k) /\ s = succ_stmt k).
Proof.
  intros Hk P. unfold write_edge. rewrite checked_bytes by done.
  eapply triple_bind; [apply (phase_cache loaded loaded seq P (getSuccessor k seq)
    (fun r => lo_key <$> r = next_key New k))|].
  { intros c Hc. by destruct (loaded_succ k c Hc) as [[? _] ?]. }
  intros r. apply triple_pre_pure; intros Hr. destruct r as [o|]; cbn in Hr; rewrite <- Hr.
  - eapply triple_conseq; [apply (adds_succ loaded seq k (lo_key o) Hk) | done | | done].
    + unfold succ_of. by rewrite <- Hr.
    + intros ? w. apply phase_weaken; [done|]. intros s [?|[_ ->]]; auto.
  - apply triple_ret. intros w. apply phase_weaken; [done|]. intros s [?|[[? ?] _]]; done.
Qed.

(** The book directories cause no writes: each is in the cache itself. *)
Lemma write_first_dir_adds cur :
  New !! lo_key cur = Some (lo_blob cur) ->
  adds loaded seq (write_first_dir fuel uninit seq cur) (fun _ _ => False).
Proof.
  intros Hcur P. unfold write_first_dir. eapply triple_bind.
  { instantiate (1 := fun _ => phase loaded seq P). unfold is_book_dir.
    assert (load_clean -> exists d, isBookDir (lo_key cur) (lo_blob cur) = Some (Ok d)) as Hcl.
    { intros [_ Hcl]. by apply Hcl. }
    destruct (isBookDir (lo_key cur) (lo_blob cur)) as [r|] eqn:Hd.
    - pose proof (isBookDir_total _ _ _ Hd) as Htot. intros w Hw. unfold lift_res.
      destruct r as [d|e|]; [done | | done]. apply (phase_broken loaded seq P e) with (2 := Hw).
      intros [d ?]%Hcl. done.
    - intros w Hw. apply (phase_broken loaded seq P BadOptionalAccess) with (2 := Hw). intros [d ?]%Hcl. done. }
  assert (forall w, phase loaded seq P w -> phase loaded seq (fun s => P s \/ False) w) as Hend.
  { intros w. apply phase_weaken; [done|]. intros s [?|[]]; done. }
  intros [|]; [|by apply triple_ret]. eapply triple_bind.
  { apply (phase_cache loaded loaded seq P (get (lo_key cur) seq) (fun r => r = New !! lo_key cur)).
    apply loaded_get. }
  intros r. apply triple_pre_pure; intros ->. rewrite Hcur. by apply triple_ret.
Qed.

(** The walk ends at the last key, having written the successor of the first. *)
Lemma cache_walk_spec n prev P :
  prev = firstKey \/ is_Some (New !! prev) -> (keys_above prev < n)%nat ->
  triple (phase loaded seq P) (cache_walk fuel uninit n seq prev)
    (fun r w => (next_key New r = None /\ (r = firstKey \/ is_Some (New !! r))) /\
       phase loaded seq (fun s => P s \/ (prev = firstKey /\ is_Some (next_key New firstKey) /\ s = succ_stmt firstKey)) w)
    broken.
Proof.
  revert prev P. induction n as [|n IH]; intros prev P Hprev Hn; [lia|]. cbn [cache_walk].
  eapply triple_bind; [apply (phase_cache loaded loaded seq P (getSuccessor prev seq)
    (fun r => lo_key <$> r = next_key New prev /\ forall o, r = Some o -> New !! lo_key o = Some (lo_blob o)))|].
  { intros c Hc. by apply loaded_succ. }
  intros [cur|]; apply triple_pre_pure; intros [Hcur Hblob]; cbn in Hcur.
  2:{ apply triple_ret. intros w Hw. split; [done|]. revert Hw. apply phase_weaken; [done|].
      intros s [?|(-> & [? Hs] & _)]; [done|]. by rewrite Hs in Hcur. }
  specialize (Hblob cur eq_refl). symmetry in Hcur. pose proof Hcur as (Hsome & Hlt & _)%next_key_Some.
  eapply triple_bind.
  { instantiate (1 := fun _ => phase loaded seq (fun s => P s \/ (prev = firstKey /\ s = succ_stmt firstKey))).
    destruct (Z.eqb_spec prev firstKey) as [->|Hne].
    - eapply triple_conseq; [apply (adds_succ loaded seq firstKey (lo_key cur)) | done | | done].
      + unfold valid_key, firstKey. lia.
      + unfold succ_of. by rewrite Hcur.
      + intros ? w. apply phase_weaken; [done|]. tauto.
    - apply triple_ret. intros w. apply phase_weaken; [done|]. intros s [?|[? _]]; done. }
  intros ?. eapply triple_bind; [by apply write_first_dir_adds|]. intros ?.
  assert (keys_above (lo_key cur) < keys_above prev)%nat as Hless.
  { apply (keys_above_less h info prev (lo_key cur) (lo_key cur)); [lia | done | lia]. }
  eapply triple_conseq; [apply (IH (lo_key cur)); [by right | lia] | done | | done].
  intros r w [Hr Hw]. split; [done|]. revert Hw. apply phase_weaken; [done|].
  intros s [?|(Hp & _ & Hs)]; [by left; left; left|]. left. left. by right.
Qed.

(** All that the ledger needs. *)
Definition complete (s : CassandraStatement) : Prop :=
  s = succ_stmt firstKey \/
  exists k b, New !! k = Some b /\ (s = obj_stmt (uint256_bytes k) b \/ s = succ_stmt k).

Lemma keys_above_all k : (keys_above k <= length (elements (dom New)))%nat.
Proof. unfold keys_above. apply length_filter. Qed.

Lemma write_edges_spec edges P :
  (forall key, key ∈ edges -> exists k, valid_key k /\ key = uint256_bytes k) ->
  triple (phase loaded seq P) (write_edges fuel uninit seq edges)
    (fun _ => phase loaded seq (fun s => P s \/ s = succ_stmt firstKey \/
       (exists k, is_Some (New !! k) /\ next_key New k = None /\ s = succ_stmt k) \/
       (exists k, uint256_bytes k ∈ edges /\ valid_key k /\ is_Some (next_key New k) /\ s = succ_stmt k)))
    broken.
Proof.
  intros Hedges. unfold write_edges. eapply triple_bind.
  { apply (adds_for_each loaded seq _ (fun key s => exists k, valid_key k /\ key = uint256_bytes k /\
      is_Some (next_key New k) /\ s = succ_stmt k)).
    intros key Hkey. destruct (Hedges key Hkey) as (k & Hk & ->).
    eapply adds_weaken; [by apply write_edge_adds|].
    intros _ s (k' & Hk' & He & Hs). apply uint256_bytes_inj in He as ->; done. }
  intros ?. eapply triple_bind.
  { apply (phase_gets loaded seq _ cache_size (fun n => (length (elements (dom New)) <= n)%nat)). apply loaded_size. }
  intros n. apply triple_pre_pure; intros Hn.
  eapply triple_bind.
  { apply cache_walk_spec; [by left|]. pose proof (keys_above_all firstKey). lia. }
  intros prev. apply triple_pre_pure; intros [Hlast Hprev].
  eapply triple_conseq; [apply (adds_succ loaded seq prev lastKey) | done | | done].
  - destruct Hprev as [->|[b Hb]]; [unfold valid_key, firstKey; lia | by eapply L_valid].
  - unfold succ_of. by rewrite Hlast.
  - intros ? w. apply phase_weaken; [done|]. intros s [?|[->|[Hk|Hk]]]; [by left; left; left | | |].
    + destruct (next_key New firstKey) as [k|] eqn:Hnk; [left; right; by eauto|]. right.
      destruct Hprev as [->|[b Hb]]; [done|]. pose proof (L_valid h seq prev b Hb) as [Hv _].
      rewrite (proj1 (next_key_None _ _) Hnk prev) in Hb; [done|].
      destruct (decide (prev = firstKey)) as [->|]; [by rewrite ls_first in Hb|]. unfold firstKey in *. lia.
    + destruct Hk as (k & [b Hb] & Hnk & ->). right. f_equal.
      destruct (Z.lt_trichotomy k prev) as [Hlt|[->|Hlt]]; [|done|].
      * destruct Hprev as [->|[c Hc]]; [pose proof (L_valid h seq k b Hb) as [? _]; unfold firstKey in *; lia|].
        by rewrite (proj1 (next_key_None _ _) Hnk prev) in Hc.
      * by rewrite (proj1 (next_key_None _ _) Hlast k) in Hb.
    + destruct Hk as (k & Hin & Hv & Hs & ->). left. left. right. exists (uint256_bytes k). split; [done|].
      by exists k.
Qed.

(** *** The calls of a download *)

Context (numMarkers : nat) (Hmarkers : (1 <= numMarkers <= 256)%nat).
Context (Hno_marker : forall i, (i < numMarkers)%nat -> New !! marker numMarkers i = None).

Abbreviation markers := (marker numMarkers <$> List.seq 0 numMarkers).

(** The stretch of each call: from its marker to the next. *)
Definition stretches : list (Z * Z) :=
  (fun i => (marker numMarkers i, part_end markers i)) <$> List.seq 0 numMarkers.

Lemma stretches_lookup i b : stretches !! i = Some b <->
  (i < numMarkers)%nat /\ b = (marker numMarkers i, part_end markers i).
Proof.
  unfold stretches. rewrite list_lookup_fmap. destruct (decide (i < numMarkers)%nat) as [Hi|Hi].
  - rewrite lookup_seq_lt by done. cbn. naive_solver.
  - rewrite lookup_seq_ge by lia. cbn. split; [done | lia].
Qed.

Lemma make_calls_lookup ms i :
  make_calls ms !! i = (fun m => AsyncCallData_make m (ms !! S i)) <$> ms !! i.
Proof.
  revert i. induction ms as [|m ms IH]; intros [|i]; cbn; [done.. | by destruct ms |]. apply IH.
Qed.

Lemma make_calls_length ms : length (make_calls ms) = length ms.
Proof. induction ms as [|m ms IH]; cbn; congruence. Qed.

Lemma marker_valid i : (i < numMarkers)%nat -> valid_key (marker numMarkers i).
Proof.
  intros Hi. pose proof (marker_last numMarkers Hmarkers). unfold valid_key. split.
  - unfold marker. pose proof (Z.div_pos 256 (Z.of_nat numMarkers) ltac:(lia) ltac:(lia)). lia.
  - destruct (decide (i = numMarkers - 1)%nat) as [->|]; [done|].
    pose proof (marker_lt numMarkers i (numMarkers - 1) Hmarkers ltac:(lia)). lia.
Qed.

(** The first byte of a marker. *)
Lemma marker_byte i : (0 < i < numMarkers)%nat ->
  ends_at (uint256_byte (marker numMarkers i) 0) (marker numMarkers i).
Proof.
  intros Hi. pose proof (marker_valid i ltac:(lia)) as [_ Hv]. pose proof (Z.div_str_pos 256 (Z.of_nat numMarkers) ltac:(lia)) as Hd.
  unfold marker in *. set (a := Z.of_nat i * (256 / Z.of_nat numMarkers)) in *.
  assert (0 < a < 256) as Ha by (change (2 ^ 256) with (256 * 2 ^ 248) in Hv; nia).
  right. assert (uint256_byte (a * 2 ^ 248) 0 = a) as ->; [|by split].
  unfold uint256_byte. change (8 * (31 - Z.of_nat 0)) with 248.
  rewrite Z.shiftr_div_pow2, Z.div_mul by lia. unfold u8. apply Z.mod_small. lia.
Qed.

Lemma fresh_call i : (i < numMarkers)%nat ->
  call_at (marker numMarkers i) (part_end markers i) (marker numMarkers i)
    (AsyncCallData_make (marker numMarkers i) (markers !! S i)) /\
  request_at (marker numMarkers i) (AsyncCallData_make (marker numMarkers i) (markers !! S i)).
Proof.
  intros Hi. pose proof (marker_valid i Hi) as Hv. split.
  - split; cbn [nextPrefix_ lastKey_ AsyncCallData_make].
    + rewrite part_end_eq by done. case_decide as Hs; [|split; [lia | apply Hv]].
      pose proof (marker_lt numMarkers i (S i) Hmarkers ltac:(lia)). lia.
    + rewrite part_end_eq, marker_lookup by done. case_decide; [apply marker_byte; lia | by left].
    + unfold Download.last_bytes. rewrite (proj2 (last_covered_None New _ _)); [done | lia].
  - unfold request_at. cbn [request_marker AsyncCallData_make].
    destruct (Z.eqb_spec (marker numMarkers i) 0) as [->|Hne].
    + split; [by left | done].
    + split; [right; by exists (marker numMarkers i) | by apply start_of_bytes].
Qed.

Definition first_download : Download :=
  mkDownload (make_calls markers) (List.seq 0 (length (make_calls markers))) 0 false [].

Lemma first_calls : length (make_calls markers) = numMarkers.
Proof. by rewrite make_calls_length, length_fmap, length_seq. Qed.

Lemma first_download_ok : dl_ok stretches markers first_download.
Proof.
  unfold first_download. rewrite first_calls.
  assert (forall i call, make_calls markers !! i = Some call ->
    (i < numMarkers)%nat /\ call = AsyncCallData_make (marker numMarkers i) (markers !! S i)) as Hcall.
  { intros i call. rewrite make_calls_lookup, fmap_Some, marker_lookup.
    case_decide; [|by intros (? & ? & _)]. by intros (x & Hx%(inj Some) & ->); subst. }
  split; cbn [calls under_way numFinished dl_abort edgeKeys].
  - rewrite first_calls. unfold stretches. by rewrite length_fmap, length_seq.
  - intros i call [Hi ->]%Hcall. exists (marker numMarkers i), (part_end markers i), (marker numMarkers i).
    rewrite marker_lookup, decide_True by done. split; [by apply stretches_lookup|]. split; [done|]. by apply fresh_call.
  - apply NoDup_seq.
  - intros i [_ Hi]%elem_of_seq. unfold stretches. rewrite length_fmap, length_seq. lia.
  - rewrite length_seq. unfold stretches. by rewrite length_fmap, length_seq.
  - intros i call got _ [Hi ->]%Hcall. rewrite marker_lookup, decide_True by done. intros [= <-]. by apply fresh_call.
  - intros _ i m hi got Hni Hb. apply stretches_lookup in Hb as [Hi _]. destruct Hni. apply elem_of_seq. lia.
  - intros _ i call Hni [Hi _]%Hcall. destruct Hni. apply elem_of_seq. lia.
  - by intros key ?%not_elem_of_nil.
Qed.

Lemma first_to_come :
  (to_come markers first_download <= numMarkers * S (length (elements (dom New))))%nat.
Proof.
  unfold to_come, first_download. cbn [under_way]. rewrite first_calls.
  assert (forall l : list nat, (sum_list ((fun i => S (keys_above (default 0%Z (markers !! i)))) <$> l) <=
    length l * S (length (elements (dom New))))%nat) as Hl; [|rewrite <- (length_seq numMarkers 0) at 2; apply Hl].
  induction l as [|i l IH]; [done|]. cbn.
  pose proof (keys_above_all (default 0 (markers !! i))). cbn in IH. lia.
Qed.

(** *** A whole attempt *)

(** When the loop has ended without an error everything was taken. *)
Lemma download_complete K0 P0 gots dl :
  dl_ok stretches gots dl -> under_way dl = [] -> dl_abort dl = false ->
  (forall k, is_Some (New !! k) -> taken stretches K0 gots k) /\
  (forall s, complete s -> written stretches P0 gots s \/ s = succ_stmt firstKey \/
     (exists k, is_Some (New !! k) /\ next_key New k = None /\ s = succ_stmt k) \/
     (exists k, uint256_bytes k ∈ edgeKeys dl /\ valid_key k /\ is_Some (next_key New k) /\ s = succ_stmt k)).
Proof.
  intros Hok Hu Ha.
  assert (forall k b, New !! k = Some b -> exists i, (i < numMarkers)%nat /\
    gots !! i = Some (part_end markers i - 1) /\ marker numMarkers i < k <= part_end markers i - 1) as Hin.
  { intros k b Hb. destruct (marker_part numMarkers k Hmarkers ltac:(by eapply L_valid)) as (i & Hi & Hr).
    exists i. split; [done|].
    assert (stretches !! i = Some (marker numMarkers i, part_end markers i)) as Hst by by apply stretches_lookup.
    destruct (lookup_lt_is_Some_2 (calls dl) i) as [call Hcall].
    { rewrite (dl_length _ _ _ _ _ Hok). unfold stretches. by rewrite length_fmap, length_seq. }
    destruct (dl_calls _ _ _ _ _ Hok i call Hcall) as (_ & _ & got & _ & Hg & _). rewrite Hg.
    rewrite (dl_done _ _ _ _ _ Hok Ha i _ _ got ltac:(rewrite Hu; apply not_elem_of_nil) Hst Hg). split; [done|].
    destruct (decide (k = marker numMarkers i)) as [->|]; [by rewrite Hno_marker in Hb | lia]. }
  split.
  - intros k [b Hb]. destruct (Hin k b Hb) as (i & Hi & Hg & Hr). right.
    exists i, (marker numMarkers i), (part_end markers i), (part_end markers i - 1).
    split; [by apply stretches_lookup|]. split; [done|]. by rewrite Hb.
  - intros s [->|(k & b & Hb & Hs)]; [by right; left|]. destruct (Hin k b Hb) as (i & Hi & Hg & Hr).
    assert (stretches !! i = Some (marker numMarkers i, part_end markers i)) as Hst by by apply stretches_lookup.
    set (m := marker numMarkers i) in *. set (got := part_end markers i - 1) in *.
    assert (required m got s -> written stretches P0 gots s) as Hw by (right; by exists i, m, (part_end markers i), got).
    destruct Hs as [->|Hs]; [left; apply Hw; exists k, b; auto|].
    destruct (decide (last_covered New m got = Some k)) as [Hlast|Hlast]; [|left; apply Hw; exists k, b; auto].
    destruct (next_key New k) as [k'|] eqn:Hnk; [|right; right; left; exists k; by rewrite Hb].
    right. right. right. exists k. rewrite Hnk. split; [|split; [by eapply L_valid | done]].
    destruct (lookup_lt_is_Some_2 (calls dl) i) as [call Hcall].
    { rewrite (dl_length _ _ _ _ _ Hok). unfold stretches. by rewrite length_fmap, length_seq. }
    destruct (dl_calls _ _ _ _ _ Hok i call Hcall) as (m' & hi' & g & Hb' & Hg' & Hca).
    rewrite Hst in Hb'. injection Hb' as <- <-. rewrite Hg in Hg'. injection Hg' as <-.
    assert (lastKey_ call = uint256_bytes k) as Hlk by (rewrite (ca_last _ _ _ _ _ _ Hca); unfold Download.last_bytes; by rewrite Hlast).
    rewrite <- Hlk. apply (dl_edges _ _ _ _ _ Hok Ha i); [rewrite Hu; apply not_elem_of_nil | done |].
    rewrite Hlk. intros Hnil. pose proof (key_bytes_length k) as Hl. by rewrite Hnil in Hl.
Qed.

Abbreviation loading0 := (loading (fun _ => False) false).

Lemma source_load_spec attempt src P0 :
  (numMarkers * S (length (elements (dom New))) <= length (completions attempt src))%nat ->
  triple (phase loading0 seq P0) (source_loadInitialLedger fuel uninit attempt src seq numMarkers false)
    (fun r w => (if r then phase loaded seq (fun s => P0 s \/ complete s) w else phase loading0 seq P0 w) /\
       (stub_ src = true -> Forall good (completions attempt src) -> r = true)) broken.
Proof.
  intros Hlen. unfold source_loadInitialLedger. destruct (stub_ src); cbn [negb].
  2:{ apply triple_ret. intros w Hw. by split. }
  rewrite (getMarkers_eq numMarkers Hmarkers). pose proof first_to_come as Hcome.
  eapply triple_bind.
  { eapply triple_conseq; [apply (download_loop_spec (SL := SL) (CL := CL) fuel uninit h Books data info w0 Hs0 Hseq Hnodes stretches (fun _ => False) P0 src (completions attempt src)
      markers first_download false first_download_ok) | | done | done].
    - lia.
    - right. right. unfold first_download. cbn [under_way]. rewrite first_calls. by destruct numMarkers; [lia|].
    - intros w. apply phase_weaken.
      + intros c. apply loading_weaken; [|by right]. intros k [[]|(i & m & hi & got & Hb & Hg & _ & Hr)].
        apply stretches_lookup in Hb as [Hi [= -> _]]. rewrite marker_lookup, decide_True in Hg by done.
        injection Hg as <-. lia.
      + intros s [?|(i & m & hi & got & Hb & Hg & k & b & _ & Hr & _)]; [done|].
        apply stretches_lookup in Hb as [Hi [= -> _]]. rewrite marker_lookup, decide_True in Hg by done.
        injection Hg as <-. lia. }
  intros [dl|].
  2:{ apply triple_ret. intros w [Hw Hg]. split; [done|]. intros _ Hall. by destruct (Hg Hall eq_refl) as (? & ? & _). }
  destruct (dl_abort dl) eqn:Ha; cbn [negb].
  - intros w [(gots & begun & _ & _ & Hw & _) Hg]. unfold mbind, M_bind, mret, M_ret. split.
    + revert Hw. apply phase_weaken; [|by left]. intros c. apply loading_weaken; [done | by right].
    + intros _ Hall. destruct (Hg Hall eq_refl) as (? & [= <-] & ?). congruence.
  - intros w [(gots & begun & Hok & Hu & Hw & Hb) _].
    destruct Hb as [?| ->]; [congruence|].
    destruct (download_complete (fun _ => False) P0 gots dl Hok Hu Ha) as [Htaken Hwritten].
    revert w Hw. eapply triple_bind.
    { instantiate (1 := fun _ => phase loaded seq (fun s => P0 s \/ complete s)).
      eapply triple_bind.
      - instantiate (1 := fun _ => phase loaded seq (written stretches P0 gots)).
        intros w (c & issued & Hc & HP & d & l & acks & -> & Hrest). unfold modify. cbn [set_cache CassandraImpl cache_].
        change (c_cache _) with c. exists (setFull c), issued. split; [|split; [done|]; by exists d, l, acks].
        by apply (setFull_loaded (taken stretches (fun _ => False) gots)).
      - intros ?. eapply triple_conseq; [apply write_edges_spec, (dl_edge _ _ _ _ _ Hok) | done | | done].
        intros ? w. apply phase_weaken; [done|]. intros s [Hs|Hs]; [by left; left|]. auto. }
    intros ?. apply triple_ret. by intros w Hw.
Qed.

End program.

(** ** The balancer *)

(** The sources are tried in turn from the first; if the function works at one
    of the attempts, it has been called until it did. *)
Lemma execute_loop_spec {D} {Src} `{RN : RippledNodes Src} (sources : list Src) {A}
    (I : Cass D -> Prop) (Q : A -> Cass D -> Prop) E (works : nat -> Src -> Prop)
    (f : nat -> Src -> M (Cass D) (option A)) ledgerSequence n idx k :
  (forall a src, triple I (f a src)
     (fun r w => match r with None => I w | Some x => Q x w end /\ (works a src -> r <> None)) E) ->
  (idx < length sources)%nat ->
  (exists j src, (j < n)%nat /\ sources !! ((idx + j) mod length sources)%nat = Some src /\
     hasLedger (validatedLedgers_ (k + j) src) ledgerSequence = true /\ works (k + j)%nat src) ->
  triple I (balancer_execute_loop sources n f ledgerSequence idx k) Q E.
Proof.
  intros Hf. revert idx k. induction n as [|n IH]; intros idx k Hidx (j & src & Hj & Hsrc & Hhas & Hw); [lia|].
  cbn [balancer_execute_loop]. destruct (lookup_lt_is_Some_2 sources idx Hidx) as [source Hs]. rewrite Hs.
  assert (triple I (if hasLedger (validatedLedgers_ k source) ledgerSequence then f k source else mret None)
    (fun r w => match r with None => I w | Some x => Q x w end /\
      (hasLedger (validatedLedgers_ k source) ledgerSequence = true -> works k source -> r <> None)) E) as Hstep.
  { destruct (hasLedger (validatedLedgers_ k source) ledgerSequence); [|by apply triple_ret; split].
    eapply triple_conseq; [apply Hf | done | | done]. intros r w [H1 H2]. split; [exact H1 | auto]. }
  eapply triple_bind; [exact Hstep|]. intros [x|]; [apply triple_ret; by intros w [? _]|].
  intros w [HI Hno]. revert w HI. apply IH; [apply Nat.mod_upper_bound; lia|].
  destruct j as [|j].
  - exfalso. rewrite Nat.add_0_r in *. rewrite (Nat.mod_small idx) in Hsrc by done.
    rewrite Hs in Hsrc. injection Hsrc as ->. by apply Hno.
  - exists j, src. split; [lia|]. rewrite Nat.Div0.add_mod_idemp_l.
    replace (idx + 1 + j)%nat with (idx + S j)%nat by lia. split; [done|].
    by replace (S k + j)%nat with (k + S j)%nat by lia.
Qed.

(** ** The first ledger *)

Lemma balancer_fetch_spec {D} {Src} `{RN : RippledNodes Src} (sources : list Src) (first n : nat) (seq : Z)
    getObjects getNeighbors (data : GetLedgerResponse) (w0 : Cass D) :
  (forall attempt src d, source_fetchLedger attempt src seq getObjects getNeighbors = (true, true, d) -> d = data) ->
  (exists j src, (j < n)%nat /\ sources !! ((first + j) mod length sources)%nat = Some src /\
     hasLedger (validatedLedgers_ j src) seq = true /\
     source_fetchLedger j src seq getObjects getNeighbors = (true, true, data)) ->
  triple (fun w => w = w0) (balancer_fetchLedger sources first n seq getObjects getNeighbors)
    (fun r w => r = Some data /\ w = w0) noexn.
Proof.
  intros Hdata (j & src & Hj & Hsrc & Hhas & Hok). unfold balancer_fetchLedger.
  assert (0 < length sources)%nat as Hpos by (destruct sources; [done | cbn; lia]).
  eapply (triple_bind _ _ _ (fun r w => r = data /\ w = w0)).
  - unfold balancer_execute. destruct (Nat.eqb_spec (length sources) 0); [lia|].
    apply (execute_loop_spec _ _ _ _ (fun a s => source_fetchLedger a s seq getObjects getNeighbors = (true, true, data))).
    + intros a s. destruct (source_fetchLedger a s seq getObjects getNeighbors) as [[st v] d] eqn:He.
      apply triple_ret. intros w Hw. destruct st, v; cbn [andb]; (split; [|by intros [=]]); try done.
      split; [by eapply Hdata | done].
    + by apply Nat.mod_upper_bound; lia.
    + exists j, src. by rewrite Nat.Div0.add_mod_idemp_l.
  - intros r. apply triple_ret. intros w [-> ->]. done.
Qed.

Section first_ledger.
Context {D : Type} `{CS : CassSession D} {tables : D -> Tables} {patience : D -> nat}
  {acked : D -> list CassandraStatement} `{SL : !SessionLaws tables patience acked}.
Context `{CA : CassApi} `{CL : !CassApiLaws} `{NU : NftUtils} `{R : Ripple} `{RT : !RippleTotal}
  `{SC : SerialCodec}.
Context {Src : Type} `{RN : RippledNodes Src} (sources : list Src) (first n ranges : nat).
Context (fuel : nat) (uninit : Z) (h : history) (data : GetLedgerResponse) (info : LedgerInfo).

Abbreviation seq := (li_seq info).
Abbreviation New := (L h seq).
Abbreviation no_books := (fun _ : Z => False).

(** What the nodes do: a validated answer is the ledger's header and
    transactions, pages are pages of the ledger, every call completes, and no
    key of the ledger is a marker. *)
Record nodes_serve : Prop := {
  ns_header : deserializeHeader (ledger_header data) = Ok info;
  ns_ids : forall id r1 r2, tx_row_of data info id r1 -> tx_row_of data info id r2 -> r1 = r2;
  ns_data : forall attempt src d, source_fetchLedger attempt src seq false false = (true, true, d) -> d = data;
  ns_pages : forall src marker size, marker_ok marker -> page_ok New marker (GetLedgerData src seq marker size);
  ns_complete : forall attempt src, (ranges * S (size (dom New)) <= length (completions attempt src))%nat;
  ns_markers : forall i, (i < ranges)%nat -> New !! marker ranges i = None
}.

(** At one of the first [n] attempts a source that has the ledger serves it. *)
Definition served (works : nat -> Src -> Prop) : Prop :=
  exists j src, (j < n)%nat /\ sources !! ((first + j) mod length sources)%nat = Some src /\
    hasLedger (validatedLedgers_ j src) seq = true /\ works j src.

(** What the rows of the tables are after all the statements. *)
Lemma complete_represents T0 T :
  (forall s, s < seq -> L h s = ∅) -> New !! firstKey = None ->
  represents_upto (seq - 1) T0 (L h) -> rows_kept h seq no_books T0 T ->
  (forall s, complete h info s -> stmt_effect s T) -> represents_upto seq T (L h).
Proof.
  intros Hempty Hfirst Hrep Hk Heff. pose proof (Hempty (seq - 1) ltac:(lia)) as Hold.
  eapply (represents_next h seq no_books Hfirst); [exact Hrep | exact Hk | |].
  - intros k _ Hne. rewrite Hold, lookup_empty in Hne. destruct (New !! k) as [b|] eqn:Hb; [|done].
    apply (Heff (obj_stmt (info := info) (uint256_bytes k) b)). right. exists k, b. auto.
  - intros x Hx. unfold changed in Hx. rewrite Hold, lookup_empty in Hx.
    assert (is_Some (New !! x)) as [b Hb].
    { destruct (New !! x); [done|]. destruct Hx as [_ Hx]. destruct Hx; [by intros [] | done]. }
    assert (forall k c, New !! k = Some c -> is_Some (table_row (uint256_bytes k) seq (t_successor T))) as Hrow.
    { intros k c Hc. apply (Heff (succ_stmt (h := h) (info := info) k)). right. exists k, c. auto. }
    split; [|by intros _; eapply Hrow]. unfold pred_of.
    destruct (prev_key New x) as [p|] eqn:Hp; cbn [default].
    + apply prev_key_Some in Hp as ([c Hc] & _). by eapply Hrow.
    + apply (Heff (succ_stmt (h := h) (info := info) firstKey)). by left.
Qed.

(** The program after the range was read. *)
Definition load_ledger (stopping : bool) : M (Cass D) (option LedgerInfo) :=
  startWrites ≫= fun _ =>
  writeLedger fuel uninit info (ledger_header data) ≫= fun _ =>
  insertTxResult ← insertTransactions fuel uninit info data;
  balancer_loadInitialLedger fuel uninit sources first n ranges seq false ≫= fun _ =>
  (if negb stopping then
     writeAccountTransactions fuel uninit (accountTxData insertTxResult) ≫= fun _ =>
     writeNFTs fuel uninit (nfTokensData insertTxResult) ≫= fun _ =>
     writeNFTTransactions fuel uninit (nfTokenTxData insertTxResult)
   else mret tt) ≫= fun _ =>
  finishWrites (H := CassandraImpl fuel uninit) seq ≫= fun _ =>
  mret (Some info).

Definition all_writes (s : CassandraStatement) : Prop :=
  s = header_stmt (data := data) (info := info) \/
  (exists txn, txn ∈ transactions_list data /\ tx_writes (info := info) txn s) \/ complete h info s.

Context (w0 : Cass D).
Context (Hserve : nodes_serve) (Hseq : 0 < seq < 2 ^ 32) (Hs0 : s0 h = seq) (Hranges : (1 <= ranges <= 256)%nat).
Context (Hfirst : New !! firstKey = None) (Hkept : kept h no_books info (tables (db w0)) (tables (db w0))).
Context (Hidle : idle w0) (Hpat : (patience (db w0) < fuel)%nat) (Hcache : c_cache w0 = SimpleCache_init).
Context (Hnr : 0 <= numReadRequestsOutstanding_ w0 < 2 ^ 32) (Hsync : syncInterval_ w0 = 1).
Context (Hrange : forall x, t_ledger_range (tables (db w0)) !! false = Some x -> 0 <= x <= seq).

#[local] Instance load_setting : LedgerSetting (tables := tables) (patience := patience) fuel h no_books data info w0
  (load_clean h data info).
Proof. split; [apply Hserve | done | done | done | done | by intros [? _]]. Qed.

Abbreviation phase := (phase (tables := tables) (patience := patience) (acked := acked)
  (h := h) (Books := no_books) (data := data) (info := info) (w0 := w0)).
Abbreviation broken := (broken (tables := tables) (h := h) (Books := no_books) (info := info) (w0 := w0)
  (Clean := load_clean h data info)).

Lemma load_objects_spec P :
  served (fun a src => stub_ src = true /\ Forall good (completions a src)) ->
  triple (phase (loading h info (fun _ => False) false) seq P)
    (balancer_loadInitialLedger fuel uninit sources first n ranges seq false)
    (fun _ => phase (loaded h info) seq (fun s => P s \/ complete h info s)) broken.
Proof.
  intros (j & src & Hj & Hsrc & Hhas & Hworks). unfold balancer_loadInitialLedger, balancer_execute.
  assert (0 < length sources)%nat as Hpos by (destruct sources; [done | cbn; lia]).
  destruct (Nat.eqb_spec (length sources) 0); [lia|].
  apply (execute_loop_spec _ _ _ _ (fun a src => stub_ src = true /\ Forall good (completions a src))).
  - intros a s. eapply triple_bind.
    + apply (source_load_spec (SL := SL) (CL := CL) fuel uninit h no_books data info w0 Hs0 Hseq (ns_pages Hserve) ranges Hranges
        (ns_markers Hserve) a s P). apply (ns_complete Hserve).
    + intros r. apply triple_ret. intros w [Hr Hgood]. destruct r; (split; [exact Hr|]); [done|].
      intros [Hstub Hall]. by specialize (Hgood Hstub Hall).
  - apply Nat.mod_upper_bound; lia.
  - exists j, src. by rewrite Nat.Div0.add_mod_idemp_l.
Qed.

Lemma load_ledger_spec stopping :
  served (fun a src => stub_ src = true /\ Forall good (completions a src)) ->
  triple (fun w => w = w0) (load_ledger stopping)
    (fun r w => r = Some info /\ exists b, built (tables := tables) (h := h) (Books := no_books) (info := info) (w0 := w0)
       (loaded h info) all_writes b w)
    (fun e w => rows_kept h seq no_books (tables (db w0)) (tables (db w)) /\
       (load_clean h data info -> e = RuntimeError "invalid query")).
Proof.
  intros Hload. unfold load_ledger, startWrites.
  eapply triple_bind; [apply (triple_ret _ _ (fun _ => phase (loading h info (fun _ => False) false) (ledgerSequence_ w0) (fun _ => False)))|].
  { intros w ->. eapply phase_weaken; [| |exact (phase_start (c_cache w0) eq_refl)]; [|done].
    intros c ->. rewrite Hcache. split.
    - exists ∅. split; [constructor | done].
    - split_and!; [done | done | done | by right]. }
  assert (forall e w, broken e w -> rows_kept h seq no_books (tables (db w0)) (tables (db w)) /\
    (load_clean h data info -> e = RuntimeError "invalid query")) as Hbroken by (intros e w [[Hk _] Hc]; by split).
  intros ?. eapply triple_bind; [eapply triple_conseq; [apply writeLedger_spec | done | done | exact Hbroken]|].
  intros ?. eapply triple_bind; [eapply triple_conseq; [apply insertTransactions_adds | done | done | exact Hbroken]|].
  intros res. eapply triple_bind; [eapply triple_conseq; [by apply load_objects_spec | done | done | exact Hbroken]|].
  intros ?. eapply triple_bind.
  { instantiate (1 := fun _ => phase (loaded h info) seq all_writes).
    assert (forall (m : M (Cass D) unit), triple (phase (loaded h info) seq all_writes) m
      (fun _ => phase (loaded h info) seq (fun s => all_writes s \/ False)) broken ->
      triple (phase (loaded h info) seq all_writes) m (fun _ => phase (loaded h info) seq all_writes)
        (fun e w => rows_kept h seq no_books (tables (db w0)) (tables (db w)) /\
          (load_clean h data info -> e = RuntimeError "invalid query"))) as Hw.
    { intros m Hm. eapply triple_conseq; [exact Hm | done | | exact Hbroken].
      intros ? w. apply phase_weaken; [done | tauto]. }
    apply (triple_conseq _ (phase (loaded h info) seq all_writes) _ _ (fun _ => phase (loaded h info) seq all_writes)
      _ (fun e w => rows_kept h seq no_books (tables (db w0)) (tables (db w)) /\
          (load_clean h data info -> e = RuntimeError "invalid query"))); [| |done|done].
    2:{ intros w. apply phase_weaken; [done|]. unfold all_writes.
        intros s [->|[Hs|Hs]]; [left; left; by right | by left; right | by right]. }
    destruct stopping; cbn [negb]; [by apply triple_ret|].
    eapply triple_bind; [apply Hw, writeAccountTransactions_adds|]. intros ?.
    eapply triple_bind; [apply Hw, writeNFTs_adds|]. intros ?. apply Hw, writeNFTTransactions_adds. }
  intros ?. eapply triple_bind.
  { eapply triple_conseq; [by apply finishWrites_spec | done | done |]. intros e w [Hk ->]. by split. }
  intros b. apply triple_ret. intros w Hw. split; [done | by exists b].
Qed.

End first_ledger.

(** C5: loading the first ledger. The database is empty (at most right rows of
    an attempt that stopped), the cache new. The nodes serve the ledger: what
    they validate is its header and transactions, a page holds the objects after
    the marker asked for, in order and up to the one returned, with page sizes,
    order of completion and page boundaries of their choice; attempts may fail,
    but one of the first [n] finds a source that serves the ledger, and then one
    that completes the download. The load returns the header of the ledger; the
    tables then represent the ledger, every object and the successor of every
    key and of the first key; header and transactions are stored; the cache
    holds the ledger and is full. When it throws, the rows written are right,
    and a ledger whose transactions and objects parse leaves a rejected query as
    the only cause. *)
Theorem loadInitialLedger_represents {D} `{CS : CassSession D} {tables patience acked}
    `{SL : !SessionLaws tables patience acked} `{CA : CassApi} `{CL : !CassApiLaws} `{NU : NftUtils}
    `{R : Ripple} `{RT : !RippleTotal} `{SC : SerialCodec} {Src} `{RN : RippledNodes Src}
    (sources : list Src) (first n ranges fuel : nat) (uninit : Z) (h : history) (data : GetLedgerResponse)
    (info : LedgerInfo) (stopping : bool) (w0 : Cass D) :
  let seq := li_seq info in
  nodes_serve ranges h data info ->
  served sources first n info (fun a src => source_fetchLedger a src seq false false = (true, true, data)) ->
  served sources first n info (fun a src => stub_ src = true /\ Forall good (completions a src)) ->
  (1 <= ranges <= 256)%nat -> 0 < seq < 2 ^ 32 ->
  s0 h = seq -> (forall s, s < seq -> L h s = ∅) -> L h seq !! firstKey = None ->
  represents_upto (seq - 1) (tables (db w0)) (L h) ->
  rows_kept h seq (fun _ => False) (tables (db w0)) (tables (db w0)) ->
  t_ledger_range (tables (db w0)) = ∅ -> c_cache w0 = SimpleCache_init ->
  idle w0 -> (patience (db w0) < fuel)%nat -> 0 <= numReadRequestsOutstanding_ w0 < 2 ^ 32 ->
  syncInterval_ w0 = 1 ->
  triple (fun w => w = w0) (loadInitialLedger fuel uninit sources first n ranges stopping seq)
    (fun r w => r = Some info /\ represents_upto seq (tables (db w)) (L h) /\
       header_stored (data := data) (info := info) (tables (db w)) /\
       (exists b, commit_outcome None seq (seq - 1) b (tables (db w))) /\
       (exists ld, reach h (c_cache w) ld) /\ isFull (c_cache w) = true /\
       latestLedgerSequence (c_cache w) = seq /\ idle w)
    (fun e w => rows_kept h seq (fun _ => False) (tables (db w0)) (tables (db w)) /\
       (load_clean h data info -> e = RuntimeError "invalid query")).
Proof.
  intros seq Hserve Hfetch Hload Hranges Hseq Hs0 Hempty Hfirst Hrep Hrows Hrange Hcache Hidle Hpat Hnr Hsync.
  unfold loadInitialLedger, hardFetchLedgerRangeNoThrow.
  apply (triple_bind _ _ _ (fun r w => r = None /\ reading (tables := tables) (patience := patience) w0 (tables (db w0)) fuel w)).
  { eapply triple_conseq; [apply (rangeNoThrow_reads (SL := SL) (CL := CL) fuel w0 (tables (db w0)) fuel (le_n _)) | | |].
    - intros w ->. split; [done|]. exists (db w0). by destruct w0.
    - intros r w [-> Hr]. split; [|done]. unfold table_range. by rewrite Hrange.
    - intros e w [-> (_ & d & -> & HT & _)]. cbn [db set_db]. by rewrite HT. }
  intros r. apply triple_pre_pure; intros ->. intros w1 (_ & d & -> & HT & Hp). revert HT Hp.
  set (w1 := set_db d w0). intros HT0 Hp. assert (tables (db w1) = tables (db w0)) as HT by exact HT0.
  pose proof (balancer_fetch_spec sources first n seq false false data w1 (ns_data _ _ _ _ Hserve) Hfetch w1 eq_refl) as Hf.
  unfold fetchLedgerData. unfold mbind at 1, M_bind at 1.
  destruct (balancer_fetchLedger sources first n seq false false w1) as [[r|e|] w]; [|done..].
  destruct Hf as [-> ->]. rewrite (ns_header _ _ _ _ Hserve).
  change (lift_res (Ok info) ≫= ?f) with (f info). cbv beta.
  pose proof (load_ledger_spec (SL := SL) (CL := CL) sources first n ranges fuel uninit h data info w1 Hserve Hseq Hs0
    Hranges Hfirst ltac:(by rewrite HT) Hidle Hp Hcache Hnr Hsync
    ltac:(intros x; rewrite HT, Hrange, lookup_empty; done) stopping Hload w1 eq_refl) as Hl.
  match goal with |- match ?m with _ => _ end =>
    change m with (load_ledger sources first n ranges fuel uninit data info stopping w1) end.
  destruct (load_ledger _ _ _ _ _ _ _ _ _ w1) as [[r|e|] w]; [| |done].
  - destruct Hl as (-> & b & Heff & Hk & Hout & ((ld & Hre) & Hf & _ & Hlat) & Hi & _).
    rewrite HT in Hk. rewrite HT, Hrange, lookup_empty in Hout. split; [done|]. split.
    { eapply (complete_represents h info (tables (db w0))); [exact Hempty | exact Hfirst | exact Hrep | exact Hk |].
      intros s Hs. apply Heff. by right; right. }
    split; [apply (effects_stored (all_writes h data info)); [by left | | done]; intros txn s Hin Hs; right; left; by exists txn|].
    split_and!; [by exists b | by exists ld | done | done | done].
  - by rewrite HT in Hl.
Qed.

(** The successors of order books. On a cache that holds the ledger, the
    part of the first load that is to write the successor of a book's base never
    writes anything: it asks the cache for the directory it stands on, which is
    there, where the comment asks for the base. The database's book successors
    of the first ledger are therefore missing. *)
Theorem write_first_dir_silent {D} `{CS : CassSession D} `{CA : CassApi} `{R : Ripple}
    (fuel : nat) (uninit : Z) (h : history) (ld : gset Z) (seq : Z) (cur : LedgerObject) (w : Cass D) :
  reach h (c_cache w) ld -> isFull (c_cache w) = true -> seq = latestLedgerSequence (c_cache w) -> 0 < seq ->
  L h seq !! lo_key cur = Some (lo_blob cur) ->
  db (write_first_dir fuel uninit seq cur w).2 = db w /\
  retries (write_first_dir fuel uninit seq cur w).2 = retries w.
Proof.
  intros Hr Hf Hs Hpos Hcur. unfold write_first_dir, is_book_dir, mbind, M_bind.
  destruct (isBookDir (lo_key cur) (lo_blob cur)) as [[[|]|e|]|]; cbn [lift_res]; try done.
  unfold cache_get. change (cache_ w) with (c_cache w).
  pose proof (full_get h (c_cache w) ld (lo_key cur) seq Hr Hf Hs Hpos) as Hg. rewrite Hcur in Hg.
  destruct (get (lo_key cur) seq (c_cache w)) as [o c]. cbn in Hg. by subst o.
Qed.

(** ** Nodes that serve a ledger

    A node with a list of objects: a page has the size the schedule asks for and
    names its last key while more follow. *)

Definition serve (objs : list (Z * Blob)) (marker : Blob) (page_size : nat) : GetLedgerDataResponse :=
  let rest := filter (fun kb : Z * Blob => start_of marker < kb.1) objs in
  let page := take (S page_size) rest in
  mkGetLedgerDataResponse
    (if (length rest <=? S page_size)%nat then []
     else match last page with Some kb => uint256_bytes kb.1 | None => [] end)
    (raw_object <$> page).

Abbreviation ascending := (StronglySorted (fun a b : Z * Blob => a.1 < b.1)).

Lemma ascending_app l1 l2 : ascending (l1 ++ l2) ->
  ascending l1 /\ forall a b, a ∈ l1 -> b ∈ l2 -> a.1 < b.1.
Proof.
  induction l1 as [|x l1 IH]; intros Hs; [split; [constructor | by intros ? ? ?%not_elem_of_nil]|].
  apply StronglySorted_inv in Hs as [Hs Hx]. destruct (IH Hs) as [H1 H2].
  rewrite Forall_forall in Hx. split.
  - constructor; [done|]. apply Forall_forall. intros y Hy. apply Hx, elem_of_app. by left.
  - intros a b [->|Ha]%elem_of_cons Hb; [apply Hx, elem_of_app; by right | by apply H2].
Qed.

Lemma ascending_filter (P : Z * Blob -> Prop) `{!forall x, Decision (P x)} l :
  ascending l -> ascending (filter P l).
Proof.
  induction l as [|x l IH]; intros Hs; [done|]. apply StronglySorted_inv in Hs as [Hs Hx].
  rewrite filter_cons. case_decide; [|by apply IH]. constructor; [by apply IH|].
  rewrite Forall_forall in *. intros y [_ Hy]%list_elem_of_filter. by apply Hx.
Qed.

Lemma ascending_map objs k b : ascending objs ->
  (k, b) ∈ objs <-> (list_to_map objs : gmap Z Blob) !! k = Some b.
Proof.
  intros Hs. apply elem_of_list_to_map. induction Hs as [|x l Hs IH Hx]; [constructor|].
  cbn. constructor; [|done]. intros (y & Hy & Hin)%list_elem_of_fmap.
  rewrite Forall_forall in Hx. specialize (Hx y Hin). cbn in Hx. lia.
Qed.

Lemma serve_ok objs marker page_size :
  ascending objs -> Forall (fun kb => valid_key kb.1) objs ->
  page_ok (list_to_map objs) marker (serve objs marker page_size).
Proof.
  intros Hs Hv. unfold serve. set (rest := filter _ objs). set (page := take (S page_size) rest).
  assert (ascending rest) as Hrest by by apply ascending_filter.
  assert (forall kb, kb ∈ rest <-> kb ∈ objs /\ start_of marker < kb.1) as Hin.
  { intros kb. unfold rest. rewrite list_elem_of_filter. tauto. }
  rewrite Forall_forall in Hv. destruct (Nat.leb_spec (length rest) (S page_size)) as [Hle|Hgt].
  - exists page, (2 ^ 256 - 1). split; [done|]. unfold page. rewrite take_ge by done. split; [done|].
    split; [|by left]. intros k b. rewrite Hin, (ascending_map objs k b Hs). cbn. split; [|tauto].
    intros [Hk Hst]. apply (ascending_map objs k b Hs) in Hk as Hk'. specialize (Hv _ Hk').
    unfold valid_key in Hv. cbn in Hv. split; [done | lia].
  - rewrite <- (take_drop (S page_size) rest) in Hrest. fold page in Hrest.
    apply ascending_app in Hrest as [Hpage Hlt].
    assert (page <> []) as Hne by (unfold page; destruct rest; [cbn in Hgt; lia | done]).
    destruct (last page) as [[e c]|] eqn:Hl; [|by apply last_None in Hl].
    pose proof Hl as [init Hinit]%last_Some.
    assert (forall kb, kb ∈ page -> kb.1 <= e) as Hle.
    { intros kb. rewrite Hinit in Hpage |- *. apply ascending_app in Hpage as [_ Hp].
      intros [Hi|Hi%list_elem_of_singleton]%elem_of_app; [|subst; cbn; lia].
      specialize (Hp kb (e, c) Hi ltac:(by left)). cbn in Hp. lia. }
    assert ((e, c) ∈ page) as Hec by (rewrite Hinit; apply elem_of_app; right; by left).
    assert (forall kb, kb ∈ rest <-> kb ∈ page \/ kb ∈ drop (S page_size) rest) as Hsplit.
    { intros kb. unfold page. by rewrite <- elem_of_app, take_drop. }
    exists page, e. split; [done|]. split; [done|]. split.
    + intros k b. split.
      * intros Hp. destruct (proj1 (Hin (k, b)) ltac:(apply Hsplit; by left)) as [Ho Hst].
        specialize (Hle _ Hp). cbn in *. split; [by apply ascending_map | lia].
      * intros [Hk Hr]. apply (ascending_map objs k b Hs) in Hk.
        destruct (proj1 (Hsplit (k, b)) ltac:(apply Hin; split; [done | cbn; lia])) as [?|Hd]; [done|].
        specialize (Hlt _ _ Hec Hd). cbn in Hlt. lia.
    + right. split; [done|]. split; [|done].
      apply (Hv (e, c)). apply Hin, Hsplit. by left.
Qed.

(** Three objects, one of them in the upper half of the key space. The first
    source fails every call, the second completes them out of order. *)
Definition first_objects : list (Z * Blob) :=
  [(20, plain_blob); (book_base + 7, dir_blob); (2 ^ 255 + 9, plain_blob)].

Definition first_L (s : Z) : gmap Z Blob := if s <? 5 then ∅ else list_to_map first_objects.

Lemma first_L_all s k b : first_L s !! k = Some b -> valid_key k /\ b <> [].
Proof.
  unfold first_L. destruct (s <? 5); [by rewrite lookup_empty|].
  assert (bool_decide (map_Forall (fun k b => (0 <= k /\ k < 2 ^ 256) /\ b <> [])
    (list_to_map first_objects : gmap Z Blob)) = true) as Hm%bool_decide_eq_true by by vm_compute.
  intros Hk. by apply (Hm k b).
Qed.

Definition first_history : history :=
  mkHistory first_L 5 ltac:(done) (fun s k b H => proj2 (first_L_all s k b H))
    (fun s k b H => proj1 (first_L_all s k b H)).

Definition first_header : LedgerInfo := mkLedgerInfo 5 0 0 0 0 0 0 0 0 66.
Definition first_response : GetLedgerResponse :=
  mkGetLedgerResponse (ledgerInfoToBlob first_header true) [mkRawTransaction [1] [2]] [] false [].

Definition two_nodes : RippledNodes bool := {|
  stub_ := fun _ => true;
  validatedLedgers_ := fun _ _ => [(1, 3); (5, 9)];
  GetLedgerData := fun _ _ marker size => serve first_objects marker size;
  GetLedger := fun _ src _ _ _ => (src, true, first_response);
  completions := fun _ src =>
    if src then [mkCompletion 1 true true 0; mkCompletion 0 true true 0; mkCompletion 3 true true 4;
                 mkCompletion 0 true true 0; mkCompletion 1 true true 0; mkCompletion 0 true true 0;
                 mkCompletion 1 true true 0; mkCompletion 0 true true 0]
    else replicate 8 (mkCompletion 1 true false 0)
|}.

Definition first_world : Cass MemSession :=
  mkCass (mkMemSession no_tables [(CASS_ERROR_OTHER 1, true); (CASS_OK, false); (CASS_ERROR_SERVER_UNAVAILABLE, false)] [])
    SimpleCache_init None 1 0 3 0 100 0 0 [].

Lemma first_serve : nodes_serve (RN := two_nodes) (R := book_ripple) 2 first_history first_response first_header.
Proof.
  assert (StronglySorted (fun a b : Z * Blob => a.1 < b.1) first_objects) as Hs.
  { repeat constructor. }
  split.
  - by vm_compute.
  - intros id r1 r2 (txn & sttx & Hin & Hp & -> & ->) (txn' & sttx' & Hin' & Hp' & _ & ->).
    apply list_elem_of_singleton in Hin as ->, Hin' as ->. done.
  - by intros attempt [] d [= <-].
  - intros src marker size _. apply serve_ok; [exact Hs|]. repeat constructor; vm_compute; intuition congruence.
  - intros attempt []; vm_compute; lia.
  - intros [|[|i]] Hi; [by vm_compute | by vm_compute | lia].
Qed.

Lemma empty_represents : represents_upto 4 no_tables first_L.
Proof.
  assert (forall s, s <= 4 -> first_L s = ∅) as He.
  { intros s Hs. unfold first_L. destruct (Z.ltb_spec s 5); [done | lia]. }
  split.
  - intros s k Hs _. by rewrite (He s Hs), lookup_empty.
  - intros s k Hs _. right. rewrite (He s Hs). split; [done|]. apply next_key_None. intros j _. apply lookup_empty.
Qed.

Lemma empty_rows : rows_kept first_history 5 (fun _ => False) no_tables no_tables.
Proof. by split. Qed.

(** The book's successor is missing, although the book has a directory. *)
Lemma loadInitialLedger_represents_witness :
  exists w, loadInitialLedger (CS := MemCass) (CA := TypedApi) (NU := {| getIssuer := id; getTaxon := id |})
      (R := book_ripple) (RN := two_nodes) 9 77 [false; true] 0 4 2 false 5 first_world = (Ok (Some first_header), w) /\
    represents_upto 5 (ms_tables (db w)) first_L /\ isFull (c_cache w) = true /\
    first_dir (first_L 5) book_base = Some (book_base + 7) /\
    latest (uint256_bytes book_base) 5 (t_successor (ms_tables (db w))) = None.
Proof.
  pose proof (loadInitialLedger_represents (SL := MemCassLaws) (CL := TypedLaws)
    (NU := {| getIssuer := id; getTaxon := id |}) (R := book_ripple) (RT := book_total) (RN := two_nodes)
    [false; true] 0 4 2 9 77 first_history first_response first_header false first_world first_serve
    ltac:(exists 1%nat, true; split_and!; [lia | done | done | done])
    ltac:(exists 1%nat, true; split_and!; [lia | done | done | done | repeat constructor])
    ltac:(lia) ltac:(done) eq_refl
    ltac:(intros s Hs; unfold first_history, first_L; cbn [L li_seq first_header] in *; destruct (Z.ltb_spec s 5); [done | lia])
    ltac:(by vm_compute) empty_represents empty_rows eq_refl eq_refl ltac:(split_and!; done) ltac:(vm_compute; lia)
    ltac:(done) eq_refl first_world eq_refl) as Ht.
  change (li_seq first_header) with 5 in Ht.
  match type of Ht with match ?m with _ => _ end =>
    assert (Hok : m.1 = Ok (Some first_header) /\ latest (uint256_bytes book_base) 5 (t_successor (ms_tables (db m.2))) = None)
      by (vm_compute; split; reflexivity);
    destruct m as [o w] end.
  cbn [fst snd] in Hok. destruct Hok as [-> Hbook]. destruct Ht as (_ & H1 & _ & _ & _ & H2 & _).
  exists w. split; [reflexivity|]. split; [exact H1|]. split; [exact H2|]. split; [by vm_compute | exact Hbook].
Defined.

Definition first_page : list LedgerObject := (fun kb => mkLedgerObject kb.1 kb.2) <$> first_objects.
Definition loaded_world : Cass MemSession :=
  set_c_cache (setFull (update first_page 5 true SimpleCache_init)) first_world.

Lemma first_reach : reach first_history (c_cache loaded_world) (∅ ∪ list_to_set (lo_key <$> first_page)).
Proof.
  assert (StronglySorted (fun a b : Z * Blob => a.1 < b.1) first_objects) as Hs by (repeat constructor).
  eapply rtc_l; [apply (step_page first_history SimpleCache_init ∅ first_page); [done|]|].
  - intros o Ho. apply list_elem_of_fmap in Ho as ([k b] & -> & Ho). by apply (ascending_map first_objects k b Hs).
  - apply rtc_once. apply step_full. intros k [b Hb]. apply elem_of_union. right.
    apply elem_of_list_to_set, list_elem_of_fmap. exists (mkLedgerObject k b). split; [done|].
    apply list_elem_of_fmap. exists (k, b). split; [done|]. by apply (ascending_map first_objects k b Hs).
Qed.

Lemma write_first_dir_silent_witness :
  isBookDir (H := book_ripple) (book_base + 7) dir_blob = Some (Ok true) /\
  db (write_first_dir (CS := MemCass) (CA := TypedApi) (R := book_ripple) 9 77 5
        (mkLedgerObject (book_base + 7) dir_blob) loaded_world).2 = db loaded_world.
Proof.
  split; [by vm_compute|].
  apply (write_first_dir_silent (CS := MemCass) (CA := TypedApi) (R := book_ripple) 9 77 first_history
    (∅ ∪ list_to_set (lo_key <$> first_page)) 5 (mkLedgerObject (book_base + 7) dir_blob) loaded_world
    first_reach); [by vm_compute | by vm_compute | done | by vm_compute].
Defined.
