(* ===== verification/DosGuard.v ===== *)
(** Rate limiting ([webserver/DOSGuard.h]) and the sessions that count
    connections ([webserver/HttpSession.h], [SslHttpSession.h], [WsBase.h]).

    The methods of the guard are functions on its state; one lock section is
    one step, so a sequence of steps is any interleaving of the threads. The
    sessions are followed from the accepted socket to the destructor, with the
    upgrade of an HTTP session to a websocket in between. [dos_guard_reference]
    compares the answers of the guard with a reference that only knows the
    history: requests and bytes since the last sweep and connections open now. *)

From stdpp Require Import base list gmap strings.
From Stdlib Require Import ZArith Lia.
From S2P Require Import Prelude.

Open Scope Z_scope.

(** ** The guard *)

Record ClientState := mkClientState { transferedByte : Z; requestsCount : Z }.

(** The value [operator[]] makes for a new key. *)
Definition ClientState_default : ClientState := mkClientState 0 0.

Record DOSGuard := mkDOSGuard {
  ipState_ : gmap string ClientState;
  ipConnCount_ : gmap string Z;
  whitelist_ : gset string;
  maxFetches_ : Z;
  maxConnCount_ : Z;
  maxRequestCount_ : Z
}.

Definition set_ipState (s : gmap string ClientState) (g : DOSGuard) : DOSGuard :=
  mkDOSGuard s (ipConnCount_ g) (whitelist_ g) (maxFetches_ g) (maxConnCount_ g) (maxRequestCount_ g).
Definition set_ipConnCount (s : gmap string Z) (g : DOSGuard) : DOSGuard :=
  mkDOSGuard (ipState_ g) s (whitelist_ g) (maxFetches_ g) (maxConnCount_ g) (maxRequestCount_ g).

Definition isWhiteListed (ip : string) (g : DOSGuard) : bool := bool_decide (ip ∈ whitelist_ g).

Definition DOSGuard_isOk (ip : string) (g : DOSGuard) : bool :=
  if isWhiteListed ip g then true
  else
    if match ipState_ g !! ip with
       | Some st => (transferedByte st >? maxFetches_ g) || (requestsCount st >? maxRequestCount_ g)
       | None => false
       end
    then false
    else
      match ipConnCount_ g !! ip with
      | Some n => if n >? maxConnCount_ g then false else true
      | None => true
      end.

Definition DOSGuard_increment (ip : string) (g : DOSGuard) : DOSGuard :=
  if isWhiteListed ip g then g
  else set_ipConnCount (<[ip := u32 (default 0 (ipConnCount_ g !! ip) + 1)]> (ipConnCount_ g)) g.

(** What [decrement] asserts. *)
Definition decrement_assert (ip : string) (g : DOSGuard) : bool :=
  isWhiteListed ip g || (0 <? default 0 (ipConnCount_ g !! ip)).

Definition DOSGuard_decrement (ip : string) (g : DOSGuard) : DOSGuard :=
  if isWhiteListed ip g then g
  else
    let n := u32 (default 0 (ipConnCount_ g !! ip) - 1) in
    if n =? 0 then set_ipConnCount (delete ip (ipConnCount_ g)) g
    else set_ipConnCount (<[ip := n]> (ipConnCount_ g)) g.

(** The locked parts of [add] and [request], and the two methods. The caller
    of [add] passes a size of 64 bits for a parameter of 32. *)
Definition count_bytes (ip : string) (numObjects : Z) (g : DOSGuard) : DOSGuard :=
  let st := default ClientState_default (ipState_ g !! ip) in
  set_ipState (<[ip := mkClientState (u32 (transferedByte st + u32 numObjects)) (requestsCount st)]> (ipState_ g)) g.

Definition count_request (ip : string) (g : DOSGuard) : DOSGuard :=
  let st := default ClientState_default (ipState_ g !! ip) in
  set_ipState (<[ip := mkClientState (transferedByte st) (u32 (requestsCount st + 1))]> (ipState_ g)) g.

Definition DOSGuard_add (ip : string) (numObjects : Z) (g : DOSGuard) : bool * DOSGuard :=
  if isWhiteListed ip g then (true, g)
  else let g' := count_bytes ip numObjects g in (DOSGuard_isOk ip g', g').

Definition DOSGuard_request (ip : string) (g : DOSGuard) : bool * DOSGuard :=
  if isWhiteListed ip g then (true, g)
  else let g' := count_request ip g in (DOSGuard_isOk ip g', g').

Definition DOSGuard_clear (g : DOSGuard) : DOSGuard := set_ipState ∅ g.

(** ** The sessions that count connections *)

(** A session's address is absent when the socket has none any more. *)
Inductive Session :=
| HttpSession (ip_ : option string) (upgraded_ : bool)
| WsSession (ip_ : option string).

Definition HttpSession_make (ip : option string) (g : DOSGuard) : Session * DOSGuard :=
  (HttpSession ip false, match ip with Some i => DOSGuard_increment i g | None => g end).

Definition Session_destroy (s : Session) (g : DOSGuard) : DOSGuard :=
  match s with
  | HttpSession (Some ip) false => DOSGuard_decrement ip g
  | WsSession (Some ip) => DOSGuard_decrement ip g
  | _ => g
  end.

Record Connections := mkConnections { guard : DOSGuard; sessions : gmap nat Session }.

(** [Upgraded sid wsid]: the part of [on_read] for an upgrade; the session
    [wsid] takes over the stream and the address. [Requested], [Responded]: a
    session of the address calls [request], [add]; [Swept]: the sweep's timer. *)
Inductive ConnEvent :=
| Accepted (sid : nat) (ip : option string)
| Upgraded (sid wsid : nat)
| Destroyed (sid : nat)
| Requested (ip : string)
| Responded (ip : string) (size : Z)
| Swept.

Definition conn_event (e : ConnEvent) (c : Connections) : option Connections :=
  let g := guard c in
  match e with
  | Accepted sid ip =>
      match sessions c !! sid with
      | None => let '(s, g') := HttpSession_make ip g in Some (mkConnections g' (<[sid := s]> (sessions c)))
      | Some _ => None
      end
  | Upgraded sid wsid =>
      match sessions c !! sid, sessions c !! wsid with
      | Some (HttpSession (Some ip) false), None =>
          Some (mkConnections g (<[wsid := WsSession (Some ip)]> (<[sid := HttpSession (Some ip) true]> (sessions c))))
      | _, _ => None
      end
  | Destroyed sid =>
      s ← sessions c !! sid;
      Some (mkConnections (Session_destroy s g) (delete sid (sessions c)))
  | Requested ip => Some (mkConnections (DOSGuard_request ip g).2 (sessions c))
  | Responded ip n => Some (mkConnections (DOSGuard_add ip n g).2 (sessions c))
  | Swept => Some (mkConnections (DOSGuard_clear g) (sessions c))
  end.

Fixpoint conn_run (es : list ConnEvent) (c : Connections) : option Connections :=
  match es with [] => Some c | e :: es' => c' ← conn_event e c; conn_run es' c' end.

Definition conn_start (whitelist : gset string) (fetches conns requests : Z) : Connections :=
  mkConnections (mkDOSGuard ∅ ∅ whitelist fetches conns requests) ∅.

(** ** The reference *)

Definition requests_since (ip : string) (es : list ConnEvent) : Z :=
  foldl (fun n e => match e with
                    | Requested i => if decide (i = ip) then n + 1 else n
                    | Swept => 0
                    | _ => n
                    end) 0 es.

Definition bytes_since (ip : string) (es : list ConnEvent) : Z :=
  foldl (fun n e => match e with
                    | Responded i size => if decide (i = ip) then n + size else n
                    | Swept => 0
                    | _ => n
                    end) 0 es.

Definition listed (ip : string) (wl : gset string) : bool := bool_decide (ip ∈ wl).

(** The session holds a connection of the address. *)
Definition holds (ip : string) (s : Session) : bool :=
  match s with
  | HttpSession (Some i) false => bool_decide (i = ip)
  | WsSession (Some i) => bool_decide (i = ip)
  | _ => false
  end.

Definition open_conns (ip : string) (ss : gmap nat Session) : Z :=
  Z.of_nat (size (filter (fun p => holds ip p.2 = true) ss)).

(** ** Lemmas *)

Lemma open_conns_insert ip ss i s :
  ss !! i = None -> open_conns ip (<[i := s]> ss) = open_conns ip ss + Z.b2z (holds ip s).
Proof.
  intros Hi. unfold open_conns. destruct (holds ip s) eqn:Hh.
  - rewrite map_filter_insert_True by done. rewrite map_size_insert_None; [cbn; lia|].
    apply map_lookup_filter_None. by left.
  - rewrite map_filter_insert_False by (cbn; congruence). rewrite delete_id by done. cbn. lia.
Qed.

Lemma open_conns_delete ip ss i s :
  ss !! i = Some s -> open_conns ip (delete i ss) = open_conns ip ss - Z.b2z (holds ip s).
Proof.
  intros Hi. rewrite <- (insert_delete_id ss i s Hi) at 2.
  rewrite open_conns_insert by apply lookup_delete_eq. lia.
Qed.

Lemma open_conns_update ip ss i s s' :
  ss !! i = Some s -> open_conns ip (<[i := s']> ss) = open_conns ip ss - Z.b2z (holds ip s) + Z.b2z (holds ip s').
Proof.
  intros Hi. rewrite <- insert_delete_eq, open_conns_insert by apply lookup_delete_eq.
  by rewrite (open_conns_delete ip ss i s).
Qed.

Lemma open_conns_pos ip ss i s : ss !! i = Some s -> holds ip s = true -> 0 < open_conns ip ss.
Proof.
  intros Hi Hh. pose proof (open_conns_delete ip ss i s Hi) as H. rewrite Hh in H.
  unfold open_conns in *. cbn in H. lia.
Qed.

(** The count of an address stands for [n] open connections. *)
Definition counts_to (n : Z) (o : option Z) : Prop :=
  (o = None /\ u32 n = 0) \/ (o = Some (u32 n) /\ 0 < n).

Lemma counts_to_default n o : counts_to n o -> default 0 o = u32 n.
Proof. by intros [[-> ->]|[-> _]]. Qed.

Record guard_inv (es : list ConnEvent) (wl : gset string) (mf mc mr : Z) (c : Connections) : Prop := {
  inv_limits : whitelist_ (guard c) = wl /\ maxFetches_ (guard c) = mf /\
               maxConnCount_ (guard c) = mc /\ maxRequestCount_ (guard c) = mr;
  inv_state : forall ip, ip ∉ wl ->
    default ClientState_default (ipState_ (guard c) !! ip) =
    mkClientState (u32 (bytes_since ip es)) (u32 (requests_since ip es));
  inv_conns : forall ip, ip ∉ wl -> counts_to (open_conns ip (sessions c)) (ipConnCount_ (guard c) !! ip)
}.

(** Appending an event to the history. *)
Lemma requests_since_snoc ip es e :
  requests_since ip (es ++ [e]) =
  match e with
  | Requested i => if decide (i = ip) then requests_since ip es + 1 else requests_since ip es
  | Swept => 0
  | _ => requests_since ip es
  end.
Proof. unfold requests_since. by rewrite foldl_app. Qed.

Lemma bytes_since_snoc ip es e :
  bytes_since ip (es ++ [e]) =
  match e with
  | Responded i size => if decide (i = ip) then bytes_since ip es + size else bytes_since ip es
  | Swept => 0
  | _ => bytes_since ip es
  end.
Proof. unfold bytes_since. by rewrite foldl_app. Qed.

Lemma not_whitelisted ip g : ip ∉ whitelist_ g -> isWhiteListed ip g = false.
Proof. intros. by apply bool_decide_eq_false. Qed.

(** What the methods do to the tables and the limits. *)
Lemma increment_conns ip g ip' :
  ip' ∉ whitelist_ g ->
  ipConnCount_ (DOSGuard_increment ip g) !! ip' =
  if decide (ip = ip') then Some (u32 (default 0 (ipConnCount_ g !! ip) + 1)) else ipConnCount_ g !! ip'.
Proof.
  intros Hw. unfold DOSGuard_increment. destruct (isWhiteListed ip g) eqn:Hi.
  - apply bool_decide_eq_true in Hi. rewrite decide_False by congruence. done.
  - cbn. destruct (decide (ip = ip')) as [<-|Hne]; by simplify_map_eq.
Qed.

Lemma decrement_conns ip g ip' :
  ip' ∉ whitelist_ g ->
  ipConnCount_ (DOSGuard_decrement ip g) !! ip' =
  if decide (ip = ip') then
    (if u32 (default 0 (ipConnCount_ g !! ip) - 1) =? 0 then None
     else Some (u32 (default 0 (ipConnCount_ g !! ip) - 1)))
  else ipConnCount_ g !! ip'.
Proof.
  intros Hw. unfold DOSGuard_decrement. destruct (isWhiteListed ip g) eqn:Hi.
  - apply bool_decide_eq_true in Hi. rewrite decide_False by congruence. done.
  - cbn. destruct (u32 _ =? 0), (decide (ip = ip')) as [<-|Hne]; cbn; by simplify_map_eq.
Qed.

Definition same_limits (g g' : DOSGuard) : Prop :=
  whitelist_ g' = whitelist_ g /\ maxFetches_ g' = maxFetches_ g /\
  maxConnCount_ g' = maxConnCount_ g /\ maxRequestCount_ g' = maxRequestCount_ g.

Lemma increment_rest ip g : same_limits g (DOSGuard_increment ip g) /\ ipState_ (DOSGuard_increment ip g) = ipState_ g.
Proof. unfold DOSGuard_increment. by destruct (isWhiteListed ip g). Qed.

Lemma decrement_rest ip g : same_limits g (DOSGuard_decrement ip g) /\ ipState_ (DOSGuard_decrement ip g) = ipState_ g.
Proof. unfold DOSGuard_decrement. destruct (isWhiteListed ip g); [done|]. by destruct (_ =? 0). Qed.

(** The clients' states after the counting methods. *)
Lemma request_state ip g ip' :
  ip' ∉ whitelist_ g ->
  let st := default ClientState_default (ipState_ g !! ip') in
  default ClientState_default (ipState_ (DOSGuard_request ip g).2 !! ip') =
  if decide (ip = ip') then mkClientState (transferedByte st) (u32 (requestsCount st + 1)) else st.
Proof.
  intros Hw st. unfold DOSGuard_request. destruct (isWhiteListed ip g) eqn:Hi.
  - apply bool_decide_eq_true in Hi. rewrite decide_False by congruence. done.
  - cbn. destruct (decide (ip = ip')) as [<-|Hne]; by simplify_map_eq.
Qed.

Lemma add_state ip n g ip' :
  ip' ∉ whitelist_ g ->
  let st := default ClientState_default (ipState_ g !! ip') in
  default ClientState_default (ipState_ (DOSGuard_add ip n g).2 !! ip') =
  if decide (ip = ip') then mkClientState (u32 (transferedByte st + u32 n)) (requestsCount st) else st.
Proof.
  intros Hw st. unfold DOSGuard_add. destruct (isWhiteListed ip g) eqn:Hi.
  - apply bool_decide_eq_true in Hi. rewrite decide_False by congruence. done.
  - cbn. destruct (decide (ip = ip')) as [<-|Hne]; by simplify_map_eq.
Qed.

Lemma request_rest ip g :
  same_limits g (DOSGuard_request ip g).2 /\ ipConnCount_ (DOSGuard_request ip g).2 = ipConnCount_ g.
Proof. unfold DOSGuard_request. by destruct (isWhiteListed ip g). Qed.

Lemma add_rest ip n g :
  same_limits g (DOSGuard_add ip n g).2 /\ ipConnCount_ (DOSGuard_add ip n g).2 = ipConnCount_ g.
Proof. unfold DOSGuard_add. by destruct (isWhiteListed ip g). Qed.

(** One more, one fewer connection. *)
Lemma counts_to_incr n o : 0 <= n -> counts_to n o -> counts_to (n + 1) (Some (u32 (default 0 o + 1))).
Proof.
  intros Hn Ho. right. rewrite (counts_to_default n o Ho). autorewrite with wrap_rw. split; [done | lia].
Qed.

Lemma counts_to_decr n o :
  0 < n -> counts_to n o ->
  counts_to (n - 1) (if u32 (default 0 o - 1) =? 0 then None else Some (u32 (default 0 o - 1))).
Proof.
  intros Hn Ho. rewrite (counts_to_default n o Ho). autorewrite with wrap_rw.
  destruct (Z.eqb_spec (u32 (n - 1)) 0) as [H0|H0]; [by left | right; split; [done|]].
  destruct (decide (n = 1)) as [->|]; [by destruct H0 | lia].
Qed.

(** What a destructor does to the count of an address. *)
Lemma Session_destroy_conns s g ip n :
  ip ∉ whitelist_ g -> (holds ip s = true -> 0 < n) -> counts_to n (ipConnCount_ g !! ip) ->
  counts_to (n - Z.b2z (holds ip s)) (ipConnCount_ (Session_destroy s g) !! ip).
Proof.
  intros Hw Hn Hc. destruct s as [[i|] []|[i|]]; cbn in *; rewrite ?Z.sub_0_r; try done.
  all: rewrite decrement_conns by done; destruct (decide (i = ip)) as [->|Hne];
    [rewrite bool_decide_true in * by done | rewrite bool_decide_false by done; cbn; by rewrite Z.sub_0_r].
  all: apply counts_to_decr; auto.
Qed.

Lemma Session_destroy_rest s g : same_limits g (Session_destroy s g) /\ ipState_ (Session_destroy s g) = ipState_ g.
Proof. destruct s as [[i|] []|[i|]]; cbn; try (split; done); apply decrement_rest. Qed.

Lemma HttpSession_make_conns o g ip n :
  ip ∉ whitelist_ g -> 0 <= n -> counts_to n (ipConnCount_ g !! ip) ->
  counts_to (n + Z.b2z (holds ip (HttpSession_make o g).1)) (ipConnCount_ (HttpSession_make o g).2 !! ip).
Proof.
  intros Hw Hn Hc. destruct o as [i|]; cbn; [|by rewrite Z.add_0_r].
  rewrite increment_conns by done. destruct (decide (i = ip)) as [->|Hne].
  - rewrite bool_decide_true by done. by apply counts_to_incr.
  - rewrite bool_decide_false by done. cbn. by rewrite Z.add_0_r.
Qed.

Lemma HttpSession_make_rest o g :
  same_limits g (HttpSession_make o g).2 /\ ipState_ (HttpSession_make o g).2 = ipState_ g.
Proof. destruct o; cbn; [apply increment_rest | split; done]. Qed.

Lemma open_conns_nonneg ip ss : 0 <= open_conns ip ss.
Proof. unfold open_conns. lia. Qed.

(** Limits that stay carry the limits of the invariant over. *)
Lemma same_limits_inv g g' wl mf mc mr :
  same_limits g g' ->
  whitelist_ g = wl /\ maxFetches_ g = mf /\ maxConnCount_ g = mc /\ maxRequestCount_ g = mr ->
  whitelist_ g' = wl /\ maxFetches_ g' = mf /\ maxConnCount_ g' = mc /\ maxRequestCount_ g' = mr.
Proof. unfold same_limits. intuition congruence. Qed.

Lemma guard_inv_event es wl mf mc mr c e c' :
  guard_inv es wl mf mc mr c -> conn_event e c = Some c' -> guard_inv (es ++ [e]) wl mf mc mr c'.
Proof.
  intros [Hl Hs Hc] He. pose proof (proj1 Hl) as Hw.
  destruct e as [sid ip|sid wsid|sid|ip|ip n|]; cbn in He.
  - destruct (sessions c !! sid) eqn:Hsid; [done|]. injection He as <-.
    destruct (HttpSession_make_rest ip (guard c)) as [Hr1 Hr2]. split; cbn [guard sessions].
    + by eapply same_limits_inv.
    + intros i Hi. rewrite requests_since_snoc, bytes_since_snoc.
      unfold HttpSession_make in Hr2. cbn [snd] in Hr2. rewrite Hr2. by apply Hs.
    + intros i Hi. rewrite open_conns_insert by done.
      apply (HttpSession_make_conns ip); [by rewrite Hw | apply open_conns_nonneg | by apply Hc].
  - destruct (sessions c !! sid) as [[[ip|] []|]|] eqn:Hsid; try done.
    destruct (sessions c !! wsid) eqn:Hws; [done|]. injection He as <-. split; cbn [guard sessions]; [done| |].
    + intros i Hi. rewrite requests_since_snoc, bytes_since_snoc. by apply Hs.
    + intros i Hi. rewrite open_conns_insert by (rewrite lookup_insert_ne; congruence).
      rewrite (open_conns_update i (sessions c) sid (HttpSession (Some ip) false)) by done. cbn.
      rewrite Z.add_0_r, Z.sub_add. by apply Hc.
  - destruct (sessions c !! sid) as [s|] eqn:Hsid; [|done]. cbn in He. injection He as <-.
    destruct (Session_destroy_rest s (guard c)) as [Hr1 Hr2]. split; cbn [guard sessions].
    + by eapply same_limits_inv.
    + intros i Hi. rewrite requests_since_snoc, bytes_since_snoc, Hr2. by apply Hs.
    + intros i Hi. rewrite (open_conns_delete i _ sid s) by done.
      apply Session_destroy_conns; [by rewrite Hw | | by apply Hc]. intros Hh. by eapply open_conns_pos.
  - injection He as <-. destruct (request_rest ip (guard c)) as [Hr1 Hr2]. split; cbn [guard sessions].
    + by eapply same_limits_inv.
    + intros i Hi. rewrite requests_since_snoc, bytes_since_snoc, request_state, Hs by (by rewrite ?Hw).
      case_decide; [|done]. cbn. by autorewrite with wrap_rw.
    + intros i Hi. rewrite Hr2. by apply Hc.
  - injection He as <-. destruct (add_rest ip n (guard c)) as [Hr1 Hr2]. split; cbn [guard sessions].
    + by eapply same_limits_inv.
    + intros i Hi. rewrite requests_since_snoc, bytes_since_snoc, add_state, Hs by (by rewrite ?Hw).
      case_decide; [|done]. cbn. by autorewrite with wrap_rw.
    + intros i Hi. rewrite Hr2. by apply Hc.
  - injection He as <-. split; cbn [guard sessions]; [done| |done].
    intros i Hi. by rewrite requests_since_snoc, bytes_since_snoc.
Qed.

Lemma guard_inv_start wl mf mc mr : guard_inv [] wl mf mc mr (conn_start wl mf mc mr).
Proof. split; [done..|]. intros ip Hi. by left. Qed.

Lemma guard_inv_run es0 es wl mf mc mr c c' :
  guard_inv es0 wl mf mc mr c -> conn_run es c = Some c' -> guard_inv (es0 ++ es) wl mf mc mr c'.
Proof.
  revert es0 c. induction es as [|e es IH]; intros es0 c Hi Hr; cbn in Hr.
  - injection Hr as <-. by rewrite app_nil_r.
  - destruct (conn_event e c) as [c1|] eqn:He; [|done]. rewrite cons_middle, app_assoc.
    eapply IH; [by eapply guard_inv_event | exact Hr].
Qed.

(** The answer in terms of the three counts. *)
Lemma isOk_limits g ip st n :
  0 <= maxFetches_ g -> 0 <= maxConnCount_ g -> 0 <= maxRequestCount_ g ->
  ip ∉ whitelist_ g ->
  default ClientState_default (ipState_ g !! ip) = st -> default 0 (ipConnCount_ g !! ip) = n ->
  DOSGuard_isOk ip g =
  (transferedByte st <=? maxFetches_ g) && (requestsCount st <=? maxRequestCount_ g) && (n <=? maxConnCount_ g).
Proof.
  intros Hf Hc Hr Hw <- <-. unfold DOSGuard_isOk. rewrite not_whitelisted by done. rewrite !Z.leb_antisym.
  destruct (ipState_ g !! ip) as [[b r]|], (ipConnCount_ g !! ip) as [k|]; cbn.
  all: repeat match goal with |- context [?a >? ?b] => rewrite (Z.gtb_ltb a b) end.
  all: repeat match goal with |- context [?a <? ?b] => destruct (Z.ltb_spec a b) end; cbn; try done; lia.
Qed.

(** C25: the guard against a reference. Whatever sessions are accepted, upgraded
    and destroyed, and however their requests, responses and the sweeps
    interleave: a client is let through exactly when it is whitelisted, or its
    requests and response bytes since the last sweep and its open connections
    (as 32-bit numbers) do not exceed the three limits; requests and responses
    are counted, whether or not the answer is yes; the count of connections is
    positive whenever a destructor decrements it, and an address without
    connections has no entry left. *)
Theorem dos_guard_reference (wl : gset string) (mf mc mr : Z) (es : list ConnEvent) (c : Connections) (ip : string) :
  0 <= mf -> 0 <= mc -> 0 <= mr ->
  conn_run es (conn_start wl mf mc mr) = Some c ->
  DOSGuard_isOk ip (guard c) =
    (listed ip wl ||
     ((u32 (bytes_since ip es) <=? mf) && (u32 (requests_since ip es) <=? mr) &&
      (u32 (open_conns ip (sessions c)) <=? mc))) /\
  (DOSGuard_request ip (guard c)).1 =
    (listed ip wl ||
     ((u32 (bytes_since ip es) <=? mf) && (u32 (requests_since ip es + 1) <=? mr) &&
      (u32 (open_conns ip (sessions c)) <=? mc))) /\
  (forall sid s, sessions c !! sid = Some s -> holds ip s = true ->
    open_conns ip (sessions c) < 2 ^ 32 -> decrement_assert ip (guard c) = true) /\
  (ip ∉ wl -> open_conns ip (sessions c) = 0 -> ipConnCount_ (guard c) !! ip = None).
Proof.
  intros Hmf Hmc Hmr Hrun.
  pose proof (guard_inv_run [] es wl mf mc mr _ c (guard_inv_start wl mf mc mr) Hrun) as Hinv.
  pose proof (guard_inv_event es wl mf mc mr c (Requested ip) _ Hinv eq_refl) as Hreq.
  destruct Hinv as [(Hw & Hf & Hc & Hr) Hs Hn], Hreq as [(Hw' & Hf' & Hc' & Hr') Hs' Hn']. cbn in *.
  unfold decrement_assert, DOSGuard_request, isWhiteListed, listed in *.
  destruct (decide (ip ∈ wl)) as [Hin|Hin].
  - unfold DOSGuard_isOk, isWhiteListed. rewrite Hw. rewrite !bool_decide_true by done. done.
  - rewrite Hw in *. rewrite !bool_decide_false in * by done. cbn [orb].
    split_and!.
    + erewrite isOk_limits; rewrite ?Hw, ?Hf, ?Hc, ?Hr; [|done..]. rewrite Hs by done.
      by rewrite (counts_to_default _ _ (Hn ip Hin)).
    + cbn [fst snd] in *.
      erewrite isOk_limits; rewrite ?Hw', ?Hf', ?Hc', ?Hr'; [|done..]. rewrite Hs' by done.
      rewrite (counts_to_default _ _ (Hn' ip Hin)), requests_since_snoc, bytes_since_snoc, decide_True by done. done.
    + intros sid s Hsid Hh Hlt. pose proof (open_conns_pos ip _ sid s Hsid Hh).
      rewrite (counts_to_default _ _ (Hn ip Hin)), u32_small by lia. apply Z.ltb_lt. lia.
    + intros _ H0. destruct (Hn ip Hin) as [[Hnone _]|[_ Hpos]]; [done | lia].
Qed.

(** A limit of two requests, one connection: the third request and any request
    with two connections open are refused. *)
Definition sample_events : list ConnEvent :=
  [Accepted 0 (Some "a"%string); Upgraded 0 1; Destroyed 0; Requested "a"; Accepted 2 (Some "a"%string)].

Definition sample_connections : Connections :=
  default (conn_start ∅ 100 1 2) (conn_run sample_events (conn_start ∅ 100 1 2)).

Example sample_refused :
  (DOSGuard_request "a" (guard sample_connections)).1 = false /\
  (DOSGuard_request "b" (guard sample_connections)).1 = true.
Proof. by vm_compute. Qed.

(** The upgrade to a websocket asks the guard nothing: the connection is made
    although the client is over its limit. *)
Example upgrade_over_limit :
  exists c, conn_event (Upgraded 2 3) sample_connections = Some c /\
    DOSGuard_isOk "a" (guard sample_connections) = false /\
    sessions c !! 3%nat = Some (WsSession (Some "a"%string)).
Proof. eexists. by vm_compute. Qed.

Lemma dos_guard_reference_witness :
  conn_run sample_events (conn_start ∅ 100 1 2) = Some sample_connections /\
  DOSGuard_isOk "a" (guard sample_connections) =
    (listed "a" ∅ ||
     ((u32 (bytes_since "a" sample_events) <=? 100) && (u32 (requests_since "a" sample_events) <=? 2) &&
      (u32 (open_conns "a" (sessions sample_connections)) <=? 1))).
Proof.
  split; [by vm_compute|].
  apply (fun a b d r => proj1 (dos_guard_reference ∅ 100 1 2 sample_events sample_connections "a" a b d r)); [lia..|by vm_compute].
Defined.
