(* ===== verification/Json.v ===== *)
(** JSON values as the request handlers use them (Boost.JSON).

    A value is one of the kinds of [boost::json::value]; an object keeps its
    members in order with distinct keys. The accessors [as_array] and the like
    throw on another kind, [at] on a missing key; [operator[]] with an
    assignment replaces the value of a key or adds it at the end. *)

From stdpp Require Import base list strings.
From Stdlib Require Import ZArith Lia Ascii.
From S2P Require Import Prelude.

Open Scope Z_scope.

(** A double is its 64 bits. *)
Inductive json :=
| JNull
| JBool (b : bool)
| JInt64 (z : Z)
| JUint64 (z : Z)
| JDouble (bits : Z)
| JString (s : string)
| JArray (l : list json)
| JObject (m : list (string * json)).

Abbreviation JsonObject := (list (string * json)).

Definition is_null (v : json) : bool := match v with JNull => true | _ => false end.
Definition is_bool (v : json) : bool := match v with JBool _ => true | _ => false end.
Definition is_int64 (v : json) : bool := match v with JInt64 _ => true | _ => false end.
Definition is_uint64 (v : json) : bool := match v with JUint64 _ => true | _ => false end.
Definition is_string (v : json) : bool := match v with JString _ => true | _ => false end.
Definition is_array (v : json) : bool := match v with JArray _ => true | _ => false end.
Definition is_object (v : json) : bool := match v with JObject _ => true | _ => false end.

Definition wrong_kind {A} : Res A := Throw (LibraryError "not of this kind").

Definition as_bool (v : json) : Res bool := match v with JBool b => Ok b | _ => wrong_kind end.
Definition as_int64 (v : json) : Res Z := match v with JInt64 z => Ok z | _ => wrong_kind end.
Definition as_uint64 (v : json) : Res Z := match v with JUint64 z => Ok z | _ => wrong_kind end.
Definition as_string (v : json) : Res string := match v with JString s => Ok s | _ => wrong_kind end.
Definition as_array (v : json) : Res (list json) := match v with JArray l => Ok l | _ => wrong_kind end.
Definition as_object (v : json) : Res JsonObject := match v with JObject m => Ok m | _ => wrong_kind end.

(** The characters before the first NUL: [std::string{s.c_str()}]. *)
Fixpoint c_str (s : string) : string :=
  match s with
  | EmptyString => EmptyString
  | String a s' => if decide (a = Ascii.zero) then EmptyString else String a (c_str s')
  end.

Fixpoint obj_find (k : string) (m : JsonObject) : option json :=
  match m with
  | [] => None
  | (k', v) :: m' => if decide (k = k') then Some v else obj_find k m'
  end.

Definition contains (m : JsonObject) (k : string) : bool := bool_decide (is_Some (obj_find k m)).

Definition at_ (m : JsonObject) (k : string) : Res json :=
  match obj_find k m with Some v => Ok v | None => Throw OutOfRange end.

(** [m[k] = v], [insert_or_assign]. *)
Fixpoint obj_set (k : string) (v : json) (m : JsonObject) : JsonObject :=
  match m with
  | [] => [(k, v)]
  | (k', v') :: m' => if decide (k = k') then (k, v) :: m' else (k', v') :: obj_set k v m'
  end.

Definition obj_erase (k : string) (m : JsonObject) : JsonObject := filter (fun p => p.1 <> k) m.

Lemma obj_find_set k v m k' :
  obj_find k' (obj_set k v m) = if decide (k' = k) then Some v else obj_find k' m.
Proof.
  induction m as [|[j w] m IH]; cbn; [done|].
  destruct (decide (k = j)) as [<-|Hj]; cbn; [|rewrite IH]; repeat case_decide; congruence.
Qed.

Lemma obj_find_erase k m k' :
  obj_find k' (obj_erase k m) = if decide (k' = k) then None else obj_find k' m.
Proof.
  unfold obj_erase. induction m as [|[j w] m IH]; [cbn; by case_decide|]. rewrite filter_cons. cbn [fst].
  destruct (decide (j <> k)) as [Hj|Hj]; cbn; rewrite IH; repeat case_decide; naive_solver.
Qed.

Lemma at_contains m k : contains m k = true <-> exists v, at_ m k = Ok v.
Proof.
  unfold contains, at_. rewrite bool_decide_eq_true. destruct (obj_find k m); split; try done; [eauto | by intros [? ?]..].
Qed.

Lemma at_absent m k : contains m k = false -> obj_find k m = None.
Proof. unfold contains. rewrite bool_decide_eq_false. by intros Hn%eq_None_not_Some. Qed.

Lemma contains_find m k : contains m k = true -> exists v, obj_find k m = Some v.
Proof. unfold contains. rewrite bool_decide_eq_true. by intros [v ?]; exists v. Qed.

(** An object built with distinct keys keeps them distinct. *)
Lemma obj_set_keys k v m : NoDup m.*1 -> NoDup (obj_set k v m).*1.
Proof.
  assert (forall m', (obj_set k v m').*1 = m'.*1 \/ (obj_set k v m').*1 = m'.*1 ++ [k] /\ k ∉ m'.*1) as Hk.
  { induction m' as [|[j w] m' IH]; cbn; [right; split; [done | apply not_elem_of_nil]|].
    destruct (decide (k = j)) as [<-|Hj]; [by left|]. cbn.
    destruct IH as [->|[-> Hn]]; [by left | right; split; [done|]].
    by rewrite not_elem_of_cons. }
  intros Hd. destruct (Hk m) as [->|[-> Hn]]; [done|].
  apply NoDup_app. split_and!; [done| |apply NoDup_singleton].
  intros x Hx ->%list_elem_of_singleton. done.
Qed.
