(* ===== verification/Errors.v ===== *)
(** Errors and warnings of the request handlers ([rpc/Errors.h], [Errors.cpp]).

    The numbers, tokens and messages of the errors of rippled are its own
    (class [RippledErrors]); those of clio are in the source. *)

From stdpp Require Import base list strings.
From Stdlib Require Import ZArith Lia.
From S2P Require Import Prelude Json.

#[local] Open Scope string_scope.
Open Scope Z_scope.

(** The [ripple::error_code_i] the modelled code uses. *)
Inductive RippledError :=
| rpcUNKNOWN | rpcSUCCESS | rpcBAD_SYNTAX | rpcINVALID_PARAMS | rpcUNKNOWN_COMMAND | rpcTOO_BUSY
| rpcSLOW_DOWN | rpcNOT_READY | rpcINTERNAL | rpcFAILED_TO_FORWARD | rpcSTREAM_MALFORMED
| rpcLGR_NOT_FOUND | rpcLGR_IDX_MALFORMED | rpcLGR_IDXS_INVALID
| rpcACT_NOT_FOUND | rpcACT_MALFORMED | rpcCHANNEL_MALFORMED | rpcBAD_ISSUER | rpcBAD_MARKET | rpcBAD_SEED
| rpcSRC_CUR_MALFORMED | rpcSRC_ISR_MALFORMED | rpcDST_AMT_MALFORMED | rpcDST_ISR_MALFORMED
| rpcINVALID_LGR_RANGE | rpcEXCESSIVE_LGR_RANGE | rpcTXN_NOT_FOUND | rpcOBJECT_NOT_FOUND
| rpcDB_DESERIALIZATION.

#[export] Instance RippledError_eq_dec : EqDecision RippledError.
Proof. solve_decision. Defined.

(** [static_cast<uint32_t>(err)] and [ripple::RPC::get_error_info]. *)
Class RippledErrors := {
  error_number : RippledError -> Z;
  error_token : RippledError -> string;
  error_text : RippledError -> string
}.

Inductive ClioError :=
| rpcMALFORMED_CURRENCY | rpcMALFORMED_REQUEST | rpcMALFORMED_OWNER | rpcMALFORMED_ADDRESS.

#[export] Instance ClioError_eq_dec : EqDecision ClioError.
Proof. solve_decision. Defined.

Definition ClioError_number (code : ClioError) : Z :=
  match code with
  | rpcMALFORMED_CURRENCY => 5000
  | rpcMALFORMED_REQUEST => 5001
  | rpcMALFORMED_OWNER => 5002
  | rpcMALFORMED_ADDRESS => 5003
  end.

Record ClioErrorInfo := mkClioErrorInfo
  { cei_code : ClioError; cei_error : string; cei_message : string }.

Inductive CombinedError :=
| Rippled (e : RippledError)
| Clio (e : ClioError).

Record Status := mkStatus
  { st_code : CombinedError; st_error : string; st_message : string; st_extraInfo : option JsonObject }.

(** The constructors. *)
Definition Status_ok : Status := mkStatus (Rippled rpcSUCCESS) "" "" None.
Definition Status_code (code : CombinedError) : Status := mkStatus code "" "" None.
Definition Status_message (code : CombinedError) (message : string) : Status := mkStatus code "" message None.
Definition Status_custom (message : string) : Status := mkStatus (Rippled rpcUNKNOWN) "" message None.

(** [operator bool]: true when the status is not OK. *)
Definition is_error (s : Status) : bool :=
  match st_code s with Rippled e => negb (bool_decide (e = rpcSUCCESS)) | Clio _ => true end.

(** A handler's [std::variant<Status, T>]: either a status or a value. *)
Inductive Outcome (A : Type) :=
| Failed (s : Status)
| Done (a : A).
Arguments Failed {A} s.
Arguments Done {A} a.

(** [if (auto status = ...; status) return status;] and the like. *)
#[export] Instance Outcome_ret : MRet Outcome := fun A a => Done a.
#[export] Instance Outcome_bind : MBind Outcome := fun A B f m =>
  match m with Done a => f a | Failed s => Failed s end.

(** ** Warnings *)

Inductive WarningCode := warnUNKNOWN | warnRPC_CLIO | warnRPC_OUTDATED | warnRPC_RATE_LIMIT.

#[export] Instance WarningCode_eq_dec : EqDecision WarningCode.
Proof. solve_decision. Defined.

Definition WarningCode_number (c : WarningCode) : Z :=
  match c with
  | warnUNKNOWN => -1
  | warnRPC_CLIO => 2001
  | warnRPC_OUTDATED => 2002
  | warnRPC_RATE_LIMIT => 2003
  end.

Definition warning_infos : list (WarningCode * string) :=
  [(warnUNKNOWN, "Unknown warning");
   (warnRPC_CLIO, "This is a clio server. clio only serves validated data. If you want to talk to rippled, include 'ledger_index':'current' in your request");
   (warnRPC_OUTDATED, "This server may be out of date");
   (warnRPC_RATE_LIMIT, "You are about to be rate limited")].

Definition getWarningInfo (code : WarningCode) : Res (WarningCode * string) :=
  match list_find (fun i => i.1 = code) warning_infos with
  | Some (_, i) => Ok i
  | None => Throw OutOfRange
  end.

Definition makeWarning (code : WarningCode) : Res JsonObject :=
  info ← getWarningInfo code;
  Ok (obj_set "message" (JString info.2) (obj_set "id" (JInt64 (WarningCode_number code)) [])).

(** ** Errors *)

Definition clio_error_infos : list ClioErrorInfo :=
  [mkClioErrorInfo rpcMALFORMED_CURRENCY "malformedCurrency" "Malformed currency.";
   mkClioErrorInfo rpcMALFORMED_REQUEST "malformedRequest" "Malformed request.";
   mkClioErrorInfo rpcMALFORMED_OWNER "malformedOwner" "Malformed owner.";
   mkClioErrorInfo rpcMALFORMED_ADDRESS "malformedAddress" "Malformed address."].

Definition getErrorInfo (code : ClioError) : Res ClioErrorInfo :=
  match list_find (fun i => cei_code i = code) clio_error_infos with
  | Some (_, i) => Ok i
  | None => Throw OutOfRange
  end.

Section errors.
Context `{RippledErrors}.

(** The object both overloads of [makeError] fill; the texts are assigned as C
    strings. *)
Definition error_object (error : string) (code : Z) (message : string) : JsonObject :=
  obj_set "type" (JString "response") (obj_set "status" (JString "error")
    (obj_set "error_message" (JString (c_str message)) (obj_set "error_code" (JUint64 code)
      (obj_set "error" (JString (c_str error)) [])))).

Definition makeError_rippled (err : RippledError) (customError customMessage : option string) : JsonObject :=
  error_object (default (error_token err) customError) (u32 (error_number err)) (default (error_text err) customMessage).

Definition makeError_clio (err : ClioError) (customError customMessage : option string) : Res JsonObject :=
  info ← getErrorInfo err;
  Ok (error_object (default (cei_error info) customError) (u32 (ClioError_number (cei_code info)))
        (default (cei_message info) customMessage)).

Definition wrapOptional (str : string) : option string :=
  if decide (str = "") then None else Some str.

Definition makeError (status : Status) : Res JsonObject :=
  res ← match st_code status with
        | Rippled rpcUNKNOWN =>
            Ok [("error", JString (st_message status)); ("type", JString "response"); ("status", JString "error")]
        | Rippled err => Ok (makeError_rippled err (wrapOptional (st_error status)) (wrapOptional (st_message status)))
        | Clio err => makeError_clio err (wrapOptional (st_error status)) (wrapOptional (st_message status))
        end;
  Ok (match st_extraInfo status with
      | Some info => foldl (fun r kv => obj_set kv.1 kv.2 r) res info
      | None => res
      end).

End errors.

(** ** Lemmas *)

Lemma getErrorInfo_total code : exists i, getErrorInfo code = Ok i /\ cei_code i = code.
Proof. destruct code; eexists; split; reflexivity. Qed.

Lemma getWarningInfo_total code : exists i, getWarningInfo code = Ok i /\ i.1 = code.
Proof. destruct code; eexists; split; reflexivity. Qed.

Lemma makeWarning_ok code : exists w, makeWarning code = Ok w.
Proof. unfold makeWarning. destruct (getWarningInfo_total code) as (i & -> & _). by eexists. Qed.

Section error_lemmas.
Context `{RippledErrors}.

Lemma makeError_ok status : exists e, makeError status = Ok e.
Proof.
  unfold makeError, makeError_clio. destruct (st_code status) as [[]|err]; try by eexists.
  destruct (getErrorInfo_total err) as (i & -> & _). by eexists.
Qed.

(** Without extra information the object says it is an error. *)
Lemma makeError_error status e :
  st_extraInfo status = None -> makeError status = Ok e ->
  obj_find "status" e = Some (JString "error") /\ obj_find "type" e = Some (JString "response") /\
  exists t, obj_find "error" e = Some (JString t).
Proof.
  intros Hx He. unfold makeError in He. rewrite Hx in He. unfold makeError_clio in He.
  destruct (st_code status) as [[]|err]; try (injection He as <-; cbn; eauto).
  destruct (getErrorInfo_total err) as (i & Hi & _). rewrite Hi in He. injection He as <-. cbn. eauto.
Qed.

End error_lemmas.
