(* ===== verification/Requests.v ===== *)
(** Reading the fields of a request ([rpc/RPCHelpers.cpp]).

    Parsing of addresses, currencies and hexadecimal is rippled's (class
    [RippleStrings]), of decimal numbers Boost's (class [LexicalCast]). *)

From stdpp Require Import base list strings.
From Stdlib Require Import ZArith Lia.
From S2P Require Import Prelude Types Json Errors.

#[local] Open Scope string_scope.
Open Scope Z_scope.

(** [strUnHex], [publicKeyType] (whether the bytes are a public key),
    [parseBase58<PublicKey>], [calcAccountID], [parseBase58<AccountID>],
    [uint256::parseHex], [to_currency], [to_issuer], [noAccount]. The XRP
    currency and account are zero. *)
Class RippleStrings := {
  strUnHex : string -> option Blob;
  publicKeyType : Blob -> bool;
  parseBase58_PublicKey : string -> option Blob;
  calcAccountID : Blob -> AccountID;
  parseBase58_AccountID : string -> option AccountID;
  parseHex : string -> option uint256;
  to_currency : string -> option Z;
  to_issuer : string -> option AccountID;
  noAccount : AccountID
}.

(** [boost::lexical_cast] to [uint32_t] and [uint64_t]; [None] where it throws. *)
Class LexicalCast := {
  lexical_u32 : string -> option Z;
  lexical_u64 : string -> option Z
}.

(** ** Plain fields *)

Definition getBool (request : JsonObject) (field : string) : Res (option bool) :=
  if negb (contains request field) then Ok None
  else
    v ← at_ request field;
    if is_bool v then b ← as_bool v; Ok (Some b)
    else Throw (InvalidParamsError ("Invalid field " +:+ field +:+ ", not bool.")).

Definition getBool_default (request : JsonObject) (field : string) (dfault : bool) : Res bool :=
  res ← getBool request field; Ok (default dfault res).

Definition getRequiredBool (request : JsonObject) (field : string) : Res bool :=
  res ← getBool request field;
  match res with Some b => Ok b | None => Throw (InvalidParamsError ("Missing field " +:+ field)) end.

(** The result is 32 bits wide: a 64-bit value is cut off. *)
Definition getUInt (request : JsonObject) (field : string) : Res (option Z) :=
  if negb (contains request field) then Ok None
  else
    v ← at_ request field;
    if is_uint64 v then z ← as_uint64 v; Ok (Some (u32 z))
    else if is_int64 v then z ← as_int64 v; Ok (Some (u32 z))
    else Throw (InvalidParamsError ("Invalid field " +:+ field +:+ ", not uint.")).

Definition getUInt_default (request : JsonObject) (field : string) (dfault : Z) : Res Z :=
  res ← getUInt request field; Ok (default dfault res).

Definition getRequiredUInt (request : JsonObject) (field : string) : Res Z :=
  res ← getUInt request field;
  match res with Some z => Ok z | None => Throw (InvalidParamsError ("Missing field " +:+ field)) end.

Definition getString (request : JsonObject) (field : string) : Res (option string) :=
  if negb (contains request field) then Ok None
  else
    v ← at_ request field;
    if is_string v then s ← as_string v; Ok (Some (c_str s))
    else Throw (InvalidParamsError ("Invalid field " +:+ field +:+ ", not string.")).

Definition getRequiredString (request : JsonObject) (field : string) : Res string :=
  res ← getString request field;
  match res with Some s => Ok s | None => Throw (InvalidParamsError ("Missing field " +:+ field)) end.

Definition getString_default (request : JsonObject) (field : string) (dfault : string) : Res string :=
  res ← getString request field; Ok (default dfault res).

(** ** Accounts, markers, identifiers *)

Section fields.
Context `{RippleStrings}.

(** A public key in hexadecimal or Base58, or else an address. *)
Definition accountFromStringStrict (account : string) : option AccountID :=
  let publicKey :=
    match strUnHex account with
    | Some blob => if publicKeyType blob then Some blob else parseBase58_PublicKey account
    | None => parseBase58_PublicKey account
    end in
  match publicKey with
  | Some pk => Some (calcAccountID pk)
  | None => parseBase58_AccountID account
  end.

(** The strings of an object's members, read without an exception. *)
Definition field_string (request : JsonObject) (field : string) : option string :=
  match obj_find field request with Some (JString s) => Some (c_str s) | _ => None end.

Definition getHexMarker (request : JsonObject) (marker : uint256) : Outcome uint256 :=
  match obj_find "marker" request with
  | None => Done marker
  | Some v =>
      if negb (is_string v) then Failed (Status_message (Rippled rpcINVALID_PARAMS) "markerNotString")
      else match field_string request "marker" ≫= parseHex with
           | Some m => Done m
           | None => Failed (Status_message (Rippled rpcINVALID_PARAMS) "malformedMarker")
           end
  end.

(** The status of [getAccount] and, when it is OK, the account it leaves. *)
Definition getAccount_field (request : JsonObject) (account : AccountID) (field : string) (required : bool)
  : Outcome AccountID :=
  match obj_find field request with
  | None =>
      if required then Failed (Status_message (Rippled rpcINVALID_PARAMS) (field +:+ "Missing"))
      else Done account
  | Some v =>
      if negb (is_string v) then Failed (Status_message (Rippled rpcINVALID_PARAMS) (field +:+ "NotString"))
      else match field_string request field ≫= accountFromStringStrict with
           | Some a => Done a
           | None => Failed (Status_message (Rippled rpcACT_MALFORMED) (field +:+ "Malformed"))
           end
  end.

Definition getOptionalAccount (request : JsonObject) (field : string) : Outcome (option AccountID) :=
  match obj_find field request with
  | None => Done None
  | Some v =>
      if negb (is_string v) then Failed (Status_message (Rippled rpcINVALID_PARAMS) (field +:+ "NotString"))
      else match field_string request field ≫= accountFromStringStrict with
           | Some a => Done (Some a)
           | None => Failed (Status_message (Rippled rpcINVALID_PARAMS) (field +:+ "Malformed"))
           end
  end.

Definition getAccount (request : JsonObject) (accountId : AccountID) : Outcome AccountID :=
  getAccount_field request accountId "account" true.

Definition getAccount_optional (request : JsonObject) (destAccount : AccountID) (field : string) : Outcome AccountID :=
  getAccount_field request destAccount field false.

Definition parseTaker (taker : json) : Outcome AccountID :=
  match taker with
  | JString s =>
      match accountFromStringStrict (c_str s) with
      | Some a => Done a
      | None => Failed (Status_message (Rippled rpcBAD_ISSUER) "invalidTakerAccount")
      end
  | _ => Failed (Status_message (Rippled rpcINVALID_PARAMS) "takerNotString")
  end.

Definition getTaker (request : JsonObject) (takerID : AccountID) : Outcome AccountID :=
  match obj_find "taker" request with
  | Some v => parseTaker v
  | None => Done takerID
  end.

Definition getChannelId (request : JsonObject) : Outcome uint256 :=
  match obj_find "channel_id" request with
  | None => Failed (Status_message (Rippled rpcINVALID_PARAMS) "missingChannelID")
  | Some v =>
      if negb (is_string v) then Failed (Status_message (Rippled rpcINVALID_PARAMS) "channelIDNotString")
      else match field_string request "channel_id" ≫= parseHex with
           | Some id => Done id
           | None => Failed (Status_message (Rippled rpcCHANNEL_MALFORMED) "malformedChannelID")
           end
  end.

Definition getNFTID (request : JsonObject) : Outcome uint256 :=
  match obj_find "nft_id" request with
  | None => Failed (Status_message (Rippled rpcINVALID_PARAMS) "missingTokenID")
  | Some v =>
      if negb (is_string v) then Failed (Status_message (Rippled rpcINVALID_PARAMS) "tokenIDNotString")
      else match field_string request "nft_id" ≫= parseHex with
           | Some id => Done id
           | None => Failed (Status_message (Rippled rpcINVALID_PARAMS) "malformedTokenID")
           end
  end.

Definition specifiesCurrentOrClosedLedger (request : JsonObject) : bool :=
  match obj_find "ledger_index" request with
  | Some (JString s) => let index := c_str s in bool_decide (index = "current") || bool_decide (index = "closed")
  | _ => false
  end.

(** Every string anywhere below a transaction that is an account; the members
    of an array are not looked at. *)
Fixpoint value_accounts (v : json) : list AccountID :=
  match v with
  | JObject m => mjoin ((fun kv => value_accounts kv.2) <$> m)
  | JString s => match accountFromStringStrict (c_str s) with Some a => [a] | None => [] end
  | _ => []
  end.

Definition getAccountsFromTransaction (transaction : JsonObject) : list AccountID :=
  mjoin ((fun kv => value_accounts kv.2) <$> transaction).

(** ** Books *)

Definition isXRP (z : Z) : bool := z =? 0.

(** One side of a book: its currency, and its issuer where one is given. The
    two sides answer with different errors; what is given here are the errors
    of a bad currency, of a bad issuer, and the texts. *)
Record SideErrors := mkSideErrors
  { se_field : string; se_currency : RippledError; se_issuer : RippledError;
    se_not_string : string; se_bad : string; se_no_account : string; se_unneeded : string; se_invalid : string }.

Definition pays_errors : SideErrors :=
  mkSideErrors "taker_pays" rpcSRC_CUR_MALFORMED rpcSRC_ISR_MALFORMED "takerPaysIssuerNotString" "" ""
    "Unneeded field 'taker_pays.issuer' for XRP currency specification."
    "Invalid field 'taker_pays.issuer', expected non-XRP issuer.".

Definition gets_errors : SideErrors :=
  mkSideErrors "taker_gets" rpcDST_AMT_MALFORMED rpcDST_ISR_MALFORMED "taker_gets.issuer should be string"
    "Invalid field 'taker_gets.issuer', bad issuer." "Invalid field 'taker_gets.issuer', bad issuer account one."
    "Unneeded field 'taker_gets.issuer' for XRP currency specification."
    "Invalid field 'taker_gets.issuer', expected non-XRP issuer.".

(** The field's object with a currency string; then the currency; then the issuer. *)
Definition side_currency_string (e : SideErrors) (side : JsonObject) : Outcome string :=
  match obj_find "currency" side with
  | Some (JString s) => Done (c_str s)
  | _ => Failed (Status_code (Rippled (se_currency e)))
  end.

Definition side_currency (e : SideErrors) (s : string) : Outcome Z :=
  match to_currency s with Some c => Done c | None => Failed (Status_code (Rippled (se_currency e))) end.

Definition side_issuer (e : SideErrors) (side : JsonObject) (currency : Z) : Outcome AccountID :=
  issuer ← match obj_find "issuer" side with
           | None => Done 0
           | Some (JString s) =>
               match to_issuer (c_str s) with
               | None => Failed (Status_message (Rippled (se_issuer e)) (se_bad e))
               | Some a =>
                   if decide (a = noAccount) then Failed (Status_message (Rippled (se_issuer e)) (se_no_account e))
                   else Done a
               end
           | Some _ => Failed (Status_message (Rippled rpcINVALID_PARAMS) (se_not_string e))
           end;
  if isXRP currency && negb (isXRP issuer) then
    Failed (Status_message (Rippled (se_issuer e)) (se_unneeded e))
  else if negb (isXRP currency) && isXRP issuer then
    Failed (Status_message (Rippled (se_issuer e)) (se_invalid e))
  else Done issuer.

Definition request_object (request : JsonObject) (field : string) : Outcome JsonObject :=
  match obj_find field request with
  | Some (JObject m) => Done m
  | _ => Failed (Status_message (Rippled rpcINVALID_PARAMS) ("Field '" +:+ field +:+ "' is not an object"))
  end.

(** The result is the book as its two sides (in: pays, out: gets). The test
    for a missing issuer of a non-XRP currency that the source makes last for
    the first side is never reached: the issuer is then XRP's. *)
Definition parseBook (request : JsonObject) : Outcome ((Z * Z) * (Z * Z)) :=
  if negb (contains request "taker_pays") then
    Failed (Status_message (Rippled rpcINVALID_PARAMS) "Missing field 'taker_pays'")
  else if negb (contains request "taker_gets") then
    Failed (Status_message (Rippled rpcINVALID_PARAMS) "Missing field 'taker_gets'")
  else
    taker_pays ← request_object request "taker_pays";
    taker_gets ← request_object request "taker_gets";
    pays_string ← side_currency_string pays_errors taker_pays;
    gets_string ← side_currency_string gets_errors taker_gets;
    pay_currency ← side_currency pays_errors pays_string;
    get_currency ← side_currency gets_errors gets_string;
    pay_issuer ← side_issuer pays_errors taker_pays pay_currency;
    get_issuer ← side_issuer gets_errors taker_gets get_currency;
    if bool_decide (pay_currency = get_currency) && bool_decide (pay_issuer = get_issuer) then
      Failed (Status_message (Rippled rpcBAD_MARKET) "badMarket")
    else Done ((pay_currency, pay_issuer), (get_currency, get_issuer)).

End fields.

(** ** Lemmas *)

Lemma done_bind {A B} (m : Outcome A) (f : A -> Outcome B) b :
  (m ≫= f) = Done b <-> exists a, m = Done a /\ f a = Done b.
Proof. destruct m as [s|a]; cbn; split; [done | by intros (? & ? & _) | by exists a |]. by intros (? & [= ->] & ?). Qed.

Section request_lemmas.
Context `{RippleStrings}.

Lemma side_issuer_done e side c i :
  side_issuer e side c = Done i -> isXRP c = isXRP i /\ (i = 0 \/ i <> noAccount).
Proof.
  unfold side_issuer. rewrite done_bind. intros (a & Ha & Hc).
  assert (a = 0 \/ a <> noAccount) as Hn.
  { destruct (obj_find "issuer" side) as [[]|]; try done; [|injection Ha as <-; by left].
    destruct (to_issuer (c_str s)) as [a'|]; [|done]. case_decide; [done|]. injection Ha as <-. by right. }
  destruct (isXRP c) eqn:E1, (isXRP a) eqn:E2; cbn in Hc; try done; injection Hc as <-; by rewrite E2.
Qed.

(** The errors of a side that names a XRP currency with an issuer, or another
    currency without one. *)
Lemma side_issuer_unneeded e side c i :
  obj_find "issuer" side = Some (JString i) -> forall a, to_issuer (c_str i) = Some a -> a <> noAccount ->
  isXRP c = true -> isXRP a = false ->
  side_issuer e side c = Failed (Status_message (Rippled (se_issuer e)) (se_unneeded e)).
Proof.
  intros Hi a Ha Hn Hc Hx. unfold side_issuer. rewrite Hi, Ha, decide_False by done. cbn. by rewrite Hc, Hx.
Qed.

Lemma side_issuer_missing e side c :
  obj_find "issuer" side = None -> isXRP c = false ->
  side_issuer e side c = Failed (Status_message (Rippled (se_issuer e)) (se_invalid e)).
Proof. intros Hi Hc. unfold side_issuer. rewrite Hi. cbn. by rewrite Hc. Qed.

End request_lemmas.
