(* ===== verification/Subscriptions.v ===== *)
(** The subscription manager ([subscriptions/SubscriptionManager.h], [.cpp]).

    Every [Subscription] and [SubscriptionMap] owns a strand: its methods only
    post a handler, and a worker thread runs the handlers of a strand one at a
    time in the order they were posted. A member is modelled with its strand's
    queue. The methods of [SubscriptionManager] are programs of atomic actions
    (a post, a critical section of [cleanupMtx_]); the system interleaves any
    number of calling threads, the workers and sessions that die.

    [subscriptions_deliver]: what a session hears is what the calls, taken one
    after the other, say. [subscription_counts]: the reported counts.
    [cleanup_removes]: a session that was cleaned up is subscribed nowhere. *)

From stdpp Require Import base list gmap strings functions.
From Stdlib Require Import ZArith Lia.
From S2P Require Import Prelude Types Json.

Open Scope Z_scope.

Abbreviation session_ptr := nat.
Abbreviation Message := string.

(** A book: what is traded, each side a currency and an issuer. *)
Record Book := mkBook { book_in : Z * Z; book_out : Z * Z }.

#[export] Instance Book_eq_dec : EqDecision Book.
Proof. solve_decision. Defined.
#[export] Instance Book_countable : Countable Book :=
  inj_countable' (fun b => (book_in b, book_out b)) (fun p => mkBook p.1 p.2) (fun '(mkBook _ _) => eq_refl).

(** ** The handlers *)

(** The sessions that are dead when a handler runs. *)
Abbreviation Dead := (gset session_ptr).

Definition dead (D : Dead) (session : session_ptr) : bool := bool_decide (session ∈ D).

(** The subscribers, the counter, and what was sent so far. *)
Definition send_step (D : Dead) (message : Message)
    (w : gset session_ptr * Z * list (session_ptr * Message)) (session : session_ptr)
  : gset session_ptr * Z * list (session_ptr * Message) :=
  let '(subscribers, counter, sent) := w in
  if dead D session then (subscribers ∖ {[session]}, u64 (counter - 1), sent)
  else (subscribers, counter, sent ++ [(session, message)]).

Definition sendToSubscribers (D : Dead) (message : Message) (subscribers : gset session_ptr) (counter : Z)
  : gset session_ptr * Z * list (session_ptr * Message) :=
  foldl (send_step D message) (subscribers, counter, []) (elements subscribers).

Definition addSession (session : session_ptr) (subscribers : gset session_ptr) (counter : Z)
  : gset session_ptr * Z :=
  if bool_decide (session ∈ subscribers) then (subscribers, counter)
  else ({[session]} ∪ subscribers, u64 (counter + 1)).

Definition removeSession (session : session_ptr) (subscribers : gset session_ptr) (counter : Z)
  : gset session_ptr * Z :=
  if bool_decide (session ∈ subscribers) then (subscribers ∖ {[session]}, u64 (counter - 1))
  else (subscribers, counter).

(** The handlers that [subscribe], [unsubscribe] and [publish] post. *)
Inductive Handler :=
| HSubscribe (session : session_ptr)
| HUnsubscribe (session : session_ptr)
| HPublish (message : Message).

#[export] Instance Handler_eq_dec : EqDecision Handler.
Proof. solve_decision. Defined.

Record Subscription := mkSubscription
  { strand_ : list Handler; subscribers_ : gset session_ptr; subCount_ : Z }.

Definition Subscription_post (h : Handler) (s : Subscription) : Subscription :=
  mkSubscription (strand_ s ++ [h]) (subscribers_ s) (subCount_ s).

Definition Subscription_handle (D : Dead) (h : Handler) (subs : gset session_ptr) (count : Z)
  : gset session_ptr * Z * list (session_ptr * Message) :=
  match h with
  | HSubscribe session => (addSession session subs count, [])
  | HUnsubscribe session => (removeSession session subs count, [])
  | HPublish message => sendToSubscribers D message subs count
  end.

(** A worker runs the first handler of the strand. *)
Definition Subscription_run (D : Dead) (s : Subscription)
  : option (Handler * Subscription * list (session_ptr * Message)) :=
  match strand_ s with
  | [] => None
  | h :: rest =>
      let '(subs, count, sent) := Subscription_handle D h (subscribers_ s) (subCount_ s) in
      Some (h, mkSubscription rest subs count, sent)
  end.

Section map.
Context {Key : Type} `{Countable Key}.

Record SubscriptionMap := mkSubscriptionMap
  { map_strand_ : list (Key * Handler); map_subscribers_ : gmap Key (gset session_ptr); map_subCount_ : Z }.

Definition SubscriptionMap_post (key : Key) (h : Handler) (s : SubscriptionMap) : SubscriptionMap :=
  mkSubscriptionMap (map_strand_ s ++ [(key, h)]) (map_subscribers_ s) (map_subCount_ s).

(** [subscribers_[account]] makes an empty set for a new key; a publication
    leaves one behind when it drops the last session, an [unsubscribe] does not. *)
Definition SubscriptionMap_handle (D : Dead) (key : Key) (h : Handler)
    (subs : gmap Key (gset session_ptr)) (count : Z)
  : gmap Key (gset session_ptr) * Z * list (session_ptr * Message) :=
  match h with
  | HSubscribe session =>
      let '(at_key, count') := addSession session (default ∅ (subs !! key)) count in
      (<[key := at_key]> subs, count', [])
  | HUnsubscribe session =>
      match subs !! key with
      | None => (subs, count, [])
      | Some at_key =>
          if bool_decide (session ∈ at_key) then
            let at_key' := at_key ∖ {[session]} in
            (if decide (size at_key' = 0%nat) then delete key subs else <[key := at_key']> subs, u64 (count - 1), [])
          else (subs, count, [])
      end
  | HPublish message =>
      match subs !! key with
      | None => (subs, count, [])
      | Some at_key =>
          let '(at_key', count', sent) := sendToSubscribers D message at_key count in
          (<[key := at_key']> subs, count', sent)
      end
  end.

Definition SubscriptionMap_run (D : Dead) (s : SubscriptionMap)
  : option (Key * Handler * SubscriptionMap * list (session_ptr * Message)) :=
  match map_strand_ s with
  | [] => None
  | (key, h) :: rest =>
      let '(subs, count, sent) := SubscriptionMap_handle D key h (map_subscribers_ s) (map_subCount_ s) in
      Some (key, h, mkSubscriptionMap rest subs count, sent)
  end.

End map.
Arguments SubscriptionMap Key {_ _}.

(** ** SubscriptionManager *)

Inductive StreamMember :=
| ledgerSubscribers_ | txSubscribers_ | txProposedSubscribers_
| manifestSubscribers_ | validationsSubscribers_ | bookChangesSubscribers_.

Inductive AccountMember := accountSubscribers_ | accountProposedSubscribers_.

#[export] Instance StreamMember_eq_dec : EqDecision StreamMember.
Proof. solve_decision. Defined.
#[export] Instance AccountMember_eq_dec : EqDecision AccountMember.
Proof. solve_decision. Defined.

(** What a session can subscribe to: a member, with a key where it is a map. *)
Inductive Topic :=
| Stream (m : StreamMember)
| Account (m : AccountMember) (account : AccountID)
| OfBook (book : Book).

#[export] Instance Topic_eq_dec : EqDecision Topic.
Proof. solve_decision. Defined.

(** The closures kept for [cleanup]: which [unsub...] each one calls. *)
Inductive CleanupFunction :=
| UnsubLedger | UnsubTransactions | UnsubProposedTransactions
| UnsubManifest | UnsubValidation | UnsubBookChanges
| UnsubAccount (account : AccountID)
| UnsubProposedAccount (account : AccountID)
| UnsubBook (book : Book).

Record Manager := mkManager {
  streams : StreamMember -> Subscription;
  accountMaps : AccountMember -> SubscriptionMap AccountID;
  bookSubscribers_ : SubscriptionMap Book;
  cleanupFuncs_ : gmap session_ptr (list CleanupFunction)
}.

(** The atomic actions a call is made of. *)
Inductive Action :=
| APost (t : Topic) (h : Handler)
| ARegister (session : session_ptr) (func : CleanupFunction)
| ACleanup (session : session_ptr).

Definition subscribeHelper (session : session_ptr) (subs : Topic) (func : CleanupFunction) : list Action :=
  [APost subs (HSubscribe session); ARegister session func].

Definition unsubLedger (session : session_ptr) : list Action :=
  [APost (Stream ledgerSubscribers_) (HUnsubscribe session)].
(** The part of [subLedger] before the answer is put together. *)
Definition subLedger (session : session_ptr) : list Action :=
  subscribeHelper session (Stream ledgerSubscribers_) UnsubLedger.

Definition unsubTransactions (session : session_ptr) : list Action :=
  [APost (Stream txSubscribers_) (HUnsubscribe session)].
Definition subTransactions (session : session_ptr) : list Action :=
  subscribeHelper session (Stream txSubscribers_) UnsubTransactions.

Definition unsubAccount (account : AccountID) (session : session_ptr) : list Action :=
  [APost (Account accountSubscribers_ account) (HUnsubscribe session)].
Definition subAccount (account : AccountID) (session : session_ptr) : list Action :=
  subscribeHelper session (Account accountSubscribers_ account) (UnsubAccount account).

Definition unsubBook (book : Book) (session : session_ptr) : list Action :=
  [APost (OfBook book) (HUnsubscribe session)].
Definition subBook (book : Book) (session : session_ptr) : list Action :=
  subscribeHelper session (OfBook book) (UnsubBook book).

Definition unsubBookChanges (session : session_ptr) : list Action :=
  [APost (Stream bookChangesSubscribers_) (HUnsubscribe session)].
Definition subBookChanges (session : session_ptr) : list Action :=
  subscribeHelper session (Stream bookChangesSubscribers_) UnsubBookChanges.

Definition unsubManifest (session : session_ptr) : list Action :=
  [APost (Stream manifestSubscribers_) (HUnsubscribe session)].
Definition subManifest (session : session_ptr) : list Action :=
  subscribeHelper session (Stream manifestSubscribers_) UnsubManifest.

Definition unsubValidation (session : session_ptr) : list Action :=
  [APost (Stream validationsSubscribers_) (HUnsubscribe session)].
Definition subValidation (session : session_ptr) : list Action :=
  subscribeHelper session (Stream validationsSubscribers_) UnsubValidation.

Definition unsubProposedAccount (account : AccountID) (session : session_ptr) : list Action :=
  [APost (Account accountProposedSubscribers_ account) (HUnsubscribe session)].
Definition subProposedAccount (account : AccountID) (session : session_ptr) : list Action :=
  subscribeHelper session (Account accountProposedSubscribers_ account) (UnsubProposedAccount account).

Definition unsubProposedTransactions (session : session_ptr) : list Action :=
  [APost (Stream txProposedSubscribers_) (HUnsubscribe session)].
Definition subProposedTransactions (session : session_ptr) : list Action :=
  subscribeHelper session (Stream txProposedSubscribers_) UnsubProposedTransactions.

Definition run_cleanup (f : CleanupFunction) (session : session_ptr) : list Action :=
  match f with
  | UnsubLedger => unsubLedger session
  | UnsubTransactions => unsubTransactions session
  | UnsubProposedTransactions => unsubProposedTransactions session
  | UnsubManifest => unsubManifest session
  | UnsubValidation => unsubValidation session
  | UnsubBookChanges => unsubBookChanges session
  | UnsubAccount account => unsubAccount account session
  | UnsubProposedAccount account => unsubProposedAccount account session
  | UnsubBook book => unsubBook book session
  end.

Definition cleanup (session : session_ptr) : list Action := [ACleanup session].

Definition publish (t : Topic) (message : Message) : list Action := [APost t (HPublish message)].

Definition forwardManifest (message : Message) : list Action := publish (Stream manifestSubscribers_) message.
Definition forwardValidation (message : Message) : list Action := publish (Stream validationsSubscribers_) message.
Definition pubLedger (message : Message) : list Action := publish (Stream ledgerSubscribers_) message.
Definition pubBookChanges (message : Message) : list Action := publish (Stream bookChangesSubscribers_) message.

(** What an action does, and the actions the thread continues with: [cleanup]
    calls the functions it found, one by one. It erases them when it ends; as it
    holds the mutex until then, nobody can tell that from erasing at once. *)
Definition Manager_post (t : Topic) (h : Handler) (m : Manager) : Manager :=
  match t with
  | Stream x =>
      mkManager (<[x := Subscription_post h (streams m x)]> (streams m)) (accountMaps m) (bookSubscribers_ m) (cleanupFuncs_ m)
  | Account x a =>
      mkManager (streams m) (<[x := SubscriptionMap_post a h (accountMaps m x)]> (accountMaps m)) (bookSubscribers_ m) (cleanupFuncs_ m)
  | OfBook b => mkManager (streams m) (accountMaps m) (SubscriptionMap_post b h (bookSubscribers_ m)) (cleanupFuncs_ m)
  end.

Definition set_cleanupFuncs (c : gmap session_ptr (list CleanupFunction)) (m : Manager) : Manager :=
  mkManager (streams m) (accountMaps m) (bookSubscribers_ m) c.

Definition act (a : Action) (m : Manager) : Manager * list Action :=
  match a with
  | APost t h => (Manager_post t h m, [])
  | ARegister session func =>
      (set_cleanupFuncs (<[session := default [] (cleanupFuncs_ m !! session) ++ [func]]> (cleanupFuncs_ m)) m, [])
  | ACleanup session =>
      match cleanupFuncs_ m !! session with
      | None => (m, [])
      | Some fs =>
          (set_cleanupFuncs (delete session (cleanupFuncs_ m)) m, mjoin ((fun f => run_cleanup f session) <$> fs))
      end
  end.

(** A worker runs a handler of a member. *)
Definition run_stream (D : Dead) (x : StreamMember) (m : Manager)
  : option (Topic * Handler * Manager * list (session_ptr * Message)) :=
  '(h, s, sent) ← Subscription_run D (streams m x);
  Some (Stream x, h, mkManager (<[x := s]> (streams m)) (accountMaps m) (bookSubscribers_ m) (cleanupFuncs_ m), sent).

Definition run_account (D : Dead) (x : AccountMember) (m : Manager)
  : option (Topic * Handler * Manager * list (session_ptr * Message)) :=
  '(a, h, s, sent) ← SubscriptionMap_run D (accountMaps m x);
  Some (Account x a, h, mkManager (streams m) (<[x := s]> (accountMaps m)) (bookSubscribers_ m) (cleanupFuncs_ m), sent).

Definition run_books (D : Dead) (m : Manager)
  : option (Topic * Handler * Manager * list (session_ptr * Message)) :=
  '(b, h, s, sent) ← SubscriptionMap_run D (bookSubscribers_ m);
  Some (OfBook b, h, mkManager (streams m) (accountMaps m) s (cleanupFuncs_ m), sent).

Definition runs (D : Dead) (m : Manager) (r : Topic * Handler * Manager * list (session_ptr * Message)) : Prop :=
  (exists x, run_stream D x m = Some r) \/ (exists x, run_account D x m = Some r) \/ run_books D m = Some r.

(** [report], without the rendering. *)
Definition map_total {K} `{Countable K} (m : gmap K (gset session_ptr)) : Z :=
  map_fold (fun _ s n => Z.of_nat (size s) + n) 0 m.

Definition report_stream (x : StreamMember) (m : Manager) : Z := subCount_ (streams m x).
Definition report_accounts (x : AccountMember) (m : Manager) : Z := map_subCount_ (accountMaps m x).
Definition report_books (m : Manager) : Z := map_subCount_ (bookSubscribers_ m).

(** ** The system *)

(** [history] and [heard] record what was posted and what was sent. *)
Record SubSystem := mkSubSystem {
  mgr : Manager;
  threads : list (list Action);
  dead_sessions : Dead;
  history : list (Topic * Handler);
  heard : list (Topic * session_ptr * Message)
}.

(** The calls other parts of the server make. *)
Inductive api_call : list Action -> Prop :=
| api_subLedger s : api_call (subLedger s)
| api_unsubLedger s : api_call (unsubLedger s)
| api_subTransactions s : api_call (subTransactions s)
| api_unsubTransactions s : api_call (unsubTransactions s)
| api_subAccount a s : api_call (subAccount a s)
| api_unsubAccount a s : api_call (unsubAccount a s)
| api_subBook b s : api_call (subBook b s)
| api_unsubBook b s : api_call (unsubBook b s)
| api_subBookChanges s : api_call (subBookChanges s)
| api_unsubBookChanges s : api_call (unsubBookChanges s)
| api_subManifest s : api_call (subManifest s)
| api_unsubManifest s : api_call (unsubManifest s)
| api_subValidation s : api_call (subValidation s)
| api_unsubValidation s : api_call (unsubValidation s)
| api_subProposedAccount a s : api_call (subProposedAccount a s)
| api_unsubProposedAccount a s : api_call (unsubProposedAccount a s)
| api_subProposedTransactions s : api_call (subProposedTransactions s)
| api_unsubProposedTransactions s : api_call (unsubProposedTransactions s)
| api_publish t m : api_call (publish t m)
| api_cleanup s : api_call (cleanup s)
| api_seq p q : api_call p -> api_call q -> api_call (p ++ q).

Definition posted_by (a : Action) : list (Topic * Handler) :=
  match a with APost t h => [(t, h)] | _ => [] end.

Definition label (t : Topic) (sent : list (session_ptr * Message)) : list (Topic * session_ptr * Message) :=
  (fun p => (t, p.1, p.2)) <$> sent.

Inductive sub_step : SubSystem -> SubSystem -> Prop :=
| step_call m ts D h o p :
    api_call p -> sub_step (mkSubSystem m ts D h o) (mkSubSystem m (ts ++ [p]) D h o)
| step_act m ts D h o i a rest :
    ts !! i = Some (a :: rest) ->
    sub_step (mkSubSystem m ts D h o)
      (mkSubSystem (act a m).1 (<[i := (act a m).2 ++ rest]> ts) D (h ++ posted_by a) o)
| step_run m ts D h o t hd m' sent :
    runs D m (t, hd, m', sent) ->
    sub_step (mkSubSystem m ts D h o) (mkSubSystem m' ts D h (o ++ label t sent))
| step_die m ts D h o s :
    sub_step (mkSubSystem m ts D h o) (mkSubSystem m ts ({[s]} ∪ D) h o).

Definition Manager_start : Manager :=
  mkManager (fun _ => mkSubscription [] ∅ 0) (fun _ => mkSubscriptionMap [] ∅ 0) (mkSubscriptionMap [] ∅ 0) ∅.

Definition system_start : SubSystem := mkSubSystem Manager_start [] ∅ [] [].

Definition sub_reachable (x : SubSystem) : Prop := rtc sub_step system_start x.

(** ** Views and the reference *)

(** The subscribers of a topic, and the handlers of it that have not run. *)
Definition members (t : Topic) (m : Manager) : gset session_ptr :=
  match t with
  | Stream x => subscribers_ (streams m x)
  | Account x a => default ∅ (map_subscribers_ (accountMaps m x) !! a)
  | OfBook b => default ∅ (map_subscribers_ (bookSubscribers_ m) !! b)
  end.

Definition of_key {K} `{EqDecision K} (k : K) (l : list (K * Handler)) : list Handler :=
  omap (fun p => if decide (p.1 = k) then Some p.2 else None) l.

Definition pending (t : Topic) (m : Manager) : list Handler :=
  match t with
  | Stream x => strand_ (streams m x)
  | Account x a => of_key a (map_strand_ (accountMaps m x))
  | OfBook b => of_key b (map_strand_ (bookSubscribers_ m))
  end.

(** What a session hears, taking the posted handlers one after the other. *)
Definition listen_step (s : session_ptr) (w : bool * list Message) (h : Handler) : bool * list Message :=
  match h with
  | HSubscribe s' => if decide (s' = s) then (true, w.2) else w
  | HUnsubscribe s' => if decide (s' = s) then (false, w.2) else w
  | HPublish m => if w.1 then (true, w.2 ++ [m]) else w
  end.

Definition listen (s : session_ptr) (hs : list Handler) : bool * list Message :=
  foldl (listen_step s) (false, []) hs.

Definition heard_on (t : Topic) (s : session_ptr) (o : list (Topic * session_ptr * Message)) : list Message :=
  omap (fun p => if decide (p.1 = (t, s)) then Some p.2 else None) o.

(** ** Lemmas: one handler *)

Definition handle_members (D : Dead) (h : Handler) (subs : gset session_ptr) : gset session_ptr :=
  match h with
  | HSubscribe s => {[s]} ∪ subs
  | HUnsubscribe s => subs ∖ {[s]}
  | HPublish _ => subs ∖ D
  end.

Definition sent_to (s : session_ptr) (sent : list (session_ptr * Message)) : list Message :=
  omap (fun p => if decide (p.1 = s) then Some p.2 else None) sent.

Definition handle_sent (D : Dead) (h : Handler) (subs : gset session_ptr) (s : session_ptr) : list Message :=
  match h with HPublish m => if decide (s ∈ subs /\ s ∉ D) then [m] else [] | _ => [] end.

Lemma sent_to_app s l1 l2 : sent_to s (l1 ++ l2) = sent_to s l1 ++ sent_to s l2.
Proof. apply omap_app. Qed.

Lemma send_loop D m l subs c sent z :
  NoDup l -> (forall x, x ∈ l -> x ∈ subs) -> c = u64 z ->
  exists c' sent',
    foldl (send_step D m) (subs, c, sent) l = (subs ∖ (D ∩ list_to_set l), c', sent ++ sent') /\
    c' = u64 (z - Z.of_nat (size (D ∩ list_to_set l : gset nat))) /\
    (forall s, sent_to s sent' = if decide (s ∈ l /\ s ∉ D) then [m] else []).
Proof.
  intros Hd. revert subs c sent z. induction Hd as [|x l Hx Hd IH]; intros subs c sent z Hin ->.
  - exists (u64 z), []. cbn. rewrite app_nil_r. split_and!.
    + f_equal. f_equal. set_solver.
    + by rewrite intersection_empty_r_L, size_empty, Z.sub_0_r.
    + intros s. rewrite decide_False; [done|]. set_solver.
  - cbn [foldl]. unfold send_step at 2, dead. destruct (decide (x ∈ D)) as [HD|HD].
    + rewrite bool_decide_true by done.
      destruct (IH (subs ∖ {[x]}) (u64 (u64 z - 1)) sent (z - 1)) as (c' & sent' & Heq & -> & Hs).
      { intros y Hy. apply elem_of_difference. split; [apply Hin; by right | set_solver]. }
      { by autorewrite with wrap_rw. }
      eexists _, sent'. split_and!; [| reflexivity |].
      * rewrite Heq. f_equal. f_equal.
        -- set_solver.
        -- f_equal. replace (D ∩ list_to_set (x :: l)) with ({[x]} ∪ D ∩ list_to_set l : gset nat) by set_solver.
           rewrite (size_union {[x]}), size_singleton by set_solver. lia.
      * intros s. rewrite Hs. destruct (decide (s = x)) as [->|Hne].
        -- by rewrite !decide_False by naive_solver.
        -- apply decide_ext. set_solver.
    + rewrite bool_decide_false by done.
      destruct (IH subs (u64 z) (sent ++ [(x, m)]) z) as (c' & sent' & Heq & -> & Hs); [set_solver | done |].
      eexists _, ((x, m) :: sent'). split_and!; [| reflexivity |].
      * rewrite Heq, <- app_assoc. cbn. f_equal. f_equal; [set_solver|].
        replace (D ∩ ({[x]} ∪ list_to_set l)) with (D ∩ list_to_set l : gset nat) by set_solver. done.
      * intros s. cbn. fold (sent_to s sent'). rewrite Hs. destruct (decide (x = s)) as [->|Hne].
        -- rewrite decide_False by naive_solver. rewrite decide_True; [done|]. split; [by left | done].
        -- apply decide_ext. set_solver.
Qed.

Lemma decide_sent {A} (P Q : Prop) `{Decision P, Decision Q} (x y : A) :
  (P <-> Q) -> (if decide P then x else y) = (if decide Q then x else y).
Proof. intros HPQ. by apply decide_ext. Qed.

(** A handler on one set of subscribers: the set, the messages, and how far the
    counter moves. *)
Lemma Subscription_handle_spec D h subs z :
  exists count' sent,
    Subscription_handle D h subs (u64 z) = (handle_members D h subs, count', sent) /\
    count' = u64 (z + Z.of_nat (size (handle_members D h subs)) - Z.of_nat (size subs)) /\
    forall s, sent_to s sent = handle_sent D h subs s.
Proof.
  destruct h as [x|x|m]; cbn [Subscription_handle handle_members handle_sent].
  - unfold addSession. destruct (decide (x ∈ subs)) as [Hx|Hx].
    + rewrite bool_decide_true by done. replace ({[x]} ∪ subs) with subs by set_solver.
      eexists _, []. split_and!; [done | f_equal; lia | done].
    + rewrite bool_decide_false by done. eexists _, []. split_and!; [done | | done].
      rewrite (size_union {[x]}), size_singleton by set_solver. autorewrite with wrap_rw. f_equal. lia.
  - unfold removeSession. destruct (decide (x ∈ subs)) as [Hx|Hx].
    + rewrite bool_decide_true by done. eexists _, []. split_and!; [done | | done].
      pose proof (size_difference subs {[x]}) as Hs. rewrite size_singleton in Hs.
      assert (0 < size subs)%nat.
      { apply Nat.neq_0_lt_0. intros Hz%size_empty_inv. set_solver. }
      rewrite Hs by set_solver. autorewrite with wrap_rw. f_equal. lia.
    + rewrite bool_decide_false by done. replace (subs ∖ {[x]}) with subs by set_solver.
      eexists _, []. split_and!; [done | f_equal; lia | done].
  - unfold sendToSubscribers.
    destruct (send_loop D m (elements subs) subs (u64 z) [] z) as (c' & sent' & Heq & -> & Hs);
      [apply NoDup_elements | set_solver | done |].
    rewrite Heq, list_to_set_elements_L in *. eexists _, _. split_and!; [| |exact Hs || idtac].
    + f_equal. f_equal. set_solver.
    + replace (subs ∖ D) with (subs ∖ (D ∩ subs)) by set_solver.
      rewrite (size_difference subs (D ∩ subs)) by set_solver.
      pose proof (subseteq_size (D ∩ subs) subs ltac:(set_solver)). f_equal. lia.
    + intros s. rewrite Hs. apply decide_sent. set_solver.
Qed.

(** ** Lemmas: maps of subscribers *)

Section map_lemmas.
Context {K : Type} `{Countable K}.
Implicit Types m : gmap K (gset session_ptr).

Lemma map_total_insert_new m k s :
  m !! k = None -> map_total (<[k := s]> m) = Z.of_nat (size s) + map_total m.
Proof. intros Hk. unfold map_total. rewrite map_fold_insert_L; [done | intros; lia | done]. Qed.

Lemma map_total_delete m k :
  map_total (delete k m) = map_total m - Z.of_nat (size (default ∅ (m !! k) : gset session_ptr)).
Proof.
  destruct (m !! k) as [s|] eqn:Hk; cbn [default].
  - rewrite <- (insert_delete_id m k s Hk) at 2. rewrite map_total_insert_new by apply lookup_delete_eq.
    cbn. lia.
  - rewrite delete_id by done. cbn. rewrite size_empty. lia.
Qed.

Lemma map_total_insert m k s :
  map_total (<[k := s]> m) =
  map_total m + Z.of_nat (size s) - Z.of_nat (size (default ∅ (m !! k) : gset session_ptr)).
Proof.
  rewrite <- insert_delete_eq, map_total_insert_new by apply lookup_delete_eq.
  rewrite map_total_delete. lia.
Qed.

(** A handler of a map is the handler of the set at its key. *)
Lemma SubscriptionMap_handle_spec D k h m z :
  exists m' count' sent,
    SubscriptionMap_handle D k h m (u64 z) = (m', count', sent) /\
    (forall k', default ∅ (m' !! k') =
      if decide (k' = k) then handle_members D h (default ∅ (m !! k)) else default ∅ (m !! k')) /\
    count' = u64 (z + map_total m' - map_total m) /\
    (forall s, sent_to s sent = handle_sent D h (default ∅ (m !! k)) s).
Proof.
  destruct (Subscription_handle_spec D h (default ∅ (m !! k)) z) as (c' & sent & Heq & -> & Hs).
  assert (forall x, (forall k', default ∅ ((<[k := x]> m) !! k') =
    if decide (k' = k) then x else default ∅ (m !! k'))) as Hins.
  { intros x k'. destruct (decide (k' = k)) as [->|Hne]; by simplify_map_eq. }
  destruct h as [x|x|msg]; cbn [SubscriptionMap_handle Subscription_handle handle_members] in *.
  - destruct (addSession _ _ _) as [at_key c1]. injection Heq as -> -> <-.
    eexists _, _, _. split_and!; [done | apply Hins | | done].
    rewrite map_total_insert. f_equal. lia.
  - destruct (m !! k) as [at_key|] eqn:Hk; cbn [default] in *.
    + unfold removeSession in Heq. destruct (decide (x ∈ at_key)) as [Hx|Hx].
      * rewrite bool_decide_true in Heq |- * by done. injection Heq as Hc <-. destruct (decide (size (at_key ∖ {[x]}) = 0%nat)) as [Hz|Hz].
        -- eexists _, _, _. split_and!; [done | | rewrite Hc, map_total_delete, Hk; cbn; f_equal; lia | done].
           intros k'. apply size_empty_inv in Hz.
           destruct (decide (k' = k)) as [->|Hne]; simplify_map_eq; [|done]. cbn. set_solver.
        -- eexists _, _, _. split_and!; [done | apply Hins | | done].
           rewrite Hc, map_total_insert, Hk. cbn. f_equal. lia.
      * rewrite bool_decide_false in Heq |- * by done. injection Heq as He Hc <-.
        eexists _, _, _. split_and!; [done | | f_equal; lia | done].
        intros k'. destruct (decide (k' = k)) as [->|Hne]; [|done]. rewrite Hk. cbn. by rewrite <- He.
    + eexists _, _, _. split_and!; [done | | f_equal; lia |].
      * intros k'. destruct (decide (k' = k)) as [->|Hne]; [|done]. rewrite Hk. cbn. set_solver.
      * done.
  - destruct (m !! k) as [at_key|] eqn:Hk; cbn [default] in *.
    + destruct (sendToSubscribers _ _ _ _) as [[at_key' c1] sent1]. injection Heq as -> -> ->.
      eexists _, _, _. split_and!; [done | apply Hins | | done].
      rewrite map_total_insert, Hk. cbn. f_equal. lia.
    + eexists _, _, _. split_and!; [done | | f_equal; lia |].
      * intros k'. destruct (decide (k' = k)) as [->|Hne]; [|done]. rewrite Hk. cbn. set_solver.
      * intros s. cbn. rewrite decide_False; [done|]. set_solver.
Qed.

End map_lemmas.

(** ** Lemmas: posting and running *)

Lemma fn_insert_eq {A B} `{EqDecision A} (f : A -> B) a b : (<[a := b]> f) a = b.
Proof. apply fn_lookup_insert. Qed.
Lemma fn_insert_ne {A B} `{EqDecision A} (f : A -> B) a a' b : a <> a' -> (<[a := b]> f) a' = f a'.
Proof. apply fn_lookup_insert_ne. Qed.

#[local] Arguments of_key : simpl never.
#[local] Arguments heard_on : simpl never.
#[local] Arguments listen : simpl never.

Lemma of_key_app {K} `{EqDecision K} (k : K) l1 l2 : of_key k (l1 ++ l2) = of_key k l1 ++ of_key k l2.
Proof. apply omap_app. Qed.

Lemma of_key_cons {K} `{EqDecision K} (k k' : K) h l :
  of_key k ((k', h) :: l) = if decide (k' = k) then h :: of_key k l else of_key k l.
Proof. unfold of_key. cbn. by case_decide. Qed.

Lemma members_post t t' h m : members t (Manager_post t' h m) = members t m.
Proof.
  destruct t as [x|x a|b], t' as [x'|x' a'|b']; try done; cbn.
  - destruct (decide (x' = x)) as [->|]; [by rewrite fn_insert_eq | by rewrite fn_insert_ne].
  - destruct (decide (x' = x)) as [->|]; [by rewrite fn_insert_eq | by rewrite fn_insert_ne].
Qed.

Lemma pending_post t t' h m :
  pending t (Manager_post t' h m) = pending t m ++ (if decide (t' = t) then [h] else []).
Proof.
  destruct t as [x|x a|b], t' as [x'|x' a'|b']; cbn; try by rewrite ?decide_False, ?app_nil_r by congruence.
  - destruct (decide (x' = x)) as [->|].
    + by rewrite fn_insert_eq, decide_True.
    + by rewrite fn_insert_ne, decide_False, app_nil_r by congruence.
  - destruct (decide (x' = x)) as [->|].
    + rewrite fn_insert_eq. cbn. rewrite of_key_app, of_key_cons. f_equal. cbn. apply decide_sent.
      split; congruence.
    + by rewrite fn_insert_ne, decide_False, app_nil_r by congruence.
  - rewrite of_key_app, of_key_cons. f_equal. cbn. apply decide_sent. split; congruence.
Qed.

(** The counters stand for the sizes. *)
Definition counts_ok (m : Manager) : Prop :=
  (forall x, report_stream x m = u64 (Z.of_nat (size (subscribers_ (streams m x))))) /\
  (forall x, report_accounts x m = u64 (map_total (map_subscribers_ (accountMaps m x)))) /\
  report_books m = u64 (map_total (map_subscribers_ (bookSubscribers_ m))).

Lemma counts_ok_post t h m : counts_ok m -> counts_ok (Manager_post t h m).
Proof.
  intros (Hs & Ha & Hb). unfold counts_ok, report_stream, report_accounts, report_books in *.
  destruct t as [x'|x' a'|b']; cbn; split_and!; try done; intros x.
  - destruct (decide (x' = x)) as [->|]; [rewrite fn_insert_eq; apply Hs | by rewrite fn_insert_ne].
  - destruct (decide (x' = x)) as [->|]; [rewrite fn_insert_eq; apply Ha | by rewrite fn_insert_ne].
Qed.

Record run_result (D : Dead) (m : Manager) (t : Topic) (h : Handler) (m' : Manager)
    (sent : list (session_ptr * Message)) : Prop := {
  rr_pending : forall t', pending t' m = (if decide (t = t') then [h] else []) ++ pending t' m';
  rr_members : forall t', members t' m' =
    if decide (t = t') then handle_members D h (members t' m) else members t' m;
  rr_sent : forall s, sent_to s sent = handle_sent D h (members t m) s;
  rr_cleanup : cleanupFuncs_ m' = cleanupFuncs_ m;
  rr_counts : counts_ok m'
}.

Lemma run_stream_result D x m t h m' sent :
  counts_ok m -> run_stream D x m = Some (t, h, m', sent) -> run_result D m t h m' sent.
Proof.
  intros Hc Hr. pose proof Hc as (Hs & Ha & Hb). unfold run_stream, Subscription_run in Hr.
  destruct (strand_ (streams m x)) as [|h0 rest] eqn:Hst; [done|]. cbn in Hr.
  destruct (Subscription_handle_spec D h0 (subscribers_ (streams m x)) (Z.of_nat (size (subscribers_ (streams m x)))))
    as (c' & sent' & Heq & -> & Hsent).
  pose proof (Hs x) as Hx. unfold report_stream in Hx. rewrite Hx, Heq in Hr. cbn in Hr.
  injection Hr as <- <- <- <-. split; try done.
  - intros [x'|x' a'|b']; try by rewrite decide_False.
    destruct (decide (Stream x = Stream x')) as [[= <-]|Hne]; cbn.
    + by rewrite fn_insert_eq, Hst.
    + by rewrite fn_insert_ne by congruence.
  - intros [x'|x' a'|b']; try by rewrite decide_False.
    destruct (decide (Stream x = Stream x')) as [[= <-]|Hne]; cbn.
    + by rewrite fn_insert_eq.
    + by rewrite fn_insert_ne by congruence.
  - split; [|done]. intros x'. unfold report_stream. cbn. destruct (decide (x = x')) as [<-|].
    + rewrite fn_insert_eq. cbn. f_equal. lia.
    + rewrite fn_insert_ne by done. apply Hs.
Qed.

(** The same for a map, whichever member it is. *)
Lemma map_run_result {K} `{Countable K} D (s : SubscriptionMap K) k h s' sent :
  map_subCount_ s = u64 (map_total (map_subscribers_ s)) ->
  SubscriptionMap_run D s = Some (k, h, s', sent) ->
  (forall k', of_key k' (map_strand_ s) = (if decide (k = k') then [h] else []) ++ of_key k' (map_strand_ s')) /\
  (forall k', default ∅ (map_subscribers_ s' !! k') =
     if decide (k = k') then handle_members D h (default ∅ (map_subscribers_ s !! k'))
     else default ∅ (map_subscribers_ s !! k')) /\
  (forall x, sent_to x sent = handle_sent D h (default ∅ (map_subscribers_ s !! k)) x) /\
  map_subCount_ s' = u64 (map_total (map_subscribers_ s')).
Proof.
  intros Hc Hr. unfold SubscriptionMap_run in Hr. destruct (map_strand_ s) as [|[k0 h0] rest]; [done|].
  destruct (SubscriptionMap_handle_spec D k0 h0 (map_subscribers_ s) (map_total (map_subscribers_ s)))
    as (m' & c' & sent' & Heq & Hm & -> & Hsent).
  rewrite Hc, Heq in Hr. injection Hr as <- <- <- <-. cbn. split_and!.
  - intros k'. rewrite of_key_cons. by case_decide.
  - intros k'. rewrite Hm. destruct (decide (k' = k0)) as [->|].
    + by rewrite decide_True.
    + by rewrite decide_False by congruence.
  - exact Hsent.
  - f_equal. lia.
Qed.

Lemma run_account_result D x m t h m' sent :
  counts_ok m -> run_account D x m = Some (t, h, m', sent) -> run_result D m t h m' sent.
Proof.
  intros (Hs & Ha & Hb) Hr. unfold run_account in Hr.
  destruct (SubscriptionMap_run D (accountMaps m x)) as [[[[a h0] s'] sent']|] eqn:Hrun; [|done].
  apply map_run_result in Hrun as (Hp & Hm & Hsent & Hc); [|apply Ha].
  injection Hr as <- <- <- <-. split; try done.
  - intros [x'|x' a'|b']; try by rewrite decide_False. cbn.
    destruct (decide (x = x')) as [<-|Hne].
    + rewrite fn_insert_eq, Hp. f_equal. apply decide_sent. split; congruence.
    + by rewrite fn_insert_ne, decide_False by congruence.
  - intros [x'|x' a'|b']; try by rewrite decide_False. cbn.
    destruct (decide (x = x')) as [<-|Hne].
    + rewrite fn_insert_eq, Hm. apply decide_sent. split; congruence.
    + by rewrite fn_insert_ne, decide_False by congruence.
  - split; [done|]. split; [|done]. intros x'. unfold report_accounts. cbn. destruct (decide (x = x')) as [<-|].
    + by rewrite fn_insert_eq.
    + rewrite fn_insert_ne by done. apply Ha.
Qed.

Lemma run_books_result D m t h m' sent :
  counts_ok m -> run_books D m = Some (t, h, m', sent) -> run_result D m t h m' sent.
Proof.
  intros (Hs & Ha & Hb) Hr. unfold run_books in Hr.
  destruct (SubscriptionMap_run D (bookSubscribers_ m)) as [[[[b h0] s'] sent']|] eqn:Hrun; [|done].
  apply map_run_result in Hrun as (Hp & Hm & Hsent & Hc); [|apply Hb].
  injection Hr as <- <- <- <-. split; try done.
  - intros [x'|x' a'|b']; try by rewrite decide_False. cbn. rewrite Hp. f_equal. apply decide_sent.
    split; congruence.
  - intros [x'|x' a'|b']; try by rewrite decide_False. cbn. rewrite Hm. apply decide_sent. split; congruence.
Qed.

Lemma runs_result D m t h m' sent :
  counts_ok m -> runs D m (t, h, m', sent) -> run_result D m t h m' sent.
Proof.
  intros Hc [[x Hr]|[[x Hr]|Hr]];
    [by eapply run_stream_result | by eapply run_account_result | by eapply run_books_result].
Qed.

(** ** The invariants of the system *)

Lemma listen_snoc s hs h : listen s (hs ++ [h]) = listen_step s (listen s hs) h.
Proof. unfold listen. by rewrite foldl_app. Qed.

Lemma listen_step_handle D h subs s w :
  s ∉ D -> w.1 = bool_decide (s ∈ subs) ->
  (listen_step s w h).1 = bool_decide (s ∈ handle_members D h subs) /\
  (listen_step s w h).2 = w.2 ++ handle_sent D h subs s.
Proof.
  intros HD Hw. destruct h as [x|x|m]; cbn.
  - rewrite app_nil_r. destruct (decide (x = s)) as [->|Hne]; cbn; (split; [|done]).
    + symmetry. apply bool_decide_eq_true. set_solver.
    + rewrite Hw. apply bool_decide_ext. set_solver.
  - rewrite app_nil_r. destruct (decide (x = s)) as [->|Hne]; cbn; (split; [|done]).
    + symmetry. apply bool_decide_eq_false. set_solver.
    + rewrite Hw. apply bool_decide_ext. set_solver.
  - destruct w as [on msgs]. cbn in *. subst on. destruct (bool_decide (s ∈ subs)) eqn:Hs; cbn.
    + apply bool_decide_eq_true in Hs. rewrite decide_True by done. split; [|done].
      symmetry. apply bool_decide_eq_true. set_solver.
    + apply bool_decide_eq_false in Hs. rewrite decide_False, app_nil_r by naive_solver. split; [|done].
      symmetry. apply bool_decide_eq_false. set_solver.
Qed.

Lemma heard_on_label t t' s sent : heard_on t s (label t' sent) = if decide (t' = t) then sent_to s sent else [].
Proof.
  unfold heard_on, label, sent_to. induction sent as [|[x m] sent IH]; cbn; [by case_decide|].
  rewrite IH. destruct (decide (t' = t)) as [->|Hne].
  - destruct (decide (x = s)) as [->|Hx]; [by rewrite decide_True | by rewrite decide_False by congruence].
  - by rewrite decide_False by congruence.
Qed.

Lemma heard_on_app t s o1 o2 : heard_on t s (o1 ++ o2) = heard_on t s o1 ++ heard_on t s o2.
Proof. apply omap_app. Qed.

(** What the handlers of a topic that have run amount to. *)
Definition delivered_by (ran : list Handler) (t : Topic) (x : SubSystem) : Prop :=
  of_key t (history x) = ran ++ pending t (mgr x) /\
  forall s, s ∉ dead_sessions x ->
    (listen s ran).1 = bool_decide (s ∈ members t (mgr x)) /\ heard_on t s (heard x) = (listen s ran).2.

Record deliver_inv (x : SubSystem) : Prop := {
  di_counts : counts_ok (mgr x);
  di_delivered : forall t, exists ran, delivered_by ran t x
}.

(** A change of the table of cleanup functions is not visible here. *)
Lemma members_cleanup t c m : members t (set_cleanupFuncs c m) = members t m.
Proof. by destruct t. Qed.
Lemma pending_cleanup t c m : pending t (set_cleanupFuncs c m) = pending t m.
Proof. by destruct t. Qed.

(** The manager after an action, but for the table of cleanup functions. *)
Lemma act_views a m t :
  members t (act a m).1 = members t m /\ pending t (act a m).1 = pending t m ++ of_key t (posted_by a).
Proof.
  destruct a as [t' h|s f|s]; cbn.
  - rewrite members_post, pending_post. by unfold of_key; cbn; case_decide.
  - by rewrite members_cleanup, pending_cleanup, app_nil_r.
  - destruct (cleanupFuncs_ m !! s); cbn; by rewrite ?members_cleanup, ?pending_cleanup, app_nil_r.
Qed.

Lemma act_counts a m : counts_ok m -> counts_ok (act a m).1.
Proof.
  destruct a as [t' h|s f|s]; cbn; [apply counts_ok_post | done|].
  by destruct (cleanupFuncs_ m !! s).
Qed.

Lemma deliver_inv_start : deliver_inv system_start.
Proof.
  split; [done|]. intros t. exists []. split; [by destruct t|].
  intros s _. cbn. split; [|done]. symmetry. apply bool_decide_eq_false. destruct t; cbn; set_solver.
Qed.

Lemma deliver_inv_step x x' : deliver_inv x -> sub_step x x' -> deliver_inv x'.
Proof.
  intros [Hc Hd] Hstep. destruct Hstep as [m ts D h o p Hp|m ts D h o i a rest Hi|m ts D h o t hd m' sent Hr|m ts D h o s].
  - by split.
  - split; cbn in *; [by apply act_counts|]. intros t. destruct (Hd t) as (ran & Hh & Hs).
    exists ran. destruct (act_views a m t) as [Hm Hpd]. split; cbn in *.
    + by rewrite of_key_app, Hpd, Hh, app_assoc.
    + by rewrite Hm.
  - apply runs_result in Hr as [Hpd Hm Hs _ Hcounts]; [|exact Hc]. split; cbn in *; [done|].
    intros t'. destruct (Hd t') as (ran & Hh & Hl). cbn in *. rewrite Hpd in Hh.
    destruct (decide (t = t')) as [<-|Hne].
    + exists (ran ++ [hd]). split; cbn; [by rewrite <- app_assoc|].
      intros s HsD. destruct (Hl s HsD) as [Hl1 Hl2]. rewrite listen_snoc, Hm, decide_True by done.
      rewrite heard_on_app, heard_on_label, decide_True, Hl2, Hs by done.
      by destruct (listen_step_handle D hd (members t m) s (listen s ran) HsD Hl1) as [-> ->].
    + exists ran. split; cbn; [done|]. intros s HsD. destruct (Hl s HsD) as [Hl1 Hl2].
      by rewrite Hm, decide_False, heard_on_app, heard_on_label, decide_False, app_nil_r by done.
  - split; cbn in *; [done|]. intros t. destruct (Hd t) as (ran & Hh & Hl). exists ran. split; cbn; [done|].
    intros s' Hs'. apply Hl. set_solver.
Qed.

Lemma deliver_inv_reachable x : sub_reachable x -> deliver_inv x.
Proof.
  apply (rtc_ind_r deliver_inv); [apply deliver_inv_start|]. intros y z _ Hstep Hi. by eapply deliver_inv_step.
Qed.

(** A strand with handlers left can be run. *)
Lemma pending_runs t D m : pending t m <> [] -> exists r, runs D m r.
Proof.
  destruct t as [x|x a|b]; cbn; intros Hp.
  - destruct (strand_ (streams m x)) as [|h rest] eqn:Hs; [done|].
    destruct (Subscription_handle D h (subscribers_ (streams m x)) (subCount_ (streams m x))) as [[s c] l] eqn:Hh.
    eexists. left. exists x. unfold run_stream, Subscription_run. by rewrite Hs, Hh.
  - destruct (map_strand_ (accountMaps m x)) as [|[k h] rest] eqn:Hs; [done|].
    destruct (SubscriptionMap_handle D k h (map_subscribers_ (accountMaps m x)) (map_subCount_ (accountMaps m x)))
      as [[s c] l] eqn:Hh.
    eexists. right. left. exists x. unfold run_account, SubscriptionMap_run. by rewrite Hs, Hh.
  - destruct (map_strand_ (bookSubscribers_ m)) as [|[k h] rest] eqn:Hs; [done|].
    destruct (SubscriptionMap_handle D k h (map_subscribers_ (bookSubscribers_ m)) (map_subCount_ (bookSubscribers_ m)))
      as [[s c] l] eqn:Hh.
    eexists. right. right. unfold run_books, SubscriptionMap_run. by rewrite Hs, Hh.
Qed.

(** ** Cleaning up *)

Definition cleanup_topic (f : CleanupFunction) : Topic :=
  match f with
  | UnsubLedger => Stream ledgerSubscribers_
  | UnsubTransactions => Stream txSubscribers_
  | UnsubProposedTransactions => Stream txProposedSubscribers_
  | UnsubManifest => Stream manifestSubscribers_
  | UnsubValidation => Stream validationsSubscribers_
  | UnsubBookChanges => Stream bookChangesSubscribers_
  | UnsubAccount a => Account accountSubscribers_ a
  | UnsubProposedAccount a => Account accountProposedSubscribers_ a
  | UnsubBook b => OfBook b
  end.

(** Whether a session is subscribed when the handlers that wait have run, if it
    does not die. *)
Definition hold_step (s : session_ptr) (b : bool) (h : Handler) : bool :=
  match h with
  | HSubscribe s' => if decide (s' = s) then true else b
  | HUnsubscribe s' => if decide (s' = s) then false else b
  | HPublish _ => b
  end.

Definition holds_after (t : Topic) (s : session_ptr) (m : Manager) : bool :=
  foldl (hold_step s) (bool_decide (s ∈ members t m)) (pending t m).

(** A thread that will still register, or post, the end of a subscription. *)
Definition owes (p : list Action) (t : Topic) (s : session_ptr) : Prop :=
  (exists f, ARegister s f ∈ p /\ cleanup_topic f = t) \/ APost t (HUnsubscribe s) ∈ p.

(** Each post of a subscription is followed by the registration of its end. *)
Fixpoint paired (p : list Action) : Prop :=
  match p with
  | [] => True
  | APost t (HSubscribe s) :: p' =>
      (match p' with ARegister s' f :: _ => s' = s /\ cleanup_topic f = t | _ => False end) /\ paired p'
  | _ :: p' => paired p'
  end.

Record cleanup_inv (x : SubSystem) : Prop := {
  ci_paired : forall p, p ∈ threads x -> paired p;
  ci_owed : forall t s, holds_after t s (mgr x) = true ->
    (exists fs f, cleanupFuncs_ (mgr x) !! s = Some fs /\ f ∈ fs /\ cleanup_topic f = t) \/
    (exists p, p ∈ threads x /\ owes p t s)
}.

Lemma paired_app p q : paired p -> paired q -> paired (p ++ q).
Proof.
  induction p as [|[t [s|s|m]|s f|s] p IH]; cbn; try tauto.
  intros [Hp1 Hp2] Hq. split; [|auto]. by destruct p as [|[]].
Qed.

Lemma api_call_paired p : api_call p -> paired p.
Proof. induction 1; cbn; auto using paired_app. Qed.

Lemma run_cleanup_post f s : run_cleanup f s = [APost (cleanup_topic f) (HUnsubscribe s)].
Proof. by destruct f. Qed.

Lemma cleanup_posts fs s a :
  a ∈ mjoin ((fun f => run_cleanup f s) <$> fs) <-> exists f, f ∈ fs /\ a = APost (cleanup_topic f) (HUnsubscribe s).
Proof.
  rewrite list_elem_of_join. split.
  - intros (l & Ha & (f & -> & Hf)%list_elem_of_fmap). rewrite run_cleanup_post in Ha.
    apply list_elem_of_singleton in Ha. eauto.
  - intros (f & Hf & ->). exists (run_cleanup f s). rewrite run_cleanup_post. split; [by left|].
    apply list_elem_of_fmap. exists f. by rewrite run_cleanup_post.
Qed.

Lemma cleanup_paired fs s : paired (mjoin ((fun f => run_cleanup f s) <$> fs)).
Proof. induction fs as [|f fs IH]; cbn; [done|]. by rewrite run_cleanup_post. Qed.

Lemma paired_act a rest m : paired (a :: rest) -> paired ((act a m).2 ++ rest).
Proof.
  destruct a as [t [s|s|msg]|s f|s]; cbn; try tauto.
  destruct (cleanupFuncs_ m !! s); cbn; [|done]. apply paired_app, cleanup_paired.
Qed.

Lemma hold_mono s hs b1 b2 :
  (b1 = true -> b2 = true) -> foldl (hold_step s) b1 hs = true -> foldl (hold_step s) b2 hs = true.
Proof.
  revert b1 b2. induction hs as [|h hs IH]; intros b1 b2 Hb; cbn; [done|]. apply IH.
  destruct h as [x|x|m]; cbn; try case_decide; done.
Qed.

Lemma owes_cons a p t s :
  owes (a :: p) t s <-> owes p t s \/
    (exists f, a = ARegister s f /\ cleanup_topic f = t) \/ a = APost t (HUnsubscribe s).
Proof. unfold owes. setoid_rewrite elem_of_cons. naive_solver. Qed.

Lemma owes_app_r p q t s : owes q t s -> owes (p ++ q) t s.
Proof. unfold owes. setoid_rewrite elem_of_app. naive_solver. Qed.

Lemma hold_handle D s h subs :
  bool_decide (s ∈ handle_members D h subs) = true -> hold_step s (bool_decide (s ∈ subs)) h = true.
Proof.
  rewrite bool_decide_eq_true. destruct h as [y|y|y]; cbn; intros Hs; try case_decide;
    rewrite ?bool_decide_eq_true; set_solver.
Qed.

(** A new thread at position [i]: the other threads still owe what they owed,
    and so does the changed one when its new program does. *)
Lemma owes_insert (ts : list (list Action)) i old new t s :
  ts !! i = Some old -> (owes old t s -> owes new t s) ->
  (exists p, p ∈ ts /\ owes p t s) -> exists p, p ∈ <[i := new]> ts /\ owes p t s.
Proof.
  intros Hi Hon (p & (j & Hj)%list_elem_of_lookup & Hp). destruct (decide (i = j)) as [<-|Hij].
  - exists new. split; [|apply Hon; congruence]. apply list_elem_of_lookup. exists i.
    apply list_lookup_insert_eq. by apply lookup_lt_Some in Hi.
  - exists p. split; [|done]. apply list_elem_of_lookup. exists j. by rewrite list_lookup_insert_ne.
Qed.

Lemma elem_of_inserted {A} (ts : list A) i old new p :
  ts !! i = Some old -> p ∈ <[i := new]> ts -> p = new \/ p ∈ ts.
Proof.
  intros Hi (j & Hj)%list_elem_of_lookup. destruct (decide (i = j)) as [<-|Hij].
  - rewrite list_lookup_insert_eq in Hj by (by apply lookup_lt_Some in Hi). left. congruence.
  - rewrite list_lookup_insert_ne in Hj by done. right. apply list_elem_of_lookup. eauto.
Qed.

Lemma new_thread (ts : list (list Action)) i old new : ts !! i = Some old -> new ∈ <[i := new]> ts.
Proof.
  intros Hi. apply list_elem_of_lookup. exists i. apply list_lookup_insert_eq. by apply lookup_lt_Some in Hi.
Qed.

Lemma holds_after_act a m t s :
  holds_after t s (act a m).1 = foldl (hold_step s) (holds_after t s m) (of_key t (posted_by a)).
Proof. unfold holds_after. destruct (act_views a m t) as [-> ->]. by rewrite foldl_app. Qed.

Lemma cleanup_inv_act m ts D h o i a rest :
  ts !! i = Some (a :: rest) -> cleanup_inv (mkSubSystem m ts D h o) ->
  cleanup_inv (mkSubSystem (act a m).1 (<[i := (act a m).2 ++ rest]> ts) D (h ++ posted_by a) o).
Proof.
  intros Hi [Hpair Howed]. cbn in *.
  assert (paired (a :: rest)) as Hpa by (apply Hpair, list_elem_of_lookup; eauto).
  split; cbn.
  - intros p [->|Hp]%(elem_of_inserted _ _ (a :: rest)); [by apply paired_act | by apply Hpair | done].
  - intros t s Hh. rewrite holds_after_act in Hh.
    pose proof (owes_insert ts i (a :: rest) ((act a m).2 ++ rest) t s Hi) as Hkeep.
    pose proof (new_thread ts i (a :: rest) ((act a m).2 ++ rest) Hi) as Hnew.
    destruct a as [t' hd|s' f|s']; cbn in *.
    + destruct (decide (hd = HSubscribe s /\ t' = t)) as [[-> ->]|Hsub].
      * right. exists rest. split; [done|]. destruct rest as [|[|s' f|] rest]; try (by destruct Hpa as [[] _]).
        destruct Hpa as [[-> Ht] _]. left. exists f. split; [by left | done].
      * destruct (decide (hd = HUnsubscribe s /\ t' = t)) as [[-> ->]|Hunsub].
        { unfold of_key in Hh. cbn in Hh. rewrite !decide_True in Hh by done. cbn in Hh. by rewrite decide_True in Hh. }
        destruct (Howed t s) as [Hf|Ht].
        { unfold of_key in Hh. cbn in Hh. destruct (decide (t' = t)); [|exact Hh].
          destruct hd as [y|y|y]; cbn in Hh; try case_decide; naive_solver. }
        -- left. destruct Hf as (fs & f & Hf). exists fs, f. by destruct t'.
        -- right. apply Hkeep; [|done]. rewrite owes_cons. intros [Ho|[(f & [=] & _)|[= -> ->]]]; naive_solver.
    + destruct (Howed t s Hh) as [(fs & f0 & Hf & Hin & Ht)|Ht].
      * left. destruct (decide (s' = s)) as [->|Hne].
        -- exists (fs ++ [f]), f0. rewrite lookup_insert_eq, Hf. split_and!; [done | | done].
           apply elem_of_app. by left.
        -- exists fs, f0. by rewrite lookup_insert_ne.
      * destruct (decide (s' = s /\ cleanup_topic f = t)) as [[-> Hft]|Hne].
        -- left. eexists _, f. rewrite lookup_insert_eq. split_and!; [done | | done].
           apply elem_of_app. right. by left.
        -- right. apply Hkeep; [|done]. rewrite owes_cons. intros [Ho|[(f1 & [= -> ->] & Hf1)|[=]]]; naive_solver.
    + destruct (Howed t s Hh) as [(fs & f0 & Hf & Hin & Ht)|Ht].
      * destruct (decide (s' = s)) as [->|Hne].
        -- right. exists (mjoin ((fun f => run_cleanup f s) <$> fs) ++ rest). rewrite Hf in Hnew |- *. split; [exact Hnew|].
           right. apply elem_of_app. left. apply cleanup_posts. exists f0. by rewrite Ht.
        -- left. exists fs, f0. destruct (cleanupFuncs_ m !! s'); cbn; by rewrite ?lookup_delete_ne.
      * right. apply Hkeep; [|done]. rewrite owes_cons. intros [Ho|[(f1 & [=] & Hf1)|[=]]]. by apply owes_app_r.
Qed.

Lemma cleanup_inv_step x x' : deliver_inv x -> cleanup_inv x -> sub_step x x' -> cleanup_inv x'.
Proof.
  intros [Hc _] Hci Hstep.
  destruct Hstep as [m ts D h o p Hp|m ts D h o i a rest Hi|m ts D h o t hd m' sent Hr|m ts D h o s].
  - destruct Hci as [Hpair Howed]. split; cbn in *.
    + intros q [Hq| ->%list_elem_of_singleton]%elem_of_app; [by apply Hpair | by apply api_call_paired].
    + intros t s Hh. destruct (Howed t s Hh) as [Hf|(q & Hq & Ho)]; [by left|].
      right. exists q. split; [apply elem_of_app; by left | done].
  - by apply cleanup_inv_act.
  - destruct Hci as [Hpair Howed]. apply runs_result in Hr as [Hpd Hm _ Hcl _]; [|exact Hc].
    split; cbn in *; [done|]. intros t' s Hh. rewrite Hcl. apply Howed.
    unfold holds_after in *. rewrite Hpd, Hm in *. destruct (decide (t = t')) as [<-|Hne]; [|exact Hh]. cbn.
    eapply hold_mono; [apply hold_handle | exact Hh].
  - destruct Hci as [Hpair Howed]. by split.
Qed.

Lemma cleanup_inv_reachable x : sub_reachable x -> deliver_inv x /\ cleanup_inv x.
Proof.
  apply (rtc_ind_r (fun x => deliver_inv x /\ cleanup_inv x)).
  - split; [apply deliver_inv_start|]. split; cbn.
    + by intros p Hp%not_elem_of_nil.
    + intros t s Hh. by destruct t.
  - intros y z _ Hstep [Hd Hc]. split; [by eapply deliver_inv_step | by eapply cleanup_inv_step].
Qed.

(** ** The properties *)

(** C6: delivery. In every reachable state, of the handlers posted for a topic
    a first part has run and the rest wait on its strand in the order they were
    posted; a session that has not died has been sent, on that topic, exactly
    the messages it must hear when the calls of that first part are taken one
    after the other (each publication between its subscription and its
    unsubscription, once and in order), and is a subscriber exactly when that
    reading says so. A strand with waiting handlers can always be run. *)
Theorem subscriptions_deliver (x : SubSystem) (t : Topic) :
  sub_reachable x ->
  (exists ran, of_key t (history x) = ran ++ pending t (mgr x) /\
    forall s, s ∉ dead_sessions x ->
      heard_on t s (heard x) = (listen s ran).2 /\
      (s ∈ members t (mgr x) <-> (listen s ran).1 = true)) /\
  (pending t (mgr x) <> [] -> exists r, runs (dead_sessions x) (mgr x) r).
Proof.
  intros Hr. destruct (deliver_inv_reachable x Hr) as [_ Hd]. split; [|apply pending_runs].
  destruct (Hd t) as (ran & Hh & Hl). exists ran. split; [done|]. intros s Hs.
  destruct (Hl s Hs) as [H1 H2]. split; [done|]. by rewrite H1, bool_decide_eq_true.
Qed.

(** The counts. In every reachable state the counts of [report] are the
    numbers of subscriptions, as 64-bit numbers: of a stream the size of its
    set, of a map the sum of the sizes over its keys. *)
Theorem subscription_counts (x : SubSystem) :
  sub_reachable x ->
  (forall m, report_stream m (mgr x) = u64 (Z.of_nat (size (members (Stream m) (mgr x))))) /\
  (forall m, report_accounts m (mgr x) = u64 (map_total (map_subscribers_ (accountMaps (mgr x) m)))) /\
  report_books (mgr x) = u64 (map_total (map_subscribers_ (bookSubscribers_ (mgr x)))).
Proof. intros Hr. apply (di_counts x (deliver_inv_reachable x Hr)). Qed.

(** Cleaning up. When a session has no functions left to call and no thread
    is between the post and the registration of one of its subscriptions, or
    between its cleanup and the posts that end them, then it ends unsubscribed
    from every topic: it is a subscriber of none whose strand has run empty.
    The action of [cleanup] leaves the session without functions. *)
Theorem cleanup_removes (x : SubSystem) (s : session_ptr) :
  sub_reachable x ->
  (forall m, cleanupFuncs_ (act (ACleanup s) m).1 !! s = None) /\
  (cleanupFuncs_ (mgr x) !! s = None -> (forall t p, p ∈ threads x -> ~ owes p t s) ->
   forall t, holds_after t s (mgr x) = false /\ (pending t (mgr x) = [] -> s ∉ members t (mgr x))).
Proof.
  intros Hr. split.
  - intros m. cbn. destruct (cleanupFuncs_ m !! s) eqn:Hs; cbn; [apply lookup_delete_eq | done].
  - intros Hnone Hno t. destruct (cleanup_inv_reachable x Hr) as [_ [_ Howed]].
    assert (holds_after t s (mgr x) = false) as Hf.
    { apply not_true_is_false. intros Hh. destruct (Howed t s Hh) as [(fs & f & Hf & _)|(p & Hp & Ho)].
      - congruence.
      - by apply (Hno t p). }
    split; [done|]. intros Hp Hin. unfold holds_after in Hf. rewrite Hp in Hf. cbn in Hf.
    by apply bool_decide_eq_false in Hf.
Qed.

(** Runs, to try the definitions on. *)
Definition do_call (p : list Action) (x : SubSystem) : SubSystem :=
  mkSubSystem (mgr x) (threads x ++ [p]) (dead_sessions x) (history x) (heard x).

Definition do_act (i : nat) (x : SubSystem) : SubSystem :=
  match threads x !! i with
  | Some (a :: rest) =>
      mkSubSystem (act a (mgr x)).1 (<[i := (act a (mgr x)).2 ++ rest]> (threads x)) (dead_sessions x)
        (history x ++ posted_by a) (heard x)
  | _ => x
  end.

Definition do_run (m : StreamMember) (x : SubSystem) : SubSystem :=
  match run_stream (dead_sessions x) m (mgr x) with
  | Some (t, hd, m', sent) => mkSubSystem m' (threads x) (dead_sessions x) (history x) (heard x ++ label t sent)
  | None => x
  end.

Lemma do_call_reach p x : sub_reachable x -> api_call p -> sub_reachable (do_call p x).
Proof. intros Hx Hp. eapply rtc_r; [exact Hx|]. destruct x. by apply step_call. Qed.

Lemma do_act_reach i x : sub_reachable x -> sub_reachable (do_act i x).
Proof.
  intros Hx. unfold do_act. destruct (threads x !! i) as [[|a rest]|] eqn:Hi; [done| |done].
  eapply rtc_r; [exact Hx|]. destruct x. by apply step_act.
Qed.

Lemma do_run_reach m x : sub_reachable x -> sub_reachable (do_run m x).
Proof.
  intros Hx. unfold do_run. destruct (run_stream _ m (mgr x)) as [[[[t hd] m'] sent]|] eqn:Hr; [|done].
  eapply rtc_r; [exact Hx|]. destruct x. eapply step_run. left. by exists m.
Qed.

(** Session 1 subscribes to the transactions, a message is published, the
    session is cleaned up; the strand runs as far as the publication. *)
Definition sample_calls : list Action :=
  subTransactions 1%nat ++ publish (Stream txSubscribers_) "m"%string ++ cleanup 1%nat.

Definition sample_system : SubSystem :=
  do_run txSubscribers_ (do_run txSubscribers_
    (do_act 0 (do_act 0 (do_act 0 (do_act 0 (do_act 0 (do_call sample_calls system_start))))))).

Definition sample_ended : SubSystem := do_run txSubscribers_ sample_system.

Lemma sample_reachable : sub_reachable sample_system.
Proof.
  do 2 apply do_run_reach. do 5 apply do_act_reach. apply do_call_reach; [apply rtc_refl|].
  repeat constructor.
Qed.

Lemma sample_ended_reachable : sub_reachable sample_ended.
Proof. apply do_run_reach, sample_reachable. Qed.

Lemma subscriptions_deliver_witness :
  sub_reachable sample_system /\ pending (Stream txSubscribers_) (mgr sample_system) = [HUnsubscribe 1%nat] /\
  (exists ran, of_key (Stream txSubscribers_) (history sample_system) =
     ran ++ pending (Stream txSubscribers_) (mgr sample_system) /\
    forall s, s ∉ dead_sessions sample_system ->
      heard_on (Stream txSubscribers_) s (heard sample_system) = (listen s ran).2 /\
      (s ∈ members (Stream txSubscribers_) (mgr sample_system) <-> (listen s ran).1 = true)).
Proof.
  split; [apply sample_reachable|]. split; [by vm_compute|].
  exact (proj1 (subscriptions_deliver sample_system (Stream txSubscribers_) sample_reachable)).
Defined.

Lemma subscription_counts_witness :
  report_stream txSubscribers_ (mgr sample_system) = 1 /\
  report_stream txSubscribers_ (mgr sample_system) =
    u64 (Z.of_nat (size (members (Stream txSubscribers_) (mgr sample_system)))).
Proof.
  split; [by vm_compute|]. exact (proj1 (subscription_counts sample_system sample_reachable) txSubscribers_).
Defined.

Lemma cleanup_removes_witness :
  pending (Stream txSubscribers_) (mgr sample_ended) = [] /\
  1%nat ∉ members (Stream txSubscribers_) (mgr sample_ended).
Proof.
  split; [by vm_compute|].
  apply (proj2 (cleanup_removes sample_ended 1%nat sample_ended_reachable)); [by vm_compute | | by vm_compute].
  intros t p Hp. apply list_elem_of_lookup in Hp as [[|i] Hi]; vm_compute in Hi; [|done]. injection Hi as <-.
  intros [(f & Hf%not_elem_of_nil & _)|Hf%not_elem_of_nil]; done.
Defined.

(** The race: a session is cleaned up between the post and the registration of
    its subscription. It stays subscribed, with a function nobody will call. *)
Definition race_system : SubSystem :=
  do_run txSubscribers_
    (do_act 0 (do_act 1 (do_act 0 (do_call (cleanup 1%nat) (do_call (subTransactions 1%nat) system_start))))).

Example cleanup_race :
  sub_reachable race_system /\ threads race_system = [[]; []] /\
  1%nat ∈ members (Stream txSubscribers_) (mgr race_system) /\
  cleanupFuncs_ (mgr race_system) !! 1%nat = Some [UnsubTransactions].
Proof.
  split; [apply do_run_reach; do 3 apply do_act_reach; do 2 (apply do_call_reach; [|constructor]); apply rtc_refl|].
  split; [by vm_compute|]. split; [|by vm_compute]. by eapply bool_decide_unpack; vm_compute.
Qed.
