(* ===== verification/Publications.v ===== *)
(** What the subscription manager publishes ([subscriptions/SubscriptionManager.cpp]).

    The messages themselves are rendered by rippled and Boost.JSON; here are the
    topics each one is posted to. [pubTransaction_topics]: a transaction goes
    once to the transaction stream, once to each affected account and once to
    each book of which an offer changed. *)

From stdpp Require Import base list gmap strings.
From Stdlib Require Import ZArith Lia.
From S2P Require Import Prelude Types TreeRipple Json Requests Subscriptions.

Open Scope Z_scope.

(** [dynamic_cast<STObject const*>(node.peekAtPField(field))]: nothing when the
    field is absent or not an object; and [getFieldAmount(f).issue()], a
    currency and an account. *)
Class RippleAmounts `{Ripple} := {
  peekAtPField : STObject -> SField -> option STObject;
  getFieldAmount_issue : STObject -> SField -> Res (Z * Z)
}.

Section publications.
Context `{RippleAmounts}.

(** The field of an offer's node with its sides. *)
Definition book_field (node : STObject) : option SField :=
  match getFName node with
  | sfModifiedNode => Some sfPreviousFields
  | sfCreatedNode => Some sfNewFields
  | sfDeletedNode => Some sfFinalFields
  | _ => None
  end.

Definition node_book (node : STObject) : Res (option Book) :=
  t ← getFieldU16 node sfLedgerEntryType;
  if negb (t =? ltOFFER) then Ok None
  else
    match book_field node with
    | None => Ok None
    | Some field =>
        match peekAtPField node field with
        | None => Ok None
        | Some data =>
            if isFieldPresent data sfTakerPays && isFieldPresent data sfTakerGets then
              gets ← getFieldAmount_issue data sfTakerGets;
              pays ← getFieldAmount_issue data sfTakerPays;
              Ok (Some (mkBook gets pays))
            else Ok None
        end
    end.

(** The loop over the nodes: what is posted, and how it ends. *)
Fixpoint pub_books (pubMsg : Message) (nodes : list STObject) (alreadySent : gset Book) : list Action * Res unit :=
  match nodes with
  | [] => ([], Ok tt)
  | node :: nodes' =>
      match node_book node with
      | Ok (Some book) =>
          if decide (book ∈ alreadySent) then pub_books pubMsg nodes' alreadySent
          else
            let '(posts, r) := pub_books pubMsg nodes' ({[book]} ∪ alreadySent) in
            (publish (OfBook book) pubMsg ++ posts, r)
      | Ok None => pub_books pubMsg nodes' alreadySent
      | Throw e => ([], Throw e)
      | NoFuel => ([], NoFuel)
      end
  end.

(** [pubTransaction] once the message is put together. *)
Definition pubTransaction (pubMsg : Message) (meta : TxMeta) : list Action * Res unit :=
  let accounts := getAffectedAccounts meta in
  let '(posts, r) := pub_books pubMsg (getNodes meta) ∅ in
  (publish (Stream txSubscribers_) pubMsg
     ++ mjoin ((fun account => publish (Account accountSubscribers_ account) pubMsg) <$> accounts)
     ++ posts, r).

(** The books of the nodes, in order, with repetitions. *)
Fixpoint node_books (nodes : list STObject) : Res (list Book) :=
  match nodes with
  | [] => Ok []
  | node :: nodes' =>
      b ← node_book node; bs ← node_books nodes';
      Ok (match b with Some book => book :: bs | None => bs end)
  end.

End publications.

Section proposed.
Context `{RippleStrings}.

(** [forwardProposedTransaction]: the whole response goes to the stream before
    the transaction in it is looked at; an account that occurs several times in
    the transaction is published to as many times. *)
Definition forwardProposedTransaction (pubMsg : Message) (response : JsonObject) : list Action * Res unit :=
  let first := publish (Stream txProposedSubscribers_) pubMsg in
  match (v ← at_ response "transaction"; as_object v) with
  | Ok transaction =>
      (first ++ mjoin ((fun account => publish (Account accountProposedSubscribers_ account) pubMsg)
                       <$> getAccountsFromTransaction transaction), Ok tt)
  | Throw e => (first, Throw e)
  | NoFuel => (first, NoFuel)
  end.

End proposed.

(** [getLedgerPubMessage], and the answer of [subLedger] without its two
    members. The numbers and hashes come rendered. *)
Definition getLedgerPubMessage (seq : Z) (hash : string) (close_time : Z) (fee_ref fee_base reserve_base reserve_inc : json)
    (ledgerRange : string) (txnCount : Z) : JsonObject :=
  obj_set "txn_count" (JUint64 txnCount) (obj_set "validated_ledgers" (JString ledgerRange)
    (obj_set "reserve_inc" reserve_inc (obj_set "reserve_base" reserve_base
      (obj_set "fee_base" fee_base (obj_set "fee_ref" fee_ref
        (obj_set "ledger_time" (JUint64 close_time) (obj_set "ledger_hash" (JString hash)
          (obj_set "ledger_index" (JUint64 seq) (obj_set "type" (JString "ledgerClosed") []))))))))).

Definition subLedger_answer (pubMsg : JsonObject) : JsonObject := obj_erase "type" (obj_erase "txn_count" pubMsg).

(** ** Lemmas *)

(** The handlers a program posts for a topic. *)
Definition posts_on (t : Topic) (p : list Action) : list Handler := of_key t (mjoin (posted_by <$> p)).

Lemma posts_on_app t p q : posts_on t (p ++ q) = posts_on t p ++ posts_on t q.
Proof. unfold posts_on. by rewrite fmap_app, join_app, of_key_app. Qed.

Lemma posts_on_publish t t' m : posts_on t (publish t' m) = if decide (t' = t) then [HPublish m] else [].
Proof. unfold posts_on, of_key. cbn. by case_decide. Qed.

#[local] Arguments posts_on : simpl never.

Lemma posts_on_publishes {A} (f : A -> Topic) m l t :
  posts_on t (mjoin ((fun a => publish (f a) m) <$> l)) = omap (fun a => if decide (f a = t) then Some (HPublish m) else None) l.
Proof.
  induction l as [|a l IH]; [done|].
  change (mjoin ((fun a => publish (f a) m) <$> a :: l))
    with (publish (f a) m ++ mjoin ((fun a => publish (f a) m) <$> l)).
  rewrite posts_on_app, posts_on_publish, IH. cbn. by case_decide.
Qed.

(** One publication for an element of a list without repetitions. *)
Lemma omap_once {A B} `{EqDecision A} (l : list A) a (b : B) :
  NoDup l -> omap (fun x => if decide (x = a) then Some b else None) l = if decide (a ∈ l) then [b] else [].
Proof.
  induction 1 as [|x l Hx Hd IH]; cbn; [by rewrite decide_False by apply not_elem_of_nil|].
  destruct (decide (x = a)) as [->|Hne]; rewrite IH.
  - rewrite decide_False, decide_True by (try done; by left). done.
  - apply decide_sent. rewrite elem_of_cons. naive_solver.
Qed.

Lemma omap_count {A B} `{EqDecision A} (l : list A) a (b : B) :
  omap (fun x => if decide (x = a) then Some b else None) l = replicate (length (filter (fun x => x = a) l)) b.
Proof.
  induction l as [|x l IH]; [done|]. rewrite filter_cons. cbn [omap list_omap].
  destruct (decide (x = a)); cbn; by rewrite <- IH.
Qed.

Lemma omap_same {A B} (f g : A -> option B) (l : list A) : (forall a, f a = g a) -> omap f l = omap g l.
Proof. intros Hf. induction l as [|a l IH]; cbn; [done|]. by rewrite Hf, IH. Qed.

Lemma omap_never {A B} (f : A -> option B) (l : list A) : (forall a, f a = None) -> omap f l = [].
Proof. intros Hf. induction l as [|a l IH]; cbn; [done|]. by rewrite Hf. Qed.

Section publication_lemmas.
Context `{RippleAmounts}.

(** The books posted to: each once, those that were not sent already. *)
Lemma pub_books_spec m nodes sent bs :
  node_books nodes = Ok bs ->
  (pub_books m nodes sent).2 = Ok tt /\
  (forall b, posts_on (OfBook b) (pub_books m nodes sent).1 = if decide (b ∈ bs /\ b ∉ sent) then [HPublish m] else []) /\
  (forall t, (forall b, t <> OfBook b) -> posts_on t (pub_books m nodes sent).1 = []).
Proof.
  revert sent bs. induction nodes as [|node nodes IH]; intros sent bs Hb; cbn [pub_books node_books] in *.
  - injection Hb as <-. split_and!; [done| |done]. intros b. rewrite decide_False; [done|].
    intros [Hb _]. by apply not_elem_of_nil in Hb.
  - destruct (node_book node) as [[book|]|e|]; [| |done..]; cbn in Hb.
    + destruct (node_books nodes) as [bs'| |] eqn:Hbs; [|done..]. injection Hb as <-.
      destruct (decide (book ∈ sent)) as [Hs|Hs].
      * destruct (IH sent bs' eq_refl) as (H1 & H2 & H3). split_and!; [done| |done]. intros b. rewrite H2.
        apply decide_sent. rewrite elem_of_cons. naive_solver.
      * destruct (IH ({[book]} ∪ sent) bs' eq_refl) as (H1 & H2 & H3).
        destruct (pub_books m nodes ({[book]} ∪ sent)) as [posts r]. cbn [fst snd] in *. split_and!; [done| |].
        -- intros b. rewrite posts_on_app, posts_on_publish, H2.
           destruct (decide (book = b)) as [->|Hne].
           ++ rewrite decide_True, decide_False, decide_True by set_solver. done.
           ++ rewrite decide_False by congruence. apply decide_sent. set_solver.
        -- intros t Ht. by rewrite posts_on_app, posts_on_publish, decide_False, H3 by naive_solver.
    + destruct (node_books nodes) as [bs'| |] eqn:Hbs; [|done..]. injection Hb as <-. by apply IH.
Qed.

(** Publishing a transaction. When the metadata can be read, the message is
    posted exactly once to the transaction stream, exactly once for each affected
    account, exactly once for each book of which an offer node of the metadata
    shows both sides (however many of its offers changed), and to no other topic. *)
Theorem pubTransaction_topics (pubMsg : Message) (meta : TxMeta) (books : list Book) :
  NoDup (getAffectedAccounts meta) -> node_books (getNodes meta) = Ok books ->
  (pubTransaction pubMsg meta).2 = Ok tt /\
  forall t, posts_on t (pubTransaction pubMsg meta).1 =
    if match t with
       | Stream x => bool_decide (x = txSubscribers_)
       | Account x a => bool_decide (x = accountSubscribers_) && bool_decide (a ∈ getAffectedAccounts meta)
       | OfBook b => bool_decide (b ∈ books)
       end
    then [HPublish pubMsg] else [].
Proof.
  intros Hd Hb. destruct (pub_books_spec pubMsg (getNodes meta) ∅ books Hb) as (H1 & H2 & H3).
  unfold pubTransaction. destruct (pub_books pubMsg (getNodes meta) ∅) as [posts r]. cbn [fst snd] in *.
  split; [done|]. intros t. rewrite !posts_on_app, posts_on_publish, posts_on_publishes. destruct t as [x|x a|b].
  - rewrite omap_never, H3, app_nil_r by done.
    destruct (decide (txSubscribers_ = x)) as [<-|Hne].
    + by rewrite decide_True, bool_decide_true.
    + by rewrite decide_False, bool_decide_false by congruence.
  - rewrite decide_False, H3, app_nil_r by done. cbn [app].
    destruct (decide (x = accountSubscribers_)) as [->|Hne].
    + rewrite (bool_decide_true (_ = _)) by done. cbn [andb].
      rewrite (omap_same _ (fun y => if decide (y = a) then Some (HPublish pubMsg) else None))
        by (intros y; apply decide_sent; split; congruence).
      rewrite omap_once by done. by destruct (decide (a ∈ getAffectedAccounts meta)), (bool_decide_reflect (a ∈ getAffectedAccounts meta)).
    + rewrite bool_decide_false by done. apply omap_never. intros y. rewrite decide_False by congruence. done.
  - rewrite decide_False, omap_never, H2 by done. cbn [app].
    destruct (decide (b ∈ books)) as [Hin|Hin].
    + rewrite decide_True, bool_decide_true by set_solver. done.
    + rewrite decide_False, bool_decide_false by naive_solver. done.
Qed.

End publication_lemmas.

(** A proposed transaction is published to an account once for each time the
    account occurs in it. *)
Lemma forwardProposed_repeats `{RippleStrings} m response v tx a :
  at_ response "transaction" = Ok v -> as_object v = Ok tx ->
  posts_on (Account accountProposedSubscribers_ a) (forwardProposedTransaction m response).1 =
  replicate (length (filter (fun b => b = a) (getAccountsFromTransaction tx))) (HPublish m).
Proof.
  intros Hv Ht. unfold forwardProposedTransaction. rewrite Hv. cbn [mbind Res_bind]. rewrite Ht. cbn [fst].
  rewrite posts_on_app, posts_on_publish, decide_False by done. cbn [app].
  rewrite posts_on_publishes, (omap_same _ (fun b => if decide (b = a) then Some (HPublish m) else None))
    by (intros b; apply decide_sent; split; congruence).
  apply omap_count.
Qed.

(** ** A concrete instance: an amount is a currency and an issuer in one number. *)

Definition sample_ripple : Ripple :=
  TreeRipple (fun _ => Throw (LibraryError "")) (fun _ _ _ => Throw (LibraryError "")) (fun _ _ => Throw (LibraryError "")).

#[export] Instance sample_amounts : @RippleAmounts sample_ripple := {
  peekAtPField := (fun o f => match obj_get o f with Some (VObj x) => Some x | _ => None end) : @STObject sample_ripple -> _ -> _;
  getFieldAmount_issue := fun o f => z ← get_num o f; Ok (z / 2 ^ 160, z mod 2 ^ 160)
}.

(** Two modified offers of one book, and a page that is no offer. *)
Definition offer_node (gets pays : Z) : TreeObj :=
  mkObj sfModifiedNode [(sfLedgerEntryType, VNum ltOFFER); (sfAccount, VNum 7);
    (sfPreviousFields, VObj (mkObj sfPreviousFields [(sfTakerGets, VNum gets); (sfTakerPays, VNum pays)]))].

Definition sample_meta : @TxMeta sample_ripple :=
  mkTreeMeta [offer_node 0 5; mkObj sfModifiedNode [(sfLedgerEntryType, VNum 1)]; mkObj sfDeletedNode
    [(sfLedgerEntryType, VNum ltOFFER);
     (sfFinalFields, VObj (mkObj sfFinalFields [(sfTakerGets, VNum 0); (sfTakerPays, VNum 5)]))]] 1 0 0.

Lemma pubTransaction_topics_witness :
  NoDup (@getAffectedAccounts sample_ripple sample_meta) /\
  @node_books sample_ripple _ (@getNodes sample_ripple sample_meta) = Ok [mkBook (0, 0) (0, 5); mkBook (0, 0) (0, 5)] /\
  (@pubTransaction sample_ripple _ "m"%string sample_meta).2 = Ok tt.
Proof.
  assert (NoDup (@getAffectedAccounts sample_ripple sample_meta)) as Hd.
  { apply (bool_decide_unpack (NoDup [7])). by vm_compute. }
  split; [exact Hd|]. split; [by vm_compute|].
  apply (@pubTransaction_topics sample_ripple _ "m"%string sample_meta [mkBook (0, 0) (0, 5); mkBook (0, 0) (0, 5)]);
    [exact Hd | by vm_compute].
Defined.
