(* ===== verification/Directory.v ===== *)
(** Walking the owner directories of a ledger ([rpc/RPCHelpers.cpp],
    [rpc/RPC.h]).

    A directory is a chain of pages, each with the keys of objects and the
    number of the next page. [traverseOwnedNodes] reads the objects of up to
    [limit] of its keys, from a cursor on: a key and the page that holds it.
    [traverse_pages]: the pages of such a walk are the directory cut in pieces.
    [cursor_roundtrip]: the text of a cursor and its reading are inverse. *)

From stdpp Require Import base list gmap strings.
From Stdlib Require Import ZArith Lia Ascii.
From S2P Require Import Prelude Types TreeRipple SimpleCache Backend Json Errors Requests.

Open Scope Z_scope.

(** Keylets: [keylet::account(id).key], [keylet::ownerDir(id).key]. *)
Class RippleKeylets := {
  keylet_account : AccountID -> uint256;
  keylet_ownerDir : AccountID -> uint256
}.

(** ** Cursors *)

Record AccountCursor := mkAccountCursor { ac_index : uint256; ac_hint : Z }.

#[export] Instance AccountCursor_eq_dec : EqDecision AccountCursor.
Proof. solve_decision. Defined.

Definition zero_cursor : AccountCursor := mkAccountCursor 0 0.

Definition isNonZero (c : AccountCursor) : bool := negb (ac_index c =? 0) || negb (ac_hint c =? 0).

Definition comma : ascii := ","%char.

(** [strHex] of 256 bits and [std::to_string] of 32. *)
Class CursorText := {
  strHex : uint256 -> string;
  to_string : Z -> string
}.

Definition AccountCursor_toString `{CursorText} (c : AccountCursor) : string :=
  strHex (ac_index c) +:+ "," +:+ to_string (ac_hint c).

(** [std::getline(stream, value, ',')]: what is left of the stream. It fails
    when the stream has no more characters. *)
Fixpoint until_comma (s : string) : string * string :=
  match s with
  | EmptyString => (EmptyString, EmptyString)
  | String a s' =>
      if decide (a = comma) then (EmptyString, s')
      else let '(v, rest) := until_comma s' in (String a v, rest)
  end.

Definition getline (s : string) : option (string * string) :=
  match s with EmptyString => None | _ => Some (until_comma s) end.

(** The hint is read as 64 bits and kept in 32. *)
Definition parseAccountCursor `{RippleStrings} `{LexicalCast} (jsonCursor : option string) : option AccountCursor :=
  match jsonCursor with
  | None => Some zero_cursor
  | Some text =>
      '(value, rest) ← getline text;
      cursorIndex ← parseHex value;
      '(value', _) ← getline rest;
      startHint ← lexical_u64 value';
      Some (mkAccountCursor cursorIndex (u32 startHint))
  end.

(** ** Traversal *)

Section traverse.
Context `{BackendImpl W} `{Ripple}.

(** The loop over the keys of a page, until the limit is used up. *)
Fixpoint page_take (indexes : list uint256) (keys : list uint256) (limit : Z) : list uint256 * Z :=
  match indexes with
  | [] => (keys, limit)
  | key :: indexes' =>
      let limit' := u32 (limit - 1) in
      if limit' =? 0 then (keys ++ [key], limit') else page_take indexes' (keys ++ [key]) limit'
  end.

(** The same loop when the keys up to the marker are skipped. *)
Fixpoint page_after (hexMarker : uint256) (indexes : list uint256) (found : bool) (keys : list uint256) (limit : Z)
  : bool * list uint256 * Z :=
  match indexes with
  | [] => (found, keys, limit)
  | key :: indexes' =>
      if found then
        let limit' := u32 (limit - 1) in
        if limit' =? 0 then (found, keys ++ [key], limit')
        else page_after hexMarker indexes' found (keys ++ [key]) limit'
      else page_after hexMarker indexes' (key =? hexMarker) keys limit
  end.

(** [keys.back()] of an empty vector is undefined. *)
Definition back_cursor (keys : list uint256) (currentPage : Z) : M W AccountCursor :=
  match last keys with
  | Some k => mret (mkAccountCursor k currentPage)
  | None => throw OutOfRange
  end.

(** The loop from a marker. The number of pages is not bounded by the code. *)
Fixpoint pages_after (fuel : nat) (rootIndex hexMarker : uint256) (sequence : Z)
    (currentIndex : uint256) (currentPage : Z) (found : bool) (keys : list uint256) (limit : Z)
  : M W (Outcome (list uint256 * Z * AccountCursor)) :=
  match fuel with
  | O => no_fuel
  | S fuel' =>
      ownerDir ← fetchLedgerObject currentIndex sequence;
      match ownerDir with
      | None => mret (Failed (Status_message (Rippled rpcINVALID_PARAMS) "Owner directory not found"))
      | Some b =>
          sle ← lift_res (parseSLE b currentIndex);
          indexes ← lift_res (getFieldV256 sle sfIndexes);
          let '(found', keys', limit') := page_after hexMarker indexes found keys limit in
          if limit' =? 0 then
            cursor ← back_cursor keys' currentPage;
            mret (Done (keys', limit', cursor))
          else
            uNodeNext ← lift_res (getFieldU64 sle sfIndexNext);
            if uNodeNext =? 0 then mret (Done (keys', limit', zero_cursor))
            else pages_after fuel' rootIndex hexMarker sequence (keylet_page rootIndex uNodeNext) (u32 uNodeNext)
                 found' keys' limit'
      end
  end.

(** The loop from the first page. *)
Fixpoint pages_all (fuel : nat) (rootIndex : uint256) (sequence : Z)
    (currentIndex : uint256) (currentPage : Z) (keys : list uint256) (limit : Z)
  : M W (list uint256 * Z * AccountCursor) :=
  match fuel with
  | O => no_fuel
  | S fuel' =>
      ownerDir ← fetchLedgerObject currentIndex sequence;
      match ownerDir with
      | None => mret (keys, limit, zero_cursor)
      | Some b =>
          sle ← lift_res (parseSLE b currentIndex);
          indexes ← lift_res (getFieldV256 sle sfIndexes);
          let '(keys', limit') := page_take indexes keys limit in
          if limit' =? 0 then
            cursor ← back_cursor keys' currentPage;
            mret (keys', limit', cursor)
          else
            uNodeNext ← lift_res (getFieldU64 sle sfIndexNext);
            if uNodeNext =? 0 then mret (keys', limit', zero_cursor)
            else pages_all fuel' rootIndex sequence (keylet_page rootIndex uNodeNext) (u32 uNodeNext) keys' limit'
      end
  end.

Context {B : Type} (atOwnedNode : B -> STObject -> Res B).

(** The objects of the keys, handed over one by one. [objects] and [keys] have
    the same length. *)
Fixpoint visit_nodes (keys : list uint256) (objects : list Blob) (acc : B) : Res B :=
  match keys, objects with
  | k :: keys', o :: objects' => sle ← parseSLE o k; acc' ← atOwnedNode acc sle; visit_nodes keys' objects' acc'
  | _, _ => Ok acc
  end.

Definition read_nodes (keys : list uint256) (sequence : Z) (limit : Z) (cursor : AccountCursor) (acc : B)
  : M W (AccountCursor * B) :=
  objects ← fetchLedgerObjects keys sequence;
  acc' ← lift_res (visit_nodes keys objects acc);
  mret (if limit =? 0 then cursor else zero_cursor, acc').

(** The general [traverseOwnedNodes]. *)
Definition traverseOwnedNodes (fuel : nat) (owner hexMarker : uint256) (startHint sequence limit : Z) (acc : B)
  : M W (Outcome (AccountCursor * B)) :=
  if negb (hexMarker =? 0) then
    let hintIndex := keylet_page owner startHint in
    hintDir ← fetchLedgerObject hintIndex sequence;
    match hintDir with
    | None => mret (Failed (Status_message (Rippled rpcINVALID_PARAMS) "Invalid marker"))
    | Some b =>
        sle ← lift_res (parseSLE b hintIndex);
        indexes ← lift_res (getFieldV256 sle sfIndexes);
        if negb (bool_decide (hexMarker ∈ indexes)) then mret (Done (zero_cursor, acc))
        else
          r ← pages_after fuel owner hexMarker sequence hintIndex startHint false [] limit;
          match r with
          | Failed s => mret (Failed s)
          | Done (keys, limit', cursor) => x ← read_nodes keys sequence limit' cursor acc; mret (Done x)
          end
    end
  else
    '(keys, limit', cursor) ← pages_all fuel owner sequence owner startHint [] limit;
    x ← read_nodes keys sequence limit' cursor acc;
    mret (Done x).

Context `{RippleKeylets} `{RippleStrings} `{LexicalCast}.

(** The two that start from an account; the second without its test. *)
Definition traverse_account (fuel : nat) (accountID : AccountID) (sequence limit : Z) (jsonCursor : option string)
    (acc : B) : M W (Outcome (AccountCursor * B)) :=
  root ← fetchLedgerObject (keylet_account accountID) sequence;
  match root with
  | None => mret (Failed (Status_code (Rippled rpcACT_NOT_FOUND)))
  | Some _ =>
      match parseAccountCursor jsonCursor with
      | None => mret (Failed (Status_message (Rippled rpcINVALID_PARAMS) "Malformed cursor"))
      | Some c => traverseOwnedNodes fuel (keylet_ownerDir accountID) (ac_index c) (ac_hint c) sequence limit acc
      end
  end.

(** [*maybeCursor] of an empty optional is undefined. *)
Definition ngTraverseOwnedNodes (fuel : nat) (accountID : AccountID) (sequence limit : Z) (jsonCursor : option string)
    (acc : B) : M W (Outcome (AccountCursor * B)) :=
  match parseAccountCursor jsonCursor with
  | None => throw BadOptionalAccess
  | Some c => traverseOwnedNodes fuel (keylet_ownerDir accountID) (ac_index c) (ac_hint c) sequence limit acc
  end.

End traverse.

(** ** Directories *)

Section directories.
Context `{Ripple}.

(** From page [p] on, the directory at [root] of a ledger is the given list of
    pages: their numbers and keys. *)
Inductive dir_chain (m : gmap Z Blob) (root : uint256) : Z -> list (Z * list uint256) -> Prop :=
| chain_last p b sle ix :
    m !! keylet_page root p = Some b -> parseSLE b (keylet_page root p) = Ok sle ->
    getFieldV256 sle sfIndexes = Ok ix -> getFieldU64 sle sfIndexNext = Ok 0 ->
    dir_chain m root p [(p, ix)]
| chain_next p q b sle ix rest :
    m !! keylet_page root p = Some b -> parseSLE b (keylet_page root p) = Ok sle ->
    getFieldV256 sle sfIndexes = Ok ix -> getFieldU64 sle sfIndexNext = Ok q -> q <> 0 -> 0 <= q < 2 ^ 32 ->
    dir_chain m root q rest -> dir_chain m root p ((p, ix) :: rest).

End directories.

Definition dir_keys (pages : list (Z * list uint256)) : list uint256 := mjoin (snd <$> pages).

(** The cursor after the first [n] keys, [n] at least 1: the key and its page. *)
Fixpoint cursor_at (pages : list (Z * list uint256)) (n : nat) : AccountCursor :=
  match pages with
  | [] => zero_cursor
  | (p, ix) :: rest =>
      if decide (n <= length ix)%nat then mkAccountCursor (nth (n - 1) ix 0) p else cursor_at rest (n - length ix)
  end.

(** The keys a traversal of at most [limit] keys returns, its cursor, and how
    much of the limit it leaves. *)
Definition cut (limit : Z) (keys : list uint256) : list uint256 := take (Z.to_nat limit) keys.

Definition cut_cursor (pages : list (Z * list uint256)) (limit : Z) : AccountCursor :=
  if decide (Z.to_nat limit <= length (dir_keys pages))%nat then cursor_at pages (Z.to_nat limit) else zero_cursor.

Definition cut_limit (limit : Z) (keys : list uint256) : Z := Z.max 0 (limit - Z.of_nat (length keys)).

(** ** Lemmas *)

Lemma page_take_spec ix keys limit :
  0 < limit < 2 ^ 32 -> page_take ix keys limit = (keys ++ cut limit ix, cut_limit limit ix).
Proof.
  unfold cut, cut_limit. revert keys limit. induction ix as [|k ix IH]; intros keys limit Hl; cbn [page_take].
  - rewrite take_nil, app_nil_r. f_equal. cbn. lia.
  - rewrite u32_small by lia. destruct (Z.eqb_spec (limit - 1) 0) as [Hz|Hz].
    + replace limit with 1 by lia. cbn. f_equal. lia.
    + rewrite IH by lia. replace (Z.to_nat limit) with (S (Z.to_nat (limit - 1))) by lia.
      cbn [take]. rewrite <- app_assoc. f_equal. cbn [length]. lia.
Qed.

Lemma page_after_found k ix keys limit : page_after k ix true keys limit = (true, (page_take ix keys limit).1, (page_take ix keys limit).2).
Proof.
  revert keys limit. induction ix as [|k' ix IH]; intros keys limit; cbn [page_after page_take]; [done|].
  by destruct (u32 (limit - 1) =? 0).
Qed.

(** Up to the first occurrence of the marker nothing is taken. *)
Lemma page_after_marker k ix1 ix2 keys limit :
  k ∉ ix1 -> page_after k (ix1 ++ k :: ix2) false keys limit = page_after k ix2 true keys limit.
Proof.
  induction ix1 as [|k' ix1 IH]; intros Hk; cbn [page_after app].
  - by rewrite Z.eqb_refl.
  - apply not_elem_of_cons in Hk as [Hne Hk]. destruct (Z.eqb_spec k' k); [congruence | by apply IH].
Qed.

Lemma cut_app limit l1 l2 :
  0 <= limit -> cut limit (l1 ++ l2) = cut limit l1 ++ cut (cut_limit limit l1) l2.
Proof.
  intros Hl. unfold cut, cut_limit. rewrite take_app. do 2 f_equal. lia.
Qed.

Lemma cut_limit_app limit l1 l2 : 0 <= limit -> cut_limit limit (l1 ++ l2) = cut_limit (cut_limit limit l1) l2.
Proof. intros Hl. unfold cut_limit. rewrite length_app. lia. Qed.

Lemma last_nth (l : list Z) : l <> [] -> last l = Some (nth (length l - 1) l 0).
Proof.
  induction l as [|x l _] using rev_ind; [done|]. intros _.
  rewrite last_snoc, length_app, app_nth2 by (cbn; lia). cbn. by replace (length l + 1 - 1 - length l)%nat with 0%nat by lia.
Qed.

Lemma dir_keys_cons p ix rest : dir_keys ((p, ix) :: rest) = ix ++ dir_keys rest.
Proof. done. Qed.

Section loop_specs.
Context `{BackendImpl W} {Ldg : Z -> gmap Z Blob} {I : W -> Prop} {E : Exn -> W -> Prop}.
Context `{!ReadLaws Ldg I E} `{Ripple}.

Lemma back_cursor_cut keys ix limit p :
  0 < limit <= Z.of_nat (length ix) ->
  back_cursor (W := W) (keys ++ cut limit ix) p = mret (mkAccountCursor (nth (Z.to_nat limit - 1) ix 0) p).
Proof.
  intros Hl. unfold back_cursor, cut. destruct (Z.to_nat limit) as [|n] eqn:Hn; [lia|].
  destruct (lookup_lt_is_Some_2 ix n) as [k Hk]; [lia|].
  rewrite (take_S_r ix n k Hk), app_assoc, last_snoc. do 2 f_equal.
  replace (S n - 1)%nat with n by lia. symmetry. by apply nth_lookup_Some.
Qed.

Lemma cut_cursor_here p ix rest limit :
  0 < limit <= Z.of_nat (length ix) ->
  cut_cursor ((p, ix) :: rest) limit = mkAccountCursor (nth (Z.to_nat limit - 1) ix 0) p.
Proof.
  intros Hl. unfold cut_cursor. rewrite dir_keys_cons, length_app. cbn [cursor_at].
  rewrite decide_True, decide_True by lia. done.
Qed.

Lemma cut_cursor_later p ix rest limit :
  Z.of_nat (length ix) < limit ->
  cut_cursor ((p, ix) :: rest) limit = cut_cursor rest (limit - Z.of_nat (length ix)).
Proof.
  intros Hl. unfold cut_cursor. rewrite dir_keys_cons, length_app. cbn [cursor_at].
  rewrite (decide_False (P := (Z.to_nat limit <= length ix)%nat)) by lia.
  replace (Z.to_nat (limit - Z.of_nat (length ix))) with (Z.to_nat limit - length ix)%nat by lia.
  apply decide_ext. lia.
Qed.

(** The limit that is left after one page. *)
Lemma cut_limit_zero limit ix : 0 < limit -> cut_limit limit ix = 0 <-> limit <= Z.of_nat (length ix).
Proof. unfold cut_limit. lia. Qed.

Lemma cut_limit_pos limit ix : Z.of_nat (length ix) < limit -> cut_limit limit ix = limit - Z.of_nat (length ix).
Proof. unfold cut_limit. lia. Qed.

Lemma pages_all_spec fuel root seq p pages keys limit :
  dir_chain (Ldg seq) root p pages -> (length pages <= fuel)%nat -> 0 < limit < 2 ^ 32 ->
  triple I (pages_all fuel root seq (keylet_page root p) p keys limit)
    (fun r w => r = (keys ++ cut limit (dir_keys pages), cut_limit limit (dir_keys pages), cut_cursor pages limit) /\ I w) E.
Proof.
  intros Hc. revert fuel keys limit. induction Hc as [p b sle ix Hb Hp Hi Hn|p q b sle ix rest Hb Hp Hi Hn Hq Hq32 Hc IH];
    intros [|fuel] keys limit Hf Hl; cbn [length] in Hf; try lia; cbn [pages_all].
  all: eapply triple_bind; [apply fetchLedgerObject_spec; by eapply rl_valid|]; intros r;
    apply triple_pre_pure; intros ->; rewrite Hb, Hp; apply triple_ok_bind; rewrite Hi; apply triple_ok_bind;
    rewrite page_take_spec by done; cbv zeta beta iota.
  - rewrite dir_keys_cons. unfold dir_keys. cbn [fmap list_fmap mjoin list_join]. rewrite app_nil_r.
    destruct (Z.eqb_spec (cut_limit limit ix) 0) as [Hz|Hz].
    + apply cut_limit_zero in Hz; [|lia]. rewrite back_cursor_cut by lia. apply triple_ret. intros w Hw.
      rewrite cut_cursor_here by lia. split; [|done]. done.
    + rewrite cut_limit_zero in Hz by lia. rewrite Hn. apply triple_ok_bind. cbn. apply triple_ret. intros w Hw.
      split; [|done]. f_equal. rewrite cut_cursor_later by lia. unfold cut_cursor. cbn. by rewrite decide_False by lia.
  - rewrite dir_keys_cons, cut_app, cut_limit_app by lia.
    destruct (Z.eqb_spec (cut_limit limit ix) 0) as [Hz|Hz].
    + rewrite Hz. apply cut_limit_zero in Hz; [|lia]. rewrite back_cursor_cut by lia. apply triple_ret. intros w Hw.
      rewrite cut_cursor_here by lia. split; [|done]. unfold cut at 3. cbn. rewrite app_nil_r. f_equal.
      f_equal. unfold cut_limit. lia.
    + rewrite cut_limit_zero in Hz by lia. rewrite Hn. apply triple_ok_bind.
      destruct (Z.eqb_spec q 0) as [|_]; [done|]. rewrite u32_small, cut_limit_pos by lia.
      eapply triple_conseq; [apply IH; lia | done | | done].
      intros r w [-> Hw]. split; [|done]. rewrite cut_cursor_later, app_assoc by lia. done.
Qed.

(** The loop from the marker: like the other one, once the marker is passed. *)
Lemma pages_found_spec fuel root marker seq p pages keys limit :
  dir_chain (Ldg seq) root p pages -> (length pages <= fuel)%nat -> 0 < limit < 2 ^ 32 ->
  triple I (pages_after fuel root marker seq (keylet_page root p) p true keys limit)
    (fun r w => r = Done (keys ++ cut limit (dir_keys pages), cut_limit limit (dir_keys pages), cut_cursor pages limit) /\ I w) E.
Proof.
  intros Hc. revert fuel keys limit. induction Hc as [p b sle ix Hb Hp Hi Hn|p q b sle ix rest Hb Hp Hi Hn Hq Hq32 Hc IH];
    intros [|fuel] keys limit Hf Hl; cbn [length] in Hf; try lia; cbn [pages_after].
  all: eapply triple_bind; [apply fetchLedgerObject_spec; by eapply rl_valid|]; intros r;
    apply triple_pre_pure; intros ->; rewrite Hb, Hp; apply triple_ok_bind; rewrite Hi; apply triple_ok_bind;
    rewrite page_after_found, page_take_spec by done; cbn [fst snd]; cbv zeta beta iota.
  - rewrite dir_keys_cons. unfold dir_keys. cbn [fmap list_fmap mjoin list_join]. rewrite app_nil_r.
    destruct (Z.eqb_spec (cut_limit limit ix) 0) as [Hz|Hz].
    + apply cut_limit_zero in Hz; [|lia]. rewrite back_cursor_cut by lia. apply triple_ret. intros w Hw.
      rewrite cut_cursor_here by lia. split; [|done]. done.
    + rewrite cut_limit_zero in Hz by lia. rewrite Hn. apply triple_ok_bind. cbn. apply triple_ret. intros w Hw.
      split; [|done]. do 2 f_equal. rewrite cut_cursor_later by lia. unfold cut_cursor. cbn. by rewrite decide_False by lia.
  - rewrite dir_keys_cons, cut_app, cut_limit_app by lia.
    destruct (Z.eqb_spec (cut_limit limit ix) 0) as [Hz|Hz].
    + rewrite Hz. apply cut_limit_zero in Hz; [|lia]. rewrite back_cursor_cut by lia. apply triple_ret. intros w Hw.
      rewrite cut_cursor_here by lia. split; [|done]. unfold cut at 3. cbn. rewrite app_nil_r. do 2 f_equal.
      f_equal. unfold cut_limit. lia.
    + rewrite cut_limit_zero in Hz by lia. rewrite Hn. apply triple_ok_bind.
      destruct (Z.eqb_spec q 0) as [|_]; [done|]. rewrite u32_small, cut_limit_pos by lia.
      eapply triple_conseq; [apply IH; lia | done | | done].
      intros r w [-> Hw]. split; [|done]. rewrite cut_cursor_later, app_assoc by lia. done.
Qed.

End loop_specs.

(** ** Positions in a directory *)

Lemma dir_keys_app pages1 pages2 : dir_keys (pages1 ++ pages2) = dir_keys pages1 ++ dir_keys pages2.
Proof. unfold dir_keys. by rewrite fmap_app, join_app. Qed.

Lemma cursor_at_app pre pages j :
  (0 < j)%nat -> cursor_at (pre ++ pages) (length (dir_keys pre) + j) = cursor_at pages j.
Proof.
  intros Hj. induction pre as [|[p ix] pre IH]; [done|]. cbn [app cursor_at].
  rewrite dir_keys_cons, length_app, decide_False by lia.
  by replace (length ix + length (dir_keys pre) + j - length ix)%nat with (length (dir_keys pre) + j)%nat by lia.
Qed.

Lemma cursor_at_skip p ix1 ix2 rest j :
  (0 < j)%nat -> cursor_at ((p, ix1 ++ ix2) :: rest) (length ix1 + j) = cursor_at ((p, ix2) :: rest) j.
Proof.
  intros Hj. cbn [cursor_at]. rewrite length_app. destruct (decide (j <= length ix2)%nat) as [Hl|Hl].
  - rewrite decide_True by lia. f_equal. rewrite app_nth2 by lia. f_equal. lia.
  - rewrite decide_False by lia. f_equal. lia.
Qed.

(** The key at a position, with its page and what is around it. *)
Lemma cursor_at_split pages n :
  (0 < n <= length (dir_keys pages))%nat ->
  exists pre p ix1 k ix2 rest, pages = pre ++ (p, ix1 ++ k :: ix2) :: rest /\
    n = (length (dir_keys pre) + (length ix1 + 1))%nat /\ cursor_at pages n = mkAccountCursor k p.
Proof.
  revert n. induction pages as [|[p ix] pages IH]; intros n Hn; [cbn in Hn; lia|].
  rewrite dir_keys_cons, length_app in Hn. cbn [cursor_at]. destruct (decide (n <= length ix)%nat) as [Hl|Hl].
  - destruct (lookup_lt_is_Some_2 ix (n - 1)) as [k Hk]; [lia|].
    exists [], p, (take (n - 1) ix), k, (drop (S (n - 1)) ix), pages.
    rewrite (take_drop_middle ix (n - 1) k Hk). split_and!; [done | |].
    + rewrite length_take. cbn. lia.
    + f_equal. by apply nth_lookup_Some.
  - destruct (IH (n - length ix)%nat) as (pre & p' & ix1 & k & ix2 & rest & -> & Hlen & ->); [lia|].
    exists ((p, ix) :: pre), p', ix1, k, ix2, rest. split_and!; [done| |done].
    rewrite dir_keys_cons, length_app. lia.
Qed.

Lemma dir_keys_drop pre p ix1 k ix2 rest :
  drop (length (dir_keys pre) + (length ix1 + 1)) (dir_keys (pre ++ (p, ix1 ++ k :: ix2) :: rest)) =
  dir_keys ((p, ix2) :: rest).
Proof.
  rewrite dir_keys_app, !dir_keys_cons, drop_app_add, <- app_assoc, drop_app_add. done.
Qed.

(** Where the cut of what is left ends, in terms of the whole directory. *)
Lemma cut_cursor_rest pre p ix1 k ix2 rest limit n :
  0 < limit -> n = (length (dir_keys pre) + (length ix1 + 1))%nat ->
  let pages := pre ++ (p, ix1 ++ k :: ix2) :: rest in
  cut_cursor ((p, ix2) :: rest) limit =
  if decide (n + Z.to_nat limit <= length (dir_keys pages))%nat then cursor_at pages (n + Z.to_nat limit) else zero_cursor.
Proof.
  intros Hl Hn pages. unfold cut_cursor.
  assert (length (dir_keys pages) = n + length (dir_keys ((p, ix2) :: rest)))%nat as Hlen.
  { unfold pages. rewrite dir_keys_app, !dir_keys_cons, !length_app. cbn [length]. lia. }
  rewrite Hlen. destruct (decide (Z.to_nat limit <= _)%nat) as [Hc|Hc].
  - rewrite decide_True by lia. unfold pages.
    replace (n + Z.to_nat limit)%nat with (length (dir_keys pre) + (length (ix1 ++ [k]) + Z.to_nat limit))%nat
      by (rewrite length_app; cbn [length]; lia).
    rewrite cursor_at_app by lia.
    replace (ix1 ++ k :: ix2) with ((ix1 ++ [k]) ++ ix2) by (by rewrite <- app_assoc).
    by rewrite cursor_at_skip by lia.
  - by rewrite decide_False by lia.
Qed.

Section suffix.
Context `{Ripple}.

Lemma dir_chain_head m root p0 p ix rest : dir_chain m root p0 ((p, ix) :: rest) -> p0 = p.
Proof. by inversion 1. Qed.

Lemma dir_chain_suffix m root p0 pre p ix rest :
  dir_chain m root p0 (pre ++ (p, ix) :: rest) -> dir_chain m root p ((p, ix) :: rest).
Proof.
  revert p0. induction pre as [|[p1 ix1] pre IH]; intros p0 Hc; cbn in Hc.
  - by rewrite <- (dir_chain_head _ _ _ _ _ _ Hc) in Hc |- *.
  - inversion Hc as [|? ? ? ? ? ? ? ? ? ? ? ? Hrest]; subst; [by destruct pre | by eapply IH].
Qed.

(** The page numbers of a directory fit into 32 bits. *)
Lemma dir_chain_hints m root p0 pages :
  dir_chain m root p0 pages -> 0 <= p0 < 2 ^ 32 -> Forall (fun p => 0 <= p.1 < 2 ^ 32) pages.
Proof. induction 1; intros Hp; repeat constructor; cbn; auto; lia. Qed.

Lemma cursor_at_ok m root pages n :
  dir_chain m root 0 pages -> 0 ∉ dir_keys pages -> (0 < n <= length (dir_keys pages))%nat ->
  0 <= ac_hint (cursor_at pages n) < 2 ^ 32 /\ isNonZero (cursor_at pages n) = true.
Proof.
  intros Hc Hz Hn. apply dir_chain_hints in Hc; [|lia].
  destruct (cursor_at_split pages n Hn) as (pre & p & ix1 & k & ix2 & rest & Hpages & _ & ->). subst pages.
  apply Forall_app in Hc as [_ Hc]. apply Forall_cons in Hc as [Hp _]. split; [done|].
  rewrite dir_keys_app, dir_keys_cons in Hz. unfold isNonZero. cbn.
  destruct (Z.eqb_spec k 0) as [->|]; [|done]. exfalso. apply Hz. set_solver.
Qed.

End suffix.

(** ** The traversal *)

Section traverse_spec.
Context `{BackendImpl W} {Ldg : Z -> gmap Z Blob} {I : W -> Prop} {E : Exn -> W -> Prop}.
Context `{!ReadLaws Ldg I E} `{Ripple}.
Context {B : Type} (visit : B -> STObject -> Res B) (atOwnedNode : B -> STObject -> B).

(** The key has an object in the ledger, and visiting it is [atOwnedNode]. *)
Definition node_ok (sle_of : uint256 -> STObject) (seq : Z) (k : uint256) : Prop :=
  (exists b, Ldg seq !! k = Some b /\ parseSLE b k = Ok (sle_of k)) /\
  forall acc, visit acc (sle_of k) = Ok (atOwnedNode acc (sle_of k)).

Lemma pages_marker_spec fuel root seq p ix1 k ix2 rest limit :
  dir_chain (Ldg seq) root p ((p, ix1 ++ k :: ix2) :: rest) -> k ∉ ix1 ->
  (S (length rest) <= fuel)%nat -> 0 < limit < 2 ^ 32 ->
  triple I (pages_after fuel root k seq (keylet_page root p) p false [] limit)
    (fun r w => r = Done (cut limit (dir_keys ((p, ix2) :: rest)), cut_limit limit (dir_keys ((p, ix2) :: rest)),
                          cut_cursor ((p, ix2) :: rest) limit) /\ I w) E.
Proof.
  intros Hc Hk Hf Hl. destruct fuel as [|fuel]; [lia|]. cbn [pages_after].
  assert (exists b sle q, Ldg seq !! keylet_page root p = Some b /\ parseSLE b (keylet_page root p) = Ok sle /\
    getFieldV256 sle sfIndexes = Ok (ix1 ++ k :: ix2) /\ getFieldU64 sle sfIndexNext = Ok q /\
    (q = 0 /\ rest = [] \/ q <> 0 /\ 0 <= q < 2 ^ 32 /\ dir_chain (Ldg seq) root q rest))
    as (b & sle & q & Hb & Hp & Hi & Hn & Hq).
  { inversion Hc; subst; eauto 15. }
  eapply triple_bind; [apply fetchLedgerObject_spec; by eapply rl_valid|]. intros r. apply triple_pre_pure. intros ->.
  rewrite Hb, Hp. apply triple_ok_bind. rewrite Hi. apply triple_ok_bind.
  rewrite page_after_marker, page_after_found, page_take_spec by done. cbn [fst snd]. cbv zeta beta iota.
  rewrite dir_keys_cons, cut_app, cut_limit_app by lia.
  destruct (Z.eqb_spec (cut_limit limit ix2) 0) as [Hz|Hz].
  - rewrite Hz. apply cut_limit_zero in Hz; [|lia]. rewrite (back_cursor_cut []) by lia. apply triple_ret. intros w Hw.
    rewrite cut_cursor_here by lia. split; [|done]. unfold cut at 3. cbn. rewrite app_nil_r. do 2 f_equal.
    f_equal. unfold cut_limit. lia.
  - rewrite cut_limit_zero in Hz by lia. rewrite Hn. apply triple_ok_bind.
    destruct Hq as [[-> ->]|(Hq & Hq32 & Hrest)].
    + cbn [Z.eqb]. apply triple_ret. intros w Hw. split; [|done]. unfold cut at 3, dir_keys. cbn.
      rewrite take_nil, app_nil_r. do 2 f_equal; [f_equal; unfold cut_limit; cbn; lia|].
      rewrite cut_cursor_later by lia. unfold cut_cursor. cbn. by rewrite decide_False by lia.
    + destruct (Z.eqb_spec q 0) as [|_]; [done|]. rewrite u32_small, cut_limit_pos by lia.
      eapply triple_conseq; [apply pages_found_spec; [exact Hrest | lia | lia] | done | | done].
      intros r w [-> Hw]. split; [|done]. by rewrite cut_cursor_later by lia.
Qed.

(** Reading the objects of keys that have one. *)
Lemma read_nodes_spec (sle_of : uint256 -> STObject) keys seq limit cursor acc :
  (forall k, k ∈ keys -> node_ok sle_of seq k) ->
  triple I (read_nodes visit keys seq limit cursor acc)
    (fun r w => r = (if limit =? 0 then cursor else zero_cursor, foldl atOwnedNode acc (sle_of <$> keys)) /\ I w) E.
Proof.
  intros Hk. unfold read_nodes. eapply triple_bind.
  { apply fetchLedgerObjects_reads, Forall_forall. intros k [(b & Hb & _) _]%Hk. by eapply rl_valid. }
  intros objects. apply triple_pre_pure. intros ->.
  assert (forall acc, visit_nodes visit keys ((fun k => default [] (Ldg seq !! k)) <$> keys) acc =
    Ok (foldl atOwnedNode acc (sle_of <$> keys))) as Hv.
  { clear acc. induction keys as [|k keys IH]; intros acc; [done|]. cbn.
    destruct (Hk k) as [(b & -> & Hp) Hv]; [by left|]. cbn. rewrite Hp. cbn. rewrite Hv. cbn. apply IH. intros j Hj. apply Hk. by right. }
  rewrite Hv. apply triple_ok_bind, triple_ret. done.
Qed.

(** The end of a traversal: a cut of keys is read and the cursor chosen. *)
Lemma finish_spec (sle_of : uint256 -> STObject) ks seq limit cursor acc :
  0 < limit -> (forall k, k ∈ ks -> node_ok sle_of seq k) ->
  triple I (x ← read_nodes visit (cut limit ks) seq (cut_limit limit ks) cursor acc; mret (Done (A := _) x))
    (fun r w => r = Done (if decide (Z.to_nat limit <= length ks)%nat then cursor else zero_cursor,
                          foldl atOwnedNode acc (sle_of <$> cut limit ks)) /\ I w) E.
Proof.
  intros Hl Hobj. eapply triple_bind.
  { apply (read_nodes_spec sle_of). intros k (i & Hk & _)%elem_of_take. apply Hobj. by eapply list_elem_of_lookup_2. }
  intros r. apply triple_pre_pure. intros ->. apply triple_ret. intros w Hw. split; [|done]. do 2 f_equal.
  unfold cut_limit. destruct (Z.eqb_spec (Z.max 0 (limit - Z.of_nat (length ks))) 0);
    [by rewrite decide_True by lia | by rewrite decide_False by lia].
Qed.

(** Paging through a directory. Let the directory at [root] have the given
    pages, with keys that are not zero and not repeated, each with an object in
    the ledger. A traversal from the start ([n = 0]) or from the cursor that
    stands for the first [n] keys visits the objects of the next [limit] keys in
    order and ends; its cursor stands for the keys seen so far when the limit was
    reached, and is zero when the directory ended before. *)
Lemma traverse_pages (sle_of : uint256 -> STObject) (fuel : nat) (root seq limit : Z)
    (pages : list (Z * list uint256)) (n : nat) (acc : B) :
  keylet_page root 0 = root ->
  dir_chain (Ldg seq) root 0 pages -> (length pages <= fuel)%nat ->
  NoDup (dir_keys pages) -> 0 ∉ dir_keys pages ->
  (forall k, k ∈ dir_keys pages -> node_ok sle_of seq k) ->
  0 < limit < 2 ^ 32 -> (n <= length (dir_keys pages))%nat ->
  let cursor := if decide (n = 0%nat) then zero_cursor else cursor_at pages n in
  triple I (traverseOwnedNodes visit fuel root (ac_index cursor) (ac_hint cursor) seq limit acc)
    (fun r w => r = Done (if decide (n + Z.to_nat limit <= length (dir_keys pages))%nat
                          then cursor_at pages (n + Z.to_nat limit) else zero_cursor,
                          foldl atOwnedNode acc (sle_of <$> cut limit (drop n (dir_keys pages)))) /\ I w) E.
Proof.
  intros Hroot Hc Hf Hnd Hz Hobj Hl Hn cursor. unfold traverseOwnedNodes.
  unfold cursor. destruct (decide (n = 0%nat)) as [->|Hn0].
  - cbn [ac_index ac_hint zero_cursor Z.eqb negb]. eapply triple_bind.
    { rewrite <- Hroot at 2. by apply pages_all_spec. }
    intros r. apply triple_pre_pure. intros ->. cbn [app]. rewrite drop_0, Nat.add_0_l.
    eapply triple_conseq; [apply (finish_spec sle_of); [lia | exact Hobj] | done | | done].
    intros r w [-> Hw]. split; [|done]. do 2 f_equal. unfold cut_cursor. by destruct (decide _).
  - destruct (cursor_at_split pages n) as (pre & p & ix1 & k & ix2 & rest & Hpages & Hpos & Hcur); [lia|].
    rewrite Hcur. cbn [ac_index ac_hint].
    assert (k ∈ dir_keys pages) as Hkin.
    { rewrite Hpages, dir_keys_app, dir_keys_cons. set_solver. }
    destruct (Z.eqb_spec k 0) as [->|Hk0]; [done|]. cbn [negb].
    assert (dir_chain (Ldg seq) root p ((p, ix1 ++ k :: ix2) :: rest)) as Hchain.
    { rewrite Hpages in Hc. by eapply dir_chain_suffix. }
    assert (exists b sle, Ldg seq !! keylet_page root p = Some b /\ parseSLE b (keylet_page root p) = Ok sle /\
      getFieldV256 sle sfIndexes = Ok (ix1 ++ k :: ix2)) as (b & sle & Hb & Hp & Hi) by (inversion Hchain; subst; eauto).
    eapply triple_bind; [apply fetchLedgerObject_spec; by eapply rl_valid|]. intros r. apply triple_pre_pure. intros ->.
    rewrite Hb, Hp. apply triple_ok_bind. rewrite Hi. apply triple_ok_bind.
    rewrite bool_decide_true by set_solver. cbn [negb]. eapply triple_bind.
    { apply (pages_marker_spec fuel root seq p ix1 k ix2 rest limit); [exact Hchain | | | done].
      - rewrite Hpages, dir_keys_app, dir_keys_cons in Hnd.
        apply NoDup_app in Hnd as (_ & _ & Hnd). rewrite <- app_assoc in Hnd. apply NoDup_app in Hnd as (_ & Hnd & _).
        intros Hin. apply (Hnd k Hin). by left.
      - rewrite Hpages, length_app in Hf. cbn in Hf. lia. }
    assert (drop n (dir_keys pages) = dir_keys ((p, ix2) :: rest)) as Hdrop by (rewrite Hpages, Hpos; apply dir_keys_drop).
    intros r. apply triple_pre_pure. intros ->. rewrite Hdrop.
    eapply triple_conseq; [apply (finish_spec sle_of); [lia|] | done | | done].
    { intros j Hj. apply Hobj. rewrite <- Hdrop in Hj. apply list_elem_of_lookup in Hj as (i & Hj).
      rewrite lookup_drop in Hj. by eapply list_elem_of_lookup_2. }
    intros r w [-> Hw]. split; [|done]. do 2 f_equal.
    rewrite (cut_cursor_rest pre p ix1 k ix2 rest limit n), <- Hpages by (done || lia).
    apply (f_equal length) in Hdrop. rewrite length_drop in Hdrop.
    destruct (decide (Z.to_nat limit <= _)%nat); [done | by rewrite decide_False by lia].
Qed.

End traverse_spec.

(** ** The text of a cursor *)

Fixpoint no_comma (s : string) : bool :=
  match s with EmptyString => true | String a s' => negb (bool_decide (a = comma)) && no_comma s' end.

(** What the texts of rippled and the standard library are relied on for. *)
Class CursorTextLaws `{CursorText} `{RippleStrings} `{LexicalCast} := {
  hex_parse : forall x, parseHex (strHex x) = Some x;
  hex_text : forall x, no_comma (strHex x) = true /\ strHex x <> EmptyString;
  dec_parse : forall n, 0 <= n < 2 ^ 32 -> lexical_u64 (to_string n) = Some n;
  dec_text : forall n, no_comma (to_string n) = true /\ to_string n <> EmptyString
}.

Lemma until_comma_app s t : no_comma s = true -> until_comma (s +:+ "," +:+ t) = (s, t).
Proof.
  induction s as [|a s IH]; cbn -[decide]; [done|]. rewrite andb_true_iff, negb_true_iff, bool_decide_eq_false.
  intros [Ha Hs]. change (String a s +:+ "," +:+ t) with (String a (s +:+ "," +:+ t)). cbn -[decide].
  by rewrite decide_False, IH by done.
Qed.

Lemma until_comma_none s : no_comma s = true -> until_comma s = (s, EmptyString).
Proof.
  induction s as [|a s IH]; cbn -[decide]; [done|]. rewrite andb_true_iff, negb_true_iff, bool_decide_eq_false.
  intros [Ha Hs]. rewrite decide_False by done. by rewrite IH.
Qed.

Lemma getline_nonempty s : s <> EmptyString -> getline s = Some (until_comma s).
Proof. by destruct s. Qed.

Lemma app_nonempty s t : s <> EmptyString -> s +:+ t <> EmptyString.
Proof. by destruct s. Qed.

Section cursor_text.
Context `{CursorTextLaws}.

Lemma parse_toString c : 0 <= ac_hint c < 2 ^ 32 -> parseAccountCursor (Some (AccountCursor_toString c)) = Some c.
Proof.
  intros Hc. unfold parseAccountCursor, AccountCursor_toString.
  destruct (hex_text (ac_index c)) as [Hx1 Hx2], (dec_text (ac_hint c)) as [Hd1 Hd2].
  rewrite getline_nonempty by by apply app_nonempty. rewrite until_comma_app by done. cbn [mbind option_bind].
  rewrite hex_parse. cbn [mbind option_bind]. rewrite getline_nonempty, until_comma_none by done. cbn [mbind option_bind].
  rewrite dec_parse by done. cbn [mbind option_bind]. rewrite u32_small by lia. by destruct c.
Qed.

(** The text of a cursor. A cursor that is written out, sent to a client
    and sent back is read as the same cursor, so that a traversal from the text
    is the traversal from the cursor; a text with no comma, or with nothing after
    it, is no cursor. *)
Theorem cursor_roundtrip `{BackendImpl W} `{Ripple} `{RippleKeylets} {B} (f : B -> STObject -> Res B)
    (c : AccountCursor) (fuel : nat) (a : AccountID) (sequence limit : Z) (acc : B) (s : string) :
  0 <= ac_hint c < 2 ^ 32 -> no_comma s = true ->
  parseAccountCursor (Some (AccountCursor_toString c)) = Some c /\
  ngTraverseOwnedNodes f fuel a sequence limit (Some (AccountCursor_toString c)) acc =
    traverseOwnedNodes f fuel (keylet_ownerDir a) (ac_index c) (ac_hint c) sequence limit acc /\
  parseAccountCursor (Some s) = None /\ parseAccountCursor (Some (s +:+ ",")) = None.
Proof.
  intros Hc Hs. split_and!.
  - by apply parse_toString.
  - unfold ngTraverseOwnedNodes. by rewrite parse_toString.
  - unfold parseAccountCursor. destruct (decide (s = EmptyString)) as [->|Hne]; [done|].
    rewrite getline_nonempty, until_comma_none by done. cbn. by destruct (parseHex s).
  - unfold parseAccountCursor. rewrite getline_nonempty by (destruct s; done).
    change (s +:+ ",") with (s +:+ "," +:+ ""). rewrite until_comma_app by done. cbn. by destruct (parseHex s).
Qed.

End cursor_text.

(** ** A directory to walk *)

(** Two pages with keys 10, 20 and 30; the objects of the keys name them. *)
Definition dir_page (next : Z) (keys : list Z) : TreeObj := mkObj sfOwner
  [(sfIndexes, VHashes keys); (sfIndexNext, VNum next)].
Definition node_obj (k : Z) : TreeObj := mkObj sfAccount [(sfLedgerIndex, VNum k)].

Definition dir_ripple : Ripple :=
  TreeRipple (fun _ => Throw (LibraryError "")) (fun _ _ _ => Throw (LibraryError ""))
    (fun b k => match b with
                | [0] => Ok (dir_page 1 [10; 20])
                | [1] => Ok (dir_page 0 [30])
                | [_] => Ok (node_obj k)
                | _ => Throw (LibraryError "")
                end).

(** The root is 100, its page 1 is 101; the objects are there from the start. *)
Definition dir_ledger : gmap Z Blob := {[100 := [0]; 101 := [1]; 10 := [2]; 20 := [2]; 30 := [2]]}.

Lemma dir_ledger_cases (P : Z -> Blob -> Prop) :
  P 100 [0] -> P 101 [1] -> P 10 [2] -> P 20 [2] -> P 30 [2] -> forall k b, dir_ledger !! k = Some b -> P k b.
Proof.
  intros H1 H2 H3 H4 H5 k b Hk. unfold dir_ledger in Hk.
  repeat (apply lookup_insert_Some in Hk as [[<- <-]|[_ Hk]]; [done|]). by apply lookup_singleton_Some in Hk as [<- <-].
Qed.

Definition dir_history : history :=
  mkHistory (fun _ => dir_ledger) 1 ltac:(done)
    (fun s => dir_ledger_cases (fun _ b => b <> []) ltac:(done) ltac:(done) ltac:(done) ltac:(done) ltac:(done))
    (fun s => dir_ledger_cases (fun k _ => valid_key k) ltac:(vm_compute; done) ltac:(vm_compute; done)
       ltac:(vm_compute; done) ltac:(vm_compute; done) ltac:(vm_compute; done)).

Definition dir_world : MemWorld := mkMemWorld SimpleCache_init None.

Definition dir_pages : list (Z * list Z) := [(0, [10; 20]); (1, [30])].

Lemma dir_pages_chain : @dir_chain dir_ripple dir_ledger 100 0 dir_pages.
Proof.
  eapply (@chain_next dir_ripple _ 100 0 1); [reflexivity..| done | done |].
  eapply (@chain_last dir_ripple _ 100 1); reflexivity.
Qed.

(** The second page of a walk with one key a page. *)
Lemma traverse_pages_witness :
  exists w, @traverseOwnedNodes MemWorld (MemBackend dir_history) dir_ripple _
    (fun acc sle => Ok (acc ++ [sle])) 2 100 10 0 1 1 [] dir_world = (Ok (Done (mkAccountCursor 20 0, [node_obj 20])), w).
Proof.
  destruct (triple_run _ _ _ _
    (@traverse_pages MemWorld (MemBackend dir_history) _ _ _ (MemLaws dir_history) dir_ripple _
       (fun acc sle => Ok (acc ++ [sle])) (fun acc sle => acc ++ [sle]) node_obj 2 100 1 1 dir_pages 1 []
       ltac:(done) dir_pages_chain ltac:(vm_compute; lia) ltac:(apply (bool_decide_unpack _); by vm_compute)
       ltac:(apply (bool_decide_unpack _); by vm_compute)
       ltac:(intros k Hk; vm_compute in Hk; repeat (apply elem_of_cons in Hk as [->|Hk]; [split; [by eexists | done]|]);
             by apply not_elem_of_nil in Hk)
       ltac:(lia) ltac:(vm_compute; lia))
    (ex_intro _ ∅ (rtc_refl _ _) : cache_reachable dir_history dir_world)) as (r & w & Hrun & -> & _).
  exists w. exact Hrun.
Defined.

(** Numbers as texts, for an instance: binary digits, low end first. *)
Fixpoint pos_text (p : positive) : string :=
  match p with
  | xH => String "e"%char EmptyString
  | xO p => String "0"%char (pos_text p)
  | xI p => String "1"%char (pos_text p)
  end.

Fixpoint pos_read (s : string) : option positive :=
  match s with
  | String "e"%char EmptyString => Some xH
  | String "0"%char s' => xO <$> pos_read s'
  | String "1"%char s' => xI <$> pos_read s'
  | _ => None
  end.

Definition z_text (z : Z) : string :=
  match z with Z0 => "z" | Zpos p => pos_text p | Zneg p => String "m"%char (pos_text p) end.

Definition z_read (s : string) : option Z :=
  match s with
  | String "z"%char EmptyString => Some 0
  | String "m"%char s' => Zneg <$> pos_read s'
  | _ => Zpos <$> pos_read s
  end.

Lemma pos_read_text p : pos_read (pos_text p) = Some p.
Proof. induction p as [p IH|p IH|]; cbn; [by rewrite IH..|done]. Qed.

Lemma z_read_text z : z_read (z_text z) = Some z.
Proof.
  destruct z as [|p|p]; cbn; [done| |by rewrite pos_read_text].
  pose proof (pos_read_text p) as Hp. destruct p; cbn in *; [by rewrite Hp..|done].
Qed.

Lemma pos_text_ok p : no_comma (pos_text p) = true /\ pos_text p <> EmptyString.
Proof. split; [induction p; done | by destruct p]. Qed.

Lemma z_text_ok z : no_comma (z_text z) = true /\ z_text z <> EmptyString.
Proof. destruct z as [|p|p]; [done | apply pos_text_ok |]. split; [apply (pos_text_ok p) | done]. Qed.

#[export] Instance sample_text : CursorText := { strHex := z_text; to_string := z_text }.
#[export] Instance sample_strings : RippleStrings := {
  strUnHex := fun _ => None; publicKeyType := fun _ => false; parseBase58_PublicKey := fun _ => None;
  calcAccountID := fun _ => 0; parseBase58_AccountID := z_read; parseHex := z_read;
  to_currency := z_read; to_issuer := z_read; noAccount := 1
}.
#[export] Instance sample_lexical : LexicalCast := { lexical_u32 := z_read; lexical_u64 := z_read }.
#[export] Instance sample_text_laws : CursorTextLaws.
Proof. split; intros; [apply z_read_text | apply z_text_ok | apply z_read_text | apply z_text_ok]. Qed.

#[export] Instance sample_keylets : RippleKeylets := { keylet_account := fun a => a; keylet_ownerDir := fun a => a + 99 }.

Lemma cursor_roundtrip_witness :
  parseAccountCursor (Some (AccountCursor_toString (mkAccountCursor 20 1))) = Some (mkAccountCursor 20 1) /\
  parseAccountCursor (Some "10") = None.
Proof.
  destruct (@cursor_roundtrip _ _ _ _ MemWorld (MemBackend dir_history) dir_ripple _ _ (fun acc sle => Ok (acc ++ [sle]))
    (mkAccountCursor 20 1) 2 1 1 1 [] "10" ltac:(cbn; lia) ltac:(done)) as (H1 & _ & H2 & _).
  split; [exact H1 | exact H2].
Defined.
