(* ===== verification/Rpc.v ===== *)
(** The request handling of the server ([rpc/RPC.cpp], [rpc/Counters.cpp],
    [webserver/WsBase.h], [webserver/HttpBase.h]).

    From the text of a request to the one object that answers it: the context is
    made, the request is forwarded to rippled or given to its handler, the
    exceptions of the handler become errors, the counters and the rate limiter
    are told. The handlers themselves, the forwarding and the clock are the
    server's (class [RpcServer]).

    [ws_answer]: every websocket request is answered, with what. [getLimit_bounds]:
    limits. [counters_balance]: requests of both kinds are handled without an
    exception and the counters add up. *)

From stdpp Require Import base list gmap strings.
From Stdlib Require Import ZArith Lia Ascii.
From S2P Require Import Prelude Types DosGuard Json Errors Requests.

#[local] Open Scope string_scope.
Open Scope Z_scope.

(** ** Contexts *)

Record Context := mkContext
  { ctx_method : string; ctx_params : JsonObject; ctx_session : option nat; ctx_range : LedgerRange; ctx_clientIp : string }.

Definition make_WsContext (request : JsonObject) (session : nat) (rng : LedgerRange) (clientIp : string)
  : option Context :=
  let commandValue :=
    if negb (contains request "command") && contains request "method" then default JNull (obj_find "method" request)
    else if contains request "command" && negb (contains request "method") then
      default JNull (obj_find "command" request)
    else JNull in
  match commandValue with
  | JString command => Some (mkContext (c_str command) request (Some session) rng clientIp)
  | _ => None
  end.

(** [request.at("params")] throws when there are none; the caller has put some. *)
Definition make_HttpContext (request : JsonObject) (rng : LedgerRange) (clientIp : string) : Res (option Context) :=
  match obj_find "method" request with
  | Some (JString method) =>
      let command := c_str method in
      if bool_decide (command = "subscribe") || bool_decide (command = "unsubscribe") then Ok None
      else
        params ← at_ request "params";
        match params with
        | JArray [JObject p] => Ok (Some (mkContext command p None rng clientIp))
        | _ => Ok None
        end
  | _ => Ok None
  end.

(** ** The table of handlers *)

Definition LimitRange : Type := Z * Z * Z.

Record Handler_entry := mkHandler { h_method : string; h_limit : option LimitRange; h_isClioOnly : bool }.

Definition handlerTable : list Handler_entry :=
  [mkHandler "account_channels" (Some (10, 50, 256)) false; mkHandler "account_currencies" None false;
   mkHandler "account_info" None false; mkHandler "account_lines" (Some (10, 50, 256)) false;
   mkHandler "account_nfts" (Some (1, 5, 10)) false; mkHandler "account_objects" (Some (10, 50, 256)) false;
   mkHandler "account_offers" (Some (10, 50, 256)) false; mkHandler "account_tx" (Some (1, 50, 100)) false;
   mkHandler "gateway_balances" None false; mkHandler "noripple_check" (Some (1, 300, 500)) false;
   mkHandler "book_changes" None false; mkHandler "book_offers" (Some (1, 50, 100)) false;
   mkHandler "ledger" None false; mkHandler "ledger_data" (Some (1, 100, 2048)) false;
   mkHandler "nft_buy_offers" (Some (1, 50, 100)) false; mkHandler "nft_history" (Some (1, 50, 100)) true;
   mkHandler "nft_info" None true; mkHandler "nft_sell_offers" (Some (1, 50, 100)) false;
   mkHandler "ledger_entry" None false; mkHandler "ledger_range" None false; mkHandler "subscribe" None false;
   mkHandler "server_info" None false; mkHandler "unsubscribe" None false; mkHandler "tx" None false;
   mkHandler "transaction_entry" None false; mkHandler "random" None false].

Definition table_find (method : string) : option Handler_entry :=
  snd <$> list_find (fun h => h_method h = method) handlerTable.

Definition table_contains (method : string) : bool := bool_decide (is_Some (table_find method)).

Definition getLimitRange (command : string) : option LimitRange := h ← table_find command; h_limit h.

Definition isClioOnly (method : string) : bool :=
  match table_find method with Some h => h_isClioOnly h | None => false end.

Definition forwardCommands : list string :=
  ["submit"; "submit_multisigned"; "fee"; "ledger_closed"; "ledger_current"; "ripple_path_find"; "manifest";
   "channel_authorize"; "channel_verify"].

Definition validHandler (method : string) : bool :=
  table_contains method || bool_decide (method ∈ forwardCommands).

(** [boost::iequals], for letters of ASCII. *)
Definition to_lower (a : ascii) : ascii :=
  let n := N_of_ascii a in if (65 <=? n)%N && (n <=? 90)%N then ascii_of_N (n + 32) else a.

Fixpoint iequals (s t : string) : bool :=
  match s, t with
  | EmptyString, EmptyString => true
  | String a s', String b t' => bool_decide (to_lower a = to_lower b) && iequals s' t'
  | _, _ => false
  end.

Definition shouldSuppressValidatedFlag (ctx : Context) : bool :=
  iequals (ctx_method ctx) "subscribe" || iequals (ctx_method ctx) "unsubscribe".

(** [int input = as_int64()] keeps 32 bits. *)
Definition getLimit (ctx : Context) : Outcome Z :=
  if negb (table_contains (ctx_method ctx)) then Failed (Status_code (Rippled rpcUNKNOWN_COMMAND))
  else
    match getLimitRange (ctx_method ctx) with
    | None => Failed (Status_message (Rippled rpcINVALID_PARAMS) "rpcDoesNotRequireLimit")
    | Some (lo, def, hi) =>
        match obj_find "limit" (ctx_params ctx) with
        | Some (JInt64 z) =>
            let input := i32 z in
            if input <=? 0 then
              Failed (Status_message (Rippled rpcINVALID_PARAMS) "Invalid field 'limit', not unsigned integer.")
            else Done (Z.max lo (Z.min (u32 input) hi))
        | Some _ => Failed (Status_message (Rippled rpcINVALID_PARAMS) "Invalid field 'limit', not unsigned integer.")
        | None => Done def
        end
    end.

(** ** Counters *)

Record MethodInfo := mkMethodInfo
  { mi_started : Z; mi_finished : Z; mi_errored : Z; mi_forwarded : Z; mi_duration : Z }.

Definition MethodInfo_default : MethodInfo := mkMethodInfo 0 0 0 0 0.

Abbreviation Counters := (gmap string MethodInfo).

(** [initializeCounter] makes the entry of a method that has none; the updates
    are atomic additions. *)
Definition initializeCounter (method : string) (c : Counters) : Counters :=
  match c !! method with Some _ => c | None => <[method := MethodInfo_default]> c end.

Definition counters_update (method : string) (f : MethodInfo -> MethodInfo) (c : Counters) : Counters :=
  if negb (validHandler method) then c
  else let c' := initializeCounter method c in <[method := f (default MethodInfo_default (c' !! method))]> c'.

Definition rpcErrored (method : string) (c : Counters) : Counters :=
  counters_update method (fun i =>
    mkMethodInfo (u64 (mi_started i + 1)) (mi_finished i) (u64 (mi_errored i + 1)) (mi_forwarded i) (mi_duration i)) c.

Definition rpcComplete (method : string) (rpcDuration : Z) (c : Counters) : Counters :=
  counters_update method (fun i =>
    mkMethodInfo (u64 (mi_started i + 1)) (u64 (mi_finished i + 1)) (mi_errored i) (mi_forwarded i)
      (u64 (mi_duration i + rpcDuration))) c.

Definition rpcForwarded (method : string) (c : Counters) : Counters :=
  counters_update method (fun i =>
    mkMethodInfo (mi_started i) (mi_finished i) (mi_errored i) (u64 (mi_forwarded i + 1)) (mi_duration i)) c.

(** ** The server *)

Class RpcServer (W : Type) := {
  srv_counters : W -> Counters;
  set_srv_counters : Counters -> W -> W;
  srv_guard : W -> DOSGuard;
  set_srv_guard : DOSGuard -> W -> W;
  srv_range : W -> option LedgerRange;
  forwardToRippled : JsonObject -> string -> M W (option JsonObject);
  isTooBusy : M W bool;
  lastCloseAgeSeconds : M W Z;
  elapsed : M W Z;
  handler : string -> Context -> M W (Outcome JsonObject);
  serialize : JsonObject -> string
}.

Section server.
Context `{RpcServer W} `{RippledErrors}.

Definition upd_counters (f : Counters -> Counters) : M W unit :=
  modify (fun w => set_srv_counters (f (srv_counters w)) w).

(** [dosGuard_.add(ip, size)] *)
Definition guard_add (ip : string) (size : Z) : M W bool := fun w =>
  let '(ok, g) := DOSGuard_add ip size (srv_guard w) in (Ok ok, set_srv_guard g w).

Definition shouldForwardToRippled (ctx : Context) : Res bool :=
  let request := ctx_params ctx in
  if isClioOnly (ctx_method ctx) then Ok false
  else if bool_decide (ctx_method ctx ∈ forwardCommands) then Ok true
  else if specifiesCurrentOrClosedLedger request then Ok true
  else if bool_decide (ctx_method ctx = "account_info") && contains request "queue" then
    v ← at_ request "queue"; as_bool v
  else Ok false.

(** What the catch clauses make of a handler's exception. *)
Definition exception_status (e : Exn) : Status :=
  match e with
  | InvalidParamsError msg => Status_message (Rippled rpcINVALID_PARAMS) msg
  | AccountNotFoundError account => Status_message (Rippled rpcACT_NOT_FOUND) account
  | DatabaseTimeout => Status_code (Rippled rpcTOO_BUSY)
  | _ => Status_code (Rippled rpcINTERNAL)
  end.

Definition run_handler (ctx : Context) : M W (Outcome JsonObject) := fun w =>
  match handler (ctx_method ctx) ctx w with
  | (Ok (Done object), w') =>
      (Ok (Done (if shouldSuppressValidatedFlag ctx then object else obj_set "validated" (JBool true) object)), w')
  | (Ok (Failed s), w') => (Ok (Failed s), w')
  | (Throw e, w') => (Ok (Failed (exception_status e)), w')
  | (NoFuel, w') => (NoFuel, w')
  end.

Definition buildResponse (ctx : Context) : M W (Outcome JsonObject) :=
  forward ← lift_res (shouldForwardToRippled ctx);
  if (forward : bool) then
    let toForward := obj_set "command" (JString (ctx_method ctx)) (ctx_params ctx) in
    res ← forwardToRippled toForward (ctx_clientIp ctx);
    upd_counters (rpcForwarded (ctx_method ctx)) ≫= fun _ =>
    match res with
    | None => mret (Failed (Status_code (Rippled rpcFAILED_TO_FORWARD)))
    | Some r => mret (Done r)
    end
  else if bool_decide (ctx_method ctx = "ping") then mret (Done [])
  else
    busy ← isTooBusy;
    if (busy : bool) then mret (Failed (Status_code (Rippled rpcTOO_BUSY)))
    else if negb (table_contains (ctx_method ctx)) then mret (Failed (Status_code (Rippled rpcUNKNOWN_COMMAND)))
    else run_handler ctx.

(** ** Answering *)

Definition getDefaultWsResponse (id : json) : JsonObject :=
  let resp := if is_null id then [] else obj_set "id" id [] in
  obj_set "type" (JString "response") (obj_set "status" (JString "success") resp).

(** An error with the id and the request it answers. *)
Definition ws_error (e : JsonObject) (id : json) (request : JsonObject) : JsonObject :=
  obj_set "request" (JObject request) (if is_null id then e else obj_set "id" id e).

(** The warnings; the size of the answer is counted, and a client that is over
    its limit is told. *)
Definition finish_response (ip : string) (response : JsonObject) : M W JsonObject :=
  clio ← lift_res (makeWarning warnRPC_CLIO);
  lastCloseAge ← lastCloseAgeSeconds;
  outdated ← lift_res (makeWarning warnRPC_OUTDATED);
  let warnings := JObject clio :: (if lastCloseAge >=? 60 then [JObject outdated] else []) in
  let response := obj_set "warnings" (JArray warnings) response in
  ok ← guard_add ip (Z.of_nat (String.length (serialize response)));
  if (ok : bool) then mret response
  else
    load ← lift_res (makeWarning warnRPC_RATE_LIMIT);
    mret (obj_set "warnings" (JArray (warnings ++ [JObject load])) (obj_set "warning" (JString "load") response)).

(** The body of the try block of the websocket's [handle_request]: [inl] an
    error that is sent at once, [inr] a response to be finished. *)
Definition ws_try (request : JsonObject) (id : json) (session : nat) (ip : string) : M W (JsonObject + JsonObject) :=
  rng ← gets srv_range;
  match rng with
  | None => mret (inl (ws_error (makeError_rippled rpcNOT_READY None None) id request))
  | Some rng =>
      match make_WsContext request session rng ip with
      | None => mret (inl (ws_error (makeError_rippled rpcBAD_SYNTAX None None) id request))
      | Some ctx =>
          v ← buildResponse ctx;
          us ← elapsed;
          match v with
          | Failed status =>
              upd_counters (rpcErrored (ctx_method ctx)) ≫= fun _ =>
              error ← lift_res (makeError status);
              mret (inr (ws_error error id request))
          | Done result =>
              upd_counters (rpcComplete (ctx_method ctx) us) ≫= fun _ =>
              let isForwarded := match obj_find "forwarded" result with Some (JBool b) => b | _ => false end in
              let response := getDefaultWsResponse id in
              mret (inr (if isForwarded then foldl (fun r kv => obj_set kv.1 kv.2 r) response result
                         else obj_set "result" (JObject result) response))
          end
      end
  end.

(** The object that is sent; nothing for a session without an address. *)
Definition ws_handle_request (request : JsonObject) (id : json) (session : nat) (ip : option string)
  : M W (option JsonObject) :=
  match ip with
  | None => mret None
  | Some ip =>
      r ← catch_all (ws_try request id session ip)
            (mret (inl (ws_error (makeError_rippled rpcINTERNAL None None) id request)));
      match r with
      | inl e => mret (Some e)
      | inr response => response' ← finish_response ip response; mret (Some response')
      end
  end.

End server.

(** ** The HTTP side *)

(** [json::parse], and whether an exception is a [std::runtime_error]. *)
Class RequestText := {
  parse_json : string -> Res json;
  is_runtime_error : Exn -> bool
}.

Inductive HttpStatus := http_ok | http_bad_request | http_internal_server_error | http_service_unavailable.

Inductive HttpVerb := http_get | http_post | http_other.

(** A page of text, or a JSON object. *)
Inductive HttpBody := HttpText (text : string) | HttpJson (object : JsonObject).

Record HttpRequest := mkHttpRequest { req_method : HttpVerb; req_body : string; req_upgrade : bool }.

Section http.
Context `{RpcServer W} `{RippledErrors} `{RequestText}.

(** The request as an object, with parameters. *)
Definition http_parse (body : string) : Res JsonObject :=
  v ← parse_json body;
  request ← as_object v;
  Ok (if contains request "params" then request else obj_set "params" (JArray [JObject []]) request).

Definition http_try (defaultResponse : string) (req : HttpRequest) (ip : string) : M W (HttpStatus * HttpBody) :=
  match http_parse (req_body req) with
  | NoFuel => no_fuel
  | Throw e =>
      if is_runtime_error e then mret (http_ok, HttpJson (makeError_rippled rpcBAD_SYNTAX None None)) else throw e
  | Ok request =>
      rng ← gets srv_range;
      match rng with
      | None => mret (http_ok, HttpJson (makeError_rippled rpcNOT_READY None None))
      | Some rng =>
          context ← lift_res (make_HttpContext request rng ip);
          match context with
          | None => mret (http_ok, HttpJson (makeError_rippled rpcBAD_SYNTAX None None))
          | Some ctx =>
              v ← buildResponse ctx;
              us ← elapsed;
              response ← match v with
                         | Failed status =>
                             upd_counters (rpcErrored (ctx_method ctx)) ≫= fun _ =>
                             error ← lift_res (makeError status);
                             mret (obj_set "result" (JObject (obj_set "request" (JObject request) error)) [])
                         | Done object =>
                             upd_counters (rpcComplete (ctx_method ctx) us) ≫= fun _ =>
                             let result := match obj_find "result" object with Some (JObject r) => r | _ => object end in
                             let result := if contains result "error" then result
                                           else obj_set "status" (JString "success") result in
                             mret (obj_set "result" (JObject result) [])
                         end;
              response' ← finish_response ip response;
              mret (http_ok, HttpJson response')
          end
      end
  end.

Definition http_handle_request (defaultResponse : string) (req : HttpRequest) (ip : string)
  : M W (HttpStatus * HttpBody) :=
  match req_method req with
  | http_get =>
      if bool_decide (req_body req = "") then mret (http_ok, HttpText defaultResponse)
      else mret (http_bad_request, HttpText "Expected a POST request")
  | http_other => mret (http_bad_request, HttpText "Expected a POST request")
  | http_post =>
      catch_all (http_try defaultResponse req ip)
        (mret (http_internal_server_error, HttpJson (makeError_rippled rpcINTERNAL None None)))
  end.

End http.

(** ** Lemmas: limits *)

Lemma table_limits h : h ∈ handlerTable ->
  match h_limit h with Some (lo, def, hi) => 0 < lo <= def /\ def <= hi < 2 ^ 31 | None => True end.
Proof.
  intros Hh. unfold handlerTable in Hh.
  repeat (apply elem_of_cons in Hh as [->|Hh]; [cbn; try lia; done|]). by apply not_elem_of_nil in Hh.
Qed.

Lemma table_find_elem m h : table_find m = Some h -> h ∈ handlerTable /\ h_method h = m.
Proof.
  unfold table_find. intros ([i h'] & Hf & ->)%fmap_Some. apply list_find_Some in Hf as (Hl & Hm & _).
  split; [by eapply list_elem_of_lookup_2 | done].
Qed.

Lemma getLimitRange_ok m lo def hi :
  getLimitRange m = Some (lo, def, hi) -> 0 < lo <= def /\ def <= hi < 2 ^ 31.
Proof.
  unfold getLimitRange. destruct (table_find m) as [h|] eqn:Hh; [|done]. cbn. intros Hl.
  apply table_find_elem in Hh as [Hh _]. pose proof (table_limits h Hh) as Ht. by rewrite Hl in Ht.
Qed.

Lemma getLimitRange_contains m r : getLimitRange m = Some r -> table_contains m = true.
Proof. unfold getLimitRange, table_contains. destruct (table_find m); [|done]. intros _. by apply bool_decide_eq_true. Qed.

(** The limit of a request. For a method with a limit range the limit is
    always within the range: the default without a [limit] field; for a number
    the value of its low 32 bits, clamped, when that is positive, so for a number
    of less than 31 bits the number itself, clamped; and an error otherwise. A
    number past 32 bits is therefore taken for a different one: [2^32 + n] for
    [n]. A method without a range never has a limit. *)
Theorem getLimit_bounds (ctx : Context) (lo def hi : Z) :
  getLimitRange (ctx_method ctx) = Some (lo, def, hi) ->
  (forall limit, getLimit ctx = Done limit -> lo <= limit <= hi) /\
  (obj_find "limit" (ctx_params ctx) = None -> getLimit ctx = Done def) /\
  (forall z, obj_find "limit" (ctx_params ctx) = Some (JInt64 z) ->
     (0 < z < 2 ^ 31 -> getLimit ctx = Done (Z.max lo (Z.min z hi))) /\
     (- 2 ^ 31 <= z <= 0 -> exists s, getLimit ctx = Failed s /\ is_error s = true) /\
     (forall n, z = 2 ^ 32 + n -> 0 < n < 2 ^ 31 -> getLimit ctx = Done (Z.max lo (Z.min n hi)))) /\
  (forall v, obj_find "limit" (ctx_params ctx) = Some v -> is_int64 v = false ->
     exists s, getLimit ctx = Failed s /\ is_error s = true).
Proof.
  intros Hr. pose proof (getLimitRange_ok _ _ _ _ Hr) as Hok.
  unfold getLimit. rewrite (getLimitRange_contains _ _ Hr), Hr. cbn [negb]. split_and!.
  - intros limit. destruct (obj_find "limit" (ctx_params ctx)) as [[]|]; try done.
    + destruct (i32 z <=? 0); [done|]. intros [= <-]. lia.
    + intros [= <-]. lia.
  - by intros ->.
  - intros z ->. split_and!.
    + intros Hz. rewrite i32_small, u32_small by lia. destruct (Z.leb_spec z 0); [lia | done].
    + intros Hz. rewrite i32_small by lia. destruct (Z.leb_spec z 0); [|lia]. by eexists.
    + intros n -> Hn. assert (i32 (2 ^ 32 + n) = n) as ->.
      { unfold i32, u32. rewrite (Z.add_comm (2 ^ 32)), <- (Z.mul_1_l (2 ^ 32)), Z.mod_add, Z.mod_small by lia.
        destruct (Z.ltb_spec n (2 ^ 31)); lia. }
      rewrite u32_small by lia. destruct (Z.leb_spec n 0); [lia | done].
  - intros v -> Hv. destruct v; try done; by eexists.
Qed.

Definition sample_context (limit : Z) : Context :=
  mkContext "account_tx" [("limit", JInt64 limit)] None (mkLedgerRange 1 2) "a".

Lemma getLimit_bounds_witness :
  getLimitRange "account_tx" = Some (1, 50, 100) /\ getLimit (sample_context (2 ^ 32 + 7)) = Done 7.
Proof.
  split; [done|].
  destruct (getLimit_bounds (sample_context (2 ^ 32 + 7)) 1 50 100 eq_refl) as (_ & _ & Hz & _).
  destruct (Hz _ eq_refl) as (_ & _ & Hn). exact (Hn 7 eq_refl ltac:(lia)).
Defined.

(** ** Lemmas: counters *)

(** Every request that was started has finished or failed, and only methods the
    server knows are counted. *)
Definition balanced (c : Counters) : Prop :=
  forall m i, c !! m = Some i -> validHandler m = true /\ mi_started i = u64 (mi_finished i + mi_errored i).

Lemma counters_update_lookup m f c m' i :
  counters_update m f c !! m' = Some i ->
  c !! m' = Some i \/ m' = m /\ validHandler m = true /\ i = f (default MethodInfo_default (c !! m)).
Proof.
  unfold counters_update, initializeCounter. destruct (validHandler m); cbn [negb]; [|by left].
  destruct (decide (m' = m)) as [->|Hne].
  - rewrite lookup_insert_eq. intros [= <-]. right. split_and!; [done..|].
    by destruct (c !! m) as [j|] eqn:Hj; [rewrite Hj | rewrite lookup_insert_eq].
  - rewrite lookup_insert_ne by done. destruct (c !! m); [by left|]. rewrite lookup_insert_ne by done. by left.
Qed.

Lemma balanced_update m f c :
  (forall i, mi_started i = u64 (mi_finished i + mi_errored i) ->
     mi_started (f i) = u64 (mi_finished (f i) + mi_errored (f i))) ->
  balanced c -> balanced (counters_update m f c).
Proof.
  intros Hf Hc m' i [Hi|(-> & Hv & ->)]%counters_update_lookup; [by apply Hc|]. split; [done|]. apply Hf.
  destruct (c !! m) as [j|] eqn:Hj; [by apply (Hc m j) | done].
Qed.

Lemma balanced_errored m c : balanced c -> balanced (rpcErrored m c).
Proof. apply balanced_update. intros i Hi. cbn. rewrite Hi. autorewrite with wrap_rw. f_equal. lia. Qed.

Lemma balanced_complete m us c : balanced c -> balanced (rpcComplete m us c).
Proof. apply balanced_update. intros i Hi. cbn. rewrite Hi. autorewrite with wrap_rw. f_equal. lia. Qed.

Lemma balanced_forwarded m c : balanced c -> balanced (rpcForwarded m c).
Proof. by apply balanced_update. Qed.

(** ** Lemmas: the server *)

(** A computation that leaves the counters alone; it may throw. *)
Definition quiet `{RpcServer W} {A} (m : M W A) : Prop :=
  forall c, triple (fun w => srv_counters w = c) m (fun _ w => srv_counters w = c) (fun _ w => srv_counters w = c).

Class RpcServerLaws (W : Type) `{RpcServer W} := {
  sl_counters : forall c w, srv_counters (set_srv_counters c w) = c;
  sl_guard : forall g w, srv_counters (set_srv_guard g w) = srv_counters w;
  sl_forward : forall r ip, quiet (forwardToRippled r ip);
  sl_busy : quiet isTooBusy;
  sl_age : forall c, triple (fun w => srv_counters w = c) lastCloseAgeSeconds (fun _ w => srv_counters w = c) noexn;
  sl_elapsed : forall c, triple (fun w => srv_counters w = c) elapsed (fun _ w => srv_counters w = c) noexn;
  sl_handler : forall m ctx, quiet (handler m ctx)
}.

Section server_lemmas.
Context `{RpcServerLaws W} `{RippledErrors}.

Definition bal (w : W) : Prop := balanced (srv_counters w).

Lemma quiet_bal {A} (m : M W A) : quiet m -> triple bal m (fun _ => bal) (fun _ => bal).
Proof.
  intros Hq w Hw. specialize (Hq (srv_counters w) w eq_refl). unfold bal in *.
  destruct (m w) as [[a|e|] w']; [by rewrite Hq | by rewrite Hq | done].
Qed.

Lemma clock_bal {A} (m : M W A) E :
  (forall c, triple (fun w => srv_counters w = c) m (fun _ w => srv_counters w = c) noexn) ->
  triple bal m (fun _ => bal) E.
Proof.
  intros Hq w Hw. specialize (Hq (srv_counters w) w eq_refl). unfold bal in *.
  destruct (m w) as [[a|e|] w']; [by rewrite Hq | done..].
Qed.

Lemma clock_returns {A} (m : M W A) w :
  (forall c, triple (fun w => srv_counters w = c) m (fun _ w => srv_counters w = c) noexn) ->
  exists a w', m w = (Ok a, w').
Proof.
  intros Hq. destruct (triple_run _ _ _ w (Hq (srv_counters w)) eq_refl) as (a & w' & Hm & _). eauto.
Qed.

Lemma upd_bal f E : (forall c, balanced c -> balanced (f c)) -> triple bal (upd_counters f) (fun _ => bal) E.
Proof. intros Hf w Hw. cbn. unfold bal in *. rewrite sl_counters. by apply Hf. Qed.

Lemma run_handler_bal ctx E : triple bal (run_handler ctx) (fun _ => bal) E.
Proof.
  intros w Hw. pose proof (quiet_bal _ (sl_handler (ctx_method ctx) ctx) w Hw) as Hq. unfold run_handler.
  destruct (handler (ctx_method ctx) ctx w) as [[[s|o]|e|] w']; done.
Qed.

Lemma shouldForward_fuel ctx : shouldForwardToRippled ctx <> NoFuel.
Proof.
  unfold shouldForwardToRippled. destruct (isClioOnly _); [done|]. destruct (bool_decide _); [done|].
  destruct (specifiesCurrentOrClosedLedger _); [done|]. destruct (_ && _); [|done].
  unfold at_. destruct (obj_find "queue" _) as [[]|]; done.
Qed.

Lemma buildResponse_bal ctx : triple bal (buildResponse ctx) (fun _ => bal) (fun _ => bal).
Proof.
  unfold buildResponse. apply triple_lift_bind; [|done|].
  { apply shouldForward_fuel. }
  intros fwd _. destruct fwd.
  - eapply triple_bind; [apply quiet_bal, sl_forward|]. intros res.
    eapply triple_bind; [apply upd_bal; intros; by apply balanced_forwarded|]. intros [].
    destruct res; by apply triple_ret.
  - destruct (bool_decide _); [by apply triple_ret|].
    eapply triple_bind; [apply quiet_bal, sl_busy|]. intros busy.
    destruct busy; [by apply triple_ret|]. destruct (negb _); [by apply triple_ret | apply run_handler_bal].
Qed.

(** Finishing a response adds the warnings and leaves the rest. *)
Definition finished (response r : JsonObject) : Prop :=
  (exists l, obj_find "warnings" r = Some (JArray l)) /\
  forall k, k <> "warnings" -> k <> "warning" -> obj_find k r = obj_find k response.

Lemma guard_add_bal ip n E : triple bal (guard_add ip n) (fun _ => bal) E.
Proof.
  intros w Hw. unfold guard_add. destruct (DOSGuard_add ip n (srv_guard w)) as [ok g]. unfold bal in *.
  by rewrite sl_guard.
Qed.

Lemma finish_response_bal ip response :
  triple bal (finish_response ip response) (fun r w => finished response r /\ bal w) noexn.
Proof.
  unfold finish_response.
  destruct (makeWarning_ok warnRPC_CLIO) as [clio ->], (makeWarning_ok warnRPC_OUTDATED) as [outdated ->],
    (makeWarning_ok warnRPC_RATE_LIMIT) as [load ->].
  apply triple_ok_bind. eapply triple_bind; [apply clock_bal, sl_age|].
  intros age. apply triple_ok_bind. eapply triple_bind; [apply guard_add_bal|]. intros ok. destruct ok.
  - apply triple_ret. intros w Hw. split; [|done]. split.
    + rewrite obj_find_set, decide_True by done. by eexists.
    + intros k Hk _. by rewrite obj_find_set, decide_False.
  - apply triple_ok_bind, triple_ret. intros w Hw. split; [|done]. split.
    + rewrite obj_find_set, decide_True by done. by eexists.
    + intros k Hk Hk'. by rewrite !obj_find_set, !decide_False.
Qed.

(** What is sent to a websocket client. *)
Definition echoes (id : json) (r : JsonObject) : Prop := is_null id = false -> obj_find "id" r = Some id.

Definition answers_error (id : json) (request r : JsonObject) : Prop :=
  obj_find "request" r = Some (JObject request) /\ echoes id r.

Definition answers_result (id : json) (r : JsonObject) : Prop :=
  obj_find "status" r = Some (JString "success") /\ (exists x, obj_find "result" r = Some (JObject x)) /\ echoes id r.

(** A forwarded answer is taken over, its members before the usual ones. *)
Definition answers_forwarded (id : json) (r : JsonObject) : Prop :=
  exists result, obj_find "forwarded" result = Some (JBool true) /\
    forall k, k <> "warnings" -> k <> "warning" ->
      if contains result k then is_Some (obj_find k r) else obj_find k r = obj_find k (getDefaultWsResponse id).

Lemma ws_error_answers e id request : answers_error id request (ws_error e id request).
Proof.
  unfold ws_error, answers_error, echoes. split.
  - by rewrite obj_find_set, decide_True.
  - intros Hid. rewrite obj_find_set, decide_False by done. rewrite Hid. by rewrite obj_find_set, decide_True.
Qed.

Lemma getDefault_echoes id : echoes id (getDefaultWsResponse id).
Proof. intros Hid. unfold getDefaultWsResponse. rewrite Hid, !obj_find_set, !decide_False by done. by rewrite decide_True. Qed.

Lemma foldl_obj_set_some m k : forall r,
  is_Some (obj_find k r) -> is_Some (obj_find k (foldl (fun r kv => obj_set kv.1 kv.2 r) r m)).
Proof.
  induction m as [|[j v] m IH]; intros r Hr; [done|]. cbn -[decide]. apply IH. rewrite obj_find_set. by case_decide.
Qed.

Lemma foldl_obj_set m k : forall r,
  if contains m k then is_Some (obj_find k (foldl (fun r kv => obj_set kv.1 kv.2 r) r m))
  else obj_find k (foldl (fun r kv => obj_set kv.1 kv.2 r) r m) = obj_find k r.
Proof.
  induction m as [|[j v] m IH]; intros r; [done|]. unfold contains in *. cbn -[decide].
  destruct (decide (k = j)) as [->|Hne].
  - rewrite bool_decide_true by done. apply foldl_obj_set_some. by rewrite obj_find_set, decide_True.
  - specialize (IH (obj_set j v r)). rewrite obj_find_set, decide_False in IH by done. exact IH.
Qed.

(** With distinct members, as an object has them, the values are those of [m]
    where it has one. *)
Lemma foldl_obj_set_find m k : forall r,
  NoDup (m.*1) ->
  obj_find k (foldl (fun r kv => obj_set kv.1 kv.2 r) r m) = match obj_find k m with Some v => Some v | None => obj_find k r end.
Proof.
  induction m as [|[j v] m IH]; intros r Hd; [done|]. cbn -[decide] in *. apply NoDup_cons in Hd as [Hj Hd].
  rewrite IH by done. destruct (decide (k = j)) as [->|Hne].
  - assert (obj_find j m = None) as ->; [|by rewrite obj_find_set, decide_True].
    clear -Hj. induction m as [|[i x] m IH]; [done|]. cbn -[decide] in *. rewrite decide_False; [apply IH|]; set_solver.
  - by rewrite obj_find_set, decide_False.
Qed.

Definition ws_shape (id : json) (request : JsonObject) (r : JsonObject + JsonObject) : Prop :=
  match r with
  | inl e => answers_error id request e
  | inr e => answers_error id request e \/ answers_result id e \/ answers_forwarded id e
  end.

Lemma ws_try_spec request id session ip :
  triple bal (ws_try request id session ip) (fun r w => ws_shape id request r /\ bal w) (fun _ => bal).
Proof.
  unfold ws_try. apply triple_gets. intros [rng|]; [|].
  - destruct (make_WsContext request session rng ip) as [ctx|].
    + eapply triple_bind; [eapply triple_conseq; [apply (buildResponse_bal ctx) | by intros w [? _] | done | done]|].
      intros v. eapply triple_bind; [apply clock_bal, sl_elapsed|]. intros us. destruct v as [status|result].
      * eapply triple_bind; [apply upd_bal; intros; by apply balanced_errored|]. intros [].
        destruct (makeError_ok status) as [e ->]. apply triple_ok_bind, triple_ret. intros w Hw. split; [|done].
        left. apply ws_error_answers.
      * eapply triple_bind; [apply upd_bal; intros; by apply balanced_complete|]. intros [].
        apply triple_ret. intros w Hw. split; [|done]. cbn. right.
        destruct (match obj_find "forwarded" result with Some (JBool b) => b | _ => false end) eqn:Hf; [right | left].
        -- exists result. split; [destruct (obj_find "forwarded" result) as [[]|]; try done; by rewrite Hf|].
           intros k _ _. apply foldl_obj_set.
        -- split_and!.
           ++ rewrite obj_find_set, decide_False by done. unfold getDefaultWsResponse.
              by rewrite obj_find_set, decide_False, obj_find_set, decide_True.
           ++ rewrite obj_find_set, decide_True by done. by eexists.
           ++ intros Hid. rewrite obj_find_set, decide_False by done. by apply getDefault_echoes.
    + apply triple_ret. intros w [Hw _]. split; [apply ws_error_answers | done].
  - apply triple_ret. intros w [Hw _]. split; [apply ws_error_answers | done].
Qed.

Lemma finished_shape id request e r :
  (answers_error id request e \/ answers_result id e \/ answers_forwarded id e) -> finished e r ->
  answers_error id request r \/ answers_result id r \/ answers_forwarded id r.
Proof.
  intros Ha [_ Hf]. unfold answers_error, answers_result, answers_forwarded, echoes in *.
  destruct Ha as [[Hr Hi]|[(Hs & Hx & Hi)|(result & Hr & Hk)]].
  - left. by rewrite !Hf.
  - right. left. by rewrite !Hf.
  - right. right. exists result. split; [done|]. intros k Hk1 Hk2. rewrite Hf by done. by apply Hk.
Qed.

Lemma ws_handle_spec request id session ip :
  triple bal (ws_handle_request request id session (Some ip))
    (fun r w => (exists o, r = Some o /\ (answers_error id request o \/ answers_result id o \/ answers_forwarded id o)) /\ bal w)
    noexn.
Proof.
  unfold ws_handle_request. eapply triple_bind.
  { eapply triple_catch_all; [apply ws_try_spec|]. apply triple_ret. intros w Hw. split; [|exact Hw].
    apply ws_error_answers. }
  intros [e|response]; apply triple_pre_pure; intros Hs.
  - apply triple_ret. intros w Hw. split; [|done]. exists e. split; [done|]. by left.
  - eapply triple_bind; [apply finish_response_bal|]. intros r. apply triple_pre_pure. intros Hf.
    apply triple_ret. intros w Hw. split; [|done]. exists r. split; [done|]. by eapply finished_shape.
Qed.

(** What an HTTP client gets for a POST whose body parses to [request]. *)
Definition http_answers (request o : JsonObject) : Prop :=
  (exists l, obj_find "warnings" o = Some (JArray l)) /\
  exists x, obj_find "result" o = Some (JObject x) /\
    (obj_find "request" x = Some (JObject request) \/ contains x "error" = true \/
     obj_find "status" x = Some (JString "success")).

Context `{RequestText}.

Definition http_shape (req : HttpRequest) (r : HttpStatus * HttpBody) : Prop :=
  match r with
  | (http_ok, HttpJson o) =>
      match http_parse (req_body req) with
      | Ok request => http_answers request o \/ o = makeError_rippled rpcNOT_READY None None \/
                      o = makeError_rippled rpcBAD_SYNTAX None None
      | _ => o = makeError_rippled rpcBAD_SYNTAX None None
      end
  | (http_internal_server_error, HttpJson o) => o = makeError_rippled rpcINTERNAL None None
  | _ => False
  end.

Lemma http_result_shape request (v : Outcome JsonObject) us ctx :
  triple bal
    (match v with
     | Failed status =>
         upd_counters (rpcErrored (ctx_method ctx)) ≫= fun _ =>
         error ← lift_res (makeError status);
         mret (obj_set "result" (JObject (obj_set "request" (JObject request) error)) [])
     | Done object =>
         upd_counters (rpcComplete (ctx_method ctx) us) ≫= fun _ =>
         let result := match obj_find "result" object with Some (JObject r) => r | _ => object end in
         let result := if contains result "error" then result
                       else obj_set "status" (JString "success") result in
         mret (obj_set "result" (JObject result) [])
     end)
    (fun o w => (exists x, obj_find "result" o = Some (JObject x) /\
        (obj_find "request" x = Some (JObject request) \/ contains x "error" = true \/
         obj_find "status" x = Some (JString "success"))) /\ bal w) noexn.
Proof.
  destruct v as [status|object].
  - eapply triple_bind; [apply upd_bal; intros; by apply balanced_errored|]. intros [].
    destruct (makeError_ok status) as [e ->]. apply triple_ok_bind, triple_ret. intros w Hw. split; [|done].
    eexists. split; [done|]. left. by rewrite obj_find_set, decide_True.
  - eapply triple_bind; [apply upd_bal; intros; by apply balanced_complete|]. intros [].
    apply triple_ret. intros w Hw. split; [|done].
    set (r := match obj_find "result" object with Some (JObject r) => r | _ => object end).
    eexists. split; [done|]. right. cbn zeta.
    destruct (contains r "error") eqn:Hc; [by left | right]. by rewrite obj_find_set, decide_True.
Qed.

Lemma http_try_spec dflt req ip :
  http_parse (req_body req) <> NoFuel ->
  triple bal (http_try dflt req ip) (fun r w => http_shape req r /\ bal w) (fun _ => bal).
Proof.
  intros Hp. unfold http_try. destruct (http_parse (req_body req)) as [request|e|] eqn:Hq; [|..|done].
  - apply triple_gets. intros [rng|].
    + apply triple_lift_bind.
      { unfold make_HttpContext, at_, mbind, Res_bind. repeat case_match; congruence. }
      { by intros e w _ [Hw _]. }
      intros context _. destruct context as [ctx|].
      * eapply triple_bind; [eapply triple_conseq; [apply (buildResponse_bal ctx) | by intros w [? _] | done | done]|].
        intros v. eapply triple_bind; [apply clock_bal, sl_elapsed|]. intros us.
        eapply triple_bind; [eapply triple_conseq; [apply (http_result_shape request v us ctx) | done | done | done]|].
        intros o. apply triple_pre_pure. intros (x & Hx & Hs).
        eapply triple_bind; [eapply triple_conseq; [apply finish_response_bal | done | done | done]|].
        intros o'. apply triple_pre_pure. intros [Hw Hf]. apply triple_ret. intros w Hb. split; [|done].
        cbn. rewrite Hq. left. split; [done|]. exists x. by rewrite Hf.
      * apply triple_ret. intros w [Hw _]. split; [|done]. cbn. rewrite Hq. by right; right.
    + apply triple_ret. intros w [Hw _]. split; [|done]. cbn. rewrite Hq. by right; left.
  - destruct (is_runtime_error e); [|by apply triple_throw].
    apply triple_ret. intros w Hw. split; [|done]. cbn. by rewrite Hq.
Qed.

(** The answer to any HTTP request. *)
Definition http_answered (dflt : string) (req : HttpRequest) (r : HttpStatus * HttpBody) : Prop :=
  match req_method req with
  | http_post => http_shape req r
  | http_get => r = if bool_decide (req_body req = "") then (http_ok, HttpText dflt)
                    else (http_bad_request, HttpText "Expected a POST request")
  | http_other => r = (http_bad_request, HttpText "Expected a POST request")
  end.

Lemma http_handle_spec dflt req ip :
  http_parse (req_body req) <> NoFuel ->
  triple bal (http_handle_request dflt req ip) (fun r w => http_answered dflt req r /\ bal w) noexn.
Proof.
  intros Hp. unfold http_handle_request, http_answered. destruct (req_method req).
  - destruct (bool_decide _); by apply triple_ret.
  - eapply triple_catch_all; [by apply http_try_spec|]. by apply triple_ret.
  - by apply triple_ret.
Qed.

(** Finishing an answer from any state. *)
Lemma finish_response_ok ip response w : exists r w', finish_response ip response w = (Ok r, w') /\ finished response r.
Proof.
  unfold finish_response.
  destruct (makeWarning_ok warnRPC_CLIO) as [clio ->], (makeWarning_ok warnRPC_OUTDATED) as [outdated ->],
    (makeWarning_ok warnRPC_RATE_LIMIT) as [load ->].
  destruct (clock_returns lastCloseAgeSeconds w sl_age) as (age & w1 & Ha).
  unfold mbind, M_bind, lift_res, guard_add. rewrite Ha.
  destruct (DOSGuard_add _ _ _) as [[] g]; eexists _, _; (split; [reflexivity|]); split.
  - rewrite obj_find_set, decide_True by done. by eexists.
  - intros k Hk _. by rewrite obj_find_set, decide_False.
  - rewrite obj_find_set, decide_True by done. by eexists.
  - intros k Hk Hk'. by rewrite !obj_find_set, !decide_False.
Qed.

Lemma ws_error_find e id request k :
  k <> "id" -> k <> "request" -> obj_find k (ws_error e id request) = obj_find k e.
Proof.
  intros Hi Hr. unfold ws_error. rewrite obj_find_set, decide_False by done.
  destruct (is_null id); [done|]. by rewrite obj_find_set, decide_False.
Qed.

(** What is sent for the outcome of [buildResponse]. *)
Definition ws_answers (id : json) (request : JsonObject) (v : Res (Outcome JsonObject)) (o : JsonObject) : Prop :=
  match v with
  | Ok (Failed status) =>
      exists e, makeError status = Ok e /\ answers_error id request o /\
        forall k, k ∉ ["id"; "request"; "warnings"; "warning"] -> obj_find k o = obj_find k e
  | Ok (Done result) =>
      if match obj_find "forwarded" result with Some (JBool b) => b | _ => false end
      then NoDup (result.*1) -> forall k, k ∉ ["warnings"; "warning"] ->
             obj_find k o = match obj_find k result with Some v => Some v | None => obj_find k (getDefaultWsResponse id) end
      else obj_find "result" o = Some (JObject result) /\ obj_find "status" o = Some (JString "success") /\ echoes id o /\
           forall k, k ∉ ["result"; "warnings"; "warning"] -> obj_find k o = obj_find k (getDefaultWsResponse id)
  | Throw _ => o = ws_error (makeError_rippled rpcINTERNAL None None) id request
  | NoFuel => False
  end.

Lemma finished_error id request e o :
  finished (ws_error e id request) o ->
  answers_error id request o /\
  forall k, k ∉ ["id"; "request"; "warnings"; "warning"] -> obj_find k o = obj_find k e.
Proof.
  intros [_ Hf]. destruct (ws_error_answers e id request) as [Hr Hi]. unfold answers_error, echoes in *.
  split; [by rewrite !Hf|]. intros k Hk. rewrite !not_elem_of_cons in Hk.
  destruct Hk as (? & ? & ? & ? & _). rewrite Hf by done. by apply ws_error_find.
Qed.

Lemma finished_forwarded id result o :
  finished (foldl (fun r kv => obj_set kv.1 kv.2 r) (getDefaultWsResponse id) result) o ->
  NoDup (result.*1) -> forall k, k ∉ ["warnings"; "warning"] ->
    obj_find k o = match obj_find k result with Some v => Some v | None => obj_find k (getDefaultWsResponse id) end.
Proof.
  intros [_ Hf] Hd k Hk. rewrite !not_elem_of_cons in Hk. destruct Hk as (? & ? & _). rewrite Hf by done.
  by apply foldl_obj_set_find.
Qed.

Lemma finished_result id result o :
  finished (obj_set "result" (JObject result) (getDefaultWsResponse id)) o ->
  obj_find "result" o = Some (JObject result) /\ obj_find "status" o = Some (JString "success") /\ echoes id o /\
  forall k, k ∉ ["result"; "warnings"; "warning"] -> obj_find k o = obj_find k (getDefaultWsResponse id).
Proof.
  intros [_ Hf]. unfold echoes. rewrite !Hf, !obj_find_set by done. cbn [decide decide_rel].
  split_and!; [by rewrite decide_True | | |].
  - rewrite decide_False by done. unfold getDefaultWsResponse.
    by rewrite obj_find_set, decide_False, obj_find_set, decide_True.
  - intros Hi. rewrite decide_False by done. by apply getDefault_echoes.
  - intros k Hk. rewrite !not_elem_of_cons in Hk. destruct Hk as (? & ? & ? & _). rewrite Hf by done. by rewrite obj_find_set, decide_False.
Qed.

End server_lemmas.

(** ** Claims *)

Section claims.
Context `{RpcServerLaws W} `{RippledErrors} `{RequestText}.

(** C26: a websocket request is answered by exactly one object, whatever the
    handler does. Without a known ledger or a command the answer is the error for
    that; otherwise it is made of the outcome of [buildResponse]: an error keeps
    its members and carries the request and the id; a result is under [result]
    with the usual members, the status [success] and the id; a forwarded answer
    keeps its members as they are, its own status and id among them, and gets only
    those of the usual ones that it lacks; an exception that is not a handler's own
    gives the internal error. Warnings are added. *)
Theorem ws_answer (request : JsonObject) (id : json) (session : nat) (ip : string) (w : W) :
  (forall ctx, (buildResponse ctx w).1 <> NoFuel) ->
  exists o, (ws_handle_request request id session (Some ip) w).1 = Ok (Some o) /\
    match srv_range w with
    | None => o = ws_error (makeError_rippled rpcNOT_READY None None) id request
    | Some rng =>
        match make_WsContext request session rng ip with
        | None => o = ws_error (makeError_rippled rpcBAD_SYNTAX None None) id request
        | Some ctx => ws_answers id request (buildResponse ctx w).1 o
        end
    end.
Proof.
  intros Hfuel. unfold ws_handle_request, ws_try, gets, catch_all, mbind, M_bind. cbn [fst].
  destruct (srv_range w) as [rng|]; [|by eexists].
  destruct (make_WsContext request session rng ip) as [ctx|]; [|by eexists].
  specialize (Hfuel ctx). destruct (buildResponse ctx w) as [[v|e|] w1]; cbn [fst] in *; [|by eexists | done].
  destruct (clock_returns elapsed w1 sl_elapsed) as (us & w2 & Hus). rewrite Hus.
  destruct v as [status|result]; cbn.
  - destruct (makeError_ok status) as [e He]. rewrite He. cbn.
    match goal with |- context [finish_response ip ?r ?w'] =>
      destruct (finish_response_ok ip r w') as (o & w3 & Ho & Hf) end.
    rewrite Ho. exists o. split; [done|]. exists e. split; [done|]. by apply finished_error.
  - match goal with |- context [finish_response ip ?r ?w'] =>
      destruct (finish_response_ok ip r w') as (o & w3 & Ho & Hf) end.
    rewrite Ho. exists o. split; [done|].
    destruct (match obj_find "forwarded" result with Some (JBool b) => b | _ => false end);
      [by apply finished_forwarded | by apply finished_result].
Qed.

(** Requests of clients, in the order in which they are handled. *)
Inductive ClientRequest :=
| WsRequest (request : JsonObject) (id : json) (session : nat) (ip : option string)
| HttpRequest_of (req : HttpRequest) (ip : string).

Definition serve (defaultResponse : string) (r : ClientRequest) : M W unit :=
  match r with
  | WsRequest request id session ip => ws_handle_request request id session ip ≫= fun _ => mret tt
  | HttpRequest_of req ip => http_handle_request defaultResponse req ip ≫= fun _ => mret tt
  end.

Fixpoint serve_all (defaultResponse : string) (l : list ClientRequest) : M W unit :=
  match l with
  | [] => mret tt
  | r :: l' => serve defaultResponse r ≫= fun _ => serve_all defaultResponse l'
  end.

Lemma serve_bal dflt r :
  (forall b, parse_json b <> NoFuel) -> triple bal (serve dflt r) (fun _ => bal) noexn.
Proof.
  intros Hp. destruct r as [request id session [ip|]|req ip]; cbn.
  - eapply triple_bind; [apply ws_handle_spec|]. intros o. apply triple_ret. by intros w [_ Hw].
  - by intros w Hw.
  - eapply triple_bind.
    { apply http_handle_spec. unfold http_parse, as_object, mbind, Res_bind.
      destruct (parse_json (req_body req)) as [[]|e|] eqn:Hb; try done. by destruct (Hp (req_body req)). }
    intros o. apply triple_ret. by intros w [_ Hw].
Qed.

(** The counters add up. Whatever requests of whatever clients are handled,
    in whatever order, and however the handlers end, every one is handled
    without an exception, only the methods the server knows have counters, and
    for each of them the requests that were started are those that finished and
    those that failed. *)
Theorem counters_balance (dflt : string) (l : list ClientRequest) (w : W) :
  (forall b, parse_json b <> NoFuel) -> srv_counters w = ∅ ->
  exists w', serve_all dflt l w = (Ok tt, w') /\
    forall m i, srv_counters w' !! m = Some i ->
      validHandler m = true /\ mi_started i = u64 (mi_finished i + mi_errored i).
Proof.
  intros Hp Hw.
  assert (bal w) as Hb by (unfold bal; rewrite Hw; by intros m i).
  assert (forall l, triple bal (serve_all dflt l) (fun _ => bal) noexn) as Hall.
  { clear l. induction l as [|r l IH]; cbn; [by apply triple_ret|].
    eapply triple_bind; [by apply serve_bal|]. by intros []. }
  destruct (triple_run _ _ _ w (Hall l) Hb) as ([] & w' & Hr & Hb'). exists w'. by split.
Qed.

End claims.

(** ** A server *)

(** It answers [ledger], fails at [tx] and throws at every other method. *)
#[local] Instance demo_errors : RippledErrors :=
  { error_number := fun _ => 73; error_token := fun _ => "internal"; error_text := fun _ => "Internal error." }.

#[local] Instance demo_server : RpcServer (Counters * DOSGuard) := {
  srv_counters := fst;
  set_srv_counters := fun c w => (c, w.2);
  srv_guard := snd;
  set_srv_guard := fun g w => (w.1, g);
  srv_range := fun _ => Some (mkLedgerRange 1 2);
  forwardToRippled := fun _ _ => mret None;
  isTooBusy := mret false;
  lastCloseAgeSeconds := mret 70;
  elapsed := mret 3;
  handler := fun m _ =>
    if decide (m = "ledger") then mret (Done [("ledger_index", JInt64 2)])
    else if decide (m = "tx") then mret (Failed (Status_code (Rippled rpcINVALID_PARAMS)))
    else throw OutOfRange;
  serialize := fun _ => "text"
}.

#[local] Instance demo_server_laws : RpcServerLaws (Counters * DOSGuard).
Proof.
  split; try done; try (intros; by intros w Hw).
  intros m ctx c w Hw. cbn. by repeat case_decide.
Qed.

#[local] Instance demo_text : RequestText :=
  { parse_json := fun s => Ok (JObject [("method", JString s)]); is_runtime_error := fun _ => false }.

Definition demo_world : Counters * DOSGuard := (∅, mkDOSGuard ∅ ∅ ∅ 100 10 10).

Lemma ws_answer_witness :
  exists o, (ws_handle_request [("command", JString "ledger")] (JInt64 9) 1 (Some "a") demo_world).1 = Ok (Some o) /\
    obj_find "result" o = Some (JObject [("ledger_index", JInt64 2); ("validated", JBool true)]) /\
    obj_find "id" o = Some (JInt64 9).
Proof.
  destruct (ws_answer [("command", JString "ledger")] (JInt64 9) 1 "a" demo_world) as (o & Ho & Ha).
  - intros ctx. unfold buildResponse, lift_res, mbind, M_bind.
    destruct (shouldForwardToRippled ctx) as [[]|e|] eqn:Hf; [done| |done|].
    + cbn. repeat case_match; unfold run_handler; cbn; repeat case_decide; done.
    + by destruct (shouldForward_fuel ctx).
  - exists o. split; [exact Ho|]. vm_compute in Ha. destruct Ha as (Hr & _ & Hi & _). split; [exact Hr | by apply Hi].
Defined.

Lemma counters_balance_witness :
  exists w', serve_all "" [WsRequest [("command", JString "ledger")] JNull 1 (Some "a");
                           HttpRequest_of (mkHttpRequest http_post "tx" false) "b";
                           HttpRequest_of (mkHttpRequest http_post "nft_info" false) "b"] demo_world = (Ok tt, w') /\
    exists i, srv_counters w' !! "tx" = Some i /\ mi_started i = 1 /\
      mi_started i = u64 (mi_finished i + mi_errored i).
Proof.
  destruct (counters_balance "" [WsRequest [("command", JString "ledger")] JNull 1 (Some "a");
                                 HttpRequest_of (mkHttpRequest http_post "tx" false) "b";
                                 HttpRequest_of (mkHttpRequest http_post "nft_info" false) "b"] demo_world)
    as (w' & Hr & Hc); [done | done |].
  exists w'. split; [exact Hr|].
  assert (Hw : w' = (serve_all "" [WsRequest [("command", JString "ledger")] JNull 1 (Some "a");
                                 HttpRequest_of (mkHttpRequest http_post "tx" false) "b";
                                 HttpRequest_of (mkHttpRequest http_post "nft_info" false) "b"] demo_world).2)
    by (rewrite Hr; done).
  eexists. split; [rewrite Hw; vm_compute; reflexivity|]. split; [done|]. apply (Hc "tx").
  rewrite Hw. vm_compute. reflexivity.
Defined.
