(* ===== verification/WsSession.v ===== *)
(** The work queue and the websocket sessions ([rpc/WorkQueue.h],
    [rpc/WorkQueue.cpp], [webserver/WsBase.h]).

    [WorkQueue]: the counter of the jobs in flight, the check before a job is
    taken and the increment after it, which are two atomic steps, so that
    several threads may pass the check before one of them counts its job;
    [work_queue_bound] says by how much the limit can be passed.

    [Ws]: the state of a session. Messages are queued, one asynchronous write is
    outstanding at a time; requests are read one at a time and either refused at
    once or posted as jobs, whose answers are sent when they are done. The
    callbacks of a session run on one strand, so a history is a sequence of
    events ([ws_event]). [ws_fifo] and [ws_one_answer] are the contract towards
    the client. *)

From stdpp Require Import base list gmap strings.
From Stdlib Require Import ZArith Lia.
From S2P Require Import Prelude Types DosGuard Json Errors Requests Rpc.

#[local] Open Scope string_scope.
#[local] Open Scope list_scope.
Open Scope Z_scope.

(** ** The work queue *)

Record WorkQueue := mkWorkQueue { queued_ : Z; durationUs_ : Z; curSize_ : Z; maxSize_ : Z }.

Definition WorkQueue_make (maxSize : Z) : WorkQueue :=
  mkWorkQueue 0 0 0 (if maxSize =? 0 then u32 (- 1) else u32 maxSize).

(** [while (--numWorkers)], which starts a thread each time round. *)
Fixpoint worker_loop (fuel : nat) (numWorkers threads : Z) : option Z :=
  match fuel with
  | O => None
  | S f => let n := u32 (numWorkers - 1) in if n =? 0 then Some threads else worker_loop f n (threads + 1)
  end.

(** [curSize_ >= maxSize_ && !isWhiteListed] *)
Definition wq_full (isWhiteListed : bool) (q : WorkQueue) : bool := (maxSize_ q <=? curSize_ q) && negb isWhiteListed.

Definition wq_enter (q : WorkQueue) : WorkQueue :=
  mkWorkQueue (queued_ q) (durationUs_ q) (u64 (curSize_ q + 1)) (maxSize_ q).

Definition wq_start (wait : Z) (q : WorkQueue) : WorkQueue :=
  mkWorkQueue (u64 (queued_ q + 1)) (u64 (durationUs_ q + wait)) (curSize_ q) (maxSize_ q).

Definition wq_finish (q : WorkQueue) : WorkQueue :=
  mkWorkQueue (queued_ q) (durationUs_ q) (u64 (curSize_ q - 1)) (maxSize_ q).

Definition postCoro (isWhiteListed : bool) (q : WorkQueue) : bool * WorkQueue :=
  if wq_full isWhiteListed q then (false, q) else (true, wq_enter q).

(** ** Threads that post and threads that work *)

(** [passed]: the posts that are past the check and have not counted their job,
    with whether the client is whitelisted; [waiting] and [running] the jobs. The
    memory holds fewer than 2^64 of them. *)
Record Posting := mkPosting { pq : WorkQueue; passed : list bool; waiting : list bool; running : list bool }.

Inductive post_step (posters : nat) : Posting -> Posting -> Prop :=
| ps_refuse wl p : wq_full wl (pq p) = true -> post_step posters p p
| ps_pass wl p :
    wq_full wl (pq p) = false -> (length (passed p) < posters)%nat ->
    post_step posters p (mkPosting (pq p) (wl :: passed p) (waiting p) (running p))
| ps_enter q l1 wl l2 ws rs :
    Z.of_nat (S (length ws + length rs)) < 2 ^ 64 ->
    post_step posters (mkPosting q (l1 ++ wl :: l2) ws rs) (mkPosting (wq_enter q) (l1 ++ l2) (ws ++ [wl]) rs)
| ps_start q l wl ws rs wait :
    post_step posters (mkPosting q l (wl :: ws) rs) (mkPosting (wq_start wait q) l ws (wl :: rs))
| ps_finish q l ws r1 wl r2 :
    post_step posters (mkPosting q l ws (r1 ++ wl :: r2)) (mkPosting (wq_finish q) l ws (r1 ++ r2)).

Definition posting_init (maxSize : Z) : Posting := mkPosting (WorkQueue_make maxSize) [] [] [].

(** Jobs of clients that are not whitelisted. *)
Definition plain (l : list bool) : Z := Z.of_nat (length (filter (fun wl => wl = false) l)).

(** ** Sessions *)

Inductive IoError := operation_aborted | io_error (code : Z).

(** [writing]: the outstanding [async_write]s; [reading]: whether an
    [async_read] is outstanding. Traces: [wire], what has been written; [sent],
    what was given to [send]; [cleaned], the calls of [cleanup]. *)
Record Ws := mkWs {
  ec_ : option Z; sending_ : bool; messages_ : list string; writing : list string; reading : bool;
  wire : list string; sent : list string; cleaned : nat }.

Definition wsFail (ec : IoError) (s : Ws) : Ws :=
  match ec_ s, ec with
  | None, io_error code =>
      mkWs (Some code) (sending_ s) (messages_ s) (writing s) (reading s) (wire s) (sent s) (S (cleaned s))
  | _, _ => s
  end.

Definition ws_dead (s : Ws) : bool := bool_decide (is_Some (ec_ s)).

(** [messages_.front()] is defined: the only caller has checked. *)
Definition do_write (s : Ws) : Ws :=
  match messages_ s with
  | m :: _ => mkWs (ec_ s) true (messages_ s) (writing s ++ [m]) (reading s) (wire s) (sent s) (cleaned s)
  | [] => s
  end.

Definition maybe_send_next (s : Ws) : Ws :=
  if ws_dead s || sending_ s || bool_decide (messages_ s = []) then s else do_write s.

(** The completion of the oldest write: its bytes are on the wire. *)
Definition on_write (ec : option IoError) (s : Ws) : Ws :=
  match ec with
  | Some e => wsFail e (mkWs (ec_ s) (sending_ s) (messages_ s) (tail (writing s)) (reading s) (wire s) (sent s) (cleaned s))
  | None =>
      maybe_send_next
        (mkWs (ec_ s) false (tail (messages_ s)) (tail (writing s)) (reading s)
           (wire s ++ take 1 (writing s)) (sent s) (cleaned s))
  end.

(** The function that [send] dispatches to the strand. *)
Definition send (msg : string) (s : Ws) : Ws :=
  maybe_send_next
    (mkWs (ec_ s) (sending_ s) (messages_ s ++ [msg]) (writing s) (reading s) (wire s) (sent s ++ [msg]) (cleaned s)).

Definition set_reading (b : bool) (s : Ws) : Ws :=
  mkWs (ec_ s) (sending_ s) (messages_ s) (writing s) b (wire s) (sent s) (cleaned s).

Definition do_read (s : Ws) : Ws := if ws_dead s then s else set_reading true s.

Definition on_accept (ec : option IoError) (s : Ws) : Ws :=
  match ec with Some e => wsFail e s | None => do_read s end.

(** The server around one session: the limiter, the queue, the jobs of this
    session that are not done. *)
Record Srv := mkSrv { s_guard : DOSGuard; s_queue : WorkQueue; s_ws : Ws; s_jobs : list (JsonObject * json) }.

Section session.
Context `{RippledErrors} `{RequestText}.
Variable text : JsonObject -> string.

(** The lambda [sendError] of [on_read]. *)
Definition refuse (ip : string) (error : RippledError) (id : json) (request : JsonObject) (s : Srv) : Srv :=
  let e := ws_error (makeError_rippled error None None) id request in
  let '(_, g) := DOSGuard_add ip (Z.of_nat (String.length (text e))) (s_guard s) in
  mkSrv g (s_queue s) (send (text e) (s_ws s)) (s_jobs s).

(** The request has been moved into the job when the queue refuses it: the error
    then carries an empty one. *)
Definition on_read (ec : option IoError) (msg : string) (ip : option string) (s : Srv) : Srv :=
  let s := mkSrv (s_guard s) (s_queue s) (set_reading false (s_ws s)) (s_jobs s) in
  match ec with
  | Some e => mkSrv (s_guard s) (s_queue s) (wsFail e (s_ws s)) (s_jobs s)
  | None =>
      match ip with
      | None => s
      | Some ip =>
          let raw := match parse_json msg with Ok v => v | _ => JNull end in
          let '(allowed, g) := DOSGuard_request ip (s_guard s) in
          let s := mkSrv g (s_queue s) (s_ws s) (s_jobs s) in
          let s :=
            if negb allowed then refuse ip rpcSLOW_DOWN JNull [] s
            else
              match raw with
              | JObject request =>
                  let id := default JNull (obj_find "id" request) in
                  let '(posted, q) := postCoro (isWhiteListed ip (s_guard s)) (s_queue s) in
                  if posted then mkSrv (s_guard s) q (s_ws s) (s_jobs s ++ [(request, id)])
                  else refuse ip rpcTOO_BUSY id [] s
              | _ => refuse ip rpcINVALID_PARAMS JNull [] s
              end in
          mkSrv (s_guard s) (s_queue s) (do_read (s_ws s)) (s_jobs s)
      end
  end.

(** What happens to a session: a request arrives or reading fails, one of its
    jobs is done and sends its answer, a publication is sent, a write completes;
    [other] is what the rest of the server does to limiter and queue. *)
Inductive WsEvent :=
| EvRead (msg : string)
| EvReadFail (ec : IoError)
| EvJob (k : nat) (answer : string)
| EvPublish (msg : string)
| EvWritten
| EvWriteFail (ec : IoError)
| EvOther (g : DOSGuard) (q : WorkQueue).

Definition ws_event (ip : string) (e : WsEvent) (s : Srv) : option Srv :=
  match e with
  | EvRead msg => if reading (s_ws s) then Some (on_read None msg (Some ip) s) else None
  | EvReadFail ec => if reading (s_ws s) then Some (on_read (Some ec) "" (Some ip) s) else None
  | EvJob k answer =>
      match s_jobs s !! k with
      | Some _ => Some (mkSrv (s_guard s) (wq_finish (s_queue s)) (send answer (s_ws s)) (delete k (s_jobs s)))
      | None => None
      end
  | EvPublish msg => Some (mkSrv (s_guard s) (s_queue s) (send msg (s_ws s)) (s_jobs s))
  | EvWritten =>
      if bool_decide (writing (s_ws s) = []) then None
      else Some (mkSrv (s_guard s) (s_queue s) (on_write None (s_ws s)) (s_jobs s))
  | EvWriteFail ec =>
      if bool_decide (writing (s_ws s) = []) then None
      else Some (mkSrv (s_guard s) (s_queue s) (on_write (Some ec) (s_ws s)) (s_jobs s))
  | EvOther g q => Some (mkSrv g q (s_ws s) (s_jobs s))
  end.

Fixpoint ws_events (ip : string) (l : list WsEvent) (s : Srv) : option Srv :=
  match l with [] => Some s | e :: l' => s' ← ws_event ip e s; ws_events ip l' s' end.

End session.

Definition ws_init : Ws := on_accept None (mkWs None false [] [] false [] [] 0).

(** ** Lemmas: the queue *)

Lemma plain_app l1 l2 : plain (l1 ++ l2) = plain l1 + plain l2.
Proof. unfold plain. rewrite filter_app, length_app. lia. Qed.

Lemma plain_cons wl l : plain (wl :: l) = (if wl then 0 else 1) + plain l.
Proof. unfold plain. rewrite filter_cons. destruct wl; case_decide; try done; cbn [length]; lia. Qed.

Lemma plain_le l : 0 <= plain l <= Z.of_nat (length l).
Proof. unfold plain. pose proof (length_filter (fun wl => wl = false) l). lia. Qed.

Record posting_ok (posters : nat) (max : Z) (p : Posting) : Prop := {
  po_size : curSize_ (pq p) = Z.of_nat (length (waiting p) + length (running p));
  po_small : Z.of_nat (length (waiting p) + length (running p)) < 2 ^ 64;
  po_max : maxSize_ (pq p) = max;
  po_posters : (length (passed p) <= posters)%nat;
  po_plain : plain (passed p) + plain (waiting p) + plain (running p) <= max - 1 + Z.of_nat posters
}.

Lemma posting_ok_step posters max p p' :
  posting_ok posters max p -> post_step posters p p' -> posting_ok posters max p'.
Proof.
  intros [Hs Hb Hm Hl Hp] Hstep. destruct Hstep; cbn in *; (split; cbn; [..|]).
  all: rewrite ?length_app in *; cbn [length] in *; rewrite ?length_app in *; cbn [length] in *.
  all: rewrite ?plain_app, ?plain_cons in *; rewrite ?plain_app, ?plain_cons in *.
  all: try (rewrite Hs, u64_small); try (change (plain []) with 0 in *); try lia.
  { unfold wq_full in H. destruct wl; cbn in *; [lia|]. rewrite andb_true_r, Z.leb_gt in H.
  pose proof (plain_le (passed p)). pose proof (plain_le (waiting p)). pose proof (plain_le (running p)). lia. }
  destruct wl; lia.
Qed.

Lemma worker_loop_spec fuel n k :
  0 < n < 2 ^ 32 -> n <= Z.of_nat fuel -> worker_loop fuel n k = Some (k + n - 1).
Proof.
  revert n k. induction fuel as [|f IH]; intros n k Hn Hf; [lia|]. cbn.
  rewrite u32_small by lia. destruct (Z.eqb_spec (n - 1) 0); [f_equal; lia|]. rewrite IH by lia. f_equal. lia.
Qed.

(** One thread less than was asked for, and for none 2^32 - 1. *)
Lemma worker_loop_threads fuel :
  2 ^ 32 <= Z.of_nat fuel ->
  (forall n, 0 < n < 2 ^ 32 -> worker_loop fuel n 0 = Some (n - 1)) /\ worker_loop fuel 0 0 = Some (2 ^ 32 - 1).
Proof.
  intros Hf. split; [intros n Hn; rewrite worker_loop_spec by lia; f_equal; lia|].
  destruct fuel as [|f]; [lia|]. cbn [worker_loop]. replace (u32 (0 - 1)) with (2 ^ 32 - 1) by done.
  replace (2 ^ 32 - 1 =? 0) with false by done. rewrite worker_loop_spec by lia. f_equal.
Qed.

(** The size of the work queue. With at most [posters] threads in
    [postCoro], at any time the counter is the number of jobs that wait or run,
    and of the jobs of clients that are not whitelisted there are at most
    [maxSize - 1 + posters]: each thread can pass the check before another has
    counted its job. With one thread this is the limit. *)
Theorem work_queue_bound (posters : nat) (maxSize : Z) (p : Posting) :
  0 <= maxSize < 2 ^ 32 -> rtc (post_step posters) (posting_init maxSize) p ->
  curSize_ (pq p) = Z.of_nat (length (waiting p) + length (running p)) /\
  plain (waiting p ++ running p) <= (if maxSize =? 0 then 2 ^ 32 - 1 else maxSize) - 1 + Z.of_nat posters /\
  wq_full true (pq p) = false.
Proof.
  intros Hm Hr.
  assert (posting_ok posters (maxSize_ (WorkQueue_make maxSize)) p) as [Hs _ _ _ Hp].
  { revert p Hr. apply (rtc_ind_r (fun p => posting_ok _ _ p)); [|intros; by eapply posting_ok_step].
    split; cbn; try done; try lia. change (plain []) with 0.
    destruct (Z.eqb_spec maxSize 0); [change (u32 (-1)) with (2 ^ 32 - 1); lia|]. rewrite u32_small by lia. lia. }
  split; [done|]. split; [|by apply andb_false_r].
  rewrite plain_app. pose proof (plain_le (passed p)). cbn in Hp.
  destruct (Z.eqb_spec maxSize 0); [change (u32 (-1)) with (2 ^ 32 - 1) in Hp; lia|].
  rewrite u32_small in Hp by lia. lia.
Qed.

(** Two threads take two jobs for a queue of one. *)
Example queue_overshoot :
  exists p, rtc (post_step 2) (posting_init 1) p /\ plain (waiting p) = 2 /\ curSize_ (pq p) = 2.
Proof.
  exists (mkPosting (wq_enter (wq_enter (WorkQueue_make 1))) [] [false; false] []).
  split; [|by split]. { eapply rtc_l; [apply (ps_pass 2 false); [done | cbn; lia]|].
    eapply rtc_l; [apply (ps_pass 2 false); [done | cbn; lia]|].
    eapply rtc_l; [apply (ps_enter 2 _ [] false [false]); cbn; lia|].
    eapply rtc_l; [apply (ps_enter 2 _ [] false []); cbn; lia | apply rtc_refl]. }
Qed.

Lemma work_queue_bound_witness :
  exists p, rtc (post_step 1) (posting_init 1) p /\ waiting p = [false] /\ plain (waiting p ++ running p) <= 1.
Proof.
  assert (rtc (post_step 1) (posting_init 1) (mkPosting (wq_enter (WorkQueue_make 1)) [] [false] [])) as Hr.
  { eapply rtc_l; [apply (ps_pass 1 false); [done | cbn; lia]|].
    eapply rtc_l; [apply (ps_enter 1 _ [] false []); cbn; lia | apply rtc_refl]. }
  eexists. split; [exact Hr|]. split; [done|].
  destruct (work_queue_bound 1 1 _ ltac:(lia) Hr) as (_ & Hp & _). exact Hp.
Defined.

(** ** Lemmas: sessions *)

Record ws_ok (s : Ws) : Prop := {
  wo_sent : sent s = wire s ++ messages_ s;
  wo_writing : writing s = [] \/ writing s = take 1 (messages_ s) /\ sending_ s = true;
  wo_idle : ws_dead s = false -> sending_ s = false -> messages_ s = [];
  wo_sending : sending_ s = true -> messages_ s <> [];
  wo_cleaned : cleaned s = (if ws_dead s then 1 else 0)%nat
}.

(** Nothing has gone wrong: a write and a read are outstanding. *)
Definition ws_live (s : Ws) : Prop := ws_dead s = false -> writing s = take 1 (messages_ s) /\ reading s = true.

Lemma maybe_send_next_ok ec sd ms wr rd wi se cl :
  se = wi ++ ms -> (sd = true -> ms <> []) -> (sd = false -> wr = []) ->
  (wr = [] \/ wr = take 1 ms) -> cl = (if bool_decide (is_Some ec) then 1 else 0)%nat ->
  ws_ok (maybe_send_next (mkWs ec sd ms wr rd wi se cl)).
Proof.
  intros Hs Hsd Hw Hw' Hc. unfold maybe_send_next, ws_dead. cbn [ec_ sending_ messages_].
  destruct (bool_decide (is_Some ec)) eqn:Hd; [|destruct sd; [|destruct ms as [|m ms]]]; cbn [orb].
  - split; cbn; unfold ws_dead; cbn; rewrite ?Hd; try done; try congruence.
    destruct sd; [destruct Hw'; auto | left; auto].
  - split; cbn; unfold ws_dead; cbn; rewrite ?Hd; try done; try congruence. destruct Hw'; auto.
  - rewrite bool_decide_true by done. split; cbn; unfold ws_dead; cbn; rewrite ?Hd; try done; try congruence. auto.
  - rewrite bool_decide_false by done. unfold do_write. cbn. rewrite Hw by done.
    split; cbn; unfold ws_dead; cbn; rewrite ?Hd; try done; try congruence. auto.
Qed.

Lemma send_ok msg s : ws_ok s -> ws_ok (send msg s).
Proof.
  intros [Hs Hw Hi Hn Hc]. unfold send. apply maybe_send_next_ok.
  - by rewrite Hs, app_assoc.
  - intros _. by destruct (messages_ s).
  - intros Hf. destruct Hw as [?|[_ ?]]; [done | congruence].
  - destruct Hw as [?|[Hw Ht]]; [by left | right]. rewrite Hw.
    specialize (Hn Ht). by destruct (messages_ s).
  - exact Hc.
Qed.

Lemma wsFail_ok ec s : ws_ok s -> ws_ok (wsFail ec s).
Proof.
  intros [Hs Hw Hi Hn Hc]. unfold wsFail. destruct (ec_ s) as [c|] eqn:He; [by split|].
  destruct ec as [|code]; [by split|]. split; cbn; try done. rewrite Hc. unfold ws_dead. by rewrite He.
Qed.

Lemma set_reading_ok b s : ws_ok s -> ws_ok (set_reading b s).
Proof. by intros [Hs Hw Hi Hn Hc]. Qed.

Lemma do_read_ok s : ws_ok s -> ws_ok (do_read s).
Proof. unfold do_read. destruct (ws_dead s); [done | apply set_reading_ok]. Qed.

Lemma on_write_ok ec s : writing s <> [] -> ws_ok s -> ws_ok (on_write ec s).
Proof.
  intros Hne [Hs Hw Hi Hn Hc]. destruct Hw as [Hw|[Hw Hsd]]; [done|].
  destruct ec as [e|]; cbn.
  - apply wsFail_ok. rewrite Hw. split; cbn; try done. left. by destruct (messages_ s).
  - rewrite Hw. destruct (messages_ s) as [|m ms] eqn:Hm; [by destruct (Hn Hsd)|]. cbn. apply maybe_send_next_ok; try done.
    + by rewrite Hs, <- app_assoc.
    + by left.
Qed.

(** What the calls leave alone. *)
Lemma maybe_send_next_frame s :
  ec_ (maybe_send_next s) = ec_ s /\ reading (maybe_send_next s) = reading s /\ wire (maybe_send_next s) = wire s /\
  sent (maybe_send_next s) = sent s /\ messages_ (maybe_send_next s) = messages_ s.
Proof.
  unfold maybe_send_next. destruct (_ || _ || _); [done|]. unfold do_write.
  destruct s as [ec sd [|m ms] wr rd wi se cl]; cbn; by split_and!.
Qed.

Lemma live_next (ec : option Z) (sd : bool) (ms wr : list string) (rd : bool) wi se cl :
  (ec = None -> rd = true /\ wr = (if sd then take 1 ms else [])) ->
  ws_live (maybe_send_next (mkWs ec sd ms wr rd wi se cl)).
Proof.
  intros Hl Hd. unfold ws_dead in Hd. pose proof (maybe_send_next_frame (mkWs ec sd ms wr rd wi se cl)) as (He & Hr & _).
  rewrite He in Hd. cbn in Hd, He, Hr. rewrite Hr. destruct ec as [c|]; [by rewrite bool_decide_true in Hd|].
  destruct (Hl eq_refl) as [-> ->]. split; [|done]. unfold maybe_send_next, ws_dead. cbn [ec_ sending_ messages_].
  rewrite bool_decide_false by (by intros [? ?]). destruct sd; [done|]. cbn [orb].
  destruct ms as [|m ms]; [by rewrite bool_decide_true | by rewrite bool_decide_false].
Qed.

Lemma send_live msg s : ws_ok s -> ws_live s -> ws_live (send msg s).
Proof.
  intros [Hs Hw Hi Hn Hc] Hl. unfold send. apply live_next. intros He.
  assert (ws_dead s = false) as Hd by (unfold ws_dead; rewrite He; by apply bool_decide_false; intros [? ?]).
  destruct (Hl Hd) as [Hwr Hr]. split; [done|]. destruct (sending_ s) eqn:Hsd.
  - rewrite Hwr. specialize (Hn eq_refl). by destruct (messages_ s).
  - rewrite Hwr. by rewrite (Hi Hd eq_refl).
Qed.

Lemma fail_live code s : ws_live (wsFail (io_error code) s).
Proof.
  unfold ws_live, ws_dead, wsFail. by destruct s as [[c|] sd ms wr rd wi se cl].
Qed.

Lemma written_live s : writing s <> [] -> ws_ok s -> ws_live s -> ws_live (on_write None s).
Proof.
  intros Hne [Hs Hw Hi Hn Hc] Hl. unfold on_write. apply live_next. intros He. cbn in *.
  assert (ws_dead s = false) as Hd by (unfold ws_dead; by rewrite He).
  destruct (Hl Hd) as [-> ?]. split; [done|]. by destruct (messages_ s).
Qed.

Section system_lemmas.
Context `{RippledErrors} `{RequestText}.
Variable text : JsonObject -> string.
Variable ip : string.

(** The answers a request has given or will give, and what is outstanding. *)
Definition owed (s : Srv) : nat := length (sent (s_ws s)) + length (s_jobs s).

Lemma send_sent msg s : sent (send msg s) = sent s ++ [msg].
Proof. unfold send. by destruct (maybe_send_next_frame (mkWs (ec_ s) (sending_ s) (messages_ s ++ [msg]) (writing s) (reading s) (wire s) (sent s ++ [msg]) (cleaned s))) as (_ & _ & _ & -> & _). Qed.

Lemma refuse_owed err id request s : owed (refuse text ip err id request s) = S (owed s).
Proof.
  unfold refuse, owed. destruct (DOSGuard_add _ _ _) as [ok g]. cbn. rewrite send_sent, length_app. cbn. lia.
Qed.

Lemma refuse_ws err id request s : exists m, s_ws (refuse text ip err id request s) = send m (s_ws s).
Proof. unfold refuse. destruct (DOSGuard_add _ _ _) as [ok g]. by eexists. Qed.

(** A request is refused or becomes a job; then the next one is read. *)
Lemma on_read_spec msg s :
  owed (on_read text None msg (Some ip) s) = S (owed s) /\
  exists w, (w = set_reading false (s_ws s) \/ exists m, w = send m (set_reading false (s_ws s))) /\
    s_ws (on_read text None msg (Some ip) s) = do_read w.
Proof.
  unfold on_read. destruct (DOSGuard_request ip _) as [allowed g]. cbn.
  assert (forall s' : Srv, owed (mkSrv (s_guard s') (s_queue s') (do_read (s_ws s')) (s_jobs s')) = owed s') as Ho.
  { intros s'. unfold owed, do_read. cbn. by destruct (ws_dead _). }
  assert (forall err id request g q jobs,
    let s' := refuse text ip err id request (mkSrv g q (set_reading false (s_ws s)) jobs) in
    owed s' = S (length (sent (s_ws s)) + length jobs) /\
    exists w, (w = set_reading false (s_ws s) \/ exists m, w = send m (set_reading false (s_ws s))) /\
      do_read (s_ws s') = do_read w) as Hr.
  { intros err id request g' q jobs s'. split; [apply refuse_owed|].
    destruct (refuse_ws err id request (mkSrv g' q (set_reading false (s_ws s)) jobs)) as [m Hm].
    eexists. split; [right; by exists m|]. unfold s'. by rewrite Hm. }
  destruct allowed; cbn [negb]; [|rewrite Ho; apply Hr].
  destruct (match parse_json msg with Ok v => v | _ => JNull end); try (rewrite Ho; apply Hr).
  destruct (postCoro _ _) as [[] q]; [|rewrite Ho; apply Hr].
  rewrite Ho. split; [unfold owed; cbn; rewrite length_app; cbn; lia|]. eexists. split; [by left | done].
Qed.

(** Requests that arrive and publications. *)
Definition asks (e : WsEvent) : nat := match e with EvRead _ | EvPublish _ => 1 | _ => 0 end.

(** The failures that [wsFail] ignores. *)
Definition ignored (e : WsEvent) : bool :=
  match e with EvReadFail operation_aborted | EvWriteFail operation_aborted => true | _ => false end.

Lemma wsFail_sent ec s : sent (wsFail ec s) = sent s.
Proof. unfold wsFail. by destruct (ec_ s), ec. Qed.

Lemma on_write_sent ec s : sent (on_write ec s) = sent s.
Proof.
  destruct ec as [e|]; cbn; [by rewrite wsFail_sent|].
  match goal with |- context [maybe_send_next ?x] => by destruct (maybe_send_next_frame x) as (_ & _ & _ & -> & _) end.
Qed.

Lemma owed_event e s s' : ws_event text ip e s = Some s' -> owed s' = (asks e + owed s)%nat.
Proof.
  destruct e as [msg|ec|k answer|msg| |ec|g q]; cbn [ws_event asks Nat.add].
  - destruct (reading _); [|done]. intros <-%(inj Some). apply on_read_spec.
  - destruct (reading _); [|done]. intros <-%(inj Some). unfold owed, on_read. cbn. by rewrite wsFail_sent.
  - destruct (s_jobs s !! k) as [j|] eqn:Hj; [|done]. intros <-%(inj Some). unfold owed. cbn.
    rewrite send_sent, length_app, length_delete by done. cbn. apply lookup_lt_Some in Hj. lia.
  - intros <-%(inj Some). unfold owed. cbn. rewrite send_sent, length_app. cbn. lia.
  - case_bool_decide; [done|]. intros <-%(inj Some). unfold owed. cbn [s_ws s_jobs]. by rewrite on_write_sent.
  - case_bool_decide; [done|]. intros <-%(inj Some). unfold owed. cbn [s_ws s_jobs]. by rewrite on_write_sent.
  - by intros <-%(inj Some).
Qed.

Lemma do_read_live w : ws_ok w -> (ws_dead w = false -> writing w = take 1 (messages_ w)) -> ws_live (do_read w).
Proof. intros Hok Hw. unfold do_read. destruct (ws_dead w) eqn:Hd; [intros ?; congruence|]. intros _. split; [by apply Hw | done]. Qed.

Lemma read_live w : ws_ok w -> ws_live w ->
  (forall m, ws_live (do_read (send m (set_reading false w)))) /\ ws_live (do_read (set_reading false w)).
Proof.
  intros Hok Hl. assert (ws_dead w = false -> writing w = take 1 (messages_ w)) as Hw by (intros Hd; by apply Hl).
  split.
  - intros m. apply do_read_live; [by apply send_ok, set_reading_ok|]. intros Hd.
    assert (ws_live (send m w)) as Hm by by apply send_live.
    unfold send, ws_live, ws_dead in *. cbn [set_reading ec_ sending_ messages_ writing reading wire sent cleaned] in *.
    unfold maybe_send_next, do_write, ws_dead in *. cbn [ec_ sending_ messages_] in *.
    destruct (_ || _ || _); cbn in *; [by apply Hm|]. destruct (messages_ w); by apply Hm.
  - apply do_read_live; [by apply set_reading_ok | done].
Qed.

Lemma ok_event e s s' : ws_event text ip e s = Some s' -> ws_ok (s_ws s) -> ws_ok (s_ws s').
Proof.
  intros He Hok. destruct e as [msg|ec|k answer|msg| |ec|g q]; cbn [ws_event] in He.
  - destruct (reading _); [|done]. apply (inj Some) in He as <-.
    destruct (on_read_spec msg s) as (_ & w & Hw & ->). apply do_read_ok.
    destruct Hw as [->|[m ->]]; [|apply send_ok]; by apply set_reading_ok.
  - destruct (reading _); [|done]. apply (inj Some) in He as <-. by apply wsFail_ok, set_reading_ok.
  - destruct (s_jobs s !! k) as [j|]; [|done]. apply (inj Some) in He as <-. by apply send_ok.
  - apply (inj Some) in He as <-. by apply send_ok.
  - case_bool_decide; [done|]. apply (inj Some) in He as <-. by apply on_write_ok.
  - case_bool_decide; [done|]. apply (inj Some) in He as <-. by apply (on_write_ok (Some ec)).
  - by apply (inj Some) in He as <-.
Qed.

Lemma live_event e s s' :
  ws_event text ip e s = Some s' -> ignored e = false -> ws_ok (s_ws s) -> ws_live (s_ws s) -> ws_live (s_ws s').
Proof.
  intros He Hi Hok Hl. destruct e as [msg|ec|k answer|msg| |ec|g q]; cbn [ws_event] in He.
  - destruct (reading _); [|done]. apply (inj Some) in He as <-.
    destruct (on_read_spec msg s) as (_ & w & Hw & ->).
    destruct (read_live _ Hok Hl) as [Hm Hr]. destruct Hw as [->|[m ->]]; [exact Hr | apply Hm].
  - destruct (reading _); [|done]. apply (inj Some) in He as <-. destruct ec; [done | apply fail_live].
  - destruct (s_jobs s !! k) as [j|]; [|done]. apply (inj Some) in He as <-. by apply send_live.
  - apply (inj Some) in He as <-. by apply send_live.
  - case_bool_decide; [done|]. apply (inj Some) in He as <-. by apply written_live.
  - case_bool_decide; [done|]. apply (inj Some) in He as <-. destruct ec; [done | apply fail_live].
  - by apply (inj Some) in He as <-.
Qed.

(** A dead session. *)
Lemma dead_next s : ws_dead s = true -> maybe_send_next s = s.
Proof. unfold maybe_send_next. by intros ->. Qed.

Lemma dead_fail ec s : ws_dead s = true -> wsFail ec s = s.
Proof. unfold ws_dead, wsFail. rewrite bool_decide_eq_true. by intros [c ->]. Qed.

Lemma dead_event e s s' :
  ws_event text ip e s = Some s' -> ws_ok (s_ws s) -> ws_dead (s_ws s) = true ->
  ws_dead (s_ws s') = true /\ wire (s_ws s') ++ writing (s_ws s') `prefix_of` wire (s_ws s) ++ writing (s_ws s).
Proof.
  intros He Hok Hd. destruct e as [msg|ec|k answer|msg| |ec|g q]; cbn [ws_event] in He.
  - destruct (reading _); [|done]. apply (inj Some) in He as <-.
    destruct (on_read_spec msg s) as (_ & w & Hw & ->).
    destruct Hw as [->|[m ->]]; unfold do_read, send; rewrite ?dead_next by exact Hd;
      unfold ws_dead in *; cbn; by rewrite Hd.
  - destruct (reading _); [|done]. apply (inj Some) in He as <-. cbn. by rewrite dead_fail.
  - destruct (s_jobs s !! k) as [j|]; [|done]. apply (inj Some) in He as <-. cbn. unfold send. by rewrite dead_next.
  - apply (inj Some) in He as <-. cbn. unfold send. by rewrite dead_next.
  - case_bool_decide; [done|]. apply (inj Some) in He as <-. cbn. rewrite dead_next by exact Hd. split; [exact Hd|]. cbn.
    destruct (writing (s_ws s)) as [|m ms]; [done|]. by rewrite <- app_assoc.
  - case_bool_decide; [done|]. apply (inj Some) in He as <-. cbn. rewrite dead_fail by exact Hd. split; [exact Hd|]. cbn.
    destruct (wo_writing _ Hok) as [->|[-> _]]; [done|]. destruct (messages_ _); cbn; [done|].
    rewrite app_nil_r. by eexists.
  - by apply (inj Some) in He as <-.
Qed.

(** Histories. *)
Lemma ok_events l s s' : ws_events text ip l s = Some s' -> ws_ok (s_ws s) -> ws_ok (s_ws s').
Proof.
  revert s. induction l as [|e l IH]; intros s; cbn; [by intros [= ->]|].
  intros (s1 & He & Hl)%bind_Some Hok. by eapply IH, ok_event.
Qed.

Lemma live_events l s s' :
  ws_events text ip l s = Some s' -> Forall (fun e => ignored e = false) l ->
  ws_ok (s_ws s) -> ws_live (s_ws s) -> ws_live (s_ws s').
Proof.
  revert s. induction l as [|e l IH]; intros s; cbn; [by intros [= ->]|].
  intros (s1 & He & Hl)%bind_Some [Hi Hf]%Forall_cons Hok Hlive.
  eapply IH; [done..| by eapply ok_event | by eapply live_event].
Qed.

Lemma dead_events l s s' :
  ws_events text ip l s = Some s' -> ws_ok (s_ws s) -> ws_dead (s_ws s) = true ->
  ws_dead (s_ws s') = true /\ wire (s_ws s') ++ writing (s_ws s') `prefix_of` wire (s_ws s) ++ writing (s_ws s).
Proof.
  revert s. induction l as [|e l IH]; intros s; cbn; [by intros [= ->]|].
  intros (s1 & He & Hl)%bind_Some Hok Hd. destruct (dead_event e s s1 He Hok Hd) as [Hd1 Hp].
  destruct (IH s1 Hl) as [Hd' Hp']; [by eapply ok_event | done|]. split; [done | by etrans].
Qed.

Lemma owed_events l s s' : ws_events text ip l s = Some s' -> owed s' = (sum_list_with asks l + owed s)%nat.
Proof.
  revert s. induction l as [|e l IH]; intros s; cbn; [by intros [= ->]|].
  intros (s1 & He & Hl)%bind_Some. rewrite (IH s1 Hl), (owed_event e s s1 He). lia.
Qed.

(** When the client reads, all that was sent gets there. *)
Lemma drain s :
  ws_ok (s_ws s) -> ws_live (s_ws s) -> ws_dead (s_ws s) = false ->
  exists s', ws_events text ip (repeat EvWritten (length (messages_ (s_ws s)))) s = Some s' /\
    wire (s_ws s') = sent (s_ws s) /\ messages_ (s_ws s') = [] /\ ws_dead (s_ws s') = false.
Proof.
  remember (length (messages_ (s_ws s))) as n eqn:Hn. revert s Hn.
  induction n as [|n IH]; intros s Hn Hok Hlive Hd.
  - exists s. assert (messages_ (s_ws s) = []) as Hm by (by apply nil_length_inv).
    split_and!; [done | | done | done]. by rewrite (wo_sent _ Hok), Hm, app_nil_r.
  - destruct (Hlive Hd) as [Hw _]. destruct (messages_ (s_ws s)) as [|m ms] eqn:Hm; [done|]. cbn [repeat ws_events ws_event].
    rewrite Hw. rewrite bool_decide_false by done. cbn [mbind option_bind].
    set (w := on_write None (s_ws s)).
    assert (writing (s_ws s) <> []) as Hne by by rewrite Hw.
    pose proof (on_write_ok None _ Hne Hok) as Hok'. pose proof (written_live _ Hne Hok Hlive) as Hl'.
    assert (messages_ w = ms /\ sent w = sent (s_ws s) /\ ws_dead w = false) as (Hms & Hse & Hd').
    { unfold w, on_write, ws_dead. match goal with |- context [maybe_send_next ?x] =>
        destruct (maybe_send_next_frame x) as (-> & _ & _ & -> & ->) end. cbn. by rewrite Hm. }
    destruct (IH (mkSrv (s_guard s) (s_queue s) w (s_jobs s))) as (s' & Hr & Hwi & Hme & Hde); try done.
    { cbn [s_ws]. rewrite Hms. cbn in Hn. lia. }
    exists s'. split_and!; [exact Hr | by rewrite Hwi | done | done].
Qed.

End system_lemmas.

(** ** Claims *)

Section claims.
Context `{RippledErrors} `{RequestText}.

Lemma init_ok : ws_ok ws_init /\ ws_live ws_init.
Proof. split; [by split; cbn; auto | by intros _]. Qed.

(** C7: what a websocket client receives. In every history of a session the
    messages that were sent to it are those on the wire followed by those still
    queued, in the order of the calls and none twice; at most one write is
    outstanding, of the first queued message, as the library demands; the manager
    is told once of a failed session and never of another. After a failure no
    further write begins. Without a failure that [wsFail] ignores, a session that
    has not failed has a read outstanding, a write when anything is queued, and
    when its writes complete everything sent is on the wire. *)
Theorem ws_fifo (text : JsonObject -> string) (ip : string) (g : DOSGuard) (q : WorkQueue) (l : list WsEvent) (s : Srv) :
  ws_events text ip l (mkSrv g q ws_init []) = Some s ->
  sent (s_ws s) = wire (s_ws s) ++ messages_ (s_ws s) /\
  (writing (s_ws s) = [] \/ writing (s_ws s) = take 1 (messages_ (s_ws s))) /\
  cleaned (s_ws s) = (if ws_dead (s_ws s) then 1 else 0)%nat /\
  (ws_dead (s_ws s) = true -> forall l' s', ws_events text ip l' s = Some s' ->
     wire (s_ws s') ++ writing (s_ws s') `prefix_of` wire (s_ws s) ++ writing (s_ws s)) /\
  (Forall (fun e => ignored e = false) l -> ws_dead (s_ws s) = false ->
     reading (s_ws s) = true /\ writing (s_ws s) = take 1 (messages_ (s_ws s)) /\
     exists s', ws_events text ip (repeat EvWritten (length (messages_ (s_ws s)))) s = Some s' /\
       wire (s_ws s') = sent (s_ws s)).
Proof.
  intros Hr. destruct init_ok as [Hok0 Hl0]. pose proof (ok_events text ip l _ s Hr Hok0) as Hok.
  split_and!; [apply Hok | | apply Hok | |].
  - destruct (wo_writing _ Hok) as [?|[? _]]; auto.
  - intros Hd l' s' Hr'. by destruct (dead_events text ip l' s s' Hr' Hok Hd).
  - intros Hf Hd. pose proof (live_events text ip l _ s Hr Hf Hok0 Hl0) as Hl. destruct (Hl Hd) as [Hw Hrd].
    destruct (drain text ip s Hok Hl Hd) as (s' & Hs' & Hwi & _). eauto 6.
Qed.

(** Every request is answered once. In every history of a session the
    requests that were read and the publications are together as many as the
    messages sent and the jobs that are not done: a request is refused with one
    message or becomes one job, which sends one. *)
Theorem ws_one_answer (text : JsonObject -> string) (ip : string) (g : DOSGuard) (q : WorkQueue) (l : list WsEvent) (s : Srv) :
  ws_events text ip l (mkSrv g q ws_init []) = Some s ->
  (length (sent (s_ws s)) + length (s_jobs s))%nat = sum_list_with asks l.
Proof. intros Hr. apply (owed_events text ip l) in Hr. unfold owed in Hr. cbn in Hr. lia. Qed.

End claims.

(** Two requests, the second past the limit of one. *)
#[local] Instance ws_errors : RippledErrors :=
  { error_number := fun _ => 10; error_token := fun _ => "slowDown"; error_text := fun _ => "Slow down." }.

#[local] Instance ws_text : RequestText :=
  { parse_json := fun s => Ok (JObject [("command", JString s)]); is_runtime_error := fun _ => false }.

Definition two_requests : list WsEvent :=
  [EvRead "ledger"; EvRead "tx"; EvWritten; EvJob 0 "answer"; EvPublish "news"; EvWritten].

Definition two_start : Srv := mkSrv (mkDOSGuard ∅ ∅ ∅ 1000 10 1) (WorkQueue_make 5) ws_init [].

Definition two_text (o : JsonObject) : string := if contains o "request" then "refused" else "other".

Lemma ws_fifo_witness :
  exists s, ws_events two_text "a" two_requests two_start = Some s /\
    sent (s_ws s) = ["refused"; "answer"; "news"] /\ wire (s_ws s) ++ messages_ (s_ws s) = ["refused"; "answer"; "news"] /\
    exists s', ws_events two_text "a" (repeat EvWritten 1) s = Some s' /\ wire (s_ws s') = ["refused"; "answer"; "news"].
Proof.
  eexists. split; [vm_compute; reflexivity|]. split; [reflexivity|].
  match goal with |- context [wire (s_ws ?s)] =>
    destruct (ws_fifo two_text "a" (s_guard two_start) (s_queue two_start) two_requests s) as (He & _ & _ & _ & Hl) end;
    [vm_compute; reflexivity|].
  split; [by rewrite <- He|].
  destruct Hl as (_ & _ & s' & Hs & Hw); [by repeat constructor | reflexivity|].
  exists s'. split; [exact Hs | exact Hw].
Defined.

Lemma ws_one_answer_witness :
  exists s, ws_events two_text "a" (take 3 two_requests) two_start = Some s /\
    (length (sent (s_ws s)) + length (s_jobs s))%nat = 2%nat.
Proof.
  eexists. split; [vm_compute; reflexivity|].
  refine (ws_one_answer two_text "a" (s_guard two_start) (s_queue two_start) (take 3 two_requests) _ _).
  vm_compute. reflexivity.
Defined.
