(* ===== verification/OrderBook.v ===== *)
(** The offers of a book and what they are good for ([rpc/RPCHelpers.cpp]).

    [isGlobalFrozen] ... [transferRate] read an account's standing from a ledger;
    [postProcessOrderBook] walks the offers in the order of their quality with
    the balance each owner has left. An offer that cannot be processed is left
    out. Amounts and their arithmetic are rippled's (class [Amounts]); the
    comparisons and the arithmetic of amounts of different kinds throw.

    [xrp_book_funds]: the offers of one owner together never pay more than he has. *)

From stdpp Require Import base list gmap strings.
From Stdlib Require Import ZArith Lia.
From S2P Require Import Prelude Types TreeRipple SimpleCache Backend Json Requests Subscriptions Directory.

#[local] Open Scope string_scope.
#[local] Open Scope list_scope.
Open Scope Z_scope.

(** Amounts ([STAmount]); [isFlag]; [keylet::line(a, b, currency).key];
    [Fees::accountReserve]; rates ([Rate], parity is one thousand millions).
    [amt_clear_issue] is [clear(issue)], [amt_clear] is [clear()]; an amount of
    XRP is made from drops and gives them back. *)
Class Amounts `{Ripple} := {
  STAmount : Type;
  getFieldAmount : STObject -> SField -> Res STAmount;
  isFlag : STObject -> Z -> bool;
  keylet_line : AccountID -> AccountID -> Z -> uint256;
  accountReserve : Fees -> Z -> Z;
  amt_default : STAmount;
  amt_native : STAmount -> bool;
  amt_currency : STAmount -> Z;
  amt_issuer : STAmount -> AccountID;
  amt_clear_issue : Z * Z -> STAmount;
  amt_clear : STAmount -> STAmount;
  amt_of_xrp : Z -> STAmount;
  amt_xrp : STAmount -> Res Z;
  amt_negate : STAmount -> STAmount;
  amt_setIssuer : AccountID -> STAmount -> STAmount;
  amt_negative : STAmount -> bool;
  amt_less : STAmount -> STAmount -> Res bool;
  amt_sub : STAmount -> STAmount -> Res STAmount;
  amt_multiply : STAmount -> STAmount -> Z * Z -> Res STAmount;
  rate_multiply : STAmount -> Z -> Res STAmount;
  rate_divide : STAmount -> Z -> Res STAmount;
  getQuality : uint256 -> Z;
  amountFromQuality : Z -> Res STAmount;
  amt_json : STAmount -> json;
  amt_text : STAmount -> string;
  offer_toJson : STObject -> JsonObject
}.

Definition lsfGlobalFreeze : Z := 0x00400000.
Definition lsfLowFreeze : Z := 0x00400000.
Definition lsfHighFreeze : Z := 0x00800000.
Definition parityRate : Z := 1000000000.

Section reads.
Context `{BackendImpl W} `{Amounts} `{RippleKeylets}.

Definition isGlobalFrozen (sequence : Z) (issuer : AccountID) : M W bool :=
  if isXRP issuer then mret false
  else
    let key := keylet_account issuer in
    blob ← fetchLedgerObject key sequence;
    match blob with
    | None => mret false
    | Some b => sle ← lift_res (parseSLE b key); mret (isFlag sle lsfGlobalFreeze)
    end.

Definition isFrozen (sequence : Z) (account : AccountID) (currency : Z) (issuer : AccountID) : M W bool :=
  if isXRP currency then mret false
  else
    let key := keylet_account issuer in
    blob ← fetchLedgerObject key sequence;
    match blob with
    | None => mret false
    | Some b =>
        sle ← lift_res (parseSLE b key);
        if isFlag sle lsfGlobalFreeze then mret true
        else if negb (issuer =? account) then
          let key := keylet_line account issuer currency in
          blob ← fetchLedgerObject key sequence;
          match blob with
          | None => mret false
          | Some b =>
              issuerLine ← lift_res (parseSLE b key);
              let frozen := if issuer >? account then lsfHighFreeze else lsfLowFreeze in
              mret (isFlag issuerLine frozen)
          end
        else mret false
    end.

(** [fetchFees] of a ledger without the object: an empty optional is
    dereferenced. *)
Definition xrpLiquid (sequence : Z) (id : AccountID) : M W Z :=
  let key := keylet_account id in
  blob ← fetchLedgerObject key sequence;
  match blob with
  | None => mret 0
  | Some b =>
      sle ← lift_res (parseSLE b key);
      ownerCount ← lift_res (getFieldU32 sle sfOwnerCount);
      fees ← fetchFees sequence;
      match fees with
      | None => throw BadOptionalAccess
      | Some fees =>
          let reserve := amt_of_xrp (accountReserve fees ownerCount) in
          balance ← lift_res (getFieldAmount sle sfBalance);
          amount ← lift_res (amt_sub balance reserve);
          less ← lift_res (amt_less balance reserve);
          lift_res (amt_xrp (if (less : bool) then amt_clear amount else amount))
      end
  end.

Definition accountHolds (sequence : Z) (account : AccountID) (currency : Z) (issuer : AccountID)
    (zeroIfFrozen : bool) : M W STAmount :=
  if isXRP currency then drops ← xrpLiquid sequence account; mret (amt_of_xrp drops)
  else
    let key := keylet_line account issuer currency in
    blob ← fetchLedgerObject key sequence;
    match blob with
    | None => mret (amt_clear_issue (currency, issuer))
    | Some b =>
        sle ← lift_res (parseSLE b key);
        frozen ← if zeroIfFrozen then isFrozen sequence account currency issuer else mret false;
        if (frozen : bool) then mret (amt_clear_issue (currency, issuer))
        else
          amount ← lift_res (getFieldAmount sle sfBalance);
          mret (amt_setIssuer issuer (if account >? issuer then amt_negate amount else amount))
    end.

Definition accountFunds (sequence : Z) (amount : STAmount) (id : AccountID) : M W STAmount :=
  if negb (amt_native amount) && (amt_issuer amount =? id) then mret amount
  else accountHolds sequence id (amt_currency amount) (amt_issuer amount) true.

Definition transferRate (sequence : Z) (issuer : AccountID) : M W Z :=
  let key := keylet_account issuer in
  blob ← fetchLedgerObject key sequence;
  match blob with
  | None => mret parityRate
  | Some b =>
      sle ← lift_res (parseSLE b key);
      if isFieldPresent sle sfTransferRate then lift_res (getFieldU32 sle sfTransferRate) else mret parityRate
  end.

(** ** The offers *)

(** [std::min], which compares its second argument with the first. *)
Definition amt_min (a b : STAmount) : Res STAmount := less ← amt_less b a; Ok (if (less : bool) then b else a).

(** What is worked out for one offer; [ol_funded] is what a partly funded one
    gives and takes. *)
Record OfferLine := mkOfferLine {
  ol_offer : STObject;
  ol_owner : AccountID;
  ol_funds : STAmount;
  ol_first : bool;
  ol_funded : option (STAmount * STAmount);
  ol_pays : STAmount;
  ol_quality : STAmount
}.

Definition offer_funds (book : Book) (ledgerSequence : Z) (globalFreeze : bool) (umBalance : gmap AccountID STAmount)
    (owner : AccountID) (saTakerGets : STAmount) : M W (STAmount * bool) :=
  if book.(book_out).2 =? owner then mret (saTakerGets, true)
  else if globalFreeze then mret (amt_clear_issue (book_out book), true)
  else
    match umBalance !! owner with
    | Some funds => mret (funds, false)
    | None =>
        funds ← accountHolds ledgerSequence owner (book_out book).1 (book_out book).2 true;
        mret (if amt_negative funds then amt_clear funds else funds, true)
    end.

Definition offer_line (book : Book) (takerID : AccountID) (rate : Z) (offer : STObject) (owner : AccountID)
    (saTakerGets saTakerPays : STAmount) (bookDir : uint256) (funds : STAmount * bool) : Res OfferLine :=
  let '(saOwnerFunds, firstOwnerOffer) := funds in
  dirRate ← amountFromQuality (getQuality bookDir);
  let fee := negb (rate =? parityRate) && negb (takerID =? (book_out book).2) && negb ((book_out book).2 =? owner) in
  let offerRate := if fee then rate else parityRate in
  saOwnerFundsLimit ← if fee then rate_divide saOwnerFunds offerRate else Ok saOwnerFunds;
  less ← amt_less saOwnerFundsLimit saTakerGets;
  funded ← if (less : bool) then
             product ← amt_multiply saOwnerFundsLimit dirRate (amt_currency saTakerPays, amt_issuer saTakerPays);
             pays ← amt_min saTakerPays product;
             Ok (Some (saOwnerFundsLimit, pays))
           else Ok None;
  let saTakerGetsFunded := if (less : bool) then saOwnerFundsLimit else saTakerGets in
  saOwnerPays ← if offerRate =? parityRate then Ok saTakerGetsFunded
                else product ← rate_multiply saTakerGetsFunded offerRate; amt_min saOwnerFunds product;
  Ok (mkOfferLine offer owner saOwnerFunds firstOwnerOffer funded saOwnerPays dirRate).

(** The body of the loop: the line and the balances after it. *)
Definition process_offer (book : Book) (takerID : AccountID) (ledgerSequence : Z) (globalFreeze : bool) (rate : Z)
    (umBalance : gmap AccountID STAmount) (obj : LedgerObject) : M W (gmap AccountID STAmount * OfferLine) :=
  offer ← lift_res (parseSLE (lo_blob obj) (lo_key obj));
  bookDir ← lift_res (getFieldH256 offer sfBookDirectory);
  owner ← lift_res (getAccountID offer sfAccount);
  saTakerGets ← lift_res (getFieldAmount offer sfTakerGets);
  saTakerPays ← lift_res (getFieldAmount offer sfTakerPays);
  funds ← offer_funds book ledgerSequence globalFreeze umBalance owner saTakerGets;
  line ← lift_res (offer_line book takerID rate offer owner saTakerGets saTakerPays bookDir funds);
  balance ← lift_res (amt_sub (ol_funds line) (ol_pays line));
  mret (<[owner := balance]> umBalance, line).

Fixpoint book_lines (book : Book) (takerID : AccountID) (ledgerSequence : Z) (globalFreeze : bool) (rate : Z)
    (umBalance : gmap AccountID STAmount) (offers : list LedgerObject) : M W (list OfferLine) :=
  match offers with
  | [] => mret []
  | obj :: offers' =>
      r ← catch_all
            (x ← process_offer book takerID ledgerSequence globalFreeze rate umBalance obj; mret (Some x))
            (mret None);
      match r with
      | None => book_lines book takerID ledgerSequence globalFreeze rate umBalance offers'
      | Some (umBalance', line) =>
          lines ← book_lines book takerID ledgerSequence globalFreeze rate umBalance' offers';
          mret (line :: lines)
      end
  end.

Definition line_json (l : OfferLine) : json :=
  let o := offer_toJson (ol_offer l) in
  let o := match ol_funded l with
           | Some (gets, pays) => obj_set "taker_pays_funded" (amt_json pays) (obj_set "taker_gets_funded" (amt_json gets) o)
           | None => o
           end in
  let o := if ol_first l then obj_set "owner_funds" (JString (amt_text (ol_funds l))) o else o in
  JObject (obj_set "quality" (JString (amt_text (ol_quality l))) o).

(** The freeze of the asset that is paid for is asked for twice, that of the
    other asset not at all. *)
Definition order_book_lines (offers : list LedgerObject) (book : Book) (takerID : AccountID) (ledgerSequence : Z)
  : M W (list OfferLine) :=
  frozen ← isGlobalFrozen ledgerSequence (book_out book).2;
  globalFreeze ← if (frozen : bool) then mret true else isGlobalFrozen ledgerSequence (book_out book).2;
  rate ← transferRate ledgerSequence (book_out book).2;
  book_lines book takerID ledgerSequence globalFreeze rate ∅ offers.

Definition postProcessOrderBook (offers : list LedgerObject) (book : Book) (takerID : AccountID) (ledgerSequence : Z)
  : M W (list json) :=
  lines ← order_book_lines offers book takerID ledgerSequence;
  mret (line_json <$> lines).

End reads.

(** ** Lemmas *)

(** Amounts of XRP: drops, exact and comparable with each other. *)
Class XrpLaws `{Amounts} := {
  amt_drops : STAmount -> Z;
  xl_of_xrp : forall z, amt_native (amt_of_xrp z) = true /\ amt_drops (amt_of_xrp z) = z;
  xl_clear : forall a, amt_native a = true -> amt_native (amt_clear a) = true /\ amt_drops (amt_clear a) = 0;
  xl_negative : forall a, amt_native a = true -> amt_negative a = (amt_drops a <? 0);
  xl_less : forall a b, amt_native a = true -> amt_native b = true -> amt_less a b = Ok (amt_drops a <? amt_drops b);
  xl_sub : forall a b c, amt_native a = true -> amt_native b = true -> amt_sub a b = Ok c ->
    amt_native c = true /\ amt_drops c = amt_drops a - amt_drops b;
  xl_multiply : forall a r c, amt_native a = true -> rate_multiply a r = Ok c -> amt_native c = true;
  xl_divide : forall a r c, amt_native a = true -> rate_divide a r = Ok c -> amt_native c = true
}.

Section lemmas.
Context `{BackendImpl W} `{Amounts} `{RippleKeylets} `{!XrpLaws}.

Lemma lift_bind_ok {A B} (r : Res A) (f : A -> M W B) w b w' :
  (lift_res r ≫= f) w = (Ok b, w') -> exists a, r = Ok a /\ f a w = (Ok b, w').
Proof. unfold lift_res, mbind, M_bind. destruct r as [a|e|]; [by eauto | done..]. Qed.

Lemma m_bind_ok {A B} (m : M W A) (f : A -> M W B) w b w' :
  (m ≫= f) w = (Ok b, w') -> exists a w1, m w = (Ok a, w1) /\ f a w1 = (Ok b, w').
Proof. unfold mbind, M_bind. destruct (m w) as [[a|e|] w1]; [by eauto | done..]. Qed.

Lemma res_bind_ok {A B} (r : Res A) (f : A -> Res B) b :
  (r ≫= f) = Ok b -> exists a, r = Ok a /\ f a = Ok b.
Proof. destruct r as [a|e|]; [by eauto | done..]. Qed.

(** What an offer pays is covered by what its owner has. *)
Lemma offer_line_pays book taker rate offer owner gets pays dir funds first line :
  amt_native gets = true -> amt_native funds = true ->
  offer_line book taker rate offer owner gets pays dir (funds, first) = Ok line ->
  ol_owner line = owner /\ ol_first line = first /\ ol_funds line = funds /\
  amt_native (ol_pays line) = true /\ amt_drops (ol_pays line) <= amt_drops funds.
Proof.
  intros Hg Hf Hl. unfold offer_line in Hl.
  apply res_bind_ok in Hl as (dirRate & _ & Hl).
  set (fee := _ && _) in Hl. set (offerRate := if fee then rate else parityRate) in Hl.
  apply res_bind_ok in Hl as (limit & Hlim & Hl). apply res_bind_ok in Hl as (less & Hless & Hl).
  apply res_bind_ok in Hl as (funded & _ & Hl). apply res_bind_ok in Hl as (p & Hp & Hl).
  assert (amt_native limit = true) as Hnl.
  { destruct fee; [by eapply xl_divide | by injection Hlim as <-]. }
  rewrite xl_less in Hless by done. injection Hless as <-.
  set (out := if amt_drops limit <? amt_drops gets then limit else gets) in *.
  assert (amt_native out = true) as Hno by (unfold out; by destruct (_ <? _)).
  assert (amt_native p = true /\ amt_drops p <= amt_drops funds) as [Hnp Hle].
  { destruct (offerRate =? parityRate) eqn:Hr.
    - injection Hp as <-. split; [done|].
      assert (amt_drops limit <= amt_drops funds \/ fee = true) as [Hd|Hfee].
      { destruct fee; [by right | left]. injection Hlim as ->. lia. }
      + unfold out. destruct (Z.ltb_spec (amt_drops limit) (amt_drops gets)); lia.
      + unfold offerRate, fee in *. rewrite Hfee in Hr. apply andb_prop in Hfee as [Hfee _].
        apply andb_prop in Hfee as [Hfee _]. by rewrite Hr in Hfee.
    - apply res_bind_ok in Hp as (prod & Hprod & Hp). apply xl_multiply in Hprod; [|done].
      unfold amt_min in Hp. rewrite xl_less in Hp by done. cbn in Hp. injection Hp as <-.
      destruct (Z.ltb_spec (amt_drops prod) (amt_drops funds)); split; (done || lia). }
  injection Hl as <-. by split_and!.
Qed.

(** What a line says of its offer: its owner, the quality of its directory, and,
    where less than all of the offer is funded and only there, what the taker gets
    and what he pays for that at this quality, at most what the offer asks. Unless
    the issuer takes a fee the owner pays what the taker gets. *)
Definition line_promises (rate : Z) (l : OfferLine) : Prop :=
  exists gets pays dir,
    getAccountID (ol_offer l) sfAccount = Ok (ol_owner l) /\
    getFieldAmount (ol_offer l) sfTakerGets = Ok gets /\ getFieldAmount (ol_offer l) sfTakerPays = Ok pays /\
    getFieldH256 (ol_offer l) sfBookDirectory = Ok dir /\ amountFromQuality (getQuality dir) = Ok (ol_quality l) /\
    match ol_funded l with
    | Some (funded, paid) =>
        amt_drops funded < amt_drops gets /\ (rate = parityRate -> funded = ol_funds l /\ ol_pays l = funded) /\
        exists product, amt_multiply funded (ol_quality l) (amt_currency pays, amt_issuer pays) = Ok product /\
          amt_min pays product = Ok paid
    | None => rate = parityRate -> amt_drops gets <= amt_drops (ol_funds l) /\ ol_pays l = gets
    end.

Lemma offer_line_promises book taker rate offer owner gets pays dir funds first line :
  amt_native gets = true -> amt_native funds = true ->
  getAccountID offer sfAccount = Ok owner -> getFieldAmount offer sfTakerGets = Ok gets ->
  getFieldAmount offer sfTakerPays = Ok pays -> getFieldH256 offer sfBookDirectory = Ok dir ->
  offer_line book taker rate offer owner gets pays dir (funds, first) = Ok line ->
  ol_offer line = offer /\ line_promises rate line.
Proof.
  intros Hg Hf Ho Hgets Hpays Hdir Hl. unfold offer_line in Hl.
  apply res_bind_ok in Hl as (dirRate & Hq & Hl).
  set (fee := _ && _) in Hl. set (offerRate := if fee then rate else parityRate) in Hl.
  apply res_bind_ok in Hl as (limit & Hlim & Hl). apply res_bind_ok in Hl as (less & Hless & Hl).
  apply res_bind_ok in Hl as (funded & Hfun & Hl). apply res_bind_ok in Hl as (p & Hp & Hl).
  assert (amt_native limit = true) as Hnl.
  { destruct fee; [by eapply xl_divide | by injection Hlim as <-]. }
  rewrite xl_less in Hless by done. injection Hless as <-.
  assert (rate = parityRate -> limit = funds /\ p = (if amt_drops limit <? amt_drops gets then limit else gets)) as Hpaid.
  { intros ->. unfold offerRate in Hp. replace (if fee then parityRate else parityRate) with parityRate in Hp
      by (by destruct fee). assert (fee = false) as Hfee by done. rewrite Hfee in Hlim. injection Hlim as <-. by injection Hp as <-. }
  injection Hl as <-. split; [done|]. exists gets, pays, dir. cbn [ol_offer ol_owner ol_funded ol_pays ol_quality ol_funds].
  split_and!; [done..|].
  destruct (Z.ltb_spec (amt_drops limit) (amt_drops gets)) as [Hlt|Hge].
  - apply res_bind_ok in Hfun as (prod & Hprod & Hfun). apply res_bind_ok in Hfun as (q & Hmin & Hfun).
    injection Hfun as <-. split; [done|]. split; [done|]. by exists prod.
  - injection Hfun as <-. intros Hr. by destruct (Hpaid Hr) as [-> ->].
Qed.

(** The lines of the offers, one after the other; an offer without a line is one
    whose processing threw. *)
Inductive lines_for (book : Book) (takerID : AccountID) (seq : Z) (frozen : bool) (rate : Z)
  : list LedgerObject -> list OfferLine -> Prop :=
| lines_end : lines_for book takerID seq frozen rate [] []
| lines_line obj offers l lines :
    parseSLE (lo_blob obj) (lo_key obj) = Ok (ol_offer l) ->
    lines_for book takerID seq frozen rate offers lines ->
    lines_for book takerID seq frozen rate (obj :: offers) (l :: lines)
| lines_left_out obj offers lines um w e w' :
    process_offer book takerID seq frozen rate um obj w = (Throw e, w') ->
    lines_for book takerID seq frozen rate offers lines ->
    lines_for book takerID seq frozen rate (obj :: offers) lines.

Definition lines_of (o : AccountID) (lines : list OfferLine) : list OfferLine :=
  filter (fun l => ol_owner l = o) lines.

Definition paid (lines : list OfferLine) : Z := foldr (fun l z => amt_drops (ol_pays l) + z) 0 lines.

Lemma paid_cons l lines : paid (l :: lines) = amt_drops (ol_pays l) + paid lines.
Proof. done. Qed.

(** The funds of each line of an owner are what the lines before it have left. *)
Fixpoint spent_down (left : Z) (lines : list OfferLine) : Prop :=
  match lines with
  | [] => True
  | l :: ls => amt_drops (ol_funds l) = left /\ spent_down (left - amt_drops (ol_pays l)) ls
  end.

(** The lines of an owner with the balance that is left of him. *)
Definition spends (left : Z) (lines : list OfferLine) : Prop :=
  Forall (fun l => ol_first l = false) lines /\ spent_down left lines /\ paid lines <= left.

Definition starts (sequence : Z) (o : AccountID) (lines : list OfferLine) : Prop :=
  match lines with
  | [] => True
  | l :: ls =>
      ol_first l = true /\ Forall (fun l => ol_first l = false) ls /\
      exists w w' drops, xrpLiquid sequence o w = (Ok drops, w') /\
        spent_down (Z.max 0 drops) lines /\ paid lines <= Z.max 0 drops
  end.

Definition balances_ok (umBalance : gmap AccountID STAmount) : Prop :=
  forall o a, umBalance !! o = Some a -> amt_native a = true /\ 0 <= amt_drops a.

Definition sells_xrp (obj : LedgerObject) : Prop :=
  forall sle a, parseSLE (lo_blob obj) (lo_key obj) = Ok sle -> getFieldAmount sle sfTakerGets = Ok a -> amt_native a = true.

(** One offer of a book of XRP. *)
Lemma process_offer_xrp book taker seq rate um obj w um' line w' :
  book_out book = (0, 0) -> sells_xrp obj -> balances_ok (delete 0 um) ->
  process_offer book taker seq false rate um obj w = (Ok (um', line), w') ->
  (parseSLE (lo_blob obj) (lo_key obj) = Ok (ol_offer line) /\ line_promises rate line) /\
  (forall o, o <> ol_owner line -> um' !! o = um !! o) /\ balances_ok (delete 0 um') /\
  (ol_owner line <> 0 ->
   exists a, um' !! ol_owner line = Some a /\ 0 <= amt_drops a /\
     amt_drops a = amt_drops (ol_funds line) - amt_drops (ol_pays line) /\
     match um !! ol_owner line with
     | Some f => ol_first line = false /\ ol_funds line = f
     | None => ol_first line = true /\ exists w1 w2 drops, xrpLiquid seq (ol_owner line) w1 = (Ok drops, w2) /\
                 amt_drops (ol_funds line) = Z.max 0 drops
     end).
Proof.
  intros Hb Hx Hum Hp. unfold process_offer in Hp.
  apply lift_bind_ok in Hp as (sle & Hs & Hp). apply lift_bind_ok in Hp as (dir & Hdir & Hp).
  apply lift_bind_ok in Hp as (owner & Howner & Hp). apply lift_bind_ok in Hp as (gets & Hg & Hp).
  apply lift_bind_ok in Hp as (pays & Hpays & Hp). apply m_bind_ok in Hp as ([funds first] & w1 & Hf & Hp).
  apply lift_bind_ok in Hp as (l & Hl & Hp). apply lift_bind_ok in Hp as (bal & Hbal & Hp).
  injection Hp as <- <- <-. specialize (Hx _ _ Hs Hg). unfold offer_funds in Hf. rewrite Hb in Hf. cbn [fst snd] in Hf.
  assert (amt_native funds = true /\ (owner <> 0 -> 0 <= amt_drops funds /\
    match um !! owner with
    | Some f => first = false /\ funds = f
    | None => first = true /\ exists w1 w2 drops, xrpLiquid seq owner w1 = (Ok drops, w2) /\ amt_drops funds = Z.max 0 drops
    end)) as [Hnf Hown].
  { destruct (Z.eqb_spec 0 owner) as [<-|Hne]; [by injection Hf as <- <- <-|].
    destruct (um !! owner) as [f|] eqn:Hu.
    - injection Hf as <- <- <-. destruct (Hum owner f) as [? ?]; [by rewrite lookup_delete_ne | done].
    - apply m_bind_ok in Hf as (a & w2 & Ha & Hf). unfold accountHolds in Ha. cbn in Ha.
      apply m_bind_ok in Ha as (d & w3 & Hd & Ha). injection Ha as <- <-. injection Hf as <- <- <-.
      destruct (xl_of_xrp d) as [Hn Hv]. rewrite xl_negative, Hv by done. destruct (xl_clear _ Hn) as [Hn0 Hv0].
      destruct (Z.ltb_spec d 0).
      + split; [done|]. intros _. rewrite Hv0. split; [lia|]. split; [done|]. exists w, w3, d. split; [done | lia].
      + split; [done|]. intros _. rewrite Hv. split; [lia|]. split; [done|]. exists w, w3, d. split; [done | lia]. }
  split.
  { destruct (offer_line_promises _ _ _ _ _ _ _ _ _ _ _ Hx Hnf Howner Hg Hpays Hdir Hl) as [-> ?]. by split. }
  destruct (offer_line_pays _ _ _ _ _ _ _ _ _ _ _ Hx Hnf Hl) as (Ho & Hfi & Hfu & Hnp & Hle). rewrite Ho, Hfi, Hfu in *.
  destruct (xl_sub _ _ _ Hnf Hnp Hbal) as [Hnb Hvb]. split_and!.
  - intros o Hne. by rewrite lookup_insert_ne.
  - intros o a Ha. rewrite lookup_delete_Some in Ha. destruct Ha as [Hn0 Ha].
    destruct (decide (o = owner)) as [->|Hne]; [|rewrite lookup_insert_ne in Ha by done; apply (Hum o); by rewrite lookup_delete_ne].
    rewrite lookup_insert_eq in Ha. injection Ha as <-. split; [done|]. lia.
  - intros Hn0. exists bal. rewrite lookup_insert_eq. destruct (Hown Hn0) as [_ Hm].
    split_and!; [done | lia | done | done].
Qed.

Lemma book_lines_xrp book taker seq rate offers um w lines w' :
  book_out book = (0, 0) -> Forall sells_xrp offers -> balances_ok (delete 0 um) ->
  book_lines book taker seq false rate um offers w = (Ok lines, w') ->
  lines_for book taker seq false rate offers lines /\ Forall (line_promises rate) lines /\
  forall o, o <> 0 ->
    match um !! o with
    | Some a => spends (amt_drops a) (lines_of o lines)
    | None => starts seq o (lines_of o lines)
    end.
Proof.
  intros Hb Hs. revert um w lines w'. induction Hs as [|obj offers Hx Hs IH]; intros um w lines w' Hum Hl.
  - injection Hl as <- <-. split; [constructor|]. split; [constructor|]. intros o Ho. destruct (um !! o) as [a|] eqn:Hu; [|done].
    split; [constructor|]. split; [done|]. destruct (Hum o a) as [_ ?]; [by rewrite lookup_delete_ne | done].
  - cbn in Hl. apply m_bind_ok in Hl as (r & w1 & Hr & Hl). unfold catch_all in Hr.
    destruct ((x ← process_offer book taker seq false rate um obj; mret (Some x)) w) as [[x|e|] w2] eqn:Hp; [|..|done].
    2: { injection Hr as <- <-. destruct (IH _ _ _ _ Hum Hl) as [Hlf ?]. split; [|done].
         unfold mbind, M_bind in Hp. destruct (process_offer book taker seq false rate um obj w) as [[x|e'|] w3] eqn:Hproc; try done.
         by eapply lines_left_out. }
    injection Hr as <- <-. apply m_bind_ok in Hp as ([um' line] & w3 & Hp & Hret). injection Hret as <- <-.
    apply m_bind_ok in Hl as (rest & w4 & Hl & Hret). injection Hret as <- <-.
    destruct (process_offer_xrp _ _ _ _ _ _ _ _ _ _ Hb Hx Hum Hp) as ([Hparse Hprom] & Hne & Hum' & Hown).
    destruct (IH _ _ _ _ Hum' Hl) as (Hlf & Hproms & IH'). split; [by constructor|]. split; [by constructor|]. clear IH. rename IH' into IH.
    intros o Ho. specialize (IH o Ho). unfold lines_of in *. rewrite filter_cons.
    destruct (decide (ol_owner line = o)) as [<-|Hno]; [|by rewrite Hne in IH by done].
    destruct (Hown Ho) as (a & Ha & Hpos & Hv & Hm). rewrite Ha in IH. destruct IH as (Hf & Hr' & Hp').
    rewrite Hv in Hr'.
    destruct (um !! ol_owner line) as [f|].
    + destruct Hm as [Hfst <-]. split; [by constructor|]. split; [by split|]. rewrite paid_cons. lia.
    + destruct Hm as (Hfst & w5 & w6 & d & Hd & Hv'). split_and!; [done..|]. exists w5, w6, d.
      rewrite <- Hv'. split; [done|]. split; [by split|]. rewrite paid_cons. lia.
Qed.

(** A line of an owner is his first when none of the lines before it is his. *)
Lemma first_of_owner lines i l :
  lines !! i = Some l ->
  match lines_of (ol_owner l) lines with
  | [] => True
  | l0 :: ls => ol_first l0 = true /\ Forall (fun l => ol_first l = false) ls
  end ->
  ol_first l = bool_decide (lines_of (ol_owner l) (take i lines) = []).
Proof.
  intros Hi Hf. rewrite <- (take_drop_middle lines i l Hi) in Hf.
  unfold lines_of in *. rewrite filter_app, filter_cons, decide_True in Hf by done.
  destruct (filter _ (take i lines)) as [|l0 ls].
  - destruct Hf as [-> _]. by rewrite bool_decide_true.
  - rewrite bool_decide_false by done. destruct Hf as [_ Hf].
    apply Forall_app in Hf as [_ Hf]. by apply Forall_cons in Hf as [? _].
Qed.

(** The members of a line's object. *)
Lemma line_json_members l :
  exists obj, line_json l = JObject obj /\ forall k, obj_find k obj =
    if decide (k = "quality") then Some (JString (amt_text (ol_quality l)))
    else if decide (k = "owner_funds" /\ ol_first l = true) then Some (JString (amt_text (ol_funds l)))
    else match ol_funded l with
         | Some (gets, pays) =>
             if decide (k = "taker_pays_funded") then Some (amt_json pays)
             else if decide (k = "taker_gets_funded") then Some (amt_json gets)
             else obj_find k (offer_toJson (ol_offer l))
         | None => obj_find k (offer_toJson (ol_offer l))
         end.
Proof.
  eexists. split; [done|]. intros k. rewrite obj_find_set.
  destruct (decide (k = "quality")); [done|].
  assert (forall o, obj_find k (if ol_first l then obj_set "owner_funds" (JString (amt_text (ol_funds l))) o else o) =
    if decide (k = "owner_funds" /\ ol_first l = true) then Some (JString (amt_text (ol_funds l))) else obj_find k o) as Hf.
  { intros o. destruct (ol_first l); [rewrite obj_find_set|]; repeat case_decide; naive_solver. }
  rewrite Hf. case_decide; [done|]. destruct (ol_funded l) as [[gets pays]|]; [|done].
  by rewrite !obj_find_set.
Qed.

End lemmas.

(** ** Claims *)

Section claims.
Context `{BackendImpl W} `{Amounts} `{RippleKeylets} `{!XrpLaws}.

(** C35: a book of XRP promises nobody more than the owners have. The answer has
    an object for each offer, in order, but those whose processing threw. Of the
    objects of one owner the first and only the first has his funds, which are his
    liquid XRP, never less than nothing; the funds of each further offer are what
    those before it have left, and all his offers together pay at most what he has.
    An object says apart what the taker gets and pays exactly where what is funded
    is less than the offer; without a transfer fee that is all its owner has left,
    and he pays what the taker gets. *)
Theorem xrp_book_funds (offers : list LedgerObject) (book : Book) (takerID : AccountID) (sequence : Z) (w : W)
    (answer : list json) (w' : W) :
  book_out book = (0, 0) -> Forall sells_xrp offers ->
  postProcessOrderBook offers book takerID sequence w = (Ok answer, w') ->
  exists lines rate w1,
    order_book_lines offers book takerID sequence w = (Ok lines, w') /\ length answer = length lines /\
    transferRate sequence 0 w = (Ok rate, w1) /\ lines_for book takerID sequence false rate offers lines /\
    Forall (line_promises rate) lines /\
    (forall i l, lines !! i = Some l -> ol_owner l <> 0 ->
       exists obj, answer !! i = Some (JObject obj) /\ forall k, obj_find k obj =
         if decide (k = "quality") then Some (JString (amt_text (ol_quality l)))
         else if decide (k = "owner_funds" /\ lines_of (ol_owner l) (take i lines) = [])
         then Some (JString (amt_text (ol_funds l)))
         else match ol_funded l with
              | Some (gets, pays) =>
                  if decide (k = "taker_pays_funded") then Some (amt_json pays)
                  else if decide (k = "taker_gets_funded") then Some (amt_json gets)
                  else obj_find k (offer_toJson (ol_offer l))
              | None => obj_find k (offer_toJson (ol_offer l))
              end) /\
    forall o, o <> 0 ->
      match lines_of o lines with
      | [] => True
      | l :: ls =>
          ol_first l = true /\ Forall (fun l => ol_first l = false) ls /\
          exists w1 w2 drops, xrpLiquid sequence o w1 = (Ok drops, w2) /\
            spent_down (Z.max 0 drops) (l :: ls) /\ paid (l :: ls) <= Z.max 0 drops
      end.
Proof.
  intros Hb Hs Hr. apply m_bind_ok in Hr as (lines & w1 & Hl & Hret). injection Hret as <- <-.
  pose proof Hl as Hrun. unfold order_book_lines in Hl. rewrite Hb in Hl. cbn [snd] in Hl.
  apply m_bind_ok in Hl as (fr & w2 & Hf & Hl). injection Hf as <- <-.
  apply m_bind_ok in Hl as (fr & w2 & Hf & Hl). injection Hf as <- <-.
  apply m_bind_ok in Hl as (rate & w2 & Hrate & Hl).
  assert (balances_ok (delete 0 ∅)) as Hum by by intros o' a.
  destruct (book_lines_xrp _ _ _ _ _ _ _ _ _ Hb Hs Hum Hl) as (Hlf & Hprom & Hc).
  exists lines, rate, w2. split_and!; [done | apply length_fmap | done | done | done | |].
  - intros i l Hi Ho. specialize (Hc _ Ho). rewrite lookup_empty in Hc.
    destruct (line_json_members l) as (obj & Hobj & Hk). exists obj.
    rewrite list_lookup_fmap, Hi. cbn. rewrite Hobj. split; [done|]. intros k. rewrite Hk.
    rewrite (first_of_owner lines i l Hi) by (unfold starts in Hc; by destruct (lines_of _ _); naive_solver).
    repeat case_decide; rewrite ?bool_decide_eq_true in *; naive_solver.
  - intros o Ho. specialize (Hc o Ho). rewrite lookup_empty in Hc.
    unfold starts in Hc. by destruct (lines_of o lines).
Qed.

End claims.

(** ** A book of XRP with two offers of one account *)

Definition book_ripple : Ripple :=
  TreeRipple (fun _ => Throw (LibraryError "")) (fun _ _ _ => Throw (LibraryError ""))
    (fun b _ => match b with
                | [0] => Ok (mkObj sfAccount [(sfBalance, VNum 100); (sfOwnerCount, VNum 2)])
                | [1] => Ok (mkObj sfAccount [(sfReserveIncrement, VNum 10)])
                | [_] => Ok (mkObj sfAccount [(sfAccount, VNum 7); (sfTakerGets, VNum 60); (sfTakerPays, VNum 5); (sfBookDirectory, VNum 0)])
                | _ => Throw (LibraryError "")
                end).

#[local] Existing Instance book_ripple.

#[local] Instance book_amounts : @Amounts book_ripple := {
  STAmount := Z;
  getFieldAmount := (fun o f => get_num o f) : @STObject book_ripple -> _ -> _;
  isFlag := fun _ _ => false;
  keylet_line := fun _ _ _ => 0;
  accountReserve := fun f n => fee_reserve f + n * fee_increment f;
  amt_default := 0; amt_native := fun _ => true; amt_currency := fun _ => 0; amt_issuer := fun _ => 0;
  amt_clear_issue := fun _ => 0; amt_clear := fun _ => 0;
  amt_of_xrp := fun z => z; amt_xrp := Ok;
  amt_negate := Z.opp; amt_setIssuer := fun _ a => a;
  amt_negative := fun a => a <? 0;
  amt_less := fun a b => Ok (a <? b);
  amt_sub := fun a b => Ok (a - b);
  amt_multiply := fun a b _ => Ok (a * b);
  rate_multiply := fun a r => Ok (a * r / parityRate);
  rate_divide := fun a r => Ok (a * parityRate / r);
  getQuality := fun z => z; amountFromQuality := fun _ => Ok 1;
  amt_json := JInt64; amt_text := fun _ => "amount";
  offer_toJson := fun _ => []
}.

#[local] Instance book_xrp : @XrpLaws book_ripple book_amounts.
Proof. refine {| amt_drops := fun a : @STAmount _ book_amounts => a |}; intros; cbn in *; simplify_eq; try done; by split. Defined.

Definition book_ledger : gmap Z Blob := {[7 := [0]; @keylet_fees book_ripple := [1]]}.

Lemma book_ledger_cases (P : Z -> Blob -> Prop) :
  P 7 [0] -> P (@keylet_fees book_ripple) [1] -> forall k b, book_ledger !! k = Some b -> P k b.
Proof.
  intros H1 H2 k b Hk. unfold book_ledger in Hk.
  repeat (apply lookup_insert_Some in Hk as [[<- <-]|[_ Hk]]; [done|]). by apply lookup_singleton_Some in Hk as [<- <-].
Qed.

Definition book_history : SimpleCache.history :=
  mkHistory (fun _ => book_ledger) 1 ltac:(done)
    (fun s => book_ledger_cases (fun _ b => b <> []) ltac:(done) ltac:(done))
    (fun s => book_ledger_cases (fun k _ => valid_key k) ltac:(vm_compute; done) ltac:(vm_compute; done)).

Definition book_offers : list LedgerObject := [mkLedgerObject 1 [2]; mkLedgerObject 2 [2]; mkLedgerObject 3 []].

Definition book_run : Res (list json) * MemWorld :=
  @postProcessOrderBook MemWorld (MemBackend book_history) _ book_amounts sample_keylets
    book_offers (mkBook (5, 5) (0, 0)) 9 1 dir_world.

Definition book_run_lines : Res (list OfferLine) * MemWorld :=
  @order_book_lines MemWorld (MemBackend book_history) _ book_amounts sample_keylets
    book_offers (mkBook (5, 5) (0, 0)) 9 1 dir_world.

Definition owners_and_funds (r : Res (list OfferLine)) : list (Z * Z) :=
  match r with Ok lines => (fun l => (ol_owner l, amt_drops (ol_funds l))) <$> lines | _ => [] end.

(** He has 100 drops less 20 of reserve, and offers 60 twice: 80 and then 20, and
    only the first of the two objects tells what he has. *)
Lemma xrp_book_funds_witness :
  exists answer w lines o1 o2, book_run = (Ok answer, w) /\ answer = [JObject o1; JObject o2] /\
    ((fun l => amt_drops (ol_funds l)) <$> lines) = [80; 20] /\
    obj_find "owner_funds" o1 = Some (JString "amount") /\ obj_find "owner_funds" o2 = None /\
    exists drops, 80 = Z.max 0 drops /\ paid (lines_of 7 lines) <= Z.max 0 drops.
Proof.
  assert (exists answer, book_run.1 = Ok answer) as [answer Ha] by (eexists; vm_compute; reflexivity).
  destruct book_run as [r w] eqn:Hr. cbn in Ha. subst r.
  destruct (@xrp_book_funds MemWorld (MemBackend book_history) _ book_amounts sample_keylets book_xrp
    book_offers (mkBook (5, 5) (0, 0)) 9 1 dir_world answer w) as (lines & rate & w1 & Hl & Hlen & _ & _ & _ & Hobj & Hc).
  - reflexivity.
  - by repeat (constructor; [intros sle a _ _; done|]).
  - exact Hr.
  - assert (owners_and_funds book_run_lines.1 = [(7, 80); (7, 20)]) as Hs by (vm_compute; reflexivity).
    unfold book_run_lines in Hs. rewrite Hl in Hs. cbn [fst owners_and_funds] in Hs.
    destruct lines as [|l1 [|l2 [|l3 ls]]]; try done. injection Hs as Ho1 Hf1 Ho2 Hf2.
    destruct (Hobj 0%nat l1 eq_refl ltac:(by rewrite Ho1)) as (o1 & Hi1 & Hk1).
    destruct (Hobj 1%nat l2 eq_refl ltac:(by rewrite Ho2)) as (o2 & Hi2 & Hk2).
    destruct answer as [|a1 [|a2 [|a3 as']]]; try done. injection Hi1 as ->. injection Hi2 as ->.
    assert (lines_of 7 [l1; l2] = [l1; l2]) as Hall by (unfold lines_of; by rewrite !filter_cons, !decide_True).
    assert (lines_of 7 [l1] = [l1]) as Hone by (unfold lines_of; by rewrite filter_cons, decide_True).
    specialize (Hc 7 ltac:(done)). rewrite Hall in Hc.
    destruct Hc as (_ & _ & w2 & w3 & drops & _ & [Hd _] & Hp). rewrite Hf1 in Hd.
    exists [JObject o1; JObject o2], w, [l1; l2], o1, o2. split_and!; [done | done | cbn; by rewrite Hf1, Hf2 | | |].
    + rewrite Hk1. by vm_compute.
    + rewrite Hk2. cbn [take]. rewrite Ho2, Hone.
      destruct (ol_funded l2) as [[? ?]|]; by vm_compute.
    + exists drops. by rewrite Hall.
Defined.
