(* ===== verification/Subscribe.v ===== *)
(** The handlers of [subscribe] and [unsubscribe] ([rpc/handlers/Subscribe.cpp]),
    and [subLedger] of the manager with the answer it gives.

    A handler checks the whole request, reads the snapshots of the books it
    wants, and only then makes the calls on the manager, in the session's name.
    [subscribe_all_or_nothing]: a refused request has made no call.
    [subscribe_effect]: what the sessions listen to afterwards. *)

From stdpp Require Import base list gmap strings.
From Stdlib Require Import ZArith Lia.
From S2P Require Import Prelude Types TreeRipple SimpleCache Backend Json Errors Requests Subscriptions Publications Directory OrderBook.

#[local] Open Scope string_scope.
#[local] Open Scope list_scope.
Open Scope Z_scope.

(** [issue] is the calls made on the manager, [issued] those made so far;
    [fetchLedgerBySequence] is the database's; [ripple::getBookBase];
    [toBoostJson] of [jsonClipped]. *)
Class SubscribeWorld (W : Type) := {
  issue : list Action -> M W unit;
  issued : W -> list Action;
  fetchLedgerBySequence : Z -> M W (option LedgerInfo);
  ripple_getBookBase : Book -> uint256;
  jsonClipped : Z -> json
}.

Definition validCommonStreams : list string :=
  ["ledger"; "transactions"; "transactions_proposed"; "validations"; "manifests"; "book_changes"].

Fixpoint validateStreams (streams : list json) : Outcome unit :=
  match streams with
  | [] => Done tt
  | stream :: streams' =>
      match stream with
      | JString s =>
          if negb (bool_decide (c_str s ∈ validCommonStreams)) then
            Failed (Status_code (Rippled rpcSTREAM_MALFORMED))
          else validateStreams streams'
      | _ => Failed (Status_message (Rippled rpcINVALID_PARAMS) "streamNotString")
      end
  end.

Definition reversed (b : Book) : Book := mkBook (book_out b) (book_in b).

Section handlers.
Context `{BackendImpl W} `{Amounts} `{RippleKeylets} `{RippleStrings} `{CursorText} `{SubscribeWorld W}.

Definition SubscriptionManager_subLedger (session : session_ptr) : M W JsonObject :=
  issue (subLedger session) ≫= fun _ =>
  ledgerRange ← fetchLedgerRange;
  match ledgerRange with
  | None => throw BadOptionalAccess
  | Some r =>
      lgrInfo ← fetchLedgerBySequence (maxSequence r);
      match lgrInfo with
      | None => throw BadOptionalAccess
      | Some info =>
          fees ← fetchFees (li_seq info);
          match fees with
          | None => throw BadOptionalAccess
          | Some f =>
              let text := to_string (minSequence r) +:+ "-" +:+ to_string (maxSequence r) in
              mret (subLedger_answer
                (getLedgerPubMessage (li_seq info) (strHex (li_hash info)) (li_closeTime info) (jsonClipped (fee_units f))
                   (jsonClipped (fee_base f)) (jsonClipped (fee_reserve f)) (jsonClipped (fee_increment f)) text 0))
          end
      end
  end.

(** The string values of the request; they have been checked. *)
Fixpoint subscribeToStreams (session : session_ptr) (streams : list json) (response : JsonObject) : M W JsonObject :=
  match streams with
  | [] => mret response
  | stream :: streams' =>
      v ← lift_res (as_string stream);
      let s := c_str v in
      response' ←
        if decide (s = "ledger") then SubscriptionManager_subLedger session
        else
          issue (if decide (s = "transactions") then subTransactions session
                 else if decide (s = "transactions_proposed") then subProposedTransactions session
                 else if decide (s = "validations") then subValidation session
                 else if decide (s = "manifests") then subManifest session
                 else if decide (s = "book_changes") then subBookChanges session
                 else []) ≫= fun _ => mret response;
      subscribeToStreams session streams' response'
  end.

Fixpoint unsubscribeToStreams (session : session_ptr) (streams : list json) : M W unit :=
  match streams with
  | [] => mret tt
  | stream :: streams' =>
      v ← lift_res (as_string stream);
      let s := c_str v in
      issue (if decide (s = "ledger") then unsubLedger session
             else if decide (s = "transactions") then unsubTransactions session
             else if decide (s = "transactions_proposed") then unsubProposedTransactions session
             else if decide (s = "validations") then unsubValidation session
             else if decide (s = "manifests") then unsubManifest session
             else if decide (s = "book_changes") then unsubBookChanges session
             else []) ≫= fun _ => unsubscribeToStreams session streams'
  end.

Fixpoint validateAccounts (accounts : list json) : Outcome unit :=
  match accounts with
  | [] => Done tt
  | account :: accounts' =>
      match account with
      | JString s =>
          match accountFromStringStrict (c_str s) with
          | None => Failed (Status_message (Rippled rpcACT_MALFORMED) "Account malformed.")
          | Some _ => validateAccounts accounts'
          end
      | _ => Failed (Status_message (Rippled rpcINVALID_PARAMS) "accountNotString")
      end
  end.

(** The loop that [subscribeToAccounts], [unsubscribeToAccounts] and the two for
    proposed transactions share: the accounts that [parse] knows. *)
Fixpoint for_accounts (parse : string -> option AccountID) (call : AccountID -> list Action) (accounts : list json) : M W unit :=
  match accounts with
  | [] => mret tt
  | account :: accounts' =>
      v ← lift_res (as_string account);
      match parse (c_str v) with
      | None => for_accounts parse call accounts'
      | Some accountID => issue (call accountID) ≫= fun _ => for_accounts parse call accounts'
      end
  end.

Definition subscribeToAccounts (session : session_ptr) : list json -> M W unit :=
  for_accounts accountFromStringStrict (fun a => subAccount a session).
Definition unsubscribeToAccounts (session : session_ptr) : list json -> M W unit :=
  for_accounts accountFromStringStrict (fun a => unsubAccount a session).
Definition subscribeToAccountsProposed (session : session_ptr) : list json -> M W unit :=
  for_accounts parseBase58_AccountID (fun a => subProposedAccount a session).
Definition unsubscribeToAccountsProposed (session : session_ptr) : list json -> M W unit :=
  for_accounts parseBase58_AccountID (fun a => unsubProposedAccount a session).

Definition getOrderBook (fuel : nat) (rng : option LedgerRange) (takerID : AccountID) (book : Book) : M W (list json) :=
  match rng with
  | None => throw BadOptionalAccess
  | Some rng =>
      page ← fetchBookOffers fuel (ripple_getBookBase book) (maxSequence rng) 200 None;
      postProcessOrderBook (bop_offers page) book takerID (maxSequence rng)
  end.

(** The books to subscribe to and the offers of those with a [snapshot] member,
    whatever it says; so with [both]. *)
Fixpoint validateAndGetBooks (fuel : nat) (books : list json) (rng : option LedgerRange)
    (booksToSub : list Book) (snapshot : list json) : M W (Outcome (list Book * list json)) :=
  match books with
  | [] => mret (Done (booksToSub, snapshot))
  | book :: books' =>
      o ← lift_res (as_object book);
      match parseBook o with
      | Failed s => mret (Failed s)
      | Done sides =>
          let b := mkBook sides.1 sides.2 in
          let both := contains o "both" in
          let booksToSub := booksToSub ++ [b] ++ (if both then [reversed b] else []) in
          if contains o "snapshot" then
            rng ← match rng with Some r => mret (Some r) | None => fetchLedgerRange end;
            match getTaker o 0 with
            | Failed s => mret (Failed s)
            | Done takerID =>
                offers ← getOrderBook fuel rng takerID b;
                more ← if both then getOrderBook fuel rng takerID (reversed b) else mret [];
                validateAndGetBooks fuel books' rng booksToSub (snapshot ++ offers ++ more)
            end
          else validateAndGetBooks fuel books' rng booksToSub snapshot
      end
  end.

Fixpoint for_books (call : Book -> list Action) (books : list Book) : M W unit :=
  match books with
  | [] => mret tt
  | book :: books' => issue (call book) ≫= fun _ => for_books call books'
  end.

Definition subscribeToBooks (session : session_ptr) : list Book -> M W unit := for_books (fun b => subBook b session).
Definition unsubscribeToBooks (session : session_ptr) : list Book -> M W unit := for_books (fun b => unsubBook b session).

(** The checks that both handlers begin with. *)
Definition check_streams (request : JsonObject) : Outcome (option (list json)) :=
  match obj_find "streams" request with
  | None => Done None
  | Some (JArray streams) => validateStreams streams ≫= fun _ => Done (Some streams)
  | Some _ => Failed (Status_message (Rippled rpcINVALID_PARAMS) "streamsNotArray")
  end.

Definition check_accounts (request : JsonObject) (field notArray : string) : Outcome (option (list json)) :=
  match obj_find field request with
  | None => Done None
  | Some (JArray accounts) =>
      if bool_decide (accounts = []) then Failed (Status_message (Rippled rpcACT_MALFORMED) "Account malformed.")
      else validateAccounts accounts ≫= fun _ => Done (Some accounts)
  | Some _ => Failed (Status_message (Rippled rpcINVALID_PARAMS) notArray)
  end.

Record Wanted := mkWanted {
  w_streams : option (list json); w_accounts : option (list json); w_proposed : option (list json) }.

Definition check_request (request : JsonObject) : Outcome Wanted :=
  streams ← check_streams request;
  accounts ← check_accounts request "accounts" "accountsNotArray";
  proposed ← check_accounts request "accounts_proposed" "accountsProposedNotArray";
  Done (mkWanted streams accounts proposed).

Definition check_books (fuel : nat) (request : JsonObject) : M W (Outcome (option (list Book * list json))) :=
  match obj_find "books" request with
  | None => mret (Done None)
  | Some (JArray books) =>
      r ← validateAndGetBooks fuel books None [] [];
      mret (match r with Done x => Done (Some x) | Failed s => Failed s end)
  | Some _ => mret (Failed (Status_message (Rippled rpcINVALID_PARAMS) "booksNotArray"))
  end.

Definition if_some {A B} (o : option A) (f : A -> M W B) (d : B) : M W B :=
  match o with Some a => f a | None => mret d end.

(** The answer of the streams replaces the one with the offers. *)
Definition doSubscribe (fuel : nat) (request : JsonObject) (session : session_ptr) : M W (Outcome JsonObject) :=
  match check_request request with
  | Failed s => mret (Failed s)
  | Done wanted =>
      books ← check_books fuel request;
      match books with
      | Failed s => mret (Failed s)
      | Done books =>
          let response := match books with Some (_, snap) => [("offers", JArray snap)] | None => [] end in
          response ← if_some (w_streams wanted) (fun l => subscribeToStreams session l []) response;
          if_some (w_accounts wanted) (subscribeToAccounts session) tt ≫= fun _ =>
          if_some (w_proposed wanted) (subscribeToAccountsProposed session) tt ≫= fun _ =>
          if_some books (fun b => subscribeToBooks session b.1) tt ≫= fun _ =>
          mret (Done response)
      end
  end.

Definition doUnsubscribe (fuel : nat) (request : JsonObject) (session : session_ptr) : M W (Outcome JsonObject) :=
  match check_request request with
  | Failed s => mret (Failed s)
  | Done wanted =>
      books ← check_books fuel request;
      match books with
      | Failed s => mret (Failed s)
      | Done books =>
          if_some (w_streams wanted) (unsubscribeToStreams session) tt ≫= fun _ =>
          if_some (w_accounts wanted) (unsubscribeToAccounts session) tt ≫= fun _ =>
          if_some (w_proposed wanted) (unsubscribeToAccountsProposed session) tt ≫= fun _ =>
          if_some books (fun b => unsubscribeToBooks session b.1) tt ≫= fun _ =>
          mret (Done [])
      end
  end.

End handlers.

(** ** What a request asks for *)

Definition request_array (request : JsonObject) (field : string) : list json :=
  match obj_find field request with Some (JArray l) => l | _ => [] end.

Definition stream_topic (s : string) : option Topic :=
  if decide (s = "ledger") then Some (Stream ledgerSubscribers_)
  else if decide (s = "transactions") then Some (Stream txSubscribers_)
  else if decide (s = "transactions_proposed") then Some (Stream txProposedSubscribers_)
  else if decide (s = "validations") then Some (Stream validationsSubscribers_)
  else if decide (s = "manifests") then Some (Stream manifestSubscribers_)
  else if decide (s = "book_changes") then Some (Stream bookChangesSubscribers_)
  else None.

Definition text_of (v : json) : option string := match v with JString s => Some (c_str s) | _ => None end.

Definition book_topics `{RippleStrings} (v : json) : list Topic :=
  match v with
  | JObject o =>
      match parseBook o with
      | Done sides =>
          let b := mkBook sides.1 sides.2 in
          OfBook b :: (if contains o "both" then [OfBook (reversed b)] else [])
      | Failed _ => []
      end
  | _ => []
  end.

Definition request_topics `{RippleStrings} (request : JsonObject) : list Topic :=
  omap (fun v => text_of v ≫= stream_topic) (request_array request "streams")
    ++ omap (fun v => s ← text_of v; Account accountSubscribers_ <$> accountFromStringStrict s) (request_array request "accounts")
    ++ omap (fun v => s ← text_of v; Account accountProposedSubscribers_ <$> parseBase58_AccountID s) (request_array request "accounts_proposed")
    ++ mjoin (book_topics <$> request_array request "books").

(** What actions post. *)
Definition posts (p : list Action) : list (Topic * Handler) := mjoin (posted_by <$> p).

Lemma posts_app p q : posts (p ++ q) = posts p ++ posts q.
Proof. unfold posts. by rewrite fmap_app, join_app. Qed.

(** ** Lemmas: what makes no calls *)

Class SubscribeLaws (W : Type) `{BackendImpl W} `{SubscribeWorld W} := {
  sb_issue : forall p w, exists w', issue p w = (Ok tt, w') /\ issued w' = issued w ++ p;
  sb_cache : forall c w, issued (set_cache c w) = issued w;
  sb_object : forall k s w, issued (doFetchLedgerObject k s w).2 = issued w;
  sb_objects : forall ks s w, issued (doFetchLedgerObjects ks s w).2 = issued w;
  sb_successor : forall k s w, issued (doFetchSuccessorKey k s w).2 = issued w;
  sb_ledger : forall s w, issued (fetchLedgerBySequence s w).2 = issued w
}.

Section keeps.
Context `{BackendImpl W} `{!SubscribeWorld W} `{!SubscribeLaws W} `{Amounts} `{RippleKeylets} `{RippleStrings} `{CursorText}.

Definition keeps {A} (m : M W A) : Prop := forall w, issued (m w).2 = issued w.

Lemma keeps_ret {A} (a : A) : keeps (mret a).
Proof. done. Qed.
Lemma keeps_throw {A} e : keeps (throw e : M W A).
Proof. done. Qed.
Lemma keeps_no_fuel {A} : keeps (no_fuel : M W A).
Proof. done. Qed.
Lemma keeps_lift {A} (r : Res A) : keeps (lift_res r).
Proof. done. Qed.
Lemma keeps_bind {A B} (m : M W A) (f : A -> M W B) : keeps m -> (forall a, keeps (f a)) -> keeps (m ≫= f).
Proof.
  intros Hm Hf w. unfold mbind, M_bind. specialize (Hm w). destruct (m w) as [[a|e|] w1]; [|done..].
  by rewrite Hf.
Qed.
Lemma keeps_catch {A} (m h : M W A) : keeps m -> keeps h -> keeps (catch_all m h).
Proof.
  intros Hm Hh w. unfold catch_all. specialize (Hm w). destruct (m w) as [[a|e|] w1]; [done| |done]. by rewrite Hh.
Qed.
Lemma keeps_object k s : keeps (doFetchLedgerObject k s).
Proof. exact (sb_object k s). Qed.
Lemma keeps_objects ks s : keeps (doFetchLedgerObjects ks s).
Proof. exact (sb_objects ks s). Qed.
Lemma keeps_successor k s : keeps (doFetchSuccessorKey k s).
Proof. exact (sb_successor k s). Qed.
Lemma keeps_ledger s : keeps (fetchLedgerBySequence s).
Proof. exact (sb_ledger s). Qed.
Lemma keeps_range : keeps (fetchLedgerRange : M W _).
Proof. done. Qed.
Lemma keeps_cache_get k s : keeps (cache_get k s).
Proof. intros w. unfold cache_get. destruct (get k s (cache_ w)). apply sb_cache. Qed.
Lemma keeps_cache_successor k s : keeps (cache_getSuccessor k s).
Proof. intros w. unfold cache_getSuccessor. destruct (getSuccessor k s (cache_ w)). apply sb_cache. Qed.

Create HintDb keeps.
#[local] Hint Resolve keeps_ret keeps_throw keeps_no_fuel keeps_lift keeps_object keeps_objects keeps_successor
  keeps_ledger keeps_range keeps_cache_get keeps_cache_successor : keeps.

(** Sequences, branches and handlers of computations that make no calls. *)
Ltac solve_keeps :=
  repeat first
    [ solve [eauto with keeps nocore]
    | apply keeps_bind; [|intros ?]
    | apply keeps_catch
    | progress intros
    | case_match ].

Lemma keeps_fetchLedgerObject k s : keeps (fetchLedgerObject k s).
Proof. unfold fetchLedgerObject. solve_keeps. Qed.
#[local] Hint Resolve keeps_fetchLedgerObject : keeps.

Lemma keeps_fetch_hits ks s : keeps (fetch_hits ks s).
Proof. induction ks as [|k ks IH]; cbn [fetch_hits]; solve_keeps. Qed.
#[local] Hint Resolve keeps_fetch_hits : keeps.

Lemma keeps_fetchLedgerObjects ks s : keeps (fetchLedgerObjects ks s).
Proof. unfold fetchLedgerObjects. solve_keeps. Qed.
Lemma keeps_fetchSuccessorObject k s : keeps (fetchSuccessorObject k s).
Proof. unfold fetchSuccessorObject, fetchSuccessorKey. solve_keeps. Qed.
#[local] Hint Resolve keeps_fetchLedgerObjects keeps_fetchSuccessorObject : keeps.

Lemma keeps_book_dir_pages fuel limit s tip dir keys : keeps (book_dir_pages fuel limit s tip dir keys).
Proof. revert dir keys. induction fuel as [|fuel IH]; intros dir keys; cbn [book_dir_pages]; solve_keeps. Qed.
#[local] Hint Resolve keeps_book_dir_pages : keeps.

Lemma keeps_book_dirs fuel limit s e tip keys : keeps (book_dirs fuel limit s e tip keys).
Proof. revert tip keys. induction fuel as [|fuel IH]; intros tip keys; cbn [book_dirs]; solve_keeps. Qed.
#[local] Hint Resolve keeps_book_dirs : keeps.

Lemma keeps_fetchBookOffers fuel b s l c : keeps (fetchBookOffers fuel b s l c).
Proof. unfold fetchBookOffers. solve_keeps. Qed.
Lemma keeps_fetchFees s : keeps (fetchFees s).
Proof. unfold fetchFees. solve_keeps. Qed.
#[local] Hint Resolve keeps_fetchBookOffers keeps_fetchFees : keeps.

Lemma keeps_isGlobalFrozen s i : keeps (isGlobalFrozen s i).
Proof. unfold isGlobalFrozen. solve_keeps. Qed.
Lemma keeps_isFrozen s a c i : keeps (isFrozen s a c i).
Proof. unfold isFrozen. solve_keeps. Qed.
Lemma keeps_xrpLiquid s i : keeps (xrpLiquid s i).
Proof. unfold xrpLiquid. solve_keeps. Qed.
Lemma keeps_transferRate s i : keeps (transferRate s i).
Proof. unfold transferRate. solve_keeps. Qed.
#[local] Hint Resolve keeps_isGlobalFrozen keeps_isFrozen keeps_xrpLiquid keeps_transferRate : keeps.

Lemma keeps_accountHolds s a c i z : keeps (accountHolds s a c i z).
Proof. unfold accountHolds. solve_keeps. Qed.
#[local] Hint Resolve keeps_accountHolds : keeps.

Lemma keeps_process_offer b t s g r u o : keeps (process_offer b t s g r u o).
Proof. unfold process_offer, offer_funds. solve_keeps. Qed.
#[local] Hint Resolve keeps_process_offer : keeps.

Lemma keeps_book_lines b t s g r u os : keeps (book_lines b t s g r u os).
Proof. revert u. induction os as [|o os IH]; intros u; cbn [book_lines]; solve_keeps. Qed.
#[local] Hint Resolve keeps_book_lines : keeps.

Lemma keeps_getOrderBook fuel rng t b : keeps (getOrderBook fuel rng t b).
Proof. unfold getOrderBook, postProcessOrderBook, order_book_lines. solve_keeps. Qed.
#[local] Hint Resolve keeps_getOrderBook : keeps.

Lemma keeps_validateAndGetBooks fuel books rng bs snap : keeps (validateAndGetBooks fuel books rng bs snap).
Proof.
  revert rng bs snap. induction books as [|b books IH]; intros rng bs snap; cbn [validateAndGetBooks]; solve_keeps.
Qed.
#[local] Hint Resolve keeps_validateAndGetBooks : keeps.

Lemma keeps_check_books fuel request : keeps (check_books fuel request).
Proof. unfold check_books. solve_keeps. Qed.

(** ** Lemmas: what the handlers post *)

(** When the computation returns, it has made calls that post [l]. *)
Definition posting {A} (m : M W A) (l : list (Topic * Handler)) : Prop :=
  forall w a w', m w = (Ok a, w') -> exists p, issued w' = issued w ++ p /\ posts p = l.

Lemma posting_keeps {A} (m : M W A) : keeps m -> posting m [].
Proof. intros Hk w a w' Hm. exists []. rewrite app_nil_r. specialize (Hk w). by rewrite Hm in Hk. Qed.

Lemma posting_issue p : posting (issue p) (posts p).
Proof.
  intros w a w' Hm. destruct (sb_issue p w) as (w1 & Hi & Hw). rewrite Hi in Hm. injection Hm as <- <-. by exists p.
Qed.

Lemma posting_bind {A B} (m : M W A) (f : A -> M W B) l l1 l2 :
  posting m l1 -> (forall a, posting (f a) l2) -> l = l1 ++ l2 -> posting (m ≫= f) l.
Proof.
  intros Hm Hf -> w b w' Hr. apply m_bind_ok in Hr as (a & w1 & Ha & Hb).
  destruct (Hm _ _ _ Ha) as (p1 & Hp1 & <-), (Hf _ _ _ _ Hb) as (p2 & Hp2 & <-).
  exists (p1 ++ p2). by rewrite Hp2, Hp1, app_assoc, posts_app.
Qed.

Lemma posting_if_some {A B} (o : option A) (f : A -> M W B) d l :
  (forall a, o = Some a -> posting (f a) l) -> (o = None -> l = []) -> posting (if_some o f d) l.
Proof.
  intros Hs Hn. destruct o as [a|]; [by apply Hs|]. rewrite Hn by done. apply posting_keeps. apply keeps_ret.
Qed.

Definition topic_posts (h : session_ptr -> Handler) (session : session_ptr) (l : list Topic) : list (Topic * Handler) :=
  (fun t => (t, h session)) <$> l.

Lemma topic_posts_app h session l1 l2 :
  topic_posts h session (l1 ++ l2) = topic_posts h session l1 ++ topic_posts h session l2.
Proof. apply fmap_app. Qed.

(** A value that has to be a string. *)
Lemma posting_string {B} v (f : string -> M W B) l :
  (forall s, v = JString s -> posting (f s) l) -> posting (lift_res (as_string v) ≫= f) l.
Proof. intros Hf. destruct v; try (intros w a w' Hr; by apply lift_bind_ok in Hr as (? & [=] & _)). by apply Hf. Qed.

Lemma topic_posts_cons h session o l :
  topic_posts h session (match o with Some t => t :: l | None => l end) =
  topic_posts h session (option_list o) ++ topic_posts h session l.
Proof. by destruct o. Qed.

Lemma subLedger_posting session : posting (SubscriptionManager_subLedger session) [(Stream ledgerSubscribers_, HSubscribe session)].
Proof.
  eapply posting_bind; [apply posting_issue | | by rewrite app_nil_r].
  intros []. apply posting_keeps. pose proof keeps_fetchFees. solve_keeps.
Qed.

Lemma streams_posting session streams response :
  posting (subscribeToStreams session streams response)
    (topic_posts HSubscribe session (omap (fun v => text_of v ≫= stream_topic) streams)).
Proof.
  revert response. induction streams as [|v streams IH]; intros response; cbn [subscribeToStreams omap list_omap].
  { apply posting_keeps, keeps_ret. }
  apply posting_string. intros s ->. rewrite topic_posts_cons. cbn [text_of mbind option_bind].
  eapply posting_bind; [|intros response'; apply IH | reflexivity].
  unfold stream_topic. destruct (decide (c_str s = "ledger")); [apply subLedger_posting|].
  eapply posting_bind; [apply posting_issue | intros []; apply posting_keeps, keeps_ret |].
  by repeat case_decide.
Qed.

Lemma unsub_streams_posting session streams :
  posting (unsubscribeToStreams session streams)
    (topic_posts HUnsubscribe session (omap (fun v => text_of v ≫= stream_topic) streams)).
Proof.
  induction streams as [|v streams IH]; cbn [unsubscribeToStreams omap list_omap].
  { apply posting_keeps, keeps_ret. }
  apply posting_string. intros s ->. rewrite topic_posts_cons. cbn [text_of mbind option_bind].
  eapply posting_bind; [apply posting_issue | intros []; apply IH |]. f_equal.
  unfold stream_topic. by repeat case_decide.
Qed.

Lemma accounts_posting h session parse (call : AccountID -> list Action) topic accounts :
  (forall a, posts (call a) = [(topic a, h session)]) ->
  posting (for_accounts parse call accounts)
    (topic_posts h session (omap (fun v => s ← text_of v; topic <$> parse s) accounts)).
Proof.
  intros Hc. induction accounts as [|v accounts IH]; cbn [for_accounts omap list_omap].
  { apply posting_keeps, keeps_ret. }
  apply posting_string. intros s ->. rewrite topic_posts_cons. cbn [text_of mbind option_bind].
  destruct (parse (c_str s)) as [a|]; [|exact IH].
  eapply posting_bind; [apply posting_issue | intros []; apply IH |]. by rewrite Hc.
Qed.

Lemma books_posting h session (call : Book -> list Action) books :
  (forall b, posts (call b) = [(OfBook b, h session)]) ->
  posting (for_books call books) (topic_posts h session (OfBook <$> books)).
Proof.
  intros Hc. induction books as [|b books IH]; cbn [for_books]; [apply posting_keeps, keeps_ret|].
  eapply posting_bind; [apply posting_issue | intros []; apply IH |]. by rewrite Hc.
Qed.

(** The books that come out of the checks are those of the request. *)
Lemma validated_books fuel books rng bs snap w bs' snap' w' :
  validateAndGetBooks fuel books rng bs snap w = (Ok (Done (bs', snap')), w') ->
  OfBook <$> bs' = (OfBook <$> bs) ++ mjoin (book_topics <$> books).
Proof.
  revert rng bs snap w. induction books as [|v books IH]; intros rng bs snap w Hr; cbn [validateAndGetBooks] in Hr.
  { injection Hr as <- <- <-. cbn. by rewrite app_nil_r. }
  apply lift_bind_ok in Hr as (o & Ho & Hr). destruct v; try done. injection Ho as ->.
  destruct (parseBook o) as [s|sides] eqn:Hb; [done|].
  assert (OfBook <$> bs ++ [mkBook sides.1 sides.2] ++ (if contains o "both" then [reversed (mkBook sides.1 sides.2)] else []) =
    (OfBook <$> bs) ++ book_topics (JObject o)) as Heq.
  { rewrite fmap_app. f_equal. unfold book_topics. rewrite Hb. by destruct (contains o "both"). }
  rewrite fmap_cons. cbn [mjoin list_join]. rewrite app_assoc, <- Heq.
  destruct (contains o "snapshot"); [|by eapply IH].
  apply m_bind_ok in Hr as (rng' & w1 & _ & Hr). destruct (getTaker o 0) as [s|t]; [done|].
  apply m_bind_ok in Hr as (offers & w2 & _ & Hr). apply m_bind_ok in Hr as (more & w3 & _ & Hr). by eapply IH.
Qed.

Lemma check_books_topics fuel request w books w' :
  check_books fuel request w = (Ok (Done books), w') ->
  issued w' = issued w /\
  mjoin (book_topics <$> request_array request "books") = OfBook <$> (match books with Some b => b.1 | None => [] end) .
Proof.
  intros Hr. split; [by pose proof (keeps_check_books fuel request w) as Hk; rewrite Hr in Hk|].
  unfold check_books, request_array in *. destruct (obj_find "books" request) as [v|]; [|by injection Hr as <- <-].
  destruct v; try done. apply m_bind_ok in Hr as ([s|[bs snap]] & w1 & Hv & Hr); [done|]. injection Hr as <- <-. cbn [fst].
  by rewrite (validated_books _ _ _ _ _ _ _ _ _ Hv).
Qed.

(** The checked arrays are those of the request. *)
Lemma check_request_arrays request wanted :
  check_request request = Done wanted ->
  request_array request "streams" = default [] (w_streams wanted) /\
  request_array request "accounts" = default [] (w_accounts wanted) /\
  request_array request "accounts_proposed" = default [] (w_proposed wanted).
Proof.
  unfold check_request. rewrite !done_bind. intros (s & Hs & Hr).
  apply done_bind in Hr as (a & Ha & Hr). apply done_bind in Hr as (p & Hp & Hr). injection Hr as <-. cbn.
  unfold check_streams, check_accounts, request_array in *. split_and!.
  - destruct (obj_find "streams" request) as [[]|]; try done; [|by injection Hs as <-].
    apply done_bind in Hs as (? & _ & Hs). by injection Hs as <-.
  - destruct (obj_find "accounts" request) as [[]|]; try done; [|by injection Ha as <-].
    destruct (bool_decide _); [done|]. apply done_bind in Ha as (? & _ & Ha). by injection Ha as <-.
  - destruct (obj_find "accounts_proposed" request) as [[]|]; try done; [|by injection Hp as <-].
    destruct (bool_decide _); [done|]. apply done_bind in Hp as (? & _ & Hp). by injection Hp as <-.
Qed.

(** The calls a handler makes after the checks. *)
Lemma request_topics_split request wanted (books : option (list Book * list json)) h session :
  check_request request = Done wanted ->
  mjoin (book_topics <$> request_array request "books") = OfBook <$> (match books with Some b => b.1 | None => [] end) ->
  topic_posts h session (request_topics request) =
    topic_posts h session (omap (fun v => text_of v ≫= stream_topic) (default [] (w_streams wanted)))
    ++ topic_posts h session (omap (fun v => s ← text_of v; Account accountSubscribers_ <$> accountFromStringStrict s) (default [] (w_accounts wanted)))
    ++ topic_posts h session (omap (fun v => s ← text_of v; Account accountProposedSubscribers_ <$> parseBase58_AccountID s) (default [] (w_proposed wanted)))
    ++ topic_posts h session (OfBook <$> (match books with Some b => b.1 | None => [] end)).
Proof.
  intros Hw Hb. unfold request_topics. destruct (check_request_arrays request wanted Hw) as (-> & -> & ->).
  by rewrite Hb, !topic_posts_app.
Qed.

(** How a handler runs: refused by the checks, or past them. *)
Lemma checked fuel request (f : Wanted -> option (list Book * list json) -> M W (Outcome JsonObject)) w r w' :
  (match check_request request with
   | Failed s => mret (Failed s)
   | Done wanted =>
       books ← check_books fuel request;
       match books with Failed s => mret (Failed s) | Done books => f wanted books end
   end) w = (Ok r, w') ->
  (exists s, r = Failed s /\ issued w' = issued w) \/
  exists wanted books w1, check_request request = Done wanted /\
    mjoin (book_topics <$> request_array request "books") = OfBook <$> (match books with Some b => b.1 | None => [] end) /\
    issued w1 = issued w /\ f wanted books w1 = (Ok r, w').
Proof.
  intros Hr. destruct (check_request request) as [s|wanted]; [injection Hr as <- <-; left; by exists s|].
  apply m_bind_ok in Hr as ([s|books] & w1 & Hb & Hr).
  - injection Hr as <- <-. left. exists s. split; [done|].
    pose proof (keeps_check_books fuel request w) as Hk. by rewrite Hb in Hk.
  - right. destruct (check_books_topics _ _ _ _ _ Hb) as [Hi Ht]. by exists wanted, books, w1.
Qed.

(** The four groups of calls and the answer. *)
Lemma posting_answer {X} (m1 : M W X) (m2 m3 m4 : M W unit) (ans : X -> JsonObject) l1 l2 l3 l4 w r w' :
  posting m1 l1 -> posting m2 l2 -> posting m3 l3 -> posting m4 l4 ->
  (x ← m1; m2 ≫= fun _ => m3 ≫= fun _ => m4 ≫= fun _ => mret (Done (ans x))) w = (Ok r, w') ->
  exists o, r = Done o /\ exists p, issued w' = issued w ++ p /\ posts p = l1 ++ l2 ++ l3 ++ l4.
Proof.
  intros H1' H2' H3' H4' Hr. apply m_bind_ok in Hr as (x & w1 & Hx & Hr). apply m_bind_ok in Hr as ([] & w2 & Hy & Hr).
  apply m_bind_ok in Hr as ([] & w3 & Hz & Hr). apply m_bind_ok in Hr as ([] & w4 & Hu & Hr). injection Hr as <- <-.
  destruct (H1' _ _ _ Hx) as (p1 & E1 & <-), (H2' _ _ _ Hy) as (p2 & E2 & <-), (H3' _ _ _ Hz) as (p3 & E3 & <-),
    (H4' _ _ _ Hu) as (p4 & E4 & <-).
  eexists. split; [done|]. exists (p1 ++ p2 ++ p3 ++ p4). by rewrite E4, E3, E2, E1, !posts_app, <- !app_assoc.
Qed.

(** Calls for the part of a request that is there. *)
Lemma posting_part {A B} (o : option (list A)) (f : list A -> M W B) d (g : list A -> list (Topic * Handler)) :
  (forall a, posting (f a) (g a)) -> g [] = [] -> posting (if_some o f d) (g (default [] o)).
Proof. intros Hs Hn. apply posting_if_some; [by intros a -> | by intros ->]. Qed.

Lemma posting_books (o : option (list Book * list json)) (f : list Book -> M W unit) (g : list Book -> list (Topic * Handler)) :
  (forall a, posting (f a) (g a)) -> g [] = [] ->
  posting (if_some o (fun b => f b.1) tt) (g (match o with Some b => b.1 | None => [] end)).
Proof. intros Hs Hn. apply posting_if_some; [by intros a -> | by intros ->]. Qed.

Lemma handlers_post (fuel : nat) (request : JsonObject) (session : session_ptr) (w w' : W) (r : Outcome JsonObject) :
  (doSubscribe fuel request session w = (Ok r, w') ->
   match r with
   | Failed _ => issued w' = issued w
   | Done _ => exists p, issued w' = issued w ++ p /\
       posts p = (fun t => (t, HSubscribe session)) <$> request_topics request
   end) /\
  (doUnsubscribe fuel request session w = (Ok r, w') ->
   match r with
   | Failed _ => issued w' = issued w
   | Done _ => exists p, issued w' = issued w ++ p /\
       posts p = (fun t => (t, HUnsubscribe session)) <$> request_topics request
   end).
Proof.
  split; intros Hr; apply checked in Hr as [(s & -> & Hi)|(wanted & books & w1 & Hw & Hb & <- & Hr)]; try done.
  - fold (topic_posts HSubscribe session (request_topics request)). rewrite (request_topics_split _ _ _ _ _ Hw Hb).
    eapply posting_answer in Hr as (o & -> & Hp); [exact Hp | | | |].
    + apply (posting_part _ _ _ (fun l => topic_posts HSubscribe session (omap _ l))); [intros l; apply streams_posting | done].
    + apply (posting_part _ _ _ (fun l => topic_posts HSubscribe session (omap _ l))); [intros l; by apply accounts_posting | done].
    + apply (posting_part _ _ _ (fun l => topic_posts HSubscribe session (omap _ l))); [intros l; by apply accounts_posting | done].
    + apply (posting_books _ _ (fun l => topic_posts HSubscribe session (OfBook <$> l))); [intros l; by apply books_posting | done].
  - fold (topic_posts HUnsubscribe session (request_topics request)). rewrite (request_topics_split _ _ _ _ _ Hw Hb).
    eapply posting_answer in Hr as (o & -> & Hp); [exact Hp | | | |].
    + apply (posting_part _ _ _ (fun l => topic_posts HUnsubscribe session (omap _ l))); [intros l; apply unsub_streams_posting | done].
    + apply (posting_part _ _ _ (fun l => topic_posts HUnsubscribe session (omap _ l))); [intros l; by apply accounts_posting | done].
    + apply (posting_part _ _ _ (fun l => topic_posts HUnsubscribe session (omap _ l))); [intros l; by apply accounts_posting | done].
    + apply (posting_books _ _ (fun l => topic_posts HUnsubscribe session (OfBook <$> l))); [intros l; by apply books_posting | done].
Qed.

(** ** Lemmas: what the posts amount to *)

Lemma of_key_topics t h session T :
  of_key t (topic_posts h session T) = omap (fun t' => if decide (t' = t) then Some (h session) else None) T.
Proof. unfold of_key, topic_posts. induction T as [|t' T IH]; [done|]. cbn. rewrite IH. by case_decide. Qed.

Lemma listen_subscribes t session T s hs :
  listen s (hs ++ of_key t (topic_posts HSubscribe session T)) =
  ((listen s hs).1 || bool_decide (s = session /\ t ∈ T), (listen s hs).2).
Proof.
  rewrite of_key_topics. unfold listen. rewrite foldl_app. generalize (foldl (listen_step s) (false, []) hs). intros [b l].
  revert b. induction T as [|t' T IH]; intros b; cbn -[decide].
  { rewrite bool_decide_false, orb_false_r; [done|]. by intros [_ ?%not_elem_of_nil]. }
  destruct (decide (t' = t)) as [->|Hne]; cbn -[decide].
  - destruct (decide (session = s)) as [->|Hs]; rewrite IH; f_equal.
    + rewrite (bool_decide_true (s = s /\ t ∈ t :: T)) by (split; [done | by left]). by rewrite orb_true_r.
    + by rewrite !bool_decide_false by naive_solver.
  - rewrite IH. f_equal. f_equal. apply bool_decide_ext. rewrite elem_of_cons. naive_solver.
Qed.

Lemma listen_unsubscribes t session T s hs :
  listen s (hs ++ of_key t (topic_posts HUnsubscribe session T)) =
  ((listen s hs).1 && negb (bool_decide (s = session /\ t ∈ T)), (listen s hs).2).
Proof.
  rewrite of_key_topics. unfold listen. rewrite foldl_app. generalize (foldl (listen_step s) (false, []) hs). intros [b l].
  revert b. induction T as [|t' T IH]; intros b; cbn -[decide].
  { rewrite bool_decide_false, andb_true_r; [done|]. by intros [_ ?%not_elem_of_nil]. }
  destruct (decide (t' = t)) as [->|Hne]; cbn -[decide].
  - destruct (decide (session = s)) as [->|Hs]; rewrite IH; f_equal.
    + rewrite (bool_decide_true (s = s /\ t ∈ t :: T)) by (split; [done | by left]). by rewrite andb_false_r.
    + by rewrite !bool_decide_false by naive_solver.
  - rewrite IH. f_equal. f_equal. f_equal. apply bool_decide_ext. rewrite elem_of_cons. naive_solver.
Qed.

End keeps.

(** ** Claims *)

Section claims.
Context `{BackendImpl W} `{!SubscribeWorld W} `{!SubscribeLaws W} `{Amounts} `{RippleKeylets} `{RippleStrings} `{CursorText}.

(** C29: all or nothing. A request to subscribe or to unsubscribe that is refused
    has made no call on the manager. One that is answered has posted, for
    exactly the topics the request names, in the order streams, accounts,
    proposed accounts, books, one handler each with the session: a book with
    [both] names its reverse too, and an account of [accounts_proposed] counts
    only when it is in Base58. *)
Theorem subscribe_all_or_nothing (fuel : nat) (request : JsonObject) (session : session_ptr) (w w' : W) (r : Outcome JsonObject) :
  (doSubscribe fuel request session w = (Ok r, w') ->
   match r with
   | Failed _ => issued w' = issued w
   | Done _ => exists p, issued w' = issued w ++ p /\
       posts p = (fun t => (t, HSubscribe session)) <$> request_topics request
   end) /\
  (doUnsubscribe fuel request session w = (Ok r, w') ->
   match r with
   | Failed _ => issued w' = issued w
   | Done _ => exists p, issued w' = issued w ++ p /\
       posts p = (fun t => (t, HUnsubscribe session)) <$> request_topics request
   end).
Proof. apply handlers_post. Qed.

(** What the handlers mean to the sessions. Let [T] be the topics a request
    names. Whatever was posted for a topic before, after an answered [subscribe]
    the session listens to the topics of [T] and to what it listened to, and
    after an answered [unsubscribe] with the same request to what it listened to
    without [T]; other sessions, and what was heard so far, are as before. The
    messages that [subscriptions_deliver] speaks of are those [listen] gives. *)
Theorem subscribe_effect (fuel : nat) (request : JsonObject) (session : session_ptr) (w w' : W) (o : JsonObject) :
  (doSubscribe fuel request session w = (Ok (Done o), w') ->
   exists p, issued w' = issued w ++ p /\
     forall t s hs, listen s (hs ++ of_key t (posts p)) =
       ((listen s hs).1 || bool_decide (s = session /\ t ∈ request_topics request), (listen s hs).2)) /\
  (doUnsubscribe fuel request session w = (Ok (Done o), w') ->
   exists p, issued w' = issued w ++ p /\
     forall t s hs, listen s (hs ++ of_key t (posts p)) =
       ((listen s hs).1 && negb (bool_decide (s = session /\ t ∈ request_topics request)), (listen s hs).2)).
Proof.
  destruct (handlers_post fuel request session w w' (Done o)) as [Hsub Hunsub]. split; intros Hr.
  - destruct (Hsub Hr) as (p & Hi & Hp). exists p. split; [done|]. intros t s hs. rewrite Hp. apply listen_subscribes.
  - destruct (Hunsub Hr) as (p & Hi & Hp). exists p. split; [done|]. intros t s hs. rewrite Hp. apply listen_unsubscribes.
Qed.

End claims.

(** ** A manager that writes down its calls, next to a database in memory *)

Definition on_first {A B X} (m : M A X) : M (A * B) X := fun w => let '(r, a) := m w.1 in (r, (a, w.2)).

#[local] Instance log_backend (h : SimpleCache.history) : BackendImpl (MemWorld * list Action) := {|
  cache_ := fun w => mw_cache w.1;
  set_cache := fun c w => (mkMemWorld c (mw_range w.1), w.2);
  range := fun w => mw_range w.1;
  set_range := fun r w => (mkMemWorld (mw_cache w.1) r, w.2);
  doFetchLedgerObject := fun k s => on_first (@doFetchLedgerObject _ (MemBackend h) k s);
  doFetchLedgerObjects := fun ks s => on_first (@doFetchLedgerObjects _ (MemBackend h) ks s);
  doFetchSuccessorKey := fun k s => on_first (@doFetchSuccessorKey _ (MemBackend h) k s);
  hardFetchLedgerRange := on_first (@hardFetchLedgerRange _ (MemBackend h));
  doFinishWrites := on_first (@doFinishWrites _ (MemBackend h));
  doWriteLedgerObject := fun _ _ _ => mret tt
|}.

#[local] Instance log_manager : SubscribeWorld (MemWorld * list Action) := {|
  issue := fun p w => (Ok tt, (w.1, w.2 ++ p));
  issued := snd;
  fetchLedgerBySequence := fun _ => mret None;
  ripple_getBookBase := fun _ => 0;
  jsonClipped := JInt64
|}.

#[local] Instance log_laws (h : SimpleCache.history) : @SubscribeLaws _ (log_backend h) log_manager.
Proof. split; try done. intros p w. by exists (w.1, w.2 ++ p). Qed.

#[local] Existing Instances book_ripple book_amounts.

(** The transactions, account 3, and the market of XRP in currency 3 of account 6, both ways. *)
Definition ask : JsonObject :=
  [("streams", JArray [JString "transactions"]); ("accounts", JArray [JString "1e"]);
   ("books", JArray [JObject [("taker_pays", JObject [("currency", JString "z")]);
                              ("taker_gets", JObject [("currency", JString "1e"); ("issuer", JString "01e")]);
                              ("both", JBool false)]])].

Definition log_world : MemWorld * list Action := (dir_world, []).

Definition ask_run := @doSubscribe _ (log_backend dir_history) _ _ sample_keylets sample_strings sample_text log_manager
  5 ask 1%nat log_world.

Definition refused_run := @doSubscribe _ (log_backend dir_history) _ _ sample_keylets sample_strings sample_text log_manager
  5 [("streams", JArray [JString "transactions"]); ("accounts", JArray [])] 1%nat log_world.

Lemma ask_run_ok : ask_run.1 = Ok (Done []).
Proof. vm_compute. reflexivity. Qed.

Lemma subscribe_all_or_nothing_witness :
  (exists w p, ask_run = (Ok (Done []), w) /\ issued w = [] ++ p /\
     posts p = [(Stream txSubscribers_, HSubscribe 1%nat); (Account accountSubscribers_ 3, HSubscribe 1%nat);
                (OfBook (mkBook (0, 0) (3, 6)), HSubscribe 1%nat); (OfBook (mkBook (3, 6) (0, 0)), HSubscribe 1%nat)]) /\
  exists s w, refused_run = (Ok (Failed s), w) /\ issued w = [].
Proof.
  split.
  - pose proof ask_run_ok as Ha. destruct ask_run as [r w] eqn:Hr. cbn in Ha. subst r.
    destruct (proj1 (@subscribe_all_or_nothing _ (log_backend dir_history) log_manager (log_laws dir_history) _ _ sample_keylets
      sample_strings sample_text 5 ask 1%nat log_world w (Done [])) Hr) as (p & Hi & Hp).
    exists w, p. split; [done|]. split; [exact Hi|]. rewrite Hp. vm_compute. reflexivity.
  - assert (exists s, refused_run.1 = Ok (Failed s)) as [s Ha] by (eexists; vm_compute; reflexivity).
    destruct refused_run as [r w] eqn:Hr. cbn in Ha. subst r. exists s, w. split; [done|].
    exact (proj1 (@subscribe_all_or_nothing _ (log_backend dir_history) log_manager (log_laws dir_history) _ _ sample_keylets
      sample_strings sample_text 5 _ 1%nat log_world w (Failed s)) Hr).
Defined.
