(* ===== verification/TxRequests.v ===== *)
(** Requests for the transactions of an account or a token
    ([rpc/RPCHelpers.cpp], [rpc/handlers/AccountTx.cpp], [NFTHistory.cpp]).

    [ledgerInfoFromRequest] finds the ledger a request names;
    [traverseTransactions] works out the window of ledgers and the place to start
    from, has a page of transactions fetched and answers with those inside the
    window. [tx_response_spec]: which those are and when there is a marker.
    [tx_window_spec]: the window. What a client gets who follows the markers is in
    [TxWalk]. *)

From stdpp Require Import base list gmap strings sorting.
From Stdlib Require Import ZArith Lia.
From S2P Require Import Prelude Types TreeRipple SimpleCache Backend Json Errors Requests Subscriptions Directory OrderBook Rpc.

#[local] Open Scope string_scope.
#[local] Open Scope list_scope.
Open Scope Z_scope.

(** The reads of the database by hash and by number. *)
Class LedgerReads (W : Type) := {
  ledger_by_hash : uint256 -> M W (option LedgerInfo);
  ledger_by_sequence : Z -> M W (option LedgerInfo)
}.

(** Metadata of a transaction and the rendering of rippled's objects. *)
Class TxRendering `{Amounts} := {
  hasDeliveredAmount : TxMeta -> bool;
  meta_DeliveredAmount : TxMeta -> STAmount;
  tx_toJson : STTx -> JsonObject;
  meta_toJson : TxMeta -> JsonObject;
  amt_json_dated : STAmount -> json;
  blob_strHex : Blob -> string;
  account_text : AccountID -> string
}.

Definition INT32_MAX : Z := 2 ^ 31 - 1.

Definition parseStringAsUInt `{LexicalCast} (value : string) : option Z := lexical_u32 value.

(** ** The ledger of a request *)

Section ledgers.
Context `{LedgerReads W} `{RippleStrings} `{LexicalCast}.

(** A number of 64 bits is cut to 32. *)
Definition ledgerInfoFromRequest (params : JsonObject) (range : LedgerRange) : M W (Outcome LedgerInfo) :=
  let found (lgrInfo : option LedgerInfo) : Outcome LedgerInfo :=
    match lgrInfo with
    | Some l =>
        if li_seq l >? maxSequence range then Failed (Status_message (Rippled rpcLGR_NOT_FOUND) "ledgerNotFound")
        else Done l
    | None => Failed (Status_message (Rippled rpcLGR_NOT_FOUND) "ledgerNotFound")
    end in
  match default JNull (obj_find "ledger_hash" params) with
  | JNull =>
      let ledgerSequence :=
        match default JNull (obj_find "ledger_index" params) with
        | JNull => Some (maxSequence range)
        | JString s =>
            if bool_decide (s = "validated") then Some (maxSequence range) else parseStringAsUInt (c_str s)
        | JInt64 z => Some (u32 z)
        | _ => None
        end in
      match ledgerSequence with
      | None => mret (Failed (Status_message (Rippled rpcINVALID_PARAMS) "ledgerIndexMalformed"))
      | Some seq => lgrInfo ← ledger_by_sequence seq; mret (found lgrInfo)
      end
  | JString s =>
      match parseHex (c_str s) with
      | None => mret (Failed (Status_message (Rippled rpcINVALID_PARAMS) "ledgerHashMalformed"))
      | Some ledgerHash => lgrInfo ← ledger_by_hash ledgerHash; mret (found lgrInfo)
      end
  | _ => mret (Failed (Status_message (Rippled rpcINVALID_PARAMS) "ledgerHashNotString"))
  end.

(** The hash has been checked by the caller; the constructor throws otherwise. *)
Definition getLedgerInfoFromHashOrSeq (ledgerHash : option string) (ledgerIndex : option Z) (maxSeq : Z)
  : M W (Outcome LedgerInfo) :=
  let err := Failed (Status_message (Rippled rpcLGR_NOT_FOUND) "ledgerNotFound") in
  match ledgerHash with
  | Some h =>
      match parseHex h with
      | None => throw (LibraryError "invalid hex")
      | Some ledgerHash256 =>
          lgrInfo ← ledger_by_hash ledgerHash256;
          mret (match lgrInfo with Some l => if li_seq l >? maxSeq then err else Done l | None => err end)
      end
  | None =>
      let ledgerSequence := default maxSeq ledgerIndex in
      if ledgerSequence >? maxSeq then mret err
      else
        lgrInfo ← ledger_by_sequence ledgerSequence;
        mret (match lgrInfo with Some l => Done l | None => err end)
  end.

End ledgers.

(** ** Transactions with their metadata *)

Section transactions.
Context `{TxRendering}.

Definition deserializeTxPlusMeta (blobs : TransactionAndMetadata) (seq : Z) : Res (STTx * TxMeta) :=
  tx ← parseSTTx (tm_transaction blobs);
  meta ← parseTxMeta (getTransactionID tx) seq (tm_metadata blobs);
  Ok (tx, meta).

(** [ttPAYMENT], [ttCHECK_CASH], [ttACCOUNT_DELETE]. *)
Definition canHaveDeliveredAmount (txn : STTx) (meta : TxMeta) : bool :=
  bool_decide (getTxnType txn ∈ [ttOTHER 0; ttOTHER 17; ttOTHER 21]) && (getResultTER meta =? tesSUCCESS).

Definition getDeliveredAmount (txn : STTx) (meta : TxMeta) (ledgerSequence date : Z) : Res (option STAmount) :=
  if hasDeliveredAmount meta then Ok (Some (meta_DeliveredAmount meta))
  else if isFieldPresent (tx_object txn) sfAmount then
    if (ledgerSequence >=? 4594095) || (date >? 446000000) then
      a ← getFieldAmount (tx_object txn) sfAmount; Ok (Some a)
    else Ok None
  else Ok None.

Definition insertDeliveredAmount (metaJson : JsonObject) (txn : STTx) (meta : TxMeta) (date : Z) : Res (bool * JsonObject) :=
  if canHaveDeliveredAmount txn meta then
    amt ← getDeliveredAmount txn meta (getLgrSeq meta) date;
    Ok (true, obj_set "delivered_amount"
                (match amt with Some a => amt_json_dated a | None => JString "unavailable" end) metaJson)
  else Ok (false, metaJson).

Definition toExpandedJson (blobs : TransactionAndMetadata) : Res (JsonObject * JsonObject) :=
  '(txn, meta) ← deserializeTxPlusMeta blobs (tm_ledgerSequence blobs);
  '(_, metaJson) ← insertDeliveredAmount (meta_toJson meta) txn meta (tm_date blobs);
  Ok (tx_toJson txn, metaJson).

(** ** The request *)

Definition marker_index (obj : JsonObject) (field error : string) : Res (Outcome (option Z)) :=
  match obj_find field obj with
  | None => Ok (Done None)
  | Some (JInt64 z) => if (0 <=? z) && (z <? 2 ^ 32) then Ok (Done (Some z)) else Throw (LibraryError "not exact")
  | Some _ => Ok (Failed (Status_message (Rippled rpcINVALID_PARAMS) error))
  end.

Definition tx_marker (request : JsonObject) : Res (Outcome (option TransactionsCursor)) :=
  match obj_find "marker" request with
  | None => Ok (Done None)
  | Some (JObject obj) =>
      s ← marker_index obj "seq" "transactionIndexNotInt";
      match s with
      | Failed e => Ok (Failed e)
      | Done transactionIndex =>
          l ← marker_index obj "ledger" "ledgerIndexNotInt";
          Ok (match l, transactionIndex with
              | Failed e, _ => Failed e
              | Done (Some ledgerIndex), Some i => Done (Some (mkTransactionsCursor ledgerIndex i))
              | _, _ => Failed (Status_message (Rippled rpcINVALID_PARAMS) "missingLedgerOrSeq")
              end)
      end
  | Some _ => Ok (Failed (Status_message (Rippled rpcINVALID_PARAMS) "invalidMarker"))
  end.

(** One end of the window: its number, what the request says, the cursor. *)
Definition index_min (range : LedgerRange) (request : JsonObject) (forward : bool) (cursor : option TransactionsCursor)
  : Outcome (Z * option Z * option TransactionsCursor) :=
  match obj_find "ledger_index_min" request with
  | None => Done (minSequence range, None, cursor)
  | Some (JInt64 min) =>
      if negb (min =? -1) && ((maxSequence range <? min) || (minSequence range >? min)) then
        Failed (Status_message (Rippled rpcLGR_IDX_MALFORMED) "ledgerSeqMinOutOfRange")
      else
        let minIndex := if min =? -1 then minSequence range else u32 min in
        Done (minIndex, Some min,
              match cursor with None => if forward then Some (mkTransactionsCursor minIndex 0) else None | c => c end)
  | Some _ => Failed (Status_message (Rippled rpcINVALID_PARAMS) "ledgerSeqMinNotNumber")
  end.

Definition index_max (range : LedgerRange) (request : JsonObject) (forward : bool) (minIndex : Z) (cursor : option TransactionsCursor)
  : Outcome (Z * option Z * option TransactionsCursor) :=
  match obj_find "ledger_index_max" request with
  | None => Done (maxSequence range, None, cursor)
  | Some (JInt64 max) =>
      if negb (max =? -1) && ((maxSequence range <? max) || (minSequence range >? max)) then
        Failed (Status_code (Rippled rpcLGR_IDXS_INVALID))
      else
        let maxIndex := if max =? -1 then maxSequence range else u32 max in
        if minIndex >? maxIndex then Failed (Status_message (Rippled rpcINVALID_PARAMS) "invalidIndex")
        else
          Done (maxIndex, Some max,
                match cursor with None => if forward then None else Some (mkTransactionsCursor maxIndex INT32_MAX) | c => c end)
  | Some _ => Failed (Status_message (Rippled rpcINVALID_PARAMS) "ledgerSeqMaxNotNumber")
  end.

(** The two numbers of the request are compared as they are, [-1] included. *)
Definition tx_window (range : LedgerRange) (request : JsonObject) (forward : bool) (cursor : option TransactionsCursor)
  : Outcome (Z * Z * option TransactionsCursor) :=
  '(minIndex, min, cursor) ← index_min range request forward cursor;
  '(maxIndex, max, cursor) ← index_max range request forward minIndex cursor;
  match max, min with
  | Some max, Some min =>
      if max <? min then Failed (Status_message (Rippled rpcLGR_IDXS_INVALID) "lgrIdxsInvalid")
      else Done (minIndex, maxIndex, cursor)
  | _, _ => Done (minIndex, maxIndex, cursor)
  end.

Definition tx_object_json (binary : bool) (t : TransactionAndMetadata) : Res JsonObject :=
  obj ← if binary then
          Ok (obj_set "date" (JUint64 (tm_date t)) (obj_set "ledger_index" (JUint64 (tm_ledgerSequence t))
               (obj_set "tx_blob" (JString (blob_strHex (tm_transaction t)))
                 (obj_set "meta" (JString (blob_strHex (tm_metadata t))) []))))
        else
          '(txn, meta) ← toExpandedJson t;
          Ok (obj_set "tx" (JObject (obj_set "date" (JUint64 (tm_date t)) (obj_set "ledger_index" (JUint64 (tm_ledgerSequence t)) txn)))
               (obj_set "meta" (JObject meta) []));
  Ok (obj_set "validated" (JBool true) obj).

(** The loop over the page: the objects, and whether it left the window. *)
Fixpoint tx_loop (minIndex maxIndex : Z) (forward binary : bool) (blobs : list TransactionAndMetadata)
  : Res (list json * bool) :=
  match blobs with
  | [] => Ok ([], false)
  | t :: blobs' =>
      let seq := tm_ledgerSequence t in
      if ((seq <? minIndex) && negb forward) || ((seq >? maxIndex) && forward) then Ok ([], true)
      else if (seq >? maxIndex) && negb forward then tx_loop minIndex maxIndex forward binary blobs'
      else
        obj ← tx_object_json binary t;
        '(txns, over) ← tx_loop minIndex maxIndex forward binary blobs';
        Ok (JObject obj :: txns, over)
  end.

Definition marker_json (c : TransactionsCursor) : json :=
  JObject (obj_set "seq" (JUint64 (tc_transactionIndex c)) (obj_set "ledger" (JUint64 (tc_ledgerSequence c)) [])).

(** What is answered for a page. *)
Definition tx_response (request : JsonObject) (limit minIndex maxIndex : Z) (forward binary : bool)
    (page : TransactionsAndCursor) : Res JsonObject :=
  let response := if contains request "limit" then obj_set "limit" (JUint64 limit) [] else [] in
  let response := match tac_cursor page with Some c => obj_set "marker" (marker_json c) response | None => response end in
  '(txns, over) ← tx_loop minIndex maxIndex forward binary (tac_txns page);
  let response := if (over : bool) then obj_erase "marker" response else response in
  Ok (obj_set "transactions" (JArray txns) (obj_set "ledger_index_max" (JUint64 maxIndex)
       (obj_set "ledger_index_min" (JUint64 minIndex) response))).

Section traverse.
Context `{LedgerReads W} `{RippleStrings} `{LexicalCast}.

(** [getLimit] comes after the ledgers; nothing has been fetched by then. *)
Definition traverseTransactions (context : Context)
    (transactionFetcher : Z -> bool -> option TransactionsCursor -> M W TransactionsAndCursor) : M W (Outcome JsonObject) :=
  let request := ctx_params context in
  binary ← lift_res (getBool_default request "binary" false);
  forward ← lift_res (getBool_default request "forward" false);
  marker ← lift_res (tx_marker request);
  match (cursor ← marker; tx_window (ctx_range context) request forward cursor) with
  | Failed s => mret (Failed s)
  | Done (minIndex, maxIndex, cursor) =>
      window ←
        if contains request "ledger_index" || contains request "ledger_hash" then
          if contains request "ledger_index_max" || contains request "ledger_index_min" then
            mret (Failed (Status_message (Rippled rpcINVALID_PARAMS) "containsLedgerSpecifierAndRange"))
          else
            v ← ledgerInfoFromRequest request (ctx_range context);
            mret (match v with Failed s => Failed s | Done l => Done (li_seq l, li_seq l) end)
        else mret (Done (minIndex, maxIndex));
      match window with
      | Failed s => mret (Failed s)
      | Done (minIndex, maxIndex) =>
          let cursor :=
            match cursor with
            | Some c => c
            | None => if forward then mkTransactionsCursor minIndex 0 else mkTransactionsCursor maxIndex INT32_MAX
            end in
          match getLimit context with
          | Failed s => mret (Failed s)
          | Done limit =>
              page ← transactionFetcher limit forward (Some cursor);
              response ← lift_res (tx_response request limit minIndex maxIndex forward binary page);
              mret (Done response)
          end
      end
  end.

Definition doAccountTx (fetchAccountTransactions : AccountID -> Z -> bool -> option TransactionsCursor -> M W TransactionsAndCursor)
    (context : Context) : M W (Outcome JsonObject) :=
  match getAccount (ctx_params context) 0 with
  | Failed s => mret (Failed s)
  | Done accountID =>
      maybeResponse ← traverseTransactions context (fetchAccountTransactions accountID);
      mret (response ← maybeResponse; Done (obj_set "account" (JString (account_text accountID)) response))
  end.

Definition doNFTHistory (fetchNFTTransactions : uint256 -> Z -> bool -> option TransactionsCursor -> M W TransactionsAndCursor)
    (token_text : uint256 -> string) (context : Context) : M W (Outcome JsonObject) :=
  match getNFTID (ctx_params context) with
  | Failed s => mret (Failed s)
  | Done tokenID =>
      maybeResponse ← traverseTransactions context (fetchNFTTransactions tokenID);
      mret (response ← maybeResponse; Done (obj_set "nft_id" (JString (token_text tokenID)) response))
  end.

End traverse.

End transactions.

(** ** Specification *)

Definition in_window (minIndex maxIndex : Z) (t : TransactionAndMetadata) : Prop :=
  minIndex <= tm_ledgerSequence t <= maxIndex.

#[export] Instance in_window_dec lo hi t : Decision (in_window lo hi t).
Proof. unfold in_window. apply _. Defined.

(** Beyond the end of the window, in the direction of travel. *)
Definition past (minIndex maxIndex : Z) (forward : bool) (t : TransactionAndMetadata) : Prop :=
  if forward then maxIndex < tm_ledgerSequence t else tm_ledgerSequence t < minIndex.

#[export] Instance past_dec lo hi fwd t : Decision (past lo hi fwd t).
Proof. unfold past. destruct fwd; apply _. Defined.

(** Transactions in the order a page has them; going forward none is before the
    window, since the walk starts at its beginning. *)
Definition in_order (minIndex : Z) (forward : bool) (l : list TransactionAndMetadata) : Prop :=
  StronglySorted (fun a b => if forward then tm_ledgerSequence a <= tm_ledgerSequence b
                             else tm_ledgerSequence b <= tm_ledgerSequence a) l /\
  (forward = true -> Forall (fun t => minIndex <= tm_ledgerSequence t) l).

(** ** Lemmas: pages *)

Section tx_lemmas.
Context `{TxRendering}.

Definition renders (binary : bool) (t : TransactionAndMetadata) (o : JsonObject) : Prop := tx_object_json binary t = Ok o.

Lemma in_order_cons lo fwd t l : in_order lo fwd (t :: l) -> in_order lo fwd l.
Proof. intros [[Hs _]%StronglySorted_inv Hf]. split; [done|]. intros Hfw. by destruct (Forall_cons_1 _ _ _ (Hf Hfw)). Qed.

Lemma in_order_app lo fwd l1 l2 : in_order lo fwd (l1 ++ l2) -> in_order lo fwd l1 /\ in_order lo fwd l2.
Proof.
  intros [Hs Hf]. split.
  - split; [by eapply StronglySorted_app_1_l|]. intros Hfw. by apply Forall_app in Hf as [? ?].
  - split; [by eapply StronglySorted_app_1_r|]. intros Hfw. by apply Forall_app in Hf as [? ?].
Qed.

Lemma filter_nothing {A} (P : A -> Prop) `{forall x, Decision (P x)} l : Forall (fun x => ~ P x) l -> filter P l = [].
Proof. induction 1 as [|x l Hx Hl IH]; [done|]. by rewrite filter_cons_False. Qed.

(** Past the end there is nothing more. *)
Lemma past_rest lo hi fwd t l :
  in_order lo fwd (t :: l) -> past lo hi fwd t -> filter (in_window lo hi) (t :: l) = [].
Proof.
  intros [[_ Hall]%StronglySorted_inv _] Hp. apply filter_nothing. constructor.
  { unfold in_window, past in *. destruct fwd; lia. }
  eapply Forall_impl; [exact Hall|]. intros u Hu. unfold in_window, past in *. destruct fwd; cbn in *; lia.
Qed.

Lemma tx_loop_spec lo hi fwd binary blobs :
  in_order lo fwd blobs -> Forall (fun t => exists o, renders binary t o) blobs ->
  exists objs, tx_loop lo hi fwd binary blobs = Ok (JObject <$> objs, bool_decide (Exists (past lo hi fwd) blobs)) /\
    Forall2 (renders binary) (filter (in_window lo hi) blobs) objs.
Proof.
  intros Ho Hr. induction Hr as [|t blobs [o Hr] Hrs IH].
  { exists []. split; [|constructor]. rewrite bool_decide_false; [done|]. by intros ?%Exists_nil. }
  specialize (IH (in_order_cons _ _ _ _ Ho)). destruct IH as (objs & IH & Hobjs). cbn [tx_loop].
  set (seq := tm_ledgerSequence t).
  assert ((seq <? lo) && negb fwd || (seq >? hi) && fwd = bool_decide (past lo hi fwd t)) as ->.
  { unfold past. fold seq. rewrite Z.gtb_ltb.
    destruct fwd; rewrite ?andb_true_r, ?andb_false_r, ?orb_false_r, ?orb_false_l; cbn [negb];
      match goal with |- _ = ?b => destruct b eqn:E end;
      (apply bool_decide_eq_true in E || apply bool_decide_eq_false in E); lia. }
  destruct (decide (past lo hi fwd t)) as [Hp|Hp].
  { rewrite (bool_decide_true (past lo hi fwd t)) by done. exists []. rewrite past_rest with (fwd := fwd) by done.
    rewrite bool_decide_true by (by left). done. }
  rewrite (bool_decide_false (past lo hi fwd t)) by done.
  assert (bool_decide (Exists (past lo hi fwd) (t :: blobs)) = bool_decide (Exists (past lo hi fwd) blobs)) as ->.
  { apply bool_decide_ext. rewrite Exists_cons. tauto. }
  rewrite filter_cons.
  assert (fwd = true -> lo <= seq) as Hlo by (intros Hf; by destruct (Forall_cons_1 _ _ _ (proj2 Ho Hf))).
  destruct ((seq >? hi) && negb fwd) eqn:Hskip.
  { rewrite IH. apply andb_prop in Hskip as [Hs%Z.gtb_lt _].
    rewrite decide_False by (unfold in_window; fold seq; lia). by exists objs. }
  rewrite decide_True.
  2:{ unfold in_window, past in *. fold seq in Hp |- *. destruct fwd; cbn in Hskip; [specialize (Hlo eq_refl); lia|].
      rewrite andb_true_r in Hskip. destruct (Z.gtb_spec seq hi); [done|]. lia. }
  unfold renders in Hr. rewrite Hr, IH. cbn. exists (o :: objs). split; [done|]. by constructor.
Qed.

(** Reading a member of an object that has just been put together. *)
Ltac find_set := repeat (rewrite obj_find_set; first [rewrite decide_True by done | rewrite decide_False by done]).

(** The members of an answer. *)
Lemma tx_response_spec request limit lo hi fwd binary page :
  in_order lo fwd (tac_txns page) -> Forall (fun t => exists o, renders binary t o) (tac_txns page) ->
  exists objs response, tx_response request limit lo hi fwd binary page = Ok response /\
    Forall2 (renders binary) (filter (in_window lo hi) (tac_txns page)) objs /\
    obj_find "transactions" response = Some (JArray (JObject <$> objs)) /\
    obj_find "marker" response =
      (if decide (Exists (past lo hi fwd) (tac_txns page)) then None else marker_json <$> tac_cursor page) /\
    obj_find "ledger_index_min" response = Some (JUint64 lo) /\ obj_find "ledger_index_max" response = Some (JUint64 hi).
Proof.
  intros Ho Hr. destruct (tx_loop_spec lo hi fwd binary _ Ho Hr) as (objs & Hl & Hobjs).
  unfold tx_response. rewrite Hl. cbn [mbind Res_bind]. eexists objs, _. split; [reflexivity|]. split; [done|].
  split_and!; [find_set; done | | find_set; done | find_set; done]. find_set.
  assert (obj_find "marker" (if contains request "limit" then obj_set "limit" (JUint64 limit) [] else []) = None) as Hn
    by (by destruct (contains request "limit")).
  destruct (decide (Exists (past lo hi fwd) (tac_txns page))) as [He|He].
  - rewrite bool_decide_true by done. by rewrite obj_find_erase, decide_True.
  - rewrite bool_decide_false by done. destruct (tac_cursor page) as [c|]; [|done].
    by rewrite obj_find_set, decide_True.
Qed.

End tx_lemmas.

(** ** The marker of an answer, sent back *)

(** A marker comes back as the parser reads it: numbers below 2^63 are signed. *)
Definition resent (v : json) : json :=
  match v with
  | JObject m => JObject ((fun kv => (kv.1, match kv.2 with JUint64 z => JInt64 z | x => x end)) <$> m)
  | v => v
  end.

(** The marker of an answer is read back as the cursor it was made of. *)
Lemma marker_roundtrip request c :
  cursor_fits c -> obj_find "marker" request = Some (resent (marker_json c)) ->
  tx_marker request = Ok (Done (Some c)).
Proof.
  intros [[Hl1 Hl2] [Hi1 Hi2]] Hm. destruct c as [l i]. cbn [tc_ledgerSequence tc_transactionIndex] in *.
  set (m := [("ledger", JInt64 l); ("seq", JInt64 i)]).
  assert (resent (marker_json (mkTransactionsCursor l i)) = JObject m) as Hr by done.
  unfold tx_marker. rewrite Hm, Hr.
  unfold marker_index. replace (obj_find "seq" m) with (Some (JInt64 i)) by done.
  replace (obj_find "ledger" m) with (Some (JInt64 l)) by done.
  by rewrite (proj2 (Z.leb_le 0 i)), (proj2 (Z.ltb_lt i _)), (proj2 (Z.leb_le 0 l)), (proj2 (Z.ltb_lt l _)).
Qed.

Lemma past_after lo hi fwd l1 l2 :
  in_order lo fwd (l1 ++ l2) -> Exists (past lo hi fwd) l1 -> filter (in_window lo hi) l2 = [].
Proof.
  intros Ho (t & Ht & Hp)%Exists_exists. apply list_elem_of_split in Ht as (a & b & ->).
  rewrite <- app_assoc in Ho. cbn in Ho. apply in_order_app in Ho as [_ Ho].
  pose proof (past_rest lo hi fwd t (b ++ l2) Ho Hp) as Hn.
  change (t :: b ++ l2) with ((t :: b) ++ l2) in Hn. rewrite filter_app in Hn. by apply app_eq_nil in Hn as [_ ?].
Qed.

(** ** The window *)

Definition asked (request : JsonObject) (field : string) (dflt : Z) : Z :=
  match obj_find field request with Some (JInt64 z) => if z =? -1 then dflt else z | _ => dflt end.

Definition start_cursor (forward : bool) (minIndex maxIndex : Z) : TransactionsCursor :=
  if forward then mkTransactionsCursor minIndex 0 else mkTransactionsCursor maxIndex INT32_MAX.

(** The window of ledgers. When the ends a request asks for are accepted they
    are the ledgers it names, [-1] or nothing standing for the oldest and the
    newest the server has; the window is in the server's range and not empty; and
    the place to start from is the marker, or without one the end of the window
    that comes first. But a request from a ledger [a] up to the newest, written
    [-1], is refused: the two numbers are compared as they were sent. *)
Theorem tx_window_spec (range : LedgerRange) (request : JsonObject) (forward : bool) (marker : option TransactionsCursor) :
  0 <= minSequence range <= maxSequence range -> maxSequence range < 2 ^ 32 ->
  (forall minIndex maxIndex cursor,
     tx_window range request forward marker = Done (minIndex, maxIndex, cursor) ->
     minIndex = asked request "ledger_index_min" (minSequence range) /\
     maxIndex = asked request "ledger_index_max" (maxSequence range) /\
     minSequence range <= minIndex <= maxIndex /\ maxIndex <= maxSequence range /\
     default (start_cursor forward minIndex maxIndex) cursor = default (start_cursor forward minIndex maxIndex) marker) /\
  (forall a, 0 <= a -> obj_find "ledger_index_min" request = Some (JInt64 a) ->
     obj_find "ledger_index_max" request = Some (JInt64 (-1)) ->
     exists s, tx_window range request forward marker = Failed s /\ is_error s = true).
Proof.
  intros Hlo Hhi. destruct range as [lo hi]. cbn in Hlo, Hhi. split.
  - intros minIndex maxIndex cursor Hw. unfold tx_window in Hw.
    apply done_bind in Hw as ([[mi mn] c1] & Hmin & Hw). apply done_bind in Hw as ([[ma mx] c2] & Hmax & Hw).
    assert (mi = minIndex /\ ma = maxIndex /\ c2 = cursor) as (-> & -> & ->).
    { destruct mx as [mx|], mn as [mn|]; try (by injection Hw as <- <- <-).
      destruct (mx <? mn); [done|]. by injection Hw as <- <- <-. }
    clear Hw. unfold index_min, index_max, asked in *. cbn [minSequence maxSequence] in *.
    assert (minIndex = match obj_find "ledger_index_min" request with Some (JInt64 z) => if z =? -1 then lo else z | _ => lo end /\
      lo <= minIndex <= hi /\
      default (start_cursor forward minIndex maxIndex) c1 = default (start_cursor forward minIndex maxIndex) marker)
      as (Hm & Hmr & Hc1).
    { destruct (obj_find "ledger_index_min" request) as [[]|]; try done; [|injection Hmin as <- <- <-; split_and!; (done || lia)].
      destruct (z =? -1) eqn:Hz; cbn [negb andb] in Hmin.
      - injection Hmin as <- <- <-. split_and!; try done; try lia. by destruct marker, forward.
      - destruct ((hi <? z) || (lo >? z)) eqn:Hout; [done|]. rewrite u32_small in Hmin by lia.
        injection Hmin as <- <- <-. split_and!; try done; try lia. by destruct marker, forward. }
    split; [exact Hm|].
    destruct (obj_find "ledger_index_max" request) as [[]|]; try done; [|injection Hmax as <- <- <-; split_and!; (done || lia)].
    destruct (z =? -1) eqn:Hz; cbn [negb andb] in Hmax.
    + destruct (minIndex >? hi) eqn:Hg; [done|]. injection Hmax as <- <- <-. split_and!; try done; try lia.
      rewrite <- Hc1. by destruct c1, forward.
    + destruct ((hi <? z) || (lo >? z)) eqn:Hout; [done|]. rewrite u32_small in Hmax by lia.
      destruct (minIndex >? z) eqn:Hg; [done|]. injection Hmax as <- <- <-. split_and!; try done; try lia.
      rewrite <- Hc1. by destruct c1, forward.
  - intros a Ha Hmin Hmax. unfold tx_window, index_min, index_max. rewrite Hmin, Hmax. cbn [minSequence maxSequence].
    rewrite (proj2 (Z.eqb_neq a (-1))) by lia. cbn [negb andb].
    destruct ((hi <? a) || (lo >? a)); [by eexists|]. cbn [mbind Outcome_bind].
    change (-1 =? -1) with true. cbn [negb andb]. destruct (u32 a >? hi); [by eexists|]. cbn [mbind Outcome_bind].
    rewrite (proj2 (Z.ltb_lt (-1) a)) by lia. by eexists.
Qed.

(** The ends of the window do not depend on the marker, and a marker is where the
    walk starts whatever ends the request names. *)
Lemma tx_window_marker range request request' forward lo hi c m :
  (forall k, k <> "marker" -> obj_find k request' = obj_find k request) ->
  tx_window range request forward None = Done (lo, hi, c) ->
  tx_window range request' forward (Some m) = Done (lo, hi, Some m).
Proof.
  intros Hk. unfold tx_window, index_min, index_max. rewrite !Hk by done.
  destruct (obj_find "ledger_index_min" request) as [[]|]; try done; cbn [mbind Outcome_bind].
  - destruct (negb (z =? -1) && _); [done|]. cbn [mbind Outcome_bind].
    destruct (obj_find "ledger_index_max" request) as [[]|]; try done; cbn [mbind Outcome_bind].
    + destruct (negb (z0 =? -1) && _); [done|]. destruct (_ >? _); [done|]. cbn [mbind Outcome_bind].
      destruct (z0 <? z); [done|]. by intros [= <- <- _].
    + by intros [= <- <- _].
  - destruct (obj_find "ledger_index_max" request) as [[]|]; try done; cbn [mbind Outcome_bind].
    + destruct (negb (z =? -1) && _); [done|]. destruct (_ >? _); [done|]. cbn [mbind Outcome_bind].
      by intros [= <- <- _].
    + by intros [= <- <- _].
Qed.

Lemma tx_window_spec_witness :
  tx_window (mkLedgerRange 10 90) [("ledger_index_min", JInt64 20)] true None = Done (20, 90, Some (mkTransactionsCursor 20 0)) /\
  10 <= 20 <= 90 /\
  exists s, tx_window (mkLedgerRange 10 90) [("ledger_index_min", JInt64 20); ("ledger_index_max", JInt64 (-1))] true None = Failed s /\
    is_error s = true.
Proof.
  split; [reflexivity|]. split.
  - destruct (tx_window_spec (mkLedgerRange 10 90) [("ledger_index_min", JInt64 20)] true None ltac:(cbn; lia) ltac:(cbn; lia))
      as [Hw _]. destruct (Hw 20 90 _ eq_refl) as (_ & _ & Hr & _). exact Hr.
  - destruct (tx_window_spec (mkLedgerRange 10 90) [("ledger_index_min", JInt64 20); ("ledger_index_max", JInt64 (-1))] true None
      ltac:(cbn; lia) ltac:(cbn; lia)) as [_ Hf]. apply (Hf 20); [lia | reflexivity | reflexivity].
Defined.
