(* ===== verification/Validators.v ===== *)
(** The validation of requests ([rpc/common/Validators.h], [Validators.cpp],
    [Specs.h], [Specs.cpp], [impl/Factories.h]).

    A requirement ([Requirement]) looks at one member of an object and answers
    with an error or with nothing; it throws where [value_to] throws. A field
    specification runs its requirements in order, a specification its fields, up
    to the first error. The requirements are functions here as they are in the
    code, which keeps them in a [std::function].

    [validate_done] takes a successful validation apart; the lemmas named after
    the validators say what each one guarantees of the member it looked at. *)

From stdpp Require Import base list strings.
From Stdlib Require Import ZArith Lia Ascii.
From S2P Require Import Prelude Types Json Errors Requests Directory.

#[local] Open Scope string_scope.
#[local] Open Scope list_scope.
Open Scope Z_scope.

(** ** Numbers in texts *)

Definition digit (a : ascii) : option Z :=
  let c := Z.of_N (N_of_ascii a) in
  if (48 <=? c) && (c <=? 57) then Some (c - 48) else None.

(** The digits a text begins with. *)
Fixpoint digits (s : string) : list Z :=
  match s with
  | EmptyString => []
  | String a s' => match digit a with Some d => d :: digits s' | None => [] end
  end.

Definition decimal (ds : list Z) : Z := foldl (fun n d => 10 * n + d) 0 ds.

(** [std::from_chars] into 32 unsigned bits: the number a text begins with. *)
Definition from_chars_u32 (s : string) : option Z :=
  match digits s with
  | [] => None
  | ds => if decimal ds <? 2 ^ 32 then Some (decimal ds) else None
  end.

Definition is_space (a : ascii) : bool :=
  let c := Z.of_N (N_of_ascii a) in (c =? 32) || ((9 <=? c) && (c <=? 13)).

Fixpoint skip_space (s : string) : string :=
  match s with
  | String a s' => if is_space a then skip_space s' else s
  | EmptyString => EmptyString
  end.

(** [std::stoi] and [std::stoll]: after white space and a sign, the number a text
    begins with, if it fits into that many bits and a sign. *)
Definition sto (bits : Z) (s : string) : Res Z :=
  let '(sign, rest) :=
    match skip_space s with
    | String "-" s' => (-1, s')
    | String "+" s' => (1, s')
    | s' => (1, s')
    end in
  match digits rest with
  | [] => Throw (LibraryError "invalid_argument")
  | ds => let z := sign * decimal ds in if (- 2 ^ bits <=? z) && (z <? 2 ^ bits) then Ok z else Throw OutOfRange
  end.

Definition stoi : string -> Res Z := sto 31.
Definition stoll : string -> Res Z := sto 63.

Lemma decimal_nonneg ds n : 0 <= n -> Forall (fun d => 0 <= d) ds -> 0 <= foldl (fun n d => 10 * n + d) n ds.
Proof. intros Hn H. revert n Hn. induction H as [|d ds Hd _ IH]; intros n Hn; [done|]. cbn [foldl]. apply IH. lia. Qed.

Lemma digit_range a d : digit a = Some d -> 0 <= d <= 9 /\ is_space a = false /\ a <> "-"%char /\ a <> "+"%char.
Proof.
  unfold digit, is_space. destruct (_ && _) eqn:Hc; [|done]. intros [= <-].
  apply andb_true_iff in Hc as [H1%Z.leb_le H2%Z.leb_le]. split; [lia|]. split; [|split; intros ->; cbn in *; lia].
  apply orb_false_iff. split; [lia|]. apply andb_false_iff. right. lia.
Qed.

Lemma digits_nonneg s : Forall (fun d => 0 <= d) (digits s).
Proof.
  induction s as [|a s IH]; cbn; [done|]. destruct (digit a) as [d|] eqn:Hd; [|done].
  constructor; [apply digit_range in Hd; lia | done].
Qed.

(** A text that begins with a digit is read from its first character. *)
Lemma sto_digits bits s :
  digits s <> [] ->
  sto bits s = let z := decimal (digits s) in if (- 2 ^ bits <=? z) && (z <? 2 ^ bits) then Ok z else Throw OutOfRange.
Proof.
  destruct s as [|a s]; [done|]. cbn [digits]. destruct (digit a) as [d|] eqn:Ha; [|done]. intros _.
  destruct (digit_range _ _ Ha) as (_ & Hsp & Hm & Hp). unfold sto. cbn [skip_space]. rewrite Hsp.
  assert (match String a s with String "-" s' => (-1, s') | String "+" s' => (1, s') | s' => (1, s') end = (1, String a s)) as ->.
  { destruct a as [[] [] [] [] [] [] [] []]; try done; by exfalso. }
  cbn [digits]. rewrite Ha. cbv zeta. by rewrite Z.mul_1_l.
Qed.

(** The integer that a double is, if it is one. *)
Class JsonNumbers := { double_integer : Z -> option Z }.

(** [boost::json::value_to] of an integer type: the exact value or an exception. *)
Definition value_to_integer `{JsonNumbers} (lo hi : Z) (v : json) : Res Z :=
  let exact z := if (lo <=? z) && (z <=? hi) then Ok z else Throw (LibraryError "not exact") in
  match v with
  | JInt64 z | JUint64 z => exact z
  | JDouble bits => match double_integer bits with Some z => exact z | None => Throw (LibraryError "not exact") end
  | _ => Throw (LibraryError "not a number")
  end.

Definition value_to_int `{JsonNumbers} : json -> Res Z := value_to_integer (- 2 ^ 31) (2 ^ 31 - 1).
Definition value_to_uint32 `{JsonNumbers} : json -> Res Z := value_to_integer 0 (2 ^ 32 - 1).
Definition value_to_uint64 `{JsonNumbers} : json -> Res Z := value_to_integer 0 (2 ^ 64 - 1).

(** ** Requirements and specifications *)

(** [Expected<void, Status>] *)
Abbreviation MaybeError := (Outcome unit).

Definition Requirement : Type := json -> string -> Res MaybeError.

(** The same requirements are run by [FieldSpec] and by [IfType]. *)
Fixpoint verify_all (rs : list Requirement) (value : json) (key : string) : Res MaybeError :=
  match rs with
  | [] => Ok (Done tt)
  | r :: rs' =>
      res ← r value key;
      match res with Failed e => Ok (Failed e) | Done _ => verify_all rs' value key end
  end.

Definition FieldSpec : Type := json -> Res MaybeError.

Definition makeFieldValidator (key : string) (requirements : list Requirement) : FieldSpec :=
  fun value => verify_all requirements value key.

Fixpoint RpcSpec_validate (fields : list FieldSpec) (value : json) : Res MaybeError :=
  match fields with
  | [] => Ok (Done tt)
  | field :: fields' =>
      ret ← field value;
      match ret with Failed e => Ok (Failed e) | Done _ => RpcSpec_validate fields' value end
  end.

(** ** The requirements *)

Inductive JsonType := TBool | TString | TDouble | TArray | TObject | TInteger.

Definition checkType (expected : JsonType) (value : json) : bool :=
  match expected with
  | TBool => is_bool value
  | TString => is_string value
  | TDouble => match value with JDouble _ => true | _ => false end
  | TArray => is_array value
  | TObject => is_object value
  | TInteger => is_int64 value || is_uint64 value
  end.

(** The member the requirements look at: of an object with that key. *)
Definition member (value : json) (key : string) : option json :=
  match value with JObject o => obj_find key o | _ => None end.

Definition invalid {A} : Outcome A := Failed (Status_code (Rippled rpcINVALID_PARAMS)).
Definition invalid_message {A} (message : string) : Outcome A := Failed (Status_message (Rippled rpcINVALID_PARAMS) message).

(** Every requirement but [Required] ignores a field that is absent. *)
Definition if_member (f : json -> Res MaybeError) : Requirement := fun value key =>
  match member value key with None => Ok (Done tt) | Some v => f v end.

Definition Required : Requirement := fun value key =>
  Ok (match member value key with
      | None => invalid_message ("Required field '" +:+ key +:+ "' missing")
      | Some _ => Done tt
      end).

Definition Type_ (types : list JsonType) : Requirement :=
  if_member (fun res => Ok (if existsb (fun t => checkType t res) types then Done tt else invalid)).

(** [value_to] and [less] are those of the template's type. *)
Definition Between {T} (value_to : json -> Res T) (less : T -> T -> bool) (min_ max_ : T) : Requirement :=
  if_member (fun v => res ← value_to v; Ok (if less res min_ || less max_ res then invalid else Done tt)).

Definition EqualTo {T} `{EqDecision T} (value_to : json -> Res T) (original_ : T) : Requirement :=
  if_member (fun v => res ← value_to v; Ok (if bool_decide (res <> original_) then invalid else Done tt)).

Definition OneOf {T} `{EqDecision T} (value_to : json -> Res T) (options_ : list T) : Requirement :=
  if_member (fun v => res ← value_to v; Ok (if bool_decide (res ∉ options_) then invalid else Done tt)).

Definition Section_ (specs : list FieldSpec) : Requirement :=
  if_member (fun res => if is_object res then RpcSpec_validate specs res else Ok (Done tt)).

Definition ValidateArrayAt (idx_ : nat) (specs_ : list FieldSpec) : Requirement :=
  if_member (fun v =>
    match v with
    | JArray arr => match arr !! idx_ with None => Ok invalid | Some res => RpcSpec_validate specs_ res end
    | _ => Ok invalid
    end).

Definition IfType (type : JsonType) (requirements : list Requirement) : Requirement := fun value key =>
  if_member (fun v => if checkType type v then verify_all requirements value key else Ok (Done tt)) value key.

Definition WithCustomError (requirement : Requirement) (error : Status) : Requirement := fun value key =>
  res ← requirement value key;
  Ok (match res with Failed _ => Failed error | Done _ => Done tt end).

Definition CustomValidator (validator_ : json -> string -> MaybeError) : Requirement := fun value key =>
  if_member (fun v => Ok (validator_ v key)) value key.

(** ** The validators that the handlers share *)

Definition checkIsU32Numeric (sv : string) : bool := bool_decide (is_Some (from_chars_u32 sv)).

Section validators.
Context `{RippleStrings} `{LexicalCast}.

Definition Uint256HexStringValidator : Requirement := CustomValidator (fun value key =>
  match value with
  | JString s => match parseHex (c_str s) with None => invalid_message (key +:+ "Malformed") | Some _ => Done tt end
  | _ => invalid_message (key +:+ "NotString")
  end).

Definition LedgerIndexValidator : Requirement := CustomValidator (fun value key =>
  let err := invalid_message "ledgerIndexMalformed" in
  match value with
  | JString s => if negb (bool_decide (s = "validated")) && negb (checkIsU32Numeric (c_str s)) then err else Done tt
  | _ => if negb (is_uint64 value || is_int64 value) then err else Done tt
  end).

Definition AccountValidator : Requirement := CustomValidator (fun value key =>
  match value with
  | JString s => match accountFromStringStrict (c_str s) with None => invalid_message (key +:+ "Malformed") | Some _ => Done tt end
  | _ => invalid_message (key +:+ "NotString")
  end).

Definition AccountBase58Validator : Requirement := CustomValidator (fun value key =>
  match value with
  | JString s =>
      match parseBase58_AccountID (c_str s) with
      | None => Failed (Status_code (Clio rpcMALFORMED_ADDRESS))
      | Some account => if account =? 0 then Failed (Status_code (Clio rpcMALFORMED_ADDRESS)) else Done tt
      end
  | _ => invalid_message (key +:+ "NotString")
  end).

Definition MarkerValidator : Requirement := CustomValidator (fun value key =>
  match value with
  | JString s => match parseAccountCursor (Some (c_str s)) with None => invalid_message "Malformed cursor" | Some _ => Done tt end
  | _ => invalid_message (key +:+ "NotString")
  end).

Definition CurrencyValidator : Requirement := CustomValidator (fun value key =>
  match value with
  | JString s =>
      match to_currency (c_str s) with
      | None => Failed (Status_message (Clio rpcMALFORMED_CURRENCY) "malformedCurrency")
      | Some _ => Done tt
      end
  | _ => invalid_message (key +:+ "NotString")
  end).

End validators.

(** ** Lemmas *)

Lemma verify_all_done rs v key :
  verify_all rs v key = Ok (Done tt) <-> Forall (fun r => r v key = Ok (Done tt)) rs.
Proof.
  induction rs as [|r rs IH]; cbn; [done|]. rewrite Forall_cons, <- IH.
  destruct (r v key) as [[e|[]]|e|]; cbn; naive_solver.
Qed.

Lemma validate_done fields v :
  RpcSpec_validate fields v = Ok (Done tt) <-> Forall (fun f => f v = Ok (Done tt)) fields.
Proof.
  induction fields as [|f fields IH]; cbn; [done|]. rewrite Forall_cons, <- IH.
  destruct (f v) as [[e|[]]|e|]; cbn; naive_solver.
Qed.

(** The answer is that of the first field that does not pass. *)
Lemma validate_first fs1 f fs2 v r :
  Forall (fun f => f v = Ok (Done tt)) fs1 -> f v = r -> r <> Ok (Done tt) ->
  RpcSpec_validate (fs1 ++ f :: fs2) v = r.
Proof.
  intros Hd Hf Hr. induction Hd as [|g fs1 Hg _ IH]; cbn; [|by rewrite Hg]. rewrite Hf.
  destruct r as [[e|[]]|e|]; done.
Qed.

Lemma Required_done v key : Required v key = Ok (Done tt) -> exists x, member v key = Some x.
Proof. unfold Required. destruct (member v key); [eauto | done]. Qed.

Lemma if_member_done f v key x : if_member f v key = Ok (Done tt) -> member v key = Some x -> f x = Ok (Done tt).
Proof. unfold if_member. intros H Hm. by rewrite Hm in H. Qed.

Lemma custom_done f v key x :
  CustomValidator f v key = Ok (Done tt) -> member v key = Some x -> f x key = Done tt.
Proof. intros H Hm. apply (if_member_done _ _ _ x) in H; [congruence | done]. Qed.

Lemma Type_done types v key x :
  Type_ types v key = Ok (Done tt) -> member v key = Some x -> Exists (fun t => checkType t x = true) types.
Proof.
  intros H Hm. apply (if_member_done _ _ _ x) in H; [|done].
  cbn beta in H. destruct (existsb (fun t => checkType t x) types) eqn:He; [|done]. apply existsb_exists in He as (t & Ht & He).
  apply Exists_exists. exists t. split; [by apply list_elem_of_In | done].
Qed.

Lemma IfType_done type rs v key x :
  IfType type rs v key = Ok (Done tt) -> member v key = Some x -> checkType type x = true ->
  Forall (fun r => r v key = Ok (Done tt)) rs.
Proof.
  intros H Hm Hc. apply (if_member_done _ _ _ x) in H; [|done]. cbn beta in H. rewrite Hc in H. by apply verify_all_done.
Qed.

Lemma Section_done specs v key o :
  Section_ specs v key = Ok (Done tt) -> member v key = Some (JObject o) ->
  Forall (fun f => f (JObject o) = Ok (Done tt)) specs.
Proof. intros H Hm. apply (if_member_done _ _ _ _ H) in Hm. by apply validate_done. Qed.

(** What the shared validators say of a member. *)
Definition is_hash `{RippleStrings} (v : json) : Prop := exists s h, v = JString s /\ parseHex (c_str s) = Some h.
Definition is_account `{RippleStrings} (v : json) : Prop := exists s a, v = JString s /\ accountFromStringStrict (c_str s) = Some a.
Definition is_address `{RippleStrings} (v : json) : Prop :=
  exists s a, v = JString s /\ parseBase58_AccountID (c_str s) = Some a /\ a <> 0.
Definition is_marker `{RippleStrings} `{LexicalCast} (v : json) : Prop :=
  exists s c, v = JString s /\ parseAccountCursor (Some (c_str s)) = Some c.
Definition is_currency `{RippleStrings} (v : json) : Prop := exists s c, v = JString s /\ to_currency (c_str s) = Some c.

Section validator_lemmas.
Context `{RippleStrings} `{LexicalCast}.

Lemma hash_done v key x : Uint256HexStringValidator v key = Ok (Done tt) -> member v key = Some x -> is_hash x.
Proof.
  intros H1 H2. apply (custom_done _ _ _ _ H1) in H2. destruct x; try done.
  destruct (parseHex (c_str s)) eqn:He; [|done]. by eexists _, _.
Qed.

Lemma account_done v key x : AccountValidator v key = Ok (Done tt) -> member v key = Some x -> is_account x.
Proof.
  intros H1 H2. apply (custom_done _ _ _ _ H1) in H2. destruct x; try done.
  destruct (accountFromStringStrict (c_str s)) eqn:He; [|done]. by eexists _, _.
Qed.

Lemma address_done v key x : AccountBase58Validator v key = Ok (Done tt) -> member v key = Some x -> is_address x.
Proof.
  intros H1 H2. apply (custom_done _ _ _ _ H1) in H2. destruct x; try done.
  destruct (parseBase58_AccountID (c_str s)) as [a|] eqn:He; [|done]. destruct (Z.eqb_spec a 0); [done|].
  by eexists _, _.
Qed.

Lemma marker_done v key x : MarkerValidator v key = Ok (Done tt) -> member v key = Some x -> is_marker x.
Proof.
  intros H1 H2. apply (custom_done _ _ _ _ H1) in H2. destruct x; try done.
  destruct (parseAccountCursor (Some (c_str s))) eqn:He; [|done]. by eexists _, _.
Qed.

Lemma currency_done v key x : CurrencyValidator v key = Ok (Done tt) -> member v key = Some x -> is_currency x.
Proof.
  intros H1 H2. apply (custom_done _ _ _ _ H1) in H2. destruct x; try done.
  destruct (to_currency (c_str s)) eqn:He; [|done]. by eexists _, _.
Qed.

End validator_lemmas.
