(* ===== verification/NgHandlers.v ===== *)
(** The newer request handlers ([rpc/common/AnyHandler.h], [impl/Processors.h],
    [rpc/ngHandlers/AccountChannels], [AccountCurrencies], [GatewayBalances],
    [Tx], [Ping]; [LedgerEntry] has a file of its own).

    A handler declares a specification; [DefaultProcessor] validates the request
    against it, turns it into the handler's input, and renders its output.
    [validated_inputs]: what validation guarantees of the conversion that follows
    it. *)

From stdpp Require Import base list gmap strings.
From Stdlib Require Import ZArith Lia Ascii.
From S2P Require Import Prelude Types TreeRipple SimpleCache Backend Json Errors Requests Subscriptions Directory OrderBook Rpc TxRequests Validators.

#[local] Open Scope string_scope.
#[local] Open Scope list_scope.
Open Scope Z_scope.

(** Further accessors of rippled's objects: the key of a ledger entry; [sle[sfX]]
    and [sle[~sfX]]; the sign of an amount, the text of a currency and of a public
    key. *)
Class NgRipple `{Amounts} := {
  sle_key : STObject -> uint256;
  at_amount : STObject -> SField -> Res STAmount;
  at_VL : STObject -> SField -> Res Blob;
  at_U32 : STObject -> SField -> Res Z;
  find_U32 : STObject -> SField -> Res (option Z);
  amt_signum : STAmount -> Z;
  currency_text : Z -> string;
  publicKey_text : Blob -> string
}.

(** The read of a transaction by its hash. *)
Class TxReads (W : Type) := { tx_by_hash : uint256 -> M W (option TransactionAndMetadata) }.

(** ** The processor *)

Record NgHandler (W Input Output : Type) := mkNgHandler {
  ng_spec : list FieldSpec;
  ng_value_to : json -> Res Input;
  ng_process : Input -> M W (Outcome Output);
  ng_value_from : Output -> json
}.
Arguments mkNgHandler {W Input Output}.
Arguments ng_spec {W Input Output}.
Arguments ng_value_to {W Input Output}.
Arguments ng_process {W Input Output}.
Arguments ng_value_from {W Input Output}.

(** [DefaultProcessor] for a handler with an input, and for one without. *)
Definition DefaultProcessor {W Input Output} (handler : NgHandler W Input Output) (value : json) : M W (Outcome json) :=
  valid ← lift_res (RpcSpec_validate (ng_spec handler) value);
  match valid with
  | Failed e => mret (Failed e)
  | Done _ =>
      inData ← lift_res (ng_value_to handler value);
      ret ← ng_process handler inData;
      mret (match ret with Failed e => Failed e | Done out => Done (ng_value_from handler out) end)
  end.

Definition DefaultProcessor_void {W Output} (process : M W (Outcome Output)) (value_from : Output -> json) (value : json)
  : M W (Outcome json) :=
  ret ← process; mret (match ret with Failed e => Failed e | Done out => Done (value_from out) end).

(** [PingHandler] *)
Definition ping_process {W} : M W (Outcome unit) := mret (Done tt).
Definition VoidOutput_value_from (_ : unit) : json := JObject [].

(** ** Reading members for the inputs *)

(** [jv.at(key).as_string().c_str()], and the same when the key is there. *)
Definition string_member (o : JsonObject) (key : string) : Res string :=
  v ← at_ o key; s ← as_string v; Ok (c_str s).

Definition optional_string (o : JsonObject) (key : string) : Res (option string) :=
  if contains o key then s ← string_member o key; Ok (Some s) else Ok None.

(** The part on [ledger_index], which the inputs share. *)
Definition ledger_index_input (o : JsonObject) : Res (option Z) :=
  if contains o "ledger_index" then
    v ← at_ o "ledger_index";
    if negb (is_string v) then z ← as_int64 v; Ok (Some (u32 z))
    else
      s ← as_string v;
      if bool_decide (s = "validated") then Ok None else z ← stoi (c_str s); Ok (Some (u32 z))
  else Ok None.

(** ** AccountChannels *)

Record ChannelResponse := mkChannelResponse {
  channelID : string; cr_account : string; accountDestination : string; cr_amount : string; cr_balance : string;
  publicKey : option string; publicKeyHex : option string; settleDelay : Z;
  expiration : option Z; cancelAfter : option Z; sourceTag : option Z; destinationTag : option Z }.

Record ChannelsInput := mkChannelsInput {
  chi_account : string; chi_destinationAccount : option string; chi_ledgerHash : option string;
  chi_ledgerIndex : option Z; chi_limit : Z; chi_marker : option string }.

Record ChannelsOutput := mkChannelsOutput {
  cho_channels : list ChannelResponse; cho_account : string; cho_ledgerHash : string; cho_ledgerIndex : Z;
  cho_limit : Z; cho_marker : option string }.

Section specs.
Context `{RippleStrings} `{LexicalCast} `{JsonNumbers}.

Definition account_channels_spec : list FieldSpec :=
  [makeFieldValidator "account" [Required; AccountValidator];
   makeFieldValidator "destination_account" [Type_ [TString]; AccountValidator];
   makeFieldValidator "ledger_hash" [Uint256HexStringValidator];
   makeFieldValidator "limit" [Type_ [TInteger]; Between value_to_int Z.ltb 10 400];
   makeFieldValidator "ledger_index" [LedgerIndexValidator];
   makeFieldValidator "marker" [MarkerValidator]].

Definition account_currencies_spec : list FieldSpec :=
  [makeFieldValidator "account" [Required; AccountValidator];
   makeFieldValidator "ledger_hash" [Uint256HexStringValidator];
   makeFieldValidator "ledger_index" [LedgerIndexValidator]].

(** Unlike [accountFromStringStrict] it takes no public key in hexadecimal. *)
Definition wallet_account (j : json) : option AccountID :=
  match j with
  | JString s =>
      match parseBase58_PublicKey (c_str s) with
      | Some pk => Some (calcAccountID pk)
      | None => parseBase58_AccountID (c_str s)
      end
  | _ => None
  end.

Definition hotWalletValidator : Requirement := CustomValidator (fun value key =>
  match value with
  | JString _ => if bool_decide (is_Some (wallet_account value)) then Done tt else invalid_message (key +:+ "Malformed")
  | JArray wallets =>
      if forallb (fun w => bool_decide (is_Some (wallet_account w))) wallets then Done tt
      else invalid_message (key +:+ "Malformed")
  | _ => invalid_message (key +:+ "NotStringOrArray")
  end).

Definition gateway_balances_spec : list FieldSpec :=
  [makeFieldValidator "account" [Required; AccountValidator];
   makeFieldValidator "ledger_hash" [Uint256HexStringValidator];
   makeFieldValidator "ledger_index" [LedgerIndexValidator];
   makeFieldValidator "hotwallet" [hotWalletValidator]].

Definition tx_spec : list FieldSpec :=
  [makeFieldValidator "transaction" [Required; Uint256HexStringValidator];
   makeFieldValidator "binary" [Type_ [TBool]];
   makeFieldValidator "min_ledger" [Type_ [TInteger]];
   makeFieldValidator "max_ledger" [Type_ [TInteger]]].

End specs.

(** A limit is an [int64_t] kept in 32 bits; the default is 50. *)
Definition channels_value_to (jv : json) : Res ChannelsInput :=
  o ← as_object jv;
  account ← string_member o "account";
  limit ← if contains o "limit" then v ← at_ o "limit"; z ← as_int64 v; Ok (u32 z) else Ok 50;
  marker ← optional_string o "marker";
  ledgerHash ← optional_string o "ledger_hash";
  destinationAccount ← optional_string o "destination_account";
  ledgerIndex ← ledger_index_input o;
  Ok (mkChannelsInput account destinationAccount ledgerHash ledgerIndex limit marker).

Definition optional_field {A} (key : string) (render : A -> json) (v : option A) (o : JsonObject) : JsonObject :=
  match v with Some a => obj_set key (render a) o | None => o end.

Definition channel_json (c : ChannelResponse) : json :=
  JObject
    (optional_field "destination_tag" JUint64 (destinationTag c)
      (optional_field "source_tag" JUint64 (sourceTag c)
        (optional_field "cancel_after" JUint64 (cancelAfter c)
          (optional_field "expiration" JUint64 (expiration c)
            (optional_field "public_key_hex" JString (publicKeyHex c)
              (optional_field "public_key" JString (publicKey c)
                [("channel_id", JString (channelID c)); ("account", JString (cr_account c));
                 ("account_destination", JString (accountDestination c)); ("amount", JString (cr_amount c));
                 ("balance", JString (cr_balance c)); ("settle_delay", JUint64 (settleDelay c))])))))).

Definition channels_value_from (out : ChannelsOutput) : json :=
  JObject
    (optional_field "marker" JString (cho_marker out)
      [("account", JString (cho_account out)); ("ledger_hash", JString (cho_ledgerHash out));
       ("ledger_index", JUint64 (cho_ledgerIndex out)); ("validated", JBool true);
       ("limit", JUint64 (cho_limit out)); ("channels", JArray (channel_json <$> cho_channels out))]).

Section handlers.
Context `{BackendImpl W} `{LedgerReads W} `{Amounts} `{!TxRendering} `{!NgRipple}.
Context `{RippleKeylets} `{RippleStrings} `{LexicalCast} `{CursorText} `{JsonNumbers}.

Definition addChannel (channelSle : STObject) : Res ChannelResponse :=
  account ← getAccountID channelSle sfAccount;
  destination ← getAccountID channelSle sfDestination;
  amount ← at_amount channelSle sfAmount;
  balance ← at_amount channelSle sfBalance;
  pk ← at_VL channelSle sfPublicKey;
  delay ← at_U32 channelSle sfSettleDelay;
  expires ← find_U32 channelSle sfExpiration;
  cancel ← find_U32 channelSle sfCancelAfter;
  source ← find_U32 channelSle sfSourceTag;
  dest ← find_U32 channelSle sfDestinationTag;
  Ok (mkChannelResponse (strHex (sle_key channelSle)) (account_text account) (account_text destination)
        (amt_text amount) (amt_text balance)
        (if publicKeyType pk then Some (publicKey_text pk) else None)
        (if publicKeyType pk then Some (blob_strHex pk) else None)
        delay expires cancel source dest).

(** The beginning that three handlers share: the ledger of the request and its
    account, which must exist there. *)
Definition ledger_and_account (ledgerHash : option string) (ledgerIndex : option Z) (account : string)
  : M W (Outcome (LedgerInfo * AccountID)) :=
  range ← fetchLedgerRange;
  match range with
  | None => throw BadOptionalAccess
  | Some range =>
      lgrInfoOrStatus ← getLedgerInfoFromHashOrSeq ledgerHash ledgerIndex (maxSequence range);
      match lgrInfoOrStatus with
      | Failed s => mret (Failed s)
      | Done lgrInfo =>
          match accountFromStringStrict account with
          | None => throw BadOptionalAccess
          | Some accountID =>
              accountLedgerObject ← fetchLedgerObject (keylet_account accountID) (li_seq lgrInfo);
              mret (match accountLedgerObject with
                    | None => Failed (Status_message (Rippled rpcACT_NOT_FOUND) "accountNotFound")
                    | Some _ => Done (lgrInfo, accountID)
                    end)
          end
      end
  end.

(** What [account_channels] does with an owned object. *)
Definition channel_visit (accountID : AccountID) (destAccountID : option AccountID) (channels : list ChannelResponse)
    (sle : STObject) : Res (list ChannelResponse) :=
  type ← getFieldU16 sle sfLedgerEntryType;
  if negb (type =? ltPAYCHAN) then Ok channels
  else
    account ← getAccountID sle sfAccount;
    if negb (account =? accountID) then Ok channels
    else
      wanted ← match destAccountID with
               | None => Ok true
               | Some d => destination ← getAccountID sle sfDestination; Ok (d =? destination)
               end;
      if (wanted : bool) then c ← addChannel sle; Ok (channels ++ [c]) else Ok channels.

(** [std::get] of a traversal that ended with a status throws. *)
Definition channels_process (fuel : nat) (input : ChannelsInput) : M W (Outcome ChannelsOutput) :=
  start ← ledger_and_account (chi_ledgerHash input) (chi_ledgerIndex input) (chi_account input);
  match start with
  | Failed s => mret (Failed s)
  | Done (lgrInfo, accountID) =>
      let destAccountID := chi_destinationAccount input ≫= accountFromStringStrict in
      next ← ngTraverseOwnedNodes (channel_visit accountID destAccountID) fuel accountID (li_seq lgrInfo)
               (chi_limit input) (chi_marker input) [];
      match next with
      | Failed _ => throw (LibraryError "bad_variant_access")
      | Done (nextMarker, channels) =>
          mret (Done (mkChannelsOutput channels (chi_account input) (strHex (li_hash lgrInfo)) (li_seq lgrInfo)
                        (chi_limit input)
                        (if isNonZero nextMarker then Some (AccountCursor_toString nextMarker) else None)))
      end
  end.

Definition AccountChannelsHandler (fuel : nat) : NgHandler W ChannelsInput ChannelsOutput :=
  mkNgHandler account_channels_spec channels_value_to (channels_process fuel) channels_value_from.

End handlers.

(** ** AccountCurrencies *)

Record CurrenciesInput := mkCurrenciesInput {
  cui_account : string; cui_ledgerHash : option string; cui_ledgerIndex : option Z }.

Record CurrenciesOutput := mkCurrenciesOutput {
  cuo_ledgerHash : string; cuo_ledgerIndex : Z; receiveCurrencies : gset string; sendCurrencies : gset string }.

Definition currencies_value_to (jv : json) : Res CurrenciesInput :=
  o ← as_object jv;
  account ← string_member o "account";
  ledgerHash ← optional_string o "ledger_hash";
  ledgerIndex ← ledger_index_input o;
  Ok (mkCurrenciesInput account ledgerHash ledgerIndex).

(** The order of a [std::set<std::string>]. *)
Definition string_set_json (l : gset string) : json :=
  JArray (JString <$> std_sort String.ltb (elements l)).

Definition currencies_value_from (out : CurrenciesOutput) : json :=
  JObject [("ledger_hash", JString (cuo_ledgerHash out)); ("ledger_index", JUint64 (cuo_ledgerIndex out));
           ("validated", JBool true); ("receive_currencies", string_set_json (receiveCurrencies out));
           ("send_currencies", string_set_json (sendCurrencies out))].

(** ** GatewayBalances *)

Record GatewayInput := mkGatewayInput {
  gi_account : string; gi_hotWallets : gset AccountID; gi_ledgerHash : option string; gi_ledgerIndex : option Z }.

(** The maps of the output while the trust lines are visited. *)
Record Balances `{Amounts} := mkBalances {
  overflow : bool;
  sums : gmap Z STAmount;
  hotBalances : gmap AccountID (list STAmount);
  assets : gmap AccountID (list STAmount);
  frozenBalances : gmap AccountID (list STAmount) }.
Arguments mkBalances {_ _}.

Record GatewayOutput `{Amounts} := mkGatewayOutput {
  go_ledgerHash : string; go_ledgerIndex : Z; go_accountID : string; go_balances : Balances }.
Arguments mkGatewayOutput {_ _}.

Section gateway_input.
Context `{RippleStrings}.

(** [*accountFromStringStrict(...)] of an empty optional is undefined. *)
Definition hot_wallet (s : string) : Res AccountID :=
  match accountFromStringStrict (c_str s) with Some a => Ok a | None => Throw BadOptionalAccess end.

Definition gateway_value_to (jv : json) : Res GatewayInput :=
  o ← as_object jv;
  account ← string_member o "account";
  ledgerHash ← optional_string o "ledger_hash";
  ledgerIndex ← ledger_index_input o;
  hotWallets ←
    if contains o "hotwallet" then
      v ← at_ o "hotwallet";
      if is_string v then s ← as_string v; a ← hot_wallet s; Ok ({[a]} : gset AccountID)
      else l ← as_array v; as_ ← res_map (fun w => s ← as_string w; hot_wallet s) l; Ok (list_to_set as_)
    else Ok ∅;
  Ok (mkGatewayInput account hotWallets ledgerHash ledgerIndex).

End gateway_input.

Section lines.
Context `{Amounts} `{!TxRendering} `{!NgRipple}.

(** A trust line seen from one of its accounts: [lb_balance] as that account has
    it, the limits of the two, the other account, whether the line is frozen
    from this side. *)
Record LineView := mkLineView {
  lv_balance : STAmount; lv_limit : STAmount; lv_limitPeer : STAmount; lv_peer : AccountID; lv_viewLowest : bool }.

Definition line_view (accountID : AccountID) (sle : STObject) : Res LineView :=
  balance ← getFieldAmount sle sfBalance;
  lowLimit ← getFieldAmount sle sfLowLimit;
  highLimit ← getFieldAmount sle sfHighLimit;
  let viewLowest := amt_issuer lowLimit =? accountID in
  Ok (mkLineView (if viewLowest then balance else amt_negate balance)
        (if viewLowest then lowLimit else highLimit) (if viewLowest then highLimit else lowLimit)
        (if viewLowest then amt_issuer highLimit else amt_issuer lowLimit) viewLowest).

Definition currencies_visit (accountID : AccountID) (acc : gset string * gset string) (sle : STObject)
  : Res (gset string * gset string) :=
  type ← getFieldU16 sle sfLedgerEntryType;
  if negb (type =? ltRIPPLE_STATE) then Ok acc
  else
    l ← line_view accountID sle;
    receives ← amt_less (lv_balance l) (lv_limit l);
    sends ← amt_less (amt_negate (lv_balance l)) (lv_limitPeer l);
    let currency := currency_text (amt_currency (lv_balance l)) in
    Ok (if (receives : bool) then {[currency]} ∪ acc.1 else acc.1, if (sends : bool) then {[currency]} ∪ acc.2 else acc.2).

Definition push_balance (peer : AccountID) (a : STAmount) (m : gmap AccountID (list STAmount)) : gmap AccountID (list STAmount) :=
  <[peer := default [] (m !! peer) ++ [a]]> m.

(** [bal -= balance], where an overflow is noted and leaves [bal] as it was. *)
Definition add_obligation (l : LineView) (b : Balances) : Res Balances :=
  let currency := amt_currency (lv_balance l) in
  let bal := default amt_default (sums b !! currency) in
  let stored x := mkBalances (overflow b) (<[currency := x]> (sums b)) (hotBalances b) (assets b) (frozenBalances b) in
  if amt_signum bal =? 0 then Ok (stored (amt_negate (lv_balance l)))
  else
    match amt_sub bal (lv_balance l) with
    | Ok x => Ok (stored x)
    | Throw (RuntimeError _) =>
        Ok (mkBalances true (<[currency := bal]> (sums b)) (hotBalances b) (assets b) (frozenBalances b))
    | Throw e => Throw e
    | NoFuel => NoFuel
    end.

Definition gateway_visit (accountID : AccountID) (hotWallets : gset AccountID) (b : Balances) (sle : STObject)
  : Res Balances :=
  type ← getFieldU16 sle sfLedgerEntryType;
  if negb (type =? ltRIPPLE_STATE) then Ok b
  else
    l ← line_view accountID sle;
    flags ← getFieldU32 sle sfFlags;
    let freeze := negb (Z.land flags (if lv_viewLowest l then lsfLowFreeze else lsfHighFreeze) =? 0) in
    let balSign := amt_signum (lv_balance l) in
    let peer := lv_peer l in
    if balSign =? 0 then Ok b
    else if bool_decide (peer ∈ hotWallets) then
      Ok (mkBalances (overflow b) (sums b) (push_balance peer (amt_negate (lv_balance l)) (hotBalances b)) (assets b) (frozenBalances b))
    else if balSign >? 0 then
      Ok (mkBalances (overflow b) (sums b) (hotBalances b) (push_balance peer (lv_balance l) (assets b)) (frozenBalances b))
    else if freeze then
      Ok (mkBalances (overflow b) (sums b) (hotBalances b) (assets b) (push_balance peer (amt_negate (lv_balance l)) (frozenBalances b)))
    else add_obligation l b.

Definition no_balances : Balances := mkBalances false ∅ ∅ ∅ ∅.

(** Rendering: the maps in the order of their keys. *)
Definition in_key_order {A} (m : gmap Z A) : list (Z * A) := std_sort (fun a b => a.1 <? b.1) (map_to_list m).

Definition balances_json (m : gmap AccountID (list STAmount)) : JsonObject :=
  (fun p => (account_text p.1,
     JArray ((fun b => JObject [("currency", JString (currency_text (amt_currency b))); ("value", JString (amt_text b))]) <$> p.2)))
  <$> in_key_order m.

Definition gateway_value_from (out : GatewayOutput) : json :=
  let b := go_balances out in
  let some_of (key : string) (m : gmap AccountID (list STAmount)) (o : JsonObject) :=
    if bool_decide (m = ∅) then o else obj_set key (JObject (balances_json m)) o in
  let o := if bool_decide (sums b = ∅) then []
           else [("obligations", JObject ((fun p => (currency_text p.1, JString (amt_text p.2))) <$> in_key_order (sums b)))] in
  let o := some_of "assets" (assets b) (some_of "frozen_balances" (frozenBalances b) (some_of "balances" (hotBalances b) o)) in
  let o := obj_set "ledger_hash" (JString (go_ledgerHash out))
             (obj_set "ledger_index" (JUint64 (go_ledgerIndex out)) (obj_set "account" (JString (go_accountID out)) o)) in
  JObject (if overflow b then obj_set "overflow" (JBool true) o else o).

End lines.

(** ** Tx *)

Record TxInput := mkTxInput {
  txi_transaction : string; txi_binary : bool; txi_minLedger : option Z; txi_maxLedger : option Z }.

(** [to_tx]: the transaction and its metadata as objects; otherwise as text. *)
Record TxOutput := mkTxOutput {
  txo_date : Z; txo_hash : string; txo_ledgerIndex : Z; txo_tx : option (JsonObject * JsonObject); txo_txStr : string; txo_metaStr : string }.

Definition optional_int64 (o : JsonObject) (key : string) : Res (option Z) :=
  if contains o key then v ← at_ o key; z ← as_int64 v; Ok (Some (u32 z)) else Ok None.

Definition tx_value_to (jv : json) : Res TxInput :=
  o ← as_object jv;
  transaction ← string_member o "transaction";
  binary ← if contains o "binary" then v ← at_ o "binary"; as_bool v else Ok false;
  minLedger ← optional_int64 o "min_ledger";
  maxLedger ← optional_int64 o "max_ledger";
  Ok (mkTxInput transaction binary minLedger maxLedger).

Definition tx_value_from (out : TxOutput) : json :=
  let obj := match txo_tx out with
             | Some (tx, meta) => obj_set "meta" (JObject meta) tx
             | None => [("meta", JString (txo_metaStr out)); ("tx", JString (txo_txStr out)); ("hash", JString (txo_hash out))]
             end in
  JObject (obj_set "ledger_index" (JUint64 (txo_ledgerIndex out)) (obj_set "date" (JUint64 (txo_date out)) obj)).

Definition maxLedgerRange : Z := 1000.

Section more_handlers.
Context `{BackendImpl W} `{LedgerReads W} `{TxReads W} `{Amounts} `{!TxRendering} `{!NgRipple}.
Context `{RippleKeylets} `{RippleStrings} `{LexicalCast} `{CursorText} `{JsonNumbers}.

(** All objects: the greatest limit and no marker. The answer of the traversal
    is not looked at. *)
Definition currencies_process (fuel : nat) (input : CurrenciesInput) : M W (Outcome CurrenciesOutput) :=
  start ← ledger_and_account (cui_ledgerHash input) (cui_ledgerIndex input) (cui_account input);
  match start with
  | Failed s => mret (Failed s)
  | Done (lgrInfo, accountID) =>
      r ← ngTraverseOwnedNodes (currencies_visit accountID) fuel accountID (li_seq lgrInfo) (2 ^ 32 - 1) None (∅, ∅);
      let found := match r with Done (_, found) => found | Failed _ => (∅, ∅) end in
      mret (Done (mkCurrenciesOutput (strHex (li_hash lgrInfo)) (li_seq lgrInfo) found.1 found.2))
  end.

Definition AccountCurrenciesHandler (fuel : nat) : NgHandler W CurrenciesInput CurrenciesOutput :=
  mkNgHandler account_currencies_spec currencies_value_to (currencies_process fuel) currencies_value_from.

Definition gateway_process (fuel : nat) (input : GatewayInput) : M W (Outcome GatewayOutput) :=
  start ← ledger_and_account (gi_ledgerHash input) (gi_ledgerIndex input) (gi_account input);
  match start with
  | Failed s => mret (Failed s)
  | Done (lgrInfo, accountID) =>
      ret ← ngTraverseOwnedNodes (gateway_visit accountID (gi_hotWallets input)) fuel accountID (li_seq lgrInfo)
              (2 ^ 32 - 1) None no_balances;
      match ret with
      | Failed s => mret (Failed s)
      | Done (_, b) =>
          if bool_decide (set_Forall (fun hw => is_Some (hotBalances b !! hw)) (gi_hotWallets input)) then
            mret (Done (mkGatewayOutput (strHex (li_hash lgrInfo)) (li_seq lgrInfo) (gi_account input) b))
          else mret (invalid_message "invalidHotWallet")
      end
  end.

Definition GatewayBalancesHandler (fuel : nat) : NgHandler W GatewayInput GatewayOutput :=
  mkNgHandler gateway_balances_spec gateway_value_to (gateway_process fuel) gateway_value_from.

(** The part of [process] after the range has been looked at; the hash has been
    validated, the constructor throws otherwise. *)
Definition tx_find (input : TxInput) (rangeSupplied : option (Z * Z)) : M W (Outcome TxOutput) :=
  match parseHex (txi_transaction input) with
  | None => throw (LibraryError "invalid hex")
  | Some hash =>
      dbResponse ← tx_by_hash hash;
      match dbResponse with
      | None =>
          match rangeSupplied with
          | None => mret (Failed (Status_code (Rippled rpcTXN_NOT_FOUND)))
          | Some (lo, hi) =>
              range ← fetchLedgerRange;
              match range with
              | None => throw BadOptionalAccess
              | Some range =>
                  let searchedAll := (hi <=? maxSequence range) && (minSequence range <=? lo) in
                  mret (Failed (mkStatus (Rippled rpcTXN_NOT_FOUND) "" "" (Some [("searched_all", JBool searchedAll)])))
              end
          end
      | Some t =>
          if txi_binary input then
            mret (Done (mkTxOutput (tm_date t) (txi_transaction input) (tm_ledgerSequence t) None
                          (blob_strHex (tm_transaction t)) (blob_strHex (tm_metadata t))))
          else
            expanded ← lift_res (toExpandedJson t);
            mret (Done (mkTxOutput (tm_date t) "" (tm_ledgerSequence t) (Some expanded) "" ""))
      end
  end.

Definition tx_process (input : TxInput) : M W (Outcome TxOutput) :=
  let rangeSupplied := match txi_minLedger input, txi_maxLedger input with Some lo, Some hi => Some (lo, hi) | _, _ => None end in
  match rangeSupplied with
  | Some (lo, hi) =>
      if lo >? hi then mret (Failed (Status_code (Rippled rpcINVALID_LGR_RANGE)))
      else if u32 (hi - lo) >? maxLedgerRange then mret (Failed (Status_code (Rippled rpcEXCESSIVE_LGR_RANGE)))
      else tx_find input rangeSupplied
  | None => tx_find input rangeSupplied
  end.

Definition TxHandler : NgHandler W TxInput TxOutput := mkNgHandler tx_spec tx_value_to tx_process tx_value_from.

End more_handlers.

(** ** Lemmas: validation and conversion *)

(** An object as the parser makes it: a number is unsigned only when it does not
    fit into 63 bits. *)
Definition parsed (o : JsonObject) : Prop := forall k z, obj_find k o = Some (JUint64 z) -> 2 ^ 63 <= z.

(** The numbers of ledgers that are valid and are not converted. *)
Definition index_leak (o : JsonObject) : Prop :=
  (exists z, obj_find "ledger_index" o = Some (JUint64 z)) \/
  (exists s n, obj_find "ledger_index" o = Some (JString s) /\ s <> "validated" /\
     from_chars_u32 (c_str s) = Some n /\ 2 ^ 31 <= n).

(** What a valid [ledger_index] stands for; none is the last ledger. *)
Definition requested_index (o : JsonObject) : option Z :=
  match obj_find "ledger_index" o with
  | Some (JInt64 z) => Some (u32 z)
  | Some (JString s) => if bool_decide (s = "validated") then None else from_chars_u32 (c_str s)
  | _ => None
  end.

Lemma spec_done k rs fields v :
  RpcSpec_validate (makeFieldValidator k rs :: fields) v = Ok (Done tt) ->
  Forall (fun r => r v k = Ok (Done tt)) rs /\ RpcSpec_validate fields v = Ok (Done tt).
Proof. rewrite !validate_done, Forall_cons. unfold makeFieldValidator. by rewrite verify_all_done. Qed.

(** Take a validated request apart: one fact for each requirement. *)
Ltac spec_facts H :=
  repeat match type of H with
  | RpcSpec_validate (makeFieldValidator _ _ :: _) _ = _ =>
      let F := fresh "F" in apply spec_done in H as [F H]; rewrite ?Forall_cons in F; destruct_and? F
  end.

(** Of a text of digits [stoi] makes the same number, when it fits. *)
Lemma stoi_from_chars s n :
  from_chars_u32 s = Some n -> 0 <= n < 2 ^ 32 /\ stoi s = if n <? 2 ^ 31 then Ok n else Throw OutOfRange.
Proof.
  unfold from_chars_u32. intros Hn.
  assert (decimal (digits s) = n /\ n < 2 ^ 32) as [Hd Hlt].
  { destruct (digits s); [done|]. destruct (Z.ltb_spec (decimal (z :: l)) (2 ^ 32)); [|done]. by injection Hn as <-. }
  assert (0 <= n) as H0 by (rewrite <- Hd; apply decimal_nonneg; [lia | apply digits_nonneg]).
  split; [lia|]. unfold stoi. rewrite sto_digits, Hd by (by intros He; rewrite He in Hn).
  cbv zeta. replace (- 2 ^ 31 <=? n) with true by lia. done.
Qed.

Section conversion_lemmas.
Context `{RippleStrings} `{LexicalCast} `{JsonNumbers}.

Lemma index_converted o :
  LedgerIndexValidator (JObject o) "ledger_index" = Ok (Done tt) ->
  match ledger_index_input o with Ok i => ~ index_leak o /\ i = requested_index o | Throw _ => index_leak o | NoFuel => False end.
Proof.
  intros Hv. unfold ledger_index_input, requested_index, contains, at_.
  destruct (obj_find "ledger_index" o) as [x|] eqn:Hf.
  2: { rewrite bool_decide_false by (by intros [? ?]). split; [|done]. intros [(z & Hz)|(s & n & Hz & _)]; congruence. }
  rewrite bool_decide_true by done. apply (custom_done _ _ _ x) in Hv; [|done].
  destruct x; cbn in *; try done.
  - split; [|done]. intros [(? & ?)|(? & ? & ? & _)]; congruence.
  - left. eauto.
  - destruct (bool_decide (s = "validated")) eqn:Hs; cbn in *.
    + split; [|done]. apply bool_decide_eq_true in Hs as ->.
      intros [(? & ?)|(s & ? & Hs & Hn & _)]; [congruence|]. rewrite Hf in Hs. congruence.
    + apply bool_decide_eq_false in Hs. unfold checkIsU32Numeric in Hv.
      destruct (from_chars_u32 (c_str s)) as [n|] eqn:Hn; [|by rewrite bool_decide_false in Hv by (by intros [? ?])].
      destruct (stoi_from_chars _ _ Hn) as [Hr ->]. destruct (Z.ltb_spec n (2 ^ 31)) as [Hlt|Hge]; cbn.
      * rewrite u32_small by lia. split; [|done]. intros [(? & ?)|(s' & m & Hs' & _ & Hm & Hge)]; [congruence|].
        rewrite Hf in Hs'. injection Hs' as <-. rewrite Hn in Hm. injection Hm as <-. lia.
      * right. by exists s, n.
Qed.

Lemma string_converted o k x s : obj_find k o = Some x -> x = JString s -> string_member o k = Ok (c_str s).
Proof. unfold string_member, at_. by intros -> ->. Qed.

Lemma optional_converted o k :
  (forall x, obj_find k o = Some x -> exists s, x = JString s) ->
  optional_string o k = Ok (match obj_find k o with Some (JString s) => Some (c_str s) | _ => None end).
Proof.
  intros Hx. unfold optional_string, contains. destruct (obj_find k o) as [x|] eqn:Hf.
  - rewrite bool_decide_true by done. destruct (Hx x eq_refl) as [s ->]. by rewrite (string_converted _ _ _ _ Hf eq_refl).
  - rewrite bool_decide_false by (by intros [? ?]). done.
Qed.

End conversion_lemmas.

(** What the handlers take for granted of their inputs. *)
Definition known_account `{RippleStrings} (s : string) : Prop := is_Some (accountFromStringStrict s).
Definition hex_or_none `{RippleStrings} (s : option string) : Prop := forall h, s = Some h -> is_Some (parseHex h).

Section validated.
Context `{RippleStrings} `{LexicalCast} `{JsonNumbers}.

Lemma account_converted v o k :
  v = JObject o -> Required v k = Ok (Done tt) -> AccountValidator v k = Ok (Done tt) ->
  exists s, string_member o k = Ok s /\ known_account s.
Proof.
  intros -> Hr Ha. apply Required_done in Hr as [x Hx]. destruct (account_done _ _ _ Ha Hx) as (s & a & -> & Hs).
  exists (c_str s). split; [by eapply string_converted | by eexists].
Qed.

Lemma hash_converted v o k :
  v = JObject o -> Uint256HexStringValidator v k = Ok (Done tt) ->
  exists s, optional_string o k = Ok s /\ hex_or_none s.
Proof.
  intros -> Hv. eexists. split; [apply optional_converted|].
  - intros x Hx. destruct (hash_done _ _ _ Hv Hx) as (s & ? & -> & _). by eexists.
  - intros h. destruct (obj_find k o) as [x|] eqn:Hx; [|done]. destruct (hash_done _ _ _ Hv Hx) as (s & ? & -> & Hs).
    intros [= <-]. by eexists.
Qed.

Lemma marker_converted v o k :
  v = JObject o -> MarkerValidator v k = Ok (Done tt) ->
  exists s, optional_string o k = Ok s /\ is_Some (parseAccountCursor s).
Proof.
  intros -> Hv. eexists. split; [apply optional_converted|].
  - intros x Hx. destruct (marker_done _ _ _ Hv Hx) as (s & ? & -> & _). by eexists.
  - destruct (obj_find k o) as [x|] eqn:Hx; [|by eexists]. destruct (marker_done _ _ _ Hv Hx) as (s & c & -> & Hs).
    by exists c.
Qed.

Lemma limit_converted v o k lo hi :
  v = JObject o -> parsed o -> - 2 ^ 31 <= lo -> hi < 2 ^ 31 -> Type_ [TInteger] v k = Ok (Done tt) ->
  Between value_to_int Z.ltb lo hi v k = Ok (Done tt) ->
  forall x, obj_find k o = Some x -> exists z, x = JInt64 z /\ lo <= z <= hi.
Proof.
  intros -> Hp Hlo Hhi Ht Hb x Hx. apply (Type_done _ _ _ x) in Ht; [|done].
  apply (if_member_done _ _ _ x) in Hb; [|done]. cbn in Hb.
  apply Exists_cons in Ht as [Ht|Ht]; [|by apply Exists_nil in Ht].
  destruct x; try done.
  - exists z. split; [done|]. cbn in Hb. destruct (_ && _); [|done]. cbn in Hb. destruct (_ || _) eqn:Ho; [done|].
    apply orb_false_iff in Ho. lia.
  - exfalso. specialize (Hp _ _ Hx). cbn in Hb. destruct (_ && _) eqn:Hc; [|done]. lia.
Qed.

Lemma wallet_known j a : wallet_account j = Some a -> exists s, j = JString s /\ known_account (c_str s).
Proof.
  destruct j; try done. cbn. intros Hw. exists s. split; [done|]. unfold known_account, accountFromStringStrict.
  destruct (strUnHex (c_str s)) as [b|]; [destruct (publicKeyType b); [by eexists|]|].
  all: destruct (parseBase58_PublicKey (c_str s)); by eexists.
Qed.

Lemma wallets_converted l :
  forallb (fun w => bool_decide (is_Some (wallet_account w))) l = true ->
  exists as_, res_map (fun w => s ← as_string w; hot_wallet s) l = Ok as_.
Proof.
  induction l as [|w l IH]; [by exists []|]. cbn. intros [Hw Hl]%andb_true_iff.
  destruct (IH Hl) as [as_ ->]. apply bool_decide_eq_true in Hw as [a Hw].
  destruct (wallet_known _ _ Hw) as (s & -> & [b Hb]). cbn. unfold hot_wallet. rewrite Hb. cbn. by eexists.
Qed.

Lemma hotwallet_converted v o :
  v = JObject o -> hotWalletValidator v "hotwallet" = Ok (Done tt) ->
  exists ws : gset AccountID,
    (if contains o "hotwallet" then
      v ← at_ o "hotwallet";
      if is_string v then s ← as_string v; a ← hot_wallet s; Ok ({[a]} : gset AccountID)
      else l ← as_array v; as_ ← res_map (fun w => s ← as_string w; hot_wallet s) l; Ok (list_to_set as_)
    else Ok ∅) = Ok ws.
Proof.
  intros -> Hv. unfold contains, at_. destruct (obj_find "hotwallet" o) as [x|] eqn:Hx.
  2: { rewrite bool_decide_false by (by intros [? ?]). by eexists. }
  rewrite bool_decide_true by done. apply (custom_done _ _ _ x) in Hv; [|done].
  destruct x; try done.
  - destruct (bool_decide (is_Some (wallet_account (JString s)))) eqn:Hb; [|done].
    apply bool_decide_eq_true in Hb as [a Ha]. destruct (wallet_known _ _ Ha) as (s' & [= <-] & [b Hb]).
    unfold hot_wallet. cbn. rewrite Hb. by eexists.
  - destruct (forallb _ l) eqn:Hb in Hv; [|done]. destruct (wallets_converted l Hb) as [as_ Has]. cbn.
    rewrite Has. by eexists.
Qed.

Lemma ledger_number_converted v o k :
  v = JObject o -> Type_ [TInteger] v k = Ok (Done tt) ->
  match optional_int64 o k with Ok _ => True | Throw _ => exists z, obj_find k o = Some (JUint64 z) | NoFuel => False end.
Proof.
  intros -> Ht. unfold optional_int64, contains, at_. destruct (obj_find k o) as [x|] eqn:Hx.
  - rewrite bool_decide_true by done. apply (Type_done _ _ _ x) in Ht; [|done].
    apply Exists_cons in Ht as [Ht|Ht]; [|by apply Exists_nil in Ht]. destruct x; try done. cbn. eauto.
  - by rewrite bool_decide_false by (by intros [? ?]).
Qed.

Lemma channels_converted o :
  parsed o -> RpcSpec_validate account_channels_spec (JObject o) = Ok (Done tt) ->
  match channels_value_to (JObject o) with
  | Ok i => known_account (chi_account i) /\ (forall d, chi_destinationAccount i = Some d -> known_account d) /\
            hex_or_none (chi_ledgerHash i) /\ chi_ledgerIndex i = requested_index o /\ 10 <= chi_limit i <= 400 /\
            is_Some (parseAccountCursor (chi_marker i))
  | Throw _ => index_leak o
  | NoFuel => False
  end.
Proof.
  intros Hp Hv. unfold account_channels_spec in Hv. spec_facts Hv.
  destruct (account_converted _ _ _ eq_refl ltac:(eassumption) ltac:(eassumption)) as (acc & Hacc & Hknown).
  destruct (hash_converted _ _ "ledger_hash" eq_refl ltac:(eassumption)) as (hash & Hhash & Hhex).
  destruct (marker_converted _ _ "marker" eq_refl ltac:(eassumption)) as (mk & Hmk & Hcursor).
  pose proof (limit_converted _ _ "limit" 10 400 eq_refl Hp ltac:(lia) ltac:(lia) ltac:(eassumption) ltac:(eassumption)) as Hlim.
  pose proof (index_converted o ltac:(eassumption)) as Hindex.
  assert (forall x, obj_find "destination_account" o = Some x -> exists s, x = JString s /\ known_account (c_str s)) as Hdest.
  { intros x Hx. destruct (account_done (JObject o) "destination_account" x ltac:(eassumption) Hx) as (s & a & -> & Hs).
    exists s. split; [done | by eexists]. }
  assert (exists z, (if contains o "limit" then v ← at_ o "limit"; z ← as_int64 v; Ok (u32 z) else Ok 50) = Ok z /\ 10 <= z <= 400)
    as (lim & Hlimit & Hbound).
  { unfold contains, at_. destruct (obj_find "limit" o) as [x|] eqn:Hx.
    - rewrite bool_decide_true by done. destruct (Hlim x eq_refl) as (z & -> & Hz). exists z. cbn. by rewrite u32_small by lia.
    - rewrite bool_decide_false by (by intros [? ?]). by exists 50. }
  unfold channels_value_to. cbn [as_object mbind Res_bind]. rewrite Hacc. cbn [mbind Res_bind].
  rewrite Hlimit, Hmk, Hhash. cbn [mbind Res_bind].
  rewrite optional_converted by (intros x Hx; destruct (Hdest x Hx) as (s & -> & _); eauto). cbn [mbind Res_bind].
  destruct (ledger_index_input o) as [i|e|]; cbn; [|done..]. destruct Hindex as [_ ->]. split_and!; try done; try lia.
  intros d. destruct (obj_find "destination_account" o) as [x|] eqn:Hx; [|done].
  destruct (Hdest x eq_refl) as (s & -> & Hs). by intros [= <-].
Qed.

Lemma currencies_converted o :
  RpcSpec_validate account_currencies_spec (JObject o) = Ok (Done tt) ->
  match currencies_value_to (JObject o) with
  | Ok i => known_account (cui_account i) /\ hex_or_none (cui_ledgerHash i) /\ cui_ledgerIndex i = requested_index o
  | Throw _ => index_leak o
  | NoFuel => False
  end.
Proof.
  intros Hv. unfold account_currencies_spec in Hv. spec_facts Hv.
  destruct (account_converted _ _ _ eq_refl ltac:(eassumption) ltac:(eassumption)) as (acc & Hacc & Hknown).
  destruct (hash_converted _ _ "ledger_hash" eq_refl ltac:(eassumption)) as (hash & Hhash & Hhex).
  pose proof (index_converted o ltac:(eassumption)) as Hindex.
  unfold currencies_value_to. cbn [as_object mbind Res_bind]. rewrite Hacc, Hhash. cbn [mbind Res_bind].
  destruct (ledger_index_input o) as [i|e|]; cbn; [|done..]. by destruct Hindex as [_ ->].
Qed.

Lemma gateway_converted o :
  RpcSpec_validate gateway_balances_spec (JObject o) = Ok (Done tt) ->
  match gateway_value_to (JObject o) with
  | Ok i => known_account (gi_account i) /\ hex_or_none (gi_ledgerHash i) /\ gi_ledgerIndex i = requested_index o
  | Throw _ => index_leak o
  | NoFuel => False
  end.
Proof.
  intros Hv. unfold gateway_balances_spec in Hv. spec_facts Hv.
  destruct (account_converted _ _ _ eq_refl ltac:(eassumption) ltac:(eassumption)) as (acc & Hacc & Hknown).
  destruct (hash_converted _ _ "ledger_hash" eq_refl ltac:(eassumption)) as (hash & Hhash & Hhex).
  destruct (hotwallet_converted _ o eq_refl ltac:(eassumption)) as (ws & Hws).
  pose proof (index_converted o ltac:(eassumption)) as Hindex.
  unfold gateway_value_to. cbn [as_object mbind Res_bind]. rewrite Hacc, Hhash. cbn [mbind Res_bind].
  destruct (ledger_index_input o) as [i|e|]; cbn [mbind Res_bind]; [|done..]. rewrite Hws. by destruct Hindex as [_ ->].
Qed.

Lemma tx_converted o :
  RpcSpec_validate tx_spec (JObject o) = Ok (Done tt) ->
  match tx_value_to (JObject o) with
  | Ok i => is_Some (parseHex (txi_transaction i))
  | Throw _ => exists z, obj_find "min_ledger" o = Some (JUint64 z) \/ obj_find "max_ledger" o = Some (JUint64 z)
  | NoFuel => False
  end.
Proof.
  intros Hv. unfold tx_spec in Hv. spec_facts Hv.
  destruct (Required_done _ _ ltac:(eassumption)) as [x Hx].
  destruct (hash_done _ _ _ ltac:(eassumption) Hx) as (s & h & -> & Hs).
  pose proof (ledger_number_converted _ o "min_ledger" eq_refl ltac:(eassumption)) as Hmin.
  pose proof (ledger_number_converted _ o "max_ledger" eq_refl ltac:(eassumption)) as Hmax.
  assert (exists b, (if contains o "binary" then v ← at_ o "binary"; as_bool v else Ok false) = Ok b) as [b Hb].
  { unfold contains, at_. destruct (obj_find "binary" o) as [x|] eqn:Hbin; [|by rewrite bool_decide_false by (by intros [? ?]); eexists].
    rewrite bool_decide_true by done.
    assert (Exists (fun t => checkType t x = true) [TBool]) as Ht by (by eapply (Type_done _ (JObject o) "binary")).
    apply Exists_cons in Ht as [Ht|Ht]; [|by apply Exists_nil in Ht]. destruct x; try done. by eexists. }
  unfold tx_value_to. cbn [as_object mbind Res_bind]. rewrite (string_converted _ _ _ _ Hx eq_refl), Hb. cbn [mbind Res_bind].
  destruct (optional_int64 o "min_ledger"); cbn [mbind Res_bind]; [|destruct Hmin; eauto|done].
  destruct (optional_int64 o "max_ledger"); cbn [mbind Res_bind]; [|destruct Hmax; eauto|done]. by exists h.
Qed.

(** C28: validation makes the conversion safe. A request that the parser made and
    the specification of its handler lets through is turned into the handler's
    input without an exception, and the input has what the handler takes for
    granted: its accounts are accounts, its hashes hexadecimal, its marker a
    cursor, its limit within the bounds, so that no empty optional is
    dereferenced. The exceptions are the numbers of ledgers: a [ledger_index] of
    more than 63 bits, or a text of digits from 2^31 on, and a [min_ledger] or
    [max_ledger] of more than 63 bits are valid and are not converted. *)
Theorem validated_inputs (o : JsonObject) :
  parsed o ->
  (RpcSpec_validate account_channels_spec (JObject o) = Ok (Done tt) ->
   match channels_value_to (JObject o) with
   | Ok i => known_account (chi_account i) /\ (forall d, chi_destinationAccount i = Some d -> known_account d) /\
             hex_or_none (chi_ledgerHash i) /\ chi_ledgerIndex i = requested_index o /\ 10 <= chi_limit i <= 400 /\
             is_Some (parseAccountCursor (chi_marker i))
   | Throw _ => index_leak o
   | NoFuel => False
   end) /\
  (RpcSpec_validate account_currencies_spec (JObject o) = Ok (Done tt) ->
   match currencies_value_to (JObject o) with
   | Ok i => known_account (cui_account i) /\ hex_or_none (cui_ledgerHash i) /\ cui_ledgerIndex i = requested_index o
   | Throw _ => index_leak o
   | NoFuel => False
   end) /\
  (RpcSpec_validate gateway_balances_spec (JObject o) = Ok (Done tt) ->
   match gateway_value_to (JObject o) with
   | Ok i => known_account (gi_account i) /\ hex_or_none (gi_ledgerHash i) /\ gi_ledgerIndex i = requested_index o
   | Throw _ => index_leak o
   | NoFuel => False
   end) /\
  (RpcSpec_validate tx_spec (JObject o) = Ok (Done tt) ->
   match tx_value_to (JObject o) with
   | Ok i => is_Some (parseHex (txi_transaction i))
   | Throw _ => exists z, obj_find "min_ledger" o = Some (JUint64 z) \/ obj_find "max_ledger" o = Some (JUint64 z)
   | NoFuel => False
   end).
Proof.
  intros Hp. split_and!; [by apply channels_converted | apply currencies_converted | apply gateway_converted | apply tx_converted].
Qed.

End validated.

(** ** Two requests *)

#[export] Instance sample_numbers : JsonNumbers := { double_integer := fun z => Some z }.

(** A request that is converted, and one whose ledger is only valid. *)
Definition ng_request (index : string) : JsonObject :=
  [("account", JString "e"); ("limit", JInt64 20); ("ledger_index", JString index)].

Lemma ng_request_parsed index : parsed (ng_request index).
Proof. intros k z. unfold ng_request. cbn. by repeat case_match. Qed.

Lemma validated_inputs_witness :
  RpcSpec_validate account_channels_spec (JObject (ng_request "30")) = Ok (Done tt) /\
  channels_value_to (JObject (ng_request "30")) = Ok (mkChannelsInput "e" None None (Some 30) 20 None) /\
  known_account "e" /\
  RpcSpec_validate account_channels_spec (JObject (ng_request "3000000000")) = Ok (Done tt) /\
  channels_value_to (JObject (ng_request "3000000000")) = Throw OutOfRange /\ index_leak (ng_request "3000000000").
Proof.
  destruct (validated_inputs (ng_request "30") (ng_request_parsed _)) as (H1 & _).
  destruct (validated_inputs (ng_request "3000000000") (ng_request_parsed _)) as (H2 & _).
  specialize (H1 ltac:(vm_compute; reflexivity)). specialize (H2 ltac:(vm_compute; reflexivity)).
  assert (channels_value_to (JObject (ng_request "30")) = Ok (mkChannelsInput "e" None None (Some 30) 20 None)) as E1
    by (vm_compute; reflexivity).
  assert (channels_value_to (JObject (ng_request "3000000000")) = Throw OutOfRange) as E2 by (vm_compute; reflexivity).
  rewrite E1 in H1. rewrite E2 in H2. destruct H1 as (Ha & _).
  split; [vm_compute; reflexivity|]. split; [exact E1|]. split; [exact Ha|].
  split; [vm_compute; reflexivity|]. split; [exact E2 | exact H2].
Defined.
