(* ===== verification/NgAccounts.v ===== *)
(** What the handlers of [account_channels] and [gateway_balances] make of the
    objects an account owns.

    [ServesLedger] is what the theorems need of a server, [owner_ok] of a ledger.
    [channels_walk]: following the markers of [account_channels].
    [gateway_partition]: where [gateway_balances] puts the trust lines. *)

From stdpp Require Import base list gmap strings.
From Stdlib Require Import ZArith Lia Ascii.
From S2P Require Import Prelude Types TreeRipple SimpleCache Backend Json Errors Requests Subscriptions Directory OrderBook Rpc TxRequests Validators NgHandlers.

#[local] Open Scope string_scope.
#[local] Open Scope list_scope.
Open Scope Z_scope.

(** ** Channels *)

(** A server that has a ledger: it knows its range and finds the ledger by its
    sequence. *)
Class ServesLedger {W} `{BackendImpl W} `{LedgerReads W} (I : W -> Prop) (E : Exn -> W -> Prop) (info : LedgerInfo) := {
  sl_range : forall w, I w -> exists r, range w = Some r /\ li_seq info <= maxSequence r;
  sl_ledger : triple I (ledger_by_sequence (li_seq info)) (fun r w => r = Some info /\ I w) E
}.

Section ledger_lemmas.
Context `{BackendImpl W} `{LedgerReads W} {Ldg : Z -> gmap Z Blob} {I : W -> Prop} {E : Exn -> W -> Prop}.
Context `{!ReadLaws Ldg I E} {info : LedgerInfo} `{!ServesLedger I E info} `{Ripple}.
Context `{RippleKeylets} `{RippleStrings}.

Lemma ledger_and_account_spec account a b :
  accountFromStringStrict account = Some a -> Ldg (li_seq info) !! keylet_account a = Some b ->
  triple I (ledger_and_account None (Some (li_seq info)) account) (fun r w => r = Done (info, a) /\ I w) E.
Proof.
  intros Ha Hb. unfold ledger_and_account.
  eapply (triple_bind _ _ _ (fun r w => (exists rng, r = Some rng /\ li_seq info <= maxSequence rng) /\ I w)).
  { intros w Hw. destruct (sl_range w Hw) as (r & Hr & Hle). cbn. eauto. }
  intros r. apply triple_pre_pure. intros (rng & -> & Hle). unfold getLedgerInfoFromHashOrSeq. cbn [default from_option].
  replace (id (li_seq info) >? maxSequence rng) with false by (unfold id; lia).
  eapply (triple_bind _ _ _ (fun r w => r = Done info /\ I w)).
  { eapply triple_bind; [apply sl_ledger|]. intros r. apply triple_pre_pure. intros ->. by apply triple_ret. }
  intros r. apply triple_pre_pure. intros ->. rewrite Ha. eapply triple_bind.
  { apply fetchLedgerObject_spec. by eapply rl_valid. }
  intros r. apply triple_pre_pure. intros ->. rewrite Hb. by apply triple_ret.
Qed.

End ledger_lemmas.

(** The account of a request, in the ledger [m], with its directory, whose keys
    are not zero and not repeated; and its objects, which satisfy [ready]. *)
Definition owner_ok `{Ripple} `{RippleKeylets} `{RippleStrings} (m : gmap Z Blob) (sle_of : uint256 -> STObject)
    (pages : list (Z * list uint256)) (dir_fuel : nat) (account : string) (a : AccountID) (ready : STObject -> Prop) : Prop :=
  accountFromStringStrict account = Some a /\ is_Some (m !! keylet_account a) /\
  keylet_page (keylet_ownerDir a) 0 = keylet_ownerDir a /\
  dir_chain m (keylet_ownerDir a) 0 pages /\ (length pages <= dir_fuel)%nat /\
  NoDup (dir_keys pages) /\ (0 ∉ dir_keys pages) /\
  (forall k, k ∈ dir_keys pages -> (exists b, m !! k = Some b /\ parseSLE b k = Ok (sle_of k)) /\ ready (sle_of k)).

(** A client that sends the marker of each answer back with the same request,
    and gathers the channels. *)
Section channels.
Context `{BackendImpl W} `{LedgerReads W} {Ldg : Z -> gmap Z Blob} {I : W -> Prop} {E : Exn -> W -> Prop}.
Context `{!ReadLaws Ldg I E} {info : LedgerInfo} `{!ServesLedger I E info}.
Context `{Amounts} `{!TxRendering} `{!NgRipple} `{RippleKeylets} `{CursorTextLaws}.

Fixpoint channels_client (fuel dir_fuel : nat) (input : ChannelsInput) : M W (Outcome (list ChannelResponse)) :=
  match fuel with
  | O => no_fuel
  | S fuel' =>
      r ← channels_process dir_fuel input;
      match r with
      | Failed s => mret (Failed s)
      | Done out =>
          match cho_marker out with
          | None => mret (Done (cho_channels out))
          | Some marker =>
              rest ← channels_client fuel' dir_fuel
                (mkChannelsInput (chi_account input) (chi_destinationAccount input) (chi_ledgerHash input)
                   (chi_ledgerIndex input) (chi_limit input) (Some marker));
              mret (rest ← rest; Done (cho_channels out ++ rest))
          end
      end
  end.

(** The channel an owned object is, if it is one that was asked for. *)
Definition channels_in (a : AccountID) (dest : option AccountID) (sle : STObject) : list ChannelResponse :=
  match channel_visit a dest [] sle with Ok l => l | _ => [] end.

Lemma channel_visit_app a dest acc sle l :
  channel_visit a dest [] sle = Ok l -> channel_visit a dest acc sle = Ok (acc ++ l).
Proof.
  unfold channel_visit. destruct (getFieldU16 sle sfLedgerEntryType); cbn [mbind Res_bind]; [|done..].
  destruct (negb _); [intros [= <-]; by rewrite app_nil_r|].
  destruct (getAccountID sle sfAccount); cbn [mbind Res_bind]; [|done..].
  destruct (negb _); [intros [= <-]; by rewrite app_nil_r|].
  destruct (match dest with Some _ => _ | None => _ end) as [[]| |]; cbn [mbind Res_bind]; [|by intros [= <-]; rewrite app_nil_r|done..].
  destruct (addChannel sle); cbn [mbind Res_bind]; [|done..]. by intros [= <-].
Qed.

(** The account, its directory in the ledger, and the objects it owns. *)
Context (sle_of : uint256 -> STObject) (pages : list (Z * list uint256)) (dir_fuel : nat).
Context (account : string) (a : AccountID) (destination : option string) (limit : Z).

Abbreviation dest := (mbind (M := option) accountFromStringStrict destination).
Abbreviation keys := (dir_keys pages).
Abbreviation found := (fun ks : list uint256 => mjoin ((fun k => channels_in a dest (sle_of k)) <$> ks)).
Abbreviation input := (mkChannelsInput account destination None (Some (li_seq info)) limit).
Abbreviation readable := (fun sle => exists l, channel_visit a dest [] sle = Ok l).
Abbreviation owner_ok := (owner_ok (Ldg (li_seq info)) sle_of pages dir_fuel account a readable).

(** The marker of a client that has been through the first [n] keys. *)
Definition marker_at (n : nat) : option string :=
  if decide (n = 0%nat) then None else Some (AccountCursor_toString (cursor_at pages n)).

Lemma found_fold ks acc :
  foldl (fun acc sle => acc ++ channels_in a dest sle) acc (sle_of <$> ks) = acc ++ found ks.
Proof.
  revert acc. induction ks as [|k ks IH]; intros acc; cbn; [by rewrite app_nil_r|].
  fold_fmap. rewrite IH. by rewrite <- app_assoc.
Qed.

Lemma channels_process_spec n :
  owner_ok -> 0 < limit < 2 ^ 32 -> (n <= length keys)%nat ->
  triple I (channels_process dir_fuel (input (marker_at n)))
    (fun r w => r = Done (mkChannelsOutput (found (cut limit (drop n keys))) account (strHex (li_hash info)) (li_seq info) limit
                            (if decide (n + Z.to_nat limit <= length keys)%nat then marker_at (n + Z.to_nat limit) else None)) /\ I w) E.
Proof.
  intros (Ha & [b Hb] & Hroot & Hc & Hf & Hnd & Hz & Hobj) Hl Hn. unfold channels_process. cbn [chi_ledgerHash chi_ledgerIndex chi_account chi_destinationAccount chi_limit chi_marker].
  eapply triple_bind; [by eapply ledger_and_account_spec|]. intros r. apply triple_pre_pure. intros ->.
  set (c := if decide (n = 0%nat) then zero_cursor else cursor_at pages n).
  assert (parseAccountCursor (marker_at n) = Some c) as Hm.
  { unfold marker_at, c. destruct (decide (n = 0%nat)); [done|]. apply parse_toString.
    eapply cursor_at_ok; [done..|lia]. }
  unfold ngTraverseOwnedNodes. rewrite Hm. eapply triple_bind.
  { apply (traverse_pages (channel_visit a dest) (fun acc sle => acc ++ channels_in a dest sle) sle_of dir_fuel
      (keylet_ownerDir a) (li_seq info) limit pages n []); try done.
    intros k Hk. destruct (Hobj k Hk) as [Ho [l Hv]]. split; [done|]. intros acc.
    rewrite (channel_visit_app _ _ _ _ _ Hv). unfold channels_in. by rewrite Hv. }
  intros r. apply triple_pre_pure. intros ->. apply triple_ret. intros w Hw. split; [|done]. do 2 f_equal.
  - by rewrite found_fold.
  - destruct (decide (n + Z.to_nat limit <= length keys)%nat); [|done].
    unfold marker_at. rewrite decide_False by lia.
    destruct (cursor_at_ok _ _ _ (n + Z.to_nat limit) Hc Hz) as [_ ->]; [lia|done].
Qed.

Lemma channels_client_spec fuel n :
  owner_ok -> 0 < limit < 2 ^ 32 -> (n <= length keys)%nat -> (length keys - n < fuel)%nat ->
  triple I (channels_client fuel dir_fuel (input (marker_at n)))
    (fun r w => r = Done (found (drop n keys)) /\ I w) E.
Proof.
  intros Hok Hl. revert n. induction fuel as [|fuel IH]; intros n Hn Hf; [lia|]. cbn [channels_client].
  eapply triple_bind; [by apply channels_process_spec|]. intros r. apply triple_pre_pure. intros ->.
  cbn [cho_marker cho_channels chi_account chi_destinationAccount chi_ledgerHash chi_ledgerIndex chi_limit].
  destruct (decide (n + Z.to_nat limit <= length keys)%nat) as [Hmore|Hend].
  - assert (exists m, marker_at (n + Z.to_nat limit) = Some m) as [m Hm].
    { unfold marker_at. rewrite decide_False by lia. by eexists. }
    rewrite Hm, <- Hm. eapply triple_bind; [apply IH; lia|]. intros r. apply triple_pre_pure. intros ->.
    apply triple_ret. intros w Hw. split; [|done]. cbn. f_equal.
    rewrite <- drop_drop, <- join_app, <- fmap_app. unfold cut. by rewrite take_drop.
  - apply triple_ret. intros w Hw. split; [|done]. unfold cut. by rewrite take_ge by (rewrite length_drop; lia).
Qed.

(** Listing the channels of an account. A client that asks for the channels
    of an account and sends the marker of each answer back gets, whatever the
    limit, exactly the payment channels among the objects the account owns (to
    the destination it names), once and in the order of the directory, in at most
    one request more than there are objects. *)
Theorem channels_walk (fuel : nat) :
  owner_ok -> 0 < limit < 2 ^ 32 -> (length keys < fuel)%nat ->
  triple I (channels_client fuel dir_fuel (input None)) (fun r w => r = Done (found keys) /\ I w) E.
Proof. intros Hok Hl Hf. apply (channels_client_spec fuel 0); [done..|lia|lia]. Qed.

End channels.

(** ** Gateways *)

(** What becomes of a trust line, and its view with the freeze. *)
Inductive LineClass := Settled | Hot | Asset | Frozen | Obligation.

#[export] Instance LineClass_eq_dec : EqDecision LineClass.
Proof. solve_decision. Defined.

(** Subtracting amounts of one currency: what it gives is the library's affair (it
    rounds); it throws nothing but a [runtime_error], when the result overflows. *)
Class AmountErrors `{Amounts} := {
  ae_sub : forall x y, match amt_sub x y with
                       | Ok _ => True
                       | Throw e => exists m, e = RuntimeError m
                       | NoFuel => False
                       end
}.

Section gateway.
Context `{Amounts} `{!TxRendering} `{!NgRipple}.

Definition line_of (a : AccountID) (sle : STObject) : Res (option (LineView * bool)) :=
  type ← getFieldU16 sle sfLedgerEntryType;
  if negb (type =? ltRIPPLE_STATE) then Ok None
  else
    l ← line_view a sle;
    flags ← getFieldU32 sle sfFlags;
    Ok (Some (l, negb (Z.land flags (if lv_viewLowest l then lsfLowFreeze else lsfHighFreeze) =? 0))).

Definition class_of (hot : gset AccountID) (l : LineView * bool) : LineClass :=
  if amt_signum (lv_balance l.1) =? 0 then Settled
  else if decide (lv_peer l.1 ∈ hot) then Hot
  else if amt_signum (lv_balance l.1) >? 0 then Asset
  else if l.2 then Frozen
  else Obligation.

(** The lines of a class with one peer, and those that make up the obligations
    in one currency. *)
Definition lines_with (hot : gset AccountID) (c : LineClass) (peer : AccountID) (lines : list (LineView * bool)) : list LineView :=
  fst <$> filter (fun l => class_of hot l = c /\ lv_peer l.1 = peer) lines.

Definition obligations_in (hot : gset AccountID) (currency : Z) (lines : list (LineView * bool)) : list LineView :=
  fst <$> filter (fun l => class_of hot l = Obligation /\ amt_currency (lv_balance l.1) = currency) lines.

(** What is owed in a currency, one line after the other: the first amount that
    is owed, negated, then each balance subtracted; and whether one of them could
    not be subtracted, which leaves the amount as it was. *)
Definition owe (t : STAmount * bool) (l : LineView) : STAmount * bool :=
  if amt_signum t.1 =? 0 then (amt_negate (lv_balance l), t.2)
  else match amt_sub t.1 (lv_balance l) with
       | Ok x => (x, t.2)
       | _ => (t.1, true)
       end.

Definition owed_sum (ls : list LineView) : STAmount * bool := foldl owe (amt_default, false) ls.

(** What the maps of the output are of a list of lines. *)
Definition balances_of (hot : gset AccountID) (lines : list (LineView * bool)) (b : Balances) : Prop :=
  (forall p, default [] (hotBalances b !! p) = (fun l => amt_negate (lv_balance l)) <$> lines_with hot Hot p lines) /\
  (forall p, default [] (assets b !! p) = lv_balance <$> lines_with hot Asset p lines) /\
  (forall p, default [] (frozenBalances b !! p) = (fun l => amt_negate (lv_balance l)) <$> lines_with hot Frozen p lines) /\
  (forall p, hotBalances b !! p <> Some [] /\ assets b !! p <> Some [] /\ frozenBalances b !! p <> Some []) /\
  (forall c, sums b !! c = if decide (obligations_in hot c lines = []) then None
                           else Some (owed_sum (obligations_in hot c lines)).1) /\
  (overflow b = true <-> exists c, (owed_sum (obligations_in hot c lines)).2 = true).

(** Where the subtractions happen to be exact, what is owed is the sum of what the
    account owes on each line. *)
Definition owed_total (value : STAmount -> Z) (ls : list LineView) : Z :=
  foldr (fun l n => - value (lv_balance l) + n) 0 ls.

Lemma owed_exact (value : STAmount -> Z) ls :
  value amt_default = 0 ->
  (forall x, amt_signum x = Z.sgn (value x)) -> (forall x, value (amt_negate x) = - value x) ->
  (forall t l x, l ∈ ls -> amt_sub t (lv_balance l) = Ok x -> value x = value t - value (lv_balance l)) ->
  (owed_sum ls).2 = false -> value (owed_sum ls).1 = owed_total value ls.
Proof.
  intros Hdef Hsg Hneg. unfold owed_sum. induction ls as [|l ls IH] using rev_ind; intros Hsub Hov; [done|].
  rewrite foldl_snoc in *. assert (owed_total value (ls ++ [l]) = owed_total value ls - value (lv_balance l)) as ->.
  { clear. unfold owed_total. induction ls as [|x ls IH]; cbn; [lia|]. rewrite IH. lia. }
  set (t := foldl owe (amt_default, false) ls) in *.
  assert (t.2 = false -> value t.1 = owed_total value ls) as IH' by (apply IH; intros; eapply Hsub; [set_solver|done]).
  unfold owe in *. destruct (Z.eqb_spec (amt_signum t.1) 0) as [Hz|Hz].
  - cbn in *. rewrite Hneg, <- (IH' Hov). rewrite Hsg in Hz. lia.
  - destruct (amt_sub t.1 (lv_balance l)) as [x| |] eqn:Hx; [|done..]. cbn in *.
    rewrite (Hsub _ _ _ ltac:(apply elem_of_app; right; by left) Hx), (IH' Hov). lia.
Qed.

Context `{!AmountErrors}.

Lemma push_lookup p q x m :
  default [] (push_balance p x m !! q) = default [] (m !! q) ++ (if decide (p = q) then [x] else []).
Proof.
  unfold push_balance. destruct (decide (p = q)) as [->|Hne]; [by rewrite lookup_insert_eq|].
  by rewrite lookup_insert_ne, app_nil_r.
Qed.

Lemma lines_with_snoc hot c p lines l :
  lines_with hot c p (lines ++ [l]) =
  lines_with hot c p lines ++ (if decide (class_of hot l = c /\ lv_peer l.1 = p) then [l.1] else []).
Proof.
  unfold lines_with. rewrite filter_app, fmap_app. f_equal. rewrite filter_cons, filter_nil. by case_decide.
Qed.

Lemma obligations_snoc hot c lines l :
  obligations_in hot c (lines ++ [l]) =
  obligations_in hot c lines ++ (if decide (class_of hot l = Obligation /\ amt_currency (lv_balance l.1) = c) then [l.1] else []).
Proof.
  unfold obligations_in. rewrite filter_app, fmap_app. f_equal. rewrite filter_cons, filter_nil. by case_decide.
Qed.

(** The visit of a line, by its class. *)
Definition place (hot : gset AccountID) (l : LineView * bool) (b : Balances) : Res Balances :=
  let v := lv_balance l.1 in
  match class_of hot l with
  | Settled => Ok b
  | Hot => Ok (mkBalances (overflow b) (sums b) (push_balance (lv_peer l.1) (amt_negate v) (hotBalances b)) (assets b) (frozenBalances b))
  | Asset => Ok (mkBalances (overflow b) (sums b) (hotBalances b) (push_balance (lv_peer l.1) v (assets b)) (frozenBalances b))
  | Frozen => Ok (mkBalances (overflow b) (sums b) (hotBalances b) (assets b) (push_balance (lv_peer l.1) (amt_negate v) (frozenBalances b)))
  | Obligation => add_obligation l.1 b
  end.

Lemma gateway_visit_place a hot b sle o :
  line_of a sle = Ok o -> gateway_visit a hot b sle = match o with Some l => place hot l b | None => Ok b end.
Proof.
  unfold line_of, gateway_visit. destruct (getFieldU16 sle sfLedgerEntryType); cbn [mbind Res_bind]; [|done..].
  destruct (negb _); [by intros [= <-]|].
  destruct (line_view a sle) as [l| |]; cbn [mbind Res_bind]; [|done..].
  destruct (getFieldU32 sle sfFlags); cbn [mbind Res_bind]; [|done..]. intros [= <-].
  unfold place, class_of. cbn [fst snd].
  destruct (amt_signum (lv_balance l) =? 0); [done|]. case_bool_decide; case_decide; try done.
  destruct (amt_signum (lv_balance l) >? 0); [done|]. by destruct (negb _).
Qed.

(** A class that leaves the sums alone, and the other maps. *)
Lemma default_push_nonempty p q x m : (forall p, m !! p <> Some []) -> push_balance p x m !! q <> Some [].
Proof.
  intros Hm. unfold push_balance. destruct (decide (p = q)) as [->|Hne].
  - rewrite lookup_insert_eq. intros [= Hx]. by destruct (default [] (m !! q)).
  - by rewrite lookup_insert_ne.
Qed.

(** The sums and the overflow are those of the obligations. *)
Definition sums_of (hot : gset AccountID) (lines : list (LineView * bool)) (o : bool) (s : gmap Z STAmount) : Prop :=
  (forall c, s !! c = if decide (obligations_in hot c lines = []) then None
                      else Some (owed_sum (obligations_in hot c lines)).1) /\
  (o = true <-> exists c, (owed_sum (obligations_in hot c lines)).2 = true).

Lemma sums_default hot lines o s c :
  sums_of hot lines o s -> default amt_default (s !! c) = (owed_sum (obligations_in hot c lines)).1.
Proof. intros [Hs _]. rewrite Hs. by destruct (obligations_in hot c lines). Qed.

(** Only the currency of the line changes. *)
Lemma sums_owe hot lines o s l :
  sums_of hot lines o s -> class_of hot l = Obligation ->
  let cur := amt_currency (lv_balance l.1) in
  let t := owed_sum (obligations_in hot cur lines) in
  let t' := owe t l.1 in
  sums_of hot (lines ++ [l]) (o || (negb t.2 && t'.2)) (<[cur := t'.1]> s).
Proof.
  intros [Hs Ho] Hc cur t t'.
  assert (forall c, obligations_in hot c (lines ++ [l]) =
    if decide (cur = c) then obligations_in hot c lines ++ [l.1] else obligations_in hot c lines) as Hob.
  { intros c. rewrite obligations_snoc. fold cur. destruct (decide (cur = c)).
    - by rewrite decide_True.
    - rewrite decide_False by naive_solver. apply app_nil_r. }
  assert (owed_sum (obligations_in hot cur lines ++ [l.1]) = t') as Ht' by (unfold owed_sum; by rewrite foldl_snoc).
  assert (t.2 = true -> t'.2 = true) as Hmono.
  { intros Ht. unfold t', owe. destruct (amt_signum t.1 =? 0); [done|]. by destruct (amt_sub _ _). }
  split.
  - intros c. rewrite Hob. destruct (decide (cur = c)) as [<-|Hne].
    + rewrite lookup_insert_eq, decide_False, Ht' by (by destruct (obligations_in hot cur lines)). done.
    + by rewrite lookup_insert_ne, Hs.
  - rewrite orb_true_iff, Ho, andb_true_iff, negb_true_iff. setoid_rewrite Hob. split.
    + intros [[c Hov]|[_ Hov]]; [exists c | exists cur].
      * destruct (decide (cur = c)) as [<-|]; [|done]. rewrite Ht'. by apply Hmono.
      * by rewrite decide_True, Ht'.
    + intros [c Hov]. destruct (decide (cur = c)) as [<-|]; [|left; by exists c].
      rewrite Ht' in Hov. destruct t.2 eqn:Ht; [left; by exists cur | by right].
Qed.

Lemma add_obligation_sums hot lines l b :
  sums_of hot lines (overflow b) (sums b) -> class_of hot l = Obligation ->
  exists o s, add_obligation l.1 b = Ok (mkBalances o s (hotBalances b) (assets b) (frozenBalances b)) /\
    sums_of hot (lines ++ [l]) o s.
Proof.
  intros Hs Hc. pose proof (sums_owe hot lines _ _ l Hs Hc) as Hn. cbv zeta in Hn.
  unfold add_obligation. rewrite (sums_default hot lines (overflow b)) by done.
  set (t := owed_sum _) in *. destruct Hs as [_ Ho].
  assert (t.2 = true -> overflow b = true) as Hov by (intros Ht; apply Ho; by eexists).
  assert (overflow b || (negb t.2 && t.2) = overflow b) as Hkeep by (by destruct (overflow b), t.2).
  unfold owe in Hn. destruct (amt_signum t.1 =? 0); cbn [fst snd] in Hn.
  - rewrite Hkeep in Hn. by eexists _, _.
  - pose proof (ae_sub t.1 (lv_balance l.1)) as Hsub.
    destruct (amt_sub t.1 (lv_balance l.1)) as [x|e|]; [|destruct Hsub as [m ->]|done]; cbn [fst snd] in Hn.
    + rewrite Hkeep in Hn. by eexists _, _.
    + replace (overflow b || _) with true in Hn; [by eexists _, _|].
      destruct (overflow b); [done|]. by destruct t.2; [discriminate Hov|].
Qed.

(** A line goes into the map of its class and no other. *)
Lemma line_pushed (f : LineView -> STAmount) hot c lines l m :
  (forall p, default [] (m !! p) = f <$> lines_with hot c p lines) -> class_of hot l = c ->
  forall p, default [] (push_balance (lv_peer l.1) (f l.1) m !! p) = f <$> lines_with hot c p (lines ++ [l]).
Proof.
  intros Hm Hc p. rewrite push_lookup, lines_with_snoc, fmap_app, Hm. f_equal.
  destruct (decide (lv_peer l.1 = p)) as [Hp|Hp]; [by rewrite decide_True | by rewrite decide_False by naive_solver].
Qed.

Lemma line_kept (f : LineView -> STAmount) hot c lines l (m : gmap AccountID (list STAmount)) :
  (forall p, default [] (m !! p) = f <$> lines_with hot c p lines) -> class_of hot l <> c ->
  forall p, default [] (m !! p) = f <$> lines_with hot c p (lines ++ [l]).
Proof. intros Hm Hc p. rewrite lines_with_snoc, decide_False, app_nil_r by naive_solver. apply Hm. Qed.

Lemma sums_kept hot lines l o s :
  sums_of hot lines o s -> class_of hot l <> Obligation -> sums_of hot (lines ++ [l]) o s.
Proof.
  intros Hs Hc. assert (forall c, obligations_in hot c (lines ++ [l]) = obligations_in hot c lines) as Hob.
  { intros c. by rewrite obligations_snoc, decide_False, app_nil_r by naive_solver. }
  destruct Hs as [Hs Ho]. split; [intros c; by rewrite Hob|]. rewrite Ho. by setoid_rewrite Hob.
Qed.

Lemma place_balances hot lines l b :
  balances_of hot lines b -> exists b', place hot l b = Ok b' /\ balances_of hot (lines ++ [l]) b'.
Proof.
  intros (Hh & Ha & Hf & He & Hs). unfold place. destruct (class_of hot l) eqn:Hc.
  5: destruct (add_obligation_sums hot lines l b Hs Hc) as (o & s & -> & Hsum).
  all: eexists; split; [done|]; unfold balances_of; cbn [overflow sums hotBalances assets frozenBalances].
  all: split; [|split; [|split; [|split]]].
  all: first [ by apply (line_pushed (fun l => amt_negate (lv_balance l))) | by apply (line_pushed lv_balance)
             | apply line_kept; [done | by rewrite Hc] | apply sums_kept; [done | by rewrite Hc]
             | intros p; destruct (He p) as (? & ? & ?); split_and!; (done || by apply default_push_nonempty; intros q; apply He) | done ].
Qed.

End gateway.

Section gateway_walk.
Context `{BackendImpl W} `{LedgerReads W} {Ldg : Z -> gmap Z Blob} {I : W -> Prop} {E : Exn -> W -> Prop}.
Context `{!ReadLaws Ldg I E} {info : LedgerInfo} `{!ServesLedger I E info}.
Context `{Amounts} `{!TxRendering} `{!NgRipple} `{!AmountErrors} `{RippleKeylets} `{CursorTextLaws}.
Context (sle_of : uint256 -> STObject) (pages : list (Z * list uint256)) (dir_fuel : nat).
Context (account : string) (a : AccountID) (hot : gset AccountID).

(** The trust lines among the objects with the given keys. *)
Definition lines_at (ks : list uint256) : list (LineView * bool) :=
  omap (fun k => match line_of a (sle_of k) with Ok o => o | _ => None end) ks.

Definition visited (b : Balances) (sle : STObject) : Balances :=
  match gateway_visit a hot b sle with Ok b' => b' | _ => b end.

Lemma visit_total b sle o : line_of a sle = Ok o -> gateway_visit a hot b sle = Ok (visited b sle).
Proof.
  intros Hl. unfold visited. rewrite (gateway_visit_place _ _ _ _ _ Hl). destruct o as [l|]; [|done].
  unfold place, add_obligation. destruct (class_of hot l); try done. cbv zeta. destruct (_ =? 0); [done|].
  match goal with |- context [amt_sub ?x ?y] => pose proof (ae_sub x y) as Hs; destruct (amt_sub x y) end; [done| |done].
  by destruct Hs as [m ->].
Qed.

Lemma visited_balances ks lines b :
  (forall k, k ∈ ks -> exists o, line_of a (sle_of k) = Ok o) -> balances_of hot lines b ->
  balances_of hot (lines ++ lines_at ks) (foldl visited b (sle_of <$> ks)).
Proof.
  revert lines b. induction ks as [|k ks IH]; intros lines b Hks Hb; cbn; [by rewrite app_nil_r|]. fold_fmap.
  destruct (Hks k) as [o Ho]; [set_solver|]. unfold visited at 2. rewrite Ho, (gateway_visit_place _ _ _ _ _ Ho).
  destruct o as [l|].
  - destruct (place_balances hot lines l b Hb) as (b' & -> & Hb'). fold (lines_at ks).
    change (l :: lines_at ks) with ([l] ++ lines_at ks). rewrite app_assoc. apply IH; [set_solver|done].
  - apply IH; [set_solver|done].
Qed.

Lemma no_balances_of : balances_of hot [] no_balances.
Proof. split_and!; cbn; intros; rewrite ?lookup_empty; try done. split; [done|]. by intros [c Hc]. Qed.

Lemma hot_listed lines b hw :
  balances_of hot lines b -> is_Some (hotBalances b !! hw) <-> lines_with hot Hot hw lines <> [].
Proof.
  intros (Hh & _ & _ & He & _). specialize (Hh hw). destruct (He hw) as [He' _]. destruct (hotBalances b !! hw) as [l|]; cbn in Hh.
  - split; [|by eexists]. intros _ Hnil. rewrite Hnil in Hh. by subst.
  - split; [by intros [? ?]|]. intros Hn. by destruct (lines_with hot Hot hw lines).
Qed.

(** The maps after all objects of the account, and the answer made of them. *)
Abbreviation visited_all := (foldl visited no_balances (sle_of <$> dir_keys pages)).

Lemma gateway_run :
  owner_ok (Ldg (li_seq info)) sle_of pages dir_fuel account a (fun sle => exists o, line_of a sle = Ok o) ->
  Z.of_nat (length (dir_keys pages)) < 2 ^ 32 ->
  triple I (gateway_process dir_fuel (mkGatewayInput account hot None (Some (li_seq info))))
    (fun r w => r = (if bool_decide (set_Forall (fun hw => is_Some (hotBalances visited_all !! hw)) hot)
                     then Done (mkGatewayOutput (strHex (li_hash info)) (li_seq info) account visited_all)
                     else invalid_message "invalidHotWallet") /\ I w) E.
Proof.
  intros (Ha & [b Hb] & Hroot & Hc & Hf & Hnd & Hz & Hobj) Hlen. unfold gateway_process.
  cbn [gi_ledgerHash gi_ledgerIndex gi_account gi_hotWallets].
  eapply triple_bind; [by eapply ledger_and_account_spec|]. intros r. apply triple_pre_pure. intros ->.
  unfold ngTraverseOwnedNodes. cbn [parseAccountCursor]. eapply triple_bind.
  { apply (traverse_pages (gateway_visit a hot) visited sle_of dir_fuel (keylet_ownerDir a) (li_seq info) (2 ^ 32 - 1)
      pages 0 no_balances); try done; [|lia].
    intros k Hk. destruct (Hobj k Hk) as [Ho [o Hv]]. split; [done|]. intros acc. by eapply visit_total. }
  intros r. apply triple_pre_pure. intros ->. cbv zeta. rewrite drop_0. unfold cut. rewrite take_ge by lia.
  destruct (bool_decide _); by apply triple_ret.
Qed.

Lemma visited_all_balances :
  owner_ok (Ldg (li_seq info)) sle_of pages dir_fuel account a (fun sle => exists o, line_of a sle = Ok o) ->
  balances_of hot (lines_at (dir_keys pages)) visited_all /\
  bool_decide (set_Forall (fun hw => is_Some (hotBalances visited_all !! hw)) hot) =
    bool_decide (set_Forall (fun hw => lines_with hot Hot hw (lines_at (dir_keys pages)) <> []) hot).
Proof.
  intros (_ & _ & _ & _ & _ & _ & _ & Hobj).
  assert (balances_of hot (lines_at (dir_keys pages)) visited_all) as Hb.
  { apply (visited_balances _ []); [|apply no_balances_of]. intros k Hk. by destruct (Hobj k Hk) as [_ Ho]. }
  split; [done|]. apply bool_decide_ext. unfold set_Forall. by setoid_rewrite <- hot_listed.
Qed.

(** C36: the balances of a gateway. Let the account own objects whose trust
    lines can be read. Each line with a balance goes into exactly one place: to
    its peer's balances when the peer is a hot wallet, to the peer's assets when
    the account is owed, to the frozen balances when it owes on a line it froze,
    and into the obligations of its currency otherwise. What a currency's
    obligations come to is got from its lines in the order of the directory, by
    the library's own subtraction; a currency is named exactly when it has such a
    line, and an overflow is noted exactly when one of these subtractions failed,
    which leaves the amount as it was. In every list the amounts are in the order
    of the directory. The answer is an error when a hot wallet has no such line. *)
Theorem gateway_partition :
  owner_ok (Ldg (li_seq info)) sle_of pages dir_fuel account a (fun sle => exists o, line_of a sle = Ok o) ->
  Z.of_nat (length (dir_keys pages)) < 2 ^ 32 ->
  triple I (gateway_process dir_fuel (mkGatewayInput account hot None (Some (li_seq info))))
    (fun r w => (exists b, balances_of hot (lines_at (dir_keys pages)) b /\
       r = if bool_decide (set_Forall (fun hw => lines_with hot Hot hw (lines_at (dir_keys pages)) <> []) hot)
           then Done (mkGatewayOutput (strHex (li_hash info)) (li_seq info) account b)
           else invalid_message "invalidHotWallet") /\ I w) E.
Proof.
  intros Hok Hlen. destruct (visited_all_balances Hok) as [Hb Hhot].
  eapply triple_conseq; [by apply gateway_run | done | | done]. intros r w [-> Hw]. split; [|done].
  exists visited_all. split; [done|]. by rewrite Hhot.
Qed.

End gateway_walk.

(** ** An account with channels and trust lines *)

Definition ng_page (next : Z) (keys : list Z) : TreeObj := mkObj sfOwner [(sfIndexes, VHashes keys); (sfIndexNext, VNum next)].

Definition ng_channel (dest : Z) : TreeObj := mkObj sfAccount
  [(sfLedgerEntryType, VNum ltPAYCHAN); (sfAccount, VNum 1); (sfDestination, VNum dest);
   (sfAmount, VHashes [100; 0; 0]); (sfBalance, VHashes [10; 0; 0]); (sfSettleDelay, VNum 60)].

(** A line between account 1, the low one, and a peer, in currency 5. *)
Definition ng_line (peer balance : Z) : TreeObj := mkObj sfAccount
  [(sfLedgerEntryType, VNum ltRIPPLE_STATE); (sfBalance, VHashes [balance; 5; 0]);
   (sfLowLimit, VHashes [1000; 5; 1]); (sfHighLimit, VHashes [1000; 5; peer]); (sfFlags, VNum 0)].

Definition ng_object (k : Z) : TreeObj :=
  if k =? 10 then ng_channel 2 else if k =? 20 then ng_line 8 (-30) else if k =? 30 then ng_line 7 (-50) else ng_channel 3.

Definition ng_amount (o : TreeObj) (f : SField) : Res (Z * Z * Z) :=
  match obj_get o f with
  | Some (VHashes [v; c; i]) => Ok (v, c, i)
  | None => Ok (0, 0, 0)
  | _ => Throw (LibraryError "Wrong field type")
  end.

(** Amounts and what they are rendered as, over any parser of objects. *)
Section tree_samples.
Context (ptx : Blob -> Res TreeTx) (pmeta : Z -> Z -> Blob -> Res TreeMeta) (psle : Blob -> Z -> Res TreeObj) (key : TreeObj -> Z).
Abbreviation R := (TreeRipple ptx pmeta psle).

#[local] Instance tree_amounts : @Amounts R := {
  STAmount := Z * Z * Z;
  getFieldAmount := ng_amount : @STObject R -> _ -> _;
  isFlag := fun _ _ => false;
  keylet_line := fun _ _ _ => 0;
  accountReserve := fun f n => fee_reserve f + n * fee_increment f;
  amt_default := (0, 0, 0); amt_native := fun a => a.1.2 =? 0; amt_currency := fun a => a.1.2; amt_issuer := fun a => a.2;
  amt_clear_issue := fun i => (0, i.1, i.2); amt_clear := fun a => (0, a.1.2, a.2);
  amt_of_xrp := fun z => (z, 0, 0); amt_xrp := fun a => Ok a.1.1;
  amt_negate := fun a => (- a.1.1, a.1.2, a.2); amt_setIssuer := fun i a => (a.1, i);
  amt_negative := fun a => a.1.1 <? 0;
  amt_less := fun a b => Ok (a.1.1 <? b.1.1);
  amt_sub := fun a b => Ok (a.1.1 - b.1.1, a.1.2, a.2);
  amt_multiply := fun a b _ => Ok (a.1.1 * b.1.1, a.1.2, a.2);
  rate_multiply := fun a r => Ok (a.1.1 * r / parityRate, a.1.2, a.2);
  rate_divide := fun a r => Ok (a.1.1 * parityRate / r, a.1.2, a.2);
  getQuality := fun z => z; amountFromQuality := fun _ => Ok (1, 0, 0);
  amt_json := fun a => JInt64 a.1.1; amt_text := fun a => z_text a.1.1;
  offer_toJson := fun _ => []
}.

#[local] Instance tree_rendering : @TxRendering R tree_amounts := {
  hasDeliveredAmount := fun _ => false; meta_DeliveredAmount := fun _ => (0, 0, 0);
  tx_toJson := fun _ => []; meta_toJson := fun _ => [];
  amt_json_dated := fun a => JInt64 a.1.1; blob_strHex := fun _ => "00"; account_text := z_text
}.

#[local] Instance tree_sample : @NgRipple R tree_amounts := {
  sle_key := key : @STObject R -> _;
  at_amount := ng_amount : @STObject R -> _ -> _;
  at_VL := get_blob : @STObject R -> _ -> _;
  at_U32 := get_num : @STObject R -> _ -> _;
  find_U32 := (fun o f => match obj_get o f with Some _ => z ← get_num o f; Ok (Some z) | None => Ok None end)
              : @STObject R -> _ -> _;
  amt_signum := fun a => Z.sgn a.1.1;
  currency_text := z_text; publicKey_text := fun _ => ""
}.

End tree_samples.

#[local] Instance ng_ripple : Ripple :=
  TreeRipple (fun _ => Throw (LibraryError "")) (fun _ _ _ => Throw (LibraryError ""))
    (fun b k => match b with [0] => Ok (ng_page 1 [10; 20]) | [1] => Ok (ng_page 0 [30; 40]) | _ => Ok (ng_object k) end).

#[local] Instance ng_amounts : @Amounts ng_ripple := tree_amounts _ _ _.
#[local] Instance ng_rendering : @TxRendering ng_ripple ng_amounts := tree_rendering _ _ _.
#[local] Instance ng_sample : @NgRipple ng_ripple ng_amounts := tree_sample _ _ _ (fun _ => 0).

#[local] Instance ng_errors : @AmountErrors ng_ripple ng_amounts.
Proof. by split. Defined.

(** The account is 1, with its directory at 100 and 101. *)
Definition ng_ledger : gmap Z Blob := {[1 := [2]; 100 := [0]; 101 := [1]; 10 := [2]; 20 := [2]; 30 := [2]; 40 := [2]]}.

Lemma ng_ledger_cases (P : Z -> Blob -> Prop) :
  P 1 [2] -> P 100 [0] -> P 101 [1] -> P 10 [2] -> P 20 [2] -> P 30 [2] -> P 40 [2] ->
  forall k b, ng_ledger !! k = Some b -> P k b.
Proof.
  intros H1 H2 H3 H4 H5 H6 H7 k b Hk. unfold ng_ledger in Hk.
  repeat (apply lookup_insert_Some in Hk as [[<- <-]|[_ Hk]]; [done|]). by apply lookup_singleton_Some in Hk as [<- <-].
Qed.

Definition ng_history : SimpleCache.history :=
  mkHistory (fun _ => ng_ledger) 1 ltac:(done)
    (fun s => ng_ledger_cases (fun _ b => b <> []) ltac:(done) ltac:(done) ltac:(done) ltac:(done) ltac:(done) ltac:(done) ltac:(done))
    (fun s => ng_ledger_cases (fun k _ => valid_key k) ltac:(vm_compute; done) ltac:(vm_compute; done) ltac:(vm_compute; done)
       ltac:(vm_compute; done) ltac:(vm_compute; done) ltac:(vm_compute; done) ltac:(vm_compute; done)).

Definition ng_info : LedgerInfo := mkLedgerInfo 6 0 0 0 0 0 0 0 0 66.

#[local] Instance ng_backend : BackendImpl MemWorld := MemBackend ng_history.
#[local] Instance ng_reads : LedgerReads MemWorld := {
  ledger_by_hash := fun h => mret (if h =? 66 then Some ng_info else None);
  ledger_by_sequence := fun s => mret (if s =? 6 then Some ng_info else None)
}.

Definition ng_served (w : MemWorld) : Prop := cache_reachable ng_history w /\ mw_range w = Some (mkLedgerRange 1 9).

Definition ng_world : MemWorld := mkMemWorld SimpleCache_init (Some (mkLedgerRange 1 9)).

Lemma ng_world_ok : ng_served ng_world.
Proof. split; [by exists ∅; apply rtc_refl | done]. Qed.

#[local] Instance ng_laws : ReadLaws (L ng_history) ng_served noexn.
Proof.
  pose proof (MemLaws ng_history) as HM. split.
  - apply L_nonempty.
  - apply L_valid.
  - intros w k s b [Hw _]. by apply HM.
  - intros w k s o [Hw _]. by apply HM.
  - intros w k s [Hw Hr]. split; [by apply HM | done].
  - intros w k s [Hw Hr]. split; [by apply HM | done].
  - intros k s _ w Hw. by split.
  - intros ks s _ w Hw. by split.
  - intros k s _ w Hw. by split.
Qed.

#[local] Instance ng_serves : ServesLedger ng_served noexn ng_info.
Proof.
  split; [|intros w Hw; by split].
  intros w [_ Hr]. exists (mkLedgerRange 1 9). by split.
Qed.

Definition ng_pages : list (Z * list Z) := [(0, [10; 20]); (1, [30; 40])].

Lemma ng_pages_chain : dir_chain ng_ledger 100 0 ng_pages.
Proof.
  eapply (chain_next _ _ 0 1); [reflexivity..| done | done |].
  eapply (chain_last _ _ 1); reflexivity.
Qed.

Lemma ng_owner (ready : TreeObj -> Prop) :
  ready (ng_object 10) -> ready (ng_object 20) -> ready (ng_object 30) -> ready (ng_object 40) ->
  owner_ok ng_ledger ng_object ng_pages 2 "e" 1 ready.
Proof.
  intros H1 H2 H3 H4. split_and!; try done.
  - apply ng_pages_chain.
  - apply (bool_decide_unpack _). by vm_compute.
  - apply (bool_decide_unpack _). by vm_compute.
  - intros k Hk. cbn in Hk. repeat (apply elem_of_cons in Hk as [->|Hk]; [split; [by eexists | done]|]).
    by apply not_elem_of_nil in Hk.
Qed.

(** One key at a time; the channels to account 3 only. *)
Lemma channels_walk_witness :
  exists w c, channels_client 5 2 (mkChannelsInput "e" (Some (z_text 3)) None (Some 6) 1 None) ng_world = (Ok (Done [c]), w) /\
    accountDestination c = z_text 3.
Proof.
  destruct (triple_run _ _ _ _
    (channels_walk (I := ng_served) (H1 := ng_ripple) (H2 := ng_amounts) ng_object ng_pages 2 "e" 1 (Some (z_text 3)) 1 5
       (ng_owner (fun sle => exists l, channel_visit (H1 := ng_ripple) (H2 := ng_amounts) 1 (Some 3) [] sle = Ok l) ltac:(eexists; vm_compute; reflexivity) ltac:(eexists; vm_compute; reflexivity)
          ltac:(eexists; vm_compute; reflexivity) ltac:(eexists; vm_compute; reflexivity))
       ltac:(lia) ltac:(vm_compute; lia)) ng_world_ok) as (r & w & Hrun & -> & _).
  exists w. eexists. split; [exact Hrun | reflexivity].
Defined.

(** The account owes 50 to account 7, a hot wallet, and 30 to account 8. *)
Lemma gateway_partition_witness :
  exists w b, gateway_process 2 (mkGatewayInput "e" {[7]} None (Some 6)) ng_world =
      (Ok (Done (mkGatewayOutput (strHex 66) 6 "e" b)), w) /\
    default [] (hotBalances b !! 7) = [(50, 5, 0)] /\
    overflow b = false /\ sums b !! 5 = Some (30, 5, 0).
Proof.
  assert (owner_ok (L ng_history (li_seq ng_info)) ng_object ng_pages 2 "e" 1
    (fun sle => exists o, line_of (H := ng_ripple) (H0 := ng_amounts) 1 sle = Ok o)) as Hok.
  { apply ng_owner; eexists; reflexivity. }
  assert (Z.of_nat (length (dir_keys ng_pages)) < 2 ^ 32) as Hlen by (vm_compute; done).
  pose proof (gateway_partition (I := ng_served) (H1 := ng_ripple) (H2 := ng_amounts) ng_object ng_pages 2 "e" 1 {[7]} Hok Hlen) as Ht.
  destruct (triple_run _ _ _ _ Ht ng_world_ok) as (r & w & Hrun & (b & Hb & ->) & _).
  exists w, b. destruct Hb as (Hh & _ & _ & _ & Hs & Ho). split; [exact Hrun|]. split; [exact (Hh 7)|].
  split; [|exact (Hs 5)]. destruct (overflow b); [|done]. destruct (proj1 Ho eq_refl) as [c Hc].
  assert (forall ls t, t.2 = false -> (foldl owe t ls).2 = false) as Hno.
  { induction ls as [|l ls IH]; intros t Hf; [done|]. cbn [foldl]. apply IH. unfold owe. by destruct (_ =? 0). }
  unfold owed_sum in Hc. by rewrite Hno in Hc.
Defined.
