(* ===== verification/LedgerEntry.v ===== *)
(** The handler of [ledger_entry] ([rpc/ngHandlers/LedgerEntry.h],
    [LedgerEntry.cpp]).

    A request names one object of a ledger: by its key, or by what its key is
    made of (an account, a page of a directory, the owner and the sequence of an
    offer, and so on). [entry_value_to] finds out how, [entry_key] makes the key,
    [entry_process] reads the object. [names] says what a request names without
    regard to the code. [ledger_entry_found]: the answer is the object named. *)

From stdpp Require Import base list gmap strings.
From Stdlib Require Import ZArith Lia Ascii.
From S2P Require Import Prelude Types TreeRipple SimpleCache Backend Json Errors Requests Directory OrderBook TxRequests Validators NgHandlers NgAccounts.

#[local] Open Scope string_scope.
#[local] Open Scope list_scope.
Open Scope Z_scope.

(** Further keylets; the currency a text that is no currency is read as; the type
    of a ledger entry. *)
Class EntryKeylets `{Ripple} := {
  keylet_offer : AccountID -> Z -> uint256;
  keylet_state : AccountID -> AccountID -> Z -> uint256;
  keylet_escrow : AccountID -> Z -> uint256;
  keylet_depositPreauth : AccountID -> AccountID -> uint256;
  getTicketIndex : AccountID -> Z -> uint256;
  noCurrency : Z;
  sle_getType : STObject -> Z;
  sle_json : STObject -> JsonObject
}.

(** The fields that hold a key when they are strings, and the type each asks for. *)
Definition index_fields : list (string * Z) :=
  [("index", ltANY); ("directory", ltDIR_NODE); ("offer", ltOFFER); ("check", ltCHECK); ("escrow", ltESCROW);
   ("payment_channel", ltPAYCHAN); ("deposit_preauth", ltDEPOSIT_PREAUTH); ("ticket", ltTICKET)].

(** They are kept in an [unordered_map]: its iteration has some order. *)
Class HashOrder := {
  indexFieldTypeMap : list (string * Z);
  hash_order : indexFieldTypeMap ≡ₚ index_fields
}.

Record EntryInput := mkEntryInput {
  ei_ledgerHash : option string; ei_ledgerIndex : option Z; ei_binary : bool; ei_index : option string;
  ei_expectedType : Z; ei_accountRoot : option string; ei_directory : option JsonObject; ei_offer : option JsonObject;
  ei_rippleStateAccount : option JsonObject; ei_escrow : option JsonObject; ei_depositPreauth : option JsonObject;
  ei_ticket : option JsonObject }.

Record EntryOutput := mkEntryOutput {
  eo_index : string; eo_ledgerIndex : Z; eo_ledgerHash : string; eo_node : option JsonObject; eo_nodeBinary : option string }.

(** ** The specification *)

Section entry_spec.
Context `{RippleStrings} `{LexicalCast} `{JsonNumbers}.

Definition rippleStateAccountsCheck : Requirement := CustomValidator (fun value key =>
  match value with
  | JArray [JString s1; JString s2] =>
      if bool_decide (s1 = s2) then invalid_message "malformedAccounts"
      else match parseBase58_AccountID (c_str s1), parseBase58_AccountID (c_str s2) with
           | Some _, Some _ => Done tt
           | _, _ => Failed (Status_message (Clio rpcMALFORMED_ADDRESS) "malformedAddresses")
           end
  | _ => invalid_message "malformedAccounts"
  end).

(** A field that is a key or an object with the given fields. *)
Definition key_or_section (field : string) (specs : list FieldSpec) : FieldSpec :=
  makeFieldValidator field
    [Type_ [TString; TObject]; IfType TString [Uint256HexStringValidator]; IfType TObject [Section_ specs]].

Definition ledger_entry_spec : list FieldSpec :=
  [makeFieldValidator "binary" [Type_ [TBool]];
   makeFieldValidator "ledger_hash" [Uint256HexStringValidator];
   makeFieldValidator "ledger_index" [LedgerIndexValidator];
   makeFieldValidator "index" [Uint256HexStringValidator];
   makeFieldValidator "account_root" [AccountBase58Validator];
   makeFieldValidator "check" [Uint256HexStringValidator];
   key_or_section "deposit_preauth"
     [makeFieldValidator "owner" [Required; AccountBase58Validator];
      makeFieldValidator "authorized" [Required; AccountBase58Validator]];
   key_or_section "directory"
     [makeFieldValidator "owner" [AccountBase58Validator];
      makeFieldValidator "dir_root" [Uint256HexStringValidator];
      makeFieldValidator "sub_index" [Type_ [TInteger]]];
   key_or_section "escrow"
     [makeFieldValidator "owner" [Required; AccountBase58Validator];
      makeFieldValidator "seq" [Required; Type_ [TInteger]]];
   key_or_section "offer"
     [makeFieldValidator "account" [Required; AccountBase58Validator];
      makeFieldValidator "seq" [Required; Type_ [TInteger]]];
   makeFieldValidator "payment_channel" [Uint256HexStringValidator];
   makeFieldValidator "ripple_state"
     [Type_ [TObject];
      Section_ [makeFieldValidator "accounts" [Required; rippleStateAccountsCheck];
                makeFieldValidator "currency" [Required; CurrencyValidator]]];
   key_or_section "ticket"
     [makeFieldValidator "account" [Required; AccountBase58Validator];
      makeFieldValidator "ticket_seq" [Required; Type_ [TInteger]]]].

End entry_spec.

(** ** The input *)

Definition object_member (o : JsonObject) (key : string) : Res JsonObject := v ← at_ o key; as_object v.

(** The rest of an input, after its ledger: the key or the first of the objects. *)
Definition entry_fields `{HashOrder} (o : JsonObject) (ledgerHash : option string) (ledgerIndex : option Z) (binary : bool)
  : Res EntryInput :=
  let input index type account directory offer state escrow preauth ticket :=
    Ok (mkEntryInput ledgerHash ledgerIndex binary index type account directory offer state escrow preauth ticket) in
  match find (fun p => match obj_find p.1 o with Some v => is_string v | None => false end) indexFieldTypeMap with
  | Some (field, type) =>
      s ← string_member o field; input (Some s) type None None None None None None None
  | None =>
      if contains o "account_root" then
        s ← string_member o "account_root"; input None ltANY (Some s) None None None None None None
      else if contains o "directory" then
        d ← object_member o "directory"; input None ltANY None (Some d) None None None None None
      else if contains o "offer" then
        d ← object_member o "offer"; input None ltANY None None (Some d) None None None None
      else if contains o "ripple_state" then
        d ← object_member o "ripple_state"; input None ltANY None None None (Some d) None None None
      else if contains o "escrow" then
        d ← object_member o "escrow"; input None ltANY None None None None (Some d) None None
      else if contains o "deposit_preauth" then
        d ← object_member o "deposit_preauth"; input None ltANY None None None None None (Some d) None
      else if contains o "ticket" then
        d ← object_member o "ticket"; input None ltANY None None None None None None (Some d)
      else input None ltANY None None None None None None None
  end.

Definition entry_value_to `{HashOrder} (jv : json) : Res EntryInput :=
  o ← as_object jv;
  ledgerHash ← optional_string o "ledger_hash";
  ledgerIndex ← ledger_index_input o;
  binary ← if contains o "binary" then v ← at_ o "binary"; as_bool v else Ok false;
  entry_fields o ledgerHash ledgerIndex binary.

(** ** The key *)

Section key.
Context `{Ripple} `{!EntryKeylets} `{RippleKeylets} `{RippleStrings} `{JsonNumbers}.

(** [uint256{text}] throws when the text is not hexadecimal; [*parseBase58(text)]
    of an empty optional is undefined. *)
Definition hex_key (s : string) : Res uint256 :=
  match parseHex s with Some h => Ok h | None => Throw (LibraryError "invalid hex") end.

Definition address (s : string) : Res AccountID :=
  match parseBase58_AccountID s with Some a => Ok a | None => Throw BadOptionalAccess end.

Definition address_member (o : JsonObject) (key : string) : Res AccountID := s ← string_member o key; address s.

(** [at(key).as_int64()], kept in the 32 bits of the parameter. *)
Definition sequence_member (o : JsonObject) (key : string) : Res Z := v ← at_ o key; z ← as_int64 v; Ok (u32 z).

(** An exception that reaches the end of a [noexcept] function ends the program. *)
Definition terminate : Exn := LibraryError "std::terminate".
Definition noexcept {A} (r : Res A) : Res A := match r with Throw _ => Throw terminate | r => r end.

Definition composeKeyFromDirectory (directory : JsonObject) : Res (Outcome uint256) :=
  noexcept
    (if contains directory "dir_root" && contains directory "owner" then
       Ok (invalid_message "mayNotSpecifyBothDirRootAndOwner")
     else if negb (contains directory "dir_root" || contains directory "owner") then
       Ok (invalid_message "missingOwnerOrDirRoot")
     else
       subIndex ← if contains directory "sub_index" then v ← at_ directory "sub_index"; value_to_uint64 v else Ok 0;
       if contains directory "dir_root" then
         s ← string_member directory "dir_root"; uDirRoot ← hex_key s; Ok (Done (keylet_page uDirRoot subIndex))
       else ownerID ← address_member directory "owner"; Ok (Done (keylet_page (keylet_ownerDir ownerID) subIndex))).

Definition account_element (d : JsonObject) (n : nat) : Res AccountID :=
  v ← at_ d "accounts"; l ← as_array v;
  match l !! n with None => Throw OutOfRange | Some x => s ← as_string x; address (c_str s) end.

Definition entry_key (input : EntryInput) : Res (Outcome uint256) :=
  match input with
  | mkEntryInput _ _ _ (Some index) _ _ _ _ _ _ _ _ => k ← hex_key index; Ok (Done k)
  | mkEntryInput _ _ _ _ _ (Some account) _ _ _ _ _ _ => a ← address account; Ok (Done (keylet_account a))
  | mkEntryInput _ _ _ _ _ _ (Some directory) _ _ _ _ _ => composeKeyFromDirectory directory
  | mkEntryInput _ _ _ _ _ _ _ (Some offer) _ _ _ _ =>
      id ← address_member offer "account"; v ← at_ offer "seq"; seq ← value_to_uint32 v; Ok (Done (keylet_offer id seq))
  | mkEntryInput _ _ _ _ _ _ _ _ (Some state) _ _ _ =>
      id1 ← account_element state 0; id2 ← account_element state 1;
      s ← string_member state "currency"; Ok (Done (keylet_state id1 id2 (default noCurrency (to_currency s))))
  | mkEntryInput _ _ _ _ _ _ _ _ _ (Some escrow) _ _ =>
      id ← address_member escrow "owner"; seq ← sequence_member escrow "seq"; Ok (Done (keylet_escrow id seq))
  | mkEntryInput _ _ _ _ _ _ _ _ _ _ (Some preauth) _ =>
      owner ← address_member preauth "owner"; authorized ← address_member preauth "authorized";
      Ok (Done (keylet_depositPreauth owner authorized))
  | mkEntryInput _ _ _ _ _ _ _ _ _ _ _ (Some ticket) =>
      id ← address_member ticket "account"; seq ← sequence_member ticket "ticket_seq"; Ok (Done (getTicketIndex id seq))
  | _ => Ok (invalid_message "unknownOption")
  end.

End key.

(** ** The handler *)

Definition entry_value_from (out : EntryOutput) : json :=
  let object := [("ledger_hash", JString (eo_ledgerHash out)); ("ledger_index", JUint64 (eo_ledgerIndex out));
                 ("validated", JBool true); ("index", JString (eo_index out))] in
  JObject (match eo_nodeBinary out with
           | Some b => obj_set "node_binary" (JString b) object
           | None => obj_set "node" (match eo_node out with Some n => JObject n | None => JNull end) object
           end).

Section entry_handler.
Context `{BackendImpl W} `{LedgerReads W} `{Ripple} `{!EntryKeylets} `{RippleKeylets} `{RippleStrings} `{JsonNumbers}.
Context `{LexicalCast} `{CursorText} `{HashOrder} (blob_text : Blob -> string).

(** What the answer is for the object found under a key. *)
Definition entry_output (info : LedgerInfo) (input : EntryInput) (key : uint256) (b : Blob) (sle : STObject)
  : Outcome EntryOutput :=
  if negb (ei_expectedType input =? ltANY) && negb (sle_getType sle =? ei_expectedType input) then
    Failed (Status_custom "unexpectedLedgerType")
  else
    Done (mkEntryOutput (strHex key) (li_seq info) (strHex (li_hash info))
            (if ei_binary input then None else Some (sle_json sle))
            (if ei_binary input then Some (blob_text b) else None)).

Definition entry_process (input : EntryInput) : M W (Outcome EntryOutput) :=
  keyOrStatus ← lift_res (entry_key input);
  match keyOrStatus with
  | Failed s => mret (Failed s)
  | Done key =>
      range ← fetchLedgerRange;
      match range with
      | None => throw BadOptionalAccess
      | Some range =>
          lgrInfoOrStatus ← getLedgerInfoFromHashOrSeq (ei_ledgerHash input) (ei_ledgerIndex input) (maxSequence range);
          match lgrInfoOrStatus with
          | Failed s => mret (Failed s)
          | Done lgrInfo =>
              ledgerObject ← fetchLedgerObject key (li_seq lgrInfo);
              match ledgerObject with
              | None => mret (Failed (Status_custom "entryNotFound"))
              | Some b =>
                  if bool_decide (b = []) then mret (Failed (Status_custom "entryNotFound"))
                  else sle ← lift_res (parseSLE b key); mret (entry_output lgrInfo input key b sle)
              end
          end
      end
  end.

Definition LedgerEntryHandler : NgHandler W EntryInput EntryOutput :=
  mkNgHandler ledger_entry_spec entry_value_to entry_process entry_value_from.

End entry_handler.

(** ** What a request names *)

Inductive EntryRef :=
| ByIndex (key : uint256) (type : Z)
| AccountRoot (a : AccountID)
| DirectoryRoot (root : uint256) (page : Z)
| OwnerDirectory (a : AccountID) (page : Z)
| OfferOf (a : AccountID) (seq : Z)
| LineOf (a b : AccountID) (currency : Z)
| EscrowOf (a : AccountID) (seq : Z)
| PreauthOf (owner authorized : AccountID)
| TicketOf (a : AccountID) (seq : Z).

Definition ref_key `{Ripple} `{!EntryKeylets} `{RippleKeylets} (r : EntryRef) : uint256 :=
  match r with
  | ByIndex key _ => key
  | AccountRoot a => keylet_account a
  | DirectoryRoot root page => keylet_page root page
  | OwnerDirectory a page => keylet_page (keylet_ownerDir a) page
  | OfferOf a seq => keylet_offer a seq
  | LineOf a b currency => keylet_state a b currency
  | EscrowOf a seq => keylet_escrow a seq
  | PreauthOf owner authorized => keylet_depositPreauth owner authorized
  | TicketOf a seq => getTicketIndex a seq
  end.

Definition ref_type (r : EntryRef) : Z := match r with ByIndex _ type => type | _ => ltANY end.

(** The ways to name an object by what its key is made of: the first one that is
    there counts, and none of them when there is a key. *)
Definition ways : list string :=
  ["account_root"; "directory"; "offer"; "ripple_state"; "escrow"; "deposit_preauth"; "ticket"].

Definition way_of (o : JsonObject) : option string := find (fun k => contains o k) ways.

Definition holds_key (o : JsonObject) (field : string) : bool :=
  match obj_find field o with Some v => is_string v | None => false end.

Section names.
Context `{RippleStrings}.

Definition string_is (o : JsonObject) (field : string) (P : string -> Prop) : Prop :=
  exists s, obj_find field o = Some (JString s) /\ P (c_str s).

Definition address_is (o : JsonObject) (field : string) (a : AccountID) : Prop :=
  string_is o field (fun s => parseBase58_AccountID s = Some a).

(** An optional page of 64 bits. *)
Definition page_is (d : JsonObject) (n : Z) : Prop :=
  match obj_find "sub_index" d with
  | Some (JInt64 z) | Some (JUint64 z) => z = n /\ 0 <= z < 2 ^ 64
  | Some _ => False
  | None => n = 0
  end.

Inductive names (o : JsonObject) : EntryRef -> Prop :=
| names_index field type h :
    (field, type) ∈ index_fields -> string_is o field (fun s => parseHex s = Some h) -> names o (ByIndex h type)
| names_other r : forallb (fun p => negb (holds_key o p.1)) index_fields = true -> names_by o (way_of o) r -> names o r
with names_by (o : JsonObject) : option string -> EntryRef -> Prop :=
| names_account a : address_is o "account_root" a -> names_by o (Some "account_root") (AccountRoot a)
| names_root d h n :
    obj_find "directory" o = Some (JObject d) -> contains d "owner" = false ->
    string_is d "dir_root" (fun s => parseHex s = Some h) -> page_is d n -> names_by o (Some "directory") (DirectoryRoot h n)
| names_owner d a n :
    obj_find "directory" o = Some (JObject d) -> contains d "dir_root" = false ->
    address_is d "owner" a -> page_is d n -> names_by o (Some "directory") (OwnerDirectory a n)
| names_offer d a z :
    obj_find "offer" o = Some (JObject d) -> address_is d "account" a ->
    obj_find "seq" d = Some (JInt64 z) -> 0 <= z < 2 ^ 32 -> names_by o (Some "offer") (OfferOf a z)
| names_line d s1 s2 a b currency :
    obj_find "ripple_state" o = Some (JObject d) -> obj_find "accounts" d = Some (JArray [JString s1; JString s2]) ->
    parseBase58_AccountID (c_str s1) = Some a -> parseBase58_AccountID (c_str s2) = Some b ->
    string_is d "currency" (fun s => to_currency s = Some currency) -> names_by o (Some "ripple_state") (LineOf a b currency)
| names_escrow d a z :
    obj_find "escrow" o = Some (JObject d) -> address_is d "owner" a -> obj_find "seq" d = Some (JInt64 z) ->
    names_by o (Some "escrow") (EscrowOf a (u32 z))
| names_preauth d a b :
    obj_find "deposit_preauth" o = Some (JObject d) -> address_is d "owner" a -> address_is d "authorized" b ->
    names_by o (Some "deposit_preauth") (PreauthOf a b)
| names_ticket d a z :
    obj_find "ticket" o = Some (JObject d) -> address_is d "account" a -> obj_find "ticket_seq" d = Some (JInt64 z) ->
    names_by o (Some "ticket") (TicketOf a (u32 z)).

End names.

(** Numbers as the parser makes them: unsigned only when they do not fit into 63
    bits; here the ones in the objects of a request. *)
Definition parsed_number (v : json) : Prop :=
  match v with JUint64 z => 2 ^ 63 <= z < 2 ^ 64 | JInt64 z => - 2 ^ 63 <= z < 2 ^ 63 | _ => True end.

Definition parsed_inside (o : JsonObject) : Prop :=
  forall field d key v, obj_find field o = Some (JObject d) -> obj_find key d = Some v -> parsed_number v.

(** The numbers of a valid request that are not taken: a page below zero, the
    sequence of an offer out of 32 bits, the others from 2^63 on. *)
Definition number_leak (o : JsonObject) : Prop :=
  exists field d key z, obj_find field o = Some (JObject d) /\
    ((field, key) ∈ [("escrow", "seq"); ("ticket", "ticket_seq"); ("offer", "seq")] /\ obj_find key d = Some (JUint64 z) \/
     field = "offer" /\ key = "seq" /\ obj_find key d = Some (JInt64 z) /\ ~ 0 <= z < 2 ^ 32 \/
     field = "directory" /\ key = "sub_index" /\ obj_find key d = Some (JInt64 z) /\ z < 0).

(** A request that names nothing, or a directory in no way or in two. *)
Definition names_nothing (o : JsonObject) (s : Status) : Prop :=
  forallb (fun p => negb (holds_key o p.1)) index_fields = true /\
  (way_of o = None /\ Failed s = @invalid_message unit "unknownOption" \/
   exists d, way_of o = Some "directory" /\ obj_find "directory" o = Some (JObject d) /\
     (contains d "dir_root" = true /\ contains d "owner" = true /\
        Failed s = @invalid_message unit "mayNotSpecifyBothDirRootAndOwner" \/
      contains d "dir_root" = false /\ contains d "owner" = false /\ Failed s = @invalid_message unit "missingOwnerOrDirRoot")).

(** ** Lemmas *)

Section entry_lemmas.
Context `{RippleStrings} `{LexicalCast} `{JsonNumbers}.

Lemma contains_member o k : contains o k = match obj_find k o with Some _ => true | None => false end.
Proof. unfold contains. destruct (obj_find k o); [by apply bool_decide_true | apply bool_decide_false]. by intros [? ?]. Qed.

Lemma hash_field o k s : Uint256HexStringValidator (JObject o) k = Ok (Done tt) -> obj_find k o = Some s ->
  exists t h, s = JString t /\ parseHex (c_str t) = Some h.
Proof. apply hash_done. Qed.

(** A field that is a key or a section, once it is valid. *)
Lemma section_valid o field specs :
  key_or_section field specs (JObject o) = Ok (Done tt) ->
  match obj_find field o with
  | None => True
  | Some (JString s) => exists h, parseHex (c_str s) = Some h
  | Some (JObject d) => Forall (fun f => f (JObject d) = Ok (Done tt)) specs
  | Some _ => False
  end.
Proof.
  unfold key_or_section, makeFieldValidator. rewrite verify_all_done, !Forall_cons. intros (Ht & Hs & Ho & _).
  destruct (obj_find field o) as [v|] eqn:Hv; [|done]. apply (Type_done _ _ _ v) in Ht; [|done].
  assert (checkType TString v = true \/ checkType TObject v = true) as Hc.
  { apply Exists_cons in Ht as [Ht|Ht]; [by left|]. apply Exists_cons in Ht as [Ht|Ht]; [by right | by apply Exists_nil in Ht]. }
  destruct v; try (by destruct Hc).
  - apply (IfType_done _ _ _ _ (JString s)) in Hs; [|done..]. apply Forall_cons in Hs as [Hs _].
    destruct (hash_done _ _ _ Hs Hv) as (t & h & [= <-] & Hh). by exists h.
  - apply (IfType_done _ _ _ _ (JObject m)) in Ho; [|done..]. apply Forall_cons in Ho as [Ho _].
    by eapply Section_done.
Qed.

(** The fields of a section. *)
Lemma address_field d k :
  makeFieldValidator k [Required; AccountBase58Validator] (JObject d) = Ok (Done tt) -> exists a, address_is d k a.
Proof.
  unfold makeFieldValidator. rewrite verify_all_done, !Forall_cons. intros (Hr & Ha & _).
  destruct (Required_done _ _ Hr) as [v Hv]. destruct (address_done _ _ _ Ha Hv) as (s & a & -> & Hs & _).
  exists a, s. by split.
Qed.

Lemma number_field d k :
  makeFieldValidator k [Required; Type_ [TInteger]] (JObject d) = Ok (Done tt) ->
  exists z, obj_find k d = Some (JInt64 z) \/ obj_find k d = Some (JUint64 z).
Proof.
  unfold makeFieldValidator. rewrite verify_all_done, !Forall_cons. intros (Hr & Ht & _).
  destruct (Required_done _ _ Hr) as [v Hv]. apply (Type_done _ _ _ v) in Ht; [|done].
  apply Exists_cons in Ht as [Ht|Ht]; [|by apply Exists_nil in Ht]. cbn in Hv. destruct v; try done; eauto.
Qed.

Lemma address_read d k a : address_is d k a -> address_member d k = Ok a.
Proof.
  intros (s & Hs & Ha). unfold address_member. rewrite (string_converted _ _ _ _ Hs eq_refl). cbn. unfold address. by rewrite Ha.
Qed.

Lemma sequence_read d k z : obj_find k d = Some (JInt64 z) -> sequence_member d k = Ok (u32 z).
Proof. unfold sequence_member, at_. by intros ->. Qed.

Lemma sequence_leak d k z : obj_find k d = Some (JUint64 z) -> exists e, sequence_member d k = Throw e.
Proof. unfold sequence_member, at_. intros ->. by eexists. Qed.

Lemma object_read o k d : obj_find k o = Some (JObject d) -> object_member o k = Ok d.
Proof. unfold object_member, at_. by intros ->. Qed.

(** A field that may hold a key, once the request is valid. *)
Lemma index_valid o field type :
  RpcSpec_validate ledger_entry_spec (JObject o) = Ok (Done tt) -> (field, type) ∈ index_fields -> holds_key o field = true ->
  exists s h, obj_find field o = Some (JString s) /\ parseHex (c_str s) = Some h.
Proof.
  intros Hv Hin Hk. unfold holds_key in Hk. destruct (obj_find field o) as [v|] eqn:Hf; [|done].
  destruct v as [| | | | |s| |]; try done. exists s. apply validate_done in Hv. unfold ledger_entry_spec in Hv.
  rewrite !Forall_cons in Hv. destruct_and! Hv.
  assert (forall k, makeFieldValidator k [Uint256HexStringValidator] (JObject o) = Ok (Done tt) ->
    obj_find k o = Some (JString s) -> exists h, Some (JString s) = Some (JString s) /\ parseHex (c_str s) = Some h) as Hplain.
  { intros k Hm Hs. unfold makeFieldValidator in Hm. rewrite verify_all_done, Forall_cons in Hm. destruct Hm as [Hm _].
    destruct (hash_done _ _ _ Hm Hs) as (t & h & [= <-] & Hh). by exists h. }
  assert (forall k specs, key_or_section k specs (JObject o) = Ok (Done tt) ->
    obj_find k o = Some (JString s) -> exists h, Some (JString s) = Some (JString s) /\ parseHex (c_str s) = Some h) as Hsect.
  { intros k specs Hm Hs. apply section_valid in Hm. rewrite Hs in Hm. destruct Hm as [h Hh]. by exists h. }
  unfold index_fields in Hin.
  repeat (apply elem_of_cons in Hin as [[= -> ->]|Hin]; [first [eapply Hplain; [|exact Hf]; assumption | eapply Hsect; [|exact Hf]; eassumption]|]).
  by apply not_elem_of_nil in Hin.
Qed.

End entry_lemmas.

Definition wants_binary (o : JsonObject) : bool := match obj_find "binary" o with Some (JBool b) => b | _ => false end.

Section entry_conversion.
Context `{Ripple} `{!EntryKeylets} `{RippleKeylets} `{RippleStrings} `{LexicalCast} `{JsonNumbers} `{HashOrder}.

Abbreviation valid o := (RpcSpec_validate ledger_entry_spec (JObject o) = Ok (Done tt)).

Lemma section_object o field specs :
  key_or_section field specs (JObject o) = Ok (Done tt) -> contains o field = true -> holds_key o field = false ->
  exists d, obj_find field o = Some (JObject d) /\ Forall (fun f => f (JObject d) = Ok (Done tt)) specs.
Proof.
  intros Hs%section_valid Hc Hk. rewrite contains_member in Hc. unfold holds_key in Hk.
  destruct (obj_find field o) as [[]|]; try done. eauto.
Qed.

(** Where a key is, is a key; where none is, the map has none. *)
Lemma find_index o :
  match find (fun p => match obj_find p.1 o with Some v => is_string v | None => false end) indexFieldTypeMap with
  | Some (field, type) => (field, type) ∈ index_fields /\ holds_key o field = true
  | None => forallb (fun p => negb (holds_key o p.1)) index_fields = true
  end.
Proof.
  destruct (find _ _) as [[field type]|] eqn:Hf.
  - apply find_some in Hf as [Hin Hk]. split; [|exact Hk]. rewrite <- hash_order. by apply list_elem_of_In.
  - apply forallb_forall. intros p Hp%list_elem_of_In. rewrite <- hash_order in Hp.
    pose proof (find_none _ _ Hf p ltac:(by apply list_elem_of_In)) as Hn. cbn beta in Hn. unfold holds_key. by rewrite Hn.
Qed.

(** The page of a directory is read, but for one below zero. *)
Lemma page_read d :
  (forall v, obj_find "sub_index" d = Some v -> parsed_number v) -> Type_ [TInteger] (JObject d) "sub_index" = Ok (Done tt) ->
  match (if contains d "sub_index" then v ← at_ d "sub_index"; value_to_uint64 v else Ok 0) with
  | Ok n => page_is d n
  | Throw _ => exists z, obj_find "sub_index" d = Some (JInt64 z) /\ z < 0
  | NoFuel => False
  end.
Proof.
  intros Hp Ht. unfold page_is, at_. rewrite contains_member. destruct (obj_find "sub_index" d) as [v|] eqn:Hs; [|done].
  specialize (Hp v eq_refl). apply (Type_done _ _ _ v) in Ht; [|done].
  apply Exists_cons in Ht as [Ht|Ht]; [|by apply Exists_nil in Ht].
  destruct v as [|b|z|z| | | |]; try done; cbn in Hp |- *; unfold value_to_uint64, value_to_integer.
  - destruct (Z.leb_spec 0 z); cbn [andb].
    + rewrite (proj2 (Z.leb_le z (2 ^ 64 - 1))) by lia. split; [done|lia].
    + exists z. by split.
  - rewrite (proj2 (Z.leb_le 0 z)), (proj2 (Z.leb_le z (2 ^ 64 - 1))) by lia. split; [done|lia].
Qed.

(** The objects, one way each. *)
Lemma directory_key o d :
  parsed_inside o -> obj_find "directory" o = Some (JObject d) ->
  Forall (fun f => f (JObject d) = Ok (Done tt))
    [makeFieldValidator "owner" [AccountBase58Validator]; makeFieldValidator "dir_root" [Uint256HexStringValidator];
     makeFieldValidator "sub_index" [Type_ [TInteger]]] ->
  match composeKeyFromDirectory d with
  | Ok (Done k) => exists r, names_by o (Some "directory") r /\ k = ref_key r /\ ref_type r = ltANY
  | Ok (Failed s) =>
      contains d "dir_root" = true /\ contains d "owner" = true /\
        Failed s = @invalid_message unit "mayNotSpecifyBothDirRootAndOwner" \/
      contains d "dir_root" = false /\ contains d "owner" = false /\ Failed s = @invalid_message unit "missingOwnerOrDirRoot"
  | Throw _ => number_leak o
  | NoFuel => False
  end.
Proof.
  intros Hp Hd Hv. rewrite !Forall_cons in Hv. unfold makeFieldValidator in Hv. rewrite !verify_all_done, !Forall_singleton in Hv.
  destruct Hv as (Hown & Hroot & Hsub & _). unfold composeKeyFromDirectory.
  pose proof (page_read d ltac:(intros v; by eapply Hp) Hsub) as Hpage.
  destruct (contains d "dir_root") eqn:Hcr, (contains d "owner") eqn:Hco; cbn [andb orb negb]; [by left| | |by right].
  all: destruct (if contains d "sub_index" then _ else _) as [n| |]; cbn [mbind Res_bind noexcept];
    [|destruct Hpage as (z & Hz & Hneg); exists "directory", d, "sub_index", z; by eauto 8 | done].
  - rewrite contains_member in Hcr. destruct (obj_find "dir_root" d) as [v|] eqn:Hr; [|done].
    destruct (hash_done _ _ _ Hroot Hr) as (s & h & -> & Hh). rewrite (string_converted _ _ _ _ Hr eq_refl). cbn [mbind Res_bind].
    unfold hex_key. rewrite Hh. cbn. exists (DirectoryRoot h n). split_and!; [|done..]. eapply names_root; [done..| |done]. by exists s.
  - rewrite contains_member in Hco. destruct (obj_find "owner" d) as [v|] eqn:Ho; [|done].
    destruct (address_done _ _ _ Hown Ho) as (s & a & -> & Ha & _).
    rewrite (address_read d "owner" a) by (by exists s). cbn. exists (OwnerDirectory a n). split_and!; [|done..].
    eapply names_owner; [done..| |done]. by exists s.
Qed.

(** What a way leads to: the key of what the request names, or a number that is
    not taken. *)
Definition keyed (o : JsonObject) (way : string) (x : Res (Outcome uint256)) : Prop :=
  match x with
  | Ok (Done k) => exists r, names_by o (Some way) r /\ k = ref_key r /\ ref_type r = ltANY
  | Throw _ => number_leak o
  | _ => False
  end.

Lemma keyed_by o way r k : names_by o (Some way) r -> k = ref_key r -> ref_type r = ltANY -> keyed o way (Ok (Done k)).
Proof. intros. by exists r. Qed.

Lemma offer_key o d :
  parsed_inside o -> obj_find "offer" o = Some (JObject d) ->
  Forall (fun f => f (JObject d) = Ok (Done tt))
    [makeFieldValidator "account" [Required; AccountBase58Validator]; makeFieldValidator "seq" [Required; Type_ [TInteger]]] ->
  keyed o "offer"
    (id ← address_member d "account"; v ← at_ d "seq"; seq ← value_to_uint32 v; Ok (Done (keylet_offer id seq))).
Proof.
  intros Hp Hd Hv. rewrite !Forall_cons in Hv. destruct Hv as (Ha & Hs & _). destruct (address_field _ _ Ha) as [a Haddr].
  rewrite (address_read _ _ _ Haddr). cbn [mbind Res_bind]. destruct (number_field _ _ Hs) as [z [Hz|Hz]].
  - unfold at_. rewrite Hz. cbn [mbind Res_bind]. unfold value_to_uint32, value_to_integer.
    destruct ((0 <=? z) && (z <=? 2 ^ 32 - 1)) eqn:Hr; cbn [mbind Res_bind].
    + eapply (keyed_by _ _ (OfferOf a z)); [|done..]. eapply names_offer; [done..|lia].
    + exists "offer", d, "seq", z. split; [done|]. right; left. split_and!; [done..|lia].
  - pose proof (Hp _ _ _ _ Hd Hz) as Hn. cbn in Hn. unfold at_. rewrite Hz. cbn [mbind Res_bind].
    unfold value_to_uint32, value_to_integer. rewrite (proj2 (Z.leb_gt z (2 ^ 32 - 1))), andb_false_r by lia. cbn.
    exists "offer", d, "seq", z. split; [done|]. left. split; [set_solver | done].
Qed.

(** Escrows and tickets: an account and a sequence. *)
Lemma sequence_key o field acc seq d (mk : AccountID -> Z -> EntryRef) (key : AccountID -> Z -> uint256) :
  obj_find field o = Some (JObject d) -> (field, seq) ∈ [("escrow", "seq"); ("ticket", "ticket_seq"); ("offer", "seq")] ->
  Forall (fun f => f (JObject d) = Ok (Done tt))
    [makeFieldValidator acc [Required; AccountBase58Validator]; makeFieldValidator seq [Required; Type_ [TInteger]]] ->
  (forall a z, address_is d acc a -> obj_find seq d = Some (JInt64 z) -> names_by o (Some field) (mk a (u32 z))) ->
  (forall a z, key a z = ref_key (mk a z) /\ ref_type (mk a z) = ltANY) ->
  keyed o field (id ← address_member d acc; z ← sequence_member d seq; Ok (Done (key id z))).
Proof.
  intros Hd Hin Hv Hn Hk. rewrite !Forall_cons in Hv. destruct Hv as (Ha & Hs & _). destruct (address_field _ _ Ha) as [a Haddr].
  rewrite (address_read _ _ _ Haddr). cbn [mbind Res_bind]. destruct (number_field _ _ Hs) as [z [Hz|Hz]].
  - rewrite (sequence_read _ _ _ Hz). cbn. eapply keyed_by; [by apply Hn | by apply Hk..].
  - destruct (sequence_leak _ _ _ Hz) as [e ->]. cbn. exists field, d, seq, z. split; [done|]. by left.
Qed.

Lemma preauth_key o d :
  obj_find "deposit_preauth" o = Some (JObject d) ->
  Forall (fun f => f (JObject d) = Ok (Done tt))
    [makeFieldValidator "owner" [Required; AccountBase58Validator]; makeFieldValidator "authorized" [Required; AccountBase58Validator]] ->
  keyed o "deposit_preauth"
    (owner ← address_member d "owner"; authorized ← address_member d "authorized"; Ok (Done (keylet_depositPreauth owner authorized))).
Proof.
  intros Hd Hv. rewrite !Forall_cons in Hv. destruct Hv as (Ha & Hb & _).
  destruct (address_field _ _ Ha) as [a Haddr], (address_field _ _ Hb) as [b Hbddr].
  rewrite (address_read _ _ _ Haddr), (address_read _ _ _ Hbddr). cbn.
  eapply (keyed_by _ _ (PreauthOf a b)); [by eapply names_preauth | done..].
Qed.

Lemma line_key o d :
  obj_find "ripple_state" o = Some (JObject d) ->
  Forall (fun f => f (JObject d) = Ok (Done tt))
    [makeFieldValidator "accounts" [Required; rippleStateAccountsCheck];
     makeFieldValidator "currency" [Required; CurrencyValidator]] ->
  keyed o "ripple_state"
    (id1 ← account_element d 0; id2 ← account_element d 1;
     s ← string_member d "currency"; Ok (Done (keylet_state id1 id2 (default noCurrency (to_currency s))))).
Proof.
  intros Hd Hv. rewrite !Forall_cons in Hv. unfold makeFieldValidator in Hv. rewrite !verify_all_done, !Forall_cons in Hv.
  destruct Hv as ((Hr1 & Hacc & _) & (Hr2 & Hcur & _) & _).
  destruct (Required_done _ _ Hr1) as [v Hv], (Required_done _ _ Hr2) as [w Hw].
  destruct (currency_done _ _ _ Hcur Hw) as (s & c & -> & Hc). apply (custom_done _ _ _ _ Hacc) in Hv as Hcheck.
  assert (exists s1 s2 a b, v = JArray [JString s1; JString s2] /\
    parseBase58_AccountID (c_str s1) = Some a /\ parseBase58_AccountID (c_str s2) = Some b) as (s1 & s2 & a & b & -> & Ha & Hb).
  { clear - Hcheck. repeat (case_match; try done). simplify_eq. by eexists _, _, _, _. }
  assert (account_element d 0 = Ok a /\ account_element d 1 = Ok b) as [-> ->].
  { cbn in Hv. unfold account_element, at_. rewrite Hv. cbn. unfold address. by rewrite Ha, Hb. }
  cbn [mbind Res_bind]. cbn in Hv, Hw. rewrite (string_converted _ _ _ _ Hw eq_refl). cbn [mbind Res_bind]. rewrite Hc.
  eapply (keyed_by _ _ (LineOf a b c)); [|done..]. eapply names_line; [done..|]. by exists s.
Qed.

(** What the key of an input has to be. *)
Definition entry_key_ok (o : JsonObject) (type : Z) (x : Res (Outcome uint256)) : Prop :=
  match x with
  | Ok (Done k) => exists r, names o r /\ k = ref_key r /\ type = ref_type r
  | Ok (Failed s) => names_nothing o s
  | Throw _ => number_leak o
  | NoFuel => False
  end.

Lemma keyed_ok o way x :
  forallb (fun p => negb (holds_key o p.1)) index_fields = true -> way_of o = Some way -> keyed o way x ->
  entry_key_ok o ltANY x.
Proof.
  intros Hk Hw. unfold keyed, entry_key_ok. destruct x as [[s|k]|e|]; try done.
  intros (r & Hr & -> & Ht). exists r. split_and!; [|done..]. apply names_other; [done|]. by rewrite Hw.
Qed.

(** A way that is there is an object. *)
Lemma way_object o field specs :
  key_or_section field specs (JObject o) = Ok (Done tt) ->
  forallb (fun p => negb (holds_key o p.1)) index_fields = true -> field ∈ fst <$> index_fields -> contains o field = true ->
  exists d, obj_find field o = Some (JObject d) /\ Forall (fun f => f (JObject d) = Ok (Done tt)) specs.
Proof.
  intros Hs Hk Hin Hc. apply (section_object _ _ _ Hs Hc). apply list_elem_of_fmap in Hin as ([f t] & -> & Hin).
  rewrite forallb_forall in Hk. specialize (Hk (f, t) ltac:(by apply list_elem_of_In)). by apply negb_true_iff in Hk.
Qed.

Lemma root_address o :
  makeFieldValidator "account_root" [AccountBase58Validator] (JObject o) = Ok (Done tt) -> contains o "account_root" = true ->
  exists a, address_is o "account_root" a.
Proof.
  unfold makeFieldValidator. rewrite verify_all_done, Forall_singleton, contains_member. intros Hv Hc.
  destruct (obj_find "account_root" o) as [v|] eqn:Hr; [|done].
  destruct (address_done _ _ _ Hv Hr) as (s & a & -> & Ha & _). by exists a, s.
Qed.

Lemma state_object o specs :
  makeFieldValidator "ripple_state" [Type_ [TObject]; Section_ specs] (JObject o) = Ok (Done tt) ->
  contains o "ripple_state" = true ->
  exists d, obj_find "ripple_state" o = Some (JObject d) /\ Forall (fun f => f (JObject d) = Ok (Done tt)) specs.
Proof.
  unfold makeFieldValidator. rewrite verify_all_done, !Forall_cons, contains_member. intros (Ht & Hs & _) Hc.
  destruct (obj_find "ripple_state" o) as [v|] eqn:Hst; [|done].
  apply (Type_done _ _ _ v) in Ht; [|done]. apply Exists_cons in Ht as [Ht|Ht]; [|by apply Exists_nil in Ht].
  destruct v as [| | | | | | |d]; try done. exists d. split; [done|]. by eapply Section_done.
Qed.

(** The object of a way that is there, and the input made of it. *)
Ltac way Hfind C :=
  match type of C with contains ?o ?field = true =>
    match goal with H : key_or_section field _ _ = _ |- _ =>
      let d := fresh "d" in let Hd := fresh "Hd" in let Hs := fresh "Hs" in
      destruct (way_object _ _ _ H Hfind ltac:(cbn; set_solver) C) as (d & Hd & Hs);
      rewrite (object_read _ _ _ Hd); eexists; (split; [done|]); (split_and!; [done..|])
    end end.

Lemma entry_fields_spec o hash index binary :
  parsed_inside o -> valid o ->
  exists i, entry_fields o hash index binary = Ok i /\ ei_ledgerHash i = hash /\ ei_ledgerIndex i = index /\
    ei_binary i = binary /\ entry_key_ok o (ei_expectedType i) (entry_key i).
Proof.
  intros Hp Hv. unfold entry_fields. pose proof (find_index o) as Hfind. destruct (find _ _) as [[field type]|].
  { destruct Hfind as [Hin Hk]. destruct (index_valid _ _ _ Hv Hin Hk) as (s & h & Hs & Hh).
    rewrite (string_converted _ _ _ _ Hs eq_refl). eexists. split; [done|]. split_and!; [done..|]. cbn. unfold hex_key. rewrite Hh.
    exists (ByIndex h type). split_and!; [|done..]. eapply names_index; [done|]. by exists s. }
  apply validate_done in Hv. unfold ledger_entry_spec in Hv. rewrite !Forall_cons in Hv. destruct_and! Hv.
  assert (forall way, way_of o = way -> way_of o = way) as Hway by done. unfold way_of at 1, ways in Hway. cbn [find] in Hway.
  destruct (contains o "account_root") eqn:C1.
  { destruct (root_address o ltac:(assumption) C1) as (a & s & Hroot & Ha).
    rewrite (string_converted _ _ _ _ Hroot eq_refl). eexists. split; [done|]. split_and!; [done..|]. cbn. unfold address. rewrite Ha.
    eapply keyed_ok; [done|by apply Hway|]. eapply (keyed_by _ _ (AccountRoot a)); [|done..]. apply names_account. by exists s. }
  destruct (contains o "directory") eqn:C2.
  { way Hfind C2. pose proof (directory_key _ _ Hp Hd Hs) as Hk. cbn [entry_key ei_expectedType].
    destruct (composeKeyFromDirectory d) as [[s|k]| |]; cbn in *; [|by eapply (keyed_ok o "directory" (Ok (Done k))); [..|by apply Hway|]|done..].
    split; [done|]. right. exists d. by split_and!; [apply Hway|..]. }
  destruct (contains o "offer") eqn:C3.
  { way Hfind C3. eapply keyed_ok; [done|by apply Hway|]. by apply offer_key. }
  destruct (contains o "ripple_state") eqn:C4.
  { match goal with H : makeFieldValidator "ripple_state" _ _ = _ |- _ => destruct (state_object o _ H C4) as (d & Hst & Hs) end.
    rewrite (object_read _ _ _ Hst). eexists. split; [done|]. split_and!; [done..|].
    eapply keyed_ok; [done|by apply Hway|]. by apply line_key. }
  destruct (contains o "escrow") eqn:C5.
  { way Hfind C5. eapply keyed_ok; [done|by apply Hway|].
    apply (sequence_key _ _ "owner" "seq" _ EscrowOf keylet_escrow); try done; [set_solver|]. intros. by eapply names_escrow. }
  destruct (contains o "deposit_preauth") eqn:C6.
  { way Hfind C6. eapply keyed_ok; [done|by apply Hway|]. by apply preauth_key. }
  destruct (contains o "ticket") eqn:C7.
  { way Hfind C7. eapply keyed_ok; [done|by apply Hway|].
    apply (sequence_key _ _ "account" "ticket_seq" _ TicketOf getTicketIndex); try done; [set_solver|]. intros. by eapply names_ticket. }
  eexists. split; [done|]. split_and!; [done..|]. split; [done|]. left. split; [by apply Hway | done].
Qed.

Lemma entry_converted o :
  parsed_inside o -> valid o -> ~ index_leak o -> obj_find "ledger_hash" o = None ->
  exists i, entry_value_to (JObject o) = Ok i /\ ei_ledgerHash i = None /\ ei_ledgerIndex i = requested_index o /\
    ei_binary i = wants_binary o /\ entry_key_ok o (ei_expectedType i) (entry_key i).
Proof.
  intros Hp Hv Hi Hhash. pose proof Hv as Hall. apply validate_done in Hall. unfold ledger_entry_spec in Hall.
  rewrite !Forall_cons in Hall. destruct Hall as (Hbin & _ & Hindex & _).
  unfold makeFieldValidator in Hbin, Hindex. rewrite verify_all_done, Forall_singleton in Hbin, Hindex.
  apply index_converted in Hindex. unfold entry_value_to. cbn [as_object mbind Res_bind].
  unfold optional_string. rewrite (contains_member o "ledger_hash"), Hhash. cbn [mbind Res_bind].
  destruct (ledger_index_input o) as [ix|e|]; [|done..]. destruct Hindex as [_ ->]. cbn [mbind Res_bind].
  assert ((if contains o "binary" then v ← at_ o "binary"; as_bool v else Ok false) = Ok (wants_binary o)) as ->.
  { unfold wants_binary, at_. rewrite contains_member. destruct (obj_find "binary" o) as [v|] eqn:Hb; [|done].
    apply (Type_done _ _ _ v) in Hbin; [|done]. apply Exists_cons in Hbin as [Hbin|Hbin]; [|by apply Exists_nil in Hbin].
    by destruct v. }
  cbn [mbind Res_bind]. by apply entry_fields_spec.
Qed.

End entry_conversion.

Section entry_found.
Context `{BackendImpl W} `{LedgerReads W} {Ldg : Z -> gmap Z Blob} {I : W -> Prop} {E : Exn -> W -> Prop}.
Context `{Ripple} `{!ReadLaws Ldg I E} {info : LedgerInfo} `{!ServesLedger I E info}.
Context `{!EntryKeylets} `{RippleKeylets} `{RippleStrings} `{JsonNumbers} `{LexicalCast} `{CursorText} `{HashOrder}.
Context (blob_text : Blob -> string).

(** The answer for an object named: it is in the ledger, and of the type asked for. *)
Definition entry_answer (binary : bool) (r : EntryRef) : Outcome json :=
  match Ldg (li_seq info) !! ref_key r with
  | None => Failed (Status_custom "entryNotFound")
  | Some b =>
      match parseSLE b (ref_key r) with
      | Ok sle =>
          if negb (ref_type r =? ltANY) && negb (sle_getType sle =? ref_type r) then Failed (Status_custom "unexpectedLedgerType")
          else Done (JObject [("ledger_hash", JString (strHex (li_hash info))); ("ledger_index", JUint64 (li_seq info));
                              ("validated", JBool true); ("index", JString (strHex (ref_key r)));
                              if binary then ("node_binary", JString (blob_text b)) else ("node", JObject (sle_json sle))])
      | _ => Failed Status_ok
      end
  end.

Lemma entry_process_spec (i : EntryInput) (r : EntryRef) :
  entry_key i = Ok (Done (ref_key r)) -> ei_expectedType i = ref_type r -> ei_ledgerHash i = None ->
  ei_ledgerIndex i = Some (li_seq info) -> valid_key (ref_key r) ->
  (forall k b, Ldg (li_seq info) !! k = Some b -> exists sle, parseSLE b k = Ok sle) ->
  triple I (entry_process blob_text i)
    (fun out w => match out with Failed e => Failed e | Done out => Done (entry_value_from out) end
                  = entry_answer (ei_binary i) r /\ I w) E.
Proof.
  intros Hk Ht Hh Hi Hkey Hobj. unfold entry_process. rewrite Hk, Hh, Hi. apply triple_ok_bind.
  eapply (triple_bind _ _ _ (fun rng w => (exists l, rng = Some l /\ li_seq info <= maxSequence l) /\ I w)).
  { intros w Hw. destruct (sl_range w Hw) as (l & Hr & Hle). cbn. eauto. }
  intros rng. apply triple_pre_pure. intros (l & -> & Hle). unfold getLedgerInfoFromHashOrSeq. cbn [default from_option].
  replace (id (li_seq info) >? maxSequence l) with false by (unfold id; lia).
  eapply (triple_bind _ _ _ (fun x w => x = Done info /\ I w)).
  { eapply triple_bind; [apply sl_ledger|]. intros x. apply triple_pre_pure. intros ->. by apply triple_ret. }
  intros x. apply triple_pre_pure. intros ->. eapply triple_bind; [by apply fetchLedgerObject_spec|].
  intros x. apply triple_pre_pure. intros ->. unfold entry_answer.
  destruct (Ldg (li_seq info) !! ref_key r) as [b|] eqn:Hb; [|by apply triple_ret].
  rewrite bool_decide_false by (by eapply rl_nonempty). destruct (Hobj _ _ Hb) as [sle ->]. apply triple_ok_bind.
  apply triple_ret. intros w Hw. split; [|done]. unfold entry_output. rewrite Ht.
  destruct (_ && _); [done|]. by destruct (ei_binary i).
Qed.

(** C27: a ledger entry. A valid request whose numbers are taken is answered with
    what it names: the object of that key in the ledger, rendered or as the
    hexadecimal text of its bytes; with [entryNotFound] when the ledger has no
    such object, and with [unexpectedLedgerType] when the key came in the field of
    another type. When it names nothing, or a directory in no way or in two, the
    answer is that error. *)
Theorem ledger_entry_found (o : JsonObject) :
  RpcSpec_validate ledger_entry_spec (JObject o) = Ok (Done tt) ->
  parsed_inside o -> ~ index_leak o -> ~ number_leak o ->
  obj_find "ledger_hash" o = None -> requested_index o = Some (li_seq info) ->
  (forall r, names o r -> valid_key (ref_key r)) ->
  (forall k b, Ldg (li_seq info) !! k = Some b -> exists sle, parseSLE b k = Ok sle) ->
  triple I (DefaultProcessor (LedgerEntryHandler blob_text) (JObject o))
    (fun out w => ((exists r, names o r /\ out = entry_answer (wants_binary o) r) \/
                   (exists s, names_nothing o s /\ out = Failed s)) /\ I w) E.
Proof.
  intros Hv Hp Hi Hn Hhash Hindex Hkeys Hobj. unfold DefaultProcessor. cbn [LedgerEntryHandler ng_spec ng_value_to ng_process ng_value_from].
  rewrite Hv. apply triple_ok_bind.
  destruct (entry_converted o Hp Hv Hi Hhash) as (i & -> & Hh & Hix & Hb & Hk). apply triple_ok_bind.
  rewrite Hindex in Hix. unfold entry_key_ok in Hk. destruct (entry_key i) as [[s|k]|e|] eqn:He; [| |done..].
  - unfold entry_process. rewrite He. eapply (triple_bind _ _ _ (fun r w => r = Failed s /\ I w)).
    { apply triple_ok_bind. by apply triple_ret. }
    intros r. apply triple_pre_pure. intros ->. apply triple_ret. intros w Hw. split; [|done]. right. by exists s.
  - destruct Hk as (r & Hr & -> & Ht). eapply triple_bind; [by apply (entry_process_spec i r); auto|].
    intros x. apply triple_pre_pure. intros Hx. apply triple_ret. intros w Hw. split; [|done].
    left. exists r. rewrite <- Hb. by rewrite <- Hx.
Qed.

End entry_found.

(** ** The offer 30 of account 1 *)

#[local] Existing Instances ng_ripple ng_backend ng_reads ng_laws ng_serves.

#[local] Instance sample_entry_keylets : @EntryKeylets ng_ripple := {
  keylet_offer := fun _ seq => seq; keylet_state := fun _ _ _ => 20; keylet_escrow := fun _ seq => seq;
  keylet_depositPreauth := fun a b => a + b; getTicketIndex := fun _ seq => seq; noCurrency := 0;
  sle_getType := (fun o => match get_num o sfLedgerEntryType with Ok t => t | _ => 0 end) : @STObject ng_ripple -> _;
  sle_json := (fun o => [("fields", JInt64 (Z.of_nat (length (obj_fields o))))]) : @STObject ng_ripple -> _
}.

#[local] Instance sample_order : HashOrder := {
  indexFieldTypeMap := reverse index_fields; hash_order := reverse_Permutation index_fields
}.

Definition entry_request : JsonObject :=
  [("ledger_index", JInt64 6); ("offer", JObject [("account", JString "e"); ("seq", JInt64 30)])].

Example entry_request_run :
  (DefaultProcessor (LedgerEntryHandler (fun _ => "00")) (JObject entry_request) ng_world).1 =
  Ok (Done (JObject [("ledger_hash", JString (z_text 66)); ("ledger_index", JUint64 6); ("validated", JBool true);
                     ("index", JString (z_text 30)); ("node", JObject [("fields", JInt64 5)])])).
Proof. vm_compute. reflexivity. Qed.

Lemma entry_request_names r : names entry_request r -> r = OfferOf 1 30.
Proof.
  inversion 1 as [field type h Hin (s & Hs & _)|r' _ Hby]; subst.
  - unfold entry_request in Hs. cbn in Hs. by repeat case_match.
  - change (way_of entry_request) with (Some "offer") in Hby. inversion Hby as [ | | |d a z Hd (s & Hs & Ha) Hz Hr| | | | ]; subst.
    injection Hd as <-. injection Hs as <-. injection Hz as <-. vm_compute in Ha. by injection Ha as <-.
Qed.

Lemma entry_request_parsed : parsed_inside entry_request.
Proof.
  intros field d key v Hd Hv. unfold entry_request in Hd. cbn in Hd. repeat case_match; simplify_eq.
  cbn in Hv. repeat case_match; simplify_eq; cbn; lia.
Qed.

Lemma entry_request_taken : ~ index_leak entry_request /\ ~ number_leak entry_request.
Proof.
  split.
  - intros [(z & Hz)|(s & n & Hz & _)]; discriminate.
  - intros (field & d & key & z & Hd & Hk). unfold entry_request in Hd. cbn in Hd. repeat case_match; simplify_eq.
    cbn in Hk. destruct Hk as [[_ Hk]|[(_ & -> & Hk & Hz)|(Hk & _)]]; [by repeat case_match | | done].
    change (Some (JInt64 30) = Some (JInt64 z)) in Hk. simplify_eq. lia.
Qed.

Lemma ledger_entry_found_witness :
  exists w, DefaultProcessor (LedgerEntryHandler (fun _ => "00")) (JObject entry_request) ng_world =
    (Ok (entry_answer (Ldg := L ng_history) (info := ng_info) (fun _ => "00") false (OfferOf 1 30)), w).
Proof.
  assert (RpcSpec_validate ledger_entry_spec (JObject entry_request) = Ok (Done tt)) as Hv by (vm_compute; reflexivity).
  assert (forall r, names entry_request r -> valid_key (ref_key r)) as Hk.
  { intros r Hr%entry_request_names. subst. cbn. unfold valid_key. lia. }
  assert (forall k b, L ng_history (li_seq ng_info) !! k = Some b -> exists sle, parseSLE b k = Ok sle) as Hobj.
  { intros k b _. cbn. repeat case_match; by eexists. }
  pose proof (ledger_entry_found (I := ng_served) (fun _ => "00") entry_request Hv entry_request_parsed
    (proj1 entry_request_taken) (proj2 entry_request_taken) eq_refl eq_refl Hk Hobj) as Ht.
  destruct (triple_run _ _ _ _ Ht ng_world_ok) as (out & w & Hrun & [(r & Hr & ->)|(s & Hs & _)] & _).
  - exists w. rewrite (entry_request_names _ Hr) in Hrun. exact Hrun.
  - exfalso. destruct Hs as [_ [[Hw _]|(d & Hw & _)]]; discriminate.
Defined.

(** Two valid requests: a page below zero ends the program; the sequence of an
    escrow counts modulo 2^32. *)
Definition entry_run (o : JsonObject) : Res MaybeError * Res (Outcome uint256) :=
  (RpcSpec_validate ledger_entry_spec (JObject o), i ← entry_value_to (JObject o); entry_key i).

Example page_below_zero :
  entry_run [("directory", JObject [("owner", JString "e"); ("sub_index", JInt64 (-1))])] = (Ok (Done tt), Throw terminate).
Proof. vm_compute. reflexivity. Qed.

Example escrow_sequence_wraps :
  entry_run [("escrow", JObject [("owner", JString "e"); ("seq", JInt64 (2 ^ 32 + 30))])] = (Ok (Done tt), Ok (Done 30)).
Proof. vm_compute. reflexivity. Qed.
