(* ===== verification/Config.v ===== *)
(** The configuration ([config/Config.h], [Config.cpp], [detail/Helpers.h]) and
    what the parts of the program read from it.

    A configuration is a JSON value; a key is a path of names with dots between
    them. [tokens_spec]: the names of a key. [config_lookup]: every way to ask for
    a value, an array or a section, with what it answers when there is none, when
    the way to it is blocked, and when it is of another type. *)

From stdpp Require Import base list strings gmap.
From Stdlib Require Import ZArith Lia Ascii.
From S2P Require Import Prelude Json Errors Requests Directory Validators.

#[local] Open Scope string_scope.
#[local] Open Scope list_scope.
Open Scope Z_scope.

(** ** Exceptions *)

(** [KeyException] and [StoreException] are logic errors; [value_to] throws a
    [system_error], which is a runtime error; [optional::value] of an empty
    optional throws [bad_optional_access]. *)
Inductive ConfigExn :=
| KeyException (msg : string)
| StoreException (msg : string)
| LogicError (msg : string)
| ConfigError (msg : string)
| SystemError
| NoValue.

#[export] Instance ConfigExn_eq_dec : EqDecision ConfigExn.
Proof. solve_decision. Defined.

Inductive Cfg (A : Type) := Val (a : A) | Exc (e : ConfigExn).
Arguments Val {A}. Arguments Exc {A}.

#[export] Instance Cfg_ret : MRet Cfg := fun A a => Val a.
#[export] Instance Cfg_bind : MBind Cfg := fun A B f m => match m with Val a => f a | Exc e => Exc e end.

(** The two handlers of the code: of [StoreException], and of everything. *)
Definition catch_store {A} (m : Cfg A) (h : Cfg A) : Cfg A := match m with Exc (StoreException _) => h | r => r end.
Definition catch_any {A} (m : Cfg A) (h : Cfg A) : Cfg A := match m with Exc _ => h | r => r end.

Definition opt_value {A} (o : option A) : Cfg A := match o with Some a => Val a | None => Exc NoValue end.

(** ** Keys *)

Definition Separator : ascii := ".".

Definition saveToken (key_ token_ : string) (tokens_ : list string) : Cfg (list string) :=
  if bool_decide (token_ = "") then Exc (KeyException ("Empty token in key '" +:+ key_ +:+ "'."))
  else Val (tokens_ ++ [token_]).

Fixpoint tokenize (key_ key token_ : string) (tokens_ : list string) : Cfg (list string) :=
  match key with
  | EmptyString => saveToken key_ token_ tokens_
  | String c key' =>
      if decide (c = Separator) then tokens_' ← saveToken key_ token_ tokens_; tokenize key_ key' "" tokens_'
      else tokenize key_ key' (token_ +:+ String c "") tokens_
  end.

Definition Tokenizer (key : string) : Cfg (list string) :=
  if bool_decide (key = "") then Exc (KeyException "Empty key") else tokenize key key "" [].

(** ** The store *)

(** The loop of [lookup]: [cur] is [None] once the path is broken. *)
Fixpoint lookup_loop (sections : list string) (cur : option json) (subkey : string) : Cfg (option json) :=
  match sections with
  | [] => Val cur
  | section :: rest =>
      let subkey := subkey +:+ section in
      cur' ← match cur with
             | None => Val None
             | Some (JObject o) => Val (obj_find section o)
             | Some _ => Exc (StoreException ("Not an object at '" +:+ subkey +:+ "'"))
             end;
      lookup_loop rest cur' (subkey +:+ ".")
  end.

Definition lookup_ (store_ : json) (key : string) : Cfg (option json) :=
  if is_null store_ then Val None
  else sections ← Tokenizer key; lookup_loop sections (Some store_) "".

Definition config_bool (store_ : json) : bool := negb (is_null store_).

Definition config_contains (store_ : json) (key : string) : Cfg bool :=
  found ← lookup_ store_ key; Val (bool_decide (is_Some found)).

(** ** Values *)

(** The types that are asked for. A number is of an integer type if it is an
    integer; [value_to] then throws when it does not fit. *)
Inductive Requested : Type -> Type :=
| RBool : Requested bool
| RString : Requested string
| RInteger (name : string) (lo hi : Z) : Requested Z.

Definition uint32_ : Requested Z := RInteger "uint32_t" 0 (2 ^ 32 - 1).
Definition uint64_ : Requested Z := RInteger "uint64_t" 0 (2 ^ 64 - 1).
Definition int32_ : Requested Z := RInteger "int32_t" (- 2 ^ 31) (2 ^ 31 - 1).

Definition typeName {R} (r : Requested R) : string :=
  match r with RBool => "bool" | RString => "std::string" | RInteger name _ _ => name end.

(** [to_string(value.kind())] *)
Definition kind_text (v : json) : string :=
  match v with
  | JNull => "null" | JBool _ => "bool" | JInt64 _ => "int64" | JUint64 _ => "uint64" | JDouble _ => "double"
  | JString _ => "string" | JArray _ => "array" | JObject _ => "object"
  end.

Definition checkedAs {R} (r : Requested R) (key : string) (value : json) : Cfg R :=
  let has_error := Exc (ConfigError ("Type for key '" +:+ key +:+ "' is '" +:+ kind_text value +:+
                                     "' in JSON but requested '" +:+ typeName r +:+ "'")) in
  match r in Requested R' return Cfg R' -> Cfg R' with
  | RBool => fun has_error => match value with JBool b => Val b | _ => has_error end
  | RString => fun has_error => match value with JString s => Val s | _ => has_error end
  | RInteger _ lo hi => fun has_error =>
      match value with
      | JInt64 z | JUint64 z => if (lo <=? z) && (z <=? hi) then Val z else Exc SystemError
      | _ => has_error
      end
  end has_error.

Section access.
Context {R : Type} (r : Requested R) (store_ : json).

Definition maybeValue (key : string) : Cfg (option R) :=
  maybe_element ← lookup_ store_ key;
  match maybe_element with Some element => v ← checkedAs r key element; Val (Some v) | None => Val None end.

Definition config_value (key : string) : Cfg R := o ← maybeValue key; opt_value o.

Definition valueOr (key : string) (fallback : R) : Cfg R :=
  catch_store (o ← maybeValue key; Val (default fallback o)) (Val fallback).

Definition valueOrThrow (key err : string) : Cfg R := catch_any (config_value key) (Exc (ConfigError err)).

Definition self_maybeValue : Cfg (option R) :=
  if is_null store_ then Val None else v ← checkedAs r "_self_" store_; Val (Some v).

Definition self_value : Cfg R := o ← self_maybeValue; opt_value o.

Definition self_valueOrThrow (err : string) : Cfg R := catch_any self_value (Exc (ConfigError err)).

End access.

Definition maybeArray (store_ : json) (key : string) : Cfg (option (list json)) :=
  catch_store (maybe_arr ← lookup_ store_ key;
               Val (match maybe_arr with Some (JArray arr) => Some arr | _ => None end)) (Val None).

Definition config_array (store_ : json) (key : string) : Cfg (list json) :=
  maybe_arr ← maybeArray store_ key;
  match maybe_arr with Some arr => Val arr | None => Exc (LogicError ("No array found at '" +:+ key +:+ "'")) end.

Definition arrayOr (store_ : json) (key : string) (fallback : list json) : Cfg (list json) :=
  maybe_arr ← maybeArray store_ key; Val (default fallback maybe_arr).

Definition arrayOrThrow (store_ : json) (key err : string) : Cfg (list json) :=
  catch_any (maybe_arr ← maybeArray store_ key; opt_value maybe_arr) (Exc (ConfigError err)).

Definition section (store_ : json) (key : string) : Cfg json :=
  maybe_element ← lookup_ store_ key;
  match maybe_element with
  | Some (JObject o) => Val (JObject o)
  | _ => Exc (LogicError ("No section found at '" +:+ key +:+ "'"))
  end.

Definition self_array (store_ : json) : Cfg (list json) :=
  match store_ with JArray arr => Val arr | _ => Exc (LogicError "_self_ is not an array") end.

(** ** Names and paths *)

Fixpoint no_dot (s : string) : bool :=
  match s with EmptyString => true | String a s' => negb (bool_decide (a = Separator)) && no_dot s' end.

Definition name_ok (s : string) : Prop := s <> "" /\ no_dot s = true.

(** The key of a path: its names with dots between them. *)
Fixpoint join (path : list string) : string :=
  match path with [] => "" | [s] => s | s :: rest => s +:+ "." +:+ join rest end.

Lemma append_String x (a b : string) : String x a +:+ b = String x (a +:+ b).
Proof. done. Qed.

Lemma append_assoc (a b c : string) : (a +:+ b) +:+ c = a +:+ (b +:+ c).
Proof. induction a as [|x a IH]; [done|]. by rewrite !append_String, IH. Qed.

Lemma append_nil (a : string) : a +:+ "" = a.
Proof. induction a as [|x a IH]; [done|]. by rewrite append_String, IH. Qed.

Lemma no_dot_app a b : no_dot (a +:+ b) = no_dot a && no_dot b.
Proof. induction a as [|x a IH]; [done|]. rewrite append_String. cbn. by rewrite IH, andb_assoc. Qed.

Lemma join_cons s path : path <> [] -> join (s :: path) = s +:+ "." +:+ join path.
Proof. by destruct path. Qed.

(** What the tokenizer makes of a key, from the name it is in. *)
Lemma tokenize_complete key_ s path token tokens :
  no_dot s = true -> token +:+ s <> "" -> Forall name_ok path ->
  tokenize key_ (join (s :: path)) token tokens = Val (tokens ++ (token +:+ s) :: path).
Proof.
  revert s token tokens. induction path as [|s' path IH]; intros s token tokens Hs Hne Hp.
  - cbn [join]. revert token Hne. induction s as [|c s IHs]; intros token Hne; cbn.
    + rewrite append_nil in *. unfold saveToken. by rewrite bool_decide_false.
    + cbn in Hs. apply andb_true_iff in Hs as [Hc Hs]. apply negb_true_iff, bool_decide_eq_false in Hc.
      rewrite decide_False by done. rewrite IHs by (by rewrite ?append_assoc). by rewrite append_assoc.
  - rewrite join_cons by done. apply Forall_cons in Hp as [[Hs'1 Hs'2] Hp].
    revert token Hne. induction s as [|c s IHs]; intros token Hne; rewrite ?append_String.
    + rewrite append_nil in *.
      transitivity (tokens' ← saveToken key_ token tokens; tokenize key_ (join (s' :: path)) "" tokens'); [done|].
      unfold saveToken. rewrite bool_decide_false by done.
      cbn [mbind Cfg_bind]. rewrite IH by done. by rewrite <- app_assoc.
    + cbn in Hs. apply andb_true_iff in Hs as [Hc Hs]. apply negb_true_iff, bool_decide_eq_false in Hc. cbn [tokenize].
      rewrite decide_False by done. rewrite IHs by (by rewrite ?append_assoc). by rewrite append_assoc.
Qed.

Lemma tokenize_sound key_ key token tokens r :
  no_dot token = true -> tokenize key_ key token tokens = Val r ->
  exists s path, key = join (s :: path) /\ r = tokens ++ (token +:+ s) :: path /\
    no_dot s = true /\ token +:+ s <> "" /\ Forall name_ok path.
Proof.
  revert token tokens. induction key as [|c key IH]; intros token tokens Ht Hr; cbn in Hr.
  - unfold saveToken in Hr. destruct (bool_decide (token = "")) eqn:Hb; [done|]. apply bool_decide_eq_false in Hb.
    injection Hr as <-. exists "", []. rewrite append_nil. by repeat split.
  - destruct (decide (c = Separator)) as [->|Hc].
    + unfold saveToken in Hr. destruct (bool_decide (token = "")) eqn:Hb; [done|]. apply bool_decide_eq_false in Hb.
      cbn [mbind Cfg_bind] in Hr. destruct (IH "" _ eq_refl Hr) as (s & path & -> & -> & Hs & Hne & Hp).
      exists "", (s :: path). rewrite append_nil. split_and!; [reflexivity| by rewrite <- app_assoc|done..|].
      by constructor.
    + destruct (IH (token +:+ String c "") tokens) as (s & path & -> & -> & Hs & Hne & Hp); [|done|].
      { rewrite no_dot_app, Ht. cbn. by rewrite bool_decide_false. }
      exists (String c s), path. rewrite append_assoc in *. split_and!; try done.
      * by destruct path.
      * cbn. by rewrite bool_decide_false.
Qed.

(** A tokenizer throws nothing but a [KeyException]. *)
Lemma tokenize_exn key_ key token tokens e : tokenize key_ key token tokens = Exc e -> exists m, e = KeyException m.
Proof.
  revert token tokens. induction key as [|c key IH]; intros token tokens; cbn; unfold saveToken.
  - destruct (bool_decide _); [|done]. intros [= <-]. by eexists.
  - destruct (decide _); [|apply IH]. destruct (bool_decide _); [|apply IH]. intros [= <-]. by eexists.
Qed.

(** The names of a key are those that it is the path of. *)
Lemma tokens_spec key path :
  Tokenizer key = Val path <-> path <> [] /\ Forall name_ok path /\ key = join path.
Proof.
  unfold Tokenizer. split.
  - destruct (bool_decide (key = "")); [done|]. intros (s & p & -> & -> & Hs & Hne & Hp)%tokenize_sound; [|done].
    split_and!; [done| |done]. by constructor.
  - intros (Hne & Hp & ->). destruct path as [|s path]; [done|]. apply Forall_cons in Hp as [[Hs Hd] Hp].
    rewrite bool_decide_false by (destruct path; [done|]; rewrite join_cons by done; by destruct s).
    by rewrite (tokenize_complete _ s path "" []).
Qed.

(** ** Searching *)

Inductive Search := Here (v : json) | Absent | Blocked (path : list string).

Fixpoint search (seen path : list string) (v : json) : Search :=
  match path with
  | [] => Here v
  | name :: rest =>
      match v with
      | JObject o => match obj_find name o with Some w => search (seen ++ [name]) rest w | None => Absent end
      | _ => Blocked (seen ++ [name])
      end
  end.

Definition blocked (path : list string) : ConfigExn := StoreException ("Not an object at '" +:+ join path +:+ "'").

Definition found (s : Search) : Cfg (option json) :=
  match s with Here v => Val (Some v) | Absent => Val None | Blocked p => Exc (blocked p) end.

(** The names seen so far, each with a dot after it. *)
Definition dotted (seen : list string) : string := foldr (fun s t => s +:+ "." +:+ t) "" seen.

Lemma join_snoc seen name : join (seen ++ [name]) = dotted seen +:+ name.
Proof.
  induction seen as [|s seen IH]; [done|]. cbn [app dotted foldr]. rewrite join_cons by (by destruct seen).
  rewrite IH. by rewrite !append_assoc.
Qed.

Lemma dotted_snoc seen name : dotted (seen ++ [name]) = (dotted seen +:+ name) +:+ ".".
Proof. induction seen as [|s seen IH]; cbn; [done|]. fold (dotted (seen ++ [name])). rewrite IH. unfold dotted. by rewrite !append_assoc. Qed.

Lemma lookup_broken path subkey : lookup_loop path None subkey = Val None.
Proof. revert subkey. induction path as [|s path IH]; intros subkey; [done | apply IH]. Qed.

Lemma lookup_loop_search path seen v : lookup_loop path (Some v) (dotted seen) = found (search seen path v).
Proof.
  revert seen v. induction path as [|s path IH]; intros seen v; [done|]. cbn [lookup_loop search].
  destruct v; cbn [mbind Cfg_bind found]; unfold blocked; rewrite ?join_snoc; try done.
  destruct (obj_find s m) as [w|]; [|by rewrite lookup_broken]. rewrite <- IH. by rewrite dotted_snoc.
Qed.

(** A key that is a path finds what the path leads to. *)
Lemma lookup_search store_ path :
  store_ <> JNull -> path <> [] -> Forall name_ok path -> lookup_ store_ (join path) = found (search [] path store_).
Proof.
  intros Hs Hne Hp. unfold lookup_. rewrite (proj2 (tokens_spec (join path) path)) by done.
  replace (is_null store_) with false by (by destruct store_). apply (lookup_loop_search path []).
Qed.

(** The value at the end of nested objects is found. *)
Fixpoint nest (path : list string) (v : json) : json :=
  match path with [] => v | name :: rest => JObject [(name, nest rest v)] end.

Lemma search_nest seen path v : search seen path (nest path v) = Here v.
Proof. revert seen. induction path as [|s path IH]; intros seen; [done|]. cbn. by rewrite decide_True, IH. Qed.

Lemma lookup_bad store_ key :
  store_ <> JNull -> (forall p, p <> [] -> Forall name_ok p -> key <> join p) ->
  exists m, lookup_ store_ key = Exc (KeyException m).
Proof.
  intros Hs Hk. unfold lookup_. replace (is_null store_) with false by (by destruct store_).
  destruct (Tokenizer key) as [path|e] eqn:Ht.
  - apply tokens_spec in Ht as (Hne & Hp & Hj). by destruct (Hk path).
  - unfold Tokenizer in Ht. destruct (bool_decide _); [injection Ht as <-; by eexists|].
    apply tokenize_exn in Ht as [m ->]. by exists m.
Qed.

Lemma checked_or {R} (r : Requested R) key v fallback :
  catch_store (o ← (x ← checkedAs r key v; Val (Some x)); Val (default fallback o)) (Val fallback) = checkedAs r key v.
Proof. destruct r, v; cbn; try done; by destruct (_ && _). Qed.

(** C18: reading the configuration. For a store that is not null and a key that is
    a path of names: when the path leads to a value, every question is answered
    from that value, with an error naming key and types when it is of another
    type; when there is no such value, or the way is blocked by something that is
    no object, the questions with a fallback answer it and the others say so, a
    blocked way being an exception that names it only where nothing catches it. A
    key that is no path throws a [KeyException], whatever is asked; and a value
    put under a path is found there. *)
Theorem config_lookup {R} (r : Requested R) (store_ : json) (path : list string) (fallback : R) (arrays : list json) (err : string) :
  store_ <> JNull -> path <> [] -> Forall name_ok path ->
  let key := join path in
  let typed v := checkedAs r key v in
  match search [] path store_ with
  | Here v =>
      config_contains store_ key = Val true /\
      maybeValue r store_ key = (x ← typed v; Val (Some x)) /\ config_value r store_ key = typed v /\
      valueOr r store_ key fallback = typed v /\
      valueOrThrow r store_ key err = catch_any (typed v) (Exc (ConfigError err)) /\
      arrayOr store_ key arrays = Val (match v with JArray l => l | _ => arrays end) /\
      section store_ key = match v with JObject _ => Val v | _ => Exc (LogicError ("No section found at '" +:+ key +:+ "'")) end
  | Absent =>
      config_contains store_ key = Val false /\ maybeValue r store_ key = Val None /\ config_value r store_ key = Exc NoValue /\
      valueOr r store_ key fallback = Val fallback /\ valueOrThrow r store_ key err = Exc (ConfigError err) /\
      arrayOr store_ key arrays = Val arrays /\ section store_ key = Exc (LogicError ("No section found at '" +:+ key +:+ "'"))
  | Blocked p =>
      config_contains store_ key = Exc (blocked p) /\ maybeValue r store_ key = Exc (blocked p) /\
      config_value r store_ key = Exc (blocked p) /\ valueOr r store_ key fallback = Val fallback /\
      valueOrThrow r store_ key err = Exc (ConfigError err) /\
      arrayOr store_ key arrays = Val arrays /\ section store_ key = Exc (blocked p)
  end /\
  search [] path (nest path store_) = Here store_ /\
  (forall bad, (forall p, p <> [] -> Forall name_ok p -> bad <> join p) ->
     exists m, valueOr r store_ bad fallback = Exc (KeyException m) /\ arrayOr store_ bad arrays = Exc (KeyException m) /\
       section store_ bad = Exc (KeyException m) /\ config_contains store_ bad = Exc (KeyException m)).
Proof.
  intros Hs Hne Hp key typed. split_and!; [|apply search_nest|].
  - pose proof (lookup_search store_ path Hs Hne Hp) as Hl. fold key in Hl. unfold config_contains, config_value, valueOr, valueOrThrow,
      config_value, maybeValue, arrayOr, maybeArray, section. rewrite Hl.
    destruct (search [] path store_) as [v| |p]; cbn; split_and!; try done.
    + fold (typed v). by destruct (typed v).
    + apply checked_or.
    + fold (typed v). by destruct (typed v).
    + by destruct v.
    + by destruct v.
  - intros bad Hbad. destruct (lookup_bad store_ bad Hs Hbad) as [m Hl]. exists m.
    unfold config_contains, valueOr, maybeValue, arrayOr, maybeArray, section. by rewrite Hl.
Qed.

(** A section with a limit that is no number and one that is too large. *)
Definition sample_config : json :=
  JObject [("dos_guard", JObject [("max_fetches", JInt64 500); ("max_requests", JString "many"); ("max_connections", JInt64 (2 ^ 40))]);
           ("cache", JBool false)].

Lemma config_lookup_witness :
  valueOr uint32_ sample_config "dos_guard.max_fetches" 1000000 = Val 500 /\
  valueOr uint32_ sample_config "dos_guard.sweep" 1 = Val 1 /\
  config_contains sample_config "cache.load" = Exc (StoreException "Not an object at 'cache.load'") /\
  valueOr uint32_ sample_config "cache.load" 7 = Val 7 /\
  (exists m, valueOr uint32_ sample_config "cache..load" 7 = Exc (KeyException m)).
Proof.
  assert (sample_config <> JNull) as Hs by done.
  assert (forall a b, name_ok a -> name_ok b -> Forall name_ok [a; b]) as Hp by (intros; by repeat apply Forall_cons_2).
  pose proof (fun a b (Ha : name_ok a) (Hb : name_ok b) =>
    config_lookup uint32_ sample_config [a; b] 7 [] "" Hs ltac:(done) (Hp a b Ha Hb)) as H.
  pose proof (H "dos_guard" "max_fetches" ltac:(by split) ltac:(by split)) as [(_ & _ & _ & H1 & _) _].
  pose proof (H "cache" "load" ltac:(by split) ltac:(by split)) as [(H2 & _ & _ & H3 & _) (_ & H4)].
  split; [exact H1|]. split; [reflexivity|]. split; [exact H2|]. split; [exact H3|].
  destruct (H4 "cache..load") as (m & H5 & _); [|by exists m].
  intros p Hne Hok Heq. assert (Tokenizer "cache..load" = Val p) as Ht by by apply tokens_spec. discriminate.
Defined.
