(* ===== verification/Settings.v ===== *)
(** What the parts of the program take from the configuration: the constructors
    of the rate limiter, of the extraction service, of the balancer and of the
    cache of forwarded answers, the backend factory, and the levels of the log
    ([webserver/DOSGuard.h], [etl/ReportingETL.cpp], [etl/ETLSource.cpp],
    [etl/ETLSource.h], [backend/BackendFactory.h], [log/Logger.cpp]).

    [settings_bounds]: the numbers that are read fit their types, the number of
    markers is between 1 and 256, and the test of [online_delete] against the
    greatest number of its type never holds. [ttl_wraps]: the lifetime of the data
    is computed in 32 bits. *)

From stdpp Require Import base list strings gmap.
From Stdlib Require Import ZArith Lia Ascii.
From S2P Require Import Prelude Types Json Errors Requests Subscriptions Directory Rpc Validators DosGuard Config.

#[local] Open Scope string_scope.
#[local] Open Scope list_scope.
Open Scope Z_scope.

Fixpoint cfg_map {A B} (f : A -> Cfg B) (l : list A) : Cfg (list B) :=
  match l with [] => Val [] | a :: l' => b ← f a; bs ← cfg_map f l'; Val (b :: bs) end.

(** ** The rate limiter *)

Definition getWhitelist (config : json) : Cfg (gset string) :=
  whitelist ← arrayOr config "dos_guard.whitelist" [];
  ips ← cfg_map (fun elem => self_value RString elem) whitelist;
  Val (list_to_set ips).

Definition DOSGuard_make (config : json) : Cfg DOSGuard :=
  whitelist ← getWhitelist config;
  maxFetches ← valueOr uint32_ config "dos_guard.max_fetches" 1000000;
  maxConnCount ← valueOr uint32_ config "dos_guard.max_connections" 20;
  maxRequestCount ← valueOr uint32_ config "dos_guard.max_requests" 20;
  Val (mkDOSGuard ∅ ∅ whitelist maxFetches maxConnCount maxRequestCount).

(** ** The extraction service *)

Inductive CacheLoadStyle := ASYNC | SYNC | NOT_AT_ALL.

Record ClioPeer := mkClioPeer { peer_ip : string; peer_port : Z }.

Record EtlSettings := mkEtlSettings {
  startSequence_ : option Z; finishSequence_ : option Z; readOnly_ : bool; onlineDeleteInterval_ : option Z;
  extractorThreads_ : Z; txnThreshold_ : Z; cacheLoadStyle_ : CacheLoadStyle; numCacheDiffs_ : Z;
  numCacheMarkers_ : Z; cachePageFetchSize_ : Z; clioPeers : list ClioPeer }.

(** The three tests one after the other: the last that holds counts. *)
Definition load_style (entry : string) (style : CacheLoadStyle) : CacheLoadStyle :=
  let style := if iequals entry "sync" then SYNC else style in
  let style := if iequals entry "async" then ASYNC else style in
  if iequals entry "none" || iequals entry "no" then NOT_AT_ALL else style.

(** The port is kept in 32 bits with a sign. *)
Definition read_peer (peer : json) : Cfg ClioPeer :=
  ip ← config_value RString peer "ip";
  port ← config_value uint32_ peer "port";
  Val (mkClioPeer ip (if port <? 2 ^ 31 then port else port - 2 ^ 32)).

(** [std::shuffle] is given: some reordering of a list. *)
Definition ReportingETL_make (shuffle : list ClioPeer -> list ClioPeer) (config : json) : Cfg EtlSettings :=
  startSequence ← maybeValue uint32_ config "start_sequence";
  finishSequence ← maybeValue uint32_ config "finish_sequence";
  readOnly ← valueOr RBool config "read_only" false;
  interval ← maybeValue uint32_ config "online_delete";
  onlineDelete ← match interval with
                 | Some i =>
                     if i >? 2 ^ 32 - 1 then Exc (ConfigError "online_delete cannot be greater than 4294967295")
                     else Val (if i >? 0 then Some i else None)
                 | None => Val None
                 end;
  extractorThreads ← valueOr uint32_ config "extractor_threads" 1;
  txnThreshold ← valueOr uint64_ config "txn_threshold" 0;
  hasCache ← config_contains config "cache";
  if (hasCache : bool) then
    cache ← section config "cache";
    entry ← maybeValue RString cache "load";
    let style := match entry with Some e => load_style e ASYNC | None => ASYNC end in
    numCacheDiffs ← valueOr uint64_ cache "num_diffs" 32;
    numCacheMarkers ← valueOr uint64_ cache "num_markers" 48;
    cachePageFetchSize ← valueOr uint64_ cache "page_fetch_size" 512;
    peers ← maybeArray cache "peers";
    clioPeers ← match peers with Some ps => l ← cfg_map read_peer ps; Val (shuffle l) | None => Val [] end;
    Val (mkEtlSettings startSequence finishSequence readOnly onlineDelete extractorThreads txnThreshold
           style numCacheDiffs numCacheMarkers cachePageFetchSize clioPeers)
  else
    Val (mkEtlSettings startSequence finishSequence readOnly onlineDelete extractorThreads txnThreshold
           ASYNC 32 48 512 []).

(** ** The balancer *)

(** [downloadRanges_]; whether the database has a range is only asked without
    a setting. *)
Definition downloadRanges_make (config : json) (has_range : bool) : Cfg Z :=
  value ← maybeValue uint32_ config "num_markers";
  Val (match value with Some v => Z.max 1 (Z.min v 256) | None => if has_range then 4 else 16 end).

(** ** The factory of the backend *)

(** The section for the backend, the lifetime of its data, and whether it only
    reads. *)
Definition backend_settings (config : json) : Cfg (json * Z * bool) :=
  readOnly ← valueOr RBool config "read_only" false;
  type ← config_value RString config "database.type";
  if iequals type "cassandra" then
    cfg ← section config ("database." +:+ type);
    online_delete ← valueOr uint32_ config "online_delete" 0;
    Val (cfg, u32 (online_delete * 4), readOnly)
  else Exc (ConfigError "Invalid database type").

(** ** The levels of the log *)

Inductive Severity := TRC | DBG | NFO | WRN | ERR | FTL.

(** The conversion of a level: not a string, or a string that names none. *)
Definition severity_of (value : json) : Cfg Severity :=
  match value with
  | JString s =>
      if iequals s "trace" then Val TRC else if iequals s "debug" then Val DBG else if iequals s "info" then Val NFO
      else if iequals s "warning" || iequals s "warn" then Val WRN else if iequals s "error" then Val ERR
      else if iequals s "fatal" then Val FTL
      else Exc (ConfigError "Could not parse `log_level`: expected `trace`, `debug`, `info`, `warning`, `error` or `fatal`")
  | _ => Exc (ConfigError "`log_level` must be a string")
  end.

(** [valueOr<Severity>]: the type is none of those that [checkedAs] looks at. *)
Definition severityOr (store_ : json) (key : string) (fallback : Severity) : Cfg Severity :=
  catch_store (maybe_element ← lookup_ store_ key;
               match maybe_element with Some element => severity_of element | None => Val fallback end) (Val fallback).

Definition channels : list string := ["General"; "WebServer"; "Backend"; "RPC"; "ETL"; "Subscriptions"; "Performance"].

Fixpoint log_overrides (defaultSeverity : Severity) (overrides : list json) (levels : gmap string Severity)
  : Cfg (gmap string Severity) :=
  match overrides with
  | [] => Val levels
  | cfg :: rest =>
      name ← valueOrThrow RString cfg "channel" "Channel name is required";
      if negb (bool_decide (name ∈ channels)) then
        Exc (ConfigError ("Can't override settings for log channel " +:+ name +:+ ": invalid channel"))
      else
        level ← severityOr cfg "log_level" defaultSeverity;
        log_overrides defaultSeverity rest (<[name := level]> levels)
  end.

(** The filter that [LogService::init] sets. *)
Definition log_levels (config : json) : Cfg (gmap string Severity) :=
  defaultSeverity ← severityOr config "log_level" NFO;
  overrides ← arrayOr config "log_channels" [];
  log_overrides defaultSeverity overrides (<["Alert" := WRN]> (list_to_map ((fun c => (c, defaultSeverity)) <$> channels))).

(** ** What is read *)

Lemma maybeValue_bounds name lo hi store_ key z :
  maybeValue (RInteger name lo hi) store_ key = Val (Some z) -> lo <= z <= hi.
Proof.
  unfold maybeValue. destruct (lookup_ store_ key) as [[v|]|e]; cbn; [|done..].
  destruct v; cbn; try done; destruct ((lo <=? z0) && (z0 <=? hi)) eqn:Hb; try done; intros [= ->]; lia.
Qed.

Lemma valueOr_bounds name lo hi store_ key fallback z :
  lo <= fallback <= hi -> valueOr (RInteger name lo hi) store_ key fallback = Val z -> lo <= z <= hi.
Proof.
  intros Hf. unfold valueOr.
  destruct (maybeValue (RInteger name lo hi) store_ key) as [[v|]|e] eqn:Hv; cbn.
  - intros [= <-]. by eapply maybeValue_bounds.
  - by intros [= <-].
  - destruct e; cbn; try done. by intros [= <-].
Qed.

Theorem settings_bounds (config : json) :
  (forall g, DOSGuard_make config = Val g ->
     ipState_ g = ∅ /\ ipConnCount_ g = ∅ /\
     0 <= maxFetches_ g < 2 ^ 32 /\ 0 <= maxConnCount_ g < 2 ^ 32 /\ 0 <= maxRequestCount_ g < 2 ^ 32) /\
  (forall has_range n, downloadRanges_make config has_range = Val n -> 1 <= n <= 256) /\
  (forall key i, maybeValue uint32_ config key = Val (Some i) -> (i >? 2 ^ 32 - 1) = false).
Proof.
  split_and!.
  - intros g. unfold DOSGuard_make. destruct (getWhitelist config) as [w|]; cbn -[valueOr]; [|done].
    destruct (valueOr uint32_ config "dos_guard.max_fetches" 1000000) as [a|] eqn:Ha; cbn -[valueOr]; [|done].
    destruct (valueOr uint32_ config "dos_guard.max_connections" 20) as [b|] eqn:Hb; cbn -[valueOr]; [|done].
    destruct (valueOr uint32_ config "dos_guard.max_requests" 20) as [c|] eqn:Hc; cbn; [|done].
    apply valueOr_bounds in Ha; [|lia]. apply valueOr_bounds in Hb; [|lia]. apply valueOr_bounds in Hc; [|lia].
    intros [= <-]. cbn. split_and!; lia || done.
  - intros has_range n. unfold downloadRanges_make.
    destruct (maybeValue uint32_ config "num_markers") as [[v|]|]; cbn; [|destruct has_range|done]; intros [= <-]; lia.
  - intros key i Hi. apply maybeValue_bounds in Hi. lia.
Qed.

(** A quarter of 2^32 ledgers to keep: no lifetime at all, which means for ever. *)
Example ttl_wraps :
  backend_settings (JObject [("database", JObject [("type", JString "cassandra"); ("cassandra", JObject [])]);
                             ("online_delete", JInt64 (2 ^ 30))]) = Val (JObject [], 0, false).
Proof. reflexivity. Qed.
