(* ===== verification/Probing.v ===== *)
(** The connection to one node ([etl/ProbingETLSource.cpp], and of
    [etl/ETLSource.cpp] and [ETLSource.h] the callbacks of a connection): a
    source that probes two, one with and one without TLS, and selects the first
    whose websocket handshake succeeds.

    What is under way at a source are operations of Boost.Asio and Boost.Beast,
    each of which completes once, with an error code or without; the state is a
    transition system whose events are the completions in any order. A callback
    is one step: the callbacks of a source source_run on its strand, and what they share
    with those of the other is the selection, which is under a mutex. An
    operation on a stream that has been replaced can only fail.

    [select_inv]: who is selected and who is paused. [close_inv]: a stream is
    closed once at a time, and not replaced while it is being closed.
    [probing_safety] puts them together. [probing_loss]: after a loss both sources
    try again, when a message had been read before; when none had, never. *)

From stdpp Require Import base list relations.
From Stdlib Require Import ZArith Lia.
From S2P Require Import Prelude.

Open Scope Z_scope.

(** ** A source *)

Inductive Kind := Plain | Ssl.

#[export] Instance Kind_eq_dec : EqDecision Kind.
Proof. solve_decision. Defined.

Definition other (k : Kind) : Kind := match k with Plain => Ssl | Ssl => Plain end.

(** A wait for the timer is cancelled, or runs until it has expired, when it can
    no longer be cancelled. *)
Inductive Wait := Running | Expired | Cancelled.

(** The operations under way: those on a stream with its number. *)
Inductive SourceOp :=
| OResolve
| OConnect (stream : nat)
| OSslHandshake (stream : nat)
| OHandshake (stream : nat)
| OWrite (stream : nat)
| ORead (stream : nat)
| OWait (w : Wait)
| OPost (startAgain : bool)
| OClose (stream : nat) (startAgain : bool).

#[export] Instance Wait_eq_dec : EqDecision Wait.
Proof. solve_decision. Defined.
#[export] Instance SourceOp_eq_dec : EqDecision SourceOp.
Proof. solve_decision. Defined.

(** [ws_] is the number of the stream, [ws_open] whether it is open. *)
Record Source := mkSource {
  paused_ : bool; connected_ : bool; closing_ : bool; ws_ : nat; ws_open : bool; numFailures_ : Z; ops : list SourceOp }.

Definition set_paused (b : bool) (s : Source) : Source :=
  mkSource b (connected_ s) (closing_ s) (ws_ s) (ws_open s) (numFailures_ s) (ops s).
Definition set_connected (b : bool) (s : Source) : Source :=
  mkSource (paused_ s) b (closing_ s) (ws_ s) (ws_open s) (numFailures_ s) (ops s).
Definition set_closing (b : bool) (s : Source) : Source :=
  mkSource (paused_ s) (connected_ s) b (ws_ s) (ws_open s) (numFailures_ s) (ops s).
Definition set_open (b : bool) (s : Source) : Source :=
  mkSource (paused_ s) (connected_ s) (closing_ s) (ws_ s) b (numFailures_ s) (ops s).
Definition set_failures (n : Z) (s : Source) : Source :=
  mkSource (paused_ s) (connected_ s) (closing_ s) (ws_ s) (ws_open s) n (ops s).
Definition set_ops (l : list SourceOp) (s : Source) : Source :=
  mkSource (paused_ s) (connected_ s) (closing_ s) (ws_ s) (ws_open s) (numFailures_ s) l.

Definition begin_op (o : SourceOp) (s : Source) : Source := set_ops (ops s ++ [o]) s.

Definition source_run (s : Source) : Source := begin_op OResolve s.

Definition new_stream (s : Source) : Source :=
  mkSource (paused_ s) (connected_ s) (closing_ s) (S (ws_ s)) false (numFailures_ s) (ops s).

Definition cancel_wait (o : SourceOp) : SourceOp := match o with OWait Running => OWait Cancelled | _ => o end.

Definition timer_cancel (s : Source) : Source := set_ops (cancel_wait <$> ops s) s.

(** [close]: cancel the timer and post. *)
Definition close (startAgain : bool) (s : Source) : Source := begin_op (OPost startAgain) (timer_cancel s).

(** What is posted. *)
Definition close_posted (startAgain : bool) (s : Source) : Source :=
  if closing_ s then s
  else if ws_open s then begin_op (OClose (ws_ s) startAgain) (set_closing true s)
  else if startAgain then source_run (new_stream s) else s.

(** The completion of [async_close]. *)
Definition closed (startAgain : bool) (s : Source) : Source :=
  let s := set_open false (set_closing false s) in
  if startAgain then source_run (new_stream s) else s.

Definition pause (s : Source) : Source := close false (set_paused true s).
Definition resume (s : Source) : Source := close true (set_paused false s).

(** [min(pow(2, numFailures_), 30.0)] in whole seconds. *)
Definition waitTime (numFailures : Z) : Z := Z.min (2 ^ numFailures) 30.

(** The rest of [reconnect], after the hook. Setting the time of the timer
    cancels the waits before. *)
Definition schedule_retry (s : Source) : Source :=
  begin_op (OWait Running) (timer_cancel (set_failures (numFailures_ s + 1) (set_connected false s))).

(** ** The two sources and their hooks *)

Record Probing := mkProbing { plainSrc_ : Source; sslSrc_ : Source; currentSrc_ : option Kind }.

Definition src (k : Kind) (p : Probing) : Source := match k with Plain => plainSrc_ p | Ssl => sslSrc_ p end.

Definition upd (k : Kind) (f : Source -> Source) (p : Probing) : Probing :=
  match k with
  | Plain => mkProbing (f (plainSrc_ p)) (sslSrc_ p) (currentSrc_ p)
  | Ssl => mkProbing (plainSrc_ p) (f (sslSrc_ p)) (currentSrc_ p)
  end.

Definition set_current (c : option Kind) (p : Probing) : Probing := mkProbing (plainSrc_ p) (sslSrc_ p) c.

Inductive HookAction := STOP | PROCEED.

Definition onConnected (k : Kind) (ok : bool) (p : Probing) : HookAction * Probing :=
  match currentSrc_ p with
  | Some _ => (STOP, p)
  | None => (PROCEED, if ok then set_current (Some k) (upd (other k) pause p) else p)
  end.

Definition onDisconnected (k : Kind) (p : Probing) : Probing :=
  match currentSrc_ p with
  | Some _ => upd (other k) resume (set_current None p)
  | None => p
  end.

Definition reconnect (k : Kind) (p : Probing) : Probing :=
  if paused_ (src k p) then p
  else
    let p := if connected_ (src k p) then onDisconnected k p else p in
    upd k schedule_retry p.

(** ** The callbacks *)

Definition onResolve (k : Kind) (ok : bool) (p : Probing) : Probing :=
  if ok then upd k (fun s => begin_op (OConnect (ws_ s)) s) p else reconnect k p.

Definition onConnect (k : Kind) (ok : bool) (p : Probing) : Probing :=
  if ok then
    upd k (fun s => begin_op (match k with Plain => OHandshake (ws_ s) | Ssl => OSslHandshake (ws_ s) end) (set_failures 0 s)) p
  else reconnect k p.

Definition onSslHandshake (k : Kind) (ok : bool) (p : Probing) : Probing :=
  if ok then upd k (fun s => begin_op (OHandshake (ws_ s)) s) p else reconnect k p.

Definition onHandshake (k : Kind) (ok : bool) (p : Probing) : Probing :=
  match onConnected k ok p with
  | (STOP, p) => p
  | (PROCEED, p) => if ok then upd k (fun s => begin_op (OWrite (ws_ s)) s) p else reconnect k p
  end.

Definition onWrite (k : Kind) (ok : bool) (p : Probing) : Probing :=
  if ok then upd k (fun s => begin_op (ORead (ws_ s)) s) p else reconnect k p.

(** Of [handleMessage] the connection sees [connected_ = true]. *)
Definition onRead (k : Kind) (ok : bool) (p : Probing) : Probing :=
  if ok then upd k (fun s => begin_op (ORead (ws_ s)) (set_connected true s)) p else reconnect k p.

(** ** Events *)

(** The operation at a position of a source's completes, with or without an
    error, the stream being open or not afterwards; or a wait expires. *)
Inductive SourceEvent :=
| Complete (k : Kind) (i : nat) (ok : bool) (still_open : bool)
| Expire (k : Kind) (i : nat).

Definition take_op (k : Kind) (i : nat) (p : Probing) : Probing := upd k (fun s => set_ops (delete i (ops s)) s) p.

(** An operation on a stream completes: without an error only if it is the stream
    of the source. A websocket handshake opens it, an error may close it. *)
Definition on_stream (k : Kind) (stream : nat) (ok opens still_open : bool) (p : Probing) : option Probing :=
  if decide (stream = ws_ (src k p)) then
    Some (if ok then (if opens : bool then upd k (set_open true) p else p)
          else if still_open then p else upd k (set_open false) p)
  else if ok then None else Some p.

Definition complete_op (k : Kind) (i : nat) (ok still_open : bool) (p : Probing) : option Probing :=
  o ← ops (src k p) !! i;
  let p := take_op k i p in
  match o with
  | OResolve => Some (onResolve k ok p)
  | OConnect n => onConnect k ok <$> on_stream k n ok false still_open p
  | OSslHandshake n => onSslHandshake k ok <$> on_stream k n ok false still_open p
  | OHandshake n => onHandshake k ok <$> on_stream k n ok true still_open p
  | OWrite n => onWrite k ok <$> on_stream k n ok false still_open p
  | ORead n => onRead k ok <$> on_stream k n ok false still_open p
  | OWait Running => None
  | OWait Expired => Some (upd k (close true) p)
  | OWait Cancelled => Some (upd k (close false) p)
  | OPost startAgain => Some (upd k (close_posted startAgain) p)
  | OClose _ startAgain => Some (upd k (closed startAgain) p)
  end.

Definition event (e : SourceEvent) (p : Probing) : option Probing :=
  match e with
  | Complete k i ok still_open => complete_op k i ok still_open p
  | Expire k i =>
      match ops (src k p) !! i with
      | Some (OWait Running) => Some (upd k (fun s => set_ops (<[i := OWait Expired]> (ops s)) s) p)
      | _ => None
      end
  end.

Definition events (l : list SourceEvent) (p : Probing) : option Probing := foldl (fun o e => o ≫= event e) (Some p) l.

Definition source_start : Source := mkSource false false false 0 false 0 [].

(** The constructor, and [run]. *)
Definition probing_start : Probing := upd Plain source_run (upd Ssl source_run (mkProbing source_start source_start None)).

Definition probing_step (p p' : Probing) : Prop := exists e, event e p = Some p'.
Definition probing_reachable (p : Probing) : Prop := rtc probing_step probing_start p.

(** [isConnected] *)
Definition probing_isConnected (p : Probing) : bool :=
  match currentSrc_ p with Some k => connected_ (src k p) | None => false end.

(** ** Updates *)

Lemma other_other k : other (other k) = k.
Proof. by destruct k. Qed.

Lemma other_ne k : other k <> k.
Proof. by destruct k. Qed.

Lemma src_upd k f p : src k (upd k f p) = f (src k p).
Proof. by destruct k. Qed.

Lemma src_upd_other k f p : src (other k) (upd k f p) = src (other k) p.
Proof. by destruct k. Qed.

Lemma src_other_upd k f p : src k (upd (other k) f p) = src k p.
Proof. by destruct k. Qed.

Lemma current_upd k f p : currentSrc_ (upd k f p) = currentSrc_ p.
Proof. by destruct k. Qed.

Lemma src_current k c p : src k (set_current c p) = src k p.
Proof. by destruct k. Qed.

(** ** Selected and paused *)

Definition select_inv (p : Probing) : Prop :=
  match currentSrc_ p with
  | None => forall k, paused_ (src k p) = false
  | Some k => paused_ (src k p) = false /\ paused_ (src (other k) p) = true
  end.

(** ** One close at a time *)

Definition is_close (o : SourceOp) : bool := match o with OClose _ _ => true | _ => false end.
Definition is_write (o : SourceOp) : bool := match o with OWrite _ => true | _ => false end.

Definition closes (l : list SourceOp) : list SourceOp := filter is_close l.
Definition writes (l : list SourceOp) : list SourceOp := filter is_write l.

Definition close_inv (s : Source) : Prop :=
  if closing_ s then exists again, closes (ops s) = [OClose (ws_ s) again] else closes (ops s) = [].

Lemma filter_bool_cons {A} (f : A -> bool) x l : filter f (x :: l) = if f x then x :: filter f l else filter f l.
Proof. rewrite filter_cons. case_decide as H; destruct (f x); [done | destruct H | destruct H; exact I | done]. Qed.

Lemma closes_cancel l : closes (cancel_wait <$> l) = closes l.
Proof.
  induction l as [|o l IH]; [done|]. cbn [fmap list_fmap]. unfold closes in *.
  rewrite !filter_bool_cons, IH. by destruct o as [| | | | | |[]| |].
Qed.

Lemma writes_cancel l : writes (cancel_wait <$> l) = writes l.
Proof.
  induction l as [|o l IH]; [done|]. cbn [fmap list_fmap]. unfold writes in *.
  rewrite !filter_bool_cons, IH. by destruct o as [| | | | | |[]| |].
Qed.

Lemma start_close o s : is_close o = false -> close_inv s -> close_inv (begin_op o s).
Proof.
  unfold close_inv, begin_op, closes. cbn. intros Ho.
  by rewrite filter_app, filter_bool_cons, Ho, filter_nil, app_nil_r.
Qed.

Lemma cancel_close s : close_inv s -> close_inv (timer_cancel s).
Proof. unfold close_inv, timer_cancel. cbn. by rewrite closes_cancel. Qed.

Lemma filter_at (f : SourceOp -> bool) i o l :
  l !! i = Some o ->
  filter f l = filter f (take i l) ++ (if f o then [o] else []) ++ filter f (drop (S i) l) /\
  filter f (delete i l) = filter f (take i l) ++ filter f (drop (S i) l) /\
  forall o', filter f (<[i := o']> l) = filter f (take i l) ++ (if f o' then [o'] else []) ++ filter f (drop (S i) l).
Proof.
  intros Hi. rewrite delete_take_drop, filter_app. split_and!; [|done|].
  - rewrite <- (take_drop_middle l i o Hi) at 1. rewrite filter_app, filter_bool_cons. by destruct (f o).
  - intros o'. rewrite insert_take_drop by (by eapply lookup_lt_Some). rewrite filter_app, filter_bool_cons. by destruct (f o').
Qed.

Lemma delete_close i o s : ops s !! i = Some o -> is_close o = false -> close_inv s -> close_inv (set_ops (delete i (ops s)) s).
Proof.
  intros Hi Ho. destruct (filter_at is_close _ _ _ Hi) as (H1 & H2 & _). rewrite Ho in H1. cbn in H1. unfold close_inv, closes.
  change (ops (set_ops _ _)) with (delete i (ops s)). cbn [closing_ ws_ set_ops]. by rewrite H2, <- H1.
Qed.

(** The close that completes is the only one. *)
Lemma delete_closing i n again s :
  ops s !! i = Some (OClose n again) -> close_inv s -> n = ws_ s /\ closing_ s = true /\ closes (delete i (ops s)) = [].
Proof.
  intros Hi. destruct (filter_at is_close _ _ _ Hi) as (H1 & H2 & _). cbn in H1. unfold close_inv, closes. rewrite H1, H2.
  destruct (filter _ (take i (ops s))) as [|y a], (closing_ s); cbn; try done.
  - intros [x Hx]. injection Hx as Hx1 Hx2 Hx3. by rewrite Hx3.
  - intros [x Hx]. injection Hx as Hx1 Hx2. by destruct a.
Qed.

Lemma close_close b s : close_inv s -> close_inv (close b s).
Proof. intros H. by apply start_close, cancel_close. Qed.

Lemma new_stream_close s : closing_ s = false -> close_inv s -> close_inv (source_run (new_stream s)).
Proof. intros Hc H. apply start_close; [done|]. unfold close_inv in *. cbn. by rewrite Hc in *. Qed.

Lemma posted_close b s : close_inv s -> close_inv (close_posted b s).
Proof.
  intros H. unfold close_posted. destruct (closing_ s) eqn:Hc; [done|]. destruct (ws_open s).
  - unfold close_inv in *. rewrite Hc in H. cbn. exists b. unfold closes in *. by rewrite filter_app, H.
  - destruct b; [by apply new_stream_close | done].
Qed.

Lemma closed_close b s : closes (ops s) = [] -> close_inv (closed b s).
Proof. intros H. unfold closed. destruct b; [by apply new_stream_close|]. done. Qed.

Lemma retry_close s : close_inv s -> close_inv (schedule_retry s).
Proof. intros H. apply start_close, cancel_close; done. Qed.

(** ** Both, through every callback *)

Record probing_inv (p : Probing) : Prop := {
  pi_select : select_inv p;
  pi_close : forall k, close_inv (src k p) }.

(** A change that keeps who is paused. *)
Lemma upd_inv k f p :
  paused_ (f (src k p)) = paused_ (src k p) -> close_inv (f (src k p)) -> probing_inv p -> probing_inv (upd k f p).
Proof.
  intros Hf Hc [Hs Ho]. split.
  - unfold select_inv in *. rewrite current_upd. destruct k, (currentSrc_ p) as [[]|]; cbn in *; rewrite ?Hf; try done.
    all: intros j; destruct j; cbn; rewrite ?Hf; [apply (Hs Plain) | apply (Hs Ssl)].
  - intros j. destruct k, j; cbn; try done; [apply (Ho Ssl) | apply (Ho Plain)].
Qed.

Lemma onDisconnected_inv k p : paused_ (src k p) = false -> probing_inv p -> probing_inv (onDisconnected k p).
Proof.
  intros Hk [Hs Hc]. unfold onDisconnected. destruct (currentSrc_ p) as [c|] eqn:He; [|by split].
  unfold select_inv in Hs. rewrite He in Hs. split.
  - unfold select_inv. rewrite current_upd. cbn. destruct Hs as [Hs1 Hs2].
    intros j. destruct k, c, j; cbn in *; congruence.
  - intros j. pose proof (Hc Plain). pose proof (Hc Ssl). destruct k, j; cbn in *; try done; by apply close_close.
Qed.

Lemma reconnect_inv k p : probing_inv p -> probing_inv (reconnect k p).
Proof.
  intros H. unfold reconnect. destruct (paused_ (src k p)) eqn:Hk; [done|].
  assert (probing_inv (if connected_ (src k p) then onDisconnected k p else p)) as H'
    by (destruct (connected_ _); [by apply onDisconnected_inv | done]).
  apply upd_inv; [done | apply retry_close, H' | done].
Qed.

Lemma onConnected_inv k ok p : probing_inv p -> probing_inv (onConnected k ok p).2.
Proof.
  intros [Hs Hc]. unfold onConnected. unfold select_inv in Hs.
  destruct (currentSrc_ p) as [c|] eqn:He; cbn; [split; [by unfold select_inv; rewrite He | done]|].
  destruct ok; [|split; [by unfold select_inv; rewrite He | done]]. split.
  - unfold select_inv. cbn. pose proof (Hs Plain). pose proof (Hs Ssl). by destruct k.
  - intros j. pose proof (Hc Plain). pose proof (Hc Ssl). destruct k, j; cbn in *; try done; by apply close_close.
Qed.

(** A step of the chain: [f] on success, another try on failure. *)
Lemma chain_inv k (ok : bool) f p :
  (forall s, paused_ (f s) = paused_ s) -> (forall s, close_inv s -> close_inv (f s)) -> probing_inv p ->
  probing_inv (if ok then upd k f p else reconnect k p).
Proof.
  intros Hp Hc H. destruct ok; [|by apply reconnect_inv]. apply upd_inv; [done | apply Hc, H | done].
Qed.

Lemma callbacks_inv k ok p :
  probing_inv p ->
  probing_inv (onResolve k ok p) /\ probing_inv (onConnect k ok p) /\ probing_inv (onSslHandshake k ok p) /\
  probing_inv (onHandshake k ok p) /\ probing_inv (onWrite k ok p) /\ probing_inv (onRead k ok p).
Proof.
  intros H. split_and!; try (apply chain_inv; [done | | done]); try (intros s Hs; by apply start_close).
  - intros s Hs. by destruct k; apply start_close.
  - unfold onHandshake. pose proof (onConnected_inv k ok p H) as H1. destruct (onConnected k ok p) as [[] p1]; [done|].
    apply chain_inv; [done | intros s Hs; by apply start_close | done].
Qed.

Lemma on_stream_inv k n ok opens still p p' : on_stream k n ok opens still p = Some p' -> probing_inv p -> probing_inv p'.
Proof.
  unfold on_stream. intros He H. assert (forall b, probing_inv (upd k (set_open b) p)) as Hu.
  { intros b. apply upd_inv; [done | apply H | done]. }
  destruct (decide _), ok, opens, still; try done; injection He as <-; eauto.
Qed.

Lemma event_inv e p p' : event e p = Some p' -> probing_inv p -> probing_inv p'.
Proof.
  intros He H. destruct e as [k i ok still|k i]; cbn [event] in He.
  - unfold complete_op in He. destruct (ops (src k p) !! i) as [o|] eqn:Hi; [|done]. cbn [mbind option_bind] in He.
    destruct (is_close o) eqn:Ho.
    + destruct o as [| | | | | | | |n again]; try done. injection He as <-.
      destruct (delete_closing i n again _ Hi (pi_close _ H k)) as (_ & _ & Hd).
      unfold take_op. replace (upd k (closed again) (upd k _ p)) with (upd k (fun s => closed again (set_ops (delete i (ops s)) s)) p)
        by (by destruct k). apply upd_inv; [by destruct again | by apply closed_close | done].
    + assert (probing_inv (take_op k i p)) as H1.
      { apply upd_inv; [done | | done]. eapply delete_close; [done..|apply H]. }
      assert (forall n opens (g : Probing -> Probing), (forall q, probing_inv q -> probing_inv (g q)) ->
        g <$> on_stream k n ok opens still (take_op k i p) = Some p' -> probing_inv p') as Hg.
      { intros n opens g Hg' Hm. apply fmap_Some in Hm as (q & Hq & ->). by eapply Hg', on_stream_inv. }
      pose proof (fun q Hq => callbacks_inv k ok q Hq) as Hcb.
      assert (forall f, (forall s, paused_ (f s) = paused_ s) -> (forall s, close_inv s -> close_inv (f s)) ->
        Some (upd k f (take_op k i p)) = Some p' -> probing_inv p') as Hu.
      { intros f Hf1 Hf2 [= <-]. apply upd_inv; [done | apply Hf2, H1 | done]. }
      destruct o as [|n|n|n|n|n|w|b|n b]; try done.
      * injection He as <-. by apply Hcb.
      * eapply Hg, He. by apply Hcb.
      * eapply Hg, He. by apply Hcb.
      * eapply Hg, He. by apply Hcb.
      * eapply Hg, He. by apply Hcb.
      * eapply Hg, He. by apply Hcb.
      * destruct w; [done| |]; (eapply Hu; [| |exact He]; [done | by intros s Hs; apply close_close]).
      * eapply Hu; [| |exact He]; [|by intros s Hs; apply posted_close].
        intros s. unfold close_posted. destruct (closing_ s), (ws_open s), b; done.
  - destruct (ops (src k p) !! i) as [[| | | | | |[]| |]|] eqn:Hi; try done. injection He as <-.
    apply upd_inv; [done | | done]. pose proof (pi_close _ H k) as Hc. unfold close_inv in *. cbn.
    replace (closes (<[i:=OWait Expired]> (ops (src k p)))) with (closes (ops (src k p))); [done|].
    destruct (filter_at is_close _ _ _ Hi) as (H1 & _ & H2). unfold closes. by rewrite H1, H2.
Qed.

Lemma probing_start_inv : probing_inv probing_start.
Proof. split; [by intros [] | by intros []]. Qed.

Lemma steps_inv p p' : rtc probing_step p p' -> probing_inv p -> probing_inv p'.
Proof. induction 1 as [|p q p' [e He] _ IH]; [done|]. intros H. eapply IH, event_inv; done. Qed.

(** ** Who subscribes *)

Definition subscribing (k : Kind) (p : Probing) : nat := length (writes (ops (src k p))).

Definition no_write (f : Source -> Source) : Prop :=
  forall s, (length (writes (ops (f s))) <= length (writes (ops s)))%nat.

Lemma upd_writes k j f p : no_write f -> (subscribing k (upd j f p) <= subscribing k p)%nat.
Proof. intros Hf. unfold subscribing. destruct k, j; cbn; done || apply Hf. Qed.

Lemma start_writes o s : is_write o = false -> writes (ops (begin_op o s)) = writes (ops s).
Proof. intros Ho. unfold writes. cbn. by rewrite filter_app, filter_bool_cons, Ho, filter_nil, app_nil_r. Qed.

Lemma close_writes b s : writes (ops (close b s)) = writes (ops s).
Proof. unfold close. rewrite start_writes by done. apply writes_cancel. Qed.

Lemma retry_writes s : writes (ops (schedule_retry s)) = writes (ops s).
Proof. unfold schedule_retry. rewrite start_writes by done. apply writes_cancel. Qed.

Lemma delete_writes i : no_write (fun s => set_ops (delete i (ops s)) s).
Proof.
  intros s. cbn. destruct (ops s !! i) as [o|] eqn:Hi; cycle 1.
  { apply lookup_ge_None in Hi. rewrite delete_take_drop, take_ge, drop_ge, app_nil_r by lia. done. }
  destruct (filter_at is_write _ _ _ Hi) as (H1 & H2 & _). unfold writes. rewrite H1, H2, !length_app. lia.
Qed.

Lemma posted_writes b : no_write (close_posted b).
Proof.
  intros s. unfold close_posted. destruct (closing_ s); [done|].
  destruct (ws_open s); [by rewrite start_writes|]. destruct b; [|done]. unfold source_run. by rewrite start_writes.
Qed.

Lemma closed_writes b : no_write (closed b).
Proof. intros s. unfold closed. destruct b; [|done]. unfold source_run. by rewrite start_writes. Qed.

Lemma reconnect_writes k j p : (subscribing k (reconnect j p) <= subscribing k p)%nat.
Proof.
  unfold reconnect. destruct (paused_ _); [done|].
  etransitivity; [apply upd_writes; intros s; by rewrite retry_writes|].
  destruct (connected_ _); [|done]. unfold onDisconnected. destruct (currentSrc_ p); [|done].
  etransitivity; [apply upd_writes; intros s; unfold resume; by rewrite close_writes|].
  unfold subscribing. by rewrite src_current.
Qed.

Lemma chain_writes k j (ok : bool) f p : no_write f -> (subscribing k (if ok then upd j f p else reconnect j p) <= subscribing k p)%nat.
Proof. intros Hf. destruct ok; [by apply upd_writes | apply reconnect_writes]. Qed.

Lemma start_no_write o : is_write o = false -> no_write (begin_op o).
Proof. intros Ho s. by rewrite start_writes. Qed.

Definition selected (k : Kind) (p p' : Probing) : Prop := currentSrc_ p = None /\ currentSrc_ p' = Some k.

Lemma handshake_writes k j ok p :
  (subscribing k p < subscribing k (onHandshake j ok p))%nat -> selected k p (onHandshake j ok p).
Proof.
  unfold onHandshake, onConnected, selected. destruct (currentSrc_ p) eqn:Hc; [lia|].
  destruct ok; [|pose proof (reconnect_writes k j p); lia]. intros Hlt. split; [done|]. rewrite current_upd. cbn.
  destruct (decide (k = j)) as [->|Hne]; [done|]. exfalso. revert Hlt. apply Nat.le_ngt.
  unfold subscribing. destruct k, j; try done; cbn -[close]; unfold pause; by rewrite close_writes.
Qed.

Lemma on_stream_writes k j n ok opens still p p' :
  on_stream j n ok opens still p = Some p' -> subscribing k p' = subscribing k p /\ currentSrc_ p' = currentSrc_ p.
Proof.
  unfold on_stream, subscribing. destruct (decide _), ok, opens, still; try done; intros [= <-]; destruct k, j; done.
Qed.

Lemma event_writes e k p p' : event e p = Some p' -> (subscribing k p < subscribing k p')%nat -> selected k p p'.
Proof.
  destruct e as [j i ok still|j i]; cbn [event].
  - unfold complete_op. destruct (ops (src j p) !! i) as [o|] eqn:Hi; [|done]. cbn [mbind option_bind].
    pose proof (upd_writes k j _ p (delete_writes i)) as Hd. fold (take_op j i p) in Hd.
    assert (currentSrc_ (take_op j i p) = currentSrc_ p) as Hcur by apply current_upd.
    assert (forall n opens (g : Probing -> Probing), (forall q, (subscribing k (g q) <= subscribing k q)%nat) ->
      g <$> on_stream j n ok opens still (take_op j i p) = Some p' -> (subscribing k p' <= subscribing k p)%nat) as Hg.
    { intros n opens g Hg' Hm. apply fmap_Some in Hm as (q & [Hq _]%(on_stream_writes k) & ->). specialize (Hg' q). lia. }
    assert (forall f, no_write f -> Some (upd j f (take_op j i p)) = Some p' -> (subscribing k p' <= subscribing k p)%nat) as Hu.
    { intros f Hf [= <-]. pose proof (upd_writes k j f (take_op j i p) Hf). lia. }
    assert (forall q q', (subscribing k q' <= subscribing k q)%nat -> (subscribing k q < subscribing k q')%nat -> selected k q q') as Hno
      by (intros; lia).
    destruct o as [|n|n|n|n|n|w|b|n b]; intros He; [apply Hno|apply Hno|apply Hno| |apply Hno..].
    + injection He as <-. etransitivity; [|exact Hd]. apply chain_writes. intros s. by apply start_no_write.
    + eapply Hg, He. intros q. apply chain_writes. intros s. by destruct j; rewrite start_writes.
    + eapply Hg, He. intros q. apply chain_writes. intros s. by apply start_no_write.
    + apply fmap_Some in He as (q & [Hq Hqc]%(on_stream_writes k) & ->). intros Hlt.
      unfold selected. rewrite <- Hcur, <- Hqc. apply handshake_writes. lia.
    + eapply Hg, He. intros q. apply chain_writes. intros s. by apply start_no_write.
    + eapply Hg, He. intros q. apply chain_writes. intros s. by rewrite start_writes.
    + destruct w; [done| |]; (eapply Hu, He; intros s; by rewrite close_writes).
    + eapply Hu, He. apply posted_writes.
    + eapply Hu, He. apply closed_writes.
  - destruct (ops (src j p) !! i) as [[| | | | | |[]| |]|] eqn:Hi; try done. intros [= <-].
    pose proof (upd_writes k j (fun s => set_ops (<[i:=OWait Expired]> (ops s)) s) p) as Hw.
    intros Hlt. exfalso. revert Hlt. apply Nat.le_ngt. unfold subscribing.
    destruct (decide (k = j)) as [->|Hne]; [|by destruct k, j].
    rewrite src_upd. cbn. destruct (filter_at is_write _ _ _ Hi) as (H1 & _ & H2). unfold writes. by rewrite H1, H2.
Qed.

(** ** Lost before the first message *)

Definition is_io (o : SourceOp) : bool := match o with OWrite _ | ORead _ => true | _ => false end.

(** A selected source that is not connected and has nothing to write or read. *)
Record lost (k : Kind) (p : Probing) : Prop := {
  lost_current : currentSrc_ p = Some k;
  lost_connected : connected_ (src k p) = false;
  lost_other : paused_ (src (other k) p) = true;
  lost_io : Forall (fun o => is_io o = false) (ops (src k p)) }.

Definition no_io (l : list SourceOp) : Prop := Forall (fun o => is_io o = false) l.

Lemma no_io_cancel l : no_io l -> no_io (cancel_wait <$> l).
Proof. unfold no_io. intros H. apply Forall_fmap. eapply Forall_impl; [exact H|]. by intros [| | | | | |[]| |]. Qed.

Lemma no_io_start o s : is_io o = false -> no_io (ops s) -> no_io (ops (begin_op o s)).
Proof. intros Ho Hs. cbn. apply Forall_app. split; [done|]. by apply Forall_singleton. Qed.

Lemma no_io_close b s : no_io (ops s) -> no_io (ops (close b s)).
Proof. intros H. apply no_io_start; [done|]. by apply no_io_cancel. Qed.

(** A change of either source. *)
Lemma lost_upd k j f p :
  (forall s, paused_ (f s) = paused_ s /\ (connected_ s = false -> connected_ (f s) = false) /\ (no_io (ops s) -> no_io (ops (f s)))) ->
  lost k p -> lost k (upd j f p).
Proof.
  intros Hf [H1 H2 H3 H4]. split; [by rewrite current_upd|..]; destruct k, j; cbn in *; try done.
  all: try (by rewrite (proj1 (Hf _))); apply (Hf _); done.
Qed.

Lemma lost_upd_other k f p :
  (forall s, paused_ (f s) = paused_ s) -> lost k p -> lost k (upd (other k) f p).
Proof.
  intros Hf [H1 H2 H3 H4]. split; [by rewrite current_upd|..]; destruct k; cbn in *; try done; by rewrite Hf.
Qed.

Lemma lost_reconnect k j p : lost k p -> lost k (reconnect j p).
Proof.
  intros H. unfold reconnect. destruct (paused_ (src j p)) eqn:Hp; [done|].
  destruct (decide (j = k)) as [->|Hne].
  - rewrite (lost_connected _ _ H). apply lost_upd; [|done]. intros s. split_and!; [done..|].
    intros Hs. apply no_io_start; [done|]. by apply no_io_cancel.
  - pose proof (lost_other _ _ H) as Ho. destruct j, k; cbn in *; congruence.
Qed.

Lemma lost_chain k j (ok : bool) f p :
  (forall s, paused_ (f s) = paused_ s /\ (connected_ s = false -> connected_ (f s) = false) /\ (no_io (ops s) -> no_io (ops (f s)))) ->
  lost k p -> lost k (if ok then upd j f p else reconnect j p).
Proof. intros Hf H. destruct ok; [by apply lost_upd | by apply lost_reconnect]. Qed.

Lemma lost_chain_other k (ok : bool) f p :
  (forall s, paused_ (f s) = paused_ s) -> lost k p -> lost k (if ok then upd (other k) f p else reconnect (other k) p).
Proof. intros Hf H. destruct ok; [by apply lost_upd_other | by apply lost_reconnect]. Qed.

Lemma lost_stream k j n ok opens still p p' : on_stream j n ok opens still p = Some p' -> lost k p -> lost k p'.
Proof.
  unfold on_stream. intros He H. assert (forall b, lost k (upd j (set_open b) p)) as Hu by (intros b; by apply lost_upd).
  destruct (decide _), ok, opens, still; try done; injection He as <-; eauto.
Qed.

Lemma lost_event k e p p' : event e p = Some p' -> lost k p -> lost k p'.
Proof.
  intros He H. destruct e as [j i ok still|j i]; cbn [event] in He.
  - unfold complete_op in He. destruct (ops (src j p) !! i) as [o|] eqn:Hi; [|done]. cbn [mbind option_bind] in He.
    assert (lost k (take_op j i p)) as H1.
    { apply lost_upd; [|done]. intros s. split_and!; [done..|]. cbn. by apply Forall_delete. }
    assert (forall n opens (g : Probing -> Probing), (forall q, lost k q -> lost k (g q)) ->
      g <$> on_stream j n ok opens still (take_op j i p) = Some p' -> lost k p') as Hg.
    { intros n opens g Hg' Hm. apply fmap_Some in Hm as (q & Hq & ->). by eapply Hg', lost_stream. }
    assert (is_io o = false \/ j = other k) as Ho.
    { destruct (decide (j = k)) as [->|Hne]; [left | right; by destruct j, k].
      pose proof (lost_io _ _ H) as Hio. by eapply Forall_lookup_1 in Hio. }
    destruct o as [|n|n|n|n|n|w|b|n b]; cbn in Ho.
    + injection He as <-. apply lost_chain; [|done]. intros s. split_and!; [done..|]. by apply no_io_start.
    + eapply Hg, He. intros q. apply lost_chain. intros s. split_and!; [done..|]. destruct j; by apply (no_io_start _ (set_failures 0 s)).
    + eapply Hg, He. intros q. apply lost_chain. intros s. split_and!; [done..|]. by apply no_io_start.
    + eapply Hg, He. intros q Hq. unfold onHandshake, onConnected. by rewrite (lost_current _ _ Hq).
    + destruct Ho as [ | -> ]; [done|]. eapply Hg, He. intros q. by apply lost_chain_other.
    + destruct Ho as [ | -> ]; [done|]. eapply Hg, He. intros q. by apply lost_chain_other.
    + destruct w; [done| |]; injection He as <-; (apply lost_upd; [|done]); intros s; split_and!; try done; apply no_io_close.
    + injection He as <-. apply lost_upd; [|done]. intros s. unfold close_posted.
      destruct (closing_ s), (ws_open s), b; split_and!; try done; intros Hs; by apply Forall_app_2; [|apply Forall_singleton].
    + injection He as <-. apply lost_upd; [|done]. intros s. unfold closed.
      destruct b; split_and!; try done; intros Hs; by apply Forall_app_2; [|apply Forall_singleton].
  - destruct (ops (src j p) !! i) as [[| | | | | |[]| |]|] eqn:Hi; try done. injection He as <-.
    apply lost_upd; [|done]. intros s. split_and!; [done..|]. cbn. intros Hs. by apply Forall_insert.
Qed.

Lemma lost_steps k p p' : rtc probing_step p p' -> lost k p -> lost k p'.
Proof. induction 1 as [|p q p' [e He] _ IH]; [done|]. intros H. eapply IH, lost_event; done. Qed.

(** C14: the two sources of a node. In every state that is reached, when none is
    selected neither is paused, and when one is it is not paused and the other
    is; a stream is closed once at a time, and the close under way is of the
    stream the source still has; and a source subscribes only in the step that
    selects it, from a state where none was, so that each selection is one
    subscription. The waits between attempts stay between one second and
    thirty. *)
Theorem probing_safety (p : Probing) :
  probing_reachable p ->
  match currentSrc_ p with
  | None => forall k, paused_ (src k p) = false
  | Some k => paused_ (src k p) = false /\ paused_ (src (other k) p) = true
  end /\
  (forall k, closes (ops (src k p)) = [] \/ exists again, closes (ops (src k p)) = [OClose (ws_ (src k p)) again]) /\
  (forall e p' k, event e p = Some p' -> (subscribing k p < subscribing k p')%nat ->
     currentSrc_ p = None /\ currentSrc_ p' = Some k /\ paused_ (src (other k) p') = true) /\
  (forall n, 0 <= n -> 1 <= waitTime n <= 30).
Proof.
  intros Hr. pose proof (steps_inv _ _ Hr probing_start_inv) as [Hs Hc]. split_and!; [exact Hs|..].
  - intros k. specialize (Hc k). unfold close_inv in Hc. destruct (closing_ _); [by right | by left].
  - intros e p' k He Hw. destruct (event_writes e k p p' He Hw) as [H1 H2]. split_and!; [done..|].
    destruct (event_inv e p p' He (Build_probing_inv p Hs Hc)) as [Hs' _]. unfold select_inv in Hs'. rewrite H2 in Hs'. apply Hs'.
  - intros n Hn. unfold waitTime. pose proof (Z.pow_pos_nonneg 2 n ltac:(lia) Hn). lia.
Qed.

(** C15: losing the selected source. When it has read a message, and the read is
    all there is under way, a failing read brings both sources back to resolving,
    neither selected nor paused. When it has not read one yet, being about to
    write the subscription or to read the answer, the same failure is for ever:
    whatever completes afterwards, in any order, it stays selected and
    unconnected, the other paused, and nothing is subscribed to or read. *)
Theorem probing_loss (p : Probing) (k : Kind) (n : nat) (still_open : bool) :
  currentSrc_ p = Some k -> paused_ (src k p) = false -> paused_ (src (other k) p) = true ->
  closing_ (src k p) = false -> closing_ (src (other k) p) = false ->
  (connected_ (src k p) = true -> ops (src k p) = [ORead n] -> ops (src (other k) p) = [] ->
     exists l p', events (Complete k 0 false still_open :: l) p = Some p' /\ currentSrc_ p' = None /\
       connected_ (src k p') = false /\ forall j, ops (src j p') = [OResolve] /\ paused_ (src j p') = false) /\
  (connected_ (src k p) = false -> ops (src k p) = [ORead n] \/ ops (src k p) = [OWrite n] ->
     forall p1 p', event (Complete k 0 false still_open) p = Some p1 -> rtc probing_step p1 p' ->
       currentSrc_ p' = Some k /\ probing_isConnected p' = false /\ paused_ (src (other k) p') = true /\
       Forall (fun o => is_io o = false) (ops (src k p'))).
Proof.
  intros Hcur Hp Hpo Hc Hco. split.
  - intros Hcn Ho Hoo.
    set (back j (open : bool) := if open then [Complete j 0 true true; Complete j 0 true true] else [Complete j 0 true true]).
    exists (Expire k 0 :: Complete k 0 true true ::
              back k (if decide (n = ws_ (src k p)) then still_open && ws_open (src k p) else ws_open (src k p)) ++
              back (other k) (ws_open (src (other k) p))).
    destruct p as [[pp pc pcl pw po pf pops] [sp sc scl sw so sf sops] cur]; destruct k; cbn in *; subst; cbn;
      unfold on_stream; cbn; destruct (decide _), po, so, still_open; cbn; eexists; split_and!; try done; by intros [].
  - intros Hcn Ho p1 p' He Hr. enough (lost k p1) as Hl.
    { destruct (lost_steps _ _ _ Hr Hl) as [H1 H2 H3 H4]. unfold probing_isConnected. by rewrite H1. }
    destruct p as [[pp pc pcl pw po pf pops] [sp sc scl sw so sf sops] cur]; destruct k; cbn in *; destruct Ho as [-> | ->]; subst; cbn in He;
      unfold on_stream in He; cbn in He; destruct (decide _), still_open; cbn in He; injection He as <-; split; cbn; try done;
      by repeat constructor.
Qed.

Lemma events_steps l p p' : events l p = Some p' -> rtc probing_step p p'.
Proof.
  assert (forall l', foldl (fun o e => o ≫= event e) None l' = None) as Hn by (induction l'; done).
  revert p. induction l as [|e l IH]; intros p; [intros [= ->]; apply rtc_refl|].
  unfold events. cbn [foldl mbind option_bind]. destruct (event e p) as [q|] eqn:He; [|by rewrite Hn].
  intros Hl. eapply rtc_l; [by exists e | by apply IH].
Qed.

(** A node without TLS: its plain source is selected and about to read, the other
    has given up. *)
Definition ok_at (k : Kind) : SourceEvent := Complete k 0 true true.

Definition selected_plain : Probing :=
  mkProbing (mkSource false false false 0 true 0 [ORead 0]) (mkSource true false false 0 false 0 []) (Some Plain).

Lemma reach_selected :
  events [ok_at Ssl; ok_at Ssl; ok_at Plain; ok_at Plain; ok_at Plain; Complete Ssl 1 true true; Complete Ssl 0 false true; ok_at Plain]
    probing_start = Some selected_plain.
Proof. reflexivity. Qed.

Lemma probing_safety_witness :
  probing_reachable selected_plain /\ paused_ (src Ssl selected_plain) = true /\ closes (ops (src Plain selected_plain)) = [].
Proof.
  assert (probing_reachable selected_plain) as Hr by exact (events_steps _ _ _ reach_selected).
  destruct (probing_safety selected_plain Hr) as ((_ & H1) & H2 & _). split; [exact Hr|]. split; [exact H1|].
  destruct (H2 Plain) as [H3 | [again H3]]; [exact H3 | discriminate].
Defined.

(** One failure before the first message, and everything succeeds afterwards:
    nothing is under way any more. *)
Definition lost_plain : Probing :=
  mkProbing (mkSource false false false 0 false 1 [OWait Running]) (mkSource true false false 0 false 0 []) (Some Plain).

Definition stuck_plain : Probing :=
  mkProbing (mkSource false false false 1 true 0 []) (mkSource true false false 0 false 0 []) (Some Plain).

Lemma reach_stuck :
  events [Expire Plain 0; ok_at Plain; ok_at Plain; ok_at Plain; ok_at Plain; ok_at Plain] lost_plain = Some stuck_plain.
Proof. reflexivity. Qed.

Lemma probing_loss_witness :
  event (Complete Plain 0 false false) selected_plain = Some lost_plain /\
  rtc probing_step lost_plain stuck_plain /\ (forall k, ops (src k stuck_plain) = []) /\ probing_isConnected stuck_plain = false.
Proof.
  assert (event (Complete Plain 0 false false) selected_plain = Some lost_plain) as He by reflexivity.
  assert (rtc probing_step lost_plain stuck_plain) as Hr by exact (events_steps _ _ _ reach_stuck).
  split; [exact He|]. split; [exact Hr|]. split; [intros []; reflexivity|].
  destruct (probing_loss selected_plain Plain 0 false) as [_ H]; [reflexivity..|].
  destruct (H eq_refl (or_introl eq_refl) lost_plain stuck_plain He Hr) as (_ & H1 & _). exact H1.
Defined.
