(* ===== verification/SourceLink.v ===== *)
(** What a source reads and answers over its connection ([etl/ETLSource.cpp],
    [ETLSource.h], [ProbingETLSource.cpp]): the messages of the ledger stream,
    the cache of answers, the forwarding of requests, and the balancer's choice
    of the source whose transactions are passed on.

    [announced_ranges]: the ledgers a node announces are those that [hasLedger]
    then has. [transactions_forwarded]: whose transactions reach the
    subscribers. [forward_request]: who answers a forwarded request. *)

From stdpp Require Import base list strings gmap pretty.
From Stdlib Require Import ZArith Lia Ascii Sorting.
From S2P Require Import Prelude Types Json Errors Requests Cql ETLSource Validators Config Probing.

#[local] Open Scope string_scope.
#[local] Open Scope list_scope.
Open Scope Z_scope.

(** ** The ranges a node announces *)

(** [boost::split] at a character: one more piece than there are separators. *)
Fixpoint split_at (c : ascii) (s : string) : list string :=
  match s with
  | EmptyString => [""]
  | String a s' =>
      if decide (a = c) then "" :: split_at c s'
      else match split_at c s' with
           | piece :: pieces => String a piece :: pieces
           | [] => [String a ""]
           end
  end.

Record Announced := mkAnnounced { validatedLedgers : list (Z * Z); validatedLedgersRaw_ : string }.

(** More than two numbers in a range fail an assertion; without assertions the
    first two count. *)
Definition range_assert (minAndMax : list string) : bool := (length minAndMax <=? 2)%nat.

Definition parse_range (text : string) : Res (Z * Z) :=
  match split_at "-" text with
  | [one] => sequence ← stoll one; Ok (u32 sequence, u32 sequence)
  | first :: second :: _ => min ← stoll first; max ← stoll second; Ok (u32 min, u32 max)
  | [] => Throw OutOfRange
  end.

Fixpoint parse_ranges (ranges : list string) : Res (list (Z * Z)) :=
  match ranges with
  | [] => Ok []
  | text :: ranges' => p ← parse_range text; ps ← parse_ranges ranges'; Ok (p :: ps)
  end.

Definition setValidatedRange (range : string) : Res Announced :=
  pairs ← parse_ranges (split_at "," range);
  Ok (mkAnnounced (std_sort (fun left right => left.1 <? right.1) pairs) range).

(** ** Messages *)

(** What a message makes the program do. *)
Inductive Effect :=
| EFreshen
| EProposedTransaction (response : JsonObject)
| EValidation (response : JsonObject)
| EManifest (response : JsonObject)
| EPush (sequence : Z).

Record Reader := mkReader { announced : Announced; lastMsgTime_ : Z }.

(** [m.contains(k) && m[k] == text] *)
Definition member_is (m : JsonObject) (k text : string) : bool :=
  match obj_find k m with Some (JString s) => bool_decide (s = text) | _ => false end.

(** The members of a message about ledgers: its sequence and its ranges. *)
Definition ledger_members (m : JsonObject) (a : Announced) : Res (Announced * Z) :=
  ledgerIndex ← match obj_find "ledger_index" m with
                | Some v => z ← as_int64 v; Ok (u32 z)
                | None => Ok 0
                end;
  a ← match obj_find "validated_ledgers" m with
      | Some v => s ← as_string v; setValidatedRange s
      | None => Ok a
      end;
  Ok (a, ledgerIndex).

Definition push_index (ledgerIndex : Z) : list Effect := if ledgerIndex =? 0 then [] else [EPush ledgerIndex].

(** What is done inside the [try] with a message, [None] when it is no JSON. *)
Definition read_message (propagate : bool) (raw : option json) (a : Announced) : Res (Announced * list Effect) :=
  match raw with
  | None => Throw (LibraryError "parse")
  | Some raw =>
      response ← as_object raw;
      match obj_find "result" response with
      | Some result =>
          result ← as_object result;
          x ← ledger_members result a;
          Ok (x.1, push_index x.2)
      | None =>
          if member_is response "type" "ledgerClosed" then
            x ← ledger_members response a;
            Ok (x.1, push_index x.2)
          else if propagate then
            Ok (a, if contains response "transaction" then [EFreshen; EProposedTransaction response]
                   else if member_is response "type" "validationReceived" then [EValidation response]
                   else if member_is response "type" "manifestReceived" then [EManifest response]
                   else [])
          else Ok (a, [])
      end
  end.

(** [handleMessage]; nothing looks at what it returns. The time is set, and the
    source connected, whatever the message is. *)
Definition handleMessage (propagate : bool) (now : Z) (raw : option json) (r : Reader) : Reader * list Effect :=
  match read_message propagate raw (announced r) with
  | Ok (a, effects) => (mkReader a now, effects)
  | _ => (mkReader (announced r) now, [])
  end.

(** ** Whose transactions are passed on *)

(** The balancer has the [i]-th pair of sources; a source inside it is another
    object. *)
Inductive SourcePtr := Whole (i : nat) | Inside (i : nat) (k : Kind).

#[export] Instance SourcePtr_eq_dec : EqDecision SourcePtr.
Proof. solve_decision. Defined.

Fixpoint propagate_from (i : nat) (sources_ : list Probing) (in_ : SourcePtr) : bool :=
  match sources_ with
  | [] => true
  | src :: rest => if probing_isConnected src then bool_decide (Whole i = in_) else propagate_from (S i) rest in_
  end.

Definition shouldPropagateTxnStream (sources_ : list Probing) (in_ : SourcePtr) : bool := propagate_from 0 sources_ in_.

(** A message read by a source of the balancer's: it is connected first. *)
Definition message_at (sources_ : list Probing) (i : nat) (k : Kind) (now : Z) (raw : option json) (r : Reader) : Reader * list Effect :=
  let sources_ := alter (upd k (set_connected true)) i sources_ in
  handleMessage (shouldPropagateTxnStream sources_ (Inside i k)) now raw r.

(** ** The cache of answers *)

Definition ForwardCache_make (config : json) : Cfg (gmap string (option JsonObject) * Z) :=
  has_cache ← config_contains config "cache";
  if (has_cache : bool) then
    commands ← arrayOrThrow config "cache" "ETLSource cache must be array";
    has_duration ← config_contains config "cache_duration";
    duration_ ← (if (has_duration : bool) then valueOrThrow uint32_ config "cache_duration" "ETLSource cache_duration must be a number"
                 else Val 10);
    (fix go commands latestForwarded_ :=
       match commands with
       | [] => Val (latestForwarded_, duration_)
       | command :: rest =>
           key ← self_valueOrThrow RString command "ETLSource forward command must be array of strings";
           go rest (<[key := None]> latestForwarded_)
       end) commands ∅
  else Val (∅, 10).

(** What [freshen] spawns for a command does when its answer is there. *)
Definition freshened (command : string) (resp : option JsonObject) (latestForwarded_ : gmap string (option JsonObject))
  : gmap string (option JsonObject) :=
  let resp := match resp with Some o => if contains o "error" then None else Some o | None => None end in
  <[command := resp]> latestForwarded_.

(** The coroutines of [freshen], one for each command, in some order. *)
Definition freshen (answer : JsonObject -> option JsonObject) (order : list string) (latestForwarded_ : gmap string (option JsonObject))
  : gmap string (option JsonObject) :=
  foldl (fun c command => freshened command (answer [("command", JString command)]) c) latestForwarded_ order.

Definition ForwardCache_clear (latestForwarded_ : gmap string (option JsonObject)) : gmap string (option JsonObject) :=
  (fun _ => None) <$> latestForwarded_.

Definition request_command (request : JsonObject) : option string :=
  match obj_find "command" request, obj_find "method" request with
  | Some (JString c), None => Some (c_str c)
  | None, Some (JString m) => Some (c_str m)
  | _, _ => None
  end.

Definition ForwardCache_get (request : JsonObject) (latestForwarded_ : gmap string (option JsonObject)) : option JsonObject :=
  command ← request_command request;
  if specifiesCurrentOrClosedLedger request then None else mjoin (latestForwarded_ !! command).

(** ** Forwarding *)

(** What a node says to a request sent on a connection of its own: nothing on an
    error, [Some None] when it is no JSON. *)
Definition Node : Type := JsonObject -> string -> option (option json).

Definition requestFromRippled (connected : bool) (ask : Node) (request : JsonObject) (clientIp : string) : option JsonObject :=
  if connected then
    match ask request clientIp with
    | Some (Some (JObject response)) => Some (obj_set "forwarded" (JBool true) response)
    | _ => None
    end
  else None.

Definition source_forwardToRippled (connected : bool) (cache : gmap string (option JsonObject)) (ask : Node)
    (request : JsonObject) (clientIp : string) : option JsonObject :=
  match ForwardCache_get request cache with
  | Some resp => Some resp
  | None => requestFromRippled connected ask request clientIp
  end.

(** A source of the balancer's with the caches of the two inside, and its node. *)
Record Forwarder := mkForwarder { f_probing : Probing; f_cache : Kind -> gmap string (option JsonObject); f_ask : Node }.

Definition probing_forwardToRippled (f : Forwarder) (request : JsonObject) (clientIp : string) : option JsonObject :=
  match currentSrc_ (f_probing f) with
  | None => None
  | Some k => source_forwardToRippled (connected_ (src k (f_probing f))) (f_cache f k) (f_ask f) request clientIp
  end.

Fixpoint forward_loop (attempts : nat) (sourceIdx : nat) (sources_ : list Forwarder) (request : JsonObject) (clientIp : string)
  : option JsonObject :=
  match attempts with
  | O => None
  | S attempts' =>
      match sources_ !! sourceIdx ≫= (fun f => probing_forwardToRippled f request clientIp) with
      | Some res => Some res
      | None => forward_loop attempts' ((sourceIdx + 1) mod length sources_) sources_ request clientIp
      end
  end.

(** The remainder by a length of zero is no value. *)
Definition balancer_forwardToRippled (rand : nat) (sources_ : list Forwarder) (request : JsonObject) (clientIp : string)
  : Res (option JsonObject) :=
  match sources_ with
  | [] => Throw DivisionByZero
  | _ => Ok (forward_loop (length sources_) (rand mod length sources_) sources_ request clientIp)
  end.

(** ** Information about the sources *)

(** Times are in the nanoseconds of the clock. *)

Record SourceInfo := mkSourceInfo { s_ip : string; s_ws_port : string; s_grpc_port : string }.

Definition source_toJson (info : SourceInfo) (connected : bool) (now : Z) (r : Reader) : JsonObject :=
  [("validated_range", JString (validatedLedgersRaw_ (announced r))); ("is_connected", JString (if connected then "1" else "0"));
   ("ip", JString (s_ip info)); ("ws_port", JString (s_ws_port info)); ("grpc_port", JString (s_grpc_port info))] ++
  (if lastMsgTime_ r =? 0 then [] else [("last_msg_age_seconds", JString (Cql.to_string ((now - lastMsgTime_ r) ÷ 10 ^ 9)))]).

Definition probing_toJson (info : SourceInfo) (p : Probing) (now : Z) (r : Kind -> Reader) : JsonObject :=
  let json_of k := source_toJson info (connected_ (src k p)) now (r k) in
  match currentSrc_ p with
  | None => [("probing", JObject [("ws", JObject (json_of Plain)); ("wss", JObject (json_of Ssl))])]
  | Some k => json_of k
  end.

Definition balancer_toJson (sources_ : list (SourceInfo * Probing * (Kind -> Reader))) (now : Z) : json :=
  JArray ((fun '(info, p, r) => JObject (probing_toJson info p now r)) <$> sources_).

(** ** Numbers as texts *)

Fixpoint all_digits (s : string) : bool :=
  match s with EmptyString => true | String a s' => match digit a with Some _ => all_digits s' | None => false end end.

Lemma digits_app s t : all_digits s = true -> digits (s +:+ t) = digits s ++ digits t.
Proof.
  induction s as [|a s IH]; [done|]. rewrite append_String. cbn. destruct (digit a); [|done]. intros Hs. by rewrite IH.
Qed.

Lemma all_digits_app s t : all_digits (s +:+ t) = all_digits s && all_digits t.
Proof. induction s as [|a s IH]; [done|]. rewrite append_String. cbn. by destruct (digit a). Qed.

Lemma decimal_snoc ds d : decimal (ds ++ [d]) = 10 * decimal ds + d.
Proof. unfold decimal. by rewrite foldl_app. Qed.

Lemma digit_char (x : N) : (x < 10)%N -> digit (pretty_N_char x) = Some (Z.of_N x).
Proof.
  intros Hx. assert (x ∈ [0; 1; 2; 3; 4; 5; 6; 7; 8; 9]%N) as Hin by (rewrite !elem_of_cons; lia).
  assert (Forall (fun x => digit (pretty_N_char x) = Some (Z.of_N x)) [0; 1; 2; 3; 4; 5; 6; 7; 8; 9]%N) as Hall by (by repeat constructor).
  by rewrite Forall_forall in Hall; apply Hall.
Qed.

Lemma pretty_go (x : N) s :
  exists t, pretty_N_go x s = t +:+ s /\ all_digits t = true /\ decimal (digits t) = Z.of_N x /\ ((0 < x)%N -> digits t <> []).
Proof.
  revert s. induction x as [x IH] using (well_founded_induction N.lt_wf_0). intros s.
  destruct (decide (x = 0%N)) as [->|Hx]; [exists ""; rewrite pretty_N_go_0; by split_and!|].
  rewrite pretty_N_go_step by lia.
  destruct (IH (x `div` 10)%N ltac:(apply N.div_lt; lia) (String (pretty_N_char (x `mod` 10)) s)) as (t & -> & Ht & Hd & _).
  pose proof (digit_char (x `mod` 10) ltac:(apply N.mod_lt; lia)) as Hc.
  exists (t +:+ String (pretty_N_char (x `mod` 10)) ""). rewrite append_assoc, all_digits_app, digits_app by done.
  cbn [all_digits digits]. rewrite Hc, Ht, decimal_snoc, Hd. split_and!; [done..| |].
  - rewrite (N.div_mod x 10) at 3 by lia. lia.
  - intros _ He. by apply app_nil in He as [_ ?].
Qed.

Lemma to_string_spec (n : Z) :
  0 <= n -> all_digits (Cql.to_string n) = true /\ digits (Cql.to_string n) <> [] /\ decimal (digits (Cql.to_string n)) = n.
Proof.
  intros Hn. unfold Cql.to_string. destruct n as [|p|p]; [done| |lia].
  change (pretty (Z.pos p)) with (pretty_N_go (N.pos p) ""). destruct (pretty_go (N.pos p) "") as (t & -> & Ht & Hd & Hne).
  rewrite append_nil. split_and!; [done | by apply Hne | done].
Qed.

Lemma stoll_to_string n : 0 <= n < 2 ^ 63 -> stoll (Cql.to_string n) = Ok n.
Proof.
  intros [H0 H1]. destruct (to_string_spec n H0) as (_ & Hne & Hd). unfold stoll. rewrite sto_digits, Hd by done. cbv zeta.
  replace (- 2 ^ 63 <=? n) with true by lia. by replace (n <? 2 ^ 63) with true by lia.
Qed.

(** ** Pieces *)

Fixpoint without (c : ascii) (s : string) : bool :=
  match s with EmptyString => true | String a s' => negb (bool_decide (a = c)) && without c s' end.

Lemma without_app c s t : without c (s +:+ t) = without c s && without c t.
Proof. induction s as [|a s IH]; [done|]. rewrite append_String. cbn. by rewrite IH, andb_assoc. Qed.

Lemma split_without c s : without c s = true -> split_at c s = [s].
Proof.
  induction s as [|a s IH]; [done|]. cbn. intros [Ha Hs]%andb_true_iff. apply negb_true_iff, bool_decide_eq_false in Ha.
  by rewrite decide_False, IH.
Qed.

Lemma split_app c s t : without c s = true -> split_at c (s +:+ String c t) = s :: split_at c t.
Proof.
  induction s as [|a s IH]; [intros _; change ("" +:+ String c t) with (String c t); cbn; by rewrite decide_True|]. rewrite append_String. cbn.
  intros [Ha Hs]%andb_true_iff. apply negb_true_iff, bool_decide_eq_false in Ha. by rewrite decide_False, IH.
Qed.

Lemma digits_without c s : digit c = None -> all_digits s = true -> without c s = true.
Proof.
  intros Hc. induction s as [|a s IH]; [done|]. cbn. destruct (digit a) as [d|] eqn:Ha; [|done]. intros Hs.
  rewrite bool_decide_false by (intros ->; congruence). by apply IH.
Qed.

(** ** How a node writes the ranges it has *)

Definition range_text (r : Z * Z) : string :=
  if decide (r.1 = r.2) then Cql.to_string r.1 else Cql.to_string r.1 +:+ String "-" (Cql.to_string r.2).

Fixpoint ranges_text (rs : list (Z * Z)) : string :=
  match rs with [] => "" | [r] => range_text r | r :: rs' => range_text r +:+ String "," (ranges_text rs') end.

Definition range_ok (r : Z * Z) : Prop := 0 <= r.1 <= r.2 /\ r.2 < 2 ^ 32.

Lemma range_without r : range_ok r -> without "," (range_text r) = true.
Proof.
  intros [H1 H2]. unfold range_text.
  assert (forall n, 0 <= n -> without "," (Cql.to_string n) = true) as Hn by (intros n Hn; by apply digits_without, to_string_spec).
  destruct (decide _); [apply Hn; lia|]. rewrite without_app. cbn [without]. rewrite !Hn by lia. done.
Qed.

Lemma parse_range_text r : range_ok r -> parse_range (range_text r) = Ok r.
Proof.
  intros [H1 H2]. destruct r as [a b]. cbn in H1, H2. unfold parse_range, range_text. cbn [fst snd].
  assert (forall n, 0 <= n -> without "-" (Cql.to_string n) = true) as Hn by (intros n Hn; by apply digits_without, to_string_spec).
  destruct (decide (a = b)) as [<-|Hne].
  - rewrite split_without by (apply Hn; lia). rewrite stoll_to_string by lia. cbn. unfold u32. by rewrite Z.mod_small by lia.
  - rewrite split_app, split_without by (apply Hn; lia). rewrite !stoll_to_string by lia. cbn. unfold u32.
    by rewrite !Z.mod_small by lia.
Qed.

Lemma parse_ranges_text rs : rs <> [] -> Forall range_ok rs -> parse_ranges (split_at "," (ranges_text rs)) = Ok rs.
Proof.
  intros Hne H. induction H as [|r rs Hr Hrs IH]; [done|]. destruct rs as [|r' rs].
  - cbn [ranges_text]. rewrite split_without by (by apply range_without). cbn. by rewrite parse_range_text.
  - change (ranges_text (r :: r' :: rs)) with (range_text r +:+ String "," (ranges_text (r' :: rs))).
    rewrite split_app by (by apply range_without). cbn [parse_ranges]. rewrite parse_range_text by done.
    cbn [mbind Res_bind]. by rewrite IH.
Qed.

(** Of ranges sorted by their first sequence [hasLedger] looks at enough. *)
Lemma hasLedger_sorted (rs : list (Z * Z)) s :
  StronglySorted (fun a b => (b.1 <? a.1) = false) rs ->
  hasLedger rs s = true <-> exists r, r ∈ rs /\ r.1 <= s <= r.2.
Proof.
  induction 1 as [|[a b] rs Hs IH Hall]; cbn; [split; [done | by intros (r & ?%not_elem_of_nil & _)]|].
  destruct ((a <=? s) && (s <=? b)) eqn:Hin.
  - split; [intros _; exists (a, b); split; [by left | cbn; lia] | done].
  - destruct (Z.ltb_spec s a) as [Hlt|Hge].
    + split; [done|]. intros (r & [->|Hr]%elem_of_cons & Hb); [cbn in Hb; lia|].
      rewrite Forall_forall in Hall. specialize (Hall r Hr). cbn in Hall. lia.
    + rewrite IH. split; intros (r & Hr & Hb); exists r; (split; [|done]); [by right|].
      apply elem_of_cons in Hr as [->|Hr]; [cbn in Hb; lia | done].
Qed.

(** C17: the ledgers a node announces. A message of the ledger stream, or the
    answer to the subscription, with the text of ranges of ledgers in any order:
    afterwards [hasLedger] is true exactly of the ledgers in one of the ranges,
    and the sequence of the message is pushed as validated by the network. A text
    that is not of ranges leaves everything as it was, and its sequence is not
    pushed either. *)
Theorem announced_ranges (propagate : bool) (now n : Z) (m : JsonObject) (r : Reader) (text : string) :
  let about members := obj_find "ledger_index" members = Some (JInt64 n) /\
                       obj_find "validated_ledgers" members = Some (JString text) in
  0 <= n < 2 ^ 32 ->
  (obj_find "result" m = None /\ member_is m "type" "ledgerClosed" = true /\ about m) \/
  (exists o, obj_find "result" m = Some (JObject o) /\ about o) ->
  let '(r', effects) := handleMessage propagate now (Some (JObject m)) r in
  lastMsgTime_ r' = now /\
  (forall rs, rs <> [] -> Forall range_ok rs -> text = ranges_text rs ->
     effects = push_index n /\ validatedLedgersRaw_ (announced r') = text /\
     forall s, hasLedger (validatedLedgers (announced r')) s = true <-> exists x, x ∈ rs /\ x.1 <= s <= x.2) /\
  ((forall a, setValidatedRange text <> Ok a) -> announced r' = announced r /\ effects = []).
Proof.
  intros about Hn Hm.
  assert (read_message propagate (Some (JObject m)) (announced r) = a ← setValidatedRange text; Ok (a, push_index n)) as Hread.
  { assert (forall members, about members -> ledger_members members (announced r) = a ← setValidatedRange text; Ok (a, n)) as Hl.
    { intros members [H1 H2]. unfold ledger_members. rewrite H1, H2. cbn. unfold u32. rewrite Z.mod_small by lia.
      by destruct (setValidatedRange text). }
    unfold read_message. cbn. destruct Hm as [(H1 & H2 & H3) | (o & H1 & H3)]; rewrite H1, ?H2; cbn;
      rewrite Hl by done; by destruct (setValidatedRange text). }
  unfold handleMessage. rewrite Hread. destruct (setValidatedRange text) as [a| |] eqn:Ha; cbn.
  - split_and!; [done| |intros Hb; by destruct (Hb a)]. intros rs Hne Hok ->.
    unfold setValidatedRange in Ha. rewrite parse_ranges_text in Ha by done. injection Ha as <-. cbn. split_and!; [done..|].
    intros s. rewrite hasLedger_sorted.
    + split; intros (x & Hx & Hb); exists x; (split; [|done]); [by rewrite std_sort_perm in Hx | by rewrite std_sort_perm].
    + apply std_sort_ordered; intros; lia.
  - split_and!; [done| |done]. intros rs Hne Hok ->. unfold setValidatedRange in Ha. by rewrite parse_ranges_text in Ha.
  - split_and!; [done| |done]. intros rs Hne Hok ->. unfold setValidatedRange in Ha. by rewrite parse_ranges_text in Ha.
Qed.

Definition sample_message : JsonObject :=
  [("type", JString "ledgerClosed"); ("ledger_index", JInt64 90); ("validated_ledgers", JString "70-90,12,20-30")].

Definition sample_reader : Reader := mkReader (mkAnnounced [] "N/A") 0.

Lemma announced_ranges_witness :
  let r' := (handleMessage false 5 (Some (JObject sample_message)) sample_reader).1 in
  hasLedger (validatedLedgers (announced r')) 25 = true /\ hasLedger (validatedLedgers (announced r')) 31 = false.
Proof.
  pose proof (announced_ranges false 5 90 sample_message sample_reader "70-90,12,20-30" ltac:(lia)
    ltac:(left; split_and!; reflexivity)) as H.
  destruct (handleMessage false 5 (Some (JObject sample_message)) sample_reader) as [r' effects].
  destruct H as (_ & H & _). destruct (H [(70, 90); (12, 12); (20, 30)]) as (_ & _ & Hh);
    [done | repeat apply Forall_cons_2; try apply Forall_nil_2; unfold range_ok; cbn; lia | reflexivity |]. cbn [fst]. split.
  - apply Hh. exists (20, 30). split; [by right; right; left | cbn; lia].
  - destruct (hasLedger (validatedLedgers (announced r')) 31) eqn:He; [|done]. exfalso.
    apply Hh in He as (x & Hx & Hb). rewrite !elem_of_cons in Hx.
    destruct Hx as [->|[->|[->|Hx]]]; cbn in Hb; lia || by apply not_elem_of_nil in Hx.
Defined.

(** A node that has no ledger yet says so in a word. *)
Example announced_empty :
  handleMessage false 5 (Some (JObject [("type", JString "ledgerClosed"); ("ledger_index", JInt64 90);
                                        ("validated_ledgers", JString "empty")])) sample_reader =
  (mkReader (announced sample_reader) 5, []).
Proof. reflexivity. Qed.

(** ** Whose transactions are passed on *)

Definition is_push (e : Effect) : bool := match e with EPush _ => true | _ => false end.

Lemma propagate_inside i sources_ j k :
  propagate_from i sources_ (Inside j k) = true <-> Forall (fun p => probing_isConnected p = false) sources_.
Proof.
  revert i. induction sources_ as [|p rest IH]; intros i; cbn; [split; constructor|].
  rewrite Forall_cons. destruct (probing_isConnected p); [|rewrite IH; naive_solver].
  rewrite bool_decide_false by done. naive_solver.
Qed.

Lemma propagate_whole i sources_ j first p :
  sources_ !! first = Some p -> probing_isConnected p = true ->
  Forall (fun q => probing_isConnected q = false) (take first sources_) ->
  propagate_from i sources_ (Whole j) = bool_decide (j = i + first)%nat.
Proof.
  revert i first. induction sources_ as [|q rest IH]; intros i first; [done|]. destruct first as [|first]; cbn.
  - intros [= ->] -> _. apply bool_decide_ext. rewrite Nat.add_0_r. naive_solver.
  - intros Hf Hp [Hq Ht]%Forall_cons. rewrite Hq, (IH _ _ Hf Hp Ht). apply bool_decide_ext. lia.
Qed.

Lemma not_propagated now raw r : Forall is_push (handleMessage false now raw r).2.
Proof.
  unfold handleMessage. destruct (read_message false raw (announced r)) as [[a effects]| |] eqn:Hr; cbn; [|constructor..].
  assert (forall n, Forall is_push (push_index n)) as Hp by (intros n; unfold push_index; destruct (n =? 0); repeat constructor).
  unfold read_message in Hr. destruct raw as [[]|]; try done. cbn in Hr. destruct (obj_find "result" m) as [[]|]; try done; cbn in Hr.
  - destruct (ledger_members m0 (announced r)) as [[]| |]; try done. cbn in Hr. by injection Hr as <- <-.
  - destruct (member_is m "type" "ledgerClosed"); [|by injection Hr as <- <-].
    destruct (ledger_members m (announced r)) as [[]| |]; try done. cbn in Hr. by injection Hr as <- <-.
Qed.

(** C16: whose transactions, validations and manifests are passed on. The balancer
    compares the source that read a message with the first of its own that is
    connected; of its own objects it would choose exactly that one. But the sources
    that read messages are inside them and never equal to one: their messages are
    passed on only while no source of the balancer's is connected, and one that
    reads while it is selected is connected by then, so that nothing of what it
    reads ever reaches a subscriber or refreshes the cache. *)
Theorem transactions_forwarded (sources_ : list Probing) (i : nat) (k : Kind) (now : Z) (raw : option json) (r : Reader) :
  (forall first p j, sources_ !! first = Some p -> probing_isConnected p = true ->
     Forall (fun q => probing_isConnected q = false) (take first sources_) ->
     shouldPropagateTxnStream sources_ (Whole j) = bool_decide (j = first)) /\
  (shouldPropagateTxnStream sources_ (Inside i k) = true <-> Forall (fun p => probing_isConnected p = false) sources_) /\
  (forall p, sources_ !! i = Some p -> currentSrc_ p = Some k -> Forall is_push (message_at sources_ i k now raw r).2).
Proof.
  split_and!.
  - intros first p j Hf Hp Ht. unfold shouldPropagateTxnStream. by rewrite (propagate_whole 0 _ _ _ _ Hf Hp Ht).
  - apply propagate_inside.
  - intros p Hi Hc. unfold message_at.
    replace (shouldPropagateTxnStream _ _) with false; [apply not_propagated|]. symmetry. apply not_true_iff_false.
    unfold shouldPropagateTxnStream. rewrite propagate_inside, Forall_forall. intros Hall.
    assert (probing_isConnected (upd k (set_connected true) p) = false) as Hf.
    { apply Hall. apply (list_elem_of_lookup_2 _ i). by rewrite list_lookup_alter_eq, Hi. }
    unfold probing_isConnected in Hf. rewrite current_upd, Hc, src_upd in Hf. done.
Qed.

Lemma transactions_forwarded_witness :
  (message_at [selected_plain] 0 Plain 5 (Some (JObject [("transaction", JObject [])])) sample_reader).2 = [] /\
  (handleMessage true 5 (Some (JObject [("transaction", JObject [])])) sample_reader).2 <> [] /\
  Forall is_push (message_at [selected_plain] 0 Plain 5 (Some (JObject [("transaction", JObject [])])) sample_reader).2.
Proof.
  split; [reflexivity|]. split; [discriminate|].
  destruct (transactions_forwarded [selected_plain] 0 Plain 5 (Some (JObject [("transaction", JObject [])])) sample_reader) as (_ & _ & H).
  apply (H selected_plain); reflexivity.
Defined.

(** ** Who answers *)

Lemma rotate_step {A} (l : list A) i a :
  (i < length l)%nat -> (a < length l)%nat ->
  exists x, l !! i = Some x /\ take (S a) (rotate i l) = x :: take a (rotate ((i + 1) mod length l) l).
Proof.
  intros Hi Ha. destruct (lookup_lt_is_Some_2 l i Hi) as [x Hx]. exists x. split; [done|].
  apply list_eq. intros [|j].
  - rewrite lookup_take_lt, lookup_rotate_r, rotate_nat_add_0 by lia. done.
  - change ((x :: take a (rotate ((i + 1) mod length l) l)) !! S j) with (take a (rotate ((i + 1) mod length l) l) !! j).
    destruct (decide (j < a)%nat) as [Hj|Hj]; [|by rewrite !lookup_take_ge by lia].
    rewrite !lookup_take_lt, !lookup_rotate_r, <- rotate_nat_add_add_mod by lia. f_equal. unfold rotate_nat_add. do 2 f_equal. lia.
Qed.

Lemma forward_loop_spec a i sources_ request clientIp :
  (i < length sources_)%nat -> (a <= length sources_)%nat ->
  forward_loop a i sources_ request clientIp =
  head (omap (fun f => probing_forwardToRippled f request clientIp) (take a (rotate i sources_))).
Proof.
  revert i. induction a as [|a IH]; intros i Hi Ha; [done|].
  destruct (rotate_step sources_ i a Hi ltac:(lia)) as (x & Hx & ->). cbn [forward_loop omap list_omap]. rewrite Hx. cbn.
  destruct (probing_forwardToRippled x request clientIp); [done|]. apply IH; [|lia]. apply Nat.mod_upper_bound. lia.
Qed.

Lemma freshen_lookup answer order cache c :
  freshen answer order cache !! c =
  if decide (c ∈ order) then Some (match answer [("command", JString c)] with
                                   | Some o => if contains o "error" then None else Some o | None => None end)
  else cache !! c.
Proof.
  unfold freshen. revert cache. induction order as [|d order IH]; intros cache; cbn [foldl].
  - rewrite decide_False by apply not_elem_of_nil. done.
  - rewrite IH. destruct (decide (c ∈ order)) as [Hc|Hc]; [by rewrite decide_True by (by right)|].
    unfold freshened. destruct (decide (c = d)) as [->|Hne].
    + by rewrite lookup_insert_eq, decide_True by (by left).
    + rewrite lookup_insert_ne by done. by rewrite decide_False by (by rewrite not_elem_of_cons).
Qed.

(** Forwarding a request. The balancer asks its sources in turn from a random
    one, each at most once, and answers with the first answer; it has none only
    when all decline. A source declines when none of its two is selected;
    otherwise it answers from the cache, unless the request names the current or
    closed ledger, or asks the node, when it is connected, marking the answer.
    After the cache has been freshened it holds, for each of its commands, what the
    node then said, and nothing where that was an error. *)
Theorem forward_request (rand : nat) (sources_ : list Forwarder) (request : JsonObject) (clientIp : string) :
  let answer f := probing_forwardToRippled f request clientIp in
  (sources_ = [] -> balancer_forwardToRippled rand sources_ request clientIp = Throw DivisionByZero) /\
  (sources_ <> [] -> balancer_forwardToRippled rand sources_ request clientIp = Ok (head (omap answer (rotate rand sources_))) /\
     (balancer_forwardToRippled rand sources_ request clientIp = Ok None <-> forall f, f ∈ sources_ -> answer f = None)) /\
  (forall f, currentSrc_ (f_probing f) = None -> answer f = None) /\
  (forall f k said order old c,
     currentSrc_ (f_probing f) = Some k -> f_cache f k = freshen said order old -> request_command request = Some c -> c ∈ order ->
     answer f =
     match said [("command", JString c)] with
     | Some o =>
         if negb (specifiesCurrentOrClosedLedger request) && negb (contains o "error") then Some o
         else requestFromRippled (connected_ (src k (f_probing f))) (f_ask f) request clientIp
     | None => requestFromRippled (connected_ (src k (f_probing f))) (f_ask f) request clientIp
     end).
Proof.
  intros answer. split_and!.
  - by intros ->.
  - intros Hne. assert (length sources_ <> 0%nat) as Hl by (by destruct sources_).
    assert (balancer_forwardToRippled rand sources_ request clientIp = Ok (head (omap answer (rotate rand sources_)))) as Heq.
    { unfold balancer_forwardToRippled. destruct sources_ as [|f0 rest] eqn:Hs; [done|]. rewrite <- Hs in *. f_equal.
      rewrite forward_loop_spec by (lia || by apply Nat.mod_upper_bound). rewrite take_ge by (rewrite length_rotate; lia).
      unfold rotate. by rewrite Nat.Div0.mod_mod. }
    split; [done|]. rewrite Heq. split.
    + intros [= Hh] f Hf. apply (elem_of_rotate _ rand) in Hf.
      destruct (answer f) as [o|] eqn:Ha; [|done]. exfalso.
      assert (o ∈ omap answer (rotate rand sources_)) as Ho by (apply list_elem_of_omap; eauto).
      destruct (omap answer (rotate rand sources_)); [by apply not_elem_of_nil in Ho | done].
    + intros Hall. f_equal. destruct (omap answer (rotate rand sources_)) as [|o l] eqn:Ho; [done|]. exfalso.
      assert (o ∈ omap answer (rotate rand sources_)) as Hin by (rewrite Ho; by left).
      apply list_elem_of_omap in Hin as (f & Hf & Ha). apply elem_of_rotate in Hf. by rewrite (Hall f Hf) in Ha.
  - intros f Hf. unfold answer, probing_forwardToRippled. by rewrite Hf.
  - intros f k said order old c Hf Hc Hr Hin. unfold answer, probing_forwardToRippled, source_forwardToRippled, ForwardCache_get.
    rewrite Hf, Hc, Hr. cbn [mbind option_bind]. rewrite freshen_lookup, decide_True by done. cbn.
    destruct (specifiesCurrentOrClosedLedger request); cbn; destruct (said [("command", JString c)]) as [o|]; try done.
    by destruct (contains o "error").
Qed.

(** Two nodes, of which the first is not connected. *)
Definition sample_node : Node := fun request _ => Some (Some (JObject [("result", JString "closed")])).

Definition sample_forwarders : list Forwarder :=
  [mkForwarder probing_start (fun _ => ∅) sample_node;
   mkForwarder selected_plain (fun _ => freshen (fun _ => Some [("result", JString "cached")]) ["fee"] ∅) sample_node].

Lemma forward_request_witness :
  balancer_forwardToRippled 6 sample_forwarders [("command", JString "fee")] "" = Ok (Some [("result", JString "cached")]) /\
  balancer_forwardToRippled 6 [] [("command", JString "fee")] "" = Throw DivisionByZero /\
  balancer_forwardToRippled 6 sample_forwarders [("command", JString "fee"); ("ledger_index", JString "current")] "" = Ok None.
Proof.
  destruct (forward_request 6 sample_forwarders [("command", JString "fee")] "") as (_ & H1 & _).
  destruct (forward_request 6 [] [("command", JString "fee")] "") as (H2 & _).
  destruct (forward_request 6 sample_forwarders [("command", JString "fee"); ("ledger_index", JString "current")] "") as (_ & H3 & _).
  split; [rewrite (proj1 (H1 ltac:(discriminate))); reflexivity|].
  split; [exact (H2 eq_refl)|]. rewrite (proj1 (H3 ltac:(discriminate))). reflexivity.
Defined.
