(* ===== verification/BookChanges.v ===== *)
(** The changes of the order books in a ledger ([rpc/handlers/BookChanges.cpp]).

    The handler goes over the offers that the transactions of a ledger touched
    and keeps, for each pair of currencies, the volumes exchanged and the highest,
    lowest, first and last rate. [book_changes_reference]: what it computes, from
    the list of all exchanges. Amounts and their arithmetic are rippled's. *)

From stdpp Require Import base list gmap strings.
From Stdlib Require Import ZArith Lia.
From S2P Require Import Prelude Types TreeRipple Json Errors Requests OrderBook TxRequests.

#[local] Open Scope string_scope.
#[local] Open Scope list_scope.
Open Scope Z_scope.

(** [STObject{SerialIter{data, size}, sfMetadata}]; [amount == zero], [a + b],
    [divide(a, b, noIssue())], [to_string(amount.issue())], and the texts of
    amounts of XRP and of issued ones. *)
Class CrossAmounts `{Amounts} := {
  parseMetadata : Blob -> Res STObject;
  amt_is_zero : STAmount -> bool;
  amt_add : STAmount -> STAmount -> Res STAmount;
  amt_divide : STAmount -> STAmount -> Res STAmount;
  issue_text : STAmount -> string;
  xrp_text : STAmount -> string;
  iou_text : STAmount -> string
}.

Definition ttOFFER_CANCEL : TxType := ttOTHER 8.

(** The loop [for (x : l) acc = g(acc, x)] over what [f] finds in each element
    is the loop over all that is found. *)
Lemma res_fold_app {A B} (g : A -> B -> Res A) acc l1 l2 :
  res_fold g acc (l1 ++ l2) = (acc' ← res_fold g acc l1; res_fold g acc' l2).
Proof. revert acc. induction l1 as [|x l1 IH]; intros acc; cbn; [done|]. destruct (g acc x); cbn; [apply IH | done..]. Qed.

Lemma res_fold_found {A B C} (h : A -> B -> Res A) (f : B -> Res (list C)) (g : A -> C -> Res A) :
  (forall acc b acc', h acc b = Ok acc' <-> exists cs, f b = Ok cs /\ res_fold g acc cs = Ok acc') ->
  forall l acc acc', res_fold h acc l = Ok acc' <-> exists css, res_map f l = Ok css /\ res_fold g acc (concat css) = Ok acc'.
Proof.
  intros Hh. induction l as [|b l IH]; intros acc acc'; cbn.
  - split; [intros [= <-]; by exists [] | by intros (css & [= <-] & ?)].
  - split.
    + destruct (h acc b) as [a1| |] eqn:Hb; cbn; [|done..]. apply Hh in Hb as (cs & Hf & Hg). rewrite IH.
      intros (css & Hm & Hr). exists (cs :: css). rewrite Hf, Hm. split; [done|]. cbn. by rewrite res_fold_app, Hg.
    + intros (css & Hm & Hr). destruct (f b) as [cs| |] eqn:Hf; cbn in Hm; [|done..].
      destruct (res_map f l) as [css'| |] eqn:Hl; cbn in Hm; [|done..]. injection Hm as <-. cbn in Hr. rewrite res_fold_app in Hr.
      destruct (res_fold g acc cs) as [a1| |] eqn:Hc; cbn in Hr; [|done..].
      replace (h acc b) with (Ok a1) by (symmetry; apply Hh; eauto). cbn. rewrite IH. eauto.
Qed.

Section changes.
Context `{CrossAmounts}.

Record BookChange := mkBookChange {
  sideAVolume : STAmount; sideBVolume : STAmount; highRate : STAmount; lowRate : STAmount;
  openRate : STAmount; closeRate : STAmount }.

(** The members of the computation. *)
Abbreviation Tally := (gmap string BookChange).

(** ** The handler *)

(** What an offer's node says was exchanged, if it does. *)
Definition node_deltas (offerCancel_ : option Z) (node : STObject) : Res (option (STAmount * STAmount)) :=
  let metaType := getFName node in
  nodeType ← getFieldU16 node sfLedgerEntryType;
  if negb (nodeType =? ltOFFER) || bool_decide (metaType = sfCreatedNode) then Ok None
  else if negb (isFieldPresent node sfFinalFields) || negb (isFieldPresent node sfPreviousFields) then Ok None
  else
    finalFields ← peekAtObject node sfFinalFields;
    previousFields ← peekAtObject node sfPreviousFields;
    if negb (isFieldPresent finalFields sfTakerGets) || negb (isFieldPresent finalFields sfTakerPays) ||
       negb (isFieldPresent previousFields sfTakerGets) || negb (isFieldPresent previousFields sfTakerPays) then Ok None
    else
      cancelled ← match bool_decide (metaType = sfDeletedNode), offerCancel_ with
                  | true, Some o => s ← getFieldU32 finalFields sfSequence; Ok (s =? o)
                  | _, _ => Ok false
                  end;
      if (cancelled : bool) then Ok None
      else
        fg ← getFieldAmount finalFields sfTakerGets; pg ← getFieldAmount previousFields sfTakerGets;
        deltaGets ← amt_sub fg pg;
        fp ← getFieldAmount finalFields sfTakerPays; pp ← getFieldAmount previousFields sfTakerPays;
        deltaPays ← amt_sub fp pp;
        Ok (Some (deltaGets, deltaPays)).

(** An exchange: the key of its books, the two sides, positive, and the rate. *)
Record Crossing := mkCrossing { c_key : string; c_first : STAmount; c_second : STAmount; c_rate : STAmount }.

Definition absolute (a : STAmount) : STAmount := if amt_negative a then amt_negate a else a.

Definition crossing (deltaGets deltaPays : STAmount) : Res (option Crossing) :=
  let g := issue_text deltaGets in
  let p := issue_text deltaPays in
  let noswap := if amt_native deltaGets then true else if amt_native deltaPays then false else String.ltb g p in
  let first := if noswap then deltaGets else deltaPays in
  let second := if noswap then deltaPays else deltaGets in
  if amt_is_zero second then Ok None
  else
    rate ← amt_divide first second;
    Ok (Some (mkCrossing (if noswap then g +:+ "|" +:+ p else p +:+ "|" +:+ g) (absolute first) (absolute second) rate)).

Definition higher (high rate : STAmount) : Res STAmount := less ← amt_less high rate; Ok (if (less : bool) then rate else high).
Definition lower (low rate : STAmount) : Res STAmount := less ← amt_less rate low; Ok (if (less : bool) then rate else low).

Definition store (tally_ : Tally) (c : Crossing) : Res Tally :=
  match tally_ !! c_key c with
  | Some entry =>
      a ← amt_add (sideAVolume entry) (c_first c);
      b ← amt_add (sideBVolume entry) (c_second c);
      high ← higher (highRate entry) (c_rate c);
      low ← lower (lowRate entry) (c_rate c);
      Ok (<[c_key c := mkBookChange a b high low (openRate entry) (c_rate c)]> tally_)
  | None => Ok (<[c_key c := mkBookChange (c_first c) (c_second c) (c_rate c) (c_rate c) (c_rate c) (c_rate c)]> tally_)
  end.

Definition transformAndStore (tally_ : Tally) (deltaGets deltaPays : STAmount) : Res Tally :=
  c ← crossing deltaGets deltaPays;
  match c with Some c => store tally_ c | None => Ok tally_ end.

Definition handleAffectedNode (offerCancel_ : option Z) (tally_ : Tally) (node : STObject) : Res Tally :=
  d ← node_deltas offerCancel_ node;
  match d with Some (deltaGets, deltaPays) => transformAndStore tally_ deltaGets deltaPays | None => Ok tally_ end.

(** Both kinds fall through to no sequence when the field is absent. *)
Definition shouldCancelOffer (tx : STTx) : Res (option Z) :=
  if bool_decide (getTxnType tx ∈ [ttOFFER_CANCEL; ttOFFER_CREATE]) && isFieldPresent (tx_object tx) sfOfferSequence then
    s ← getFieldU32 (tx_object tx) sfOfferSequence; Ok (Some s)
  else Ok None.

(** [deserializeTxPlusMeta] of a transaction, with the metadata as an object. *)
Definition deserializeTxPlusMeta_object (blobs : TransactionAndMetadata) : Res (STTx * STObject) :=
  tx ← parseSTTx (tm_transaction blobs); meta ← parseMetadata (tm_metadata blobs); Ok (tx, meta).

Definition handleBookChange (tally_ : Tally) (blob : TransactionAndMetadata) : Res Tally :=
  '(tx, meta) ← deserializeTxPlusMeta_object blob;
  if negb (isFieldPresent (tx_object tx) sfTransactionType) then Ok tally_
  else
    offerCancel_ ← shouldCancelOffer tx;
    nodes ← getFieldArray meta sfAffectedNodes;
    res_fold (handleAffectedNode offerCancel_) tally_ nodes.

(** The keys of a [std::map<std::string, T>] in its order. *)
Definition map_order (keys : gset string) : list string := std_sort String.ltb (elements keys).

Definition compute (transactions : list TransactionAndMetadata) : Res (list BookChange) :=
  tally_ ← res_fold handleBookChange ∅ transactions;
  Ok (omap (fun k => tally_ !! k) (map_order (dom tally_))).

Definition change_json (change : BookChange) : json :=
  let amountStr a := if amt_native a then xrp_text a else iou_text a in
  let currencyStr a := if amt_native a then "XRP_drops" else issue_text a in
  JObject [("currency_a", JString (currencyStr (sideAVolume change))); ("currency_b", JString (currencyStr (sideBVolume change)));
           ("volume_a", JString (amountStr (sideAVolume change))); ("volume_b", JString (amountStr (sideBVolume change)));
           ("high", JString (iou_text (highRate change))); ("low", JString (iou_text (lowRate change)));
           ("open", JString (iou_text (openRate change))); ("close", JString (iou_text (closeRate change)))].

(** [hash_text] is [to_string] of a hash. *)
Definition computeBookChanges (hash_text : uint256 -> string) (lgrInfo : LedgerInfo) (transactions : list TransactionAndMetadata)
  : Res JsonObject :=
  changes ← compute transactions;
  Ok [("type", JString "bookChanges"); ("ledger_index", JUint64 (li_seq lgrInfo)); ("ledger_hash", JString (hash_text (li_hash lgrInfo)));
      ("ledger_time", JUint64 (li_closeTime lgrInfo)); ("changes", JArray (change_json <$> changes))].

Definition doBookChanges {W} `{RippleStrings} `{LexicalCast} `{LedgerReads W} (hash_text : uint256 -> string)
    (fetchAllTransactionsInLedger : Z -> M W (list TransactionAndMetadata)) (params : JsonObject) (range : LedgerRange)
  : M W (Outcome JsonObject) :=
  info ← ledgerInfoFromRequest params range;
  match info with
  | Failed status => mret (Failed status)
  | Done lgrInfo =>
      transactions ← fetchAllTransactionsInLedger (li_seq lgrInfo);
      response ← lift_res (computeBookChanges hash_text lgrInfo transactions);
      mret (Done response)
  end.

(** ** The exchanges of a list of transactions *)

Definition node_crossings (offerCancel_ : option Z) (node : STObject) : Res (list Crossing) :=
  d ← node_deltas offerCancel_ node;
  match d with
  | Some (deltaGets, deltaPays) => c ← crossing deltaGets deltaPays; Ok (option_list c)
  | None => Ok []
  end.

Definition tx_crossings (blob : TransactionAndMetadata) : Res (list Crossing) :=
  '(tx, meta) ← deserializeTxPlusMeta_object blob;
  if negb (isFieldPresent (tx_object tx) sfTransactionType) then Ok []
  else
    offerCancel_ ← shouldCancelOffer tx;
    nodes ← getFieldArray meta sfAffectedNodes;
    css ← res_map (node_crossings offerCancel_) nodes;
    Ok (concat css).

Definition all_crossings (transactions : list TransactionAndMetadata) : Res (list Crossing) :=
  css ← res_map tx_crossings transactions; Ok (concat css).

Definition crossings_of (k : string) (cs : list Crossing) : list Crossing := filter (fun c => c_key c = k) cs.

(** What is to be said of the exchanges of one key, as a whole. *)
Definition summary (cs : list Crossing) : Res BookChange :=
  match cs with
  | [] => Throw OutOfRange
  | c :: rest =>
      a ← res_fold amt_add (c_first c) (c_first <$> rest);
      b ← res_fold amt_add (c_second c) (c_second <$> rest);
      high ← res_fold higher (c_rate c) (c_rate <$> rest);
      low ← res_fold lower (c_rate c) (c_rate <$> rest);
      Ok (mkBookChange a b high low (c_rate c) (default (c_rate c) (last (c_rate <$> rest))))
  end.

Definition changes_reference (transactions : list TransactionAndMetadata) : Res (list BookChange) :=
  cs ← all_crossings transactions;
  res_map (fun k => summary (crossings_of k cs)) (map_order (list_to_set (c_key <$> cs))).

(** ** The handler is the loop over the exchanges *)

Lemma node_found offerCancel_ t node t' :
  handleAffectedNode offerCancel_ t node = Ok t' <->
  exists cs, node_crossings offerCancel_ node = Ok cs /\ res_fold store t cs = Ok t'.
Proof.
  unfold handleAffectedNode, node_crossings, transformAndStore.
  destruct (node_deltas offerCancel_ node) as [[[g p]|]| |]; cbn; try (split; [done | by intros (? & ? & _)]).
  - destruct (crossing g p) as [[c|]| |]; cbn; try (split; [done | by intros (? & ? & _)]).
    + split.
      * intros Hs. exists [c]. cbn. by rewrite Hs.
      * intros (cs & [= <-] & Hs). cbn in Hs. by destruct (store t c).
    + split; [intros [= <-]; by exists [] | by intros (cs & [= <-] & ?)].
  - split; [intros [= <-]; by exists [] | by intros (cs & [= <-] & ?)].
Qed.

Lemma tx_found t blob t' :
  handleBookChange t blob = Ok t' <-> exists cs, tx_crossings blob = Ok cs /\ res_fold store t cs = Ok t'.
Proof.
  unfold handleBookChange, tx_crossings.
  destruct (deserializeTxPlusMeta_object blob) as [[tx meta]| |]; cbn; try (split; [done | by intros (? & ? & _)]).
  destruct (negb _); [split; [intros [= <-]; by exists [] | by intros (cs & [= <-] & ?)]|].
  destruct (shouldCancelOffer tx) as [o| |]; cbn; try (split; [done | by intros (? & ? & _)]).
  destruct (getFieldArray meta sfAffectedNodes) as [nodes| |]; cbn; try (split; [done | by intros (? & ? & _)]).
  rewrite (res_fold_found _ _ _ (fun acc b acc' => node_found o acc b acc')). split.
  - intros (css & -> & Hr). by exists (concat css).
  - intros (cs & Hm & Hr). destruct (res_map (node_crossings o) nodes) as [css| |]; try done.
    injection Hm as <-. by exists css.
Qed.

Lemma tally_found transactions t :
  res_fold handleBookChange ∅ transactions = Ok t <->
  exists cs, all_crossings transactions = Ok cs /\ res_fold store ∅ cs = Ok t.
Proof.
  rewrite (res_fold_found _ _ _ tx_found). unfold all_crossings. split.
  - intros (css & -> & Hr). by exists (concat css).
  - intros (cs & Hm & Hr). destruct (res_map tx_crossings transactions) as [css| |]; try done.
    injection Hm as <-. by exists css.
Qed.

(** ** One more exchange *)

Definition extend (entry : BookChange) (c : Crossing) : Res BookChange :=
  a ← amt_add (sideAVolume entry) (c_first c);
  b ← amt_add (sideBVolume entry) (c_second c);
  high ← higher (highRate entry) (c_rate c);
  low ← lower (lowRate entry) (c_rate c);
  Ok (mkBookChange a b high low (openRate entry) (c_rate c)).

Lemma store_spec t c :
  store t c = match t !! c_key c with
              | Some entry => e ← extend entry c; Ok (<[c_key c := e]> t)
              | None => e ← summary [c]; Ok (<[c_key c := e]> t)
              end.
Proof.
  unfold store, extend. destruct (t !! c_key c) as [b|]; [|done].
  destruct (amt_add (sideAVolume b) _); cbn; [|done..]. destruct (amt_add (sideBVolume b) _); cbn; [|done..].
  destruct (higher (highRate b) _); cbn; [|done..]. by destruct (lower (lowRate b) _).
Qed.

Lemma res_fold_snoc {A B} (g : A -> B -> Res A) acc l x : res_fold g acc (l ++ [x]) = (acc' ← res_fold g acc l; g acc' x).
Proof. rewrite res_fold_app. destruct (res_fold g acc l); cbn; [|done..]. by destruct (g a x). Qed.

Lemma summary_snoc cs c b' :
  cs <> [] -> summary (cs ++ [c]) = Ok b' <-> exists b, summary cs = Ok b /\ extend b c = Ok b'.
Proof.
  destruct cs as [|c0 rest]; [done|]. intros _. cbn [app summary]. rewrite !fmap_app. cbn [fmap list_fmap].
  rewrite !res_fold_snoc, last_snoc. unfold extend. split.
  - destruct (res_fold amt_add (c_first c0) _) as [a| |]; cbn; [|done..].
    destruct (amt_add a (c_first c)) eqn:Ha; cbn; [|done..].
    destruct (res_fold amt_add (c_second c0) _) as [b| |]; cbn; [|done..].
    destruct (amt_add b (c_second c)) eqn:Hb; cbn; [|done..].
    destruct (res_fold higher _ _) as [h| |]; cbn; [|done..]. destruct (higher h (c_rate c)) eqn:Hh; cbn; [|done..].
    destruct (res_fold lower _ _) as [l| |]; cbn; [|done..]. destruct (lower l (c_rate c)) eqn:Hl; cbn; [|done..].
    intros [= <-]. eexists. split; [done|]. cbn. by rewrite Ha, Hb; cbn; rewrite Hh; cbn; rewrite Hl.
  - intros (b & Hs & He).
    destruct (res_fold amt_add (c_first c0) _) as [x| |]; cbn in *; [|done..].
    destruct (res_fold amt_add (c_second c0) _) as [y| |]; cbn in *; [|done..].
    destruct (res_fold higher _ _) as [h| |]; cbn in *; [|done..].
    destruct (res_fold lower _ _) as [l| |]; cbn in *; [|done..].
    injection Hs as <-. cbn in He. destruct (amt_add x _); cbn in *; [|done..]. destruct (amt_add y _); cbn in *; [|done..].
    destruct (higher h _); cbn in *; [|done..]. by destruct (lower l _).
Qed.

(** ** The tally *)

Definition tally_of (cs : list Crossing) (t : Tally) : Prop :=
  forall k, match crossings_of k cs with [] => t !! k = None | l => exists b, t !! k = Some b /\ summary l = Ok b end.

Lemma crossings_of_snoc k cs c : crossings_of k (cs ++ [c]) = crossings_of k cs ++ (if decide (c_key c = k) then [c] else []).
Proof. unfold crossings_of. rewrite filter_app, filter_cons. by case_decide. Qed.

(** What is said of a key whose last exchange is [c]. *)
Lemma key_snoc t k cs c :
  c_key c = k -> match crossings_of k cs with [] => t !! k = None | l => exists b, t !! k = Some b /\ summary l = Ok b end ->
  forall e, summary (crossings_of k cs ++ [c]) = Ok e <-> store t c = Ok (<[k := e]> t).
Proof.
  intros <- Hk e. rewrite store_spec. destruct (crossings_of (c_key c) cs) as [|c0 l] eqn:Hl.
  - rewrite Hk. cbn. split; [by intros [= <-]|]. intros [= Hi]. f_equal.
    apply (f_equal (fun m => m !! c_key c)) in Hi. rewrite !lookup_insert_eq in Hi. by injection Hi.
  - destruct Hk as (b & -> & Hb). rewrite summary_snoc by done. split.
    + intros (b0 & Hb0 & He). rewrite Hb in Hb0. injection Hb0 as <-. by rewrite He.
    + intros Hs. exists b. split; [done|]. destruct (extend b c) as [e'| |]; try done. cbn in Hs. injection Hs as Hi.
      apply (f_equal (fun m => m !! c_key c)) in Hi. rewrite !lookup_insert_eq in Hi. by injection Hi as ->.
Qed.

Lemma store_inserts t c t' : store t c = Ok t' -> exists e, t' = <[c_key c := e]> t.
Proof.
  rewrite store_spec. destruct (t !! c_key c) as [b|]; [destruct (extend b c) | destruct (summary [c])]; try done;
    intros [= <-]; by eexists.
Qed.

Lemma tally_sound cs t : res_fold store ∅ cs = Ok t -> tally_of cs t.
Proof.
  revert t. induction cs as [|c cs IH] using rev_ind; intros t; [intros [= <-] k; apply lookup_empty|].
  rewrite res_fold_snoc. destruct (res_fold store ∅ cs) as [t0| |]; cbn; [|done..]. intros Hs.
  specialize (IH t0 eq_refl). destruct (store_inserts _ _ _ Hs) as [e ->]. intros k. rewrite crossings_of_snoc.
  destruct (decide (c_key c = k)) as [Hk|Hk].
  - pose proof (proj2 (key_snoc t0 k cs c Hk (IH k) e)) as Hsum. rewrite <- Hk in *. specialize (Hsum Hs).
    destruct (crossings_of (c_key c) cs ++ [c]) eqn:Hl; [by destruct (crossings_of (c_key c) cs)|].
    exists e. split; [apply lookup_insert_eq | done].
  - rewrite app_nil_r, lookup_insert_ne by done. apply IH.
Qed.

Lemma tally_complete cs t : tally_of cs t -> res_fold store ∅ cs = Ok t.
Proof.
  revert t. induction cs as [|c cs IH] using rev_ind; intros t Ht.
  - cbn. f_equal. symmetry. apply map_empty. intros k. apply (Ht k).
  - rewrite res_fold_snoc. pose proof (Ht (c_key c)) as Hc. rewrite crossings_of_snoc, decide_True in Hc by done.
    destruct (crossings_of (c_key c) cs ++ [c]) as [|x l] eqn:Hl; [by destruct (crossings_of (c_key c) cs)|].
    destruct Hc as (e & He & Hs). rewrite <- Hl in Hs.
    assert (exists t0, tally_of cs t0 /\ <[c_key c := e]> t0 = t) as (t0 & Ht0 & Hins).
    { assert (forall k (t0 : Tally), c_key c <> k -> t0 !! k = t !! k ->
        match crossings_of k cs with [] => t0 !! k = None | l => exists b, t0 !! k = Some b /\ summary l = Ok b end) as Hother.
      { intros k t0 Hk ->. pose proof (Ht k) as Htk. by rewrite crossings_of_snoc, decide_False, app_nil_r in Htk. }
      destruct (crossings_of (c_key c) cs) as [|c1 l1] eqn:Hck.
      - exists (delete (c_key c) t). split; [|by rewrite insert_delete_id].
        intros k. destruct (decide (c_key c = k)) as [<-|Hk]; [rewrite Hck; apply lookup_delete_eq|].
        apply Hother; [done|]. by apply lookup_delete_ne.
      - apply summary_snoc in Hs as (b & Hb & He'); [|done]. exists (<[c_key c := b]> t). split.
        + intros k. destruct (decide (c_key c = k)) as [<-|Hk].
          * rewrite Hck. exists b. split; [apply lookup_insert_eq | done].
          * apply Hother; [done|]. by apply lookup_insert_ne.
        + by rewrite insert_insert_eq, insert_id. }
    rewrite (IH t0 Ht0). cbn. rewrite <- Hins. by apply (key_snoc t0 (c_key c) cs c eq_refl (Ht0 (c_key c))).
Qed.

Lemma tally_dom cs t : tally_of cs t -> dom t = list_to_set (c_key <$> cs).
Proof.
  intros Ht. apply set_eq. intros k. rewrite elem_of_dom, elem_of_list_to_set, list_elem_of_fmap. specialize (Ht k). split.
  - intros [b Hb]. destruct (crossings_of k cs) as [|c l] eqn:Hl; [by rewrite Ht in Hb|].
    assert (c ∈ crossings_of k cs) as Hc by (rewrite Hl; by left). apply list_elem_of_filter in Hc as [<- Hc]. by exists c.
  - intros (c & -> & Hc). assert (c ∈ crossings_of (c_key c) cs) as Hin by (by apply list_elem_of_filter).
    destruct (crossings_of (c_key c) cs) as [|c0 l]; [by apply not_elem_of_nil in Hin|].
    destruct Ht as (b & -> & _). by exists b.
Qed.

Lemma crossings_of_ne k cs : k ∈ c_key <$> cs -> crossings_of k cs <> [].
Proof.
  intros (c & -> & Hc)%list_elem_of_fmap Hn. assert (c ∈ crossings_of (c_key c) cs) as Hin by (by apply list_elem_of_filter).
  rewrite Hn in Hin. by apply not_elem_of_nil in Hin.
Qed.

Lemma map_order_elem k keys : k ∈ map_order keys <-> k ∈ keys.
Proof. unfold map_order. rewrite std_sort_perm. apply elem_of_elements. Qed.

(** ** Highest and lowest *)

(** Rates can be compared, and the comparison is that of an order. *)
Definition RateOrder : Prop :=
  exists lt : STAmount -> STAmount -> bool,
    (forall a b, amt_less a b = Ok (lt a b)) /\ (forall a b, lt a b = true -> lt b a = false) /\
    (forall a b c, lt a b = false -> lt b c = false -> lt a c = false).

Lemma bound_fold (pick : STAmount -> STAmount -> Res STAmount) (less : STAmount -> STAmount -> bool) :
  (forall a b, pick a b = Ok (if less a b then b else a)) ->
  (forall a b, less a b = true -> less b a = false) ->
  (forall a b c, less a b = false -> less b c = false -> less a c = false) ->
  forall rs r h, res_fold pick r rs = Ok h -> h ∈ r :: rs /\ forall x, x ∈ r :: rs -> less h x = false.
Proof.
  intros Hp Has Ht. assert (forall a, less a a = false) as Hi by (intros a; destruct (less a a) eqn:Ha; [by rewrite (Has _ _ Ha) in Ha | done]).
  induction rs as [|r' rs IH]; intros r h; cbn.
  - intros [= <-]. split; [by left|]. intros x ->%list_elem_of_singleton. apply Hi.
  - rewrite Hp. cbn. intros [Hin Hall]%IH. destruct (less r r') eqn:Hl; (split; [set_solver|]); intros x.
    + intros [->|Hx]%elem_of_cons; [|by apply Hall]. eapply Ht; [apply Hall; by left | by apply Has].
    + intros [->|[->|Hx]%elem_of_cons]%elem_of_cons; [apply Hall; by left | | apply Hall; by right].
      eapply Ht; [apply Hall; by left | done].
Qed.

Lemma summary_bounds cs b :
  RateOrder -> summary cs = Ok b ->
  Some (openRate b) = head (c_rate <$> cs) /\ Some (closeRate b) = last (c_rate <$> cs) /\
  highRate b ∈ c_rate <$> cs /\ lowRate b ∈ c_rate <$> cs /\
  forall c, c ∈ cs -> amt_less (highRate b) (c_rate c) = Ok false /\ amt_less (c_rate c) (lowRate b) = Ok false.
Proof.
  intros (lt & Hlt & Has & Ht). destruct cs as [|c rest]; [done|]. cbn [summary].
  destruct (res_fold amt_add (c_first c) _) as [x| |]; cbn [mbind Res_bind]; [|done..].
  destruct (res_fold amt_add (c_second c) _) as [y| |]; cbn [mbind Res_bind]; [|done..].
  destruct (res_fold higher _ _) as [h| |] eqn:Hh; cbn [mbind Res_bind]; [|done..].
  destruct (res_fold lower _ _) as [l| |] eqn:Hl; cbn [mbind Res_bind]; [|done..]. intros [= <-]. cbn.
  destruct (bound_fold higher lt ltac:(intros; unfold higher; by rewrite Hlt) Has Ht _ _ _ Hh) as [H1' H2'].
  destruct (bound_fold lower (fun a b => lt b a) ltac:(intros; unfold lower; by rewrite Hlt) ltac:(eauto)
    ltac:(intros ? ? ? Ha Hb; exact (Ht _ _ _ Hb Ha)) _ _ _ Hl) as [H3' H4'].
  split_and!; [done | | done | done |].
  { change (c_rate <$> c :: rest) with (c_rate c :: (c_rate <$> rest)). rewrite last_cons. by destruct (last (c_rate <$> rest)). }
  intros d Hd. rewrite !Hlt. split; f_equal; [apply H2' | apply H4']; apply (list_elem_of_fmap_2 c_rate (c :: rest)), Hd.
Qed.

(** ** The reference *)

Lemma summaries_found cs (t : Tally) keys changes :
  tally_of cs t -> Forall (fun k => crossings_of k cs <> []) keys ->
  res_map (fun k => summary (crossings_of k cs)) keys = Ok changes <-> changes = omap (fun k => t !! k) keys.
Proof.
  intros Ht H2. revert changes. induction H2 as [|k keys Hk Hks IH]; intros changes; cbn; [by split; [intros [= <-] | intros ->]|].
  pose proof (Ht k) as Htk. destruct (crossings_of k cs) as [|c l] eqn:Hl; [done|]. destruct Htk as (b & -> & ->). cbn [mbind Res_bind].
  destruct (res_map _ keys) as [bs| |] eqn:Hm.
  - pose proof (proj1 (IH bs) eq_refl) as Hbs. cbn. rewrite <- Hbs. by split; [intros [= <-] | intros ->].
  - pose proof (proj2 (IH (omap (fun k => t !! k) keys)) eq_refl) as Hbs. discriminate Hbs.
  - pose proof (proj2 (IH (omap (fun k => t !! k) keys)) eq_refl) as Hbs. discriminate Hbs.
Qed.

(** When every key has its summary there is a tally. *)
Lemma summaries_tally cs changes :
  res_map (fun k => summary (crossings_of k cs)) (map_order (list_to_set (c_key <$> cs))) = Ok changes -> exists t, tally_of cs t.
Proof.
  intros Hm. assert (forall k, crossings_of k cs <> [] -> exists b, summary (crossings_of k cs) = Ok b) as Hall.
  { intros k Hk. assert (k ∈ map_order (list_to_set (c_key <$> cs))) as Hin.
    { apply map_order_elem, elem_of_list_to_set. destruct (crossings_of k cs) as [|c l] eqn:Hl; [done|].
      assert (c ∈ crossings_of k cs) as Hc by (rewrite Hl; by left). apply list_elem_of_filter in Hc as [<- Hc].
      by apply list_elem_of_fmap_2. }
    revert changes Hm Hin. generalize (map_order (list_to_set (c_key <$> cs))). intros keys.
    induction keys as [|k' keys IH]; intros changes; cbn; [by intros _ ?%not_elem_of_nil|].
    destruct (summary (crossings_of k' cs)) as [b| |] eqn:Hs; cbn; [|done..].
    destruct (res_map _ keys) as [bs| |] eqn:Hbs; cbn; [|done..]. intros _ [->|Hin]%elem_of_cons; [by exists b | by eapply IH]. }
  exists (map_imap (fun k _ => match summary (crossings_of k cs) with Ok b => Some b | _ => None end)
            (gset_to_gmap tt (list_to_set (c_key <$> cs)))).
  intros k. destruct (crossings_of k cs) as [|c l] eqn:Hl.
  - rewrite map_lookup_imap, lookup_gset_to_gmap, option_guard_False; [done|].
    rewrite elem_of_list_to_set. intros Hin. by apply (crossings_of_ne k cs).
  - destruct (Hall k) as [b Hb]; [by rewrite Hl|]. exists b. rewrite <- Hl. split; [|done].
    rewrite map_lookup_imap, lookup_gset_to_gmap, option_guard_True; [cbn; by rewrite Hb|].
    apply elem_of_list_to_set. assert (c ∈ crossings_of k cs) as Hc by (rewrite Hl; by left).
    apply list_elem_of_filter in Hc as [<- Hc]. by apply list_elem_of_fmap_2.
Qed.

(** C24: the changes of the order books in a ledger. The handler's loop, which
    keeps a running entry for each pair of currencies, computes what the
    reference says of the list of all exchanges: for each pair, in the order of
    the keys, the sums of both sides, the highest and the lowest rate, the first
    and the last; one returns exactly when the other does. With rates that an
    order compares, no exchange of a pair has a rate above the highest or below
    the lowest, and both are rates of that pair. *)
Theorem book_changes_reference (transactions : list TransactionAndMetadata) (changes : list BookChange) :
  (compute transactions = Ok changes <-> changes_reference transactions = Ok changes) /\
  (RateOrder -> compute transactions = Ok changes ->
     exists cs, all_crossings transactions = Ok cs /\
       Forall2 (fun k b =>
         Some (openRate b) = head (c_rate <$> crossings_of k cs) /\ Some (closeRate b) = last (c_rate <$> crossings_of k cs) /\
         highRate b ∈ c_rate <$> crossings_of k cs /\ lowRate b ∈ c_rate <$> crossings_of k cs /\
         forall c, c ∈ crossings_of k cs -> amt_less (highRate b) (c_rate c) = Ok false /\ amt_less (c_rate c) (lowRate b) = Ok false)
         (map_order (list_to_set (c_key <$> cs))) changes).
Proof.
  assert (forall cs, Forall (fun k => crossings_of k cs <> []) (map_order (list_to_set (c_key <$> cs)))) as Hne.
  { intros cs. apply Forall_forall. intros k Hk%map_order_elem. apply crossings_of_ne. by apply elem_of_list_to_set in Hk. }
  assert (compute transactions = Ok changes <-> changes_reference transactions = Ok changes) as Heq.
  { unfold compute, changes_reference. split.
    - destruct (res_fold handleBookChange ∅ transactions) as [t| |] eqn:Hf; cbn; [|done..]. intros [= <-].
      apply tally_found in Hf as (cs & -> & Hs). apply tally_sound in Hs. cbn. rewrite (tally_dom cs t Hs).
      by apply (summaries_found cs t).
    - destruct (all_crossings transactions) as [cs| |] eqn:Hc; cbn; [|done..]. intros Hm.
      destruct (summaries_tally cs changes Hm) as [t Ht].
      replace (res_fold handleBookChange ∅ transactions) with (Ok t).
      + cbn. f_equal. rewrite (tally_dom cs t Ht). symmetry. by apply (summaries_found cs t).
      + symmetry. apply tally_found. exists cs. split; [done|]. by apply tally_complete. }
  split; [done|]. intros Ho Hc. apply Heq in Hc. unfold changes_reference in Hc.
  destruct (all_crossings transactions) as [cs| |]; cbn in Hc; [|done..]. exists cs. split; [done|].
  clear Heq. specialize (Hne cs). revert changes Hc Hne. generalize (map_order (list_to_set (c_key <$> cs))).
  intros keys. induction keys as [|k keys IH]; intros changes; cbn; [intros [= <-] _; constructor|].
  destruct (summary (crossings_of k cs)) as [b| |] eqn:Hs; cbn; [|done..].
  destruct (res_map _ keys) as [bs| |] eqn:Hbs; cbn; [|done..]. intros [= <-] [_ Hks]%Forall_cons.
  constructor; [by apply summary_bounds | by apply IH].
Qed.

End changes.

(** ** An instance: amounts with a currency and a value *)

Definition sample_offer (gets pays : Z) : SField -> SField * TreeVal := fun f =>
  (f, VObj (mkObj f [(sfTakerGets, VNum gets); (sfTakerPays, VNum (1000 + pays))])).

Definition sample_crossing (gets0 pays0 gets1 pays1 : Z) : TreeObj :=
  mkObj sfModifiedNode [(sfLedgerEntryType, VNum ltOFFER); sample_offer gets0 pays0 sfPreviousFields; sample_offer gets1 pays1 sfFinalFields].

Definition changes_meta (b : Blob) : TreeObj :=
  mkObj sfAffectedNodes
    [(sfAffectedNodes,
      VArr (if decide (b = [1]) then [sample_crossing 100 50 60 30; sample_crossing 40 10 10 0] else [sample_crossing 60 30 50 20]))].

#[local] Instance changes_ripple : Ripple :=
  TreeRipple (fun b => Ok (mkTreeTx ttOFFER_CREATE 0 (mkObj sfAccount [(sfTransactionType, VNum 7)])))
    (fun _ _ _ => Throw OutOfRange) (fun _ _ => Throw OutOfRange).

#[local] Instance changes_amounts : @Amounts changes_ripple := {
  STAmount := Z * Z;
  getFieldAmount := (fun o f => z ← get_num o f; Ok (z / 1000, z mod 1000)) : @STObject changes_ripple -> _ -> _;
  isFlag := fun _ _ => false; keylet_line := fun _ _ _ => 0; accountReserve := fun _ _ => 0;
  amt_default := (0, 0); amt_native := fun a => a.1 =? 0; amt_currency := fst; amt_issuer := fst;
  amt_clear_issue := fun i => (i.1, 0); amt_clear := fun a => (a.1, 0); amt_of_xrp := fun z => (0, z); amt_xrp := fun a => Ok a.2;
  amt_negate := fun a => (a.1, - a.2); amt_setIssuer := fun _ a => a; amt_negative := fun a => a.2 <? 0;
  amt_less := fun a b => Ok (a.2 <? b.2);
  amt_sub := fun a b => Ok (a.1, a.2 - b.2);
  amt_multiply := fun a b _ => Ok (a.1, a.2 * b.2); rate_multiply := fun a _ => Ok a; rate_divide := fun a _ => Ok a;
  getQuality := fun z => z; amountFromQuality := fun z => Ok (0, z);
  amt_json := fun a => JInt64 a.2; amt_text := fun _ => "amount"; offer_toJson := fun _ => [] }.

#[local] Instance changes_cross : @CrossAmounts changes_ripple changes_amounts := {
  parseMetadata := (fun b => Ok (changes_meta b)) : _ -> Res (@STObject changes_ripple);
  amt_is_zero := (fun a => a.2 =? 0) : @STAmount _ changes_amounts -> _;
  amt_add := (fun a b => Ok (a.1, a.2 + b.2)) : @STAmount _ changes_amounts -> _;
  amt_divide := (fun a b => Ok (9, a.2 / b.2)) : @STAmount _ changes_amounts -> _;
  issue_text := (fun a => if a.1 =? 0 then "XRP" else "USD") : @STAmount _ changes_amounts -> _;
  xrp_text := (fun _ => "xrp") : @STAmount _ changes_amounts -> _;
  iou_text := (fun _ => "iou") : @STAmount _ changes_amounts -> _ }.

Definition changes_sample : list TransactionAndMetadata :=
  [mkTransactionAndMetadata [] [1] 5 0; mkTransactionAndMetadata [] [2] 5 0].

Definition amount (currency value : Z) : @STAmount changes_ripple changes_amounts := (currency, value).

Definition sample_changes : list BookChange :=
  [mkBookChange (amount 0 80) (amount 1 40) (amount 9 3) (amount 9 1) (amount 9 2) (amount 9 1)].

(** Rates 2, 3 and 1 one after the other. *)
Lemma book_changes_reference_witness :
  compute changes_sample = Ok sample_changes /\
  (forall cs, all_crossings changes_sample = Ok cs -> map_order (list_to_set (c_key <$> cs)) = ["XRP|USD"]) /\
  exists cs, all_crossings changes_sample = Ok cs /\ length cs = 3%nat.
Proof.
  assert (RateOrder) as Ho.
  { exists (fun a b : Z * Z => a.2 <? b.2). split_and!; [reflexivity | intros; lia | intros; lia]. }
  destruct (book_changes_reference changes_sample sample_changes) as [H1 H2].
  assert (compute changes_sample = Ok sample_changes) as Hc
    by (apply H1; reflexivity).
  split; [exact Hc|]. split; [by intros cs [= <-]|]. destruct (H2 Ho Hc) as (cs & Hcs & _). exists cs. split; [exact Hcs|].
  by injection Hcs as <-.
Defined.
