(* ===== verification/LedgerData.v ===== *)
(** The objects of a ledger, a page at a time ([rpc/handlers/LedgerData.cpp]).

    A request without a marker is answered with the header and the first page; the
    marker of an answer asks for the next. Out of order, the keys are those of the
    newest ledger, and once they are exhausted the objects deleted since are
    found by way of the differences of the ledgers after. [ledger_data_walk]: a
    client that follows the markers. *)

From stdpp Require Import base list gmap strings sorting.
From Stdlib Require Import ZArith Lia.
From S2P Require Import Prelude Types TreeRipple SimpleCache Backend Json Errors Requests Directory Rpc TxRequests NgAccounts.

#[local] Open Scope string_scope.
#[local] Open Scope list_scope.
Open Scope Z_scope.

(** [toJson(sle)] and [serializeHex(sle)]; a blob in hexadecimal; amounts of
    drops and times as texts. *)
Class DataRendering `{Ripple} := {
  sle_toJson : STObject -> json;
  sle_serializeHex : STObject -> string;
  bytes_strHex : Blob -> string;
  drops_text : Z -> string;
  time_text : Z -> string
}.

Section ledger_data.
Context `{BackendImpl W} `{LedgerReads W} `{DataRendering} `{SerialCodec} `{CursorText} `{RippleStrings} `{LexicalCast}.
Context (fetchLedgerDiff : Z -> M W (list LedgerObject)).

(** ** The handler *)

Definition data_out_of_order (request : JsonObject) : Outcome bool :=
  match obj_find "out_of_order" request with
  | None => Done false
  | Some (JBool b) => Done b
  | Some _ => Failed (Status_message (Rippled rpcINVALID_PARAMS) "binaryFlagNotBool")
  end.

(** The marker: a key, or the number of a ledger. *)
Definition data_marker (outOfOrder : bool) (request : JsonObject) : Res (Outcome (option uint256 * option Z)) :=
  match obj_find "marker" request with
  | None => Ok (Done (None, None))
  | Some (JString s) =>
      Ok match parseHex (c_str s) with
         | Some marker => Done (Some marker, None)
         | None => Failed (Status_message (Rippled rpcINVALID_PARAMS) "markerMalformed")
         end
  | Some v =>
      if outOfOrder then
        match v with
        | JInt64 z => if (0 <=? z) && (z <? 2 ^ 32) then Ok (Done (None, Some z)) else Throw (LibraryError "not exact")
        | _ => Ok (Failed (Status_message (Rippled rpcINVALID_PARAMS) "markerNotStringOrInt"))
        end
      else Ok (Failed (Status_message (Rippled rpcINVALID_PARAMS) "markerNotString"))
  end.

Definition data_header (binary : bool) (lgrInfo : LedgerInfo) : JsonObject :=
  (if binary then [("ledger_data", JString (bytes_strHex (ledgerInfoToBlob lgrInfo false)))]
   else
     [("accepted", JBool true); ("account_hash", JString (strHex (li_accountHash lgrInfo)));
      ("close_flags", JInt64 (li_closeFlags lgrInfo)); ("close_time", JUint64 (li_closeTime lgrInfo));
      ("close_time_human", JString (time_text (li_closeTime lgrInfo)));
      ("close_time_resolution", JUint64 (li_closeTimeResolution lgrInfo));
      ("hash", JString (strHex (li_hash lgrInfo))); ("ledger_hash", JString (strHex (li_hash lgrInfo)));
      ("ledger_index", JString (to_string (li_seq lgrInfo))); ("parent_close_time", JUint64 (li_parentCloseTime lgrInfo));
      ("parent_hash", JString (strHex (li_parentHash lgrInfo))); ("seqNum", JString (to_string (li_seq lgrInfo)));
      ("totalCoins", JString (drops_text (li_drops lgrInfo))); ("total_coins", JString (drops_text (li_drops lgrInfo)));
      ("transaction_hash", JString (strHex (li_txHash lgrInfo)))]) ++
  [("closed", JBool true)].

Definition data_object (binary : bool) (o : LedgerObject) : Res json :=
  sle ← parseSLE (lo_blob o) (lo_key o);
  Ok (if binary then JObject [("data", JString (sle_serializeHex sle)); ("index", JString (strHex (lo_key o)))]
      else sle_toJson sle).

(** What was deleted in a ledger and is still there in the one asked for. *)
Definition deleted_objects (diffMarker seq : Z) : M W (list LedgerObject) :=
  diff ← fetchLedgerDiff diffMarker;
  let keys := lo_key <$> filter (fun o => lo_blob o = []) diff in
  objs ← fetchLedgerObjects keys seq;
  mret (page_objects_of keys objs).

(** The objects of a page and the marker of the next. *)
Definition data_page (marker : option uint256) (diffMarker : option Z) (seq limit : Z) (outOfOrder : bool)
  : M W (list LedgerObject * option json) :=
  match diffMarker with
  | Some d =>
      results ← deleted_objects d seq;
      mret (results, if d >? seq then Some (JUint64 (d - 1)) else None)
  | None =>
      page ← fetchLedgerPage marker seq limit outOfOrder;
      match page_cursor page with
      | Some c => mret (page_objects page, Some (JString (strHex c)))
      | None =>
          if outOfOrder then
            rng ← fetchLedgerRange;
            match rng with
            | Some r => mret (page_objects page, Some (JUint64 (maxSequence r)))
            | None => throw BadOptionalAccess
            end
          else mret (page_objects page, None)
      end
  end.

(** The header goes with a request without a marker; otherwise a key has to be in
    the ledger. *)
Definition data_marker_exists (marker : option uint256) (request : JsonObject) (outOfOrder : bool) (seq : Z)
  : M W (Outcome unit) :=
  if negb (contains request "marker") || outOfOrder then mret (Done tt)
  else
    match marker with
    | None => throw BadOptionalAccess
    | Some m =>
        o ← fetchLedgerObject m seq;
        mret (match o with
              | Some _ => Done tt
              | None => Failed (Status_message (Rippled rpcINVALID_PARAMS) "markerDoesNotExist")
              end)
    end.

(** The parameters of a request, in the order they are looked at. *)
Definition data_request (context : Context) : Res (Outcome (bool * Z * bool * (option uint256 * option Z))) :=
  let request := ctx_params context in
  binary ← getBool_default request "binary" false;
  match getLimit context with
  | Failed s => Ok (Failed s)
  | Done limit =>
      let limit := if (binary : bool) then limit else Z.max 1 (Z.min limit 256) in
      match data_out_of_order request with
      | Failed s => Ok (Failed s)
      | Done outOfOrder =>
          markers ← data_marker outOfOrder request;
          Ok (markers ← markers; Done (binary, limit, outOfOrder, markers))
      end
  end.

Definition data_response (request : JsonObject) (binary outOfOrder : bool) (lgrInfo : LedgerInfo) (next : option json)
    (objects : list json) (cache_full : bool) : JsonObject :=
  (if contains request "marker" then [] else [("ledger", JObject (data_header binary lgrInfo))]) ++
  [("ledger_hash", JString (strHex (li_hash lgrInfo))); ("ledger_index", JUint64 (li_seq lgrInfo))] ++
  match next with Some m => [("marker", m)] | None => [] end ++
  [("state", JArray objects)] ++
  (if outOfOrder then [("cache_full", JBool cache_full)] else []).

Definition doLedgerData (context : Context) : M W (Outcome JsonObject) :=
  let request := ctx_params context in
  params ← lift_res (data_request context);
  match params with
  | Failed s => mret (Failed s)
  | Done (binary, limit, outOfOrder, (marker, diffMarker)) =>
      v ← ledgerInfoFromRequest request (ctx_range context);
      match v with
      | Failed s => mret (Failed s)
      | Done lgrInfo =>
          exists_ ← data_marker_exists marker request outOfOrder (li_seq lgrInfo);
          match exists_ with
          | Failed s => mret (Failed s)
          | Done _ =>
              page ← data_page marker diffMarker (li_seq lgrInfo) limit outOfOrder;
              let '(results, next) := page in
              objects ← lift_res (res_map (data_object binary) results);
              cache_full ← gets (fun w => isFull (cache_ w));
              mret (Done (data_response request binary outOfOrder lgrInfo next objects cache_full))
          end
      end
  end.

(** ** A client *)

Definition with_marker (marker : option string) (params : JsonObject) : JsonObject :=
  match marker with Some m => obj_set "marker" (JString m) params | None => params end.

Definition with_params (params : JsonObject) (ctx : Context) : Context :=
  mkContext (ctx_method ctx) params (ctx_session ctx) (ctx_range ctx) (ctx_clientIp ctx).

(** It sends the same request again with the marker of each answer, as long as
    there is one that is a key, and gathers the objects. *)
Fixpoint data_client (fuel : nat) (ctx : Context) (marker : option string) : M W (Outcome (list json)) :=
  match fuel with
  | O => no_fuel
  | S fuel' =>
      r ← doLedgerData (with_params (with_marker marker (ctx_params ctx)) ctx);
      match r with
      | Failed s => mret (Failed s)
      | Done response =>
          let objects := match obj_find "state" response with Some (JArray l) => l | _ => [] end in
          match obj_find "marker" response with
          | Some (JString m) =>
              rest ← data_client fuel' ctx (Some m);
              mret (rest ← rest; Done (objects ++ rest))
          | _ => mret (Done objects)
          end
      end
  end.

End ledger_data.

(** ** Following the markers *)

Section walk.
Context `{BackendImpl W} `{LedgerReads W} {Ldg : Z -> gmap Z Blob} {I : W -> Prop} {E : Exn -> W -> Prop}.
Context `{!ReadLaws Ldg I E} {info : LedgerInfo} `{!ServesLedger I E info}.
Context `{DataRendering} `{SerialCodec} `{CursorTextLaws}.
Context (fetchLedgerDiff : Z -> M W (list LedgerObject)).
Context (ctx : Context) (binary : bool) (limit : Z).

Abbreviation params := (ctx_params ctx).
Abbreviation seq := (li_seq info).
Abbreviation page_limit := (if binary then limit else Z.max 1 (Z.min limit 256)).

(** A request for the ledger by its number, with a limit and in order; every object
    of the ledger can be parsed. *)
Record data_walk_ok : Prop := {
  dw_hash : obj_find "ledger_hash" params = None;
  dw_index : obj_find "ledger_index" params = Some (JInt64 seq);
  dw_seq : 0 <= seq < 2 ^ 32 /\ seq <= maxSequence (ctx_range ctx);
  dw_order : obj_find "out_of_order" params = None;
  dw_marker : obj_find "marker" params = None;
  dw_binary : getBool_default params "binary" false = Ok binary;
  dw_limit : getLimit ctx = Done limit /\ 0 < limit;
  dw_text : forall x, c_str (strHex x) = strHex x;
  dw_parse : forall k b, Ldg seq !! k = Some b -> exists sle, parseSLE b k = Ok sle }.

Lemma find_marker m k : k <> "marker" -> obj_find k (with_marker m params) = obj_find k params.
Proof. intros Hk. destruct m; [|done]. cbn. by rewrite obj_find_set, decide_False. Qed.

Lemma request_marker_spec cursor :
  data_walk_ok ->
  data_request (with_params (with_marker (strHex <$> cursor) params) ctx) = Ok (Done (binary, page_limit, false, (cursor, None))).
Proof.
  intros Hok. unfold data_request. cbn [with_params ctx_params].
  replace (getBool_default (with_marker (strHex <$> cursor) params) "binary" false) with (Ok binary).
  2:{ rewrite <- (dw_binary Hok). unfold getBool_default, getBool, contains, at_. by rewrite find_marker. }
  cbn [mbind Res_bind].
  replace (getLimit (with_params (with_marker (strHex <$> cursor) params) ctx)) with (getLimit ctx).
  2:{ unfold getLimit. cbn [with_params ctx_params ctx_method]. by rewrite find_marker. }
  rewrite (proj1 (dw_limit Hok)). unfold data_out_of_order, data_marker. rewrite find_marker, (dw_order Hok) by done.
  destruct cursor as [c|]; cbn [fmap option_fmap option_map with_marker].
  - rewrite obj_find_set, decide_True by done. rewrite (dw_text Hok), hex_parse. done.
  - by rewrite (dw_marker Hok).
Qed.

Lemma request_ledger_spec marker :
  data_walk_ok ->
  triple I (ledgerInfoFromRequest (with_marker marker params) (ctx_range ctx)) (fun r w => r = Done info /\ I w) E.
Proof.
  intros Hok. unfold ledgerInfoFromRequest. rewrite !find_marker, (dw_hash Hok), (dw_index Hok) by done. cbn [default from_option id].
  unfold u32. rewrite Z.mod_small by apply Hok.
  eapply triple_bind; [apply sl_ledger|]. intros r. apply triple_pre_pure. intros ->. apply triple_ret. intros w Hw.
  replace (seq >? maxSequence (ctx_range ctx)) with false by (pose proof (dw_seq Hok); lia). done.
Qed.

Lemma data_object_ok k : data_walk_ok -> is_Some (Ldg seq !! k) -> exists o, data_object binary (object_at (Ldg seq) k) = Ok o.
Proof.
  intros Hok [b Hb]. destruct (dw_parse Hok k b Hb) as [sle Hs]. unfold data_object, object_at. cbn. rewrite Hb. cbn. rewrite Hs. by eexists.
Qed.

Lemma data_objects_ok ks :
  data_walk_ok -> Forall (fun k => is_Some (Ldg seq !! k)) ks ->
  exists os, res_map (data_object binary) (object_at (Ldg seq) <$> ks) = Ok os /\
    Forall2 (fun k o => data_object binary (object_at (Ldg seq) k) = Ok o) ks os.
Proof.
  intros Hok. induction 1 as [|k ks Hk _ (os & Ho & Hf)]; [by exists []|]. destruct (data_object_ok k Hok Hk) as [o Hko].
  exists (o :: os). cbn. rewrite Hko. cbn. rewrite Ho. split; [done|]. by constructor.
Qed.

Lemma keys_from_in cursor : Forall (fun k => is_Some (Ldg seq !! k)) (keys_from (Ldg seq) cursor).
Proof. apply Forall_forall. intros k Hk. by apply keys_after_elem in Hk as [? _]. Qed.

(** One request: the next keys, and the marker when there are that many. *)
Definition page_answer (cursor : option Z) (r : Outcome JsonObject) : Prop :=
  exists response os, r = Done response /\ obj_find "state" response = Some (JArray os) /\
    Forall2 (fun k o => data_object binary (object_at (Ldg seq) k) = Ok o)
      (take (Z.to_nat page_limit) (keys_from (Ldg seq) cursor)) os /\
    match obj_find "marker" response with
    | None => (length (keys_from (Ldg seq) cursor) < Z.to_nat page_limit)%nat
    | Some v => exists c, v = JString (strHex c) /\ is_Some (Ldg seq !! c) /\
        keys_from (Ldg seq) (Some c) = drop (Z.to_nat page_limit) (keys_from (Ldg seq) cursor) /\
        (Z.to_nat page_limit <= length (keys_from (Ldg seq) cursor))%nat
    end.

Lemma marker_exists_spec cursor :
  data_walk_ok -> (forall k, cursor = Some k -> is_Some (Ldg seq !! k)) ->
  triple I (data_marker_exists cursor (with_marker (strHex <$> cursor) params) false seq) (fun r w => r = Done tt /\ I w) E.
Proof.
  intros Hok Hc. unfold data_marker_exists, contains. destruct cursor as [c|]; cbn [fmap option_fmap option_map with_marker].
  - rewrite obj_find_set, decide_True, bool_decide_true by done. destruct (Hc c eq_refl) as [b Hb]. cbn [negb orb].
    eapply triple_bind; [apply fetchLedgerObject_spec; by eapply rl_valid|].
    intros r. apply triple_pre_pure. intros ->. rewrite Hb. by apply triple_ret.
  - rewrite (dw_marker Hok), bool_decide_false by (by intros [? ?]). by apply triple_ret.
Qed.

Lemma doLedgerData_spec cursor :
  data_walk_ok -> (forall k, cursor = Some k -> is_Some (Ldg seq !! k)) ->
  triple I (doLedgerData fetchLedgerDiff (with_params (with_marker (strHex <$> cursor) params) ctx))
    (fun r w => page_answer cursor r /\ I w) E.
Proof.
  intros Hok Hc. unfold doLedgerData. rewrite request_marker_spec by done. apply triple_ok_bind. cbn beta iota.
  cbn [with_params ctx_params ctx_range].
  eapply triple_bind; [by apply request_ledger_spec|]. intros r. apply triple_pre_pure. intros ->.
  eapply triple_bind; [by apply marker_exists_spec|]. intros r. apply triple_pre_pure. intros ->.
  set (K := keys_from (Ldg seq) cursor). set (N := Z.to_nat page_limit).
  eapply (triple_bind _ _ _ (fun r w => (r.1 = object_at (Ldg seq) <$> take N K /\
    match r.2 with
    | None => (length K < N)%nat
    | Some v => exists c, v = JString (strHex c) /\ is_Some (Ldg seq !! c) /\ keys_from (Ldg seq) (Some c) = drop N K /\ (N <= length K)%nat
    end) /\ I w)).
  { unfold data_page. eapply triple_bind.
    { apply (fetchLedgerPage_chunk cursor seq page_limit); [|done]. pose proof (dw_limit Hok). destruct binary; lia. }
    intros page. destruct (page_cursor page) as [c|] eqn:Hpc; apply triple_ret; intros w (Ho & Hm & Hw); rewrite Hpc in Hm.
    - split; [|done]. split; [exact Ho|]. exists c. split; [done|]. exact Hm.
    - split; [|done]. by split. }
  intros [results next]. apply triple_pre_pure. cbn [fst snd]. intros [-> Hnext].
  destruct (data_objects_ok (take N K) Hok) as (os & -> & Hos); [apply Forall_take, keys_from_in|].
  apply triple_ok_bind. apply triple_gets. intros full. apply triple_ret. intros w [Hw _]. split; [|done].
  eexists _, os. split; [done|]. unfold data_response.
  set (hd := if contains _ "marker" then _ else _).
  assert (forall k, k <> "ledger" -> forall l, obj_find k (hd ++ l) = obj_find k l) as Hhd.
  { intros k Hk l. unfold hd. destruct (contains _ _); [done|]. cbn. by rewrite decide_False. }
  rewrite !Hhd by done. destruct next as [v|]; cbn; by split_and!.
Qed.

Lemma data_client_spec fuel cursor :
  data_walk_ok -> (forall k, cursor = Some k -> is_Some (Ldg seq !! k)) ->
  (length (keys_from (Ldg seq) cursor) < fuel)%nat ->
  triple I (data_client fetchLedgerDiff fuel ctx (strHex <$> cursor))
    (fun r w => (exists os, r = Done os /\
       Forall2 (fun k o => data_object binary (object_at (Ldg seq) k) = Ok o) (keys_from (Ldg seq) cursor) os) /\ I w) E.
Proof.
  intros Hok. revert cursor. induction fuel as [|fuel IH]; intros cursor Hc Hf; [lia|]. cbn [data_client].
  eapply triple_bind; [by apply doLedgerData_spec|]. intros r. apply triple_pre_pure.
  intros (response & os & -> & -> & Hos & Hm).
  destruct (obj_find "marker" response) as [v|].
  - destruct Hm as (c & -> & Hcin & Hrest & Hlen).
    pose proof (dw_limit Hok) as [_ Hpos]. assert (0 < Z.to_nat page_limit)%nat as HN by (destruct binary; lia).
    eapply triple_bind.
    { apply (IH (Some c)); [by intros k [= <-]|]. rewrite Hrest, length_drop. lia. }
    intros r. apply triple_pre_pure. intros (rest & -> & Hr). apply triple_ret. intros w Hw. split; [|done].
    exists (os ++ rest). split; [done|]. rewrite <- (take_drop (Z.to_nat page_limit) (keys_from (Ldg seq) cursor)), <- Hrest.
    by apply Forall2_app.
  - apply triple_ret. intros w Hw. split; [|done]. exists os. split; [done|]. rewrite take_ge in Hos by lia. done.
Qed.

(** C23: reading a whole ledger. A client that asks for the objects of a ledger
    and sends the marker of each answer back gets, whatever the limit, every
    object of the ledger, rendered, exactly once and in the order of the keys,
    and the answers end within one request more than there are objects. *)
Theorem ledger_data_walk (fuel : nat) :
  data_walk_ok -> (size (Ldg seq) < fuel)%nat ->
  triple I (data_client fetchLedgerDiff fuel ctx None)
    (fun r w => (exists keys os, r = Done os /\ StronglySorted Z.lt keys /\
       (forall k, k ∈ keys <-> firstKey < k /\ is_Some (Ldg seq !! k)) /\
       Forall2 (fun k o => data_object binary (object_at (Ldg seq) k) = Ok o) keys os) /\ I w) E.
Proof.
  intros Hok Hf. eapply triple_conseq; [apply (data_client_spec fuel None Hok) | done | | done].
  - done.
  - pose proof (keys_after_size (Ldg seq) firstKey (size (Ldg seq))). unfold keys_from. cbn. lia.
  - intros r w [(os & -> & Hos) Hw]. split; [|done]. exists (keys_from (Ldg seq) None), os. split; [done|]. unfold keys_from in *. cbn in *.
    pose proof (keys_after_sorted (Ldg seq) firstKey (size (Ldg seq))) as Hs. apply StronglySorted_inv in Hs as [Hs _].
    split_and!; [done| |done]. intros k. split.
    + intros [? ?]%keys_after_elem. done.
    + intros [Hk Hin]. rewrite (keys_after_enough _ _ _ (S (size (Ldg seq)))) by lia.
      apply keys_after_complete; [|done..]. pose proof (keys_after_size (Ldg seq) firstKey (S (size (Ldg seq)))). lia.
Qed.

End walk.

(** ** An instance *)

#[local] Existing Instances ng_ripple ng_backend ng_reads ng_laws ng_serves.

#[local] Instance data_rendering : @DataRendering ng_ripple := {
  sle_toJson := (fun sle => JInt64 (Z.of_nat (length (obj_fields sle)))) : @STObject ng_ripple -> _;
  sle_serializeHex := (fun _ => "00") : @STObject ng_ripple -> _;
  bytes_strHex := fun _ => "00"; drops_text := fun _ => "0"; time_text := fun _ => "now" }.

Definition data_ctx : Context :=
  mkContext "ledger_data" [("ledger_index", JInt64 6); ("limit", JInt64 3); ("binary", JBool true)] None (mkLedgerRange 1 9) "".

Lemma z_text_c_str z : c_str (z_text z) = z_text z.
Proof.
  assert (forall p, c_str (pos_text p) = pos_text p) as Hp by (induction p; cbn; by rewrite ?IHp).
  destruct z; cbn; by rewrite ?Hp.
Qed.

(** Three objects at a time, of the seven of the ledger; object 101 is among them. *)
Lemma ledger_data_walk_witness :
  exists w os o, data_client (fun _ => mret []) 8 data_ctx None ng_world = (Ok (Done os), w) /\
    o ∈ os /\ data_object true (object_at (L ng_history 6) 101) = Ok o.
Proof.
  assert (data_walk_ok (Ldg := L ng_history) (info := ng_info) data_ctx true 3) as Hok.
  { split; try reflexivity; try (split; [reflexivity | lia]); [cbn; lia | apply z_text_c_str |].
    intros k b Hb. apply (ng_ledger_cases (fun k b => exists sle, parseSLE b k = Ok sle)) in Hb; [exact Hb | eexists; reflexivity..]. }
  destruct (triple_run _ _ _ _
    (ledger_data_walk (I := ng_served) (fun _ => mret []) data_ctx true 3 8 Hok ltac:(vm_compute; lia)) ng_world_ok)
    as (r & w & Hrun & (keys & os & -> & Hs & Hk & Hos) & _).
  assert (101 ∈ keys) as [i Hi]%list_elem_of_lookup_1 by (apply Hk; split; [done | vm_compute; by eexists]).
  destruct (Forall2_lookup_l _ _ _ _ _ Hos Hi) as (o & Ho & Hd).
  exists w, os, o. split; [exact Hrun|]. split; [by eapply list_elem_of_lookup_2 | exact Hd].
Defined.
