(* ===== verification/PeerCache.v ===== *)
(** Loading the cache from another node ([loadCache] and [loadCacheFromClioPeer] of
    [etl/ReportingETL.cpp]).

    The nodes of the configuration are tried in order; each is asked for the objects
    of the ledger out of order, page after page. The coroutine that does this is a
    state machine: [peer_connect] and [peer_reply] are what it does with the outcome
    of its asynchronous operations, between which later ledgers are applied to the
    cache. The composition is with the server of the other node: the session's
    [handle_request] ([Rpc]), the handler ([LedgerData]) and its backend.
    [peer_cache_load]: what the cache holds, and that the loading ends. *)

From stdpp Require Import base list gmap strings sorting relations.
From Stdlib Require Import ZArith Lia.
From S2P Require Import Prelude Types TreeRipple SimpleCache Backend CacheLoad DosGuard Json Errors Requests Subscriptions Directory Rpc TxRequests NgAccounts Config Settings LedgerData.

#[local] Open Scope string_scope.
#[local] Open Scope list_scope.
Open Scope Z_scope.

(** [boost::algorithm::unhex]; it throws where the text is not hexadecimal. *)
Class Unhex := { unhex : string -> Res Blob }.

(** ** The client *)

(** The outcome of a request: it could not be written, no answer could be read, or
    what parsing the answer gave. *)
Inductive PeerReply := PWriteError | PReadError | PMessage (parsed : Res json).

(** Where the coroutine is: about to connect, waiting for the answer to a request,
    started on the database, done; or there is none. *)
Inductive PeerPc := PIdle | PConnect | PAsk (marker : option json) (started : bool) (numAttempts : Z) | PDb | PLoaded.

(** The cache, the nodes left with the one in use first. *)
Record PeerCache := mkPeerCache { pc_cache : SimpleCache; pc_peers : list ClioPeer; pc_state : PeerPc }.

Definition getRequest (ledgerIndex : Z) (marker : option json) : JsonObject :=
  let request := [("command", JString "ledger_data"); ("ledger_index", JUint64 ledgerIndex); ("binary", JBool true);
                  ("out_of_order", JBool true); ("limit", JInt64 2048)] in
  match marker with Some m => obj_set "marker" m request | None => request end.

(** What an answer leads to. *)
Inductive PeerNext := GiveUp | TryAgain (numAttempts : Z) | NextPage (objects : list LedgerObject) (marker : option json).

Section client.
Context `{RippleStrings} `{Unhex}.

(** [None] when the key of an object cannot be read. *)
Definition peer_object (ledgerObject : json) : Res (option LedgerObject) :=
  obj ← as_object ledgerObject;
  index ← (v ← at_ obj "index"; as_string v);
  match parseHex (c_str index) with
  | None => Ok None
  | Some key =>
      data ← (v ← at_ obj "data"; as_string v);
      blob ← unhex (c_str data);
      Ok (Some (mkLedgerObject key blob))
  end.

Fixpoint peer_objects (state : list json) : Res (option (list LedgerObject)) :=
  match state with
  | [] => Ok (Some [])
  | v :: state' =>
      o ← peer_object v;
      match o with
      | None => Ok None
      | Some o => os ← peer_objects state'; Ok (match os with Some os => Some (o :: os) | None => None end)
      end
  end.

Definition peer_result (parsed : JsonObject) : Res PeerNext :=
  response ← as_object (default JNull (obj_find "result" parsed));
  cache_full ← (if contains response "cache_full" then v ← at_ response "cache_full"; as_bool v else Ok false);
  if negb cache_full then Ok GiveUp
  else
    let marker := obj_find "marker" response in
    state ← (v ← at_ response "state"; as_array v);
    objects ← peer_objects state;
    Ok (match objects with Some objects => NextPage objects marker | None => GiveUp end).

Definition peer_response (numAttempts : Z) (parsed : json) : Res PeerNext :=
  match parsed with
  | JObject response =>
      match obj_find "error" response with
      | Some err =>
          if (match err with JString s => bool_decide (s = "lgrNotFound") | _ => false end) then
            let numAttempts := numAttempts + 1 in
            Ok (if numAttempts >=? 5 then GiveUp else TryAgain numAttempts)
          else Ok GiveUp
      | None => peer_result response
      end
  | _ => Ok GiveUp
  end.

(** The next node, the database after the last. *)
Definition next_peer (c : SimpleCache) (peers : list ClioPeer) : PeerCache :=
  mkPeerCache c peers (match peers with [] => PDb | _ => PConnect end).

Definition peer_failed (st : PeerCache) : PeerCache := next_peer (pc_cache st) (tail (pc_peers st)).

(** Resolving, connecting and the handshake. *)
Definition peer_connect (ok : bool) (st : PeerCache) : option PeerCache :=
  match pc_state st with
  | PConnect => Some (if ok then mkPeerCache (pc_cache st) (pc_peers st) (PAsk None false 0) else peer_failed st)
  | _ => None
  end.

(** The condition of the loop, and what follows it. *)
Definition peer_loop (c : SimpleCache) (peers : list ClioPeer) (marker : option json) (started : bool) (numAttempts : Z)
  : PeerCache :=
  if bool_decide (is_Some marker) || negb started then mkPeerCache c peers (PAsk marker started numAttempts)
  else mkPeerCache (setFull c) peers PLoaded.

(** The rest of an iteration; an exception ends the attempt at this node. *)
Definition peer_reply (ledgerIndex : Z) (r : PeerReply) (st : PeerCache) : option PeerCache :=
  match pc_state st with
  | PAsk marker started numAttempts =>
      Some match (match r with PMessage (Ok parsed) => peer_response numAttempts parsed | _ => Ok GiveUp end) with
           | Ok (TryAgain numAttempts) => peer_loop (pc_cache st) (pc_peers st) marker started numAttempts
           | Ok (NextPage objects marker) =>
               peer_loop (update objects ledgerIndex true (pc_cache st)) (pc_peers st) marker true numAttempts
           | _ => peer_failed st
           end
  | _ => None
  end.

(** ** The start *)

Definition loadCache (style : CacheLoadStyle) (peers : list ClioPeer) (loading : bool) (c : SimpleCache) : PeerCache :=
  match style with
  | NOT_AT_ALL => mkPeerCache (setDisabled c) [] PIdle
  | _ => if loading || isFull c then mkPeerCache c [] PIdle else next_peer c peers
  end.

(** Whether the caller is kept waiting, as it looks at the cache. *)
Definition loadCache_waits (style : CacheLoadStyle) (peers : list ClioPeer) (c : SimpleCache) : bool :=
  match style, peers with
  | SYNC, [] => negb (isFull c)
  | _, _ => false
  end.

End client.

(** ** The other node *)

(** What is read back of a number; everything else is read back as it was. A
    non-negative number that fits is read as a signed one. *)
Fixpoint read_back (read_double : Z -> json) (v : json) : json :=
  match v with
  | JUint64 z => if z <? 2 ^ 63 then JInt64 z else JUint64 z
  | JDouble d => read_double d
  | JArray l => JArray (map (read_back read_double) l)
  | JObject m => JObject (map (fun kv => (kv.1, read_back read_double kv.2)) m)
  | _ => v
  end.

(** The text of an object, parsed. *)
Class JsonWire := {
  read_double : Z -> json;
  wire : JsonObject -> Res json;
  wire_reads : forall m v, wire m = Ok v -> v = read_back read_double (JObject m)
}.

Lemma read_back_find rd (m : JsonObject) k :
  obj_find k (map (fun kv => (kv.1, read_back rd kv.2)) m) = read_back rd <$> obj_find k m.
Proof. induction m as [|[j v] m IH]; cbn; [done|]. case_decide; [done | exact IH]. Qed.

(** Where a request starts: at the first key, behind a key of the newest ledger, or
    at the keys deleted in a ledger. *)
Inductive PeerCursor := FromStart | FromKey (c : Z) | FromLedger (d : Z).

Definition cursor_marker `{CursorText} (cur : PeerCursor) : option json :=
  match cur with FromStart => None | FromKey c => Some (JString (strHex c)) | FromLedger d => Some (JInt64 d) end.

Definition cursor_key (cur : PeerCursor) : option Z := match cur with FromKey c => Some c | _ => None end.
Definition cursor_ledger (cur : PeerCursor) : option Z := match cur with FromLedger d => Some d | _ => None end.

(** ** What is left at a cursor *)

Section left.
Context (h : SimpleCache.history) (newest : Z).

Local Abbreviation seq := (s0 h).

(** Deleted between the ledger that is loaded and [d]. *)
Definition gone (d k : Z) : Prop := exists s, seq < s <= d /\ L h s !! k = None.

(** The keys of the ledger that the requests from a cursor on have to bring. *)
Definition left_at (cur : option PeerCursor) (k : Z) : Prop :=
  is_Some (L h seq !! k) /\
  match cur with
  | Some FromStart => True
  | Some (FromKey c) => c < k \/ gone newest k
  | Some (FromLedger d) => gone d k
  | None => False
  end.

Definition cursor_ok (cur : PeerCursor) : Prop :=
  match cur with FromStart => True | FromKey c => is_Some (L h newest !! c) | FromLedger d => seq <= d <= newest end.

(** A bound on the number of requests from a cursor on. *)
Definition togo (cur : option PeerCursor) : nat :=
  match cur with
  | None => 0
  | Some (FromLedger d) => S (Z.to_nat (d - seq))
  | Some cur => 2 + Z.to_nat (newest - seq) + length (keys_from (L h newest) (cursor_key cur))
  end.

(** A page [ks] brings what is left up to the next cursor. *)
Definition page_of (cur : PeerCursor) (ks : list Z) (next : option PeerCursor) : Prop :=
  Forall (fun k => is_Some (L h seq !! k)) ks /\
  (forall k, left_at (Some cur) k -> k ∈ ks \/ left_at next k) /\
  (forall cur', next = Some cur' -> cursor_ok cur' /\ cur' <> FromStart) /\ (togo next < togo (Some cur))%nat.

Definition live_keys (ks : list Z) : list Z := filter (fun k => is_Some (L h seq !! k)) ks.

Lemma live_keys_live ks : Forall (fun k => is_Some (L h seq !! k)) (live_keys ks).
Proof. apply Forall_forall. by intros k [? _]%list_elem_of_filter. Qed.

Lemma page_objects_live ks :
  page_objects_of ks ((fun k => default [] (L h seq !! k)) <$> ks) = object_at (L h seq) <$> live_keys ks.
Proof.
  unfold live_keys. induction ks as [|k ks IH]; [done|]. cbn [page_objects_of fmap list_fmap]. rewrite filter_cons.
  destruct (L h seq !! k) as [b|] eqn:Hb; cbn [default from_option].
  - rewrite decide_True by done. destruct b as [|x b]; [by apply L_nonempty in Hb|]. cbn. rewrite IH.
    unfold object_at at 2. by rewrite Hb.
  - rewrite decide_False by (intros [? ?]; congruence). cbn. exact IH.
Qed.

Hypothesis Hnewest : seq <= newest.

(** Behind a cursor a key of the ledger is among the newest ledger's or was deleted. *)
Lemma live_or_gone k : is_Some (L h seq !! k) -> is_Some (L h newest !! k) \/ gone newest k.
Proof.
  intros Hk. destruct (L h newest !! k) eqn:Hn; [left; by eexists | right]. exists newest. split; [|done].
  destruct (decide (seq = newest)) as [Heq|]; [|lia]. rewrite <- Heq in Hn. rewrite Hn in Hk. by destruct Hk.
Qed.

Lemma page_by_key cur (limit : nat) next :
  (0 < limit)%nat -> L h seq !! firstKey = None -> cursor_ledger cur = None ->
  (let K := keys_from (L h newest) (cursor_key cur) in
   match next with
   | Some c => is_Some (L h newest !! c) /\ keys_from (L h newest) (Some c) = drop limit K /\ (limit <= length K)%nat
   | None => (length K < limit)%nat
   end) ->
  page_of cur (live_keys (take limit (keys_from (L h newest) (cursor_key cur))))
    (Some (match next with Some c => FromKey c | None => FromLedger newest end)).
Proof.
  intros Hl H0 Hcur. cbn zeta. set (K := keys_from (L h newest) (cursor_key cur)). intros Hnext.
  assert (forall k, left_at (Some cur) k -> is_Some (L h seq !! k) /\ (k ∈ K \/ gone newest k)) as Hleft.
  { intros k [Hk Hc]. split; [done|]. destruct (live_or_gone k Hk) as [Hn|]; [|by right].
    assert (default firstKey (cursor_key cur) < k \/ gone newest k) as [Hlt|]; [|left|by right].
    { destruct cur; [left | by destruct Hc; [left|right] | done]. cbn. destruct Hk as [b Hb]. pose proof (L_valid h _ _ _ Hb) as [? _].
      destruct (decide (k = firstKey)) as [->|]; [congruence|]. unfold firstKey in *. lia. }
    unfold K, keys_from. rewrite (keys_after_enough _ _ _ (S (size (L h newest)))) by lia. apply keys_after_complete; [|done..].
    pose proof (keys_after_size (L h newest) (default firstKey (cursor_key cur)) (S (size (L h newest)))). lia. }
  split_and!; [apply live_keys_live | | |].
  - intros k Hk. destruct (Hleft k Hk) as [Hkl Hor].
    assert (k ∈ take limit K \/ (k ∈ drop limit K \/ gone newest k)) as [Ht|Hd].
    { destruct Hor as [Hor|]; [|auto]. rewrite <- (take_drop limit K) in Hor. apply elem_of_app in Hor as [?|?]; auto. }
    + left. by apply list_elem_of_filter.
    + right. split; [done|]. destruct next as [c|].
      * destruct Hnext as (_ & Hdrop & _). destruct Hd as [Hd|]; [left | by right]. rewrite <- Hdrop in Hd.
        by apply keys_after_elem in Hd as [_ ?].
      * destruct Hd as [Hd|]; [|done]. rewrite drop_ge in Hd by lia. by apply not_elem_of_nil in Hd.
  - intros cur' [= <-]. destruct next as [c|]; [by split; [apply Hnext|] | split; [cbn; lia | done]].
  - assert (togo (Some cur) = 2 + Z.to_nat (newest - seq) + length K)%nat as -> by (by destruct cur).
    destruct next as [c|]; cbn [togo cursor_key]; [|lia]. destruct Hnext as (_ & -> & Hle). rewrite length_drop. lia.
Qed.

Lemma page_by_ledger d diff :
  seq <= d <= newest -> is_diff h d diff ->
  page_of (FromLedger d) (live_keys (lo_key <$> filter (fun o => lo_blob o = []) diff))
    (if d >? seq then Some (FromLedger (d - 1)) else None).
Proof.
  intros Hd (_ & Hval & Hsame). split_and!; [apply live_keys_live | | |].
  - intros k [Hk (s & Hs & Hn)]. replace (d >? seq) with true by lia.
    destruct (decide (s <= d - 1)) as [Hle|Hgt]; [right; split; [done|]; exists s; split; [lia|done]|].
    assert (s = d) as -> by lia. destruct (L h (d - 1) !! k) as [b|] eqn:Hb.
    + left. apply list_elem_of_filter. split; [done|].
      assert (k ∈ (lo_key <$> diff)) as (o & -> & Ho)%list_elem_of_fmap.
      { destruct (decide (k ∈ (lo_key <$> diff))) as [|Hni]; [done|]. specialize (Hsame k Hni). congruence. }
      apply list_elem_of_fmap. exists o. split; [done|]. apply list_elem_of_filter. split; [|done].
      specialize (Hval o Ho). rewrite Hn in Hval. by case_decide.
    + right. split; [done|]. exists (d - 1). split; [|done].
      destruct (decide (d - 1 = seq)) as [Heq|]; [|lia]. rewrite Heq in Hb. rewrite Hb in Hk. by destruct Hk.
  - intros cur'. destruct (d >? seq) eqn:Hgt; [|done]. intros [= <-]. split; [cbn; lia | done].
  - destruct (d >? seq) eqn:Hgt; cbn; lia.
Qed.

End left.

(** ** A request at the other node *)

(** The request as the other node reads it. *)
Definition node_request `{CursorText} (seq : Z) (cur : PeerCursor) : JsonObject :=
  [("command", JString "ledger_data"); ("ledger_index", JInt64 seq); ("binary", JBool true); ("out_of_order", JBool true);
   ("limit", JInt64 2048)] ++
  match cursor_marker cur with Some m => [("marker", m)] | None => [] end.

Lemma request_read `{CursorText} rd seq cur :
  0 <= seq < 2 ^ 32 -> read_back rd (JObject (getRequest seq (cursor_marker cur))) = JObject (node_request seq cur).
Proof.
  intros Hs. assert ((seq <? 2 ^ 63) = true) as Hlt by lia. 
  destruct cur; cbn -[Z.ltb Z.pow]; repeat rewrite decide_False by done; cbn -[Z.ltb Z.pow]; by rewrite Hlt.
Qed.

(** A node that has the ledger [seq] and the ones after it up to [newest], all that
    time, and a full cache. *)
Class NodeOk {W} `{BackendImpl W} `{LedgerReads W} `{RpcServer W} `{DataRendering} `{!SerialCodec} `{!CursorText} `{!RippleStrings}
    `{!LexicalCast} `{!Unhex} (h : SimpleCache.history) (info : LedgerInfo) (newest : Z)
    (fetchLedgerDiff : Z -> M W (list LedgerObject)) (I : W -> Prop) (E : Exn -> W -> Prop) := {
  nk_seq : li_seq info = s0 h /\ s0 h <= newest < 2 ^ 32;
  nk_first : L h (s0 h) !! firstKey = None;
  nk_handler : forall ctx, handler "ledger_data" ctx = doLedgerData fetchLedgerDiff ctx;
  nk_range : forall w, I w -> exists r, srv_range w = Some r /\ range w = Some r /\ maxSequence r = newest;
  nk_full : forall w, I w -> isFull (cache_ w) = true;
  nk_counters : forall c w, I w -> I (set_srv_counters c w);
  nk_guard : forall g w, I w -> I (set_srv_guard g w);
  nk_busy : triple I isTooBusy (fun b w => b = false /\ I w) E;
  nk_age : triple I lastCloseAgeSeconds (fun _ => I) noexn;
  nk_elapsed : triple I elapsed (fun _ => I) noexn;
  nk_diff : forall d, s0 h <= d <= newest ->
    triple I (fetchLedgerDiff d) (fun r w => (is_diff h d r /\ Forall valid_key (lo_key <$> r)) /\ I w) E;
  nk_throws : forall e w, E e w -> I w;
  (** an object is written the way it is stored *)
  nk_object : forall k b, L h (s0 h) !! k = Some b ->
    exists sle, parseSLE b k = Ok sle /\ unhex (c_str (sle_serializeHex sle)) = Ok b;
  nk_text : forall x, c_str (strHex x) = strHex x
}.

Section node.
Context `{BackendImpl W} `{LedgerReads W} `{RpcServer W} {h : SimpleCache.history} {I : W -> Prop} {E : Exn -> W -> Prop}.
Context `{!ReadLaws (L h) I E} {info : LedgerInfo} `{!ServesLedger I E info}.
Context `{DataRendering} `{SerialCodec} `{CursorTextLaws} `{!Unhex} `{RippledErrors}.
Context {newest : Z} {fetchLedgerDiff : Z -> M W (list LedgerObject)} {Nok : NodeOk h info newest fetchLedgerDiff I E}.

Local Abbreviation seq := (s0 h).

Lemma nk_newest : seq <= newest.
Proof. apply nk_seq. Qed.

(** Out of order, the keys of a page are those of the newest ledger. *)
Lemma fetchLedgerPage_newest cursor limit :
  0 < limit -> (forall k, cursor = Some k -> is_Some (L h newest !! k)) ->
  triple I (fetchLedgerPage cursor seq limit true)
    (fun p w =>
       (let K := keys_from (L h newest) cursor in
        page_objects p = object_at (L h seq) <$> live_keys h (take (Z.to_nat limit) K) /\
        match page_cursor p with
        | Some c => is_Some (L h newest !! c) /\ keys_from (L h newest) (Some c) = drop (Z.to_nat limit) K /\
            (Z.to_nat limit <= length K)%nat
        | None => (length K < Z.to_nat limit)%nat
        end) /\ I w) E.
Proof.
  intros Hpos Hc. unfold fetchLedgerPage.
  eapply (triple_bind _ _ _ (fun rng w => (exists r, rng = Some r /\ maxSequence r = newest) /\ I w)).
  { intros w Hw. cbn. destruct (nk_range w Hw) as (r & _ & ? & ?). eauto. }
  intros rng. apply triple_pre_pure. intros (r & -> & Hr).
  eapply (triple_bind _ _ _ (fun s w => s = newest /\ I w)); [by apply triple_ret|]. intros s. apply triple_pre_pure. intros ->.
  eapply triple_bind.
  { apply (page_keys_spec _ _ _ _ 0); cbn; [| done | lia | lia]. destruct cursor as [k|]; cbn; [right; by apply Hc | by left]. }
  intros [keys fin]. cbn [fst snd]. apply triple_pre_pure. intros ->. apply triple_pre_pure. intros ->.
  destruct (keys_after_chunk (L h newest) cursor (Z.to_nat limit)) as [Hk Hm]; [lia|].
  set (keys := keys_after _ _ _) in *. eapply triple_bind.
  { apply fetchLedgerObjects_reads. apply Forall_forall. intros k Hin. apply keys_after_elem in Hin as [[b Hb] _]. by eapply rl_valid. }
  intros objs. apply triple_pre_pure. intros ->. apply triple_ret. intros w Hw. split; [|done]. cbn [page_objects page_cursor].
  split; [rewrite <- Hk; apply page_objects_live|].
  pose proof (keys_after_length (L h newest) (default firstKey cursor) (Z.to_nat limit)) as Hl. fold keys in Hl.
  destruct (length keys <? Z.to_nat limit)%nat eqn:Hlt.
  - apply Nat.ltb_lt in Hlt. rewrite andb_false_r. rewrite decide_False in Hm by lia. exact Hm.
  - apply Nat.ltb_ge in Hlt. rewrite andb_true_r. rewrite decide_True in Hm by lia. destruct keys; [cbn in *; lia | exact Hm].
Qed.

Definition next_marker (next : option PeerCursor) : option json :=
  match next with Some (FromLedger d) => Some (JUint64 d) | Some cur => cursor_marker cur | None => None end.

Lemma data_page_spec cur :
  cursor_ok h newest cur ->
  triple I (data_page fetchLedgerDiff (cursor_key cur) (cursor_ledger cur) seq 2048 true)
    (fun r w => (exists ks next, r = (object_at (L h seq) <$> ks, next_marker next) /\ page_of h newest cur ks next) /\ I w) E.
Proof.
  intros Hc. assert ((exists d, cur = FromLedger d) \/ cursor_ledger cur = None) as [[d ->]|Hcl] by (destruct cur; eauto).
  - cbn [cursor_ledger data_page]. unfold deleted_objects. eapply triple_bind.
    { eapply triple_bind; [by apply nk_diff|]. intros diff. apply triple_pre_pure. intros [Hdiff Hv].
      eapply (triple_bind _ _ _ (fun r w => (r = (fun k => default [] (L h seq !! k)) <$> (lo_key <$> filter (fun o => lo_blob o = []) diff)) /\ I w)).
      { apply fetchLedgerObjects_reads. rewrite Forall_forall in Hv |- *. intros k Hk. apply Hv.
        apply list_elem_of_fmap in Hk as (o & -> & [_ Ho]%list_elem_of_filter). by apply list_elem_of_fmap_2. }
      intros objs. apply triple_pre_pure. intros ->.
      apply (triple_ret _ _ (fun r w => (exists diff, is_diff h d diff /\
        r = object_at (L h seq) <$> live_keys h (lo_key <$> filter (fun o => lo_blob o = []) diff)) /\ I w)).
      intros w Hw. split; [|done]. exists diff. split; [done|]. apply page_objects_live. }
    intros results. apply triple_pre_pure. intros (diff & Hdiff & ->). apply triple_ret. intros w Hw. split; [|done].
    eexists _, _. split; [|by apply page_by_ledger]. by destruct (d >? seq).
  - rewrite Hcl. cbn [data_page]. eapply triple_bind; [apply (fetchLedgerPage_newest (cursor_key cur) 2048); [lia|]|].
    { intros k Hk. destruct cur; [done| |done]. injection Hk as ->. exact Hc. }
    intros page. apply triple_pre_pure. intros [Ho Hm].
    pose proof (page_by_key h newest nk_newest cur (Z.to_nat 2048) (page_cursor page) ltac:(lia) nk_first Hcl Hm) as Hp.
    destruct (page_cursor page) as [c|].
    + apply triple_ret. intros w Hw. split; [|done]. eexists _, _. split; [|exact Hp]. by rewrite Ho.
    + eapply (triple_bind _ _ _ (fun rng w => (exists r, rng = Some r /\ maxSequence r = newest) /\ I w)).
      { intros w Hw. cbn. destruct (nk_range w Hw) as (r & _ & ? & ?). eauto. }
      intros rng. apply triple_pre_pure. intros (r & -> & Hr). apply triple_ret. intros w Hw. split; [|done].
      eexists _, _. split; [|exact Hp]. by rewrite Ho, Hr.
Qed.

Lemma request_parsed cur ctx :
  cursor_ok h newest cur -> ctx_method ctx = "ledger_data" -> ctx_params ctx = node_request seq cur ->
  data_request ctx = Ok (Done (true, 2048, true, (cursor_key cur, cursor_ledger cur))).
Proof.
  intros Hc Hm Hp. unfold data_request, getLimit. rewrite Hm, Hp.
  replace (getBool_default (node_request seq cur) "binary" false) with (Ok true) by (by destruct cur).
  replace (obj_find "limit" (node_request seq cur)) with (Some (JInt64 2048)) by (by destruct cur).
  replace (data_out_of_order (node_request seq cur)) with (Done true) by (by destruct cur).
  assert (data_marker true (node_request seq cur) = Ok (Done (cursor_key cur, cursor_ledger cur))) as Hmarker.
  { destruct cur as [|c|d]; unfold data_marker; [done| |].
    - change (obj_find "marker" (node_request seq (FromKey c))) with (Some (JString (strHex c))). cbn beta iota.
      by rewrite nk_text, hex_parse.
    - change (obj_find "marker" (node_request seq (FromLedger d))) with (Some (JInt64 d)). cbn beta iota.
      pose proof (s0_pos h). pose proof nk_seq as [_ ?]. cbn in Hc.
      replace ((0 <=? d) && (d <? 2 ^ 32)) with true by (symmetry; apply andb_true_iff; lia). done. }
  cbn [mbind Res_bind]. change (data_marker true (node_request seq cur) ≫= (fun markers => Ok (markers ← markers; Done (true, 2048, true, markers)))
    = Ok (Done (true, 2048, true, (cursor_key cur, cursor_ledger cur)))). by rewrite Hmarker.
Qed.

Lemma data_page_objects ks :
  Forall (fun k => is_Some (L h seq !! k)) ks ->
  exists os, res_map (data_object true) (object_at (L h seq) <$> ks) = Ok os /\
    Forall2 (fun k o => data_object true (object_at (L h seq) k) = Ok o) ks os.
Proof.
  induction 1 as [|k ks [b Hb] _ (os & Ho & Hf)]; [by exists []|]. destruct (nk_object k b Hb) as (sle & Hsle & _).
  assert (exists o, data_object true (object_at (L h seq) k) = Ok o) as [o Hko].
  { unfold data_object, object_at. cbn. rewrite Hb. cbn. rewrite Hsle. by eexists. }
  exists (o :: os). cbn. rewrite Hko. cbn. rewrite Ho. split; [done|]. by constructor.
Qed.

(** The answer to a request from a cursor. *)
Definition node_answer (cur : PeerCursor) (response : JsonObject) : Prop :=
  exists os ks next, obj_find "state" response = Some (JArray os) /\
    Forall2 (fun k o => data_object true (object_at (L h seq) k) = Ok o) ks os /\
    obj_find "marker" response = next_marker next /\ obj_find "cache_full" response = Some (JBool true) /\
    obj_find "forwarded" response = None /\ page_of h newest cur ks next.

Lemma node_handler_spec cur ctx :
  cursor_ok h newest cur -> ctx_method ctx = "ledger_data" -> ctx_params ctx = node_request seq cur ->
  maxSequence (ctx_range ctx) = newest ->
  triple I (doLedgerData fetchLedgerDiff ctx) (fun r w => (exists response, r = Done response /\ node_answer cur response) /\ I w) E.
Proof.
  intros Hc Hm Hp Hr. pose proof nk_seq as [Hseq Hle]. pose proof (s0_pos h). unfold doLedgerData.
  rewrite (request_parsed cur) by done. apply triple_ok_bind. cbn beta iota. rewrite Hp.
  eapply (triple_bind _ _ _ (fun r w => r = Done info /\ I w)).
  { unfold ledgerInfoFromRequest.
    replace (obj_find "ledger_hash" (node_request seq cur)) with (@None json) by (by destruct cur).
    replace (obj_find "ledger_index" (node_request seq cur)) with (Some (JInt64 seq)) by (by destruct cur).
    cbn [default from_option id]. unfold u32. rewrite Z.mod_small by lia. rewrite <- Hseq.
    eapply triple_bind; [apply sl_ledger|]. intros r. apply triple_pre_pure. intros ->. apply triple_ret. intros w Hw.
    replace (li_seq info >? maxSequence (ctx_range ctx)) with false by lia. done. }
  intros r. apply triple_pre_pure. intros ->. rewrite Hseq.
  eapply (triple_bind _ _ _ (fun r w => r = Done tt /\ I w)).
  { unfold data_marker_exists. rewrite orb_true_r. by apply triple_ret. }
  intros r. apply triple_pre_pure. intros ->. eapply triple_bind; [by apply data_page_spec|]. intros r. apply triple_pre_pure.
  intros (ks & next & -> & Hpage). destruct (data_page_objects ks) as (os & -> & Hos); [apply Hpage|].
  apply triple_ok_bind. apply triple_gets. intros full. apply triple_ret. intros w [Hw Hfull]. split; [|done].
  eexists. split; [done|]. exists os, ks, next. rewrite (nk_full w Hw) in Hfull. subst full. unfold data_response.
  set (hd := if contains _ "marker" then _ else _).
  assert (forall k, k <> "ledger" -> forall l, obj_find k (hd ++ l) = obj_find k l) as Hhd.
  { intros k Hk l. unfold hd. destruct (contains _ _); [done|]. cbn. by rewrite decide_False. }
  rewrite !Hhd by done. destruct (next_marker next) as [v|]; cbn; by split_and!.
Qed.

(** *** The session of the other node *)

Lemma node_answer_validated cur response :
  node_answer cur response -> node_answer cur (obj_set "validated" (JBool true) response).
Proof. intros (os & ks & next & H'). exists os, ks, next. by rewrite !obj_find_set, !decide_False. Qed.

Lemma node_run_handler cur ctx :
  cursor_ok h newest cur -> ctx_method ctx = "ledger_data" -> ctx_params ctx = node_request seq cur ->
  maxSequence (ctx_range ctx) = newest ->
  triple I (run_handler ctx)
    (fun v w => ((exists response, v = Done response /\ node_answer cur response) \/
       (exists s, v = Failed s /\ st_extraInfo s = None) /\ exists e w, E e w) /\ I w) noexn.
Proof.
  intros Hc Hm Hp Hr w Hw. pose proof (node_handler_spec cur ctx Hc Hm Hp Hr w Hw) as Hh.
  unfold run_handler. rewrite Hm, nk_handler.
  destruct (doLedgerData fetchLedgerDiff ctx w) as [[v|e|] w']; [| |done].
  - destruct Hh as [(response & -> & Ha) Hw']. split; [|done]. left. eexists. split; [done|].
    destruct (shouldSuppressValidatedFlag ctx); [done | by apply node_answer_validated].
  - split; [|by eapply nk_throws]. right. split; [|by eexists _, _]. eexists. split; [done | by destruct e].
Qed.

Lemma node_upd f : triple I (upd_counters f) (fun _ => I) noexn.
Proof. intros w Hw. by apply nk_counters. Qed.

Lemma node_finish ip response : triple I (finish_response ip response) (fun r w => finished response r /\ I w) noexn.
Proof.
  unfold finish_response.
  destruct (makeWarning_ok warnRPC_CLIO) as [clio ->], (makeWarning_ok warnRPC_OUTDATED) as [outdated ->],
    (makeWarning_ok warnRPC_RATE_LIMIT) as [load ->].
  apply triple_ok_bind. eapply triple_bind; [apply nk_age|]. intros age. apply triple_ok_bind.
  eapply (triple_bind _ _ _ (fun _ => I)).
  { intros w Hw. unfold guard_add. destruct (DOSGuard_add _ _ _) as [ok g]. by apply nk_guard. }
  intros [].
  - apply triple_ret. intros w Hw. split; [|done]. split.
    + rewrite obj_find_set, decide_True by done. by eexists.
    + intros k Hk _. by rewrite obj_find_set, decide_False.
  - apply triple_ok_bind, triple_ret. intros w Hw. split; [|done]. split.
    + rewrite obj_find_set, decide_True by done. by eexists.
    + intros k Hk Hk'. by rewrite !obj_find_set, !decide_False.
Qed.

(** What the session sends: the answer, or an error when a read threw. *)
Definition session_answer (cur : PeerCursor) (o : JsonObject) : Prop :=
  (obj_find "error" o = None /\ exists response, obj_find "result" o = Some (JObject response) /\ node_answer cur response) \/
  (is_Some (obj_find "error" o) /\ exists e w, E e w).

Lemma ws_error_error e request : is_Some (obj_find "error" e) -> is_Some (obj_find "error" (ws_error e JNull request)).
Proof. unfold ws_error. cbn [is_null]. by rewrite obj_find_set, decide_False. Qed.

Lemma finished_session cur e r : finished e r -> session_answer cur e -> session_answer cur r.
Proof. intros [_ Hf]. unfold session_answer. by rewrite !Hf. Qed.

Lemma node_try cur session ip :
  cursor_ok h newest cur ->
  triple I (ws_try (node_request seq cur) JNull session ip)
    (fun r w => (exists e, r = inr e /\ session_answer cur e) /\ I w) (fun e w => I w /\ E e w).
Proof.
  intros Hc. unfold ws_try. eapply (triple_bind _ _ _ (fun rng w => (exists r, rng = Some r /\ maxSequence r = newest) /\ I w)).
  { intros w Hw. cbn. destruct (nk_range w Hw) as (r & ? & _ & ?). eauto. }
  intros rng. apply triple_pre_pure. intros (r & -> & Hr).
  replace (make_WsContext (node_request seq cur) session r ip)
    with (Some (mkContext "ledger_data" (node_request seq cur) (Some session) r ip)) by (by destruct cur).
  set (ctx := mkContext _ _ _ _ _).
  eapply (triple_bind _ _ _ (fun v w => ((exists response, v = Done response /\ node_answer cur response) \/
       (exists s, v = Failed s /\ st_extraInfo s = None) /\ exists e w, E e w) /\ I w)).
  { unfold buildResponse. replace (shouldForwardToRippled ctx) with (Ok false) by (by destruct cur). apply triple_ok_bind.
    change (bool_decide (ctx_method ctx = "ping")) with false. cbn beta iota.
    eapply triple_bind; [eapply triple_conseq; [apply nk_busy|done|done|]|].
    { intros e w He. split; [by eapply nk_throws | exact He]. }
    intros b. apply triple_pre_pure. intros ->. change (negb (table_contains (ctx_method ctx))) with false. cbn beta iota.
    eapply triple_conseq; [by apply (node_run_handler cur ctx) | done | done | done]. }
  intros v. apply triple_pre_pure. intros Hv.
  eapply (triple_bind _ _ _ (fun _ => I)); [eapply triple_conseq; [apply nk_elapsed|done..]|]. intros us.
  destruct Hv as [(response & -> & Ha)|[(s & -> & Hs) Hthrown]].
  - eapply (triple_bind _ _ _ (fun _ => I)); [eapply triple_conseq; [apply node_upd|done..]|]. intros _.
    apply triple_ret. intros w Hw. split; [|done]. eexists. split; [done|]. left.
    assert (obj_find "forwarded" response = None) as Hnf by (by destruct Ha as (? & ? & ? & _ & _ & _ & _ & ? & _)).
    rewrite Hnf. cbn beta iota. rewrite !obj_find_set, decide_False, decide_True by done. split; [done | by eexists].
  - eapply (triple_bind _ _ _ (fun _ => I)); [eapply triple_conseq; [apply node_upd|done..]|]. intros _.
    destruct (makeError_ok s) as [e He]. rewrite He. apply triple_ok_bind, triple_ret. intros w Hw. split; [|done].
    eexists. split; [done|]. right. split; [|done]. apply ws_error_error.
    destruct (makeError_error s e Hs He) as (_ & _ & t & Ht). by eexists.
Qed.

Lemma node_session cur session ip :
  cursor_ok h newest cur ->
  triple I (ws_handle_request (node_request seq cur) JNull session (Some ip))
    (fun r w => (exists o, r = Some o /\ session_answer cur o) /\ I w) noexn.
Proof.
  intros Hc. unfold ws_handle_request.
  eapply (triple_bind _ _ _ (fun r w => (match r with inl o => session_answer cur o | inr e => session_answer cur e end) /\ I w)).
  { intros w Hw. pose proof (node_try cur session ip Hc w Hw) as Ht. unfold catch_all.
    destruct (ws_try _ _ _ _ w) as [[r|e|] w']; [| |done].
    - by destruct Ht as [(e & -> & Ha) Hw'].
    - destruct Ht as [Hw' He]. split; [|done]. right. split; [|by eexists _, _]. apply ws_error_error. by eexists. }
  intros [o|e]; apply triple_pre_pure; intros Ha.
  - apply triple_ret. intros w Hw. split; [|done]. by exists o.
  - eapply triple_bind; [apply node_finish|]. intros r. apply triple_pre_pure. intros Hf. apply triple_ret. intros w Hw.
    split; [|done]. exists r. split; [done|]. by eapply finished_session.
Qed.

(** ** The answer as the client reads it *)

Lemma peer_object_read rd k o :
  is_Some (L h seq !! k) -> data_object true (object_at (L h seq) k) = Ok o ->
  peer_object (read_back rd o) = Ok (Some (object_at (L h seq) k)).
Proof.
  intros [b Hb] Ho. destruct (nk_object k b Hb) as (sle & Hsle & Hu). unfold data_object, object_at in *. cbn in Ho.
  rewrite Hb in *. cbn in Ho. rewrite Hsle in Ho. injection Ho as <-. unfold peer_object. cbn -[c_str].
  change (at_ _ "index") with (Ok (JString (strHex k))). change (at_ _ "data") with (Ok (JString (sle_serializeHex sle))).
  cbn [mbind Res_bind as_string]. rewrite nk_text, hex_parse. cbn [mbind Res_bind]. by rewrite Hu.
Qed.

Lemma peer_objects_read rd ks os :
  Forall (fun k => is_Some (L h seq !! k)) ks ->
  Forall2 (fun k o => data_object true (object_at (L h seq) k) = Ok o) ks os ->
  peer_objects (map (read_back rd) os) = Ok (Some (object_at (L h seq) <$> ks)).
Proof.
  intros Hk Ho. induction Ho as [|k o ks os Hko _ IH]; [done|]. apply Forall_cons in Hk as [Hk1 Hk].
  cbn [map peer_objects]. rewrite (peer_object_read rd k o) by done. cbn. by rewrite IH.
Qed.

Definition next_cursor_marker (next : option PeerCursor) : option json := next ≫= cursor_marker.

Lemma next_marker_read rd cur next :
  (exists ks, page_of h newest cur ks next) ->
  read_back rd <$> next_marker next = next_cursor_marker next.
Proof.
  intros Hp. assert (forall cur', next = Some cur' -> cursor_ok h newest cur') as Hok.
  { destruct Hp as [ks Hp]. intros cur' Hn. by apply Hp. }
  destruct next as [[|c|d]|]; [done..| |done]. specialize (Hok _ eq_refl). cbn in Hok. pose proof nk_seq as [_ ?].
  cbn -[Z.ltb Z.pow]. assert ((d <? 2 ^ 63) = true) as -> by lia. done.
Qed.

(** A page, or a node that is given up or asked again. *)
Definition reply_next (cur : PeerCursor) (n : Z) (r : PeerNext) : Prop :=
  (exists ks next, r = NextPage (object_at (L h seq) <$> ks) (next_cursor_marker next) /\ page_of h newest cur ks next) \/
  ((r = GiveUp \/ r = TryAgain (n + 1) /\ n + 1 < 5) /\ exists e w, E e w).

Lemma error_response rd n o :
  is_Some (obj_find "error" o) ->
  exists r, peer_response n (read_back rd (JObject o)) = Ok r /\ (r = GiveUp \/ r = TryAgain (n + 1) /\ n + 1 < 5).
Proof.
  intros [v Hv]. cbn [read_back peer_response]. rewrite read_back_find, Hv. cbn [fmap option_fmap option_map].
  destruct (read_back rd v); try (eexists; split; [reflexivity | by left]). case_bool_decide; [|eexists; split; [reflexivity | by left]].
  destruct (n + 1 >=? 5) eqn:Hn; eexists; (split; [reflexivity|]); [by left | right; split; [done | lia]].
Qed.

Lemma session_response rd cur n o :
  session_answer cur o -> exists r, peer_response n (read_back rd (JObject o)) = Ok r /\ reply_next cur n r.
Proof.
  intros [[He (response & Hr & os & ks & next & Hs & Hos & Hm & Hf & _ & Hp)]|[He Hthrown]].
  - cbn [read_back peer_response]. rewrite read_back_find, He. cbn [fmap option_fmap option_map]. unfold peer_result.
    rewrite read_back_find, Hr. cbn [fmap option_fmap option_map default from_option id read_back as_object mbind Res_bind].
    unfold contains, at_. rewrite !read_back_find, Hf, Hs, Hm. cbn [fmap option_fmap option_map read_back].
    rewrite bool_decide_true by done. cbn [mbind Res_bind as_bool as_array negb].
    rewrite (peer_objects_read rd ks os) by (done || apply Hp). cbn [mbind Res_bind].
    eexists. split; [done|]. left. exists ks, next. split; [|done]. f_equal. apply (next_marker_read rd cur). by exists ks.
  - destruct (error_response rd n o He) as (r & -> & Hr). exists r. split; [done|]. by right.
Qed.

(** ** The two together *)

Context `{!JsonWire} (session : nat) (ip : string).

(** The request is sent, the session of the other node answers it, the answer is
    taken in. *)
Definition exchange (x y : PeerCache * W) : Prop :=
  exists marker started n request o,
    pc_state x.1 = PAsk marker started n /\ wire (getRequest seq marker) = Ok (JObject request) /\
    ws_handle_request request JNull session (Some ip) x.2 = (Ok (Some o), y.2) /\
    peer_reply seq (PMessage (wire o)) x.1 = Some y.1.

(** Besides, a node is connected to, or cannot be; a connection is lost; a request
    is refused; and the ledgers that follow are applied to the cache. *)
Inductive peer_moves : PeerCache * W -> PeerCache * W -> Prop :=
| mv_connect ok st st' w w' : peer_connect ok st = Some st' -> I w' -> peer_moves (st, w) (st', w')
| mv_exchange x y : exchange x y -> peer_moves x y
| mv_lost r st st' w : r = PWriteError \/ r = PReadError -> peer_reply seq r st = Some st' -> peer_moves (st, w) (st', w)
| mv_refused m st st' w :
    is_Some (obj_find "error" m) -> peer_reply seq (PMessage (wire m)) st = Some st' -> peer_moves (st, w) (st', w)
| mv_ledger st w objs s :
    s = current h (pc_cache st) + 1 -> is_diff h s objs ->
    peer_moves (st, w) (mkPeerCache (update objs s false (pc_cache st)) (pc_peers st) (pc_state st), w).

(** What is known at each place of the coroutine: at a request, every key of the
    ledger is in the cache's or left at the cursor. *)
Definition client_ok (st : PeerCache) : Prop :=
  exists ld, reach h (pc_cache st) ld /\
  match pc_state st with
  | PIdle => True
  | PConnect => full_ (pc_cache st) = false /\ pc_peers st <> []
  | PDb => full_ (pc_cache st) = false
  | PAsk marker started n =>
      full_ (pc_cache st) = false /\ pc_peers st <> [] /\ 0 <= n < 5 /\
      exists cur, marker = cursor_marker cur /\ cursor_ok h newest cur /\ (started = false <-> cur = FromStart) /\
        forall k, is_Some (L h seq !! k) -> k ∈ ld \/ left_at h newest (Some cur) k
  | PLoaded => full_ (pc_cache st) = true \/ disabled_ (pc_cache st) = true
  end.

Lemma next_peer_ok c peers ld : reach h c ld -> full_ c = false -> client_ok (next_peer c peers).
Proof. intros Hr Hf. exists ld. split; [done|]. by destruct peers. Qed.

Lemma ledger_ok st objs s :
  client_ok st -> s = current h (pc_cache st) + 1 -> is_diff h s objs ->
  client_ok (mkPeerCache (update objs s false (pc_cache st)) (pc_peers st) (pc_state st)).
Proof.
  intros (ld & Hr & Hst) Hs Hd. exists ld. cbn [pc_cache pc_peers pc_state]. split.
  { eapply rtc_r; [exact Hr|]. apply step_diff; [by left | done]. }
  rewrite (proj1 (update_full _ _ _ _)). destruct (pc_state st); [done..|]. destruct Hst as [?|Hdis]; [by left | right].
  unfold update. by rewrite Hdis.
Qed.

Lemma cursor_marker_inj cur cur' : cursor_marker cur = cursor_marker cur' -> cur = cur'.
Proof.
  destruct cur as [|c|d], cur' as [|c'|d']; cbn; intros [=]; try done; [|congruence].
  assert (Some c = Some c') as [=]; [|congruence]. rewrite <- (hex_parse c), <- (hex_parse c'). congruence.
Qed.

(** A page goes into the cache; what was left is there or left at the next cursor. *)
Lemma peer_page_ok st marker started n cur ks next :
  client_ok st -> pc_state st = PAsk marker started n -> marker = cursor_marker cur -> page_of h newest cur ks next ->
  client_ok (peer_loop (update (object_at (L h seq) <$> ks) seq true (pc_cache st)) (pc_peers st) (next_cursor_marker next) true n).
Proof.
  intros (ld & Hr & Hst) Hpc -> Hp. rewrite Hpc in Hst. destruct Hst as (Hf & Hne & Hn & cur' & <-%cursor_marker_inj & Hok & _ & Hleft). destruct Hp as (Hlive & Hnext & Hcok & _).
  assert (reach h (update (object_at (L h seq) <$> ks) seq true (pc_cache st)) (ld ∪ list_to_set ks)) as Hreach.
  { eapply rtc_r; [exact Hr|]. rewrite <- (object_at_keys (L h seq) ks) at 2. apply step_page; [done|].
    intros o (k & -> & Hk)%list_elem_of_fmap. rewrite Forall_forall in Hlive. destruct (Hlive k Hk) as [b Hb]. cbn. by rewrite Hb. }
  assert (forall k, is_Some (L h seq !! k) -> k ∈ ld ∪ list_to_set ks \/ left_at h newest next k) as Hleft'.
  { intros k Hk. destruct (Hleft k Hk) as [?|Hl]; [left; set_solver|]. destruct (Hnext k Hl); [left; set_solver | by right]. }
  unfold peer_loop. rewrite orb_false_r. destruct next as [cur1|].
  - destruct (Hcok cur1 eq_refl) as [Hc1 Hs1]. assert (is_Some (cursor_marker cur1)) as Hm by (by destruct cur1).
    change (next_cursor_marker (Some cur1)) with (cursor_marker cur1). rewrite bool_decide_true by done.
    exists (ld ∪ list_to_set ks). split; [done|]. cbn [pc_state pc_cache pc_peers]. rewrite (proj1 (update_full _ _ _ _)).
    split_and!; [done..|lia|lia|]. by exists cur1.
  - cbn. exists (ld ∪ list_to_set ks). split.
    + eapply rtc_r; [exact Hreach|]. apply step_full. intros k Hk. destruct (Hleft' k Hk) as [?|[_ []]]; done.
    + cbn. unfold setFull. destruct (disabled_ _) eqn:Hd; cbn; [by right | by left].
Qed.

Lemma failed_ok st : client_ok st -> full_ (pc_cache st) = false -> client_ok (peer_failed st).
Proof. intros (ld & Hr & _) Hf. by eapply next_peer_ok. Qed.

Lemma retry_ok st marker started n :
  client_ok st -> pc_state st = PAsk marker started n -> n + 1 < 5 ->
  peer_loop (pc_cache st) (pc_peers st) marker started (n + 1) = mkPeerCache (pc_cache st) (pc_peers st) (PAsk marker started (n + 1)) /\
  client_ok (mkPeerCache (pc_cache st) (pc_peers st) (PAsk marker started (n + 1))).
Proof.
  intros (ld & Hr & Hst) Hpc Hn'. rewrite Hpc in Hst. destruct Hst as (Hf & Hne & Hn & cur & -> & Hok & Hs & Hleft). split.
  - unfold peer_loop. assert (bool_decide (is_Some (cursor_marker cur)) || negb started = true) as ->; [|done].
    destruct cur; [|by rewrite bool_decide_true..]. rewrite (proj2 Hs eq_refl). by rewrite orb_true_r.
  - exists ld. split; [done|]. cbn. split_and!; [done..|lia|lia|]. by exists cur.
Qed.

(** What an answer of a node does. *)
Lemma reply_ok st marker started n cur r :
  client_ok st -> pc_state st = PAsk marker started n -> marker = cursor_marker cur -> reply_next cur n r ->
  client_ok match r with
            | TryAgain n => peer_loop (pc_cache st) (pc_peers st) marker started n
            | NextPage objects marker => peer_loop (update objects seq true (pc_cache st)) (pc_peers st) marker true n
            | GiveUp => peer_failed st
            end.
Proof.
  intros Hok Hpc Hm Hr. assert (full_ (pc_cache st) = false) as Hf by (destruct Hok as (ld & _ & Hst); rewrite Hpc in Hst; apply Hst).
  destruct Hr as [(ks & next & -> & Hp)|[[->|[-> Hn]] _]].
  - by eapply peer_page_ok.
  - by apply failed_ok.
  - destruct (retry_ok st marker started n) as [-> ?]; done.
Qed.

Lemma reply_failed r st st' :
  peer_reply seq r st = Some st' ->
  (forall parsed, r <> PMessage (Ok parsed)) -> st' = peer_failed st /\ exists m s n, pc_state st = PAsk m s n.
Proof.
  unfold peer_reply. intros Hr Hne. destruct (pc_state st); [done..| |done|done]. split; [|eauto].
  destruct r as [| |[v|e|]]; [..|by destruct (Hne v)| |]; by injection Hr.
Qed.

(** The answer of a session, as far as it can be read. *)
Lemma exchange_ok x y :
  client_ok x.1 -> I x.2 -> exchange x y ->
  I y.2 /\ exists marker started n cur, pc_state x.1 = PAsk marker started n /\ marker = cursor_marker cur /\
    ((y.1 = peer_failed x.1 /\ exists o, forall v, wire o <> Ok v) \/
     exists r, reply_next cur n r /\
       y.1 = match r with
             | TryAgain n => peer_loop (pc_cache x.1) (pc_peers x.1) marker started n
             | NextPage objects marker => peer_loop (update objects seq true (pc_cache x.1)) (pc_peers x.1) marker true n
             | GiveUp => peer_failed x.1
             end).
Proof.
  intros Hok Hw (marker & started & n & request & o & Hpc & Hrq & Hws & Hre). pose proof Hok as (ld & _ & Hst).
  rewrite Hpc in Hst. destruct Hst as (_ & _ & _ & cur & -> & Hc & _).
  assert (request = node_request seq cur) as ->.
  { pose proof (wire_reads _ _ Hrq) as Hr. rewrite request_read in Hr; [congruence|]. pose proof (s0_pos h). pose proof nk_seq. lia. }
  pose proof (node_session cur session ip Hc x.2 Hw) as Hs. rewrite Hws in Hs. destruct Hs as [(o' & [= <-] & Ha) Hy].
  split; [done|]. exists (cursor_marker cur), started, n, cur. split; [done|]. split; [done|].
  destruct (wire o) as [v|e|] eqn:Hv.
  - rewrite (wire_reads _ _ Hv) in Hre. destruct (session_response read_double cur n o Ha) as (r & Hr & Hn). right. exists r.
    split; [done|]. unfold peer_reply in Hre. rewrite Hpc, Hr in Hre. injection Hre as <-. by destruct r.
  - left. apply reply_failed in Hre as [-> _]; [|done]. split; [done|]. exists o. intros v. by rewrite Hv.
  - left. apply reply_failed in Hre as [-> _]; [|done]. split; [done|]. exists o. intros v. by rewrite Hv.
Qed.

(** A refusal; what cannot be read is one too. *)
Lemma refused_ok m st st' :
  client_ok st -> is_Some (obj_find "error" m) -> peer_reply seq (PMessage (wire m)) st = Some st' ->
  exists marker started n, pc_state st = PAsk marker started n /\
    (st' = peer_failed st \/ n + 1 < 5 /\ st' = mkPeerCache (pc_cache st) (pc_peers st) (PAsk marker started (n + 1))).
Proof.
  intros Hok Hm Hre. destruct (wire m) as [v|e|] eqn:Hv.
  - rewrite (wire_reads _ _ Hv) in Hre. unfold peer_reply in Hre. destruct (pc_state st) as [| |marker started n| |] eqn:Hpc; try done.
    exists marker, started, n. split; [done|]. destruct (error_response read_double n m Hm) as (r & Hr & Hn). rewrite Hr in Hre.
    injection Hre as <-. destruct Hn as [->|[-> Hn]]; [by left | right]. split; [done|]. by destruct (retry_ok st marker started n).
  - apply reply_failed in Hre as [-> (? & ? & ? & ?)]; [|done]. eauto 10.
  - apply reply_failed in Hre as [-> (? & ? & ? & ?)]; [|done]. eauto 10.
Qed.

Lemma asking_empty st marker started n : client_ok st -> pc_state st = PAsk marker started n -> full_ (pc_cache st) = false.
Proof. intros (ld & _ & Hst) Hpc. rewrite Hpc in Hst. apply Hst. Qed.

Lemma connect_ok ok st st' : client_ok st -> peer_connect ok st = Some st' -> client_ok st'.
Proof.
  intros Hok. unfold peer_connect. destruct (pc_state st) eqn:Hpc; try done. pose proof Hok as (ld & Hr & Hst). rewrite Hpc in Hst.
  destruct Hst as [Hf Hne]. intros [= <-]. destruct ok; [|by apply failed_ok]. exists ld. split; [done|]. cbn.
  split_and!; [done..|]. exists FromStart. split_and!; [done..|]. intros k Hk. by right.
Qed.

Lemma moves_ok x y : client_ok x.1 /\ I x.2 -> peer_moves x y -> client_ok y.1 /\ I y.2.
Proof.
  intros [Hok Hw] Hm. destruct Hm as [ok st st' w w' Hst Hw'|x y Hex|r st st' w Hr Hst|m st st' w Hm Hst|st w objs s Hs Hd]; cbn [fst snd] in *.
  - split; [by eapply connect_ok | done].
  - destruct (exchange_ok x y Hok Hw Hex) as (Hy & marker & started & n & cur & Hpc & Hmk & [[-> _]|(r & Hr & ->)]); (split; [|done]).
    + apply failed_ok; [done|]. by eapply asking_empty.
    + by eapply reply_ok.
  - split; [|done]. apply reply_failed in Hst as [-> (? & ? & ? & ?)]; [|by destruct Hr as [->| ->]].
    apply failed_ok; [done|]. by eapply asking_empty.
  - split; [|done]. destruct (refused_ok m st st' Hok Hm Hst) as (marker & started & n & Hpc & [->|[Hn ->]]).
    + apply failed_ok; [done|]. by eapply asking_empty.
    + by eapply retry_ok.
  - split; [by apply ledger_ok | done].
Qed.

Lemma runs_ok x y : client_ok x.1 -> I x.2 -> rtc peer_moves x y -> client_ok y.1 /\ I y.2.
Proof. intros Hok Hw Hr. induction Hr as [|x y z Hm _ IH]; [done|]. destruct (moves_ok x y (conj Hok Hw) Hm). by apply IH. Qed.

Lemma loadCache_ok style peers loading c ld : reach h c ld -> full_ c = false -> client_ok (loadCache style peers loading c).
Proof.
  intros Hr Hf. unfold loadCache. destruct style.
  1, 2: destruct (loading || isFull c); [by exists ld | by eapply next_peer_ok].
  exists ld. split; [|done]. eapply rtc_r; [exact Hr|]. apply step_disable.
Qed.

(** ** The end of the loading *)

Definition marker_cursor (marker : option json) : PeerCursor :=
  match marker with
  | Some (JString s) => match parseHex (c_str s) with Some c => FromKey c | None => FromStart end
  | Some (JInt64 d) => FromLedger d
  | _ => FromStart
  end.

Lemma marker_cursor_of cur : marker_cursor (cursor_marker cur) = cur.
Proof. destruct cur; cbn; [done| |done]. by rewrite nk_text, hex_parse. Qed.

(** As many attempts at a node as it may refuse and pages it may send. *)
Definition node_work : nat := 5 * togo h newest (Some FromStart) + 6.

Definition nodes_work (n : nat) : nat := n * node_work.

Definition peer_work (st : PeerCache) : nat :=
  match pc_state st with
  | PConnect => nodes_work (length (pc_peers st))
  | PAsk marker _ n => nodes_work (pred (length (pc_peers st))) + 5 * togo h newest (Some (marker_cursor marker)) + Z.to_nat (5 - n)
  | _ => 0
  end.

Lemma nodes_work_S n : nodes_work (S n) = (node_work + nodes_work n)%nat.
Proof. done. Qed.

Lemma next_peer_work c peers : peer_work (next_peer c peers) = nodes_work (length peers).
Proof. by destruct peers. Qed.

Lemma failed_work st : peer_work (peer_failed st) = nodes_work (pred (length (pc_peers st))).
Proof. unfold peer_failed. rewrite next_peer_work. by destruct (pc_peers st). Qed.

Lemma asking_work st marker started n :
  client_ok st -> pc_state st = PAsk marker started n ->
  exists cur, marker = cursor_marker cur /\ 0 <= n < 5 /\ (0 < togo h newest (Some cur))%nat /\
    peer_work st = (nodes_work (pred (length (pc_peers st))) + 5 * togo h newest (Some cur) + Z.to_nat (5 - n))%nat.
Proof.
  intros (ld & _ & Hst) Hpc. rewrite Hpc in Hst. destruct Hst as (_ & _ & Hn & cur & -> & _). exists cur.
  split_and!; [done|lia|lia|destruct cur; cbn; lia|]. unfold peer_work. by rewrite Hpc, marker_cursor_of.
Qed.

Lemma retry_work st marker started n :
  client_ok st -> pc_state st = PAsk marker started n -> n + 1 < 5 ->
  (peer_work (mkPeerCache (pc_cache st) (pc_peers st) (PAsk marker started (n + 1))) < peer_work st)%nat.
Proof.
  intros Hok Hpc Hn. destruct (asking_work st marker started n Hok Hpc) as (cur & -> & Hn5 & _ & ->).
  cbn. rewrite marker_cursor_of. lia.
Qed.

Lemma reply_work st marker started n cur r :
  client_ok st -> pc_state st = PAsk marker started n -> marker = cursor_marker cur -> reply_next cur n r ->
  (peer_work match r with
             | TryAgain n => peer_loop (pc_cache st) (pc_peers st) marker started n
             | NextPage objects marker => peer_loop (update objects seq true (pc_cache st)) (pc_peers st) marker true n
             | GiveUp => peer_failed st
             end < peer_work st)%nat.
Proof.
  intros Hok Hpc -> Hr. destruct (asking_work st _ started n Hok Hpc) as (cur' & <-%cursor_marker_inj & Hn & Hpos & Hwork).
  destruct Hr as [(ks & next & -> & _ & _ & _ & Hlt)|[[->|[-> Hn']] _]].
  - rewrite Hwork. unfold peer_loop. destruct next as [cur1|].
    + change (next_cursor_marker (Some cur1)) with (cursor_marker cur1).
      destruct (_ || _); cbn [peer_work pc_state pc_peers]; [rewrite marker_cursor_of|]; lia.
    + cbn. lia.
  - rewrite failed_work. lia.
  - destruct (retry_ok st _ started n Hok Hpc Hn') as [-> _]. by apply retry_work.
Qed.

Lemma moves_work x y :
  client_ok x.1 -> I x.2 -> peer_moves x y ->
  (peer_work y.1 < peer_work x.1)%nat \/ pc_state y.1 = pc_state x.1 /\ pc_peers y.1 = pc_peers x.1 /\ y.2 = x.2.
Proof.
  intros Hok Hw Hm. destruct Hm as [ok st st' w w' Hst _|x y Hex|r st st' w Hr Hst|m st st' w Hm Hst|st w objs s _ _];
    cbn [fst snd] in *; [left..|by right].
  - unfold peer_connect in Hst. destruct (pc_state st) eqn:Hpc; try done. pose proof Hok as (ld & _ & Hp). rewrite Hpc in Hp.
    destruct Hp as [_ Hne]. assert (peer_work st = nodes_work (length (pc_peers st))) as -> by (unfold peer_work; by rewrite Hpc).
    destruct (pc_peers st) as [|p ps] eqn:Hps; [done|]. injection Hst as <-. destruct ok.
    + cbn [peer_work pc_state pc_peers length pred]. rewrite nodes_work_S. unfold node_work. change (marker_cursor None) with FromStart. lia.
    + rewrite failed_work, Hps. cbn [length pred]. rewrite nodes_work_S. unfold node_work. lia.
  - destruct (exchange_ok x y Hok Hw Hex) as (_ & marker & started & n & cur & Hpc & Hmk & [[-> _]|(r & Hr & ->)]).
    + rewrite failed_work. destruct (asking_work x.1 marker started n Hok Hpc) as (? & _ & _ & ? & ->). lia.
    + by eapply reply_work.
  - apply reply_failed in Hst as [-> (m & s & n & Hpc)]; [|by destruct Hr as [->| ->]]. rewrite failed_work.
    destruct (asking_work st m s n Hok Hpc) as (? & _ & _ & ? & ->). lia.
  - destruct (refused_ok m st st' Hok Hm Hst) as (marker & started & n & Hpc & [->|[Hn ->]]); [|by apply retry_work].
    rewrite failed_work. destruct (asking_work st marker started n Hok Hpc) as (? & _ & _ & ? & ->). lia.
Qed.

(** A request can be answered; where nothing is thrown, the answer is a page. *)
Lemma exchange_enabled x marker started n :
  client_ok x.1 -> I x.2 -> pc_state x.1 = PAsk marker started n -> (forall m, exists v, wire m = Ok v) ->
  exists y, exchange x y /\
    ((exists e w, E e w) \/ pc_state y.1 = PLoaded \/ exists marker' n', pc_state y.1 = PAsk marker' true n').
Proof.
  intros Hok Hw Hpc Hwire. pose proof Hok as (ld & _ & Hst). rewrite Hpc in Hst. destruct Hst as (_ & _ & _ & cur & Hmk & Hc & _).
  destruct (Hwire (getRequest seq marker)) as [rq Hrq].
  assert (rq = JObject (node_request seq cur)) as ->.
  { rewrite (wire_reads _ _ Hrq), Hmk. apply request_read. pose proof (s0_pos h). pose proof nk_seq. lia. }
  destruct (triple_run _ _ _ x.2 (node_session cur session ip Hc) Hw) as (r & w' & Hws & (o & -> & Ha) & _).
  destruct (Hwire o) as [v Hv]. destruct (session_response read_double cur n o Ha) as (r & Hr & Hn).
  assert (exists st', peer_reply seq (PMessage (wire o)) x.1 = Some st' /\
    ((exists e w, E e w) \/ pc_state st' = PLoaded \/ exists marker' n', pc_state st' = PAsk marker' true n')) as (st' & Hst' & Hor).
  { unfold peer_reply. rewrite Hpc, Hv, (wire_reads _ _ Hv), Hr. eexists. split; [reflexivity|].
    destruct Hn as [(ks & next & -> & _)|[_ ?]]; [right | by left]. unfold peer_loop. destruct (_ || _); [right; by eexists _, _ | by left]. }
  exists (st', w'). split; [|done]. by exists marker, started, n, (node_request seq cur), o.
Qed.

(** C12: loading the cache from other nodes, against the server they run. However
    connections fail, requests are refused and answers thrown away, and whichever
    later ledgers are applied meanwhile, the cache holds only what the ledgers hold
    and is not full before the loading has ended; then it is full and answers every
    lookup at its latest sequence exactly. When no node is left the loading goes on
    from the database, with a cache as that may start with. It ends: each step but
    the application of a ledger brings the end nearer, and there are at most
    [node_work] of them for each node; while a request is waited for the node can
    answer it, and where its reads throw nothing and every message can be read, with
    a page. *)
Theorem peer_cache_load style peers loading c ld w :
  reach h c ld -> isFull c = false -> I w ->
  (peer_work (loadCache style peers loading c) <= length peers * node_work)%nat /\
  forall st w', rtc peer_moves (loadCache style peers loading c, w) (st, w') ->
    (exists ld', reach h (pc_cache st) ld') /\
    match pc_state st with
    | PIdle => True
    | PConnect | PAsk _ _ _ => isFull (pc_cache st) = false
    | PDb => exists ld', loaded_to h ld' false (pc_cache st)
    | PLoaded => isFull (pc_cache st) = true \/ disabled_ (pc_cache st) = true
    end /\
    (isFull (pc_cache st) = true -> forall k, 0 < latestLedgerSequence (pc_cache st) ->
       (get k (latestLedgerSequence (pc_cache st)) (pc_cache st)).1 = L h (latestLedgerSequence (pc_cache st)) !! k) /\
    (forall y, peer_moves (st, w') y ->
       (peer_work y.1 < peer_work st)%nat \/ pc_state y.1 = pc_state st /\ pc_peers y.1 = pc_peers st /\ y.2 = w') /\
    (forall marker started n, pc_state st = PAsk marker started n -> (forall m, exists v, wire m = Ok v) ->
       exists y, exchange (st, w') y /\
         ((exists e w, E e w) \/ pc_state y.1 = PLoaded \/ exists marker' n', pc_state y.1 = PAsk marker' true n')).
Proof.
  intros Hr Hf Hw. split.
  { unfold loadCache. destruct style; [| |exact (Nat.le_0_l _)];
    (destruct (_ || _); [exact (Nat.le_0_l _) | rewrite next_peer_work; exact (le_n _)]). }
  intros st w' Hrun. destruct (runs_ok (_, _) (_, _) (loadCache_ok style peers loading c ld Hr Hf) Hw Hrun) as [Hok Hw'].
  cbn [fst snd] in *. pose proof Hok as (ld' & Hr' & Hst). split_and!.
  - by exists ld'.
  - destruct (pc_state st); [done | apply Hst | apply Hst | by exists ld' | done].
  - intros Hfull k Hpos. by apply (full_get h _ ld').
  - intros y. by apply (moves_work (st, w')).
  - intros marker started n Hpc. by apply exchange_enabled with marker started n.
Qed.

End node.

(** ** An instance *)

(** Objects of one byte, written in decimals. *)
#[local] Instance peer_ripple : Ripple :=
  TreeRipple (fun _ => Throw (LibraryError "")) (fun _ _ _ => Throw (LibraryError "")) (fun b _ => Ok (mkObj sfNFTokens [(sfURI, VBlob b)])).

#[local] Instance peer_rendering : @DataRendering peer_ripple := {
  sle_toJson := (fun _ => JNull) : @STObject peer_ripple -> _;
  sle_serializeHex := (fun sle => match obj_get sle sfURI with Some (VBlob [x]) => z_text x | _ => "" end) : @STObject peer_ripple -> _;
  bytes_strHex := fun _ => "00"; drops_text := fun _ => "0"; time_text := fun _ => "now" }.

#[local] Instance peer_unhex : Unhex :=
  { unhex := fun s => match z_read s with Some x => Ok [x] | None => Throw (LibraryError "not hex") end }.

#[local] Instance peer_errors : RippledErrors :=
  { error_number := fun _ => 1; error_token := fun _ => "lgrNotFound"; error_text := fun _ => "" }.

#[local] Instance peer_backend : BackendImpl MemWorld := MemBackend sample_history.

Definition peer_info : LedgerInfo := mkLedgerInfo 5 0 0 0 0 0 0 0 0 66.

#[local] Instance peer_reads : LedgerReads MemWorld := {
  ledger_by_hash := fun _ => mret None;
  ledger_by_sequence := fun s => mret (if s =? 5 then Some peer_info else None) }.

Definition peer_diff (d : Z) : M MemWorld (list LedgerObject) := mret (history_diff sample_history d).

#[local] Instance peer_server : RpcServer MemWorld := {
  srv_counters := fun _ => ∅; set_srv_counters := fun _ w => w;
  srv_guard := fun _ => mkDOSGuard ∅ ∅ ∅ 100 10 10; set_srv_guard := fun _ w => w;
  srv_range := mw_range; forwardToRippled := fun _ _ => mret None; isTooBusy := mret false;
  lastCloseAgeSeconds := mret 3; elapsed := mret 3; handler := fun _ ctx => doLedgerData peer_diff ctx;
  serialize := fun _ => "" }.

#[local] Instance peer_wire : JsonWire := {
  read_double := JDouble; wire := fun m => Ok (read_back JDouble (JObject m));
  wire_reads := fun m v (Hv : Ok _ = Ok v) => match Hv in _ = r return match r with Ok v => v = _ | _ => True end with eq_refl => eq_refl end }.

(** A node that has both ledgers and a full cache. *)
Definition peer_serves (w : MemWorld) : Prop :=
  (exists ld, loaded_to sample_history ld true (mw_cache w)) /\ mw_range w = Some (mkLedgerRange 1 6).

#[local] Instance peer_laws : ReadLaws (L sample_history) peer_serves noexn.
Proof.
  pose proof (MemLaws sample_history) as HM. split.
  - apply L_nonempty.
  - apply L_valid.
  - intros w k s b [[ld [Hr _]] _]. apply HM. by exists ld.
  - intros w k s o [[ld [Hr _]] _]. apply HM. by exists ld.
  - intros w k s [[ld Hw] Hr]. split; [|done]. exists ld. by apply loaded_to_get.
  - intros w k s [[ld Hw] Hr]. split; [|done]. exists ld. by apply loaded_to_successor.
  - intros k s _ w Hw. by split.
  - intros ks s _ w Hw. by split.
  - intros k s _ w Hw. by split.
Qed.

#[local] Instance peer_ledger : ServesLedger peer_serves noexn peer_info.
Proof. split; [|intros w Hw; by split]. intros w [_ Hr]. by exists (mkLedgerRange 1 6). Qed.

Lemma history_diff_keys s : Forall valid_key (lo_key <$> history_diff sample_history s).
Proof.
  unfold history_diff. rewrite object_at_keys. apply Forall_forall. intros k [[b Hb]%elem_of_dom|[b Hb]%elem_of_dom]%elem_of_elements%elem_of_union;
    by eapply L_valid.
Qed.

#[local] Instance peer_node : NodeOk sample_history peer_info 6 peer_diff peer_serves noexn.
Proof.
  split; try done; try (by intros w Hw).
  - by intros w [_ Hr]; exists (mkLedgerRange 1 6).
  - by intros w [[ld [_ Hf]] _].
  - intros d Hd w Hw. cbn. split; [|done]. split; [apply history_diff_ok | apply history_diff_keys].
  - intros k b Hb. eexists. split; [reflexivity|]. cbn in Hb. unfold sample_L in Hb. cbn in Hb.
    apply lookup_insert_Some in Hb as [[_ <-]|[_ Hb]]; [done|]. by apply lookup_singleton_Some in Hb as [_ <-].
  - apply z_text_c_str.
Qed.

Definition peer_world : MemWorld := mkMemWorld sample_next (Some (mkLedgerRange 1 6)).

Lemma peer_world_ok : peer_serves peer_world.
Proof. split; [|done]. exists sample_loaded. split; [apply sample_next_reach | done]. Qed.

Local Abbreviation exchanges := (exchange (h := sample_history) 1 "a").
Local Abbreviation moves := (peer_moves (h := sample_history) (I := peer_serves) 1 "a").

Definition exchange_step (x : PeerCache * MemWorld) : option (PeerCache * MemWorld) :=
  match pc_state x.1 with
  | PAsk marker _ _ =>
      match wire (getRequest 5 marker) with
      | Ok (JObject request) =>
          match ws_handle_request request JNull 1 (Some "a") x.2 with
          | (Ok (Some o), w') => st' ← peer_reply 5 (PMessage (wire o)) x.1; Some (st', w')
          | _ => None
          end
      | _ => None
      end
  | _ => None
  end.

Lemma exchange_step_ok x y : exchange_step x = Some y -> exchanges x y.
Proof.
  unfold exchange_step. destruct (pc_state x.1) as [| |marker started n| |] eqn:Hpc; try done.
  destruct (wire (getRequest 5 marker)) as [[]| |] eqn:Hrq; try done.
  destruct (ws_handle_request m JNull 1 (Some "a") x.2) as [[[o|]| |] w'] eqn:Hws; try done.
  destruct (peer_reply 5 (PMessage (wire o)) x.1) as [st'|] eqn:Hst; [|done]. intros [= <-].
  by exists marker, started, n, m, o.
Qed.

Definition peer_start : PeerCache := loadCache ASYNC [mkClioPeer "b" 51233] false SimpleCache_init.
Definition peer_asking : PeerCache := default peer_start (peer_connect true peer_start).
Definition peer_done : option (PeerCache * MemWorld) :=
  x ← exchange_step (peer_asking, peer_world); y ← exchange_step x; exchange_step y.

Lemma peer_connects : rtc moves (peer_start, peer_world) (peer_asking, peer_world).
Proof. apply rtc_once. apply (mv_connect _ _ true); [done | apply peer_world_ok]. Qed.

Lemma peer_done_moves x : peer_done = Some x -> rtc moves (peer_start, peer_world) x.
Proof.
  intros (x1 & Hx1 & (x2 & Hx2 & Hx)%bind_Some)%bind_Some.
  etrans; [apply peer_connects|]. do 3 (eapply rtc_l; [apply mv_exchange, exchange_step_ok; eassumption|]). apply rtc_refl.
Qed.

(** A page of keys, two of deletions; the object that the next ledger deletes is
    there. The first request is answered with a page. *)
Lemma peer_cache_load_witness :
  (peer_work (h := sample_history) (newest := 6) peer_start <= 31)%nat /\
  (exists st w', rtc moves (peer_start, peer_world) (st, w') /\ pc_state st = PLoaded /\ isFull (pc_cache st) = true /\
    (get 10 5 (pc_cache st)).1 = Some [1]) /\
  exists y, exchanges (peer_asking, peer_world) y /\
    (pc_state y.1 = PLoaded \/ exists marker n, pc_state y.1 = PAsk marker true n).
Proof.
  destruct (peer_cache_load (I := peer_serves) (E := noexn) (newest := 6) 1 "a" ASYNC [mkClioPeer "b" 51233] false SimpleCache_init ∅ peer_world
    (rtc_refl _ _) eq_refl peer_world_ok) as [Hwork Hruns].
  split; [etrans; [exact Hwork|]; apply Nat.leb_le; vm_compute; reflexivity|]. split.
  - destruct peer_done as [[st w']|] eqn:Hd; [|vm_compute in Hd; discriminate Hd]. exists st, w'.
    pose proof (peer_done_moves _ Hd) as Hrun. split; [exact Hrun|].
    destruct (Hruns st w' Hrun) as (_ & _ & Hget & _). vm_compute in Hd. injection Hd as <- _.
    split; [reflexivity|]. split; [reflexivity|]. exact (Hget eq_refl 10 eq_refl).
  - destruct (Hruns peer_asking peer_world peer_connects) as (_ & _ & _ & _ & Hnext).
    destruct (Hnext None false 0 eq_refl (fun m => ex_intro _ _ eq_refl)) as (y & Hy & [(e & w & [])|Hor]). by exists y.
Defined.
