(* ===== verification/OwnedHandlers.v ===== *)
(** The older handlers that list what an account owns ([rpc/handlers/AccountObjects.cpp],
    [AccountLines.cpp], [AccountOffers.cpp], [AccountChannels.cpp]).

    Each of them walks the account's directory with a limit and a marker and renders
    what it is about. [owned_walks]: a client that follows the markers. *)

From stdpp Require Import base list gmap strings.
From Stdlib Require Import ZArith Lia.
From S2P Require Import Prelude Types TreeRipple SimpleCache Backend Json Errors Requests Subscriptions Directory OrderBook Rpc TxRequests Validators NgHandlers NgAccounts LedgerData.

#[local] Open Scope string_scope.
#[local] Open Scope list_scope.
Open Scope Z_scope.

(** [if (auto status = ...; status) return status;] *)
Definition with_done {W A B} (o : Outcome A) (k : A -> M W (Outcome B)) : M W (Outcome B) :=
  match o with Failed s => mret (Failed s) | Done a => k a end.

#[local] Notation "x ⇠ o ; k" := (with_done o (fun x => k)) (at level 20, o at level 100, k at level 200, only parsing).

Definition lsfLowReserve : Z := 0x00010000.
Definition lsfHighReserve : Z := 0x00020000.
Definition lsfLowAuth : Z := 0x00040000.
Definition lsfHighAuth : Z := 0x00080000.
Definition lsfLowNoRipple : Z := 0x00100000.
Definition lsfHighNoRipple : Z := 0x00200000.
Definition lsfDefaultRipple : Z := 0x00800000.
Definition ltSIGNER_LIST : Z := 0x53.

(** [flags & flag] as a bool. *)
Definition has_flag (flags flag : Z) : bool := negb (Z.land flags flag =? 0).

(** ** Parameters *)

Definition text_marker (request : JsonObject) : Outcome (option string) :=
  match obj_find "marker" request with
  | None => Done None
  | Some (JString s) => Done (Some (c_str s))
  | Some _ => Failed (Status_message (Rippled rpcINVALID_PARAMS) "markerNotString")
  end.

Definition object_types : list (string * Z) :=
  [("state", ltRIPPLE_STATE); ("ticket", ltTICKET); ("signer_list", ltSIGNER_LIST); ("payment_channel", ltPAYCHAN);
   ("offer", ltOFFER); ("escrow", ltESCROW); ("deposit_preauth", ltDEPOSIT_PREAUTH); ("check", ltCHECK);
   ("nft_page", ltNFTOKEN_PAGE); ("nft_offer", ltNFTOKEN_OFFER)].

Definition object_type (request : JsonObject) : Outcome (option Z) :=
  match obj_find "type" request with
  | None => Done None
  | Some (JString s) =>
      match list_find (fun t => t.1 = c_str s) object_types with
      | Some (_, t) => Done (Some t.2)
      | None => Failed (Status_message (Rippled rpcINVALID_PARAMS) "typeInvalid")
      end
  | Some _ => Failed (Status_message (Rippled rpcINVALID_PARAMS) "typeNotString")
  end.

Definition ignore_default (request : JsonObject) : Outcome bool :=
  match obj_find "ignore_default" request with
  | None => Done false
  | Some (JBool b) => Done b
  | Some _ => Failed (Status_message (Rippled rpcINVALID_PARAMS) "ignoreDefaultNotBool")
  end.

(** ** What is made of an owned object *)

Section items.
Context `{DataRendering} `{!Amounts} `{!TxRendering} `{!NgRipple} `{RippleStrings} `{CursorText}.

Definition objects_item (objectType : option Z) (sle : STObject) : Res (list json) :=
  match objectType with
  | None => Ok [sle_toJson sle]
  | Some t => type ← getFieldU16 sle sfLedgerEntryType; Ok (if t =? type then [sle_toJson sle] else [])
  end.

(** [addLine] *)
Definition addLine (line : STObject) (account : AccountID) (peerAccount : option AccountID) : Res (list json) :=
  flags ← getFieldU32 line sfFlags;
  lowLimit ← getFieldAmount line sfLowLimit;
  highLimit ← getFieldAmount line sfHighLimit;
  lowQualityIn ← getFieldU32 line sfLowQualityIn;
  lowQualityOut ← getFieldU32 line sfLowQualityOut;
  highQualityIn ← getFieldU32 line sfHighQualityIn;
  highQualityOut ← getFieldU32 line sfHighQualityOut;
  balance ← getFieldAmount line sfBalance;
  let viewLowest := amt_issuer lowLimit =? account in
  let lineAccountIDPeer := if viewLowest then amt_issuer highLimit else amt_issuer lowLimit in
  if (match peerAccount with Some p => negb (p =? lineAccountIDPeer) | None => false end) then Ok []
  else
    let balance := if viewLowest then balance else amt_negate balance in
    let lineAuth := has_flag flags (if viewLowest then lsfLowAuth else lsfHighAuth) in
    let lineAuthPeer := has_flag flags (if viewLowest then lsfHighAuth else lsfLowAuth) in
    let lineNoRipple := has_flag flags (if viewLowest then lsfLowNoRipple else lsfHighNoRipple) in
    let lineDefaultRipple := has_flag flags lsfDefaultRipple in
    let lineNoRipplePeer := has_flag flags (if viewLowest then lsfHighNoRipple else lsfLowNoRipple) in
    let lineFreeze := has_flag flags (if viewLowest then lsfLowFreeze else lsfHighFreeze) in
    let lineFreezePeer := has_flag flags (if viewLowest then lsfHighFreeze else lsfLowFreeze) in
    let member_if (b : bool) (k : string) (v : bool) := if b then [(k, JBool v)] else [] in
    Ok [JObject
      ([("account", JString (account_text lineAccountIDPeer)); ("balance", JString (amt_text balance));
        ("currency", JString (currency_text (amt_currency balance)));
        ("limit", JString (amt_text (if viewLowest then lowLimit else highLimit)));
        ("limit_peer", JString (amt_text (if viewLowest then highLimit else lowLimit)));
        ("quality_in", JUint64 (if viewLowest then lowQualityIn else highQualityIn));
        ("quality_out", JUint64 (if viewLowest then lowQualityOut else highQualityOut))] ++
       member_if lineAuth "authorized" true ++ member_if lineAuthPeer "peer_authorized" true ++
       member_if (lineNoRipple || negb lineDefaultRipple) "no_ripple" lineNoRipple ++
       member_if (lineNoRipple || negb lineDefaultRipple) "no_ripple_peer" lineNoRipplePeer ++
       member_if lineFreeze "freeze" true ++ member_if lineFreezePeer "freeze_peer" true)].

Definition lines_item (accountID : AccountID) (peerAccount : option AccountID) (ignoreDefault : bool) (sle : STObject)
  : Res (list json) :=
  type ← getFieldU16 sle sfLedgerEntryType;
  if negb (type =? ltRIPPLE_STATE) then Ok []
  else
    ignore ← (if ignoreDefault then
                low ← getFieldAmount sle sfLowLimit;
                flags ← getFieldU32 sle sfFlags;
                Ok (negb (has_flag flags (if amt_issuer low =? accountID then lsfLowReserve else lsfHighReserve)))
              else Ok false);
    if (ignore : bool) then Ok [] else addLine sle accountID peerAccount.

(** An amount of an offer. *)
Definition taker_amount (a : STAmount) : json :=
  if amt_native a then JString (amt_text a)
  else JObject [("value", JString (amt_text a)); ("currency", JString (currency_text (amt_currency a)));
                ("issuer", JString (account_text (amt_issuer a)))].

Definition addOffer (offer : STObject) : Res json :=
  directory ← getFieldH256 offer sfBookDirectory;
  rate ← amountFromQuality (getQuality directory);
  takerPays ← getFieldAmount offer sfTakerPays;
  takerGets ← getFieldAmount offer sfTakerGets;
  seq ← getFieldU32 offer sfSequence;
  flags ← getFieldU32 offer sfFlags;
  expires ← (if isFieldPresent offer sfExpiration then e ← getFieldU32 offer sfExpiration; Ok [("expiration", JUint64 e)] else Ok []);
  Ok (JObject ([("taker_pays", taker_amount takerPays); ("taker_gets", taker_amount takerGets); ("seq", JUint64 seq);
                ("flags", JUint64 flags); ("quality", JString (amt_text rate))] ++ expires)).

Definition offers_item (sle : STObject) : Res (list json) :=
  type ← getFieldU16 sle sfLedgerEntryType;
  if type =? ltOFFER then o ← addOffer sle; Ok [o] else Ok [].

(** The older [addChannel]. *)
Definition old_addChannel (line : STObject) : Res json :=
  account ← getAccountID line sfAccount;
  destination ← getAccountID line sfDestination;
  amount ← at_amount line sfAmount;
  balance ← at_amount line sfBalance;
  pk ← at_VL line sfPublicKey;
  delay ← at_U32 line sfSettleDelay;
  expires ← find_U32 line sfExpiration;
  cancel ← find_U32 line sfCancelAfter;
  source ← find_U32 line sfSourceTag;
  dest ← find_U32 line sfDestinationTag;
  let number (k : string) (v : option Z) : JsonObject := match v with Some z => [(k, JUint64 z)] | None => [] end in
  Ok (JObject
    ([("channel_id", JString (strHex (sle_key line))); ("account", JString (account_text account));
      ("destination_account", JString (account_text destination)); ("amount", JString (amt_text amount));
      ("balance", JString (amt_text balance))] ++
     (if publicKeyType pk then [("public_key", JString (publicKey_text pk)); ("public_key_hex", JString (blob_strHex pk))] else []) ++
     [("settle_delay", JUint64 delay)] ++ number "expiration" expires ++ number "cancel_after" cancel ++
     number "source_tag" source ++ number "destination_tag" dest)).

(** No destination is the zero account. *)
Definition channels_item (accountID destAccount : AccountID) (sle : STObject) : Res (list json) :=
  type ← getFieldU16 sle sfLedgerEntryType;
  if negb (type =? ltPAYCHAN) then Ok []
  else
    account ← getAccountID sle sfAccount;
    if negb (account =? accountID) then Ok []
    else
      wanted ← (if destAccount =? 0 then Ok true
                else destination ← getAccountID sle sfDestination; Ok (destAccount =? destination));
      if (wanted : bool) then c ← old_addChannel sle; Ok [c] else Ok [].

(** [push_back] of what is made of the object. *)
Definition push_items (item : STObject -> Res (list json)) (acc : list json) (sle : STObject) : Res (list json) :=
  xs ← item sle; Ok (acc ++ xs).

End items.

(** ** The handlers *)

Section handlers.
Context `{BackendImpl W} `{LedgerReads W} `{DataRendering} `{!Amounts} `{!TxRendering} `{!NgRipple}.
Context `{RippleKeylets} `{RippleStrings} `{LexicalCast} `{CursorText}.
Context (fuel : nat).

(** The marker of the next answer. *)
Definition next_member (next : AccountCursor) : JsonObject :=
  if isNonZero next then [("marker", JString (AccountCursor_toString next))] else [].

Definition lgrInfo_members (lgrInfo : LedgerInfo) : JsonObject :=
  [("ledger_hash", JString (strHex (li_hash lgrInfo))); ("ledger_index", JUint64 (li_seq lgrInfo))].

Definition doAccountObjects (context : Context) : M W (Outcome JsonObject) :=
  let request := ctx_params context in
  v ← ledgerInfoFromRequest request (ctx_range context);
  lgrInfo ⇠ v;
  accountID ⇠ getAccount request 0;
  limit ⇠ getLimit context;
  marker ⇠ text_marker request;
  objectType ⇠ object_type request;
  next ← traverse_account (push_items (objects_item objectType)) fuel accountID (li_seq lgrInfo) limit marker [];
  nextMarker ⇠ next;
  mret (Done ([("account", JString (account_text accountID)); ("account_objects", JArray nextMarker.2)] ++
              lgrInfo_members lgrInfo ++ next_member nextMarker.1)).

(** The account has to be in the ledger. *)
Definition account_exists (accountID : AccountID) (lgrInfo : LedgerInfo) : M W (Outcome unit) :=
  rawAcct ← fetchLedgerObject (keylet_account accountID) (li_seq lgrInfo);
  mret (match rawAcct with
        | Some _ => Done tt
        | None => Failed (Status_message (Rippled rpcACT_NOT_FOUND) "accountNotFound")
        end).

Definition doAccountLines (context : Context) : M W (Outcome JsonObject) :=
  let request := ctx_params context in
  v ← ledgerInfoFromRequest request (ctx_range context);
  lgrInfo ⇠ v;
  accountID ⇠ getAccount request 0;
  rawAcct ← account_exists accountID lgrInfo;
  _ ⇠ rawAcct;
  peerAccount ⇠ getOptionalAccount request "peer";
  limit ⇠ getLimit context;
  marker ⇠ text_marker request;
  ignoreDefault ⇠ ignore_default request;
  next ← traverse_account (push_items (lines_item accountID peerAccount ignoreDefault)) fuel accountID (li_seq lgrInfo) limit marker [];
  nextMarker ⇠ next;
  mret (Done ([("account", JString (account_text accountID))] ++ lgrInfo_members lgrInfo ++
              [("limit", JUint64 limit); ("lines", JArray nextMarker.2)] ++ next_member nextMarker.1)).

Definition doAccountOffers (context : Context) : M W (Outcome JsonObject) :=
  let request := ctx_params context in
  v ← ledgerInfoFromRequest request (ctx_range context);
  lgrInfo ⇠ v;
  accountID ⇠ getAccount request 0;
  rawAcct ← account_exists accountID lgrInfo;
  _ ⇠ rawAcct;
  limit ⇠ getLimit context;
  marker ⇠ text_marker request;
  next ← traverse_account (push_items offers_item) fuel accountID (li_seq lgrInfo) limit marker [];
  nextMarker ⇠ next;
  mret (Done ([("account", JString (account_text accountID)); ("limit", JUint64 limit)] ++ lgrInfo_members lgrInfo ++
              [("offers", JArray nextMarker.2)] ++ next_member nextMarker.1)).

Definition doAccountChannels (context : Context) : M W (Outcome JsonObject) :=
  let request := ctx_params context in
  v ← ledgerInfoFromRequest request (ctx_range context);
  lgrInfo ⇠ v;
  accountID ⇠ getAccount request 0;
  rawAcct ← account_exists accountID lgrInfo;
  _ ⇠ rawAcct;
  destAccount ⇠ getAccount_optional request 0 "destination_account";
  limit ⇠ getLimit context;
  marker ⇠ text_marker request;
  next ← traverse_account (push_items (channels_item accountID destAccount)) fuel accountID (li_seq lgrInfo) limit marker [];
  nextMarker ⇠ next;
  mret (Done ([("account", JString (account_text accountID)); ("channels", JArray nextMarker.2); ("limit", JUint64 limit)] ++
              lgrInfo_members lgrInfo ++ next_member nextMarker.1)).

(** ** A client *)

(** The same request again with the marker of each answer; what the answers list
    under [member]. *)
Fixpoint owned_client (handler : Context -> M W (Outcome JsonObject)) (member : string) (fuel : nat) (ctx : Context)
    (marker : option string) : M W (Outcome (list json)) :=
  match fuel with
  | O => no_fuel
  | S fuel' =>
      r ← handler (with_params (with_marker marker (ctx_params ctx)) ctx);
      response ⇠ r;
      let objects := match obj_find member response with Some (JArray l) => l | _ => [] end in
      match obj_find "marker" response with
      | Some (JString m) =>
          rest ← owned_client handler member fuel' ctx (Some m);
          mret (rest ← rest; Done (objects ++ rest))
      | _ => mret (Done objects)
      end
  end.

End handlers.

(** The ledger of a request that names it by its number. *)
Lemma named_ledger `{BackendImpl W} `{LedgerReads W} `{RippleStrings} `{LexicalCast} {Ldg : Z -> gmap Z Blob} {I : W -> Prop} {E : Exn -> W -> Prop}
    `{!ReadLaws Ldg I E} {info : LedgerInfo} `{!ServesLedger I E info} (params : JsonObject) (rg : LedgerRange) :
  obj_find "ledger_hash" params = None -> obj_find "ledger_index" params = Some (JInt64 (li_seq info)) ->
  0 <= li_seq info < 2 ^ 32 /\ li_seq info <= maxSequence rg ->
  triple I (ledgerInfoFromRequest params rg) (fun r w => r = Done info /\ I w) E.
Proof.
  intros Hh Hi [Hs Hm]. unfold ledgerInfoFromRequest. rewrite Hh, Hi. cbn [default from_option id]. unfold u32. rewrite Z.mod_small by done.
  eapply triple_bind; [apply sl_ledger|]. intros r. apply triple_pre_pure. intros ->. apply triple_ret. intros w Hw.
  replace (li_seq info >? maxSequence rg) with false by lia. done.
Qed.

(** The requests that are about these handlers, with their own parameters. *)
Inductive OwnedRequest :=
| OwnedObjects (objectType : option Z)
| OwnedLines (peerAccount : option AccountID) (ignoreDefault : bool)
| OwnedOffers
| OwnedChannels (destAccount : AccountID).

Section walks.
Context `{BackendImpl W} `{LedgerReads W} {Ldg : Z -> gmap Z Blob} {I : W -> Prop} {E : Exn -> W -> Prop}.
Context `{!ReadLaws Ldg I E} {info : LedgerInfo} `{!ServesLedger I E info}.
Context `{DataRendering} `{!Amounts} `{!TxRendering} `{!NgRipple} `{RippleKeylets} `{CursorTextLaws}.

Definition owned_handler (m : OwnedRequest) : nat -> Context -> M W (Outcome JsonObject) :=
  match m with
  | OwnedObjects _ => doAccountObjects | OwnedLines _ _ => doAccountLines
  | OwnedOffers => doAccountOffers | OwnedChannels _ => doAccountChannels
  end.

Definition owned_member (m : OwnedRequest) : string :=
  match m with OwnedObjects _ => "account_objects" | OwnedLines _ _ => "lines" | OwnedOffers => "offers" | OwnedChannels _ => "channels" end.

Definition owned_item (a : AccountID) (m : OwnedRequest) : STObject -> Res (list json) :=
  match m with
  | OwnedObjects t => objects_item t
  | OwnedLines peer ignore => lines_item a peer ignore
  | OwnedOffers => offers_item
  | OwnedChannels dest => channels_item a dest
  end.

(** The parameters say what the request is about. *)
Definition owned_params (m : OwnedRequest) (params : JsonObject) : Prop :=
  match m with
  | OwnedObjects t => object_type params = Done t
  | OwnedLines peer ignore => getOptionalAccount params "peer" = Done peer /\ ignore_default params = Done ignore
  | OwnedOffers => True
  | OwnedChannels dest => getAccount_optional params 0 "destination_account" = Done dest
  end.

Context (sle_of : uint256 -> STObject) (pages : list (Z * list uint256)) (dir_fuel : nat).
Context (account : string) (a : AccountID) (m : OwnedRequest) (ctx : Context) (limit : Z).

Abbreviation params := (ctx_params ctx).
Abbreviation seq := (li_seq info).
Abbreviation keys := (dir_keys pages).

Definition item_list (sle : STObject) : list json := match owned_item a m sle with Ok l => l | _ => [] end.

Abbreviation found := (fun ks : list uint256 => mjoin ((fun k => item_list (sle_of k)) <$> ks)).
Abbreviation readable := (fun sle => exists l, owned_item a m sle = Ok l).

(** A request for the account's objects in the ledger, from the start. *)
Record owned_request_ok : Prop := {
  or_hash : obj_find "ledger_hash" params = None;
  or_index : obj_find "ledger_index" params = Some (JInt64 seq);
  or_seq : 0 <= seq < 2 ^ 32 /\ seq <= maxSequence (ctx_range ctx);
  or_account : getAccount params 0 = Done a;
  or_params : owned_params m params;
  or_marker : obj_find "marker" params = None;
  or_limit : getLimit ctx = Done limit /\ 0 < limit < 2 ^ 32;
  or_text : forall c, c_str (AccountCursor_toString c) = AccountCursor_toString c }.

Abbreviation owner := (owner_ok (Ldg seq) sle_of pages dir_fuel account a readable).

Lemma getAccount_marker mk f field required :
  field <> "marker" -> getAccount_field (with_marker mk params) f field required = getAccount_field params f field required.
Proof. intros Hf. unfold getAccount_field, field_string. by rewrite find_marker. Qed.

Lemma optional_marker mk field : field <> "marker" -> getOptionalAccount (with_marker mk params) field = getOptionalAccount params field.
Proof. intros Hf. unfold getOptionalAccount, field_string. by rewrite find_marker. Qed.

Lemma item_visit acc sle l : owned_item a m sle = Ok l -> push_items (owned_item a m) acc sle = Ok (acc ++ item_list sle).
Proof. intros Hl. unfold push_items, item_list. by rewrite Hl. Qed.

Lemma items_fold ks acc : foldl (fun acc sle => acc ++ item_list sle) acc (sle_of <$> ks) = acc ++ found ks.
Proof.
  revert acc. induction ks as [|k ks IH]; intros acc; cbn; [by rewrite app_nil_r|]. fold_fmap. rewrite IH. by rewrite <- app_assoc.
Qed.

(** The traversal from the marker that stands for the first [n] keys. *)
Lemma owned_traverse n :
  owner -> 0 < limit < 2 ^ 32 -> (n <= length keys)%nat ->
  triple I (traverse_account (push_items (owned_item a m)) dir_fuel a seq limit (marker_at pages n) [])
    (fun r w => r = Done (if decide (n + Z.to_nat limit <= length keys)%nat then cursor_at pages (n + Z.to_nat limit) else zero_cursor,
                          found (cut limit (drop n keys))) /\ I w) E.
Proof.
  intros (Ha & [b Hb] & Hroot & Hc & Hf & Hnd & Hz & Hobj) Hl Hn. unfold traverse_account.
  eapply triple_bind; [apply fetchLedgerObject_spec; by eapply rl_valid|]. intros r. apply triple_pre_pure. intros ->. rewrite Hb.
  set (c := if decide (n = 0%nat) then zero_cursor else cursor_at pages n).
  assert (parseAccountCursor (marker_at pages n) = Some c) as ->.
  { unfold marker_at, c. destruct (decide (n = 0%nat)); [done|]. apply parse_toString. eapply cursor_at_ok; [done..|lia]. }
  eapply triple_conseq.
  { apply (traverse_pages (push_items (owned_item a m)) (fun acc sle => acc ++ item_list sle) sle_of dir_fuel
      (keylet_ownerDir a) seq limit pages n []); try done.
    intros k Hk. destruct (Hobj k Hk) as [Ho [l Hv]]. split; [done|]. intros acc. by eapply item_visit. }
  all: try done. intros r w [-> Hw]. split; [|done]. by rewrite items_fold.
Qed.

(** The answer to the request with that marker. *)
Definition owned_answer (n : nat) (r : Outcome JsonObject) : Prop :=
  exists response, r = Done response /\
    obj_find (owned_member m) response = Some (JArray (found (cut limit (drop n keys)))) /\
    obj_find "marker" response =
      JString <$> (if decide (n + Z.to_nat limit <= length keys)%nat then marker_at pages (n + Z.to_nat limit) else None).

Lemma next_member_spec n :
  owner -> 0 < limit -> let c := if decide (n + Z.to_nat limit <= length keys)%nat then cursor_at pages (n + Z.to_nat limit) else zero_cursor in
  obj_find "marker" (next_member c) =
    JString <$> (if decide (n + Z.to_nat limit <= length keys)%nat then marker_at pages (n + Z.to_nat limit) else None).
Proof.
  intros (_ & _ & _ & Hc & _ & _ & Hz & _) Hl. cbv zeta. unfold next_member.
  destruct (decide (n + Z.to_nat limit <= length keys)%nat); [|done]. unfold marker_at. rewrite decide_False by lia.
  destruct (cursor_at_ok _ _ _ (n + Z.to_nat limit) Hc Hz) as [_ ->]; [lia|done].
Qed.

Lemma marker_text n : owned_request_ok -> text_marker (with_marker (marker_at pages n) params) = Done (marker_at pages n).
Proof.
  intros Hok. unfold text_marker, marker_at. destruct (decide (n = 0%nat)); cbn [with_marker]; [by rewrite (or_marker Hok)|].
  rewrite obj_find_set, decide_True by done. by rewrite (or_text Hok).
Qed.

Lemma owned_ledger mk :
  owned_request_ok -> triple I (ledgerInfoFromRequest (with_marker mk params) (ctx_range ctx)) (fun r w => r = Done info /\ I w) E.
Proof. intros Hok. apply named_ledger; rewrite ?find_marker by done; apply Hok. Qed.

Lemma owned_exists : owner -> triple I (account_exists a info) (fun r w => r = Done tt /\ I w) E.
Proof.
  intros (_ & [b Hb] & _). unfold account_exists. eapply triple_bind; [apply fetchLedgerObject_spec; by eapply rl_valid|].
  intros r. apply triple_pre_pure. intros ->. rewrite Hb. by apply triple_ret.
Qed.

Lemma getLimit_marker mk : getLimit (with_params (with_marker mk params) ctx) = getLimit ctx.
Proof. unfold getLimit. cbn [with_params ctx_params ctx_method]. by rewrite find_marker. Qed.

Lemma obj_find_app k (l1 l2 : JsonObject) :
  obj_find k (l1 ++ l2) = match obj_find k l1 with Some v => Some v | None => obj_find k l2 end.
Proof. induction l1 as [|[j v] l1 IH]; cbn; [done|]. case_decide; [done | exact IH]. Qed.

(** The traversal and the answer with its objects and marker. *)
Lemma owned_finish n (response : list json -> JsonObject) :
  owned_request_ok -> owner -> (n <= length keys)%nat ->
  (forall l, obj_find (owned_member m) (response l) = Some (JArray l) /\ obj_find "marker" (response l) = None) ->
  triple I (next ← traverse_account (push_items (owned_item a m)) dir_fuel a seq limit (marker_at pages n) [];
            with_done next (fun nextMarker => mret (Done (response nextMarker.2 ++ next_member nextMarker.1))))
    (fun r w => owned_answer n r /\ I w) E.
Proof.
  intros Hok Hown Hn Hresp. pose proof (or_limit Hok) as [_ Hl].
  eapply triple_bind; [by apply owned_traverse|]. intros r. apply triple_pre_pure. intros ->. cbn [with_done fst snd].
  apply triple_ret. intros w Hw. split; [|done]. eexists. split; [done|]. destruct (Hresp (found (cut limit (drop n keys)))) as [Hm Hk].
  rewrite !obj_find_app, Hm, Hk. split; [done|]. exact (next_member_spec n Hown (proj1 Hl)).
Qed.

Lemma owned_handler_spec n :
  owned_request_ok -> owner -> (n <= length keys)%nat ->
  triple I (owned_handler m dir_fuel (with_params (with_marker (marker_at pages n) params) ctx)) (fun r w => owned_answer n r /\ I w) E.
Proof.
  intros Hok Hown Hn. pose proof (or_params Hok) as Hp.
  assert (getAccount (with_marker (marker_at pages n) params) 0 = Done a) as Hacc.
  { unfold getAccount. rewrite getAccount_marker by done. apply (or_account Hok). }
  pose proof (getLimit_marker (marker_at pages n)) as Hlim. rewrite (proj1 (or_limit Hok)) in Hlim.
  pose proof (marker_text n Hok) as Hmk. pose proof (fun response => owned_finish n response Hok Hown Hn) as Hfin.
  pose proof (owned_exists Hown) as Hex. clear Hown.
  destruct m as [t|peer ignore| |dest]; cbn [owned_handler owned_params] in *;
    unfold doAccountObjects, doAccountLines, doAccountOffers, doAccountChannels; cbn [with_params ctx_params ctx_range];
    (eapply triple_bind; [by apply owned_ledger|]); intros r; apply triple_pre_pure; intros ->; cbn [with_done]; rewrite Hacc; cbn [with_done].
  - rewrite Hlim, Hmk. unfold object_type in *. rewrite find_marker, Hp by done. cbn [with_done].
    apply (Hfin (fun l => [("account", JString (account_text a)); ("account_objects", JArray l)] ++ lgrInfo_members info)); done.
  - eapply triple_bind; [exact Hex|]. intros r. apply triple_pre_pure. intros ->. cbn [with_done].
    rewrite optional_marker by done. rewrite (proj1 Hp), Hlim, Hmk. unfold ignore_default in *. rewrite find_marker, (proj2 Hp) by done.
    cbn [with_done].
    apply (Hfin (fun l => [("account", JString (account_text a))] ++ lgrInfo_members info ++ [("limit", JUint64 limit); ("lines", JArray l)])); done.
  - eapply triple_bind; [exact Hex|]. intros r. apply triple_pre_pure. intros ->. cbn [with_done].
    rewrite Hlim, Hmk. cbn [with_done].
    apply (Hfin (fun l => [("account", JString (account_text a)); ("limit", JUint64 limit)] ++ lgrInfo_members info ++ [("offers", JArray l)])); done.
  - eapply triple_bind; [exact Hex|]. intros r. apply triple_pre_pure. intros ->. cbn [with_done].
    unfold getAccount_optional in *. rewrite getAccount_marker, Hp, Hlim, Hmk by done. cbn [with_done].
    apply (Hfin (fun l => [("account", JString (account_text a)); ("channels", JArray l); ("limit", JUint64 limit)] ++ lgrInfo_members info)); done.
Qed.

Lemma owned_client_spec fuel n :
  owned_request_ok -> owner -> (n <= length keys)%nat -> (length keys - n < fuel)%nat ->
  triple I (owned_client (owned_handler m dir_fuel) (owned_member m) fuel ctx (marker_at pages n))
    (fun r w => r = Done (found (drop n keys)) /\ I w) E.
Proof.
  intros Hok Hown. pose proof (or_limit Hok) as [_ Hl]. revert n. induction fuel as [|fuel IH]; intros n Hn Hf; [lia|]. cbn [owned_client].
  eapply triple_bind; [by apply owned_handler_spec|]. intros r. apply triple_pre_pure. intros (response & -> & Hmem & Hmk).
  cbn [with_done]. rewrite Hmem, Hmk. destruct (decide (n + Z.to_nat limit <= length keys)%nat) as [Hmore|Hend].
  - assert (exists t, marker_at pages (n + Z.to_nat limit) = Some t) as [t Ht].
    { unfold marker_at. rewrite decide_False by lia. by eexists. }
    rewrite Ht. cbn [fmap option_fmap option_map]. rewrite <- Ht. eapply triple_bind; [apply IH; lia|]. intros r. apply triple_pre_pure.
    intros ->. apply triple_ret. intros w Hw. split; [|done]. cbn. f_equal.
    rewrite <- drop_drop, <- join_app, <- fmap_app. unfold cut. by rewrite take_drop.
  - cbn [fmap option_fmap option_map]. apply triple_ret. intros w Hw. split; [|done]. unfold cut. by rewrite take_ge by (rewrite length_drop; lia).
Qed.

(** C21: listing what an account owns, with [account_objects] (of one type or
    all), [account_lines] (with one peer or all, with or without default lines),
    [account_offers] or [account_channels] (to one destination or all). A client that
    sends the marker of each answer back gets, whatever the limit, exactly what the
    method makes of the objects in the account's directory, once and in its order, in
    at most one request more than there are objects. *)
Theorem owned_walks (fuel : nat) :
  owned_request_ok -> owner -> (length keys < fuel)%nat ->
  triple I (owned_client (owned_handler m dir_fuel) (owned_member m) fuel ctx None) (fun r w => r = Done (found keys) /\ I w) E.
Proof. intros Hok Hown Hf. apply (owned_client_spec fuel 0); [done..|lia|lia]. Qed.

End walks.

(** ** An instance *)

#[local] Existing Instances ng_ripple ng_amounts ng_rendering ng_sample ng_backend ng_reads ng_laws ng_serves data_rendering.

Lemma c_str_app s t : c_str s = s -> c_str t = t -> c_str (s +:+ t) = s +:+ t.
Proof.
  induction s as [|x s IH]; [done|]. intros Hs Ht. change (String x s +:+ t) with (String x (s +:+ t)). cbn [c_str] in *.
  case_decide; [done|]. f_equal. apply IH; [congruence | done].
Qed.

Definition lines_ctx : Context :=
  mkContext "account_lines" [("account", JString "e"); ("ledger_index", JInt64 6); ("limit", JInt64 10)] None (mkLedgerRange 1 9) "".

(** The account's two lines, to the peers 8 and 7; its two channels are passed over. *)
Lemma owned_walks_witness :
  exists w l1 l2, owned_client (owned_handler (OwnedLines None false) 2) "lines" 5 lines_ctx None ng_world = (Ok (Done [JObject l1; JObject l2]), w) /\
    obj_find "account" l1 = Some (JString (z_text 8)) /\ obj_find "account" l2 = Some (JString (z_text 7)) /\
    obj_find "balance" l2 = Some (JString (z_text (-50))).
Proof.
  assert (owned_request_ok (info := ng_info) 1 (OwnedLines None false) lines_ctx 10) as Hok.
  { split; try reflexivity; try (split; reflexivity); [cbn; lia | split; [reflexivity | lia] |].
    intros c. unfold AccountCursor_toString. apply c_str_app; [apply z_text_c_str|]. apply c_str_app; [done | apply z_text_c_str]. }
  destruct (triple_run _ _ _ _
    (owned_walks (I := ng_served) (H1 := ng_ripple) (H2 := data_rendering) ng_object ng_pages 2 "e" 1 (OwnedLines None false) lines_ctx 10 5 Hok
       (ng_owner (fun sle => exists l, owned_item (H1 := ng_ripple) (H2 := data_rendering) 1 (OwnedLines None false) sle = Ok l) ltac:(eexists; vm_compute; reflexivity)
          ltac:(eexists; vm_compute; reflexivity) ltac:(eexists; vm_compute; reflexivity) ltac:(eexists; vm_compute; reflexivity))
       ltac:(vm_compute; lia)) ng_world_ok) as (r & w & Hrun & -> & _).
  exists w. eexists _, _. split; [exact Hrun|]. split; [reflexivity|]. split; reflexivity.
Defined.
