(* ===== verification/AccountReports.v ===== *)
(** The older handlers that look at all an account owns ([rpc/handlers/NoRippleCheck.cpp],
    [AccountCurrencies.cpp], [GatewayBalances.cpp]).

    [noripple_report]: what the check of the no-ripple flags reports, and that its
    limit has no effect. [gateway_same]: the older [gateway_balances] answers as the
    newer handler does. *)

From stdpp Require Import base list gmap strings.
From Stdlib Require Import ZArith Lia.
From S2P Require Import Prelude Types TreeRipple SimpleCache Backend Json Errors Requests Subscriptions Directory OrderBook Rpc TxRequests Validators NgHandlers NgAccounts LedgerData OwnedHandlers.

#[local] Open Scope string_scope.
#[local] Open Scope list_scope.
Open Scope Z_scope.

#[local] Notation "x ⇠ o ; k" := (with_done o (fun x => k)) (at level 20, o at level 100, k at level 200, only parsing).

Definition tfClearNoRipple : Z := 0x00040000.
Definition tfSetNoRipple : Z := 0x00020000.

(** [fees.units.jsonClipped()] *)
Class FeeText := { units_json : Z -> json }.

(** ** NoRippleCheck *)

Section noripple.
Context `{BackendImpl W} `{LedgerReads W} `{Amounts} `{!TxRendering} `{!NgRipple} `{FeeText}.
Context `{RippleKeylets} `{RippleStrings} `{LexicalCast} `{CursorText}.
Context (fuel : nat).

Definition getBaseTx (accountID : AccountID) (accountSeq : Z) (fees : Fees) : JsonObject :=
  [("Sequence", JUint64 accountSeq); ("Account", JString (account_text accountID)); ("Fee", units_json (fee_units fees))].

(** The problems and transactions so far, the next sequence, and the limit. *)
Record NrState := mkNrState { nr_problems : list json; nr_transactions : list json; nr_seq : Z; nr_limit : Z }.

(** A problem, and the transaction that mends it once its sequence is known. *)
Abbreviation NrEntry := (string * option (Z -> json))%type.

Definition add_entry (e : NrEntry) (st : NrState) : NrState :=
  mkNrState (nr_problems st ++ [JString e.1])
    (match e.2 with Some tx => nr_transactions st ++ [tx (nr_seq st)] | None => nr_transactions st end)
    (match e.2 with Some _ => u32 (nr_seq st + 1) | None => nr_seq st end) (nr_limit st).

(** [*fees], which is undefined where there are none; only looked at for a
    transaction. *)
Definition tx_entry (includeTxs : bool) (fees : option Fees) (tx : Fees -> Z -> json) : Res (option (Z -> json)) :=
  if includeTxs then match fees with Some f => Ok (Some (tx f)) | None => Throw BadOptionalAccess end else Ok None.

(** The flag of the account itself. *)
Definition account_entry (roleGateway includeTxs : bool) (fees : option Fees) (accountID : AccountID) (flags : Z)
  : Res (option NrEntry) :=
  let bDefaultRipple := has_flag flags lsfDefaultRipple in
  if bDefaultRipple && negb roleGateway then
    Ok (Some ("You appear to have set your default ripple flag even though you are not a gateway. This is not recommended unless you are experimenting", None))
  else if roleGateway && negb bDefaultRipple then
    tx ← tx_entry includeTxs fees (fun fees seq =>
           JObject (getBaseTx accountID seq fees ++ [("TransactionType", JString "AccountSet"); ("SetFlag", JInt64 8)]));
    Ok (Some ("You should immediately set your default ripple flag", tx))
  else Ok None.

(** A trust line whose flag does not go with the role. *)
Definition line_entry (roleGateway includeTxs : bool) (fees : option Fees) (accountID : AccountID) (ownedItem : STObject)
  : Res (option NrEntry) :=
  type ← getFieldU16 ownedItem sfLedgerEntryType;
  if negb (type =? ltRIPPLE_STATE) then Ok None
  else
    low ← getFieldAmount ownedItem sfLowLimit;
    let bLow := accountID =? amt_issuer low in
    flags ← getFieldU32 ownedItem sfFlags;
    let bNoRipple := has_flag flags (if bLow then lsfLowNoRipple else lsfHighNoRipple) in
    if bool_decide (bNoRipple = roleGateway) then
      peerLimit ← getFieldAmount ownedItem (if bLow then sfHighLimit else sfLowLimit);
      let peer := amt_issuer peerLimit in
      let problem := (if bNoRipple then "You should clear the no ripple flag on your " else "You should probably set the no ripple flag on your ")
                     +:+ currency_text (amt_currency peerLimit) +:+ " line to " +:+ account_text peer in
      limitAmount ← (if includeTxs then getFieldAmount ownedItem (if bLow then sfLowLimit else sfHighLimit) else Ok peerLimit);
      tx ← tx_entry includeTxs fees (fun fees seq => JObject
             (getBaseTx accountID seq fees ++
              [("TransactionType", JString "TrustSet"); ("LimitAmount", amt_json (amt_setIssuer peer limitAmount));
               ("Flags", JUint64 (if bNoRipple then tfClearNoRipple else tfSetNoRipple))]));
      Ok (Some (problem, tx))
    else Ok None.

(** The callback: the value it returns when the limit is used up is dropped, as the
    traversal takes a function without a result. *)
Definition noripple_visit (roleGateway includeTxs : bool) (fees : option Fees) (accountID : AccountID) (st : NrState) (ownedItem : STObject)
  : Res NrState :=
  e ← line_entry roleGateway includeTxs fees accountID ownedItem;
  Ok (match e with
      | None => st
      | Some e => let st := add_entry e st in mkNrState (nr_problems st) (nr_transactions st) (nr_seq st) (u32 (nr_limit st - 1))
      end).

Definition noripple_role (role : string) : Outcome bool :=
  if bool_decide (role = "gateway") then Done true
  else if bool_decide (role = "user") then Done false
  else Failed (Status_message (Rippled rpcINVALID_PARAMS) "role field is invalid").

(** The answer of the traversal is not looked at. *)
Definition doNoRippleCheck (context : Context) : M W (Outcome JsonObject) :=
  let request := ctx_params context in
  accountID ⇠ getAccount request 0;
  role ← lift_res (getRequiredString request "role");
  roleGateway ⇠ noripple_role role;
  limit ⇠ getLimit context;
  includeTxs ← lift_res (getBool_default request "transactions" false);
  v ← ledgerInfoFromRequest request (ctx_range context);
  lgrInfo ⇠ v;
  fees ← (if (includeTxs : bool) then fetchFees (li_seq lgrInfo) else mret None);
  accountObj ← fetchLedgerObject (keylet_account accountID) (li_seq lgrInfo);
  match accountObj with
  | None => throw (AccountNotFoundError (account_text accountID))
  | Some b =>
      sle ← lift_res (parseSLE b (keylet_account accountID));
      accountSeq ← lift_res (getFieldU32 sle sfSequence);
      flags ← lift_res (getFieldU32 sle sfFlags);
      let st := mkNrState [] [] accountSeq limit in
      own ← lift_res (account_entry roleGateway includeTxs fees accountID flags);
      let st := match own with Some e => add_entry e st | None => st end in
      r ← traverse_account (noripple_visit roleGateway includeTxs fees accountID) fuel accountID (li_seq lgrInfo) (2 ^ 32 - 1) None st;
      let st := match r with Done (_, st) => st | Failed _ => st end in
      mret (Done ([("ledger_index", JUint64 (li_seq lgrInfo)); ("ledger_hash", JString (strHex (li_hash lgrInfo)));
                   ("problems", JArray (nr_problems st))] ++
                  (if (includeTxs : bool) then [("transactions", JArray (nr_transactions st))] else [])))
  end.

End noripple.

(** ** AccountCurrencies, GatewayBalances *)

Section old_reports.
Context `{BackendImpl W} `{LedgerReads W} `{Amounts} `{!TxRendering} `{!NgRipple}.
Context `{RippleKeylets} `{RippleStrings} `{LexicalCast} `{CursorText}.
Context (fuel : nat).

(** The answer of the traversal is not looked at here either. *)
Definition doAccountCurrencies (context : Context) : M W (Outcome JsonObject) :=
  let request := ctx_params context in
  v ← ledgerInfoFromRequest request (ctx_range context);
  lgrInfo ⇠ v;
  accountID ⇠ getAccount request 0;
  rawAcct ← account_exists accountID lgrInfo;
  _ ⇠ rawAcct;
  r ← traverse_account (currencies_visit accountID) fuel accountID (li_seq lgrInfo) (2 ^ 32 - 1) None (∅, ∅);
  let found := match r with Done (_, found) => found | Failed _ => (∅, ∅) end in
  let texts (l : gset string) := JArray ((fun s => JString (c_str s)) <$> std_sort String.ltb (elements l)) in
  mret (Done (lgrInfo_members lgrInfo ++ [("receive_currencies", texts found.1); ("send_currencies", texts found.2)])).

(** The hot wallets; [None] when one of them is no account. *)
Definition gateway_hotwallets (request : JsonObject) : option (gset AccountID) :=
  match obj_find "hotwallet" request with
  | None => Some ∅
  | Some (JArray arr) => list_to_set <$> mapM wallet_account arr
  | Some (JString s) => (fun a => {[a]}) <$> wallet_account (JString s)
  | Some _ => None
  end.

Definition gateway_response (account : json) (lgrInfo : LedgerInfo) (b : Balances) : JsonObject :=
  let some_of (key : string) (m : gmap AccountID (list STAmount)) : JsonObject :=
    if bool_decide (m = ∅) then [] else [(key, JObject (balances_json m))] in
  (if overflow b then [("overflow", JBool true)] else []) ++
  (if bool_decide (sums b = ∅) then []
   else [("obligations", JObject ((fun p => (currency_text p.1, JString (amt_text p.2))) <$> in_key_order (sums b)))]) ++
  some_of "balances" (hotBalances b) ++ some_of "frozen_balances" (frozenBalances b) ++ some_of "assets" (assets b) ++
  [("account", account); ("ledger_index", JUint64 (li_seq lgrInfo)); ("ledger_hash", JString (strHex (li_hash lgrInfo)))].

Definition doGatewayBalances (context : Context) : M W (Outcome JsonObject) :=
  let request := ctx_params context in
  accountID ⇠ getAccount request 0;
  v ← ledgerInfoFromRequest request (ctx_range context);
  lgrInfo ⇠ v;
  match gateway_hotwallets request with
  | None => mret (Done [("error", JString "invalidHotWallet")])
  | Some hotWallets =>
      result ← traverse_account (gateway_visit accountID hotWallets) fuel accountID (li_seq lgrInfo) (2 ^ 32 - 1) None no_balances;
      found ⇠ result;
      if bool_decide (set_Forall (fun hw => is_Some (hotBalances found.2 !! hw)) hotWallets) then
        account ← lift_res (at_ request "account");
        mret (Done (gateway_response account lgrInfo found.2))
      else mret (Failed (Status_message (Rippled rpcINVALID_PARAMS) "invalidHotWallet"))
  end.

End old_reports.

(** ** What is proved of them *)

(** A request about account [a] in the ledger [info]. *)
Record report_ok `{RippleStrings} (info : LedgerInfo) (ctx : Context) (a : AccountID) : Prop := {
  ro_hash : obj_find "ledger_hash" (ctx_params ctx) = None;
  ro_index : obj_find "ledger_index" (ctx_params ctx) = Some (JInt64 (li_seq info));
  ro_seq : 0 <= li_seq info < 2 ^ 32 /\ li_seq info <= maxSequence (ctx_range ctx);
  ro_account : getAccount (ctx_params ctx) 0 = Done a }.

Section report_lemmas.
Context `{BackendImpl W} `{LedgerReads W} {Ldg : Z -> gmap Z Blob} {I : W -> Prop} {E : Exn -> W -> Prop}.
Context `{!ReadLaws Ldg I E} {info : LedgerInfo} `{!ServesLedger I E info}.
Context `{Ripple} `{RippleKeylets} `{CursorTextLaws}.
Context (sle_of : uint256 -> STObject) (pages : list (Z * list uint256)) (dir_fuel : nat).
Context (account : string) (a : AccountID) (ctx : Context).

Lemma report_ledger :
  report_ok info ctx a -> triple I (ledgerInfoFromRequest (ctx_params ctx) (ctx_range ctx)) (fun r w => r = Done info /\ I w) E.
Proof. intros Hok. apply named_ledger; apply Hok. Qed.

(** A traversal of all an account owns. *)
Lemma traverse_all {B} (visit : B -> STObject -> Res B) (step : B -> STObject -> B) (ready : STObject -> Prop) (acc : B) :
  owner_ok (Ldg (li_seq info)) sle_of pages dir_fuel account a ready ->
  Z.of_nat (length (dir_keys pages)) < 2 ^ 32 ->
  (forall acc sle, ready sle -> visit acc sle = Ok (step acc sle)) ->
  triple I (traverse_account visit dir_fuel a (li_seq info) (2 ^ 32 - 1) None acc)
    (fun r w => (exists c, r = Done (c, foldl step acc (sle_of <$> dir_keys pages))) /\ I w) E.
Proof.
  intros (Ha & [b Hb] & Hroot & Hc & Hf & Hnd & Hz & Hobj) Hlen Hstep. unfold traverse_account.
  eapply triple_bind; [apply fetchLedgerObject_spec; by eapply rl_valid|]. intros r. apply triple_pre_pure. intros ->. rewrite Hb.
  cbn [parseAccountCursor]. eapply triple_conseq.
  { apply (traverse_pages visit step sle_of dir_fuel (keylet_ownerDir a) (li_seq info) (2 ^ 32 - 1) pages 0 acc); try done; [|lia].
    intros k Hk. destruct (Hobj k Hk) as [Ho Hr]. split; [done|]. intros ?. by apply Hstep. }
  all: try done. intros r w [-> Hw]. split; [|done]. eexists. rewrite drop_0. unfold cut. by rewrite take_ge by lia.
Qed.

End report_lemmas.

(** *** The gateway balances *)

Section gateway_report.
Context `{BackendImpl W} `{LedgerReads W} {Ldg : Z -> gmap Z Blob} {I : W -> Prop} {E : Exn -> W -> Prop}.
Context `{!ReadLaws Ldg I E} {info : LedgerInfo} `{!ServesLedger I E info}.
Context `{Amounts} `{!TxRendering} `{!NgRipple} `{!AmountErrors} `{RippleKeylets} `{CursorTextLaws}.
Context (sle_of : uint256 -> STObject) (pages : list (Z * list uint256)) (dir_fuel : nat).
Context (account : string) (a : AccountID) (hot : gset AccountID) (ctx : Context).

(** Both handlers render the same members. *)
Lemma gateway_response_members (l : LedgerInfo) (b : Balances) k :
  exists o, gateway_value_from (mkGatewayOutput (strHex (li_hash l)) (li_seq l) account b) = JObject o /\
    obj_find k (gateway_response (JString account) l b) = obj_find k o.
Proof.
  unfold gateway_value_from, gateway_response. cbn [go_ledgerHash go_ledgerIndex go_accountID go_balances].
  eexists. split; [done|].
  repeat case_bool_decide; destruct (overflow b);
    rewrite ?obj_find_set; cbn [app obj_find]; rewrite ?obj_find_set; cbn [obj_find]; repeat case_decide; subst; congruence.
Qed.

(** The older [gateway_balances] answers a request about an account in a ledger as
    the newer handler does: the balances are those [gateway_partition] is about, the
    request fails when a hot wallet has no line with a balance, and otherwise the two
    answers have the same members. *)
Theorem gateway_same :
  report_ok info ctx a -> obj_find "account" (ctx_params ctx) = Some (JString account) ->
  gateway_hotwallets (ctx_params ctx) = Some hot ->
  owner_ok (Ldg (li_seq info)) sle_of pages dir_fuel account a (fun sle => exists o, line_of a sle = Ok o) ->
  Z.of_nat (length (dir_keys pages)) < 2 ^ 32 ->
  exists (ok : bool) (b : Balances),
    triple I (doGatewayBalances dir_fuel ctx)
      (fun r w => r = (if ok then Done (gateway_response (JString account) info b) else invalid_message "invalidHotWallet") /\ I w) E /\
    triple I (gateway_process dir_fuel (mkGatewayInput account hot None (Some (li_seq info))))
      (fun r w => r = (if ok then Done (mkGatewayOutput (strHex (li_hash info)) (li_seq info) account b) else invalid_message "invalidHotWallet") /\ I w) E /\
    forall k, exists o, gateway_value_from (mkGatewayOutput (strHex (li_hash info)) (li_seq info) account b) = JObject o /\
      obj_find k (gateway_response (JString account) info b) = obj_find k o.
Proof.
  intros Hok Hacc Hhot Hown Hlen. eexists _, _. split; [|split; [by apply gateway_run | apply gateway_response_members]].
  unfold doGatewayBalances. rewrite (ro_account _ _ _ Hok). cbn [with_done].
  eapply triple_bind; [by eapply report_ledger|]. intros r. apply triple_pre_pure. intros ->. cbn [with_done]. rewrite Hhot.
  eapply triple_bind; [apply (traverse_all sle_of pages dir_fuel account a (gateway_visit a hot) (visited a hot) (fun sle => exists o, line_of a sle = Ok o)); try done|].
  { intros b sle [o Ho]. by eapply visit_total. }
  intros r. apply triple_pre_pure. intros [c ->]. cbn [with_done snd].
  destruct (bool_decide _); [|by apply triple_ret]. unfold at_. rewrite Hacc. apply triple_ok_bind. by apply triple_ret.
Qed.

End gateway_report.

(** *** The no-ripple check *)

Section noripple_report.
Context `{BackendImpl W} `{LedgerReads W} {Ldg : Z -> gmap Z Blob} {I : W -> Prop} {E : Exn -> W -> Prop}.
Context `{!ReadLaws Ldg I E} {info : LedgerInfo} `{!ServesLedger I E info}.
Context `{Amounts} `{!TxRendering} `{!NgRipple} `{FeeText} `{RippleKeylets} `{CursorTextLaws}.
Context (sle_of : uint256 -> STObject) (pages : list (Z * list uint256)) (dir_fuel : nat).
Context (account : string) (a : AccountID) (ctx : Context) (gateway includeTxs : bool) (fees : option Fees).

Abbreviation entry := (line_entry gateway includeTxs fees a).

(** What is said of the lines with these keys, in their order. *)
Definition line_entries (ks : list uint256) : list (string * option (Z -> json)) :=
  omap (fun k => match entry (sle_of k) with Ok o => o | _ => None end) ks.

(** The transactions of the entries, numbered from [seq]. *)
Fixpoint numbered (seq : Z) (es : list (string * option (Z -> json))) : list json :=
  match es with
  | [] => []
  | (_, None) :: es => numbered seq es
  | (_, Some tx) :: es => tx seq :: numbered (u32 (seq + 1)) es
  end.

Definition noripple_step (st : NrState) (sle : STObject) : NrState :=
  match noripple_visit gateway includeTxs fees a st sle with Ok st' => st' | _ => st end.

Lemma add_entry_lists e es st st' :
  nr_problems st' = nr_problems (add_entry e st) -> nr_transactions st' = nr_transactions (add_entry e st) -> nr_seq st' = nr_seq (add_entry e st) ->
  nr_problems st' ++ ((fun e => JString e.1) <$> es) = nr_problems st ++ ((fun e => JString e.1) <$> e :: es) /\
  nr_transactions st' ++ numbered (nr_seq st') es = nr_transactions st ++ numbered (nr_seq st) (e :: es).
Proof.
  intros -> -> ->. destruct e as [t [tx|]]; cbn; by rewrite <- ?app_assoc.
Qed.

Lemma noripple_fold ks st :
  (forall k, k ∈ ks -> exists o, entry (sle_of k) = Ok o) ->
  let st' := foldl noripple_step st (sle_of <$> ks) in
  nr_problems st' = nr_problems st ++ ((fun e => JString e.1) <$> line_entries ks) /\
  nr_transactions st' = nr_transactions st ++ numbered (nr_seq st) (line_entries ks).
Proof.
  revert st. induction ks as [|k ks IH]; intros st Hks; cbn; [by rewrite !app_nil_r|]. fold_fmap.
  destruct (Hks k) as [o Ho]; [set_solver|].
  destruct (IH (noripple_step st (sle_of k))) as [-> ->]; [set_solver|].
  unfold noripple_step, noripple_visit. rewrite !Ho. cbn [mbind Res_bind]. destruct o as [e|]; [|done].
  fold (line_entries ks). by apply add_entry_lists.
Qed.

(** The fees of the ledger, when transactions are asked for. *)
Definition fees_found : Prop :=
  if includeTxs then triple I (fetchFees (li_seq info)) (fun r w => r = fees /\ I w) E else fees = None.

(** [noripple_check]. The account's own entry comes first, then one for each of its
    trust lines whose no-ripple flag does not go with the role, in the order of its
    directory; the problems are the texts of the entries, and the transactions are
    numbered one after the other from the account's sequence. All of them are
    reported, whatever the limit of the request. *)
Theorem noripple_report (role : string) (limit : Z) (b : Blob) (sle : STObject) (seq flags : Z) (own : option (string * option (Z -> json))) :
  report_ok info ctx a ->
  getRequiredString (ctx_params ctx) "role" = Ok role -> noripple_role role = Done gateway ->
  getLimit ctx = Done limit -> getBool_default (ctx_params ctx) "transactions" false = Ok includeTxs -> fees_found ->
  Ldg (li_seq info) !! keylet_account a = Some b -> parseSLE b (keylet_account a) = Ok sle ->
  getFieldU32 sle sfSequence = Ok seq -> getFieldU32 sle sfFlags = Ok flags ->
  account_entry gateway includeTxs fees a flags = Ok own ->
  owner_ok (Ldg (li_seq info)) sle_of pages dir_fuel account a (fun sle => exists o, entry sle = Ok o) ->
  Z.of_nat (length (dir_keys pages)) < 2 ^ 32 ->
  let entries := option_list own ++ line_entries (dir_keys pages) in
  triple I (doNoRippleCheck dir_fuel ctx)
    (fun r w => r = Done ([("ledger_index", JUint64 (li_seq info)); ("ledger_hash", JString (strHex (li_hash info)));
                           ("problems", JArray ((fun e => JString e.1) <$> entries))] ++
                          (if includeTxs then [("transactions", JArray (numbered seq entries))] else [])) /\ I w) E.
Proof.
  intros Hok Hrole Hgw Hlim Htx Hfees Hb Hsle Hseq Hflags Hown Howner Hlen entries. unfold doNoRippleCheck.
  rewrite (ro_account _ _ _ Hok), Hrole. cbn [with_done]. apply triple_ok_bind. rewrite Hgw, Hlim. cbn [with_done].
  rewrite Htx. apply triple_ok_bind. eapply triple_bind; [by eapply report_ledger|]. intros r. apply triple_pre_pure. intros ->.
  cbn [with_done]. eapply (triple_bind _ _ _ (fun r w => r = fees /\ I w)).
  { unfold fees_found in Hfees. destruct includeTxs; [done|]. by apply triple_ret. }
  intros r. apply triple_pre_pure. intros ->.
  eapply triple_bind; [apply fetchLedgerObject_spec; by eapply rl_valid|]. intros r. apply triple_pre_pure. intros ->.
  rewrite Hb, Hsle. apply triple_ok_bind. rewrite Hseq. apply triple_ok_bind. rewrite Hflags. apply triple_ok_bind.
  rewrite Hown. apply triple_ok_bind.
  eapply triple_bind; [apply (traverse_all sle_of pages dir_fuel account a (noripple_visit gateway includeTxs fees a) noripple_step (fun sle => exists o, entry sle = Ok o)); try done|].
  { intros st s [o Ho]. unfold noripple_step, noripple_visit. by rewrite Ho. }
  intros r. apply triple_pre_pure. intros [c ->]. apply triple_ret. intros w Hw. split; [|done].
  destruct Howner as (_ & _ & _ & _ & _ & _ & _ & Hobj).
  match goal with |- context [foldl noripple_step ?st ?l] =>
    destruct (noripple_fold (dir_keys pages) st) as [Hp Ht]; [by intros k Hk; destruct (Hobj k Hk)|] end.
  cbv zeta in Hp, Ht. rewrite Hp, Ht. unfold entries. destruct own as [[t [tx|]]|]; done.
Qed.

End noripple_report.
