(* ===== verification/NftOffers.v ===== *)
(** The offers to buy or sell a token ([rpc/handlers/NFTOffers.cpp]).

    The marker of an answer is the first offer it left out; the next answer starts
    with that offer, whose own directory page tells where to go on.
    [nft_offers_walk]: a client that follows the markers. *)

From stdpp Require Import base list gmap strings.
From Stdlib Require Import ZArith Lia.
From S2P Require Import Prelude Types TreeRipple SimpleCache Backend Json Errors Requests Subscriptions Directory OrderBook Rpc TxRequests Validators NgHandlers NgAccounts LedgerData OwnedHandlers.

#[local] Open Scope string_scope.
#[local] Open Scope list_scope.
Open Scope Z_scope.

#[local] Notation "x ⇠ o ; k" := (with_done o (fun x => k)) (at level 20, o at level 100, k at level 200, only parsing).

(** The directories of a token's offers. The keylet of an offer is its key. *)
Class NftKeylets := { keylet_nft_sells : uint256 -> uint256; keylet_nft_buys : uint256 -> uint256 }.

Section nft_offers.
Context `{BackendImpl W} `{LedgerReads W} `{Amounts} `{!TxRendering} `{!NgRipple}.
Context `{RippleStrings} `{LexicalCast} `{CursorText} `{NftKeylets}.
Context (fuel : nat).

(** [tag_invoke] *)
Definition nft_offer_json (offer : STObject) : Res json :=
  amount ← getFieldAmount offer sfAmount;
  flags ← at_U32 offer sfFlags;
  owner ← getAccountID offer sfOwner;
  destination ← (if isFieldPresent offer sfDestination then a ← getAccountID offer sfDestination; Ok [("destination", JString (account_text a))] else Ok []);
  expiration ← (if isFieldPresent offer sfExpiration then e ← getFieldU32 offer sfExpiration; Ok [("expiration", JUint64 e)] else Ok []);
  Ok (JObject ([("nft_offer_index", JString (strHex (sle_key offer))); ("flags", JUint64 flags);
                ("owner", JString (account_text owner)); ("amount", amt_json amount)] ++ destination ++ expiration)).

(** Where the directory is entered: the cursor with its hint, how many offers are
    asked for, and the offer of the marker, already rendered. *)
Record NftStart := mkNftStart { ns_cursor : uint256; ns_hint : Z; ns_reserve : Z; ns_offers : list json }.

Definition nft_start (request : JsonObject) (tokenid : uint256) (seq limit : Z) : M W (Outcome NftStart) :=
  match obj_find "marker" request with
  | None => mret (Done (mkNftStart 0 0 (u32 (limit + 1)) []))
  | Some (JString s) =>
      match parseHex (c_str s) with
      | None => mret (Failed (Status_message (Rippled rpcINVALID_PARAMS) "malformedCursor"))
      | Some cursor =>
          let refused := mret (Failed (Status_code (Rippled rpcINVALID_PARAMS))) in
          blob ← fetchLedgerObject cursor seq;
          match blob with
          | None => refused
          | Some b =>
              sle ← lift_res (parseSLE b cursor);
              type ← lift_res (getFieldU16 sle sfLedgerEntryType);
              if negb (type =? ltNFTOKEN_OFFER) then refused
              else
                token ← lift_res (getFieldH256 sle sfNFTokenID);
                if negb (tokenid =? token) then refused
                else
                  hint ← lift_res (getFieldU64 sle sfNFTokenOfferNode);
                  first ← lift_res (nft_offer_json sle);
                  mret (Done (mkNftStart cursor hint limit [first]))
          end
      end
  | Some _ => mret (Failed (Status_message (Rippled rpcINVALID_PARAMS) "markerNotString"))
  end.

(** The callback: what is no offer is passed over. *)
Definition collect_offer (offers : list STObject) (offer : STObject) : Res (list STObject) :=
  type ← getFieldU16 offer sfLedgerEntryType;
  Ok (if type =? ltNFTOKEN_OFFER then offers ++ [offer] else offers).

(** As many offers as were asked for: the last one becomes the marker. Of no offers
    [back] is undefined. *)
Definition nft_rest (limit reserve : Z) (offers : list STObject) : Res (JsonObject * list STObject) :=
  if Z.of_nat (length offers) =? reserve then
    match last offers with
    | None => Throw BadOptionalAccess
    | Some o => Ok ([("limit", JUint64 limit); ("marker", JString (strHex (sle_key o)))], removelast offers)
    end
  else Ok ([], offers).

(** The hint is 64 bits of the offer, of which the traversal takes 32. *)
Definition enumerateNFTOffers (context : Context) (tokenid directory : uint256) : M W (Outcome JsonObject) :=
  let request := ctx_params context in
  v ← ledgerInfoFromRequest request (ctx_range context);
  lgrInfo ⇠ v;
  root ← fetchLedgerObject directory (li_seq lgrInfo);
  match root with
  | None => mret (Failed (Status_message (Rippled rpcOBJECT_NOT_FOUND) "notFound"))
  | Some _ =>
      limit ⇠ getLimit context;
      start ← nft_start request tokenid (li_seq lgrInfo) limit;
      start ⇠ start;
      result ← traverseOwnedNodes collect_offer fuel directory (ns_cursor start) (u32 (ns_hint start)) (li_seq lgrInfo) (ns_reserve start) [];
      found ⇠ result;
      '(members, offers) ← lift_res (nft_rest limit (ns_reserve start) found.2);
      jsonOffers ← lift_res (mapM nft_offer_json offers);
      mret (Done ([("nft_id", JString (strHex tokenid))] ++ members ++ [("offers", JArray (ns_offers start ++ jsonOffers))]))
  end.

Definition doNFTOffers (sells : bool) (context : Context) : M W (Outcome JsonObject) :=
  tokenid ⇠ getNFTID (ctx_params context);
  enumerateNFTOffers context tokenid (if sells then keylet_nft_sells tokenid else keylet_nft_buys tokenid).

End nft_offers.

(** ** Walking the offers *)

(** The cursor after a key is that key with its page. *)
Lemma cursor_at_key pages n k :
  dir_keys pages !! n = Some k ->
  exists p ix, (p, ix) ∈ pages /\ k ∈ ix /\ cursor_at pages (S n) = mkAccountCursor k p.
Proof.
  revert n. induction pages as [|[p ix] pages IH]; intros n Hn; [done|]. rewrite dir_keys_cons in Hn. cbn [cursor_at].
  destruct (decide (S n <= length ix)%nat) as [Hl|Hl].
  - rewrite lookup_app_l in Hn by lia. exists p, ix. split; [by left|]. split; [by eapply list_elem_of_lookup_2|].
    f_equal. replace (S n - 1)%nat with n by lia. by apply nth_lookup_Some.
  - rewrite lookup_app_r in Hn by lia. destruct (IH _ Hn) as (q & iy & Hq & Hk & Hc). exists q, iy. split; [by right|].
    split; [done|]. rewrite <- Hc. f_equal. lia.
Qed.

Lemma last_take_lookup {A} (l : list A) n : (n < length l)%nat -> last (take (S n) l) = l !! n.
Proof.
  intros Hn. rewrite last_lookup, length_take, Nat.min_l by lia. by rewrite lookup_take_lt by (cbn; lia).
Qed.

Lemma removelast_take {A} (l : list A) n : (n < length l)%nat -> removelast (take (S n) l) = take n l.
Proof. intros Hn. apply removelast_firstn. done. Qed.

Section nft_walk.
Context `{BackendImpl W} `{LedgerReads W} {Ldg : Z -> gmap Z Blob} {I : W -> Prop} {E : Exn -> W -> Prop}.
Context `{!ReadLaws Ldg I E} {info : LedgerInfo} `{!ServesLedger I E info}.
Context `{Amounts} `{!TxRendering} `{!NgRipple} `{CursorTextLaws} `{NftKeylets}.
Context (sle_of : uint256 -> STObject) (json_of : uint256 -> json) (pages : list (Z * list uint256)) (dir_fuel : nat).
Context (ctx : Context) (sells : bool) (tokenid : uint256) (limit : Z).

Abbreviation params := (ctx_params ctx).
Abbreviation seq := (li_seq info).
Abbreviation keys := (dir_keys pages).
Abbreviation directory := (if sells then keylet_nft_sells tokenid else keylet_nft_buys tokenid).

(** The directory of the token's offers has these pages, and every key in it is an
    offer for the token that knows its page. *)
Record offers_ok : Prop := {
  of_root : keylet_page directory 0 = directory;
  of_chain : dir_chain (Ldg seq) directory 0 pages;
  of_fuel : (length pages <= dir_fuel)%nat;
  of_keys : NoDup keys /\ 0 ∉ keys;
  of_object : forall k, k ∈ keys -> (exists b, Ldg seq !! k = Some b /\ parseSLE b k = Ok (sle_of k)) /\
    sle_key (sle_of k) = k /\ getFieldU16 (sle_of k) sfLedgerEntryType = Ok ltNFTOKEN_OFFER /\
    getFieldH256 (sle_of k) sfNFTokenID = Ok tokenid /\ nft_offer_json (sle_of k) = Ok (json_of k);
  of_page : forall p ix k, (p, ix) ∈ pages -> k ∈ ix -> 0 <= p < 2 ^ 32 /\ getFieldU64 (sle_of k) sfNFTokenOfferNode = Ok p }.

Record offers_request_ok : Prop := {
  oq_hash : obj_find "ledger_hash" params = None;
  oq_index : obj_find "ledger_index" params = Some (JInt64 seq);
  oq_seq : 0 <= seq < 2 ^ 32 /\ seq <= maxSequence (ctx_range ctx);
  oq_token : getNFTID params = Done tokenid;
  oq_marker : obj_find "marker" params = None;
  oq_limit : getLimit ctx = Done limit /\ 0 < limit < 2 ^ 32 - 1;
  oq_text : forall k, c_str (strHex k) = strHex k }.

(** The marker that stands for the first [n] offers: the next one. *)
Definition offer_marker (n : nat) : option string := if decide (n = 0%nat) then None else strHex <$> keys !! n.

Definition offers_answer (n : nat) (r : Outcome JsonObject) : Prop :=
  exists response, r = Done response /\
    obj_find "offers" response = Some (JArray (json_of <$> take (Z.to_nat limit) (drop n keys))) /\
    obj_find "marker" response = JString <$> (strHex <$> keys !! (n + Z.to_nat limit)%nat).

Lemma offers_jsons ks : offers_ok -> (forall k, k ∈ ks -> k ∈ keys) -> mapM nft_offer_json (sle_of <$> ks) = Ok (json_of <$> ks).
Proof.
  intros Hok. induction ks as [|k ks IH]; intros Hks; cbn; [done|]. fold_fmap.
  destruct (of_object Hok k) as (_ & _ & _ & _ & ->); [apply Hks; by left|]. cbn. rewrite IH; [done|]. intros j Hj. apply Hks. by right.
Qed.

Lemma collect_all (ks : list uint256) (acc : list STObject) : foldl (fun acc sle => acc ++ [sle]) acc (sle_of <$> ks) = acc ++ (sle_of <$> ks).
Proof. revert acc. induction ks as [|k ks IH]; intros acc; cbn; [by rewrite app_nil_r|]. fold_fmap. rewrite (IH (acc ++ [sle_of k])). by rewrite <- app_assoc. Qed.

(** The traversal after the first [n] keys. *)
Lemma offers_traverse n reserve :
  offers_ok -> 0 < reserve < 2 ^ 32 -> (n <= length keys)%nat ->
  let cursor := if decide (n = 0%nat) then zero_cursor else cursor_at pages n in
  triple I (traverseOwnedNodes collect_offer dir_fuel directory (ac_index cursor) (ac_hint cursor) seq reserve [])
    (fun r w => (exists c, r = Done (c, sle_of <$> take (Z.to_nat reserve) (drop n keys))) /\ I w) E.
Proof.
  intros Hok Hr Hn cursor. eapply triple_conseq.
  { apply (traverse_pages collect_offer (fun acc sle => acc ++ [sle]) sle_of dir_fuel directory seq reserve pages n []);
      try done; try apply Hok.
    intros k Hk. destruct (of_object Hok k Hk) as (Ho & _ & Ht & _). split; [done|]. intros acc. unfold collect_offer. by rewrite Ht. }
  all: try done. intros r w [-> Hw]. split; [|done]. eexists. do 2 f_equal. exact (collect_all _ []).
Qed.

(** The offers of a page and the marker. *)
Lemma rest_spec n m (lim : Z) :
  offers_ok -> (0 < m)%nat ->
  exists members, nft_rest lim (Z.of_nat m) (sle_of <$> take m (drop n keys)) = Ok (members, sle_of <$> take (m - 1) (drop n keys)) /\
    obj_find "offers" members = None /\
    obj_find "marker" members = JString <$> (strHex <$> keys !! (n + (m - 1))%nat).
Proof.
  intros Hok Hm. unfold nft_rest. rewrite length_fmap, length_take, length_drop.
  destruct (Z.eqb_spec (Z.of_nat (Nat.min m (length keys - n))) (Z.of_nat m)) as [Hfull|Hshort].
  - destruct m as [|m]; [lia|]. rewrite fmap_last, last_take_lookup, lookup_drop by (rewrite length_drop; lia).
    replace (S m - 1)%nat with m by lia.
    destruct (lookup_lt_is_Some_2 keys (n + m)) as [k Hk]; [lia|]. rewrite Hk. cbn [fmap option_fmap option_map].
    destruct (of_object Hok k) as (_ & -> & _); [by eapply list_elem_of_lookup_2|].
    exists [("limit", JUint64 lim); ("marker", JString (strHex k))]. split; [|done]. do 2 f_equal. rewrite !fmap_take. apply removelast_take.
    rewrite length_fmap, length_drop. lia.
  - exists []. split; [|split; [done|]]; [by rewrite !take_ge by (rewrite length_drop; lia)|].
    by rewrite lookup_ge_None_2 by lia.
Qed.

Lemma offers_ledger mk :
  offers_request_ok -> triple I (ledgerInfoFromRequest (with_marker mk params) (ctx_range ctx)) (fun r w => r = Done info /\ I w) E.
Proof. intros Hok. apply named_ledger; rewrite ?find_marker by done; apply Hok. Qed.

(** Where the marker of the first [n] offers leads: after them and the next one. *)
Lemma start_spec n :
  offers_request_ok -> offers_ok -> (n = 0 \/ n < length keys)%nat ->
  let j := if decide (n = 0%nat) then 0%nat else S n in
  let cursor := if decide (j = 0%nat) then zero_cursor else cursor_at pages j in
  let m := (Z.to_nat limit + (1 - n))%nat in
  triple I (nft_start (with_marker (offer_marker n) params) tokenid seq limit)
    (fun r w => r = Done (mkNftStart (ac_index cursor) (ac_hint cursor) (Z.of_nat m) (json_of <$> take (j - n) (drop n keys))) /\
                0 <= ac_hint cursor < 2 ^ 32 /\ I w) E.
Proof.
  intros Hreq Hok Hn. pose proof (oq_limit Hreq) as [_ Hl]. unfold nft_start, offer_marker.
  destruct (decide (n = 0%nat)) as [->|Hn0].
  - cbn [with_marker decide]. rewrite (oq_marker Hreq). apply triple_ret. intros w Hw. split; [|split; [done | exact Hw]].
    cbn. do 2 f_equal. unfold u32. rewrite Z.mod_small; lia.
  - destruct Hn as [->|Hn]; [done|]. destruct (lookup_lt_is_Some_2 keys n Hn) as [k Hk]. rewrite Hk.
    cbn [fmap option_fmap option_map with_marker]. rewrite obj_find_set, decide_True by done. rewrite (oq_text Hreq), hex_parse.
    rewrite decide_False by done. destruct (cursor_at_key pages n k Hk) as (p & ix & Hp & Hkx & ->). cbn [ac_index ac_hint].
    assert (k ∈ keys) as Hkk by (by eapply list_elem_of_lookup_2).
    destruct (of_object Hok k Hkk) as ((b & Hb & Hsle) & _ & Ht & Hid & Hj). destruct (of_page Hok p ix k Hp Hkx) as [Hp32 Hhint].
    eapply triple_bind; [apply fetchLedgerObject_spec; by eapply rl_valid|]. intros r. apply triple_pre_pure. intros ->.
    rewrite Hb, Hsle. apply triple_ok_bind. rewrite Ht. apply triple_ok_bind. cbn [Z.eqb negb]. rewrite Z.eqb_refl. cbn [negb].
    rewrite Hid. apply triple_ok_bind. rewrite Z.eqb_refl. cbn [negb]. rewrite Hhint. apply triple_ok_bind.
    rewrite Hj. apply triple_ok_bind. apply triple_ret. intros w Hw. split; [|done].
    replace (1 - n)%nat with 0%nat by lia. replace (S n - n)%nat with 1%nat by lia.
    rewrite (drop_S keys k n Hk). cbn. do 2 f_equal. lia.
Qed.

Lemma offers_handler_spec n :
  offers_request_ok -> offers_ok -> (n = 0 \/ n < length keys)%nat ->
  triple I (doNFTOffers dir_fuel sells (with_params (with_marker (offer_marker n) params) ctx)) (fun r w => offers_answer n r /\ I w) E.
Proof.
  intros Hreq Hok Hn. pose proof (oq_limit Hreq) as [Hlim Hl]. unfold doNFTOffers, enumerateNFTOffers.
  cbn [with_params ctx_params ctx_range].
  assert (getNFTID (with_marker (offer_marker n) params) = Done tokenid) as ->.
  { rewrite <- (oq_token Hreq). unfold getNFTID, field_string. by rewrite !find_marker. }
  cbn [with_done]. eapply triple_bind; [by apply offers_ledger|]. intros r. apply triple_pre_pure. intros ->. cbn [with_done].
  assert (exists b, Ldg seq !! directory = Some b) as [b Hb].
  { rewrite <- (of_root Hok). pose proof (of_chain Hok) as Hc. inversion Hc; eauto. }
  eapply triple_bind; [apply fetchLedgerObject_spec; by eapply rl_valid|]. intros r. apply triple_pre_pure. intros ->. rewrite Hb.
  rewrite getLimit_marker, Hlim. cbn [with_done].
  eapply triple_bind; [by apply start_spec|]. intros r. apply triple_pre_pure. intros ->. cbn [with_done ns_cursor ns_hint ns_reserve ns_offers].
  apply triple_pre_pure. intros Hhint. unfold u32. rewrite Z.mod_small by done.
  set (j := if decide (n = 0%nat) then 0%nat else S n). set (m := (Z.to_nat limit + (1 - n))%nat).
  assert (j <= length keys)%nat by (unfold j; destruct (decide (n = 0%nat)); lia).
  eapply triple_bind; [apply (offers_traverse j (Z.of_nat m)); [done | unfold m; lia | done]|].
  intros r. apply triple_pre_pure. intros [c ->]. cbn [with_done snd]. rewrite Nat2Z.id.
  destruct (rest_spec j m limit Hok) as (members & -> & Hmo & Hmm); [unfold m; lia|]. apply triple_ok_bind.
  rewrite offers_jsons; [|done|].
  2:{ intros k (i & Hi & _)%elem_of_take. rewrite lookup_drop in Hi. by eapply list_elem_of_lookup_2. }
  apply triple_ok_bind, triple_ret. intros w Hw. split; [|done]. eexists. split; [done|].
  rewrite !obj_find_app, Hmo, Hmm. cbn [obj_find]. repeat (rewrite decide_False by done). rewrite decide_True by done.
  split.
  - do 2 f_equal. rewrite <- fmap_app. f_equal. unfold j, m. destruct (decide (n = 0%nat)) as [->|Hn0].
    + replace (Z.to_nat limit + (1 - 0) - 1)%nat with (Z.to_nat limit) by lia. done.
    + destruct Hn as [->|Hn]; [done|]. destruct (lookup_lt_is_Some_2 keys n Hn) as [k Hk]. rewrite (drop_S keys k n Hk).
      replace (S n - n)%nat with 1%nat by lia. destruct (Z.to_nat limit) as [|l] eqn:He; [lia|].
      replace (S l + (1 - n) - 1)%nat with l by lia. cbn [take app]. by rewrite take_0.
  - assert (j + (m - 1) = n + Z.to_nat limit)%nat as ->; [unfold j, m; destruct (decide (n = 0%nat)); lia|]. 
    rewrite decide_False by done. destruct (keys !! (n + Z.to_nat limit)%nat); [done|]. cbn. by rewrite decide_False.
Qed.

Lemma offers_client_spec fuel n :
  offers_request_ok -> offers_ok -> (n = 0 \/ n < length keys)%nat -> (length keys - n < fuel)%nat ->
  triple I (owned_client (doNFTOffers dir_fuel sells) "offers" fuel ctx (offer_marker n))
    (fun r w => r = Done (json_of <$> drop n keys) /\ I w) E.
Proof.
  intros Hreq Hok. pose proof (oq_limit Hreq) as [_ Hl]. revert n. induction fuel as [|fuel IH]; intros n Hn Hf; [lia|].
  cbn [owned_client]. eapply triple_bind; [by apply offers_handler_spec|]. intros r. apply triple_pre_pure.
  intros (response & -> & Hoff & Hmk). cbn [with_done]. rewrite Hoff, Hmk.
  destruct (keys !! (n + Z.to_nat limit)%nat) as [k|] eqn:Hk; cbn [fmap option_fmap option_map].
  - assert (Some (strHex k) = offer_marker (n + Z.to_nat limit)) as ->.
    { unfold offer_marker. rewrite decide_False by lia. by rewrite Hk. }
    apply lookup_lt_Some in Hk. eapply triple_bind; [apply IH; lia|]. intros r. apply triple_pre_pure. intros ->.
    apply triple_ret. intros w Hw. split; [|done]. cbn. f_equal. rewrite <- drop_drop, <- fmap_app. by rewrite take_drop.
  - apply lookup_ge_None_1 in Hk. apply triple_ret. intros w Hw. split; [|done].
    by rewrite take_ge by (rewrite length_drop; lia).
Qed.

(** C30: [nft_sell_offers] and [nft_buy_offers]. A client that asks for the offers to sell
    or to buy a token and sends the marker of each answer back gets, whatever the
    limit, every offer in the token's directory, rendered, exactly once and in the
    directory's order, although each marker is an offer that is not yet shown, in at
    most one request more than there are offers. *)
Theorem nft_offers_walk (fuel : nat) :
  offers_request_ok -> offers_ok -> (length keys < fuel)%nat ->
  triple I (owned_client (doNFTOffers dir_fuel sells) "offers" fuel ctx None) (fun r w => r = Done (json_of <$> keys) /\ I w) E.
Proof. intros Hreq Hok Hf. apply (offers_client_spec fuel 0); [done..|by left|lia]. Qed.

End nft_walk.

(** ** An instance *)

(** Four offers for token 7, in the directory at 100 and 101; an offer tells its key
    by its sequence. *)
Definition nft_offer (k : Z) : TreeObj := mkObj sfAccount
  [(sfLedgerEntryType, VNum ltNFTOKEN_OFFER); (sfNFTokenID, VNum 7); (sfOwner, VNum (k + 1)); (sfFlags, VNum 1);
   (sfAmount, VHashes [5 * k; 0; 0]); (sfSequence, VNum k); (sfNFTokenOfferNode, VNum (if k <? 30 then 0 else 1))].

Definition sample_offer_key (o : TreeObj) : Z := match get_num o sfSequence with Ok k => k | _ => 0 end.

#[local] Instance nft_ripple : Ripple :=
  TreeRipple (fun _ => Throw (LibraryError "")) (fun _ _ _ => Throw (LibraryError ""))
    (fun b k => match b with [0] => Ok (ng_page 1 [10; 20]) | [1] => Ok (ng_page 0 [30; 40]) | _ => Ok (nft_offer k) end).

#[local] Instance nft_amounts : @Amounts nft_ripple := tree_amounts _ _ _.
#[local] Instance nft_rendering : @TxRendering nft_ripple nft_amounts := tree_rendering _ _ _.
#[local] Instance nft_sample : @NgRipple nft_ripple nft_amounts := tree_sample _ _ _ sample_offer_key.
#[local] Instance nft_keylets : NftKeylets := {| keylet_nft_sells := fun t => t + 93; keylet_nft_buys := fun t => t + 193 |}.
#[local] Existing Instances ng_backend ng_reads ng_laws ng_serves.

Definition nft_json (k : Z) : json := match nft_offer_json (H1 := nft_ripple) (nft_offer k) with Ok j => j | _ => JNull end.

Definition offers_ctx : Context :=
  mkContext "nft_sell_offers" [("nft_id", JString (z_text 7)); ("ledger_index", JInt64 6); ("limit", JInt64 2)] None (mkLedgerRange 1 9) "".

Lemma nft_sample_ok : offers_ok (info := ng_info) (Ldg := L ng_history) nft_offer nft_json ng_pages 2 true 7.
Proof.
  split.
  - done.
  - eapply (chain_next _ _ 0 1); [reflexivity..| done | done |]. eapply (chain_last _ _ 1); reflexivity.
  - done.
  - split; apply (bool_decide_unpack _); by vm_compute.
  - intros k Hk. cbn in Hk.
    repeat (apply elem_of_cons in Hk as [->|Hk]; [split; [by eexists | by vm_compute]|]). by apply not_elem_of_nil in Hk.
  - intros p ix k Hp Hk. unfold ng_pages in Hp. rewrite !elem_of_cons in Hp. destruct Hp as [[= -> ->]|[[= -> ->]|Hp]].
    3:{ by apply not_elem_of_nil in Hp. }
    all: repeat (apply elem_of_cons in Hk as [->|Hk]; [by vm_compute|]); by apply not_elem_of_nil in Hk.
Qed.

(** Two at a time: the second page starts with the offer of the marker. *)
Lemma nft_offers_walk_witness :
  exists w, owned_client (doNFTOffers 2 true) "offers" 5 offers_ctx None ng_world = (Ok (Done (nft_json <$> [10; 20; 30; 40])), w) /\
    nft_json 30 = JObject [("nft_offer_index", JString (z_text 30)); ("flags", JUint64 1); ("owner", JString (z_text 31)); ("amount", JInt64 150)].
Proof.
  assert (offers_request_ok (info := ng_info) offers_ctx 7 2) as Hreq.
  { split; try reflexivity; [cbn; lia | split; [reflexivity | lia] | apply z_text_c_str]. }
  destruct (triple_run _ _ _ _
    (nft_offers_walk (I := ng_served) (H1 := nft_ripple) nft_offer nft_json ng_pages 2 offers_ctx true 7 2 5 Hreq nft_sample_ok
       ltac:(vm_compute; lia)) ng_world_ok) as (r & w & Hrun & -> & _).
  exists w. split; [exact Hrun | reflexivity].
Defined.
