(* ===== verification/Lookups.v ===== *)
(** The older handlers that look one thing up ([rpc/handlers/Tx.cpp],
    [TransactionEntry.cpp], [AccountInfo.cpp], [NFTInfo.cpp], [LedgerRange.cpp],
    [BookOffers.cpp]).

    [tx_same]: the older [tx] and the newer handler give the same answers.
    [transaction_entry_found]: a transaction is found in its own ledger only. *)

From stdpp Require Import base list gmap strings.
From Stdlib Require Import ZArith Lia.
From S2P Require Import Prelude Types TreeRipple SimpleCache Backend Cassandra Json Errors Requests Subscriptions Directory OrderBook Rpc TxRequests Validators NgHandlers NgAccounts LedgerData OwnedHandlers AccountReports.

#[local] Open Scope string_scope.
#[local] Open Scope list_scope.
Open Scope Z_scope.

#[local] Notation "x ⇠ o ; k" := (with_done o (fun x => k)) (at level 20, o at level 100, k at level 200, only parsing).

(** [ripple::keylet::signers] and the checks of a keylet, [ripple::getBookBase]. *)
Class LookupKeylets `{Ripple} := {
  keylet_signers : AccountID -> uint256;
  account_check : STObject -> bool;
  signers_check : STObject -> bool;
  lookup_book_base : Book -> uint256
}.

(** The other parts of a token's identifier, and the read of a token. *)
Class NftReads (W : Type) := {
  nft_getFlags : uint256 -> Z; nft_getTransferFee : uint256 -> Z; nft_getSerial : uint256 -> Z;
  nft_by_id : uint256 -> Z -> M W (option NFT)
}.

Definition invalid_params {A} (message : string) : Outcome A := Failed (Status_message (Rippled rpcINVALID_PARAMS) message).

Section lookups.
Context `{BackendImpl W} `{LedgerReads W} `{TxReads W} `{NftReads W} `{NftUtils}.
Context `{DataRendering} `{!Amounts} `{!TxRendering} `{!LookupKeylets}.
Context `{RippleKeylets} `{RippleStrings} `{LexicalCast} `{CursorText}.
Context (fuel : nat).

(** ** tx *)

Definition tx_hash (request : JsonObject) : Outcome (string * uint256) :=
  match obj_find "transaction" request with
  | None => invalid_params "specifyTransaction"
  | Some (JString s) => match parseHex (c_str s) with Some hash => Done (s, hash) | None => invalid_params "malformedTransaction" end
  | Some _ => invalid_params "transactionNotString"
  end.

Definition tx_binary (request : JsonObject) : Outcome bool :=
  match obj_find "binary" request with
  | None => Done false
  | Some (JBool b) => Done b
  | Some _ => invalid_params "binaryFlagNotBool"
  end.

Definition tx_range (minLedger maxLedger : option Z) : Outcome (option (Z * Z)) :=
  match minLedger, maxLedger with
  | Some lo, Some hi =>
      if lo >? hi then Failed (Status_code (Rippled rpcINVALID_LGR_RANGE))
      else if u32 (hi - lo) >? 1000 then Failed (Status_code (Rippled rpcEXCESSIVE_LGR_RANGE))
      else Done (Some (lo, hi))
  | _, _ => Done None
  end.

Definition tx_not_found (range : LedgerRange) (rangeSupplied : option (Z * Z)) : Status :=
  match rangeSupplied with
  | Some (lo, hi) =>
      mkStatus (Rippled rpcTXN_NOT_FOUND) "" "" (Some [("searched_all", JBool ((hi <=? maxSequence range) && (minSequence range <=? lo)))])
  | None => Status_code (Rippled rpcTXN_NOT_FOUND)
  end.

Definition tx_answer (transaction : string) (binary : bool) (t : TransactionAndMetadata) : Res JsonObject :=
  response ← (if binary then
                Ok [("tx", JString (blob_strHex (tm_transaction t))); ("meta", JString (blob_strHex (tm_metadata t)));
                    ("hash", JString transaction)]
              else '(txn, meta) ← toExpandedJson t; Ok (obj_set "meta" (JObject meta) txn));
  Ok (obj_set "ledger_index" (JUint64 (tm_ledgerSequence t)) (obj_set "date" (JUint64 (tm_date t)) response)).

Definition doTx (context : Context) : M W (Outcome JsonObject) :=
  let request := ctx_params context in
  transaction ⇠ tx_hash request;
  binary ⇠ tx_binary request;
  minLedger ← lift_res (getUInt request "min_ledger");
  maxLedger ← lift_res (getUInt request "max_ledger");
  rangeSupplied ⇠ tx_range minLedger maxLedger;
  range ← fetchLedgerRange;
  match range with
  | None => mret (Failed (Status_code (Rippled rpcNOT_READY)))
  | Some range =>
      dbResponse ← tx_by_hash transaction.2;
      match dbResponse with
      | None => mret (Failed (tx_not_found range rangeSupplied))
      | Some t => response ← lift_res (tx_answer transaction.1 binary t); mret (Done response)
      end
  end.

(** ** transaction_entry *)

Definition doTransactionEntry (context : Context) : M W (Outcome JsonObject) :=
  let request := ctx_params context in
  v ← ledgerInfoFromRequest request (ctx_range context);
  lgrInfo ⇠ v;
  tx_hash ← lift_res (getRequiredString request "tx_hash");
  match parseHex tx_hash with
  | None => mret (invalid_params "malformedTransaction")
  | Some hash =>
      dbResponse ← tx_by_hash hash;
      let not_found := mret (Failed (mkStatus (Rippled rpcTXN_NOT_FOUND) "transactionNotFound" "Transaction not found." None)) in
      match dbResponse with
      | None => not_found
      | Some t =>
          if negb (tm_ledgerSequence t =? li_seq lgrInfo) then not_found
          else
            '(txn, meta) ← lift_res (toExpandedJson t);
            mret (Done [("tx_json", JObject txn); ("metadata", JObject meta); ("ledger_index", JUint64 (li_seq lgrInfo));
                        ("ledger_hash", JString (strHex (li_hash lgrInfo)))])
      end
  end.

(** ** ledger_range, nft_info *)

Definition doLedgerRange (context : Context) : M W (Outcome JsonObject) :=
  range ← fetchLedgerRange;
  mret (match range with
        | None => Failed (Status_message (Rippled rpcNOT_READY) "rangeNotFound")
        | Some range => Done [("ledger_index_min", JUint64 (minSequence range)); ("ledger_index_max", JUint64 (maxSequence range))]
        end).

Definition doNFTInfo (context : Context) : M W (Outcome JsonObject) :=
  let request := ctx_params context in
  tokenID ⇠ getNFTID request;
  maybeLedgerInfo ← ledgerInfoFromRequest request (ctx_range context);
  lgrInfo ⇠ maybeLedgerInfo;
  dbResponse ← nft_by_id tokenID (li_seq lgrInfo);
  mret (match dbResponse with
        | None => Failed (Status_message (Rippled rpcOBJECT_NOT_FOUND) "NFT not found")
        | Some n =>
            let id := nft_tokenID n in
            Done [("nft_id", JString (strHex id)); ("ledger_index", JUint64 (nft_ledgerSequence n));
                  ("owner", JString (account_text (nft_owner n))); ("is_burned", JBool (nft_isBurned n));
                  ("uri", JString (blob_strHex (nft_uri n))); ("flags", JUint64 (nft_getFlags id));
                  ("transfer_rate", JUint64 (nft_getTransferFee id)); ("issuer", JString (account_text (getIssuer id)));
                  ("nft_taxon", JUint64 (getTaxon id)); ("nft_serial", JUint64 (nft_getSerial id))]
        end).

(** ** account_info *)

(** [account] or [ident]. *)
Definition account_ident (request : JsonObject) : Res (option string) :=
  match obj_find "account" request, obj_find "ident" request with
  | Some v, _ | None, Some v => s ← as_string v; Ok (Some (c_str s))
  | None, None => Ok None
  end.

(** The lists of signers, of which there is one at most. *)
Definition signer_lists (accountID : AccountID) (seq : Z) : M W (Outcome json) :=
  signers ← fetchLedgerObject (keylet_signers accountID) seq;
  match signers with
  | None => mret (Done (JArray []))
  | Some b =>
      sleSigners ← lift_res (parseSLE b (keylet_signers accountID));
      mret (if signers_check sleSigners then Done (JArray [sle_toJson sleSigners])
            else Failed (Status_code (Rippled rpcDB_DESERIALIZATION)))
  end.

Definition doAccountInfo (context : Context) : M W (Outcome JsonObject) :=
  let request := ctx_params context in
  strIdent ← lift_res (account_ident request);
  match strIdent with
  | None => mret (Failed (Status_code (Rippled rpcACT_MALFORMED)))
  | Some strIdent =>
      v ← ledgerInfoFromRequest request (ctx_range context);
      lgrInfo ⇠ v;
      match accountFromStringStrict strIdent with
      | None => mret (Failed (Status_code (Rippled rpcACT_MALFORMED)))
      | Some accountID =>
          dbResponse ← fetchLedgerObject (keylet_account accountID) (li_seq lgrInfo);
          match dbResponse with
          | None => mret (Failed (Status_code (Rippled rpcACT_NOT_FOUND)))
          | Some b =>
              sle ← lift_res (parseSLE b (keylet_account accountID));
              if negb (account_check sle) then mret (Failed (Status_code (Rippled rpcDB_DESERIALIZATION)))
              else
                let response data := [("account_data", data)] ++ lgrInfo_members lgrInfo in
                wanted ← lift_res (if contains request "signer_lists" then v ← at_ request "signer_lists"; as_bool v else Ok false);
                if (wanted : bool) then
                  lists ← signer_lists accountID (li_seq lgrInfo);
                  lists ⇠ lists;
                  data ← lift_res (as_object (sle_toJson sle));
                  mret (Done (response (JObject (obj_set "signer_lists" lists data))))
                else mret (Done (response (sle_toJson sle)))
          end
      end
  end.

(** ** book_offers *)

(** A book given by its key leaves [book] as it is made: XRP for XRP. *)
Definition requested_book (request : JsonObject) : Outcome (Book * uint256) :=
  match obj_find "book" request with
  | Some (JString s) =>
      match parseHex (c_str s) with
      | Some bookBase => Done (mkBook (0, 0) (0, 0), bookBase)
      | None => invalid_params "invalidBook"
      end
  | Some _ => invalid_params "bookNotString"
  | None => sides ← parseBook request; let book := mkBook sides.1 sides.2 in Done (book, lookup_book_base book)
  end.

Definition doBookOffers (context : Context) : M W (Outcome JsonObject) :=
  let request := ctx_params context in
  v ← ledgerInfoFromRequest request (ctx_range context);
  lgrInfo ⇠ v;
  book ⇠ requested_book request;
  limit ⇠ getLimit context;
  takerID ⇠ getTaker request 0;
  marker ⇠ getHexMarker request 0;
  page ← fetchBookOffers fuel book.2 (li_seq lgrInfo) limit (Some marker);
  offers ← postProcessOrderBook (bop_offers page) book.1 takerID (li_seq lgrInfo);
  mret (Done (lgrInfo_members lgrInfo ++ [("offers", JArray offers)] ++
              match bop_cursor page with Some m => [("marker", JString (strHex m))] | None => [] end)).

End lookups.

(** ** What is proved of them *)

(** The same object, the same status or the same exception. *)
Definition same_answer `{Amounts} `{!TxRendering} (r : Res (Outcome JsonObject)) (r' : Res (Outcome TxOutput)) : Prop :=
  match r, r' with
  | Ok (Done o), Ok (Done out) => exists o', tx_value_from out = JObject o' /\ forall k, obj_find k o = obj_find k o'
  | Ok (Failed s), Ok (Failed s') => s = s'
  | Throw e, Throw e' => e = e'
  | NoFuel, NoFuel => True
  | _, _ => False
  end.

Section lookup_theorems.
Context `{BackendImpl W} `{LedgerReads W} `{TxReads W} `{NftReads W}.
Context `{DataRendering} `{!Amounts} `{!TxRendering} `{!NgRipple} `{!LookupKeylets}.
Context `{RippleKeylets} `{RippleStrings} `{LexicalCast} `{CursorText} `{JsonNumbers}.

(** The members of an answer that is found. *)
Lemma tx_answer_same s binary t :
  same_answer (o ← tx_answer s binary t; Ok (Done o))
    (if binary then
       Ok (Done (mkTxOutput (tm_date t) s (tm_ledgerSequence t) None (blob_strHex (tm_transaction t)) (blob_strHex (tm_metadata t))))
     else expanded ← toExpandedJson t; Ok (Done (mkTxOutput (tm_date t) "" (tm_ledgerSequence t) (Some expanded) "" ""))).
Proof.
  unfold tx_answer. destruct binary.
  - eexists. split; [reflexivity|]. intros k. cbn [txo_date txo_ledgerIndex txo_tx txo_txStr txo_metaStr txo_hash].
    rewrite !obj_find_set. cbn [obj_find]. repeat case_decide; congruence.
  - destruct (toExpandedJson t) as [[txn meta]| |]; cbn; [|done..]. by eexists.
Qed.

(** The older [tx] answers a request as the newer handler does, when the range of
    the ledgers is known and the read of a transaction leaves it: the same members,
    the same status (with whether all of the range was searched) or the same
    exception, and the same state afterwards. *)
Theorem tx_same (ctx : Context) (s : string) (hash : uint256) (binary : bool) (lo hi : option Z) (rg : LedgerRange) (w : W) :
  obj_find "transaction" (ctx_params ctx) = Some (JString s) -> c_str s = s -> parseHex s = Some hash ->
  tx_binary (ctx_params ctx) = Done binary ->
  getUInt (ctx_params ctx) "min_ledger" = Ok lo -> getUInt (ctx_params ctx) "max_ledger" = Ok hi ->
  range w = Some rg -> range (tx_by_hash hash w).2 = Some rg ->
  let (r, w1) := doTx ctx w in
  let (r', w2) := tx_process (mkTxInput s binary lo hi) w in
  same_answer r r' /\ w1 = w2.
Proof.
  intros Hs Hc Hh Hb Hlo Hhi Hw Hw'. unfold doTx, tx_process, tx_hash.
  rewrite Hs, Hc, Hh. cbn [with_done]. rewrite Hb, Hlo, Hhi. cbn [with_done].
  assert (forall rs, let (r, w1) := (range ← fetchLedgerRange;
      match range with
      | None => mret (Failed (Status_code (Rippled rpcNOT_READY)))
      | Some range =>
          dbResponse ← tx_by_hash hash;
          match dbResponse with
          | None => mret (Failed (tx_not_found range rs))
          | Some t => response ← lift_res (tx_answer s binary t); mret (Done response)
          end
      end) w in let (r', w2) := tx_find (mkTxInput s binary lo hi) rs w in same_answer r r' /\ w1 = w2) as Hfind.
  { intros rs. unfold tx_find, fetchLedgerRange. cbn [txi_transaction txi_binary]. rewrite Hh.
    unfold mbind, M_bind. cbv beta iota. rewrite Hw. cbv beta iota.
    destruct (tx_by_hash hash w) as [[[t|]|e|] w'] eqn:Hread; cbn [snd] in Hw'; [| |by split..].
    - pose proof (tx_answer_same s binary t) as Hf. unfold lift_res. destruct binary; [by destruct (tx_answer s true t)|].
      destruct (tx_answer s false t), (toExpandedJson t); cbn in *; by split.
    - unfold tx_not_found. destruct rs as [[l h]|]; [|by split]. cbv beta iota. rewrite Hw'. by split. }
  unfold tx_range. cbn [txi_minLedger txi_maxLedger]. unfold maxLedgerRange.
  destruct lo as [l|], hi as [h|]; try exact (Hfind None).
  unfold mbind, M_bind, lift_res. cbv beta iota.
  destruct (l >? h); [by split|]. destruct (u32 (h - l) >? 1000); [by split|]. exact (Hfind (Some (l, h))).
Qed.

(** [transaction_entry]. A transaction is answered when it is in the ledger the
    request names; one that is in another ledger is as unknown as one that is in
    none. *)
Theorem transaction_entry_found {Ldg I E} `{!ReadLaws Ldg I E} {info : LedgerInfo} `{!ServesLedger I E info}
    (ctx : Context) (text : string) (hash : uint256) (found : option TransactionAndMetadata) (expanded : JsonObject * JsonObject) :
  obj_find "ledger_hash" (ctx_params ctx) = None -> obj_find "ledger_index" (ctx_params ctx) = Some (JInt64 (li_seq info)) ->
  0 <= li_seq info < 2 ^ 32 /\ li_seq info <= maxSequence (ctx_range ctx) ->
  getRequiredString (ctx_params ctx) "tx_hash" = Ok text -> parseHex text = Some hash ->
  triple I (tx_by_hash hash) (fun r w => r = found /\ I w) E ->
  (forall t, found = Some t -> toExpandedJson t = Ok expanded) ->
  triple I (doTransactionEntry ctx)
    (fun r w => I w /\
       if decide (tm_ledgerSequence <$> found = Some (li_seq info)) then
         r = Done [("tx_json", JObject expanded.1); ("metadata", JObject expanded.2); ("ledger_index", JUint64 (li_seq info));
                   ("ledger_hash", JString (strHex (li_hash info)))]
       else r = Failed (mkStatus (Rippled rpcTXN_NOT_FOUND) "transactionNotFound" "Transaction not found." None)) E.
Proof.
  intros Hh Hi Hs Htext Hhash Hread Hexp. unfold doTransactionEntry.
  eapply triple_bind; [by eapply named_ledger|]. intros r. apply triple_pre_pure. intros ->. cbn [with_done].
  rewrite Htext. apply triple_ok_bind. rewrite Hhash. eapply triple_bind; [exact Hread|]. intros r. apply triple_pre_pure. intros ->.
  destruct found as [t|]; cbn [fmap option_fmap option_map].
  - destruct (Z.eqb_spec (tm_ledgerSequence t) (li_seq info)) as [Heq|Hne]; cbn [negb].
    + rewrite (Hexp t eq_refl). destruct expanded as [txn meta]. apply triple_ok_bind. apply triple_ret. intros w Hw. split; [done|]. by rewrite decide_True by congruence.
    + apply triple_ret. intros w Hw. split; [done|]. by rewrite decide_False by congruence.
  - apply triple_ret. intros w Hw. split; [done|]. by rewrite decide_False by done.
Qed.

End lookup_theorems.
