(* ===== verification/TxWalk.v ===== *)
(** The history of an account or a token, end to end.

    The whole handlers [doAccountTx] and [doNFTHistory] over the pages of the
    Cassandra backend, and a client that sends its request again with the marker
    of each answer. [tx_walk]: what it gets. *)

From stdpp Require Import base list gmap strings sorting.
From Stdlib Require Import ZArith Lia.
From S2P Require Import Prelude Types TreeRipple SimpleCache Backend Cql Cassandra Tables CassandraSpec CassandraPaging Json Errors Requests Subscriptions Directory OrderBook Rpc TxRequests Validators NgHandlers NgAccounts LedgerData OwnedHandlers.

#[local] Open Scope string_scope.
#[local] Open Scope list_scope.
Open Scope Z_scope.

(** ** The client *)

(** The request with a marker of an answer. *)
Definition with_resent (marker : option json) (params : JsonObject) : JsonObject :=
  match marker with Some m => obj_set "marker" (resent m) params | None => params end.

(** It gathers the transactions as long as an answer has a marker. *)
Fixpoint history_client {W} (handler : Context -> M W (Outcome JsonObject)) (requests : nat) (ctx : Context)
    (marker : option json) : M W (Outcome (list json)) :=
  match requests with
  | O => no_fuel
  | S requests' =>
      r ← handler (with_params (with_resent marker (ctx_params ctx)) ctx);
      match r with
      | Failed s => mret (Failed s)
      | Done response =>
          let txs := match obj_find "transactions" response with Some (JArray l) => l | _ => [] end in
          match obj_find "marker" response with
          | None => mret (Done txs)
          | Some m =>
              rest ← history_client handler requests' ctx (Some m);
              mret (rest ← rest; Done (txs ++ rest))
          end
      end
  end.

Lemma find_resent m params k : k <> "marker" -> obj_find k (with_resent m params) = obj_find k params.
Proof. intros Hk. destruct m; [|done]. cbn. by rewrite obj_find_set, decide_False. Qed.

Lemma contains_resent m params k : k <> "marker" -> contains (with_resent m params) k = contains params k.
Proof. intros Hk. unfold contains. by rewrite find_resent. Qed.

Lemma bool_resent m params k b :
  k <> "marker" -> getBool_default (with_resent m params) k b = getBool_default params k b.
Proof. intros Hk. unfold getBool_default, getBool, at_. by rewrite contains_resent, find_resent. Qed.

Lemma limit_resent m ctx : getLimit (with_params (with_resent m (ctx_params ctx)) ctx) = getLimit ctx.
Proof. unfold getLimit. cbn [with_params ctx_params ctx_method]. by rewrite find_resent. Qed.

(** What is filtered out first would be filtered out anyway. *)
Lemma filter_within {A} (P Q : A -> Prop) `{!forall x, Decision (P x), !forall x, Decision (Q x)} (l : list A) :
  (forall x, x ∈ l -> P x -> Q x) -> filter P (filter Q l) = filter P l.
Proof.
  induction l as [|x l IH]; intros HPQ; [done|]. specialize (IH ltac:(intros; apply HPQ; [by right | done])).
  rewrite !filter_cons. destruct (decide (Q x)); [rewrite filter_cons; by rewrite IH|].
  rewrite decide_False; [done|]. intros HP. by apply n, HPQ; [left|].
Qed.

Section walk.
Context {D : Type} `{CS : CassSession D} {tables : D -> Tables} {patience : D -> nat}
  {acked : D -> list CassandraStatement} `{SL : !SessionLaws tables patience acked}.
Context `{CA : CassApi} `{CL : !CassApiLaws} (fuel : nat).
Context `{SerialCodec} `{TxRendering} `{RippleStrings} `{LexicalCast}.

Abbreviation rd := (reading (tables := tables) (patience := patience)).

(** The backend reads the ledgers of a request. *)
#[local] Instance Cass_LedgerReads : LedgerReads (Cass D) := {|
  ledger_by_hash := fetchLedgerByHash fuel;
  ledger_by_sequence := fetchLedgerBySequence fuel
|}.

Context (w0 : Cass D) (T : Tables) (ctx : Context) (limit : Z) (forward binary : bool).

Abbreviation params := (ctx_params ctx).

(** ** The ledgers of the request *)

(** A ledger that the database has at [q], which the server's range goes up to, and
    that a request may name: it says nothing of a window. *)
Definition named (q : Z) (info : LedgerInfo) : Prop :=
  0 <= q < 2 ^ 32 /\ (exists header, t_ledgers T !! q = Some header /\ deserializeHeader header = Ok info) /\
  li_seq info <= maxSequence (ctx_range ctx) /\
  contains params "ledger_index_min" = false /\ contains params "ledger_index_max" = false.

(** The ledgers a request is about: the window between the two ends it names, or
    those of the server's range; or the one ledger it names by its number or by its
    hash. *)
Inductive asks_for : Z -> Z -> Prop :=
| asks_window lo hi c :
    contains params "ledger_index" = false -> contains params "ledger_hash" = false ->
    tx_window (ctx_range ctx) params forward None = Done (lo, hi, c) -> asks_for lo hi
| asks_ledger q info :
    obj_find "ledger_hash" params = None -> obj_find "ledger_index" params = Some (JInt64 q) ->
    named q info -> asks_for (li_seq info) (li_seq info)
| asks_hash s h q info :
    obj_find "ledger_hash" params = Some (JString s) -> parseHex (c_str s) = Some h ->
    t_ledger_hashes T !! uint256_bytes h = Some q -> named q info -> asks_for (li_seq info) (li_seq info).

Lemma ledger_read q info :
  named q info ->
  triple (rd w0 T fuel) (fetchLedgerBySequence fuel q) (fun r w => r = Some info /\ rd w0 T fuel w)
    (fun e w => read_fails e /\ rd w0 T fuel w).
Proof.
  intros (_ & (header & Hq & Hh) & _). unfold fetchLedgerBySequence.
  eapply triple_bind; [apply (read_stmt_spec fuel w0 T _ selectLedgerBySeq_ [CInt64 q]); [solve_binds | done | done]|].
  intros r. apply triple_pre_pure; intros (flip & rows & Hrows & Hmk). cbn in Hrows. rewrite Hq in Hrows.
  injection Hrows as <-. cbn in Hmk. injection Hmk as <-.
  erewrite hasResult_row by done. cbn [negb]. erewrite getBytes_at by done. apply triple_ok_bind. rewrite Hh.
  apply triple_ok_bind. by apply triple_ret.
Qed.

Lemma hash_read h q info :
  t_ledger_hashes T !! uint256_bytes h = Some q -> named q info ->
  triple (rd w0 T fuel) (fetchLedgerByHash fuel h) (fun r w => r = Some info /\ rd w0 T fuel w)
    (fun e w => read_fails e /\ rd w0 T fuel w).
Proof.
  intros Hh Hn. unfold fetchLedgerByHash.
  eapply triple_bind; [apply (read_stmt_spec fuel w0 T _ selectLedgerByHash_ [CBytes (uint256_bytes h)]); [solve_binds | done | done]|].
  intros r. apply triple_pre_pure; intros (flip & rows & Hrows & Hmk). cbn [cql_read] in Hrows. rewrite Hh in Hrows.
  injection Hrows as <-. cbn in Hmk. injection Hmk as <-.
  erewrite hasResult_row by done. cbn [negb]. erewrite getInt64_at by done. apply triple_ok_bind.
  rewrite u32_small by apply Hn. by apply ledger_read.
Qed.

(** What is asked for by a request that names a ledger, or by one that does not. *)
Definition window_read (request : JsonObject) (lo hi : Z) : M (Cass D) (Outcome (Z * Z)) :=
  if contains request "ledger_index" || contains request "ledger_hash" then
    if contains request "ledger_index_max" || contains request "ledger_index_min" then
      mret (Failed (Status_message (Rippled rpcINVALID_PARAMS) "containsLedgerSpecifierAndRange"))
    else
      v ← ledgerInfoFromRequest request (ctx_range ctx);
      mret (match v with Failed s => Failed s | Done l => Done (li_seq l, li_seq l) end)
  else mret (Done (lo, hi)).

Lemma not_contained k : contains params k = false -> obj_find k params = None.
Proof. apply at_absent. Qed.

(** A request that names no window has that of the server's range. *)
Lemma no_window request m :
  contains request "ledger_index_min" = false -> contains request "ledger_index_max" = false ->
  tx_window (ctx_range ctx) request forward m = Done (minSequence (ctx_range ctx), maxSequence (ctx_range ctx), m).
Proof. intros Hmin%at_absent Hmax%at_absent. unfold tx_window, index_min, index_max. by rewrite Hmin, Hmax. Qed.

Lemma named_window q info m lo hi (v : M (Cass D) (Outcome LedgerInfo)) :
  let request := with_resent m params in
  named q info -> contains params "ledger_index" || contains params "ledger_hash" = true ->
  ledgerInfoFromRequest request (ctx_range ctx) = v ->
  triple (rd w0 T fuel) v (fun r w => r = Done info /\ rd w0 T fuel w) (fun e w => read_fails e /\ rd w0 T fuel w) ->
  triple (rd w0 T fuel) (window_read request lo hi)
    (fun r w => r = Done (li_seq info, li_seq info) /\ rd w0 T fuel w) (fun e w => read_fails e /\ rd w0 T fuel w).
Proof.
  intros request (_ & _ & _ & Hmin & Hmax) Hc Hv Ht. unfold window_read, request in *.
  rewrite !contains_resent, Hc, Hmin, Hmax by done. cbn [orb]. rewrite Hv.
  eapply triple_bind; [exact Ht|]. intros r. apply triple_pre_pure; intros ->. by apply triple_ret.
Qed.

Lemma window_spec lo hi m :
  asks_for lo hi -> 0 <= minSequence (ctx_range ctx) <= maxSequence (ctx_range ctx) -> maxSequence (ctx_range ctx) < 2 ^ 32 ->
  let request := with_resent (marker_json <$> m) params in
  exists lo0 hi0 c0, tx_window (ctx_range ctx) request forward m = Done (lo0, hi0, c0) /\
    default (start_cursor forward lo hi) c0 = default (start_cursor forward lo hi) m /\
    triple (rd w0 T fuel) (window_read request lo0 hi0)
      (fun r w => r = Done (lo, hi) /\ rd w0 T fuel w) (fun e w => read_fails e /\ rd w0 T fuel w).
Proof.
  intros Ha Hr1 Hr2 request. unfold request.
  destruct Ha as [lo hi c Hi Hh Hw | q info Hh Hi Hn | s h q info Hs Hh Hq Hn].
  - exists lo, hi. assert (exists c0, tx_window (ctx_range ctx) (with_resent (marker_json <$> m) params) forward m = Done (lo, hi, c0))
      as [c0 Hc0].
    { destruct m as [m|]; [|by exists c]. exists (Some m). eapply tx_window_marker; [|exact Hw].
      intros k Hk. by apply find_resent. }
    exists c0. split; [done|]. split.
    + by destruct (proj1 (tx_window_spec _ _ forward m Hr1 Hr2) _ _ _ Hc0) as (_ & _ & _ & _ & ?).
    + unfold window_read. rewrite !contains_resent, Hi, Hh by done. by apply triple_ret.
  - destruct Hn as (Hq & Hn). pose proof Hn as (_ & Hmax & Hw1 & Hw2).
    eexists _, _, m. rewrite no_window by (by rewrite contains_resent). split; [done|]. split; [done|].
    eapply (named_window q); [by split | by unfold contains; rewrite Hi | reflexivity |].
    unfold ledgerInfoFromRequest. rewrite !find_resent, Hh, Hi by done. cbn [default from_option id].
    rewrite u32_small by done. eapply triple_bind; [apply (ledger_read q info); by split|].
    intros r. apply triple_pre_pure; intros ->. apply triple_ret. intros w Hrd. split; [|done].
    by replace (li_seq info >? maxSequence (ctx_range ctx)) with false by lia.
  - destruct Hn as (Hq' & Hn). pose proof Hn as (_ & Hmax & Hw1 & Hw2).
    eexists _, _, m. rewrite no_window by (by rewrite contains_resent). split; [done|]. split; [done|].
    eapply (named_window q); [by split | unfold contains; rewrite Hs; apply orb_true_r | reflexivity |].
    unfold ledgerInfoFromRequest. rewrite !find_resent, Hs by done. cbn [default from_option id]. rewrite Hh.
    eapply triple_bind; [apply (hash_read h q info); [done | by split]|].
    intros r. apply triple_pre_pure; intros ->. apply triple_ret. intros w Hrd. split; [|done].
    by replace (li_seq info >? maxSequence (ctx_range ctx)) with false by lia.
Qed.

(** ** The rows *)

Definition tx_of (r : TxRow) : TransactionAndMetadata := tx_lookup T (uint256_fromVoid r.2).

(** The rows of an index: their numbers fit, the transaction of each is of the
    row's ledger and can be rendered. *)
Definition row_ok (r : TxRow) : Prop :=
  0 <= r.1.1 < 2 ^ 32 /\ 0 <= r.1.2 < INT32_MAX /\
  tm_ledgerSequence (tx_of r) = r.1.1 /\ exists o, renders binary (tx_of r) o.

Lemma rows_ok_fit rows : Forall row_ok rows -> rows_fit rows.
Proof. intros Hr. eapply Forall_impl; [exact Hr|]. intros r (? & ? & _). unfold INT32_MAX in *. lia. Qed.

(** What is left from a cursor on. *)
Definition left_from (rows : list TxRow) (c : TransactionsCursor) : list TxRow :=
  rows_left forward rows (tc_ledgerSequence c, tc_transactionIndex c).

Lemma left_from_in rows c r : r ∈ left_from rows c -> r ∈ rows.
Proof.
  unfold left_from, rows_left. destruct forward; rewrite ?elem_of_reverse; by intros [_ ?]%list_elem_of_filter.
Qed.

(** Rows that can still be sent: in the order of travel, none before the window
    when going forward. *)
Definition sendable (lo : Z) (l : list TxRow) : Prop := Forall row_ok l /\ in_order lo forward (tx_of <$> l).

Lemma sendable_app lo l1 l2 : sendable lo (l1 ++ l2) -> sendable lo l1 /\ sendable lo l2.
Proof.
  intros [Hok Ho]. rewrite fmap_app in Ho. apply Forall_app in Hok as [? ?]. by apply in_order_app in Ho as [? ?].
Qed.

Lemma sendable_renders lo l : sendable lo l -> Forall (fun t => exists o, renders binary t o) (tx_of <$> l).
Proof. intros [Hok _]. apply Forall_fmap. eapply Forall_impl; [exact Hok|]. by intros r (_ & _ & _ & ?). Qed.

Lemma ledgers_sorted (R : TxRow -> TxRow -> Prop) (S : TransactionAndMetadata -> TransactionAndMetadata -> Prop) l :
  (forall a b, row_ok a -> row_ok b -> R a b -> S (tx_of a) (tx_of b)) ->
  Forall row_ok l -> StronglySorted R l -> StronglySorted S (tx_of <$> l).
Proof.
  intros HRS Hok Hs. induction Hs as [|a l Hs IH Ha]; [constructor|]. apply Forall_cons in Hok as [Hoka Hok]. cbn.
  constructor; [by apply IH|]. apply Forall_fmap. apply Forall_forall. intros b Hb. rewrite Forall_forall in Ha, Hok.
  apply HRS; [done | by apply Hok | by apply Ha].
Qed.

(** From the start of the window on, the rows can be sent, and those of the window
    are all there. *)
Lemma window_start_spec rows lo hi :
  StronglySorted row_before rows -> Forall row_ok rows ->
  let l := left_from rows (start_cursor forward lo hi) in
  sendable lo l /\
  filter (fun r : TxRow => lo <= r.1.1 <= hi) l =
    filter (fun r : TxRow => lo <= r.1.1 <= hi) (if forward then rows else reverse rows).
Proof.
  intros Hs Hok l. rewrite Forall_forall in Hok.
  assert (Forall row_ok l) as Hokl by (apply Forall_forall; intros r Hr; by apply Hok, (left_from_in _ _ _ Hr)).
  unfold l, sendable, in_order, left_from, rows_left, start_cursor in *. destruct forward; cbn [tc_ledgerSequence tc_transactionIndex] in *.
  - split.
    + split; [done|]. split.
      * eapply ledgers_sorted; [|done|by apply StronglySorted_filter]. intros a b (_ & _ & Ha & _) (_ & _ & Hb & _) Hab%pair_lt_spec. cbn beta iota. rewrite Ha, Hb. lia.
      * intros _. apply Forall_fmap, Forall_forall. intros r Hr. apply list_elem_of_filter in Hr as [Hp%pair_ge_spec Hr].
        destruct (Hok r Hr) as (_ & _ & Hl & _). cbn in Hp |- *. rewrite Hl. lia.
    + apply filter_within. intros r Hr Hw. apply pair_ge_spec. destruct (Hok r Hr) as (_ & Hi & _). cbn in *. lia.
  - split.
    + split; [done|]. split; [|done]. 
      eapply (ledgers_sorted (fun a b => row_before b a)); [|done|by apply StronglySorted_reverse, StronglySorted_filter].
      intros a b (_ & _ & Ha & _) (_ & _ & Hb & _) Hab%pair_lt_spec. cbn beta iota. rewrite Ha, Hb. lia.
    + rewrite !filter_reverse. f_equal. apply filter_within. intros r Hr Hw. apply pair_lt_spec.
      destruct (Hok r Hr) as (_ & Hi & _). cbn in *. lia.
Qed.

(** ** One answer *)

(** The answer to a request that starts at a cursor: the transactions of the next
    rows that are in the window, and a marker from which just the other rows are
    left, unless the page was not full or has left the window. *)
Definition answer (rows : list TxRow) (lo hi : Z) (c : TransactionsCursor) (r : Outcome JsonObject) : Prop :=
  let left := left_from rows c in
  let page := tx_of <$> take (Z.to_nat limit) left in
  exists response objs, r = Done response /\ Forall2 (renders binary) (filter (in_window lo hi) page) objs /\
    obj_find "transactions" response = Some (JArray (JObject <$> objs)) /\
    if decide (Exists (past lo hi forward) page \/ Z.of_nat (length left) < limit) then obj_find "marker" response = None
    else exists c', obj_find "marker" response = Some (marker_json c') /\ cursor_fits c' /\
           left_from rows c' = drop (Z.to_nat limit) left.

Lemma answer_set rows lo hi c response k v :
  k <> "transactions" -> k <> "marker" ->
  answer rows lo hi c (Done response) -> answer rows lo hi c (Done (obj_set k v response)).
Proof.
  intros Hk1 Hk2 (response' & objs & [= <-] & Hobjs & Htx & Hm). exists (obj_set k v response), objs.
  assert (forall k', k <> k' -> obj_find k' (obj_set k v response) = obj_find k' response) as Hset
    by (intros k' Hk; rewrite obj_find_set; by rewrite decide_False).
  rewrite !Hset by done. by split_and!.
Qed.

(** A request for a history. *)
Record history_request (lo hi : Z) : Prop := {
  hr_marker : obj_find "marker" params = None;
  hr_binary : getBool_default params "binary" false = Ok binary;
  hr_forward : getBool_default params "forward" false = Ok forward;
  hr_limit : getLimit ctx = Done limit;
  hr_bound : 0 < limit < 2 ^ 31;
  hr_range : 0 <= minSequence (ctx_range ctx) <= maxSequence (ctx_range ctx) /\ maxSequence (ctx_range ctx) < 2 ^ 32;
  hr_window : asks_for lo hi }.

Abbreviation asked_again := (fun m : option TransactionsCursor => with_params (with_resent (marker_json <$> m) params) ctx).

Lemma marker_read m :
  obj_find "marker" params = None -> (forall c, m = Some c -> cursor_fits c) ->
  tx_marker (with_resent (marker_json <$> m) params) = Ok (Done m).
Proof.
  intros Hn Hm. destruct m as [c|]; cbn [fmap option_fmap option_map with_resent].
  - apply marker_roundtrip; [by apply Hm|]. by rewrite obj_find_set, decide_True.
  - unfold tx_marker. by rewrite Hn.
Qed.

Lemma response_spec rows lo hi c request page :
  sendable lo (left_from rows c) -> 0 < limit ->
  page_ok T forward rows (tc_ledgerSequence c, tc_transactionIndex c) limit page ->
  exists response, tx_response request limit lo hi forward binary page = Ok response /\ answer rows lo hi c (Done response).
Proof.
  intros Hs Hl [Htx Hc]. fold (left_from rows c) in Htx, Hc. set (left := left_from rows c) in *.
  change (fun x : TxRow => tx_lookup T (uint256_fromVoid x.2)) with tx_of in Htx.
  rewrite <- (take_drop (Z.to_nat limit) left) in Hs. apply sendable_app in Hs as [Hs _].
  destruct (tx_response_spec request limit lo hi forward binary page) as (objs & response & Hr & Hobjs & Htxs & Hm & _).
  { rewrite Htx. apply Hs. }
  { rewrite Htx. by eapply sendable_renders. }
  exists response. split; [done|]. unfold answer. cbv zeta. fold left. rewrite <- Htx.
  exists response, objs. split; [done|]. split; [done|]. split; [done|]. destruct (decide (Exists (past lo hi forward) (tac_txns page))) as [He|He]; rewrite Hm.
  - by rewrite decide_True by by left.
  - destruct (decide (limit <= Z.of_nat (length left))) as [Hle|Hle].
    + rewrite decide_False by (intros [?|?]; [done|lia]). destruct Hc as (c' & -> & Hfit & Hleft). by exists c'.
    + by rewrite decide_True, Hc by (right; lia).
Qed.

Lemma traverse_spec rows lo hi m (fetch : Z -> bool -> option TransactionsCursor -> M (Cass D) TransactionsAndCursor) :
  let c := default (start_cursor forward lo hi) m in
  history_request lo hi -> (forall c, m = Some c -> cursor_fits c) -> sendable lo (left_from rows c) ->
  triple (rd w0 T fuel) (fetch limit forward (Some c))
    (fun r w => page_ok T forward rows (cursor_pos forward (Some c)) limit r /\ rd w0 T fuel w)
    (fun e w => read_fails e /\ rd w0 T fuel w) ->
  triple (rd w0 T fuel) (traverseTransactions (asked_again m) fetch)
    (fun r w => answer rows lo hi c r /\ rd w0 T fuel w) (fun e w => read_fails e /\ rd w0 T fuel w).
Proof.
  intros c Hreq Hfit Hs Hpage. unfold traverseTransactions. rewrite limit_resent. cbn [with_params ctx_params ctx_range].
  rewrite !bool_resent, (hr_binary _ _ Hreq), (hr_forward _ _ Hreq), marker_read by (done || apply Hreq).
  apply triple_ok_bind, triple_ok_bind, triple_ok_bind. cbn [mbind Outcome_bind].
  destruct (window_spec lo hi m (hr_window _ _ Hreq)) as (lo0 & hi0 & c0 & Hw & Hc0 & Hread); [apply Hreq..|].
  rewrite Hw. eapply triple_bind; [exact Hread|]. intros r. apply triple_pre_pure; intros ->. cbn beta iota.
  replace (match c0 with Some c => c | None => _ end) with c by (unfold c; rewrite <- Hc0; by destruct c0, forward).
  rewrite (hr_limit _ _ Hreq). eapply triple_bind; [exact Hpage|]. intros page. apply triple_pre_pure; intros Hp.
  destruct (response_spec rows lo hi c (with_resent (marker_json <$> m) params) page Hs ltac:(apply Hreq) Hp) as (response & -> & Ha).
  apply triple_ok_bind. by apply triple_ret.
Qed.

(** ** The walk *)

(** A handler that answers from the rows, from wherever it is asked to start. *)
Definition serves_rows (handler : Context -> M (Cass D) (Outcome JsonObject)) (rows : list TxRow) (lo hi : Z) : Prop :=
  forall m, let c := default (start_cursor forward lo hi) m in
  (forall c, m = Some c -> cursor_fits c) -> sendable lo (left_from rows c) ->
  triple (rd w0 T fuel) (handler (asked_again m))
    (fun r w => answer rows lo hi c r /\ rd w0 T fuel w) (fun e w => read_fails e /\ rd w0 T fuel w).

Lemma client_spec handler rows lo hi requests m :
  serves_rows handler rows lo hi -> 0 < limit ->
  let left := left_from rows (default (start_cursor forward lo hi) m) in
  (forall c, m = Some c -> cursor_fits c) -> sendable lo left -> (length left < requests)%nat ->
  triple (rd w0 T fuel) (history_client handler requests ctx (marker_json <$> m))
    (fun r w => (exists objs, r = Done (JObject <$> objs) /\
       Forall2 (renders binary) (filter (in_window lo hi) (tx_of <$> left)) objs) /\ rd w0 T fuel w)
    (fun e w => read_fails e /\ rd w0 T fuel w).
Proof.
  intros Hh Hl. revert m. induction requests as [|requests IH]; intros m left Hfit Hs Hlen; [lia|]. cbn [history_client].
  eapply triple_bind; [by apply Hh|]. intros r. apply triple_pre_pure; intros (response & objs & -> & Hobjs & -> & Hm).
  fold left in Hobjs, Hm. set (n := Z.to_nat limit) in *.
  pose proof Hs as [_ Ho]. rewrite <- (take_drop n left), fmap_app in Ho.
  assert (filter (in_window lo hi) (tx_of <$> left) =
    filter (in_window lo hi) (tx_of <$> take n left) ++ filter (in_window lo hi) (tx_of <$> drop n left)) as Hsplit
    by (by rewrite <- filter_app, <- fmap_app, take_drop).
  destruct (decide _) as [Hend|Hmore].
  - rewrite Hm. apply triple_ret. intros w Hw. split; [|done]. exists objs. split; [done|]. rewrite Hsplit.
    assert (filter (in_window lo hi) (tx_of <$> drop n left) = []) as ->; [|by rewrite app_nil_r].
    destruct Hend as [He|Hshort]; [by eapply past_after|]. by rewrite drop_ge by (unfold n; lia).
  - destruct Hm as (c' & Hm & Hfit' & Hleft). rewrite Hm. change (Some (marker_json c')) with (marker_json <$> Some c').
    rewrite <- (take_drop n left) in Hs. apply sendable_app in Hs as [_ Hs]. rewrite <- Hleft in Hs.
    eapply triple_bind; [apply (IH (Some c')); [by intros ? [= <-] | done |]|].
    { cbn [default from_option id]. rewrite Hleft, length_drop. unfold n. lia. }
    intros r. apply triple_pre_pure; intros (rest & -> & Hrest). apply triple_ret. intros w Hw. split; [|done].
    exists (objs ++ rest). cbn. rewrite fmap_app. split; [done|]. rewrite Hsplit, <- Hleft. by apply Forall2_app.
Qed.

(** The rows of a window in the order of travel. *)
Definition in_travel (rows : list TxRow) (lo hi : Z) : list TxRow :=
  filter (fun r : TxRow => lo <= r.1.1 <= hi) (if forward then rows else reverse rows).

Lemma walk_spec handler rows lo hi requests :
  serves_rows handler rows lo hi -> 0 < limit ->
  StronglySorted row_before rows -> Forall row_ok rows -> (length rows < requests)%nat ->
  triple (rd w0 T fuel) (history_client handler requests ctx None)
    (fun r w => (exists objs, r = Done (JObject <$> objs) /\
       Forall2 (renders binary) (tx_of <$> in_travel rows lo hi) objs) /\ rd w0 T fuel w)
    (fun e w => read_fails e /\ rd w0 T fuel w).
Proof.
  intros Hh Hl Hsort Hok Hlen. destruct (window_start_spec rows lo hi Hsort Hok) as [Hs Hf].
  set (left := left_from rows _) in *.
  assert (length left <= length rows)%nat.
  { unfold left, left_from, rows_left. destruct forward; rewrite ?length_reverse; apply length_filter. }
  eapply triple_conseq; [apply (client_spec handler rows lo hi requests None Hh Hl); [done | done | cbn; fold left; lia] | done | | done].
  intros r w [(objs & -> & Hobjs) Hw]. split; [|done]. exists objs. split; [done|].
  unfold in_travel. rewrite <- Hf. cbn [default from_option] in Hobjs. fold left in Hobjs.
  replace (tx_of <$> filter _ left) with (filter (in_window lo hi) (tx_of <$> left)); [done|].
  destruct Hs as [Hokl _]. clear -Hokl. induction Hokl as [|r l (_ & _ & Hr & _) _ IH]; [done|].
  rewrite fmap_cons, !filter_cons, IH. unfold in_window.
  repeat case_decide; (done || lia).
Qed.

(** The two handlers over the backend. *)
Lemma account_served (a : AccountID) rng lo hi :
  let rows := tx_rows_asc (AccountID_bytes a) (t_account_tx T) in
  history_request lo hi -> getAccount params 0 = Done a -> c_range w0 = Some rng -> Forall row_ok rows ->
  serves_rows (doAccountTx (fetchAccountTransactions fuel)) rows lo hi.
Proof.
  intros rows Hreq Hacc Hrng Hok m c Hfit Hs. unfold doAccountTx.
  replace (getAccount (ctx_params (asked_again m)) 0) with (Done a)
    by (rewrite <- Hacc; unfold getAccount, getAccount_field, field_string; cbn [with_params ctx_params]; by rewrite find_resent).
  eapply triple_bind; [apply (traverse_spec rows lo hi m); try done|].
  - eapply (account_page fuel w0 T); [done | apply Hreq | by apply rows_ok_fit].
  - intros r. apply triple_pre_pure; intros Ha. apply triple_ret. intros w Hw. split; [|done].
    destruct Ha as (response & Ha). pose proof Ha as (objs & -> & _). apply answer_set; [done..|]. by exists response.
Qed.

Lemma nft_served (id : uint256) token_text rng lo hi :
  let rows := tx_rows_asc (uint256_bytes id) (t_nf_token_transactions T) in
  history_request lo hi -> getNFTID params = Done id -> c_range w0 = Some rng -> Forall row_ok rows ->
  serves_rows (doNFTHistory (fetchNFTTransactions fuel) token_text) rows lo hi.
Proof.
  intros rows Hreq Hid Hrng Hok m c Hfit Hs. unfold doNFTHistory.
  replace (getNFTID (ctx_params (asked_again m))) with (Done id)
    by (rewrite <- Hid; unfold getNFTID, field_string; cbn [with_params ctx_params]; by rewrite find_resent).
  eapply triple_bind; [apply (traverse_spec rows lo hi m); try done|].
  - eapply (nft_page fuel w0 T); [done | apply Hreq | by apply rows_ok_fit].
  - intros r. apply triple_pre_pure; intros Ha. apply triple_ret. intros w Hw. split; [|done].
    destruct Ha as (response & Ha). pose proof Ha as (objs & -> & _). apply answer_set; [done..|]. by exists response.
Qed.


End walk.

(** ** An account with three transactions *)

#[local] Existing Instances book_ripple book_amounts.

#[local] Instance walk_rendering : @TxRendering book_ripple book_amounts := {
  hasDeliveredAmount := fun _ => false; meta_DeliveredAmount := fun _ => 0;
  tx_toJson := fun _ => []; meta_toJson := fun _ => [];
  amt_json_dated := JInt64; blob_strHex := fun b => match b with [z] => z_text z | _ => "" end; account_text := z_text
}.

(** Account 1, in the ledgers 7, 7 and 9. *)
Definition history_tables : Tables :=
  set_account_tx {[AccountID_bytes 1 :=
    <[(7, 2) := uint256_bytes 12]> (<[(9, 0) := uint256_bytes 13]> {[(7, 1) := uint256_bytes 11]})]}
    (set_transactions (<[uint256_bytes 12 := (7, 101, [2], [2])]> (<[uint256_bytes 13 := (9, 102, [3], [3])]>
       {[uint256_bytes 11 := (7, 100, [1], [1])]})) no_tables).

(** The first read is refused once. *)
Definition history_world : Cass MemSession :=
  mkCass (mkMemSession history_tables [(CASS_ERROR_OTHER 5, false)] []) SimpleCache_init
    (Some (mkLedgerRange 5 9)) 1 0 10 0 100 0 0 [].

Definition history_ctx (forward : bool) : Context :=
  mkContext "account_tx"
    [("account", JString "e"); ("limit", JInt64 1); ("binary", JBool true); ("forward", JBool forward);
     ("ledger_index_min", JInt64 6); ("ledger_index_max", JInt64 8)] None (mkLedgerRange 5 9) "".

Lemma history_rows :
  tx_rows_asc (AccountID_bytes 1) (t_account_tx history_tables) =
    [((7, 1), uint256_bytes 11); ((7, 2), uint256_bytes 12); ((9, 0), uint256_bytes 13)].
Proof. by vm_compute. Qed.

